(* ===== verification/_CoqProject ===== *)
-Q . S2P
Prelude.v
Common.v
CppStrings.v
CppFloats.v
CPUUtil.v
UnitTk.v
TranslatorTk.v
CoveringRandom.v
RandAlgo.v
BlockSizeMix.v
OffsetGen.v
StringTk.v
PathStore.v
CustomTree.v
PropertyTree.v
ServiceArgs.v
NetBench.v
ProgLists.v
S3UploadStore.v
RateLimiter.v
LatencyHistogram.v
LiveOps.v
Statistics.v
Journal.v
JournalLocks.v
JournalStore.v
Integrity.v
RWLoop.v
Effects.v
RemoteStats.v
StatsTheory.v
AsyncEngine.v
AsyncTheory.v
AsyncKernels.v
AsyncProgress.v
AnyGen.v
FileTk.v
FileIter.v
FileIterSafety.v
PhaseWork.v
PosixFs.v
PhaseWorkSafety.v
DirNames.v
DirLifecycle.v
DirRun.v
ProgArgs.v
ProgArgsTheory.v
Workers.v
Coordinator.v
HttpService.v
PhaseProtocol.v
BoolArgs.v
CheckArgs.v
CheckArgsTheory.v
S3Upload.v
S3SharedUpload.v
