(* ===== verification/Prelude.v ===== *)
(** * elbencho: a verification development

    elbencho is a benchmark for files, block devices and object storage.  A run is a sequence of
    phases (create directories, write, read, delete, ...).  In each phase a number of worker
    threads, on this host or on remote services, generate I/O: a worker asks an _offset
    generator_ for the next offset and block size, fills or checks the I/O buffer, issues the
    access and records bytes and latency.  Optional parts around that loop are: the _custom
    tree_, whose files are divided among the workers; _data verification_, which makes a read
    recognise wrong content; the _write journal_, which remembers for each block of a target
    what was written last, so that also random and interrupted writes can be verified; _rate
    limits_; and _shared multipart uploads_ of S3 objects.  All file names below are under
    src/source/.

    ** Parts, files and correspondence

    - [Prelude]: machine integers ([u64], [+₆₄] and the like are the wrap-around of [uint64_t]),
      exceptions as the sum type [result], sums and tilings of ranges, byte order.
    - [CppStrings]: [std::to_string], [atoll], [stoull], [boost::split] as far as they are used;
      [CppFloats]: [float] and [double] on the Standard Library's specification of IEEE 754.
    - [CPUUtil] (CPUUtil.{h,cpp}): the utilization between two readings of /proc/stat.
    - [TranslatorTk] (toolkits/TranslatorTk.cpp): names of phases and modes, flags, and the
      expansion of lists and ranges in square brackets.
    - [UnitTk] (toolkits/UnitTk.cpp): sizes with unit suffixes, elapsed times.
    - [CoveringRandom] (toolkits/offsetgen/OffsetGenRandomAlignedFullCoverageV2.h, class
      [CoveringRandomGenerator]): the linear congruential generator that visits each number of a
      range once.
    - [RandAlgo] (toolkits/random/): the random algorithms as instances of a type class, the
      SIMD variant, the range wrapper and the selection by name.
    - [BlockSizeMix] (toolkits/BlockSizeMix.{h,cpp}): the weighted mix of block sizes.
    - [OffsetGen] (toolkits/offsetgen/): all offset generators.  The abstract C++ class is the
      type class [OffsetGenerator]; what its clients may rely on is [OffsetGenLaws], which each
      generator discharges with its own invariant.
    - [StringTk] (toolkits/Base64Encoder.cpp, StringTk.cpp, HashTk.cpp).
    - [PathStore] (PathStore.{h,cpp}): loading of tree files and the three ways to divide the
      files among the workers; [CustomTree] (ProgArgs.cpp, workers/LocalWorker.cpp): the tree of a
      run on all services.
    - [S3UploadStore] (S3UploadStore.{h,cpp}): the store of shared multipart uploads.  [S3Upload]
      (workers/LocalWorker.cpp): uploads and downloads of one worker; [S3SharedUpload]: uploads of
      several workers and their cleanup, as steps.  The service is the record [S3Ops]; what it
      documents are the classes [S3Laws] and [S3FrameLaws], with an instance in memory.
    - [RateLimiter] (toolkits/RateLimiter.h, RateLimiterRWMixThreads.{h,cpp}): the limit of one
      thread, and the balance of reader and writer threads as a step relation.
    - [LatencyHistogram] (LatencyHistogram.{h,cpp}) and [LiveOps] (LiveOps.h, LiveLatency.h): the
      statistics of a worker, how they are merged and how they travel to the master.
      [Statistics] (Statistics.cpp): the results of a phase, live statistics and the reply of a
      service; [RemoteStats] (workers/RemoteWorker.cpp): what the master makes of the replies;
      [StatsTheory]: results over services against results of one process.
    - [Journal] (toolkits/Journal.{h,cpp}): the journal of one target and the life cycle of an
      I/O slot ([JournalBlockIO]: begin, commit, release), as functions of the mapped file and
      the table of stripe locks; [JournalLocks] (the same with workers/LocalWorker.cpp): the
      worker threads as a step relation in which every single lock operation is a step;
      [JournalStore] (toolkits/JournalStore.{h,cpp}): opening or creating the journals of a run.
    - [Integrity] (workers/LocalWorker.cpp): filling and checking buffers, with and without a
      journal, and the division of an offset into file and offset.
    - [RWLoop] (workers/LocalWorker.cpp): [initPhaseFunctionPointers()], the decision between read
      and write, the journal calls and [rwBlockSized()], the synchronous engine.  Its state
      record has the fields of the worker that the loop changes; an iteration ends as "go on",
      "return" or "throw", each with its state.  It is generic in the offset generator and the
      storage.
    - [Common] (Common.h): phases, modes and path types.
    - [Effects]: programs with state, exceptions and fuel ([eff]), their partial ([wpp]) and total
      ([wpt]) preconditions and frame conditions ([within]).
    - [AsyncEngine] (workers/LocalWorker.cpp): [aioBlockSized()] and [spdkAioBlockSized()].  The
      loop with its slots, deferred draws and completions is written once against the class
      [AsyncEngine], of which Linux AIO and SPDK are instances; [AsyncTheory] has its invariant,
      [AsyncKernels] the laws of both instances, [AsyncProgress] termination.
    - [AnyGen] (workers/LocalWorker.cpp): [initPhaseRWOffsetGen()] and the generator of
      [fileModeIterateFilesRand()]; the polymorphic object is a sum of the generators and itself
      an instance of the class and its laws.
    - [FileTk] (toolkits/FileTk.{h,cpp}): the system calls as a record [Os] with the laws
      [OsLaws], and the functions built on them.
    - [FileIter] (workers/LocalWorker.cpp): the iteration over directories, files and slices of
      files; [PhaseWork]: one pass of [LocalWorker::run()], from the phase to the routine.
      [FileIterSafety] and [PhaseWorkSafety] prove that handles are released; [PosixFs] is the
      part of a file system that directory mode relies on ([FsLaws]) with a model in memory;
      [DirNames], [DirLifecycle] and [DirRun] follow a whole run in directory mode.
    - [Workers], [Coordinator] (workers/Worker.cpp, WorkerManager.cpp, WorkersSharedData.cpp,
      LocalWorker.cpp and RemoteWorker.cpp [run()], Coordinator.cpp): the phase protocol as a step
      relation in which every access to the shared state is a step, with an abstract monitor of
      phases; [PhaseProtocol] has the simulation and its consequences.  [HttpService]
      (HTTPServiceSWS.cpp): the requests of a service next to its worker threads, as steps.
    - [PropertyTree] and [ServiceArgs] (ProgArgs.cpp): the arguments as a property tree, as the
      master sends them and a service reads them, and the ranks of the workers.
    - [NetBench] (workers/LocalWorker.cpp): servers, clients, connections and transfers of a
      network benchmark.
    - Program arguments (ProgArgs.{h,cpp}).  [BoolArgs]: switches with a value.  [ProgLists]: the
      lists of paths, hosts, servers, endpoints and devices.  [CheckArgs]: the constructor behind
      the option parser, from the benchmark mode to [checkArgs()].  [ProgArgs]: opening the paths
      and [checkPathDependentArgs()]; [ProgArgsTheory] and [CheckArgsTheory] have the theorems.

    C++ objects are records, methods are functions from the old to the new record, exceptions
    are [Throw], and an operation that would block or run out of fuel is [None].  Definitions
    keep the source's names; a class name is put in front where a name would be ambiguous.

    ** What the theorems show

    - The engine.  [verified_write_then_read_phases]: over any offset generator that fulfils its
      contract, a write phase accesses exactly the offsets of the generator and a read phase
      over what it wrote succeeds, with exact counters.  [failed_write_stays_uninitialized]: what
      a rejected write leaves behind, for any storage.
    - The asynchronous engines.  [async_no_draw_lost]: whatever the storage and the journal do, each
      draw of the generator is issued once or skipped by the journal.  [async_phase_completes]:
      on storage that answers, the loop ends after the whole amount, with exact counters.
    - The phase protocol.  [phases_refine_monitor]: every interleaving of coordinator and workers is
      a run of the abstract monitor; [phases_no_deadlock], [phase_barrier] and
      [exit_code_meaning] are liveness, the barrier between phases and the result of a run.
    - Directories and files.  [dir_mode_lifecycle]: a run in directory mode creates exactly the
      planned entries, counts each once per phase and restores the file system;
      [phase_releases_handles]: no phase leaks a descriptor or a mapping, on any error path.
    - Services.  [distributed_results_equal_local]: the results that the master computes from the
      replies of its services are those of one process with all the workers.
      [service_starts_idle]: a service starts a phase only when all its workers are idle;
      [service_join_ends]: whatever the workers do, joining them ends.  [service_args_round_trip],
      [service_ranks_consecutive], [bench_paths_round_trip]: arguments, ranks and paths arrive.
    - Arguments.  [accepted_run_workers_apart]: from the options of the command line on, random
      access of different workers of an accepted run never meets.  [accepted_args_wf],
      [opened_paths_hold_range]: accepted sizes fit to one another and to the opened targets.
      [intercepted_args_effective]: switches with values.  [accepted_netbench_matches] and
      [netbench_transfer_completes]: an accepted network benchmark connects and completes.
      [expandSquareBrackets_ends]: the expansion of lists and ranges ends.
    - Offset generators.  Accesses never leave the range of the worker and add up to the
      requested amount ([slice_drain_confined], for every instance of the laws); the sequential,
      reverse, strided, random aligned and full-coverage generators produce the sequences that
      they promise.  The full-coverage generator visits every block exactly once per cycle, from
      the proof that the linear congruential generator has full period.
    - Custom tree.  The sublists of all workers, together, are exactly all blocks of all files,
      for each of the three ways of dividing them, also over services ([custom_tree_distributed]).
    - Write journal.  A write claims its blocks, zeroes their cells, and its commit makes them
      verifiable with the next generation; a begin decides among read, write and skip as the
      intent demands; the lock regions cover the I/O; under concurrency two threads never have
      conflicting accesses in flight and the threads never block each other forever; a journal
      file survives being closed and opened; stale content is detected.
    - S3.  [s3_upload_then_download]: an object that was uploaded in parts can be downloaded and
      verified; [multipart_upload_cleans_up]: on every error path an upload is aborted;
      [shared_uploads_assemble]: workers that share the blocks of objects in any way assemble all of
      them, in every interleaving.
    - Data verification.  A write with any block sizes verifies under any other block sizes, and
      the check accepts nothing else.
    - Rate limits, statistics and text formats: bounds in every interleaving, merging of histograms as
      addition, percentiles, round trips.

    ** Fuel and bounds

    [rwBlockSized] takes the number of iterations as fuel; a phase needs at most one per byte
    left to submit, and the phase theorem gives that number and shows that the loop returns.
    [CoveringRandom] walks at most the modulus.  The search for the size of lock regions runs at
    most 64 times (a 64-bit shift), numbers print with at most 20 digits; both are proved to be
    enough.  The asynchronous loop takes the number of rounds and of submissions per round; one
    per byte is proved to be enough.  The creation of parent directories recurs over the length
    of the path.  [worker_phase] takes the number of passes of the infinite mode, which ends only
    by an interruption.  The expansion of brackets takes the number of passes; there always is
    one that is enough.  Uploads and downloads of S3 objects take the number of parts; one per byte
    is enough.  Theorems state the limit under which a 64-bit sum does not wrap wherever the code
    has no check of its own.

    ** Parameters

    Storage, clock, user interruption and file range locks are the record [Device].  System calls
    of the journal are a predicate that says which succeed; those of the file iteration are the record
    [Os]; the transfer of one file is an argument of the iteration ([engine]); [std::random_device], the JSON
    parser, the S3 server, the contents of files, the current directory, the numbers of /proc/stat and
    boost's search for an option are arguments of the functions that use them.  The environment, NUMA,
    CUDA, SPDK and S3 libraries are the record [HostEnv] of [CheckArgs].  The HTTP and JSON libraries
    transport property trees; the growth of a [std::vector] is a parameter of [BoolArgs].

    ** Not modelled

    - S3 transfers with an I/O depth above 1, S3 listings, buckets, ACLs and tags, the HDFS and CUDA
      routines of a worker, the S3 toolkit and its credentials, and the SPDK managers: they mostly
      consist of calls into these libraries.
    - Option parsing, which boost does from a table, and help texts.
    - The output of statistics to terminal, CSV and JSON files, the operations log and logging.
    - The HTTP libraries and the second HTTP service, which has the same handlers on another library.
    - Sockets, terminal, signals and NUMA: wrappers of system calls.
    - After an exception from [msync] in [rwBlockSized()] the content of the journal is not
      tracked: the phase is over then.
    - Functions that only print floating-point numbers. *)

From stdpp Require Export base tactics numbers sets list option strings.
From Stdlib Require Export ZArith Lia.

#[global] Open Scope Z_scope.

(** ** Machine integers *)

Abbreviation TWO64 := 18446744073709551616 (only parsing).
Abbreviation TWO32 := 4294967296 (only parsing).

(** [uint64_t]/[size_t], [uint32_t]/[unsigned] and [uint8_t] wrap-around. *)
Definition u64 (z : Z) : Z := z `mod` 18446744073709551616.
Definition u32 (z : Z) : Z := z `mod` 4294967296.
Definition u8 (z : Z) : Z := z `mod` 256.

(** C++ [x ? a : b] on integers is a test against zero. *)
Definition truthy (z : Z) : bool := negb (z =? 0).

Declare Scope machine_scope.
Delimit Scope machine_scope with M.
Notation "x +₆₄ y" := (u64 (x + y)) (at level 50, left associativity) : machine_scope.
Notation "x -₆₄ y" := (u64 (x - y)) (at level 50, left associativity) : machine_scope.
Notation "x *₆₄ y" := (u64 (x * y)) (at level 40, left associativity) : machine_scope.
Open Scope machine_scope.

(** ** Errors

    The C++ code reports errors with exceptions.  An exception is a value of [exn]; the message
    is kept up to the part that does not depend on run-time values.  [PtreeError] is an exception
    of [boost::property_tree]: a value is missing or cannot be converted; [StdException] is one
    of the standard library, and [ThrownString] a thrown [std::string]. *)

Inductive exn : Type :=
  | ProgException (msg : string)
  | ProgInterruptedException (msg : string)
  | ProgTimeLimitException (msg : string)
  | WorkerException (msg : string)
  | WorkerInterruptedException (msg : string)
  | WorkerRemoteException (msg : string)
  | PtreeError (key : string)
  | StdException (what : string)
  | ThrownString (msg : string).

#[global] Instance exn_eq_dec : EqDecision exn.
Proof. solve_decision. Defined.

Inductive result (A : Type) : Type :=
  | Ok (a : A)
  | Throw (e : exn).
Arguments Ok {_} _.
Arguments Throw {_} _.

#[global] Instance result_ret : MRet result := @Ok.
#[global] Instance result_bind : MBind result := fun A B f r =>
  match r with Ok a => f a | Throw e => Throw e end.
#[global] Instance result_fmap : FMap result := fun A B f r =>
  match r with Ok a => Ok (f a) | Throw e => Throw e end.

(** Calls that may not come back: [None] is a loop that does not end, a fuel that is not enough, or
    undefined behaviour. *)
Definition and_then {A B} (m : option (result A)) (f : A -> option (result B)) : option (result B) :=
  match m with Some (Ok a) => f a | Some (Throw e) => Some (Throw e) | None => None end.
Notation "x ⇐ m ; f" := (and_then m (fun x => f)) (at level 20, m at level 100, f at level 200, right associativity).

(** ** Lists of integers *)

Definition Zsum (l : list Z) : Z := foldr Z.add 0 l.

(** The i-th block of the range [[start, start + total)]; the last one may be partial. *)
Definition tile_block (start total bs i : Z) : Z * Z := (start + i * bs, Z.min bs (total - i * bs)).

Definition tile_count (total bs : Z) : Z := (total + bs - 1) / bs.

Definition tile (start total bs : Z) : list (Z * Z) :=
  tile_block start total bs <$> seqZ 0 (tile_count total bs).

(** ** Lemmas *)

Lemma u64_range z : 0 <= u64 z < TWO64.
Proof. apply Z.mod_pos_bound; lia. Qed.

Lemma u64_small z : 0 <= z < TWO64 -> u64 z = z.
Proof. apply Z.mod_small. Qed.

Lemma u64_idemp z : u64 (u64 z) = u64 z.
Proof. apply Zmod_mod. Qed.

Lemma u64_add_mod_l a b : u64 (u64 a + b) = u64 (a + b).
Proof. apply Zplus_mod_idemp_l. Qed.

Lemma u64_add_mod_r a b : u64 (a + u64 b) = u64 (a + b).
Proof. apply Zplus_mod_idemp_r. Qed.

Lemma u64_sub_mod_l a b : u64 (u64 a - b) = u64 (a - b).
Proof. apply Zminus_mod_idemp_l. Qed.

Lemma u64_divide_mod m z : 0 < m -> (m | TWO64) -> u64 z `mod` m = z `mod` m.
Proof. intros Hm Hd. unfold u64. by apply Z.mod_mod_divide. Qed.

Lemma Zsum_app l k : Zsum (l ++ k) = Zsum l + Zsum k.
Proof. induction l as [|x l IH]; csimpl; unfold Zsum in *; simpl; lia. Qed.

Lemma Zsum_cons x l : Zsum (x :: l) = x + Zsum l.
Proof. done. Qed.

Lemma Zsum_perm l k : l ≡ₚ k -> Zsum l = Zsum k.
Proof. induction 1; unfold Zsum in *; simpl in *; lia. Qed.

Lemma Zsum_nonneg l : Forall (fun x => 0 <= x) l -> 0 <= Zsum l.
Proof. induction 1; unfold Zsum in *; simpl in *; lia. Qed.

Lemma filter_all {A} (P : A -> Prop) `{!forall x, Decision (P x)} l :
  Forall P l -> filter P l = l.
Proof. induction 1; [done|]. rewrite filter_cons_True by done. by f_equal. Qed.

Lemma filter_none {A} (P : A -> Prop) `{!forall x, Decision (P x)} l :
  Forall (fun x => ~ P x) l -> filter P l = [].
Proof. induction 1; [done|]. by rewrite filter_cons_False. Qed.

Lemma Forall_seqZ (P : Z -> Prop) s n :
  (forall i, s <= i < s + n -> P i) -> Forall P (seqZ s n).
Proof. intros H. apply Forall_forall. intros x Hx. apply elem_of_seqZ in Hx. auto. Qed.

Create Rewrite HintDb machine.
#[export] Hint Rewrite u64_idemp u64_add_mod_l u64_add_mod_r u64_sub_mod_l : machine.

(** Discharge the wrap-around of an expression that is in range. *)
Ltac u64_elim :=
  repeat match goal with |- context [u64 ?z] => rewrite (u64_small z) by lia end.

(** Bit operations keep the width. *)
Lemma u64_iff_bits z : 0 <= z -> z < TWO64 <-> forall i, 64 <= i -> Z.testbit z i = false.
Proof. intros Hz. apply (Z.bounded_iff_bits_nonneg 64); lia. Qed.

Lemma lor_u64 x y : 0 <= x < TWO64 -> 0 <= y < TWO64 -> 0 <= Z.lor x y < TWO64.
Proof.
  intros [Hx Hx'] [Hy Hy']. assert (0 <= Z.lor x y) by (by apply Z.lor_nonneg).
  split; [done|]. apply u64_iff_bits; [done|]. rewrite u64_iff_bits in Hx', Hy' by done.
  intros i Hi. by rewrite Z.lor_spec, Hx', Hy'.
Qed.

Lemma lxor_u64 x y : 0 <= x < TWO64 -> 0 <= y < TWO64 -> 0 <= Z.lxor x y < TWO64.
Proof.
  intros [Hx Hx'] [Hy Hy']. assert (0 <= Z.lxor x y) by (by apply Z.lxor_nonneg).
  split; [done|]. apply u64_iff_bits; [done|]. rewrite u64_iff_bits in Hx', Hy' by done.
  intros i Hi. by rewrite Z.lxor_spec, Hx', Hy'.
Qed.

Lemma shiftr_u64 x k : 0 <= x < TWO64 -> 0 <= k -> 0 <= Z.shiftr x k < TWO64.
Proof.
  intros Hx Hk. rewrite Z.shiftr_div_pow2 by lia. split; [apply Z.div_pos; lia|].
  apply Z.div_lt_upper_bound; [lia|]. nia.
Qed.

Create HintDb u64 discriminated.
#[export] Hint Resolve u64_range lor_u64 lxor_u64 shiftr_u64 : u64.
#[export] Hint Extern 1 (0 <= _) => lia : u64.
#[export] Hint Extern 1 (0 <= _ <= _) => lia : u64.

(** ** Bytes

    A byte is an integer in [0..255].  A 64-bit value is stored in memory in little-endian
    order, as on the platforms the program is built for. *)

Fixpoint le_bytes (n : nat) (z : Z) : list Z :=
  match n with
  | O => []
  | S n => z `mod` 256 :: le_bytes n (z / 256)
  end.

(** The object representation of a [uint64_t]. *)
Definition u64_bytes (z : Z) : list Z := le_bytes 8 z.

#[global] Arguments u64_bytes : simpl never.

Lemma le_bytes_length n z : length (le_bytes n z) = n.
Proof. revert z. induction n; intros z; simpl; auto. Qed.

Lemma u64_bytes_length z : length (u64_bytes z) = 8%nat.
Proof. apply le_bytes_length. Qed.

Lemma le_bytes_lookup n z i :
  (i < n)%nat -> le_bytes n z !! i = Some ((z / 256 ^ Z.of_nat i) `mod` 256).
Proof.
  revert z i. induction n as [|n IH]; intros z i Hi; [lia|].
  destruct i as [|i]; [simpl; by rewrite Z.div_1_r|]. cbn [le_bytes lookup list_lookup].
  rewrite IH by lia. rewrite Nat2Z.inj_succ, Z.pow_succ_r, Zdiv_Zdiv by lia. done.
Qed.

Lemma le_bytes_inj n x y :
  0 <= x < 256 ^ Z.of_nat n -> 0 <= y < 256 ^ Z.of_nat n -> le_bytes n x = le_bytes n y -> x = y.
Proof.
  revert x y. induction n as [|n IH]; intros x y Hx Hy Heq; [simpl in *; lia|].
  simpl in Heq. injection Heq as Hm Hd.
  rewrite Nat2Z.inj_succ, Z.pow_succ_r in Hx, Hy by lia.
  rewrite (Z.div_mod x 256), (Z.div_mod y 256), Hm by lia. f_equal. f_equal. apply IH.
  - split; [apply Z.div_pos; lia|apply Z.div_lt_upper_bound; lia].
  - split; [apply Z.div_pos; lia|apply Z.div_lt_upper_bound; lia].
  - done.
Qed.

Lemma u64_bytes_inj x y :
  0 <= x < TWO64 -> 0 <= y < TWO64 -> u64_bytes x = u64_bytes y -> x = y.
Proof. apply (le_bytes_inj 8). Qed.

(** ** Ranges cut into blocks *)

Lemma tile_count_spec total bs :
  0 < bs -> 0 <= total ->
  0 <= tile_count total bs <= total /\ total <= tile_count total bs * bs
  /\ (tile_count total bs - 1) * bs < total.
Proof.
  intros Hbs Ht. unfold tile_count. pose proof (Z.div_mod (total + bs - 1) bs ltac:(lia)).
  pose proof (Z.mod_pos_bound (total + bs - 1) bs ltac:(lia)).
  set (q := (total + bs - 1) / bs) in *. assert (0 <= q) by (apply Z.div_pos; lia). nia.
Qed.

Lemma tile_count_exact n bs : 0 < bs -> tile_count (bs * n) bs = n.
Proof.
  intros Hbs. unfold tile_count. replace (bs * n + bs - 1) with (n * bs + (bs - 1)) by lia.
  rewrite Z.div_add_l, Z.div_small by lia. lia.
Qed.

Lemma seqZ_snoc m n : 0 <= n -> seqZ m (n + 1) = seqZ m n ++ [m + n].
Proof. intros Hn. rewrite seqZ_app by lia. done. Qed.

Lemma concat_seqZ start T n : 0 <= T -> 0 <= n -> concat ((fun i => seqZ (start + i * T) T) <$> seqZ 0 n) = seqZ start (n * T).
Proof.
  intros HT Hn. pattern n. apply natlike_ind; [done| |done]. clear n Hn. intros n Hn IH.
  unfold Z.succ in *. rewrite seqZ_snoc by done. rewrite fmap_app, concat_app, IH. cbn [fmap list_fmap concat]. rewrite app_nil_r.
  replace ((n + 1) * T) with (n * T + T) by lia. by rewrite seqZ_app by lia.
Qed.

Lemma seqZ_drop s n k : 0 <= k <= n -> drop (Z.to_nat k) (seqZ s n) = seqZ (s + k) (n - k).
Proof.
  intros Hk. replace n with (k + (n - k)) at 1 by lia. rewrite seqZ_app by lia.
  rewrite drop_app_length'; [done|]. rewrite length_seqZ. lia.
Qed.

Lemma seqZ_take s n k : 0 <= k <= n -> take (Z.to_nat k) (seqZ s n) = seqZ s k.
Proof.
  intros Hk. replace n with (k + (n - k)) at 1 by lia. rewrite seqZ_app by lia.
  rewrite take_app_length'; [done|]. rewrite length_seqZ. lia.
Qed.

Lemma Zsum_fmap_insert {A} (f : A -> Z) l i x y :
  l !! i = Some x -> Zsum (f <$> <[i := y]> l) = Zsum (f <$> l) - f x + f y.
Proof.
  intros Hi. rewrite list_fmap_insert. pose proof (lookup_lt_Some _ _ _ Hi) as Hlt.
  rewrite <- (take_drop_middle l i x Hi) at 2. rewrite insert_take_drop by (by rewrite length_fmap).
  rewrite fmap_app, fmap_cons, !Zsum_app, !Zsum_cons, fmap_take, fmap_drop. lia.
Qed.

(** ** Distributing the elements of a list *)

(** Every n-th element of a list whose first element has index [c], for the given rank. *)
Fixpoint nth_from {A} (n rank c : Z) (l : list A) : list A :=
  match l with
  | [] => []
  | x :: l => if rank =? c `mod` n then x :: nth_from n rank (c + 1) l else nth_from n rank (c + 1) l
  end.

Lemma concat_insert_one {A} (x : A) (f g : Z -> list A) (a : Z) (l : list Z) :
  NoDup l -> a ∈ l -> f a = x :: g a -> (forall r, r <> a -> f r = g r) ->
  concat (f <$> l) ≡ₚ x :: concat (g <$> l).
Proof.
  intros Hnd. induction Hnd as [|r l Hr Hnd IH]; intros Ha Hfa Hf; [by apply elem_of_nil in Ha|].
  rewrite !fmap_cons. cbn [concat]. destruct (decide (r = a)) as [->|Hne].
  - rewrite Hfa. simpl. constructor. apply Permutation_app_head. apply reflexive_eq. f_equal.
    apply list_fmap_ext. intros i r Hlk. apply Hf. intros ->. by apply list_elem_of_lookup_2 in Hlk.
  - apply elem_of_cons in Ha as [->|Ha]; [done|]. rewrite Hf, IH by done. by rewrite Permutation_middle.
Qed.

(** The ranks get every element exactly once. *)
Lemma nth_from_partition {A} (n c : Z) (l : list A) :
  0 < n -> concat ((fun rank => nth_from n rank c l) <$> seqZ 0 n) ≡ₚ l.
Proof.
  intros Hn. revert c. induction l as [|x l IH]; intros c.
  - simpl. induction (seqZ 0 n); simpl; auto.
  - rewrite (concat_insert_one x _ (fun rank => nth_from n rank (c + 1) l) (c `mod` n)), IH; [done|..].
    + apply NoDup_seqZ.
    + apply elem_of_seqZ. pose proof (Z.mod_pos_bound c n Hn). lia.
    + simpl. by rewrite Z.eqb_refl.
    + intros r Hr. simpl. by rewrite (proj2 (Z.eqb_neq _ _)).
Qed.

Lemma nth_from_app {A} (n rank c : Z) (l k : list A) :
  nth_from n rank c (l ++ k) = nth_from n rank c l ++ nth_from n rank (c + Z.of_nat (length l)) k.
Proof.
  revert c. induction l as [|x l IH]; intros c; [by rewrite Z.add_0_r|]. simpl. rewrite IH.
  replace (c + 1 + Z.of_nat (length l)) with (c + Z.of_nat (S (length l))) by lia. by destruct (_ =? _).
Qed.

(** After a hit the next [n - 1] elements are not taken. *)
Lemma nth_from_skip {A} (n rank c : Z) (k : nat) (l : list A) :
  0 < n -> (forall i, 0 <= i < Z.of_nat k -> (c + i) `mod` n <> rank) ->
  nth_from n rank c l = nth_from n rank (c + Z.of_nat k) (drop k l).
Proof.
  intros Hn. revert c l. induction k as [|k IH]; intros c l Hk; [by rewrite Z.add_0_r|].
  destruct l as [|x l]; [done|]. simpl.
  rewrite (proj2 (Z.eqb_neq _ _)). 2: { intros ->. apply (Hk 0); [lia|]. by rewrite Z.add_0_r. }
  rewrite (IH (c + 1)).
  - f_equal. lia.
  - intros i Hi. replace (c + 1 + i) with (c + (i + 1)) by lia. apply Hk. lia.
Qed.

(** From one element of a rank to the next one. *)
Lemma nth_from_period {A} (n rank idx : Z) (l : list A) :
  0 < n -> 0 <= idx -> idx `mod` n = rank ->
  nth_from n rank (idx + 1) (drop (S (Z.to_nat idx)) l) = nth_from n rank (idx + n) (drop (Z.to_nat (idx + n)) l).
Proof.
  intros Hn Hi Hm. rewrite (nth_from_skip n rank (idx + 1) (Z.to_nat (n - 1))); [|lia|].
  - rewrite drop_drop. f_equal; [lia|]. f_equal. lia.
  - intros i Hi' Heq. rewrite <- Hm in Heq.
    pose proof (Z.div_mod (idx + 1 + i) n ltac:(lia)). pose proof (Z.div_mod idx n ltac:(lia)).
    assert (1 + i = n * ((idx + 1 + i) / n - idx / n)) as Hd by lia.
    assert (i < n - 1) as Hlt by lia. clear - Hd Hi' Hn Hlt. generalize dependent ((idx + 1 + i) / n - idx / n).
    intros d Hd. assert (0 < d) by nia. nia.
Qed.

(** The first element of a rank. *)
Lemma nth_from_first {A} (n rank : Z) (l : list A) :
  0 <= rank < n -> nth_from n rank 0 l = nth_from n rank rank (drop (Z.to_nat rank) l).
Proof.
  intros Hr. rewrite (nth_from_skip n rank 0 (Z.to_nat rank) l); [f_equal; lia|lia|].
  intros i Hi. rewrite Z.mod_small; lia.
Qed.
