(* ===== verification/Common.v ===== *)
(** The enumerations of Common.h that several components share. *)

From S2P Require Import Prelude.

(** The phases of a run. *)
Inductive BenchPhase : Type :=
  | BenchPhase_IDLE | BenchPhase_TERMINATE | BenchPhase_CREATEDIRS | BenchPhase_DELETEDIRS
  | BenchPhase_CREATEFILES | BenchPhase_DELETEFILES | BenchPhase_READFILES | BenchPhase_SYNC
  | BenchPhase_DROPCACHES | BenchPhase_STATFILES | BenchPhase_STATDIRS | BenchPhase_LISTOBJECTS
  | BenchPhase_LISTOBJPARALLEL | BenchPhase_MULTIDELOBJ | BenchPhase_PUTOBJACL | BenchPhase_GETOBJACL
  | BenchPhase_PUTBUCKETACL | BenchPhase_GETBUCKETACL | BenchPhase_GET_S3_OBJECT_MD
  | BenchPhase_PUT_S3_OBJECT_MD | BenchPhase_DEL_S3_OBJECT_MD | BenchPhase_GET_S3_BUCKET_MD
  | BenchPhase_PUT_S3_BUCKET_MD | BenchPhase_DEL_S3_BUCKET_MD | BenchPhase_S3MPUCOMPLETE.

#[global] Instance BenchPhase_eq_dec : EqDecision BenchPhase.
Proof. solve_decision. Defined.

(** The values of the enumeration. *)
Definition BenchPhase_code (p : BenchPhase) : Z :=
  match p with
  | BenchPhase_IDLE => 0
  | BenchPhase_TERMINATE => 1
  | BenchPhase_CREATEDIRS => 2
  | BenchPhase_DELETEDIRS => 3
  | BenchPhase_CREATEFILES => 4
  | BenchPhase_DELETEFILES => 5
  | BenchPhase_READFILES => 6
  | BenchPhase_SYNC => 7
  | BenchPhase_DROPCACHES => 8
  | BenchPhase_STATFILES => 9
  | BenchPhase_STATDIRS => 10
  | BenchPhase_LISTOBJECTS => 11
  | BenchPhase_LISTOBJPARALLEL => 12
  | BenchPhase_MULTIDELOBJ => 13
  | BenchPhase_PUTOBJACL => 14
  | BenchPhase_GETOBJACL => 15
  | BenchPhase_PUTBUCKETACL => 16
  | BenchPhase_GETBUCKETACL => 17
  | BenchPhase_GET_S3_OBJECT_MD => 18
  | BenchPhase_PUT_S3_OBJECT_MD => 19
  | BenchPhase_DEL_S3_OBJECT_MD => 20
  | BenchPhase_GET_S3_BUCKET_MD => 21
  | BenchPhase_PUT_S3_BUCKET_MD => 22
  | BenchPhase_DEL_S3_BUCKET_MD => 23
  | BenchPhase_S3MPUCOMPLETE => 24
  end.

(** The kind of the benchmark paths that the user gave. *)
Inductive BenchPathType : Type := BenchPathType_DIR | BenchPathType_FILE | BenchPathType_BLOCKDEV.

#[global] Instance BenchPathType_eq_dec : EqDecision BenchPathType.
Proof. solve_decision. Defined.

Inductive BenchMode : Type :=
  | BenchMode_UNDEFINED | BenchMode_POSIX | BenchMode_S3 | BenchMode_HDFS | BenchMode_NETBENCH | BenchMode_SPDK.

#[global] Instance BenchMode_eq_dec : EqDecision BenchMode.
Proof. solve_decision. Defined.
