(* ===== verification/CppStrings.v ===== *)
(** The parts of the C++ and Boost string functions that the program uses: [std::to_string],
    [std::atoll], [std::stoull], [boost::split] and character tests.  A [std::string] is a
    [string]; its characters are bytes. *)

From S2P Require Import Prelude.
From Stdlib Require Export Ascii.
From Stdlib Require String.

#[global] Open Scope string_scope.
#[global] Open Scope Z_scope.
#[global] Arguments String.append !s1 s2 / : simpl nomatch.

(** ** Definitions *)

Definition char_code (c : ascii) : Z := Z.of_N (N_of_ascii c).
Definition char_of (z : Z) : ascii := ascii_of_N (Z.to_N z).

Definition isdigit (c : ascii) : bool := (48 <=? char_code c) && (char_code c <=? 57).
Definition isupper (c : ascii) : bool := (65 <=? char_code c) && (char_code c <=? 90).
Definition islower (c : ascii) : bool := (97 <=? char_code c) && (char_code c <=? 122).
Definition isalnum (c : ascii) : bool := isdigit c || isupper c || islower c.

(** [std::isspace] in the C locale. *)
Definition isspace (c : ascii) : bool :=
  (char_code c =? 32) || ((9 <=? char_code c) && (char_code c <=? 13)).

(** [std::toupper] in the C locale. *)
Definition toupper (c : ascii) : ascii := if islower c then char_of (char_code c - 32) else c.

(** [str.find(c) != npos] for a single character. *)
Fixpoint str_contains (c : ascii) (s : string) : bool :=
  match s with
  | "" => false
  | String d s => Ascii.eqb c d || str_contains c s
  end.

(** [s[s.length() - 1]] *)
Fixpoint str_last (s : string) : option ascii :=
  match s with
  | "" => None
  | String c "" => Some c
  | String _ s => str_last s
  end.

Fixpoint skip_spaces (s : string) : string :=
  match s with
  | String c s' => if isspace c then skip_spaces s' else s
  | "" => ""
  end.

(** The value of the leading digits of [s] and whether there is one. *)
Fixpoint scan_digits (s : string) (acc : Z) (seen : bool) : Z * bool :=
  match s with
  | String c s' =>
      if isdigit c then scan_digits s' (10 * acc + (char_code c - 48)) true else (acc, seen)
  | "" => (acc, seen)
  end.

Definition LLONG_MAX : Z := 2 ^ 63 - 1.
Definition LLONG_MIN : Z := - 2 ^ 63.

(** Optional sign after leading white space: is it negative, and the rest. *)
Definition scan_sign (s : string) : bool * string :=
  match skip_spaces s with
  | String "-" s' => (true, s')
  | String "+" s' => (false, s')
  | s' => (false, s')
  end.

(** [std::atoll]: no digits give 0; out of range saturates, as [strtoll] does. *)
Definition atoll (s : string) : Z :=
  let '(neg, s) := scan_sign s in
  let '(v, _) := scan_digits s 0 false in
  if neg then Z.max LLONG_MIN (- v) else Z.min LLONG_MAX v.

(** [std::stoull]: [None] for [std::invalid_argument] and [std::out_of_range]; a minus sign
    negates in [uint64_t]; trailing characters are ignored. *)
Definition stoull (s : string) : option Z :=
  let '(neg, s) := scan_sign s in
  let '(v, seen) := scan_digits s 0 false in
  if negb seen then None
  else if TWO64 <=? v then None
  else Some (if neg : bool then u64 (- v) else v).

Definition digit_char (d : Z) : ascii := char_of (48 + d).

(** Decimal digits of a non-negative number in front of [acc]; [fuel] bounds their number. *)
Fixpoint digits_onto (fuel : nat) (z : Z) (acc : string) : string :=
  match fuel with
  | O => acc
  | S fuel =>
      let acc := String (digit_char (z `mod` 10)) acc in
      if z / 10 =? 0 then acc else digits_onto fuel (z / 10) acc
  end.

(** [std::to_string] of a [uint64_t]; 20 digits are enough for 64 bits. *)
Definition to_string (z : Z) : string := digits_onto 20 z "".

(** [boost::split(.., is_any_of(c), token_compress_on)]: adjacent separators count as one, and
    a leading or trailing separator gives an empty first or last token. *)
Fixpoint split_compress (sep : ascii) (s : string) (acc : string) (in_sep : bool) : list string :=
  match s with
  | "" => [acc]
  | String c s =>
      if Ascii.eqb c sep
      then if in_sep then split_compress sep s acc true
           else acc :: split_compress sep s "" true
      else split_compress sep s (acc +:+ String c "") false
  end.

Definition boost_split (sep : ascii) (s : string) : list string := split_compress sep s "" false.

(** No character of [s] is [c]. *)
Definition str_free (c : ascii) (s : string) : Prop := str_contains c s = false.

(** ** Lemmas *)

Lemma char_code_range c : 0 <= char_code c < 256.
Proof. unfold char_code. pose proof (N_ascii_bounded c). lia. Qed.

Lemma char_code_char_of z : 0 <= z < 256 -> char_code (char_of z) = z.
Proof. intros Hz. unfold char_code, char_of. rewrite N_ascii_embedding; lia. Qed.

Lemma char_of_char_code c : char_of (char_code c) = c.
Proof. unfold char_code, char_of. rewrite N2Z.id. apply ascii_N_embedding. Qed.

Lemma digit_char_code d : 0 <= d < 10 -> char_code (digit_char d) = 48 + d.
Proof. intros Hd. apply char_code_char_of. lia. Qed.

Lemma digit_char_isdigit d : 0 <= d < 10 -> isdigit (digit_char d) = true.
Proof. intros Hd. unfold isdigit. rewrite digit_char_code by done. lia. Qed.

Lemma digit_char_not d c : 0 <= d < 10 -> isdigit c = false -> Ascii.eqb c (digit_char d) = false.
Proof.
  intros Hd Hc. apply Ascii.eqb_neq. intros ->. by rewrite digit_char_isdigit in Hc.
Qed.

Lemma str_app_assoc s t u : (s +:+ t) +:+ u = s +:+ (t +:+ u).
Proof. induction s; simpl; congruence. Qed.

Lemma str_app_nil_r s : s +:+ "" = s.
Proof. induction s; simpl; congruence. Qed.

Lemma digits_onto_app fuel z acc : digits_onto fuel z acc = digits_onto fuel z "" +:+ acc.
Proof.
  revert z acc. induction fuel as [|fuel IH]; intros z acc; [done|]. simpl.
  destruct (z / 10 =? 0); [done|].
  rewrite IH, (IH _ (String _ "")). by rewrite str_app_assoc.
Qed.

(** What holds of each digit holds of each character of a printed number. *)
Lemma digits_onto_free fuel z c :
  0 <= z -> isdigit c = false -> str_free c (digits_onto fuel z "").
Proof.
  unfold str_free. intros Hz Hc. revert z Hz.
  assert (Happ : forall s t, str_contains c (s +:+ t) = str_contains c s || str_contains c t).
  { intros s t. induction s as [|d s IHs]; [done|]. simpl. by rewrite IHs, orb_assoc. }
  induction fuel as [|fuel IH]; intros z Hz; [done|]. simpl.
  assert (Hd : Ascii.eqb c (digit_char (z `mod` 10)) = false).
  { apply digit_char_not; [|done]. apply Z.mod_pos_bound. lia. }
  destruct (z / 10 =? 0); simpl; [by rewrite Hd|].
  rewrite digits_onto_app, Happ, IH; [simpl; by rewrite Hd|]. apply Z.div_pos; lia.
Qed.

Lemma str_contains_app c s t : str_contains c (s +:+ t) = str_contains c s || str_contains c t.
Proof. induction s as [|d s IH]; [done|]. simpl. by rewrite IH, orb_assoc. Qed.

Lemma to_string_free z c : 0 <= z -> isdigit c = false -> str_contains c (to_string z) = false.
Proof. intros. by apply digits_onto_free. Qed.

Lemma scan_digits_nonneg s acc seen : 0 <= acc -> 0 <= fst (scan_digits s acc seen).
Proof.
  revert acc seen. induction s as [|c s IH]; intros acc seen Ha; [done|]. simpl.
  destruct (isdigit c) eqn:Hc; [|done]. apply IH. unfold isdigit in Hc. lia.
Qed.

Lemma scan_digits_app fuel z s acc seen :
  0 <= z < 10 ^ Z.of_nat fuel ->
  exists k, scan_digits (digits_onto fuel z s) acc seen
    = scan_digits s (10 ^ k * acc + z) (match fuel with O => seen | _ => true end) /\ 0 <= k.
Proof.
  revert z s. induction fuel as [|fuel IH]; intros z s Hz.
  { exists 0. simpl in *. split; [|lia]. f_equal. lia. }
  simpl. pose proof (Z.mod_pos_bound z 10).
  destruct (Z.eqb_spec (z / 10) 0) as [Hq|Hq].
  - exists 1. simpl. rewrite digit_char_isdigit, digit_char_code by lia. split; [|lia].
    f_equal. pose proof (Z.div_mod z 10). lia.
  - rewrite Nat2Z.inj_succ, Z.pow_succ_r in Hz by lia.
    destruct (IH (z / 10) (String (digit_char (z `mod` 10)) s)) as (k & Heq & Hk).
    { split; [apply Z.div_pos; lia|apply Z.div_lt_upper_bound; lia]. }
    destruct fuel as [|fuel].
    { simpl in Hz. exfalso. apply Hq. apply Z.div_small. lia. }
    exists (k + 1). rewrite Heq. simpl. rewrite digit_char_isdigit, digit_char_code by lia.
    split; [|lia]. f_equal. rewrite Z.pow_add_r by lia. pose proof (Z.div_mod z 10). lia.
Qed.

(** Parsing a printed number gives it back, whatever follows, unless that is a digit. *)
Lemma scan_to_string z s :
  0 <= z < TWO64 -> match s with String c _ => isdigit c = false | "" => True end ->
  scan_digits (to_string z +:+ s) 0 false = (z, true).
Proof.
  intros Hz Hs. unfold to_string. rewrite <- digits_onto_app.
  destruct (scan_digits_app 20 z s 0 false) as (k & -> & Hk); [lia|].
  replace (10 ^ k * 0 + z) with z by lia.
  destruct s as [|c s]; [done|]. simpl. by rewrite Hs.
Qed.

Lemma digits_onto_head fuel z s :
  0 <= z -> exists d r, digits_onto (S fuel) z s = String (digit_char d) r /\ 0 <= d < 10.
Proof.
  revert z s. induction fuel as [|fuel IH]; intros z s Hz.
  - exists (z `mod` 10), s. simpl. split; [by destruct (_ =? _)|]. apply Z.mod_pos_bound. lia.
  - change (exists d r, (if z / 10 =? 0 then String (digit_char (z `mod` 10)) s
        else digits_onto (S fuel) (z / 10) (String (digit_char (z `mod` 10)) s))
        = String (digit_char d) r /\ 0 <= d < 10).
    destruct (z / 10 =? 0); [|apply IH; apply Z.div_pos; lia].
    eexists _, _. split; [done|]. apply Z.mod_pos_bound. lia.
Qed.

(** A printed number has neither leading white space nor a sign. *)
Lemma scan_sign_to_string z s : 0 <= z -> scan_sign (to_string z +:+ s) = (false, to_string z +:+ s).
Proof.
  intros Hz. unfold to_string. rewrite <- digits_onto_app.
  destruct (digits_onto_head 19 z s Hz) as (d & r & -> & Hd). unfold scan_sign. simpl.
  assert (Hsp : isspace (digit_char d) = false).
  { unfold isspace. rewrite digit_char_code by done. lia. }
  rewrite Hsp. assert (Hc : d = 0 \/ d = 1 \/ d = 2 \/ d = 3 \/ d = 4 \/ d = 5 \/ d = 6
    \/ d = 7 \/ d = 8 \/ d = 9) by lia.
  by repeat destruct Hc as [->|Hc]; subst.
Qed.

Lemma atoll_to_string z s :
  0 <= z <= LLONG_MAX -> match s with String c _ => isdigit c = false | "" => True end ->
  atoll (to_string z +:+ s) = z.
Proof.
  intros Hz Hs. unfold atoll, LLONG_MAX in *. rewrite scan_sign_to_string by lia.
  rewrite scan_to_string by (done || lia). lia.
Qed.

Lemma stoull_to_string z : 0 <= z < TWO64 -> stoull (to_string z) = Some z.
Proof.
  intros Hz. unfold stoull. rewrite <- (str_app_nil_r (to_string z)).
  rewrite scan_sign_to_string, scan_to_string by (done || lia). simpl.
  by rewrite (proj2 (Z.leb_gt TWO64 z)) by lia.
Qed.

(** [boost_split] on text without the separator, and at a separator. *)
Lemma split_compress_free sep s acc rest :
  str_free sep s ->
  split_compress sep (s +:+ String sep rest) acc false
  = (acc +:+ s) :: split_compress sep rest "" true.
Proof.
  revert acc. induction s as [|c s IH]; intros acc Hs.
  - simpl. rewrite Ascii.eqb_refl, str_app_nil_r. done.
  - unfold str_free in *. simpl in *. apply orb_false_iff in Hs as [Hc Hs].
    rewrite Ascii.eqb_sym, Hc, IH, str_app_assoc by done. done.
Qed.

Lemma split_compress_last sep s acc :
  str_free sep s -> split_compress sep s acc false = [acc +:+ s].
Proof.
  revert acc. induction s as [|c s IH]; intros acc Hs.
  - simpl. by rewrite str_app_nil_r.
  - unfold str_free in *. simpl in *. apply orb_false_iff in Hs as [Hc Hs].
    rewrite Ascii.eqb_sym, Hc, IH, str_app_assoc by done. done.
Qed.

(** After a separator, text that starts with another character. *)
Lemma split_compress_in_sep sep c s acc :
  Ascii.eqb c sep = false ->
  split_compress sep (String c s) acc true = split_compress sep (String c s) acc false.
Proof. intros Hc. simpl. by rewrite Hc. Qed.
