(* ===== verification/CppFloats.v ===== *)
(** Floating-point numbers of C++: [float] and [double] are the binary formats of IEEE 754, in the
    specification of the Standard Library ([SpecFloat]), rounded to nearest. *)

From S2P Require Import Prelude.
From Stdlib Require Export SpecFloat.

#[local] Open Scope Z_scope.

(** ** Definitions *)

Record float_format : Type := mkFormat { ff_prec : Z; ff_emax : Z }.

Definition float_fmt : float_format := mkFormat 24 128.
Definition double_fmt : float_format := mkFormat 53 1024.

Section format.
Context (f : float_format).

(** Conversion of an integer. *)
Definition fl_of_Z (z : Z) : spec_float := binary_normalize (ff_prec f) (ff_emax f) z 0 false.

(** Conversion from another format. *)
Definition fl_convert (x : spec_float) : spec_float :=
  match x with
  | S754_finite s m e => binary_normalize (ff_prec f) (ff_emax f) (if s then Zneg m else Zpos m) e s
  | _ => x
  end.

Definition fl_add : spec_float -> spec_float -> spec_float := SFadd (ff_prec f) (ff_emax f).
Definition fl_sub : spec_float -> spec_float -> spec_float := SFsub (ff_prec f) (ff_emax f).
Definition fl_mul : spec_float -> spec_float -> spec_float := SFmul (ff_prec f) (ff_emax f).
Definition fl_div : spec_float -> spec_float -> spec_float := SFdiv (ff_prec f) (ff_emax f).
End format.

(** Conversion to an unsigned integer of [bits] bits cuts the fraction; a number that does not fit is
    undefined behaviour ([None]). *)
Definition fl_to_uint (bits : Z) (x : spec_float) : option Z :=
  match x with
  | S754_zero _ => Some 0
  | S754_finite s m e =>
      let v := if 0 <=? e then Zpos m * 2 ^ e else Zpos m / 2 ^ (- e) in
      if (if s then v =? 0 else v <? 2 ^ bits) then Some v else None
  | S754_infinity _ | S754_nan => None
  end.

(** [!x] *)
Definition fl_is_zero (x : spec_float) : bool := match x with S754_zero _ => true | _ => false end.

(** ** Lemmas *)

Lemma fl_to_uint_range bits x v : fl_to_uint bits x = Some v -> 0 <= bits -> 0 <= v < 2 ^ bits.
Proof.
  intros Hx Hb. assert (0 < 2 ^ bits) by (apply Z.pow_pos_nonneg; lia). destruct x as [s|s| |s m e]; cbn in Hx; try done.
  { injection Hx as <-. lia. }
  set (w := if 0 <=? e then _ else _) in Hx. assert (0 <= w) as Hw.
  { subst w. destruct (Z.leb_spec 0 e); [apply Z.mul_nonneg_nonneg; [lia|apply Z.pow_nonneg; lia]|].
    apply Z.div_pos; [lia|]. apply Z.pow_pos_nonneg; lia. }
  destruct s; [destruct (Z.eqb_spec w 0)|destruct (Z.ltb_spec w (2 ^ bits))]; simplify_eq; lia.
Qed.
