(* ===== verification/CPUUtil.v ===== *)
(** The CPU utilization (CPUUtil.h, CPUUtil.cpp): counters of the times in the first line of
    /proc/stat, and the share of the time between two updates that was not idle. *)

From S2P Require Import Prelude CppFloats.

#[local] Open Scope list_scope.
#[local] Open Scope Z_scope.

(** ** Definitions *)

Record CPUUtil : Type := mkCPUUtil {
  lastIdleCPUTime : Z;
  lastTotalCPUTime : Z;
  currentIdleCPUTime : Z;
  currentTotalCPUTime : Z;
}.

Definition CPUUtil_new : CPUUtil := mkCPUUtil 0 0 0 0.

(** Conversion to [int] (modulo [2 ^ 32]). *)
Definition s32 (z : Z) : Z := (z + 2 ^ 31) `mod` 2 ^ 32 - 2 ^ 31.

(** [std::accumulate(.., 0)]: the type of the sum is that of the initial value, an [int].  The result
    is stored in a [size_t]. *)
Definition accumulate_int (times : list Z) : Z := u64 (foldl (fun sum t => s32 (u64 (u64 sum + t))) 0 times).

(** [update()]; [cpuTimes] are the numbers in the first line of the file.  The last values are
    rotated also when there are not enough numbers. *)
Definition CPUUtil_update (cpuTimes : list Z) (u : CPUUtil) : result unit * CPUUtil :=
  let u := mkCPUUtil (currentIdleCPUTime u) (currentTotalCPUTime u) (currentIdleCPUTime u) (currentTotalCPUTime u) in
  match cpuTimes with
  | _ :: _ :: _ :: idle :: rest =>
      let idle := match rest with [] => idle | iowait :: _ => idle +₆₄ iowait end in
      (Ok tt, mkCPUUtil (lastIdleCPUTime u) (lastTotalCPUTime u) idle (accumulate_int cpuTimes))
  | _ => (Throw (ProgException "Unable to read CPU usage values from file: /proc/stat"), u)
  end.

(** [100.0 * (1.0 - (idle / total))]: the quotient is a [float], the rest is computed as [double]. *)
Definition getCPUUtilPercent (u : CPUUtil) : spec_float :=
  let idleCPUTimeDelta := fl_of_Z float_fmt (currentIdleCPUTime u -₆₄ lastIdleCPUTime u) in
  let totalCPUTimeDelta := fl_of_Z float_fmt (currentTotalCPUTime u -₆₄ lastTotalCPUTime u) in
  if fl_is_zero totalCPUTimeDelta then fl_of_Z float_fmt 0
  else
    let quotient := fl_convert double_fmt (fl_div float_fmt idleCPUTimeDelta totalCPUTimeDelta) in
    fl_convert float_fmt (fl_mul double_fmt (fl_of_Z double_fmt 100) (fl_sub double_fmt (fl_of_Z double_fmt 1) quotient)).

(** ** Lemmas *)

Lemma s32_add_l a b : s32 (s32 a + b) = s32 (a + b).
Proof.
  unfold s32. f_equal. replace ((a + 2 ^ 31) `mod` 2 ^ 32 - 2 ^ 31 + b + 2 ^ 31) with ((a + 2 ^ 31) `mod` 2 ^ 32 + b) by lia.
  rewrite Z.add_mod_idemp_l by lia. f_equal. lia.
Qed.

Lemma s32_u64 a : s32 (u64 a) = s32 a.
Proof.
  unfold s32, u64. f_equal. rewrite <- Zplus_mod_idemp_l. change (2 ^ 32) with 4294967296.
  rewrite Z.mod_mod_divide; [by rewrite Zplus_mod_idemp_l|].
  by exists 4294967296.
Qed.

(** The sum of the times as the code computes it: reduced to 32 bits with a sign. *)
Lemma accumulate_int_sum times : accumulate_int times = u64 (s32 (Zsum times)).
Proof.
  unfold accumulate_int. f_equal. assert (forall acc, foldl (fun sum t => s32 (u64 (u64 sum + t))) (s32 acc) times = s32 (acc + Zsum times)) as H.
  { induction times as [|t times IH]; intros acc; cbn [foldl]; [by rewrite Z.add_0_r|].
    rewrite s32_u64. assert (s32 (u64 (s32 acc) + t) = s32 (acc + t)) as ->.
    { rewrite <- (s32_add_l (u64 (s32 acc))), s32_u64, s32_add_l. by rewrite s32_add_l. }
    rewrite IH, Zsum_cons. f_equal. lia. }
  rewrite <- (Z.add_0_l (Zsum times)), <- H. done.
Qed.

(** As long as the sum of all times stays below [2 ^ 31], the difference of two updates is the time
    between them. *)
Lemma cpu_total_delta_exact before after u :
  0 <= Zsum before <= Zsum after -> Zsum after < 2 ^ 31 -> (4 <= length before)%nat -> (4 <= length after)%nat ->
  let u := (CPUUtil_update after (CPUUtil_update before u).2).2 in
  currentTotalCPUTime u -₆₄ lastTotalCPUTime u = Zsum after - Zsum before.
Proof.
  intros Hs Ha Hb Hal. destruct before as [|b0 [|b1 [|b2 [|b3 before]]]]; cbn [length] in Hb; try lia.
  destruct after as [|a0 [|a1 [|a2 [|a3 after]]]]; cbn [length] in Hal; try lia.
  cbn -[accumulate_int Zsum]. rewrite !accumulate_int_sum.
  assert (forall z, 0 <= z < 2 ^ 31 -> u64 (s32 z) = z) as Hz.
  { intros z Hz. unfold s32. rewrite Z.mod_small by lia. rewrite u64_small; lia. }
  rewrite !Hz by lia. apply u64_small. lia.
Qed.

(** Where the sum passes [2 ^ 31] the difference is wrong: a machine that was idle for all of 1000
    ticks is reported with a utilization of 100 percent. *)
Example cpu_sum_overflows :
  let u1 := CPUUtil_update [0; 0; 0; 2147483000] CPUUtil_new in
  let u2 := CPUUtil_update [0; 0; 0; 2147484000] u1.2 in
  currentTotalCPUTime u2.2 -₆₄ lastTotalCPUTime u2.2 = TWO64 - 4294966296
  /\ fl_to_uint 32 (getCPUUtilPercent u2.2) = Some 100.
Proof. by vm_compute. Qed.

Example cpu_half_idle : fl_to_uint 32 (getCPUUtilPercent (mkCPUUtil 100 1000 600 2000)) = Some 50.
Proof. by vm_compute. Qed.
