(* ===== verification/UnitTk.v ===== *)
(** Unit conversion: toolkits/UnitTk.cpp.

    [numHumanToBytesBinary] parses sizes such as "4K"; the elapsed-time printers are integer
    arithmetic.  The functions that print fractions of a double ([latencyUsToHumanStr],
    [numToHumanStrBaseAny]) and [getPerSecFromUSec] are not modelled. *)

From S2P Require Import Prelude CppStrings.

(** ** Definitions *)

(** The factor of a unit suffix, from the switch over [std::toupper(lastChar)]. *)
Definition unit_factor (c : ascii) : option Z :=
  match toupper c with
  | "K"%char => Some (2 ^ 10)
  | "M"%char => Some (2 ^ 20)
  | "G"%char => Some (2 ^ 30)
  | "T"%char => Some (2 ^ 40)
  | "P"%char => Some (2 ^ 50)
  | "E"%char => Some (2 ^ 60)
  | _ => None
  end.

Definition numHumanToBytesBinary (numHuman : string) (throwOnEmpty : bool) : result Z :=
  match str_last numHuman with
  | None => if throwOnEmpty then Throw (ProgException "Unable to parse empty string") else Ok 0
  | Some lastChar =>
      if str_contains "." numHuman
      then Throw (ProgException "Unable to parse number string containing '.' character")
      else if str_contains "," numHuman
      then Throw (ProgException "Unable to parse number string containing ',' character")
      else if str_contains "-" numHuman
      then Throw (ProgException "Unable to parse value: A positive number is required")
      else
        let bytesRes := u64 (atoll numHuman) in
        if isdigit lastChar then Ok bytesRes
        else match unit_factor lastChar with
             | Some f => Ok (bytesRes *₆₄ f)
             | None => Throw (ProgException "Unable to parse string for unit conversion")
             end
  end.

Definition elapsedSecToHumanStr (elapsedSec : Z) : string :=
  let numHours := elapsedSec / 3600 in
  let numMin := (elapsedSec `mod` 3600) / 60 in
  let numSec := elapsedSec `mod` 60 in
  if truthy numHours
  then to_string numHours +:+ "h" +:+ to_string numMin +:+ "m" +:+ to_string numSec +:+ "s"
  else if truthy numMin
  then to_string numMin +:+ "m" +:+ to_string numSec +:+ "s"
  else to_string numSec +:+ "s".

(** [std::setw(3) << std::setfill('0')] *)
Definition pad3 (z : Z) : string :=
  if z <? 10 then "00" +:+ to_string z
  else if z <? 100 then "0" +:+ to_string z
  else to_string z.

Definition elapsedMSToHumanStr (elapsedMS : Z) : string :=
  let elapsedSec := elapsedMS / 1000 in
  let numHours := elapsedSec / 3600 in
  let numMin := (elapsedSec `mod` 3600) / 60 in
  let numSec := elapsedSec `mod` 60 in
  let numMS := elapsedMS `mod` 1000 in
  if truthy numHours
  then to_string numHours +:+ "h" +:+ to_string numMin +:+ "m" +:+ to_string numSec +:+ "s"
  else if truthy numMin
  then to_string numMin +:+ "m" +:+ to_string numSec +:+ "." +:+ pad3 numMS +:+ "s"
  else if truthy numSec
  then to_string numSec +:+ "." +:+ pad3 numMS +:+ "s"
  else to_string numMS +:+ "ms".

(** ** Lemmas *)

Lemma str_last_snoc s c : str_last (s +:+ String c "") = Some c.
Proof. induction s as [|d s IH]; [done|]. simpl. rewrite IH. by destruct (s +:+ _) eqn:?; destruct s. Qed.

Lemma digits_onto_last fuel z s :
  s <> "" -> str_last (digits_onto fuel z s) = str_last s.
Proof.
  revert z s. induction fuel as [|fuel IH]; intros z s Hs; [done|]. simpl.
  destruct (z / 10 =? 0); [by destruct s|]. rewrite IH by done. by destruct s.
Qed.

Lemma to_string_last z :
  0 <= z -> exists d, str_last (to_string z) = Some (digit_char d) /\ 0 <= d < 10.
Proof.
  intros Hz. exists (z `mod` 10). split; [|apply Z.mod_pos_bound; lia].
  unfold to_string. change 20%nat with (S 19). generalize 19%nat as fuel. intros fuel. simpl.
  destruct (z / 10 =? 0); [done|]. by rewrite digits_onto_last.
Qed.

Lemma numHuman_plain z b : 0 <= z < 2 ^ 63 -> numHumanToBytesBinary (to_string z) b = Ok z.
Proof.
  intros Hz. unfold numHumanToBytesBinary.
  destruct (to_string_last z) as (d & -> & Hd); [lia|].
  rewrite !to_string_free by (done || lia). rewrite digit_char_isdigit by done.
  rewrite <- (str_app_nil_r (to_string z)), atoll_to_string by (unfold LLONG_MAX; done || lia).
  by rewrite u64_small by lia.
Qed.

Lemma numHuman_unit z c f b :
  0 <= z < 2 ^ 63 -> unit_factor c = Some f ->
  numHumanToBytesBinary (to_string z +:+ String c "") b = Ok (u64 (z * f)).
Proof.
  intros Hz Hf. unfold numHumanToBytesBinary.
  assert (Hc : isdigit c = false /\ Ascii.eqb "." c = false /\ Ascii.eqb "," c = false
               /\ Ascii.eqb "-" c = false).
  { destruct c as [[] [] [] [] [] [] [] []]; by vm_compute in Hf. }
  destruct Hc as (Hdig & Hdot & Hcomma & Hdash).
  rewrite str_last_snoc, !str_contains_app, !to_string_free by (done || lia). cbn [str_contains].
  rewrite Hdot, Hcomma, Hdash, Hdig, Hf. simpl.
  rewrite atoll_to_string by (unfold LLONG_MAX; done || lia). by rewrite (u64_small z) by lia.
Qed.

(** ** Properties *)

(** The size parser is exact on well-formed input: a decimal number below [2^63] parses to
    itself, and followed by one of the suffixes K/M/G/T/P/E in either case to the number times
    the power of 1024, reduced to 64 bits; text with a ".", "," or "-" is refused. *)
Lemma numHumanToBytesBinary_correct z c f s throwOnEmpty :
  0 <= z < 2 ^ 63 -> unit_factor c = Some f ->
  numHumanToBytesBinary (to_string z) throwOnEmpty = Ok z
  /\ numHumanToBytesBinary (to_string z +:+ String c "") throwOnEmpty = Ok (z *₆₄ f)
  /\ (str_contains "." s || str_contains "," s || str_contains "-" s = true ->
      exists msg, numHumanToBytesBinary s throwOnEmpty = Throw (ProgException msg)).
Proof.
  intros Hz Hf. split; [by apply numHuman_plain|]. split; [by apply numHuman_unit|].
  intros Hs. unfold numHumanToBytesBinary. destruct (str_last s) as [l|] eqn:Hl.
  - destruct (str_contains "." s), (str_contains "," s), (str_contains "-" s); eauto. done.
  - destruct s as [|a s]; [done|]. exfalso. clear Hs. revert a Hl.
    induction s as [|b s IH]; intros a Hl; [done|]. by apply (IH b).
Qed.

Lemma numHumanToBytesBinary_correct_witness :
  numHumanToBytesBinary "4" true = Ok 4
  /\ numHumanToBytesBinary "4k" true = Ok (4 *₆₄ 2 ^ 10)
  /\ (str_contains "." "4k-4m" || str_contains "," "4k-4m" || str_contains "-" "4k-4m" = true ->
      exists msg, numHumanToBytesBinary "4k-4m" true = Throw (ProgException msg)).
Proof. apply (numHumanToBytesBinary_correct 4 "k"); [lia|done]. Defined.
