(* ===== verification/TranslatorTk.v ===== *)
(** Names and lists in text (toolkits/TranslatorTk.cpp): names of modes and phases, parsing of flag
    lists, printing of number lists with ranges, and the expansion of ranges and lists in square
    brackets that hosts and paths may have. *)

From S2P Require Import Prelude Common CppStrings.
From Stdlib Require String.

#[local] Open Scope list_scope.
#[local] Open Scope Z_scope.

(** ** Definitions *)

(** *** Names *)

Definition benchModeToModeName (benchMode : BenchMode) : string :=
  match benchMode with
  | BenchMode_UNDEFINED => "UNDEFINED"
  | BenchMode_POSIX => "POSIX"
  | BenchMode_S3 => "S3"
  | BenchMode_HDFS => "HDFS"
  | BenchMode_NETBENCH => "NETBENCH"
  | BenchMode_SPDK => "SPDK"
  end.

(** What the names depend on. *)
Record NameArgs : Type := mkNameArgs {
  na_benchMode : BenchMode;
  na_benchPathType : BenchPathType;
  na_useRWMixReadThreads : bool;
  na_numRWMixReadThreads : Z;
  na_useRWMixPercent : bool;
  na_rwMixReadPercent : Z;
  na_doStatInline : bool;
  na_doReadInline : bool;
}.

Definition benchPhaseToPhaseName (benchPhase : BenchPhase) (a : NameArgs) : string :=
  let isS3 := bool_decide (na_benchMode a = BenchMode_S3) in
  let isDir := bool_decide (na_benchPathType a = BenchPathType_DIR) in
  match benchPhase with
  | BenchPhase_IDLE => "IDLE"
  | BenchPhase_TERMINATE => "QUIT"
  | BenchPhase_CREATEDIRS => if isS3 then "MKBUCKETS" else "MKDIRS"
  | BenchPhase_DELETEDIRS => if isS3 then "RMBUCKETS" else "RMDIRS"
  | BenchPhase_CREATEFILES =>
      (if bool_decide (na_benchMode a = BenchMode_NETBENCH) then "NET"
       else if na_useRWMixReadThreads a then "MIX-T" +:+ to_string (na_numRWMixReadThreads a)
       else if na_useRWMixPercent a then "RWMIX" +:+ to_string (na_rwMixReadPercent a)
       else "WRITE")
      +:+ (if isDir && na_doStatInline a then "+s" else "") +:+ (if isDir && na_doReadInline a then "+r" else "")
  | BenchPhase_READFILES => "READ" +:+ (if isDir && na_doStatInline a then "+s" else "")
  | BenchPhase_DELETEFILES => if isS3 then "RMOBJECTS" else "RMFILES"
  | BenchPhase_SYNC => "SYNC"
  | BenchPhase_DROPCACHES => "DROPCACHE"
  | BenchPhase_STATFILES => if isS3 then "HEADOBJ" else "STAT"
  | BenchPhase_PUTBUCKETACL => "PUTBACL"
  | BenchPhase_PUTOBJACL => "PUTOBJACL"
  | BenchPhase_GETOBJACL => "GETOBJACL"
  | BenchPhase_GETBUCKETACL => "GETBACL"
  | BenchPhase_STATDIRS => "STATDIRS"
  | BenchPhase_LISTOBJECTS => "LISTOBJ"
  | BenchPhase_LISTOBJPARALLEL => "LISTOBJ_P"
  | BenchPhase_MULTIDELOBJ => "MULTIDEL"
  | BenchPhase_GET_S3_OBJECT_MD => "GETOBJMD"
  | BenchPhase_PUT_S3_OBJECT_MD => "PUTOBJMD"
  | BenchPhase_DEL_S3_OBJECT_MD => "DELOBJMD"
  | BenchPhase_GET_S3_BUCKET_MD => "GETBUCKETMD"
  | BenchPhase_PUT_S3_BUCKET_MD => "PUTBUCKETMD"
  | BenchPhase_DEL_S3_BUCKET_MD => "DELBUCKETMD"
  | BenchPhase_S3MPUCOMPLETE => "MPUCOMPL"
  end.

Definition upper_first (s : string) : string :=
  match s with String c s => String (toupper c) s | "" => "" end.

Definition benchPhaseToPhaseEntryType (benchPhase : BenchPhase) (a : NameArgs) (firstToUpper : bool) : result string :=
  let isS3 := bool_decide (na_benchMode a = BenchMode_S3) in
  retVal ← match benchPhase with
    | BenchPhase_CREATEDIRS | BenchPhase_DELETEDIRS | BenchPhase_STATDIRS | BenchPhase_PUTBUCKETACL | BenchPhase_GETBUCKETACL
    | BenchPhase_GET_S3_BUCKET_MD | BenchPhase_PUT_S3_BUCKET_MD | BenchPhase_DEL_S3_BUCKET_MD =>
        Ok (if isS3 then "buckets" else "dirs")
    | BenchPhase_IDLE | BenchPhase_TERMINATE =>
        Throw (ProgException "Phase entry type requested for unknown/invalid phase type: ")
    | _ => Ok (if isS3 then "objects" else "files")
    end;
  Ok (if firstToUpper then upper_first retVal else retVal).

Definition benchPathTypeToStr (pathType : BenchPathType) (benchMode : BenchMode) : string :=
  match pathType with
  | BenchPathType_DIR =>
      match benchMode with
      | BenchMode_S3 => "bucket"
      | BenchMode_HDFS => "hdfs"
      | BenchMode_NETBENCH => "net"
      | _ => "dir"
      end
  | BenchPathType_FILE => if bool_decide (benchMode = BenchMode_S3) then "object" else "file"
  | BenchPathType_BLOCKDEV => "blockdev"
  end.

(** An empty element at the beginning is not separated from the next one. *)
Definition stringVecToString (vec : list string) (separator : string) : string :=
  foldl (fun res elem => (if String.eqb res "" then res else res +:+ separator) +:+ elem) "" vec.

(** *** Flag lists *)

(** [boost::split(.., is_any_of(..), token_compress_on)] with several separators. *)
Fixpoint split_any (is_sep : ascii -> bool) (s : string) (acc : string) (in_sep : bool) : list string :=
  match s with
  | "" => [acc]
  | String ch s =>
      if is_sep ch
      then if in_sep then split_any is_sep s acc true else acc :: split_any is_sep s "" true
      else split_any is_sep s (acc +:+ String ch "") false
  end.

Definition is_any_of (delimiters : string) (ch : ascii) : bool := str_contains ch delimiters.

(** [", \n\r"] *)
Definition LIST_DELIMITERS : string := String "," (String " " (String "010" (String "013" ""))).

Definition flags_of (names : list (string * Z)) (msg : string) (arg : string) : result Z :=
  foldl (fun (res : result Z) elem =>
    flags ← res;
    if String.eqb elem "" then Ok flags
    else match List.find (fun nf => String.eqb elem nf.1) names with
         | Some (_, flag) => Ok (Z.lor flags flag)
         | None => Throw (ProgException (msg +:+ elem))
         end) (Ok 0) (split_any (is_any_of LIST_DELIMITERS) arg "" false).

Definition fadvise_names : list (string * Z) :=
  [("seq", 1); ("rand", 2); ("willneed", 4); ("dontneed", 8); ("noreuse", 16)].
Definition madvise_names : list (string * Z) :=
  [("seq", 1); ("rand", 2); ("willneed", 4); ("dontneed", 8); ("hugepage", 16); ("nohugepage", 32)].

Definition fadviseArgsStrToFlags (arg : string) : result Z := flags_of fadvise_names "Invalid fadvise: " arg.
Definition madviseArgsStrToFlags (arg : string) : result Z := flags_of madvise_names "Invalid madvise: " arg.

Definition flockArgsStrToType (arg : string) : result Z :=
  if String.eqb arg "" then Ok 0
  else if String.eqb arg "range" then Ok 1
  else if String.eqb arg "full" then Ok 2
  else Throw (ProgException ("Invalid file locking value: " +:+ arg)).

(** *** Number lists *)

(** One range, as a number or as "first-last". *)
Definition range_str (rangeStart rangeLast : Z) : string :=
  if rangeStart =? rangeLast then to_string rangeStart else to_string rangeStart +:+ "-" +:+ to_string rangeLast.

Fixpoint human_ranges (rangeStart rangeLast : Z) (rest : list Z) : string :=
  match rest with
  | [] => range_str rangeStart rangeLast
  | n :: rest =>
      if n =? rangeLast + 1 then human_ranges rangeStart n rest
      else range_str rangeStart rangeLast +:+ "," +:+ human_ranges n n rest
  end.

(** Of numbers that are not negative. *)
Definition intVecToHumanStr (intVec : list Z) : string :=
  match intVec with [] => "" | n :: rest => human_ranges n n rest end.

(** *** Square brackets *)

Definition is_bracket_char (ch : ascii) : bool := isdigit ch || Ascii.eqb ch "," || Ascii.eqb ch "-".

(** The characters up to a closing bracket, if all of them may be in a list: they and what
    follows the bracket. *)
Fixpoint bracket_body (s : string) : option (string * string) :=
  match s with
  | String "]" s => Some ("", s)
  | String ch s => if is_bracket_char ch then (fun '(body, rest) => (String ch body, rest)) <$> bracket_body s else None
  | "" => None
  end.

(** What [(?![^]]*:)] looks for behind the first character: in the ECMAScript grammar of
    [std::regex] the class [[^]] is complete, and any closing brackets and a colon follow it. *)
Fixpoint colon_after_brackets (s : string) : bool :=
  match s with
  | String "]" s => colon_after_brackets s
  | String ":" _ => true
  | _ => false
  end.

(** [std::regex_search]: the first match as the text before it, its contents and the text behind. *)
Fixpoint find_brackets (s : string) : option (string * string * string) :=
  match s with
  | "" => None
  | String ch s' =>
      let later := (fun '(before, body, rest) => (String ch before, body, rest)) <$> find_brackets s' in
      if Ascii.eqb ch "[" then
        match s', bracket_body s' with
        | String _ behind, Some (String d body, rest) =>
            if colon_after_brackets behind then later else Some ("", String d body, rest)
        | _, _ => later
        end
      else later
  end.

Definition INT_MAX : Z := 2 ^ 31 - 1.

(** What becomes of an expansion; a range up to [INT_MAX] makes the loop variable overflow. *)
Inductive expansion : Type := Expanded (l : list string) | Refused (e : exn) | IntOverflow.

Fixpoint drop_zeros (s : string) : string :=
  match s with String "0" s => drop_zeros s | _ => s end.

(** [s.empty() ? 0 : std::stoi(s)] of digits; [None] is [std::out_of_range]. *)
Definition stoi_or_0 (s : string) : option Z :=
  let v := fst (scan_digits s 0 false) in if INT_MAX <? v then None else Some v.

Fixpoint zeros (n : nat) : string := match n with O => "" | S n => String "0" (zeros n) end.

(** The number with as many digits as the first number of the range. *)
Definition zero_fill (len : nat) (num : string) : string := zeros (len - String.length num) +:+ num.

(** One element between the brackets; [make] puts a number in the place of the brackets. *)
Definition expand_element (make : string -> string) (elem : string) : expansion :=
  if negb (str_contains "-" elem) then Expanded [make elem]
  else
    match boost_split "-" elem with
    | [startStr; endStr] =>
        let zeroFillLen := String.length startStr in
        match stoi_or_0 (drop_zeros startStr), stoi_or_0 (drop_zeros endStr) with
        | Some first, Some last =>
            if last =? INT_MAX then IntOverflow
            else Expanded ((fun i => make (zero_fill zeroFillLen (to_string i))) <$> seqZ first (last - first + 1))
        | _, _ => Refused (ProgException "Number parsing for square brackets expansion failed: ")
        end
    | _ => Refused (ProgException "Found invalid range definition in square brackets: ")
    end.

Fixpoint expand_elements (make : string -> string) (elems : list string) : expansion :=
  match elems with
  | [] => Expanded []
  | elem :: elems =>
      match expand_element make elem with
      | Expanded l =>
          match expand_elements make elems with Expanded l' => Expanded (l ++ l') | other => other end
      | other => other
      end
  end.

Definition nonempty (s : string) : bool := negb (String.eqb s "").

(** The empty list if there is nothing to expand. *)
Definition expandSquareBracketsStr (inputStr : string) : expansion :=
  match find_brackets inputStr with
  | None => Expanded []
  | Some (before, body, rest) =>
      match List.filter nonempty (boost_split "," body) with
      | [] => Refused (ProgException "No valid content between square brackets: ")
      | elems => expand_elements (fun num => before +:+ num +:+ rest) elems
      end
  end.

(** The loop over the vector: [done] are the elements before index [i].  [fuel] bounds the
    iterations; [None] if it is not enough. *)
Fixpoint expand_loop (fuel : nat) (done todo : list string) (didExpand : bool) : option (bool * expansion) :=
  match todo with
  | [] => Some (didExpand, Expanded done)
  | s :: todo =>
      match fuel with
      | O => None
      | S fuel =>
          match expandSquareBracketsStr s with
          | Expanded [] => expand_loop fuel (done ++ [s]) todo didExpand
          | Expanded l => expand_loop fuel done (l ++ todo) true
          | other => Some (didExpand, other)
          end
      end
  end.

Definition expandSquareBrackets (fuel : nat) (vec : list string) : option (bool * expansion) := expand_loop fuel [] vec false.

(** *** Splitting lists of hosts *)

Fixpoint replace_commas (replacement : string) (s : string) (depth : nat) : string * bool :=
  match s with
  | "" => ("", false)
  | String "[" s => let '(r, did) := replace_commas replacement s (S depth) in (String "[" r, did)
  | String "]" s => let '(r, did) := replace_commas replacement s (pred depth) in (String "]" r, did)
  | String "," s =>
      match depth with
      | O => let '(r, _) := replace_commas replacement s O in (replacement +:+ r, true)
      | S _ => let '(r, did) := replace_commas replacement s depth in (String "," r, did)
      end
  | String ch s => let '(r, did) := replace_commas replacement s depth in (String ch r, did)
  end.

Definition replaceCommasOutsideOfSquareBrackets (s replacement : string) : string * bool := replace_commas replacement s 0.

Fixpoint eraseCommas (s : string) : string :=
  match s with
  | "" => ""
  | String ch s => if Ascii.eqb ch "," then eraseCommas s else String ch (eraseCommas s)
  end.

(** Delimiters without an alternative to the comma are a mistake of the caller: what is thrown
    then is a [std::string]. *)
Definition splitAndExpandStr (fuel : nat) (str delimiters : string) : option (bool * expansion) :=
  match eraseCommas delimiters with
  | "" => Some (false, Refused (ThrownString "splitAndExpandStr is missing a comma alternative in delimiters list. "))
  | String sep rest =>
      let '(str, _) := replaceCommasOutsideOfSquareBrackets str (String sep "") in
      expandSquareBrackets fuel (split_any (is_any_of (String sep rest)) str "" false)
  end.

Fixpoint only_spaces (s : string) : bool :=
  match s with "" => true | String ch s => Ascii.eqb ch " " && only_spaces s end.

Definition eraseEmptyStringsFromVec (vec : list string) : list string := List.filter (fun s => negb (only_spaces s)) vec.

(** The rest of [s] behind a prefix. *)
Fixpoint strip_prefix (pre s : string) : option string :=
  match pre, s with
  | "", _ => Some s
  | String a pre, String b s => if Ascii.eqb a b then strip_prefix pre s else None
  | _, "" => None
  end.

Definition erase_path_prefix (path : string) : string :=
  match strip_prefix "file://" path with
  | Some rest => rest
  | None => default path (strip_prefix "s3://" path)
  end.

Definition eraseBenchPathPrefixesFromVec (vec : list string) : list string := erase_path_prefix <$> vec.

(** ** Lemmas *)

(** *** Printed numbers *)

Lemma length_digits_onto fuel z acc : String.length (digits_onto fuel z acc) = (String.length (digits_onto fuel z "") + String.length acc)%nat.
Proof.
  rewrite digits_onto_app. generalize (digits_onto fuel z ""). intros s.
  induction s as [|c s IH]; simpl; congruence.
Qed.

(** A larger number has no fewer digits. *)
Lemma digits_onto_longer fuel a b : 0 <= a <= b -> (String.length (digits_onto fuel a "") <= String.length (digits_onto fuel b ""))%nat.
Proof.
  revert a b. induction fuel as [|fuel IH]; intros a b Hab; [done|]. cbn [digits_onto].
  assert (0 <= a / 10 <= b / 10) by (split; [apply Z.div_pos|apply Z.div_le_mono]; lia).
  pose proof (length_digits_onto fuel (a / 10) (String (digit_char (a `mod` 10)) "")) as Ha.
  pose proof (length_digits_onto fuel (b / 10) (String (digit_char (b `mod` 10)) "")) as Hb.
  specialize (IH (a / 10) (b / 10)). simpl in Ha, Hb.
  destruct (Z.eqb_spec (a / 10) 0), (Z.eqb_spec (b / 10) 0); simpl; lia.
Qed.

Lemma zero_fill_longer a i : 0 <= a <= i -> zero_fill (String.length (to_string a)) (to_string i) = to_string i.
Proof.
  intros Ha. unfold zero_fill. pose proof (digits_onto_longer 20 a i Ha). unfold to_string.
  by replace (_ - _)%nat with 0%nat by lia.
Qed.

Lemma scan_digits_fst_seen s acc b b' : fst (scan_digits s acc b) = fst (scan_digits s acc b').
Proof. destruct s as [|c s]; [done|]. simpl. by destruct (isdigit c). Qed.

Lemma scan_drop_zeros s : fst (scan_digits (drop_zeros s) 0 false) = fst (scan_digits s 0 false).
Proof.
  induction s as [|c s IH]; [done|]. destruct (decide (c = "0"%char)) as [->|Hc].
  - simpl. rewrite IH. apply scan_digits_fst_seen.
  - replace (drop_zeros (String c s)) with (String c s); [done|].
    by destruct c as [[] [] [] [] [] [] [] []].
Qed.

Lemma stoi_to_string z : 0 <= z <= INT_MAX -> stoi_or_0 (drop_zeros (to_string z)) = Some z.
Proof.
  intros Hz. unfold stoi_or_0. rewrite scan_drop_zeros, <- (str_app_nil_r (to_string z)).
  rewrite scan_to_string by (done || unfold INT_MAX in *; lia). simpl.
  by rewrite (proj2 (Z.ltb_ge INT_MAX z)) by lia.
Qed.

(** *** Characters of a string *)

Fixpoint str_forall (f : ascii -> bool) (s : string) : bool :=
  match s with "" => true | String ch s => f ch && str_forall f s end.

Lemma str_forall_app f s t : str_forall f (s +:+ t) = str_forall f s && str_forall f t.
Proof. induction s as [|c s IH]; [done|]. simpl. by rewrite IH, andb_assoc. Qed.

Lemma str_forall_free f c s : str_forall f s = true -> f c = false -> str_contains c s = false.
Proof.
  induction s as [|d s IH]; [done|]. simpl. intros [Hd Hs]%andb_prop Hc. rewrite IH by done.
  destruct (Ascii.eqb_spec c d) as [->|]; [congruence|done].
Qed.

Lemma digits_onto_forall fuel z : 0 <= z -> str_forall isdigit (digits_onto fuel z "") = true.
Proof.
  revert z. induction fuel as [|fuel IH]; intros z Hz; [done|]. cbn [digits_onto].
  assert (isdigit (digit_char (z `mod` 10)) = true) as Hd by (apply digit_char_isdigit, Z.mod_pos_bound; lia).
  destruct (z / 10 =? 0); [by simpl; rewrite Hd|].
  rewrite digits_onto_app, str_forall_app, IH by (apply Z.div_pos; lia). by simpl; rewrite Hd.
Qed.

Lemma str_forall_impl (f g : ascii -> bool) s : (forall c, f c = true -> g c = true) -> str_forall f s = true -> str_forall g s = true.
Proof. intros Hfg. induction s as [|c s IH]; [done|]. simpl. intros [Hc Hs]%andb_prop. by rewrite Hfg, IH. Qed.

Lemma isdigit_bracket_char c : isdigit c = true -> is_bracket_char c = true.
Proof. unfold is_bracket_char. by intros ->. Qed.

Lemma to_string_bracket_chars z : 0 <= z -> str_forall is_bracket_char (to_string z) = true.
Proof. intros Hz. eapply str_forall_impl; [apply isdigit_bracket_char|]. by apply digits_onto_forall. Qed.

(** *** Ranges *)

(** The ranges that are printed. *)
Fixpoint ranges_of (rangeStart rangeLast : Z) (rest : list Z) : list (Z * Z) :=
  match rest with
  | [] => [(rangeStart, rangeLast)]
  | n :: rest => if n =? rangeLast + 1 then ranges_of rangeStart n rest else (rangeStart, rangeLast) :: ranges_of n n rest
  end.

Lemma ranges_of_some a b rest : ranges_of a b rest <> [].
Proof. revert a b. induction rest as [|n rest IH]; intros a b; simpl; [done|]. by destruct (_ =? _). Qed.

Definition num_range_ok (r : Z * Z) : Prop := 0 <= r.1 <= r.2 /\ r.2 < INT_MAX.

Lemma ranges_of_ok a b rest : num_range_ok (a, b) -> Forall (fun n => 0 <= n < INT_MAX) rest -> Forall num_range_ok (ranges_of a b rest).
Proof.
  intros Hab Hrest. revert a b Hab. induction Hrest as [|n rest Hn Hrest IH]; intros a b Hab; simpl; [by apply Forall_singleton|].
  unfold num_range_ok in *. simpl in *. destruct (Z.eqb_spec n (b + 1)) as [->|].
  - apply IH. simpl. lia.
  - constructor; [done|]. apply IH. simpl. lia.
Qed.

(** The printed ranges have exactly the numbers of the list, in their order. *)
Lemma ranges_of_numbers a b rest : a <= b ->
  concat ((fun r => seqZ r.1 (r.2 - r.1 + 1)) <$> ranges_of a b rest) = seqZ a (b - a + 1) ++ rest.
Proof.
  revert a b. induction rest as [|n rest IH]; intros a b Hab; simpl; [done|].
  destruct (Z.eqb_spec n (b + 1)) as [->|].
  - rewrite IH by lia. replace (b + 1 - a + 1) with ((b - a + 1) + 1) by lia.
    rewrite seqZ_app by lia. rewrite <- app_assoc. f_equal. replace (a + (b - a + 1)) with (b + 1) by lia.
    by rewrite (seqZ_cons (b + 1)) by lia.
  - simpl. rewrite IH by lia. replace (n - n + 1) with 1 by lia. by rewrite (seqZ_cons n) by lia.
Qed.

Lemma range_str_chars r : num_range_ok r -> str_forall is_bracket_char (range_str r.1 r.2) = true /\ str_contains "," (range_str r.1 r.2) = false.
Proof.
  intros [Hr Hlt]. unfold range_str. destruct (_ =? _).
  - rewrite to_string_bracket_chars, to_string_free by (done || lia). done.
  - rewrite !str_forall_app, !str_contains_app, !to_string_bracket_chars, !to_string_free by (done || lia). done.
Qed.

Lemma range_str_head r s : num_range_ok r -> exists d t, range_str r.1 r.2 +:+ s = String (digit_char d) t /\ 0 <= d < 10.
Proof.
  intros [Hr _]. unfold range_str, to_string.
  destruct (_ =? _); rewrite ?str_app_assoc, <- digits_onto_app; apply digits_onto_head; lia.
Qed.

Lemma human_ranges_head a b rest : num_range_ok (a, b) -> Forall (fun n => 0 <= n < INT_MAX) rest ->
  exists d t, human_ranges a b rest = String (digit_char d) t /\ 0 <= d < 10.
Proof.
  intros Hab Hrest. revert a b Hab. induction Hrest as [|n rest Hn Hrest IH]; intros a b Hab; simpl.
  - rewrite <- (str_app_nil_r (range_str a b)). by apply (range_str_head (a, b)).
  - destruct (Z.eqb_spec n (b + 1)) as [->|]; [|by apply (range_str_head (a, b))].
    apply IH. unfold num_range_ok in *. simpl in *. lia.
Qed.

Lemma human_ranges_chars a b rest : num_range_ok (a, b) -> Forall (fun n => 0 <= n < INT_MAX) rest ->
  str_forall is_bracket_char (human_ranges a b rest) = true.
Proof.
  intros Hab Hrest. revert a b Hab. induction Hrest as [|n rest Hn Hrest IH]; intros a b Hab; simpl.
  - by apply (range_str_chars (a, b)).
  - pose proof (range_str_chars (a, b) Hab) as [Hc _]. simpl in Hc. unfold num_range_ok in *. simpl in *.
    destruct (Z.eqb_spec n (b + 1)) as [->|]; [apply IH; lia|].
    rewrite str_forall_app. simpl. rewrite Hc, IH by lia. done.
Qed.

(** Splitting at commas gives the ranges back. *)
Lemma split_human_ranges a b rest ins : num_range_ok (a, b) -> Forall (fun n => 0 <= n < INT_MAX) rest ->
  split_compress "," (human_ranges a b rest) "" ins = (fun r => range_str r.1 r.2) <$> ranges_of a b rest.
Proof.
  intros Hab Hrest. destruct (human_ranges_head a b rest Hab Hrest) as (d & t & Ht & Hd).
  assert (split_compress "," (human_ranges a b rest) "" ins = split_compress "," (human_ranges a b rest) "" false) as ->.
  { destruct ins; [|done]. rewrite Ht. apply split_compress_in_sep. rewrite Ascii.eqb_sym. by apply digit_char_not. }
  clear d t Ht Hd ins. revert a b Hab. induction Hrest as [|n rest Hn Hrest IH]; intros a b Hab; simpl;
    pose proof (range_str_chars (a, b) Hab) as [_ Hc]; simpl in Hc.
  - by rewrite split_compress_last.
  - assert (num_range_ok (n, n)) as Hnn by (unfold num_range_ok; simpl; lia).
    destruct (Z.eqb_spec n (b + 1)) as [->|]; [apply IH; unfold num_range_ok in *; simpl in *; lia|].
    rewrite split_compress_free by done. simpl. f_equal.
    destruct (human_ranges_head n n rest Hnn Hrest) as (d & t & Ht & Hd).
    specialize (IH n n Hnn). rewrite Ht in IH |- *.
    rewrite split_compress_in_sep; [done|]. rewrite Ascii.eqb_sym. by apply digit_char_not.
Qed.

(** A range expands to its numbers, each as it is printed. *)
Lemma expand_element_range make r : num_range_ok r ->
  expand_element make (range_str r.1 r.2) = Expanded ((fun i => make (to_string i)) <$> seqZ r.1 (r.2 - r.1 + 1)).
Proof.
  destruct r as [a b]. unfold num_range_ok. simpl. intros [Hab Hb]. unfold expand_element, range_str. destruct (Z.eqb_spec a b) as [->|Hne].
  - rewrite to_string_free by (done || lia). simpl. replace (b - b + 1) with 1 by lia. by rewrite (seqZ_cons b) by lia.
  - rewrite !str_contains_app. simpl. rewrite orb_true_r. simpl.
    unfold boost_split. rewrite split_compress_free by (apply to_string_free; done || lia).
    assert (split_compress "-" (to_string b) "" true = [to_string b]) as ->.
    { destruct (range_str_head (b, b) "") as (d & t & Ht & Hd); [split; simpl; lia|].
      unfold range_str in Ht. simpl in Ht. rewrite Z.eqb_refl, str_app_nil_r in Ht.
      pose proof (to_string_free b "-" ltac:(lia) eq_refl) as Hf. rewrite Ht in Hf |- *.
      rewrite split_compress_in_sep by (rewrite Ascii.eqb_sym; by apply digit_char_not). by rewrite split_compress_last. }
    simpl. rewrite !stoi_to_string by lia. destruct (Z.eqb_spec b INT_MAX); [lia|]. f_equal.
    apply list_fmap_ext. intros i x Hx%list_elem_of_lookup_2%elem_of_seqZ. by rewrite zero_fill_longer by lia.
Qed.

Lemma expand_elements_ranges make rs : Forall num_range_ok rs ->
  expand_elements make ((fun r => range_str r.1 r.2) <$> rs)
  = Expanded ((fun i => make (to_string i)) <$> concat ((fun r => seqZ r.1 (r.2 - r.1 + 1)) <$> rs)).
Proof.
  induction 1 as [|r rs Hr Hrs IH]; [done|]. cbn [fmap list_fmap expand_elements concat].
  rewrite expand_element_range by done. cbn [fmap] in IH. rewrite IH. by rewrite fmap_app.
Qed.

(** *** Brackets *)

Lemma bracket_body_app body rest : str_forall is_bracket_char body = true -> bracket_body (body +:+ String "]" rest) = Some (body, rest).
Proof.
  induction body as [|c body IH]; [done|]. intros [Hc Hb]%andb_prop. specialize (IH Hb).
  destruct c as [[] [] [] [] [] [] [] []]; try discriminate Hc; cbn -[is_bracket_char]; rewrite Hc, IH; done.
Qed.

Lemma bracket_body_sound s body rest : bracket_body s = Some (body, rest) ->
  s = body +:+ String "]" rest /\ str_forall is_bracket_char body = true.
Proof.
  revert body. induction s as [|c s IH]; intros body; [done|]. destruct (decide (c = "]"%char)) as [->|Hc].
  - simpl. by intros [= <- <-].
  - intros Hb. assert ((if is_bracket_char c then (fun '(body, rest) => (String c body, rest)) <$> bracket_body s else None) = Some (body, rest)) as Hb'.
    { rewrite <- Hb. destruct c as [[] [] [] [] [] [] [] []]; done. }
    destruct (is_bracket_char c) eqn:Hi; [|done]. apply fmap_Some in Hb' as [[b r] [Hs [= -> ->]]].
    apply IH in Hs as [-> Hf]. simpl. by rewrite Hi, Hf.
Qed.

Lemma find_brackets_sound s before body rest : find_brackets s = Some (before, body, rest) ->
  s = before +:+ String "[" (body +:+ String "]" rest) /\ str_forall is_bracket_char body = true.
Proof.
  revert before. induction s as [|c s IH]; intros before; [done|]. cbn -[bracket_body].
  assert ((fun '(b, bd, r) => (String c b, bd, r)) <$> find_brackets s = Some (before, body, rest) ->
    String c s = before +:+ String "[" (body +:+ String "]" rest) /\ str_forall is_bracket_char body = true) as Hlater.
  { intros [[[b bd] r] [Hs [= -> -> ->]]]%fmap_Some. apply IH in Hs as [-> Hf]. done. }
  destruct (Ascii.eqb_spec c "[") as [->|]; [|done]. destruct s as [|c' s']; [done|].
  destruct (bracket_body (String c' s')) as [[[|d bd] r]|] eqn:Hbb; [done| |done].
  destruct (colon_after_brackets s'); [done|]. intros [= <- <- <-].
  apply bracket_body_sound in Hbb as [-> Hf]. done.
Qed.

(** The first brackets are found behind text without an opening one. *)
Lemma find_brackets_app pre d body suf :
  str_free "[" pre -> str_forall is_bracket_char (String d body) = true ->
  (body <> "" \/ colon_after_brackets suf = false) ->
  find_brackets (pre +:+ String "[" (String d body +:+ String "]" suf)) = Some (pre, String d body, suf).
Proof.
  intros Hpre Hb Hsuf. unfold str_free in Hpre. induction pre as [|c pre IH].
  - cbn -[bracket_body colon_after_brackets]. change (String d (body +:+ String "]" suf)) with (String d body +:+ String "]" suf).
    rewrite bracket_body_app by done. assert (colon_after_brackets (body +:+ String "]" suf) = false) as ->; [|done].
    destruct body as [|c body]; [by destruct Hsuf|]. simpl in Hb. apply andb_prop in Hb as [_ [Hc _]%andb_prop].
    by destruct c as [[] [] [] [] [] [] [] []].
  - cbn [str_contains] in Hpre. apply orb_false_iff in Hpre as [Hc Hpre]. specialize (IH Hpre).
    cbn [find_brackets String.append]. rewrite Ascii.eqb_sym, Hc. cbn [String.append] in IH. by rewrite IH.
Qed.

Lemma find_brackets_none s : str_free "[" s -> find_brackets s = None.
Proof.
  unfold str_free. induction s as [|c s IH]; [done|]. cbn [str_contains]. intros [Hc Hs]%orb_false_iff.
  cbn [find_brackets]. by rewrite Ascii.eqb_sym, Hc, IH.
Qed.

Lemma nonempty_ranges rs : Forall num_range_ok rs ->
  List.filter nonempty ((fun r => range_str r.1 r.2) <$> rs) = (fun r => range_str r.1 r.2) <$> rs.
Proof.
  induction 1 as [|r rs Hr Hrs IH]; [done|]. cbn [fmap list_fmap List.filter].
  destruct (range_str_head r "" Hr) as (d & t & Ht & _). rewrite str_app_nil_r in Ht. rewrite Ht.
  cbn [nonempty String.eqb negb]. cbn [fmap] in IH. by rewrite IH.
Qed.

Lemma expand_printed n v pre suf :
  Forall (fun n => 0 <= n < INT_MAX) (n :: v) -> str_free "[" pre ->
  (1 < String.length (intVecToHumanStr (n :: v)))%nat \/ colon_after_brackets suf = false ->
  expandSquareBracketsStr (pre +:+ "[" +:+ intVecToHumanStr (n :: v) +:+ "]" +:+ suf)
  = Expanded ((fun i => pre +:+ to_string i +:+ suf) <$> n :: v).
Proof.
  intros [Hn Hall]%Forall_cons Hpre Hcolon. assert (num_range_ok (n, n)) as Hok by (split; simpl; lia).
  cbn [intVecToHumanStr] in *. pose proof (human_ranges_chars n n v Hok Hall) as Hc.
  pose proof (split_human_ranges n n v false Hok Hall) as Hsplit. fold (boost_split "," (human_ranges n n v)) in Hsplit.
  destruct (human_ranges_head n n v Hok Hall) as (d & t & Ht & _). rewrite Ht in *.
  unfold expandSquareBracketsStr. change ("[" +:+ ?x) with (String "[" x). change ("]" +:+ suf) with (String "]" suf).
  rewrite find_brackets_app; [|done|done|].
  - rewrite Hsplit, nonempty_ranges by by apply ranges_of_ok.
    pose proof (expand_elements_ranges (fun num => pre +:+ num +:+ suf) _ (ranges_of_ok n n v Hok Hall)) as Hx.
    rewrite ranges_of_numbers in Hx by done. replace (n - n + 1) with 1 in Hx by lia.
    destruct (ranges_of n n v) as [|r rs] eqn:Hrs; [by apply ranges_of_some in Hrs|]. exact Hx.
  - destruct Hcolon; [left|by right]. intros ->. simpl in *. lia.
Qed.

(** *** The number of opening brackets *)

Fixpoint count_open (s : string) : nat :=
  match s with "" => 0 | String c s => ((if Ascii.eqb c "[" then 1 else 0) + count_open s)%nat end.

Lemma count_open_app s t : count_open (s +:+ t) = (count_open s + count_open t)%nat.
Proof. induction s as [|c s IH]; [done|]. simpl. rewrite IH. lia. Qed.

Lemma count_open_free f s : str_forall f s = true -> f "["%char = false -> count_open s = 0%nat.
Proof.
  intros Hs Hf. induction s as [|c s IH]; [done|]. simpl in *. apply andb_prop in Hs as [Hc Hs].
  destruct (Ascii.eqb_spec c "[") as [->|]; [congruence|]. by apply IH.
Qed.

Lemma split_compress_forall f sep s acc ins :
  str_forall f s = true -> str_forall f acc = true -> Forall (fun t => str_forall f t = true) (split_compress sep s acc ins).
Proof.
  revert acc ins. induction s as [|c s IH]; intros acc ins Hs Hacc; simpl; [by apply Forall_singleton|].
  simpl in Hs. apply andb_prop in Hs as [Hc Hs].
  destruct (Ascii.eqb c sep); [destruct ins|]; [by apply IH|constructor; [done|by apply IH]|].
  apply IH; [done|]. rewrite str_forall_app, Hacc. simpl. by rewrite Hc.
Qed.

Lemma zero_fill_forall len z : 0 <= z -> str_forall is_bracket_char (zero_fill len (to_string z)) = true.
Proof.
  intros Hz. unfold zero_fill. rewrite str_forall_app, to_string_bracket_chars by done. rewrite andb_true_r.
  generalize (len - String.length (to_string z))%nat. intros n. induction n; done.
Qed.

Lemma expand_element_chars make elem l : str_forall is_bracket_char elem = true -> expand_element make elem = Expanded l ->
  Forall (fun t => exists num, t = make num /\ str_forall is_bracket_char num = true) l.
Proof.
  intros He. unfold expand_element. destruct (negb _); [intros [= <-]; apply Forall_singleton; eauto|].
  destruct (boost_split "-" elem) as [|startStr [|endStr [|]]]; try discriminate.
  unfold stoi_or_0. pose proof (scan_digits_nonneg (drop_zeros startStr) 0 false ltac:(done)) as Hs.
  destruct (INT_MAX <? _); [discriminate|]. destruct (INT_MAX <? _); [discriminate|].
  destruct (_ =? INT_MAX); [discriminate|]. intros [= <-]. apply Forall_fmap, Forall_forall.
  intros i Hi%elem_of_seqZ. eexists. split; [done|]. apply zero_fill_forall. lia.
Qed.

Lemma expand_elements_chars make elems l : Forall (fun t => str_forall is_bracket_char t = true) elems -> expand_elements make elems = Expanded l ->
  Forall (fun t => exists num, t = make num /\ str_forall is_bracket_char num = true) l.
Proof.
  intros Hes. revert l. induction Hes as [|e elems He Hes IH]; intros l; cbn [expand_elements]; [by intros [= <-]|].
  destruct (expand_element make e) as [l1| |] eqn:He1; try discriminate.
  destruct (expand_elements make elems) as [l2| |]; try discriminate. intros [= <-].
  apply Forall_app. split; [by eapply expand_element_chars|by apply IH].
Qed.

(** Each step takes one pair of brackets away and adds none. *)
Lemma expandSquareBracketsStr_fewer s l : expandSquareBracketsStr s = Expanded l -> Forall (fun t => (count_open t < count_open s)%nat) l.
Proof.
  unfold expandSquareBracketsStr. destruct (find_brackets s) as [[[before body] rest]|] eqn:Hf; [|by intros [= <-]].
  apply find_brackets_sound in Hf as [-> Hbody].
  destruct (List.filter nonempty (boost_split "," body)) as [|e0 es0] eqn:Hes; [discriminate|]. rewrite <- Hes. intros Hx.
  eapply Forall_impl; [eapply expand_elements_chars; [|exact Hx]|].
  - pose proof (split_compress_forall is_bracket_char "," body "" false Hbody eq_refl) as Hall.
    apply Forall_forall. intros t Ht%list_elem_of_In%filter_In. rewrite Forall_forall in Hall. apply Hall, list_elem_of_In, Ht.
  - intros t (num & -> & Hnum). rewrite !count_open_app. simpl. rewrite count_open_app. simpl.
    rewrite (count_open_free is_bracket_char num) by done. lia.
Qed.

(** Some amount of fuel is enough for what is left. *)
Definition loop_ends (todo : list string) : Prop := exists fuel, forall done did, exists r, expand_loop fuel done todo did = Some r.

Lemma loop_ends_cons n s todo : (count_open s <= n)%nat -> loop_ends todo -> loop_ends (s :: todo).
Proof.
  revert s todo. induction n as [n IH] using lt_wf_ind. intros s todo Hn Htodo.
  destruct (expandSquareBracketsStr s) as [[|t l]| |] eqn:Hs;
    [destruct Htodo as [f Hf]; exists (S f)| |exists 1%nat..]; try (intros d did; cbn [expand_loop]; rewrite Hs; eauto; fail).
  assert (loop_ends ((t :: l) ++ todo)) as [f Hf].
  { apply expandSquareBracketsStr_fewer in Hs. clear -IH Hn Htodo Hs. induction Hs as [|u us Hu Hus IHus]; [done|].
    simpl. apply (IH (count_open u)); [lia|done|done]. }
  exists (S f). intros d did. cbn [expand_loop]. rewrite Hs. apply Hf.
Qed.

Lemma loop_ends_all todo : loop_ends todo.
Proof.
  induction todo as [|s todo IH]; [|by eapply loop_ends_cons].
  exists 0%nat. intros d did. by eexists.
Qed.

Definition nothing_to_expand (s : string) : Prop := expandSquareBracketsStr s = Expanded [].

Lemma expand_loop_result fuel dn todo did did' l :
  Forall nothing_to_expand dn -> expand_loop fuel dn todo did = Some (did', Expanded l) -> Forall nothing_to_expand l.
Proof.
  revert dn todo did. induction fuel as [|fuel IH]; intros dn todo did Hdn; (destruct todo as [|s todo]; cbn [expand_loop]; [by intros [= _ <-]|]); [done|].
  destruct (expandSquareBracketsStr s) as [[|t l']| |] eqn:Hs; try discriminate; apply IH; [|done].
  apply Forall_app. by repeat constructor.
Qed.

Lemma expand_loop_free fuel dn todo did : Forall (str_free "[") todo -> (length todo <= fuel)%nat ->
  expand_loop fuel dn todo did = Some (did, Expanded (dn ++ todo)).
Proof.
  intros Hf. revert fuel dn. induction Hf as [|s todo Hs Hf IH]; intros fuel dn Hlen.
  - destruct fuel; simpl; by rewrite app_nil_r.
  - destruct fuel as [|fuel]; simpl in Hlen; [lia|]. cbn [expand_loop]. unfold expandSquareBracketsStr.
    rewrite find_brackets_none by done. rewrite IH by lia. by rewrite <- app_assoc.
Qed.

(** ** Theorems *)


(** Printing a list of numbers and expanding it again is the identity: with the text that
    [intVecToHumanStr] makes of a list between brackets, the strings that [expandSquareBrackets]
    makes are those with the numbers of the list in the place of the brackets, in their order.
    The numbers are below [INT_MAX]; a list of one digit must not have a colon behind the
    brackets, which the regular expression takes for an address. *)
Lemma number_list_round_trip (v : list Z) (pre suf : string) (fuel : nat) :
  v <> [] -> Forall (fun n => 0 <= n < INT_MAX) v -> str_free "[" pre -> str_free "[" suf ->
  (1 < String.length (intVecToHumanStr v))%nat \/ colon_after_brackets suf = false ->
  (length v < fuel)%nat ->
  expandSquareBrackets fuel [pre +:+ "[" +:+ intVecToHumanStr v +:+ "]" +:+ suf]
  = Some (true, Expanded ((fun n => pre +:+ to_string n +:+ suf) <$> v)).
Proof.
  intros Hv Hall Hpre Hsuf Hcolon Hfuel. destruct v as [|n v]; [done|]. apply Forall_cons in Hall as [Hn Hall].
  assert (num_range_ok (n, n)) as Hok by (split; simpl; lia).
  assert (expandSquareBracketsStr (pre +:+ "[" +:+ intVecToHumanStr (n :: v) +:+ "]" +:+ suf)
    = Expanded ((fun i => pre +:+ to_string i +:+ suf) <$> n :: v)) as Hx by (apply expand_printed; [by constructor|done|done]).
  destruct fuel as [|fuel]; [lia|]. cbn [length] in Hfuel. unfold expandSquareBrackets. cbn [expand_loop]. rewrite Hx.
  cbn [fmap list_fmap]. rewrite app_nil_r. apply (expand_loop_free fuel []).
  - assert (forall i, 0 <= i -> str_free "[" (pre +:+ to_string i +:+ suf)) as Hfree.
    { intros i Hi. unfold str_free. by rewrite !str_contains_app, to_string_free, Hpre, Hsuf. }
    constructor; [apply Hfree; lia|]. apply Forall_fmap. eapply Forall_impl; [exact Hall|].
    intros i [Hi _]. by apply Hfree.
  - simpl. rewrite length_fmap. lia.
Qed.

(** Brackets around a single digit are not expanded before a port. *)
Example single_digit_with_port : expandSquareBrackets 6 ["node[5]:1611"; "node[05]:1611"] = Some (true, Expanded ["node[5]:1611"; "node05:1611"]).
Proof. reflexivity. Qed.

Example hosts_with_ranges : splitAndExpandStr 20 "a1,b[8-10,12]c,d[1-2]x[3,4]" LIST_DELIMITERS
  = Some (true, Expanded ["a1"; "b8c"; "b9c"; "b10c"; "b12c"; "d1x3"; "d1x4"; "d2x3"; "d2x4"]).
Proof. reflexivity. Qed.
