(* ===== verification/CoveringRandom.v ===== *)
(** The full-coverage random generator: class [CoveringRandomGenerator] of
    toolkits/offsetgen/OffsetGenRandomAlignedFullCoverageV2.h.

    A linear congruential generator modulo a power of two is walked, and the states outside of
    the wanted range are skipped.  [std::random_device] is a source of seeds that the caller
    passes in ([seed]).  The do-while loop of [next()] carries fuel; [covering_next_terminates]
    and the cycle theorem show that the modulus itself is always enough. *)

From S2P Require Import Prelude.

(** ** Definitions *)

(** One step of the bit smearing in [next_power_of_two]: [n |= n >> s]. *)
Definition smear (s n : Z) : Z := Z.lor n (Z.shiftr n s).

Definition next_power_of_two (n : Z) : Z :=
  if n =? 0 then 1
  else
    let n := n -₆₄ 1 in
    let n := smear 1 n in
    let n := smear 2 n in
    let n := smear 4 n in
    let n := smear 8 n in
    let n := smear 16 n in
    let n := smear 32 n in
    n +₆₄ 1.

Record CoveringRandomGenerator : Type := mkCovering {
  min_value_ : Z;
  max_value_ : Z;
  range_size_ : Z;
  current_count_ : Z;
  m_lcg_ : Z;
  a_lcg_ : Z;
  c_lcg_ : Z;
  current_lcg_state_ : Z;
}.

Definition LCG_MULTIPLIER : Z := 6364136223846793005.
Definition LCG_INCREMENT : Z := 1442695040888963407.

(** The choice of the modulus in the constructor, with its overflow branch. *)
Definition covering_modulus (range_size : Z) : result Z :=
  let m := next_power_of_two range_size in
  if (m =? 0) && (0 <? range_size) then
    if 2 ^ 63 <? range_size then
      if Z.land range_size (range_size -₆₄ 1) =? 0 then Ok range_size
      else Throw (WorkerException "Range size too large for this LCG implementation")
    else Ok range_size
  else Ok m.

(** The constructor; [seed] is what [std::random_device] returned. *)
Definition covering_new (min_val max_val seed : Z) : result CoveringRandomGenerator :=
  if max_val <? min_val
  then Throw (WorkerException "OffsetGenFullCov: Minimum value cannot be greater than maximum value.")
  else
    let range_size := (max_val -₆₄ min_val) +₆₄ 1 in
    if range_size =? 0
    then Throw (WorkerException "OffsetGenFullCov: Range cannot be empty.")
    else
      m ← covering_modulus range_size;
      Ok {| min_value_ := min_val; max_value_ := max_val; range_size_ := range_size;
            current_count_ := 0; m_lcg_ := m; a_lcg_ := LCG_MULTIPLIER;
            c_lcg_ := LCG_INCREMENT; current_lcg_state_ := seed `mod` m |}.

Definition covering_has_next (g : CoveringRandomGenerator) : bool :=
  current_count_ g <? range_size_ g.

Definition covering_reset (seed : Z) (g : CoveringRandomGenerator) : CoveringRandomGenerator :=
  {| min_value_ := min_value_ g; max_value_ := max_value_ g; range_size_ := range_size_ g;
     current_count_ := 0; m_lcg_ := m_lcg_ g; a_lcg_ := a_lcg_ g; c_lcg_ := c_lcg_ g;
     current_lcg_state_ := seed `mod` m_lcg_ g |}.

(** [(a_lcg_ * current_lcg_state_ + c_lcg_) % m_lcg_] in [uint64_t]. *)
Definition lcg_step (a c m x : Z) : Z := ((a *₆₄ x) +₆₄ c) `mod` m.

(** The do-while loop of [next()]: step until the state is below [range]. *)
Fixpoint lcg_walk (fuel : nat) (f : Z -> Z) (range x : Z) : option Z :=
  match fuel with
  | O => None
  | S fuel =>
      let y := f x in
      if range <=? y then lcg_walk fuel f range y else Some y
  end.

(** [next()]; [seed] is used only when a new cycle starts. *)
Definition covering_next (seed : Z) (g : CoveringRandomGenerator)
    : option (Z * CoveringRandomGenerator) :=
  let g := if covering_has_next g then g else covering_reset seed g in
  y ← lcg_walk (Z.to_nat (m_lcg_ g)) (lcg_step (a_lcg_ g) (c_lcg_ g) (m_lcg_ g))
        (range_size_ g) (current_lcg_state_ g);
  Some (min_value_ g +₆₄ y,
    {| min_value_ := min_value_ g; max_value_ := max_value_ g; range_size_ := range_size_ g;
       current_count_ := current_count_ g +₆₄ 1; m_lcg_ := m_lcg_ g; a_lcg_ := a_lcg_ g;
       c_lcg_ := c_lcg_ g; current_lcg_state_ := y |}).

(** [n] calls of [next()] one after the other. *)
Fixpoint covering_run (seed : Z) (n : nat) (g : CoveringRandomGenerator)
    : option (list Z * CoveringRandomGenerator) :=
  match n with
  | O => Some ([], g)
  | S n =>
      '(v, g) ← covering_next seed g;
      '(vs, g) ← covering_run seed n g;
      Some (v :: vs, g)
  end.

(** What the constructor establishes and every operation keeps. *)
Record covering_wf (g : CoveringRandomGenerator) : Prop := {
  wf_min : 0 <= min_value_ g;
  wf_max : min_value_ g + range_size_ g <= TWO64;
  wf_range : 0 < range_size_ g <= m_lcg_ g;
  wf_mod : exists k, 0 <= k <= 63 /\ m_lcg_ g = 2 ^ k;
  wf_a : a_lcg_ g `mod` 4 = 1;
  wf_c : c_lcg_ g `mod` 2 = 1;
  wf_state : 0 <= current_lcg_state_ g < m_lcg_ g;
  wf_count : 0 <= current_count_ g <= range_size_ g;
}.

(** The states that [k] steps visit. *)
Fixpoint orbit (f : Z -> Z) (k : nat) (x : Z) : list Z :=
  match k with
  | O => []
  | S k => let y := f x in y :: orbit f k y
  end.

(** ** The smallest power of two that is not below the range size *)

(** [x] has all of the bits from [L - s + 1] to [L] and none above [L]. *)
Definition smeared (L s x : Z) : Prop :=
  0 <= x /\ (forall i, L - s < i <= L -> 0 <= i -> Z.testbit x i = true)
  /\ (forall i, L < i -> Z.testbit x i = false).

Lemma smear_doubles L s x : 0 < s -> smeared L s x -> smeared L (2 * s) (smear s x).
Proof.
  intros Hs (Hx & Htop & Hhigh). unfold smear. split; [|split].
  - apply Z.lor_nonneg. split; [done|]. by apply Z.shiftr_nonneg.
  - intros i Hi Hi0. rewrite Z.lor_spec, Z.shiftr_spec by lia.
    destruct (Z_lt_le_dec (L - s) i).
    + by rewrite Htop by lia.
    + rewrite (Htop (i + s)) by lia. apply orb_true_r.
  - intros i Hi. destruct (Z_lt_le_dec i 0).
    { by rewrite Z.testbit_neg_r. }
    rewrite Z.lor_spec, Z.shiftr_spec, !Hhigh by lia. done.
Qed.

Lemma smeared_init x : 0 < x -> smeared (Z.log2 x) 1 x.
Proof.
  intros Hx. split; [lia|split].
  - intros i Hi Hi0. replace i with (Z.log2 x) by lia. by apply Z.bit_log2.
  - intros i Hi. apply Z.bits_above_log2; lia.
Qed.

Lemma smeared_ones L s x : 0 <= L < s -> smeared L s x -> x = Z.ones (L + 1).
Proof.
  intros HL (Hx & Htop & Hhigh). apply Z.bits_inj'. intros i Hi.
  destruct (Z_lt_le_dec L i).
  - rewrite Hhigh, Z.ones_spec_high by lia. done.
  - rewrite Htop, Z.ones_spec_low by lia. done.
Qed.

Lemma smear_chain x :
  0 < x < TWO64 ->
  smear 32 (smear 16 (smear 8 (smear 4 (smear 2 (smear 1 x))))) = 2 ^ (Z.log2 x + 1) - 1.
Proof.
  intros Hx.
  assert (0 <= Z.log2 x < 64).
  { split; [apply Z.log2_nonneg|]. apply Z.log2_lt_pow2; lia. }
  replace (2 ^ (Z.log2 x + 1) - 1) with (Z.ones (Z.log2 x + 1)) by (rewrite Z.ones_equiv; lia).
  apply (smeared_ones _ 64); [lia|].
  apply (smear_doubles _ 32); [lia|]. apply (smear_doubles _ 16); [lia|].
  apply (smear_doubles _ 8); [lia|]. apply (smear_doubles _ 4); [lia|].
  apply (smear_doubles _ 2); [lia|]. apply (smear_doubles _ 1); [lia|].
  apply smeared_init; lia.
Qed.

Lemma next_power_of_two_pos n :
  1 < n < TWO64 -> next_power_of_two n = u64 (2 ^ (Z.log2 (n - 1) + 1)).
Proof.
  intros Hn. unfold next_power_of_two. rewrite (proj2 (Z.eqb_neq n 0)) by lia.
  rewrite (u64_small (n - 1)) by lia. simpl. rewrite smear_chain by lia. f_equal. lia.
Qed.

(** The modulus is a power of two, not below the range size and less than twice of it. *)
Lemma next_power_of_two_spec n :
  0 < n <= 2 ^ 63 ->
  exists k, 0 <= k <= 63 /\ next_power_of_two n = 2 ^ k /\ n <= 2 ^ k < 2 * n.
Proof.
  intros Hn. destruct (decide (n = 1)) as [->|Hn1].
  { exists 0. vm_compute. split_and!; congruence. }
  pose proof (Z.log2_spec (n - 1) ltac:(lia)) as Hlog.
  pose proof (Z.log2_nonneg (n - 1)).
  assert (Z.log2 (n - 1) < 63) by (apply Z.log2_lt_pow2; lia).
  rewrite Z.pow_succ_r in Hlog by lia.
  assert (Hb : 2 ^ (Z.log2 (n - 1) + 1) <= 2 ^ 63) by (apply Z.pow_le_mono_r; lia).
  exists (Z.log2 (n - 1) + 1). rewrite next_power_of_two_pos by lia.
  rewrite Z.pow_add_r in * by lia. rewrite u64_small by lia. lia.
Qed.

(** Above [2^63] the smeared value overflows to 0, which the constructor turns into an error. *)
Lemma next_power_of_two_overflow n : 2 ^ 63 < n < TWO64 -> next_power_of_two n = 0.
Proof.
  intros Hn. rewrite next_power_of_two_pos by lia.
  replace (Z.log2 (n - 1)) with 63; [done|].
  symmetry. apply Z.log2_unique; lia.
Qed.

Lemma covering_modulus_ok n :
  0 < n <= 2 ^ 63 ->
  exists k, 0 <= k <= 63 /\ covering_modulus n = Ok (2 ^ k) /\ n <= 2 ^ k < 2 * n.
Proof.
  intros Hn. destruct (next_power_of_two_spec n Hn) as (k & Hk & Heq & Hb).
  exists k. split_and!; try lia. unfold covering_modulus. rewrite Heq.
  by rewrite (proj2 (Z.eqb_neq (2 ^ k) 0)) by lia.
Qed.

Lemma land_pred_high n : 2 ^ 63 < n < TWO64 -> Z.land n (n - 1) <> 0.
Proof.
  intros Hn Hz. assert (Hb : Z.testbit (Z.land n (n - 1)) 63 = true).
  { rewrite Z.land_spec. apply andb_true_intro.
    split; rewrite Z.testbit_true by lia.
    - by rewrite <- (Z.div_unique n (2 ^ 63) 1 (n - 2 ^ 63)) by lia.
    - by rewrite <- (Z.div_unique (n - 1) (2 ^ 63) 1 (n - 1 - 2 ^ 63)) by lia. }
  by rewrite Hz in Hb.
Qed.

Lemma covering_modulus_overflow n :
  2 ^ 63 < n < TWO64 ->
  covering_modulus n = Throw (WorkerException "Range size too large for this LCG implementation").
Proof.
  intros Hn. unfold covering_modulus. rewrite next_power_of_two_overflow by done. simpl.
  rewrite (proj2 (Z.ltb_lt 0 n)), (proj2 (Z.ltb_lt (2 ^ 63) n)), (u64_small (n - 1)) by lia.
  by rewrite (proj2 (Z.eqb_neq _ _) (land_pred_high n Hn)).
Qed.

(** ** The period of the generator

    With a multiplier of the form [4k+1] and an odd increment, the map [x -> a*x + c] modulo
    [2^K] is a single cycle through all of the residues. *)

Section FullPeriod.
Context (a c : Z) (Ha : a `mod` 4 = 1) (Hc : c `mod` 2 = 1).

Definition lcg_affine (x : Z) : Z := a * x + c.

(** [2^k] steps are an affine map whose multiplier is 1 modulo [2^(k+2)] and whose increment is
    an odd multiple of [2^k]. *)
Lemma affine_pow2 (k : nat) :
  exists u v, forall x, Nat.iter (2 ^ k)%nat lcg_affine x
    = (1 + 2 ^ (Z.of_nat k + 2) * u) * x + 2 ^ Z.of_nat k * (2 * v + 1).
Proof.
  induction k as [|k (u & v & IH)].
  - exists (a / 4), (c / 2). intros x. simpl. unfold lcg_affine.
    pose proof (Z.div_mod a 4). pose proof (Z.div_mod c 2). nia.
  - set (p := 2 ^ Z.of_nat k) in *.
    exists (u + 2 * p * u * u), (v + 2 * p * u * v + p * u). intros x.
    rewrite Nat.pow_succ_r', Nat.mul_comm. replace (2 ^ k * 2)%nat with (2 ^ k + 2 ^ k)%nat by lia.
    rewrite Nat.iter_add, !IH.
    replace (2 ^ (Z.of_nat k + 2)) with (4 * p) by (unfold p; rewrite Z.pow_add_r by lia; lia).
    replace (2 ^ (Z.of_nat (S k) + 2)) with (8 * p)
      by (unfold p; rewrite !Z.pow_add_r, Nat2Z.inj_succ, Z.pow_succ_r by lia; lia).
    replace (2 ^ Z.of_nat (S k)) with (2 * p)
      by (unfold p; rewrite Nat2Z.inj_succ, Z.pow_succ_r by lia; lia).
    ring.
Qed.

Lemma affine_pow2_shift (k : nat) x :
  exists w, Nat.iter (2 ^ k)%nat lcg_affine x = x + 2 ^ Z.of_nat k * (2 * w + 1).
Proof.
  destruct (affine_pow2 k) as (u & v & H). exists (2 * u * x + v). rewrite H.
  rewrite Z.pow_add_r by lia. ring.
Qed.

Lemma affine_pow2_mul (k e : nat) x :
  exists w, Nat.iter (2 ^ k * e)%nat lcg_affine x = x + 2 ^ Z.of_nat k * w.
Proof.
  induction e as [|e [w IH]].
  - exists 0. rewrite Nat.mul_0_r. simpl. lia.
  - rewrite Nat.mul_succ_r, Nat.add_comm, Nat.iter_add, IH.
    destruct (affine_pow2_shift k (x + 2 ^ Z.of_nat k * w)) as [w' ->].
    exists (w + (2 * w' + 1)). ring.
Qed.

(** A return to the same residue modulo [2^k] takes a multiple of [2^k] steps. *)
Lemma affine_return (k d : nat) x :
  (2 ^ Z.of_nat k | Nat.iter d lcg_affine x - x) -> (2 ^ k | d)%nat.
Proof.
  revert d x. induction k as [|k IH]; intros d x Hret.
  { exists d. simpl. lia. }
  rewrite Nat2Z.inj_succ, Z.pow_succ_r in Hret by lia.
  destruct (IH d x) as [e ->].
  { destruct Hret as [q Hq]. exists (q * 2). lia. }
  destruct (Nat.Even_or_Odd e) as [[h ->]|[h ->]].
  { exists h. rewrite Nat.pow_succ_r'. lia. }
  exfalso. replace ((2 * h + 1) * 2 ^ k)%nat with (2 ^ k + 2 ^ S k * h)%nat in Hret
    by (rewrite Nat.pow_succ_r'; lia).
  rewrite Nat.iter_add in Hret.
  destruct (affine_pow2_mul (S k) h x) as [w Hw]. rewrite Hw in Hret.
  destruct (affine_pow2_shift k (x + 2 ^ Z.of_nat (S k) * w)) as [w' Hw'].
  rewrite Hw', Nat2Z.inj_succ, Z.pow_succ_r in Hret by lia. destruct Hret as [q Hq].
  assert (Hp : 0 < 2 ^ Z.of_nat k) by lia.
  assert (2 ^ Z.of_nat k * (2 * w + 2 * w' + 1 - 2 * q) = 0) as Hz by lia.
  apply Z.eq_mul_0 in Hz. lia.
Qed.
End FullPeriod.

(** The [uint64_t] step agrees with the unbounded affine map modulo [m]. *)
Lemma lcg_iter_affine a c m n x :
  0 < m -> (m | TWO64) -> 0 <= x < m ->
  Nat.iter n (lcg_step a c m) x = Nat.iter n (lcg_affine a c) x `mod` m.
Proof.
  intros Hm Hd Hx. induction n as [|n IH]; [simpl; by rewrite Z.mod_small|].
  simpl. rewrite IH. unfold lcg_step, lcg_affine at 1.
  autorewrite with machine. rewrite u64_divide_mod by done.
  rewrite <- Zplus_mod_idemp_l, Zmult_mod_idemp_r, Zplus_mod_idemp_l. done.
Qed.

Lemma lcg_step_bound a c m x : 0 < m -> 0 <= lcg_step a c m x < m.
Proof. intros. by apply Z.mod_pos_bound. Qed.

Lemma lcg_iter_inj a c (k i j : nat) x :
  a `mod` 4 = 1 -> c `mod` 2 = 1 -> (k <= 64)%nat -> 0 <= x < 2 ^ Z.of_nat k ->
  (i <= j < i + 2 ^ k)%nat ->
  Nat.iter i (lcg_step a c (2 ^ Z.of_nat k)) x = Nat.iter j (lcg_step a c (2 ^ Z.of_nat k)) x ->
  i = j.
Proof.
  intros Ha Hc Hk Hx Hij Heq.
  assert ((2 ^ Z.of_nat k | TWO64)) as Hd.
  { exists (2 ^ (64 - Z.of_nat k)). rewrite <- Z.pow_add_r by lia.
    by replace (64 - Z.of_nat k + Z.of_nat k) with 64 by lia. }
  rewrite !lcg_iter_affine in Heq by (done || lia).
  replace j with ((j - i) + i)%nat in Heq by lia. rewrite Nat.iter_add in Heq.
  destruct (affine_return a c Ha Hc k (j - i) (Nat.iter i (lcg_affine a c) x)) as [q Hq].
  { apply Z.cong_iff_ex in Heq. destruct Heq as [q Hq]. exists (- q). lia. }
  destruct q; nia.
Qed.

(** ** One cycle of the generator visits every value of the range exactly once *)

Lemma orbit_lookup f k x i :
  (i < k)%nat -> orbit f k x !! i = Some (Nat.iter (S i) f x).
Proof.
  revert x i. induction k as [|k IH]; intros x i Hi; [lia|]. destruct i as [|i]; [done|].
  cbn [orbit lookup list_lookup]. rewrite IH by lia. by rewrite <- Nat.iter_succ_r.
Qed.

Lemma orbit_length f k x : length (orbit f k x) = k.
Proof. revert x. induction k; intros x; simpl; auto. Qed.

Lemma orbit_bound f k x m :
  (forall y, 0 <= f y < m) -> Forall (fun y => 0 <= y < m) (orbit f k x).
Proof. intros Hf. revert x. induction k; intros x; simpl; constructor; auto. Qed.

Lemma orbit_permutation a c (k : nat) x :
  a `mod` 4 = 1 -> c `mod` 2 = 1 -> (k <= 64)%nat -> 0 <= x < 2 ^ Z.of_nat k ->
  orbit (lcg_step a c (2 ^ Z.of_nat k)) (2 ^ k)%nat x ≡ₚ seqZ 0 (2 ^ Z.of_nat k).
Proof.
  intros Ha Hc Hk Hx. set (f := lcg_step a c (2 ^ Z.of_nat k)).
  apply submseteq_length_Permutation.
  - apply NoDup_submseteq.
    + apply NoDup_alt. intros i j y Hi Hj.
      pose proof (lookup_lt_Some _ _ _ Hi) as Li. pose proof (lookup_lt_Some _ _ _ Hj) as Lj.
      rewrite orbit_length in Li, Lj.
      rewrite orbit_lookup in Hi, Hj by done.
      assert (Heq : Nat.iter (S i) f x = Nat.iter (S j) f x) by congruence.
      destruct (Nat.le_ge_cases i j).
      * apply (lcg_iter_inj a c k (S i) (S j) x) in Heq; auto; lia.
      * symmetry in Heq. apply (lcg_iter_inj a c k (S j) (S i) x) in Heq; auto; lia.
    + intros y Hy. apply elem_of_seqZ.
      assert (Hall : Forall (fun y => 0 <= y < 2 ^ Z.of_nat k) (orbit f (2 ^ k)%nat x)).
      { apply orbit_bound. intros. apply lcg_step_bound. lia. }
      rewrite Forall_forall in Hall. apply Hall in Hy. lia.
  - rewrite orbit_length, length_seqZ, Z2Nat.inj_pow by lia. rewrite Nat2Z.id. done.
Qed.

(** The loop of [next()] returns the next state of the orbit that is below the range size. *)
Lemma lcg_walk_filter f range fuel k x y ys :
  (k <= fuel)%nat -> filter (fun z => z < range) (orbit f k x) = y :: ys ->
  lcg_walk fuel f range x = Some y
  /\ exists k', (k' < k)%nat /\ filter (fun z => z < range) (orbit f k' y) = ys.
Proof.
  revert fuel x. induction k as [|k IH]; intros fuel x Hfuel Hf; [done|].
  destruct fuel as [|fuel]; [lia|]. simpl in *. rewrite filter_cons in Hf. case_decide as Hlt.
  - simplify_eq. rewrite (proj2 (Z.leb_gt range (f x))) by lia. split; [done|].
    exists k. split; [lia|done].
  - rewrite (proj2 (Z.leb_le range (f x))) by lia.
    destruct (IH fuel (f x)) as [Hw (k' & Hk' & Hrest)]; [lia|done|].
    split; [done|]. exists k'. split; [lia|done].
Qed.

Lemma wf_mod_bound g : covering_wf g -> 0 < m_lcg_ g <= 2 ^ 63.
Proof.
  intros [? ? ? (e & He & ->) ? ? ? ?]. split; [lia|]. apply Z.pow_le_mono_r; lia.
Qed.

Lemma covering_run_filter seed n k g :
  covering_wf g -> (k <= Z.to_nat (m_lcg_ g))%nat -> current_count_ g + Z.of_nat n <= range_size_ g ->
  length (filter (fun z => z < range_size_ g)
    (orbit (lcg_step (a_lcg_ g) (c_lcg_ g) (m_lcg_ g)) k (current_lcg_state_ g))) = n ->
  exists g', covering_run seed n g
    = Some (Z.add (min_value_ g) <$> filter (fun z => z < range_size_ g)
        (orbit (lcg_step (a_lcg_ g) (c_lcg_ g) (m_lcg_ g)) k (current_lcg_state_ g)), g')
    /\ covering_wf g' /\ current_count_ g' = current_count_ g + Z.of_nat n
    /\ range_size_ g' = range_size_ g /\ min_value_ g' = min_value_ g.
Proof.
  revert k g. induction n as [|n IH]; intros k g Hwf Hk Hcnt Hlen.
  { apply length_zero_iff_nil in Hlen. rewrite Hlen. exists g. split_and!; auto; lia. }
  destruct (filter _ _) as [|y ys] eqn:Hf in *; [done|].
  pose proof (wf_mod_bound g Hwf). pose proof Hwf as [? ? ? Hmod ? ? ? ?].
  destruct (lcg_walk_filter _ _ _ _ _ _ _ Hk Hf) as [Hw (k' & Hk' & Hrest)].
  assert (Hy : 0 <= y < range_size_ g).
  { assert (Hin : y ∈ y :: ys) by left. rewrite <- Hf in Hin.
    apply list_elem_of_filter in Hin as [? Hin]. split; [|done].
    eapply Forall_forall in Hin; [|apply (orbit_bound _ _ _ (m_lcg_ g))].
    - simpl in Hin; lia.
    - intros. apply lcg_step_bound. lia. }
  simpl. unfold covering_next, covering_has_next.
  rewrite (proj2 (Z.ltb_lt (current_count_ g) (range_size_ g))), Hw by lia. simpl.
  destruct (IH k' {| min_value_ := min_value_ g; max_value_ := max_value_ g;
    range_size_ := range_size_ g; current_count_ := current_count_ g +₆₄ 1;
    m_lcg_ := m_lcg_ g; a_lcg_ := a_lcg_ g; c_lcg_ := c_lcg_ g;
    current_lcg_state_ := y |}) as (g' & Hrun & Hwf' & Hcnt' & Hr' & Hmin'); simpl.
  - constructor; simpl; try done; try (rewrite u64_small by lia); eauto; lia.
  - lia.
  - rewrite u64_small by lia. lia.
  - rewrite Hrest. simpl in Hlen. lia.
  - exists g'. simpl in *. rewrite Hrun. simpl. rewrite Hrest, u64_small by lia.
    split_and!; auto. rewrite Hcnt', u64_small by lia. lia.
Qed.

Lemma filter_seqZ_below m r :
  0 <= r <= m -> filter (fun z => z < r) (seqZ 0 m) = seqZ 0 r.
Proof.
  intros Hr. replace m with (r + (m - r)) by lia. rewrite seqZ_app by lia.
  rewrite filter_app, (filter_all _ (seqZ 0 r)), (filter_none _ (seqZ _ (m - r))).
  - apply app_nil_r.
  - apply Forall_seqZ. lia.
  - apply Forall_seqZ. lia.
Qed.

(** One period of the generator, filtered to the range. *)
Lemma covering_period g :
  covering_wf g ->
  filter (fun z => z < range_size_ g)
    (orbit (lcg_step (a_lcg_ g) (c_lcg_ g) (m_lcg_ g)) (Z.to_nat (m_lcg_ g)) (current_lcg_state_ g))
  ≡ₚ seqZ 0 (range_size_ g).
Proof.
  intros [? ? ? (e & He & Hm) ? ? ? ?]. rewrite <- (filter_seqZ_below (m_lcg_ g)) by lia.
  apply filter_Permutation. rewrite Hm. replace e with (Z.of_nat (Z.to_nat e)) by lia.
  rewrite Z2Nat.inj_pow, Nat2Z.id by lia.
  apply orbit_permutation; try done; [lia|]. rewrite Z2Nat.id by lia. by rewrite <- Hm.
Qed.

Lemma covering_cycle_aux seed g :
  covering_wf g -> current_count_ g = 0 ->
  exists l g', covering_run seed (Z.to_nat (range_size_ g)) g = Some (l, g')
    /\ l ≡ₚ seqZ (min_value_ g) (range_size_ g)
    /\ covering_wf g' /\ covering_has_next g' = false.
Proof.
  intros Hwf Hcnt. pose proof (covering_period g Hwf) as Hperm. pose proof (wf_range g Hwf).
  destruct (covering_run_filter seed (Z.to_nat (range_size_ g)) (Z.to_nat (m_lcg_ g)) g)
    as (g' & Hrun & Hwf' & Hcnt' & Hr' & Hmin'); [done|lia|lia| |].
  { etrans; [apply (Permutation_length Hperm)|]. apply length_seqZ. }
  eexists _, g'. split_and!; [exact Hrun| |done|].
  - rewrite Hperm, fmap_add_seqZ, Z.add_0_r. done.
  - unfold covering_has_next. apply Z.ltb_ge. lia.
Qed.

Lemma covering_new_wf min_val max_val seed :
  0 <= min_val <= max_val -> max_val < TWO64 -> max_val - min_val < 2 ^ 63 ->
  exists g, covering_new min_val max_val seed = Ok g /\ covering_wf g
    /\ current_count_ g = 0 /\ min_value_ g = min_val /\ range_size_ g = max_val - min_val + 1.
Proof.
  intros Hmin Hmax Hrange. unfold covering_new.
  rewrite (proj2 (Z.ltb_ge max_val min_val)) by lia.
  rewrite (u64_small (max_val - min_val)), u64_small by lia.
  rewrite (proj2 (Z.eqb_neq (max_val - min_val + 1) 0)) by lia.
  destruct (covering_modulus_ok (max_val - min_val + 1)) as (k & Hk & Hm & Hb); [lia|].
  rewrite Hm. simpl. eexists. split_and!; [done|..]; simpl; try lia.
  constructor; simpl; try done; try lia.
  - exists k. split; [lia|done].
  - apply Z.mod_pos_bound. lia.
Qed.

Lemma covering_reset_wf seed g :
  covering_wf g -> covering_wf (covering_reset seed g).
Proof.
  intros [? ? ? (k & Hk & Hm) ? ? ? ?]. constructor; simpl; eauto; try lia.
  apply Z.mod_pos_bound. lia.
Qed.

(** A call on an exhausted generator starts a new cycle. *)
Lemma covering_run_exhausted seed n g :
  covering_wf g -> covering_has_next g = false -> (0 < n)%nat ->
  covering_run seed n g = covering_run seed n (covering_reset seed g).
Proof.
  intros Hwf Hno Hn. destruct n as [|n]; [lia|]. simpl. unfold covering_next at 1 2.
  rewrite Hno. replace (covering_has_next (covering_reset seed g)) with true; [done|].
  symmetry. unfold covering_has_next. simpl. apply Z.ltb_lt. apply Hwf.
Qed.

(** [next()] terminates from every well-formed state and returns a number of the range. *)
Lemma covering_next_terminates seed g :
  covering_wf g ->
  exists v g', covering_next seed g = Some (v, g') /\ covering_wf g'
    /\ min_value_ g <= v < min_value_ g + range_size_ g.
Proof.
  intros Hwf0. unfold covering_next.
  set (h := if covering_has_next g then g else covering_reset seed g).
  assert (covering_wf h /\ current_count_ h < range_size_ h /\ min_value_ h = min_value_ g
    /\ range_size_ h = range_size_ g) as (Hwf & Hcnt & <- & <-).
  { unfold h. destruct (covering_has_next g) eqn:Hn.
    - apply Z.ltb_lt in Hn. by split_and!.
    - pose proof (wf_range g Hwf0). split_and!; [by apply covering_reset_wf|simpl; lia|done..]. }
  clearbody h. clear g Hwf0. pose proof (covering_period h Hwf) as Hperm.
  pose proof Hwf as [? ? ? ? ? ? ? ?]. pose proof (wf_mod_bound h Hwf).
  destruct (filter _ _) as [|y ys] eqn:Hf in Hperm.
  { apply Permutation_length in Hperm. rewrite length_seqZ in Hperm. simpl in Hperm. lia. }
  assert (0 <= y < range_size_ h) as Hy.
  { assert (y ∈ seqZ 0 (range_size_ h)) as Hin by (rewrite <- Hperm; left).
    apply elem_of_seqZ in Hin. lia. }
  destruct (lcg_walk_filter _ _ _ _ _ _ _ (le_n _) Hf) as [-> _]. simpl.
  eexists _, _. split; [done|]. rewrite (u64_small (min_value_ h + y)) by lia. split; [|lia].
  constructor; simpl; try done; try (rewrite u64_small by lia); eauto; lia.
Qed.

(** The seed only matters when a cycle is complete. *)
Lemma covering_next_seed seed seed' g :
  covering_has_next g = true -> covering_next seed g = covering_next seed' g.
Proof. intros Hn. unfold covering_next. by rewrite Hn. Qed.

Lemma covering_next_count seed g v g' :
  covering_has_next g = true -> covering_wf g -> covering_next seed g = Some (v, g') ->
  current_count_ g' = current_count_ g + 1 /\ covering_wf g'.
Proof.
  intros Hn Hwf Hnext. destruct (covering_next_terminates seed g Hwf) as (v' & g'' & Hnext' & Hwf' & _).
  simplify_eq. split; [|done]. unfold covering_next in Hnext. rewrite Hn in Hnext.
  destruct (lcg_walk _ _ _ _); simpl in Hnext; simplify_eq. simpl.
  pose proof (wf_count g Hwf). pose proof (wf_range g Hwf). pose proof (wf_mod_bound g Hwf).
  apply Z.ltb_lt in Hn. rewrite u64_small; lia.
Qed.

Lemma covering_next_const seed g v g' :
  covering_next seed g = Some (v, g') ->
  range_size_ g' = range_size_ g /\ min_value_ g' = min_value_ g.
Proof.
  unfold covering_next. intros H.
  destruct (covering_has_next g); destruct (lcg_walk _ _ _ _); simpl in H; by simplify_eq.
Qed.

Lemma covering_run_const seed n g l g' :
  covering_run seed n g = Some (l, g') ->
  range_size_ g' = range_size_ g /\ min_value_ g' = min_value_ g.
Proof.
  revert g l. induction n as [|n IH]; intros g l Hrun; simpl in Hrun; [by simplify_eq|].
  destruct (covering_next seed g) as [[v g1]|] eqn:Hnext; simpl in Hrun; [|done].
  destruct (covering_run seed n g1) as [[vs g2]|] eqn:Hrun'; simpl in Hrun; [|done].
  simplify_eq. apply IH in Hrun' as [-> ->]. by apply covering_next_const in Hnext.
Qed.

(** ** Properties *)

(** C17: The full-coverage generator for the blocks [min..max] exists, and its first
    [max-min+1] calls of [next()] return every block of the range exactly once, in some order;
    the rejection loop inside of each call terminates.  After that the cycle is used up, and the
    calls of the next cycle, for which [next()] draws a new seed, again return every block
    exactly once. *)
Theorem covering_full_cycle min_val max_val seed seed1 seed2 :
  0 <= min_val <= max_val -> max_val < TWO64 -> max_val - min_val < 2 ^ 63 ->
  let n := Z.to_nat (max_val - min_val + 1) in
  exists g l1 g1 l2 g2,
    covering_new min_val max_val seed = Ok g
    /\ covering_run seed1 n g = Some (l1, g1)
    /\ l1 ≡ₚ seqZ min_val (max_val - min_val + 1)
    /\ covering_has_next g1 = false
    /\ covering_run seed2 n g1 = Some (l2, g2)
    /\ l2 ≡ₚ seqZ min_val (max_val - min_val + 1).
Proof.
  intros Hmin Hmax Hrange n.
  destruct (covering_new_wf min_val max_val seed Hmin Hmax Hrange)
    as (g & Hnew & Hwf & Hcnt & Hmn & Hrs).
  destruct (covering_cycle_aux seed1 g Hwf Hcnt) as (l1 & g1 & Hrun1 & Hp1 & Hwf1 & Hno1).
  destruct (covering_run_const _ _ _ _ _ Hrun1) as [Hrs1 Hmn1].
  destruct (covering_cycle_aux seed2 (covering_reset seed2 g1)) as (l2 & g2 & Hrun2 & Hp2 & _);
    [by apply covering_reset_wf|done|]. simpl in Hrun2, Hp2.
  rewrite Hrs1, Hmn1, Hrs, Hmn in *.
  exists g, l1, g1, l2, g2. split_and!; try done.
  rewrite covering_run_exhausted; [done..|lia].
Qed.

Lemma covering_full_cycle_witness :
  exists g l1 g1 l2 g2,
    covering_new 5 10 123 = Ok g
    /\ covering_run 7 (Z.to_nat (10 - 5 + 1)) g = Some (l1, g1)
    /\ l1 ≡ₚ seqZ 5 (10 - 5 + 1)
    /\ covering_has_next g1 = false
    /\ covering_run 9 (Z.to_nat (10 - 5 + 1)) g1 = Some (l2, g2)
    /\ l2 ≡ₚ seqZ 5 (10 - 5 + 1).
Proof. apply (covering_full_cycle 5 10 123 7 9); lia. Defined.

Lemma covering_new_too_large min_val max_val seed :
  0 <= min_val -> max_val < TWO64 -> 2 ^ 63 <= max_val - min_val ->
  exists msg, covering_new min_val max_val seed = Throw (WorkerException msg).
Proof.
  intros Hmin Hmax Hrange. unfold covering_new.
  rewrite (proj2 (Z.ltb_ge max_val min_val)), (u64_small (max_val - min_val)) by lia.
  destruct (decide (max_val - min_val + 1 = TWO64)) as [->|]; [by eexists|].
  rewrite u64_small, (proj2 (Z.eqb_neq (max_val - min_val + 1) 0)) by lia.
  rewrite covering_modulus_overflow by lia. by eexists.
Qed.

(** For 64-bit bounds the constructor of the full-coverage generator accepts exactly the
    non-empty ranges of at most [2^63] blocks; an inverted range and a range whose power-of-two
    modulus would overflow [uint64_t] are reported as an exception. *)
Lemma covering_new_ok_iff min_val max_val seed :
  0 <= min_val < TWO64 -> 0 <= max_val < TWO64 ->
  (exists g, covering_new min_val max_val seed = Ok g)
  <-> min_val <= max_val /\ max_val - min_val < 2 ^ 63.
Proof.
  intros Hmin Hmax. split.
  - intros [g Hg]. destruct (decide (max_val < min_val)).
    { unfold covering_new in Hg. by rewrite (proj2 (Z.ltb_lt max_val min_val)) in Hg. }
    split; [lia|]. destruct (decide (max_val - min_val < 2 ^ 63)); [done|].
    destruct (covering_new_too_large min_val max_val seed) as [msg Hthrow]; [lia..|]. congruence.
  - intros [Hle Hlt]. destruct (covering_new_wf min_val max_val seed) as (g & Hg & _); eauto; lia.
Qed.

Lemma covering_new_ok_iff_witness :
  (exists g, covering_new 3 4 0 = Ok g) <-> 3 <= 4 /\ 4 - 3 < 2 ^ 63.
Proof. apply covering_new_ok_iff; lia. Defined.
