(* ===== verification/RandAlgo.v ===== *)
(** Random number generators: toolkits/random/.

    [RandAlgoInterface] is the type class [RandAlgo]: a state type with the [next()] of the
    interface.  Its instances are the xoshiro256** generator, the multiply-and-shift generator
    with reseeding, and the SIMD variant of xoshiro256++.  [RandAlgoRange] is the wrapper that
    maps a draw into a range. *)

From S2P Require Import Prelude.

(** ** Definitions *)

(** The contract of [RandAlgoInterface]: [next()] returns a [uint64_t].  [rand_ok] is the
    invariant of the state. *)
Class RandAlgo (R : Type) : Type := {
  rand_next : R -> Z * R;
  rand_ok : R -> Prop;
  rand_next_ok : forall r, rand_ok r -> rand_ok (snd (rand_next r));
  rand_next_u64 : forall r, rand_ok r -> 0 <= fst (rand_next r) < TWO64;
}.

(** ** The common buffer fill loop

    [fillBuf()] of the scalar generators: one draw per 8 bytes, and one more draw of which only
    the first bytes are copied when the length is not a multiple of 8. *)

Fixpoint fill_words {R} (next : R -> Z * R) (n : nat) (r : R) : list Z * R :=
  match n with
  | O => ([], r)
  | S n =>
      let '(w, r) := next r in
      let '(ws, r) := fill_words next n r in
      (u64_bytes w ++ ws, r)
  end.

Definition fillBuf {R} (next : R -> Z * R) (bufLen : Z) (r : R) : list Z * R :=
  let numWords := Z.to_nat (bufLen / 8) in
  let '(bytes, r) := fill_words next numWords r in
  let numBytesDone := 8 * Z.of_nat numWords in
  if numBytesDone =? bufLen then (bytes, r)
  else
    let '(w, r) := next r in
    (bytes ++ take (Z.to_nat (bufLen - numBytesDone)) (u64_bytes w), r).

(** ** xoshiro256** *)

Definition shl64 (x k : Z) : Z := u64 (Z.shiftl x k).
Definition rol64 (x k : Z) : Z := Z.lor (shl64 x k) (Z.shiftr x (64 - k)).

Record xoshiro_state : Type := mkXoshiro { xs0 : Z; xs1 : Z; xs2 : Z; xs3 : Z }.

Definition xoshiro_state_ok (s : xoshiro_state) : Prop :=
  0 <= xs0 s < TWO64 /\ 0 <= xs1 s < TWO64 /\ 0 <= xs2 s < TWO64 /\ 0 <= xs3 s < TWO64.

(** [RandAlgoXoshiro256ss::nextInternal()] *)
Definition xoshiro256ss_next (s : xoshiro_state) : Z * xoshiro_state :=
  let result := rol64 (xs1 s *₆₄ 5) 7 *₆₄ 9 in
  let t := shl64 (xs1 s) 17 in
  let s2 := Z.lxor (xs2 s) (xs0 s) in
  let s3 := Z.lxor (xs3 s) (xs1 s) in
  let s1 := Z.lxor (xs1 s) s2 in
  let s0 := Z.lxor (xs0 s) s3 in
  let s2 := Z.lxor s2 t in
  let s3 := rol64 s3 45 in
  (result, mkXoshiro s0 s1 s2 s3).

(** ** Multiply-and-shift generator with occasional reseeding *)

Definition RANDALGO_GOLDEN_RESEED_SIZE : Z := 256 * 1024.

Definition RandAlgoGoldenPrimes : list Z :=
  [0x9e37fffffffc0001; 0x9e3779b97f4a7c15; 0xbf58476d1ce4e5b9; 0x94d049bb133111eb].

Record golden_state : Type := mkGolden {
  stateSeeder : xoshiro_state;
  golden_val : Z;
  currentGoldenPrimeIdx : nat;
}.

(** [RandAlgoGoldenPrime()]: the start value comes from the seeder. *)
Definition golden_new (seeder : xoshiro_state) : golden_state :=
  let '(st, seeder) := xoshiro256ss_next seeder in
  mkGolden seeder st (Z.to_nat (st `mod` 4)).

(** [RandAlgoGoldenPrime(uint64_t seed)] *)
Definition golden_new_seeded (seeder : xoshiro_state) (seed : Z) : golden_state :=
  mkGolden seeder seed (Z.to_nat (seed `mod` 4)).

(** [nextInternal()]; the index is always in range ([golden_ok]), so the default is not used. *)
Definition golden_next (g : golden_state) : Z * golden_state :=
  let prime := default 0 (RandAlgoGoldenPrimes !! currentGoldenPrimeIdx g) in
  let st := Z.shiftr (golden_val g *₆₄ prime) 3 in
  (st, mkGolden (stateSeeder g) st (currentGoldenPrimeIdx g)).

Definition golden_reseed (g : golden_state) : golden_state :=
  let '(st, seeder) := xoshiro256ss_next (stateSeeder g) in
  mkGolden seeder st ((currentGoldenPrimeIdx g + 1) mod 4)%nat.

(** The chunk loop of [RandAlgoGoldenPrime::fillBuf()]: reseed and fill one chunk while a full
    chunk is left.  Each pass consumes a chunk, so [bufLen / chunk] passes are enough fuel. *)
Fixpoint golden_fill_chunks (fuel : nat) (bufLen numBytesDone : Z) (g : golden_state)
    : list Z * Z * golden_state :=
  match fuel with
  | O => ([], numBytesDone, g)
  | S fuel =>
      if RANDALGO_GOLDEN_RESEED_SIZE <=? bufLen - numBytesDone then
        let '(bytes, g) := fillBuf golden_next RANDALGO_GOLDEN_RESEED_SIZE (golden_reseed g) in
        let '(rest, done, g) :=
          golden_fill_chunks fuel bufLen (numBytesDone + RANDALGO_GOLDEN_RESEED_SIZE) g in
        (bytes ++ rest, done, g)
      else ([], numBytesDone, g)
  end.

Definition golden_fillBuf (bufLen : Z) (g : golden_state) : list Z * golden_state :=
  let fuel := Z.to_nat (bufLen / RANDALGO_GOLDEN_RESEED_SIZE) in
  let '(bytes, done, g) := golden_fill_chunks fuel bufLen 0 g in
  let '(rest, g) := fillBuf golden_next (bufLen - done) (golden_reseed g) in
  (bytes ++ rest, g).

Definition golden_ok (g : golden_state) : Prop :=
  xoshiro_state_ok (stateSeeder g) /\ 0 <= golden_val g < TWO64
  /\ (currentGoldenPrimeIdx g < 4)%nat.

(** ** N-way xoshiro256++

    The state is stored as four rows of [Nway] words.  [nextInternalNway<NwayInternal>] runs its
    loops over the first [NwayInternal] entries of each row. *)

Record simd_state : Type := mkSimd { row0 : list Z; row1 : list Z; row2 : list Z; row3 : list Z }.

(** [for(i = 0; i < n; ++i) dst[i] = f(dst[i], src[i])] *)
Fixpoint row_update (f : Z -> Z -> Z) (n : nat) (dst src : list Z) : list Z :=
  match n, dst, src with
  | S n, d :: dst, s :: src => f d s :: row_update f n dst src
  | _, _, _ => dst
  end.

Definition row_xor : nat -> list Z -> list Z -> list Z := row_update Z.lxor.

Definition simd_nextNway (n : nat) (s : simd_state) : list Z * simd_state :=
  let x := zip_with (fun a b => a +₆₄ b) (take n (row0 s)) (take n (row3 s)) in
  let r := zip_with (fun x a => Z.lor (shl64 x 23) (Z.shiftr x 41) +₆₄ a) x (take n (row0 s)) in
  let t := (fun b => shl64 b 17) <$> take n (row1 s) in
  let s2 := row_xor n (row2 s) (row0 s) in
  let s3 := row_xor n (row3 s) (row1 s) in
  let s1 := row_xor n (row1 s) s2 in
  let s0 := row_xor n (row0 s) s3 in
  let s2 := row_xor n s2 t in
  let s3 := row_update (fun d _ => Z.lor (shl64 d 45) (Z.shiftr d 19)) n s3 s3 in
  (r, mkSimd s0 s1 s2 s3).

(** One lane of the N-way generator as the scalar xoshiro256++ algorithm. *)
Definition xoshiro256pp_next (s : xoshiro_state) : Z * xoshiro_state :=
  let result := rol64 (xs0 s +₆₄ xs3 s) 23 +₆₄ xs0 s in
  let t := shl64 (xs1 s) 17 in
  let s2 := Z.lxor (xs2 s) (xs0 s) in
  let s3 := Z.lxor (xs3 s) (xs1 s) in
  let s1 := Z.lxor (xs1 s) s2 in
  let s0 := Z.lxor (xs0 s) s3 in
  (result, mkXoshiro s0 s1 (Z.lxor s2 t) (rol64 s3 45)).

Definition simd_lane (i : nat) (s : simd_state) : option xoshiro_state :=
  a ← row0 s !! i; b ← row1 s !! i; c ← row2 s !! i; d ← row3 s !! i;
  Some (mkXoshiro a b c d).

(** ** Draws within a range *)

Record RandAlgoRange : Type := mkRange { range_start : Z; lengthPlusOne : Z }.

Definition RandAlgoRange_new (min max : Z) : result RandAlgoRange :=
  if max <? min then Throw (ProgException "RandAlgoRange: max < min not allowed.")
  else Ok (mkRange min ((max -₆₄ min) +₆₄ 1)).

(** [reset()] stores the new bounds before it checks them. *)
Definition RandAlgoRange_reset (min max : Z) (_ : RandAlgoRange) : RandAlgoRange * result unit :=
  (mkRange min ((max -₆₄ min) +₆₄ 1),
   if max <? min then Throw (ProgException "RandAlgoRange: max < min not allowed.") else Ok tt).

(** [next()]; a zero [lengthPlusOne] is an integer division by zero ([None]). *)
Definition RandAlgoRange_next {R} `{!RandAlgo R} (g : RandAlgoRange) (r : R) : option (Z * R) :=
  let '(v, r) := rand_next r in
  if lengthPlusOne g =? 0 then None
  else Some ((v `mod` lengthPlusOne g) +₆₄ range_start g, r).

(** ** Algorithm selection *)

Inductive RandAlgoType : Type :=
  | RandAlgo_INVALID | RandAlgo_MT19937 | RandAlgo_XOSHIRO256SS
  | RandAlgo_XOSHIRO256PP8XSIMD | RandAlgo_GOLDENRATIOPRIME.

Definition RandAlgoSelector_stringToEnum (algoString : string) : RandAlgoType :=
  if String.eqb algoString "strong" then RandAlgo_MT19937
  else if String.eqb algoString "balanced" then RandAlgo_XOSHIRO256PP8XSIMD
  else if String.eqb algoString "balanced_single" then RandAlgo_XOSHIRO256SS
  else if String.eqb algoString "fast" then RandAlgo_GOLDENRATIOPRIME
  else RandAlgo_INVALID.

(** [stringToAlgo()]: which class gets instantiated. *)
Definition RandAlgoSelector_stringToAlgo (algoString : string) : result RandAlgoType :=
  if String.eqb algoString "strong" then Ok RandAlgo_MT19937
  else if String.eqb algoString "balanced_single" then Ok RandAlgo_XOSHIRO256SS
  else if String.eqb algoString "balanced" then Ok RandAlgo_XOSHIRO256PP8XSIMD
  else if String.eqb algoString "fast" then Ok RandAlgo_GOLDENRATIOPRIME
  else Throw (ProgException "Invalid random algo").

(** ** Lemmas *)

Lemma shl64_u64 x k : 0 <= shl64 x k < TWO64.
Proof. apply u64_range. Qed.
#[export] Hint Resolve shl64_u64 : u64.

Lemma rol64_u64 x k : 0 <= x < TWO64 -> 0 <= k <= 64 -> 0 <= rol64 x k < TWO64.
Proof. intros. unfold rol64. auto with u64. Qed.
#[export] Hint Resolve rol64_u64 : u64.

Lemma xoshiro256ss_next_ok s :
  xoshiro_state_ok s -> xoshiro_state_ok (snd (xoshiro256ss_next s)).
Proof.
  intros (? & ? & ? & ?). refine (conj _ (conj _ (conj _ _))); simpl; auto 10 with u64.
Qed.

#[export] Instance xoshiro256ss_RandAlgo : RandAlgo xoshiro_state.
Proof.
  refine {| rand_next := xoshiro256ss_next; rand_ok := xoshiro_state_ok |}.
  - apply xoshiro256ss_next_ok.
  - intros. apply u64_range.
Defined.

Lemma golden_next_val g : 0 <= fst (golden_next g) < TWO64.
Proof. apply shiftr_u64; [apply u64_range|lia]. Qed.

Lemma golden_next_ok g : golden_ok g -> golden_ok (snd (golden_next g)).
Proof. intros (? & ? & ?). pose proof (golden_next_val g). done. Qed.

Lemma golden_reseed_ok g : golden_ok g -> golden_ok (golden_reseed g).
Proof.
  intros (Hs & _ & Hi). refine (conj _ (conj _ _)); simpl.
  - by apply xoshiro256ss_next_ok.
  - apply u64_range.
  - lia.
Qed.

#[export] Instance golden_RandAlgo : RandAlgo golden_state.
Proof.
  refine {| rand_next := golden_next; rand_ok := golden_ok |}.
  - apply golden_next_ok.
  - intros. apply golden_next_val.
Defined.

Lemma fill_words_length {R} (next : R -> Z * R) n r :
  length (fst (fill_words next n r)) = (8 * n)%nat.
Proof.
  revert r. induction n as [|n IH]; intros r; [done|]. simpl.
  destruct (next r) as [w r']. specialize (IH r'). destruct (fill_words next n r') as [ws r''].
  simpl in *. lia.
Qed.

Lemma fillBuf_length {R} (next : R -> Z * R) bufLen r :
  0 <= bufLen -> Z.of_nat (length (fst (fillBuf next bufLen r))) = bufLen.
Proof.
  intros Hlen. unfold fillBuf. pose proof (fill_words_length next (Z.to_nat (bufLen / 8)) r) as Hw.
  destruct (fill_words _ _ r) as [bytes r'].
  pose proof (Z.div_mod bufLen 8). pose proof (Z.mod_pos_bound bufLen 8).
  pose proof (Z.div_pos bufLen 8).
  case_match eqn:Heq; [simpl in *; apply Z.eqb_eq in Heq; lia|].
  apply Z.eqb_neq in Heq. destruct (next r') as [w r'']. cbn [fst] in *.
  rewrite length_app, length_take, u64_bytes_length. lia.
Qed.

Lemma golden_fill_chunks_spec fuel bufLen done0 g :
  Z.of_nat fuel = (bufLen - done0) / RANDALGO_GOLDEN_RESEED_SIZE -> done0 <= bufLen ->
  let '(bytes, done, _) := golden_fill_chunks fuel bufLen done0 g in
  done = done0 + Z.of_nat (length bytes) /\ done <= bufLen < done + RANDALGO_GOLDEN_RESEED_SIZE.
Proof.
  unfold RANDALGO_GOLDEN_RESEED_SIZE.
  revert done0 g. induction fuel as [|fuel IH]; intros done0 g Hf Hle.
  - simpl. pose proof (Z.div_mod (bufLen - done0) (256 * 1024)).
    pose proof (Z.mod_pos_bound (bufLen - done0) (256 * 1024)). lia.
  - cbn [golden_fill_chunks]. unfold RANDALGO_GOLDEN_RESEED_SIZE in *.
    pose proof (Z.div_mod (bufLen - done0) (256 * 1024)).
    pose proof (Z.mod_pos_bound (bufLen - done0) (256 * 1024)).
    rewrite (proj2 (Z.leb_le (256 * 1024) (bufLen - done0))) by lia.
    pose proof (fillBuf_length golden_next (256 * 1024) (golden_reseed g)) as Hfill.
    destruct (fillBuf golden_next (256 * 1024) (golden_reseed g)) as [bytes g'].
    specialize (IH (done0 + 256 * 1024) g').
    destruct (golden_fill_chunks fuel bufLen (done0 + 256 * 1024) g') as [[rest done] g''].
    simpl in Hfill. rewrite length_app. destruct IH as [-> ?]; [|lia..].
    replace (bufLen - (done0 + 256 * 1024)) with (bufLen - done0 + (-1) * (256 * 1024)) by lia.
    rewrite Z.div_add by lia. lia.
Qed.

Lemma golden_fillBuf_length bufLen g :
  0 <= bufLen -> Z.of_nat (length (fst (golden_fillBuf bufLen g))) = bufLen.
Proof.
  intros Hlen. unfold golden_fillBuf.
  pose proof (golden_fill_chunks_spec (Z.to_nat (bufLen / RANDALGO_GOLDEN_RESEED_SIZE)) bufLen 0 g) as Hc.
  destruct (golden_fill_chunks _ _ _ _) as [[bytes done] g'].
  destruct Hc as [-> Hb]; [|lia|].
  { rewrite Z.sub_0_r. pose proof (Z.div_pos bufLen RANDALGO_GOLDEN_RESEED_SIZE).
    unfold RANDALGO_GOLDEN_RESEED_SIZE in *. lia. }
  pose proof (fillBuf_length golden_next (bufLen - (0 + Z.of_nat (length bytes))) (golden_reseed g')) as Hf.
  destruct (fillBuf _ _ _) as [rest g'']. simpl in *. rewrite length_app. lia.
Qed.

(** Entry [i] of a row after a loop over its first [n] entries. *)
Lemma row_update_lookup f n dst src i :
  (n <= length dst)%nat -> (n <= length src)%nat ->
  row_update f n dst src !! i
  = if decide (i < n)%nat then d ← dst !! i; s ← src !! i; Some (f d s) else dst !! i.
Proof.
  revert dst src i. induction n as [|n IH]; intros dst src i Hd Hs.
  { by rewrite decide_False by lia. }
  destruct dst as [|d dst]; [simpl in *; lia|]. destruct src as [|s src]; [simpl in *; lia|].
  destruct i as [|i]; [by rewrite decide_True by lia|]. simpl in *. rewrite IH by lia.
  by repeat case_decide; try lia.
Qed.

Lemma row_update_length f n dst src : length (row_update f n dst src) = length dst.
Proof.
  revert dst src. induction n as [|n IH]; intros [|d dst] [|s src]; simpl; auto.
Qed.

Definition simd_wf (nway : nat) (s : simd_state) : Prop :=
  length (row0 s) = nway /\ length (row1 s) = nway
  /\ length (row2 s) = nway /\ length (row3 s) = nway.

Lemma simd_lane_Some nway s i :
  simd_wf nway s -> (i < nway)%nat ->
  exists x, simd_lane i s = Some x /\ row0 s !! i = Some (xs0 x) /\ row1 s !! i = Some (xs1 x)
    /\ row2 s !! i = Some (xs2 x) /\ row3 s !! i = Some (xs3 x).
Proof.
  intros (H0 & H1 & H2 & H3) Hi. unfold simd_lane.
  destruct (lookup_lt_is_Some_2 (row0 s) i) as [a Ha]; [lia|].
  destruct (lookup_lt_is_Some_2 (row1 s) i) as [b Hb]; [lia|].
  destruct (lookup_lt_is_Some_2 (row2 s) i) as [c Hc]; [lia|].
  destruct (lookup_lt_is_Some_2 (row3 s) i) as [d Hd]; [lia|].
  exists (mkXoshiro a b c d). by rewrite Ha, Hb, Hc, Hd.
Qed.

Lemma simd_nextNway_wf nway n s :
  simd_wf nway s -> simd_wf nway (snd (simd_nextNway n s)).
Proof. intros (? & ? & ? & ?). unfold simd_wf; simpl; unfold row_xor.
  by rewrite !row_update_length. Qed.

Lemma simd_lane_step nway n s i x :
  simd_wf nway s -> (n <= nway)%nat -> (i < n)%nat -> simd_lane i s = Some x ->
  fst (simd_nextNway n s) !! i = Some (fst (xoshiro256pp_next x))
  /\ simd_lane i (snd (simd_nextNway n s)) = Some (snd (xoshiro256pp_next x)).
Proof.
  intros Hwf Hn Hi Hl. destruct (simd_lane_Some nway s i) as (x' & Hl' & Ha & Hb & Hc & Hd); [done|lia|].
  simplify_eq. destruct Hwf as (L0 & L1 & L2 & L3). split.
  - simpl. rewrite !lookup_zip_with, !lookup_take_lt, Ha, Hd by lia. done.
  - unfold simd_lane. simpl. unfold row_xor.
    rewrite !row_update_lookup by (rewrite ?row_update_length, ?length_fmap, ?length_take; lia).
    rewrite !decide_True by lia. rewrite list_lookup_fmap, lookup_take_lt, Ha, Hb, Hc, Hd by lia. done.
Qed.

Lemma simd_lane_untouched nway n s i :
  simd_wf nway s -> (n <= nway)%nat -> (n <= i)%nat ->
  simd_lane i (snd (simd_nextNway n s)) = simd_lane i s.
Proof.
  intros (L0 & L1 & L2 & L3) Hn Hi. unfold simd_lane. simpl. unfold row_xor.
  rewrite !row_update_lookup by (rewrite ?row_update_length, ?length_fmap, ?length_take; lia).
  by rewrite !decide_False by lia.
Qed.

(** ** Properties *)

(** The N-way SIMD generator is N independent scalar xoshiro256++ generators: a call for [n]
    lanes outputs in lane [i < n] what the scalar algorithm outputs on the state of that lane and
    advances it by one scalar step, and the lanes from [n] on (which the one-lane calls of
    [next()] do not use) keep their state. *)
Lemma simd_lanes_are_scalar nway n s i :
  simd_wf nway s -> (n <= nway)%nat -> (i < nway)%nat ->
  exists x, simd_lane i s = Some x
    /\ if decide (i < n)%nat
       then fst (simd_nextNway n s) !! i = Some (fst (xoshiro256pp_next x))
            /\ simd_lane i (snd (simd_nextNway n s)) = Some (snd (xoshiro256pp_next x))
       else simd_lane i (snd (simd_nextNway n s)) = Some x.
Proof.
  intros Hwf Hn Hi. destruct (simd_lane_Some nway s i Hwf Hi) as (x & Hx & _).
  exists x. split; [done|]. case_decide.
  - by apply (simd_lane_step nway).
  - by rewrite (simd_lane_untouched nway) by (done || lia).
Qed.

Lemma simd_lanes_are_scalar_witness :
  let s := mkSimd [1; 2; 3; 4] [5; 6; 7; 8] [9; 10; 11; 12] [13; 14; 15; 16] in
  exists x, simd_lane 2 s = Some x
    /\ if decide (2 < 4)%nat
       then fst (simd_nextNway 4 s) !! 2%nat = Some (fst (xoshiro256pp_next x))
            /\ simd_lane 2 (snd (simd_nextNway 4 s)) = Some (snd (xoshiro256pp_next x))
       else simd_lane 2 (snd (simd_nextNway 4 s)) = Some x.
Proof. apply (simd_lanes_are_scalar 4); [by repeat split|lia..]. Defined.

(** [RandAlgoRange::next()] over any generator returns a value of [min..max], for all 64-bit
    bounds [min <= max] except the full 64-bit range, for which the stored length wraps to 0 and
    the draw divides by zero. *)
Lemma RandAlgoRange_next_in_range {R} `{!RandAlgo R} min max (r : R) :
  0 <= min <= max -> max < TWO64 -> rand_ok r ->
  exists g, RandAlgoRange_new min max = Ok g
    /\ (max - min + 1 = TWO64 -> RandAlgoRange_next g r = None)
    /\ (max - min + 1 < TWO64 -> exists v r', RandAlgoRange_next g r = Some (v, r')
          /\ min <= v <= max /\ rand_ok r').
Proof.
  intros Hmin Hmax Hr. unfold RandAlgoRange_new. rewrite (proj2 (Z.ltb_ge max min)) by lia.
  eexists. split; [done|]. unfold RandAlgoRange_next; simpl.
  pose proof (rand_next_ok r Hr) as Hr'. destruct (rand_next r) as [v r']. simpl in Hr'.
  rewrite (u64_small (max - min)) by lia. split; intros Hd.
  - by rewrite Hd.
  - rewrite (u64_small (max - min + 1)), (proj2 (Z.eqb_neq (max - min + 1) 0)) by lia.
    pose proof (Z.mod_pos_bound v (max - min + 1)).
    eexists _, _. split; [done|]. rewrite u64_small by lia. split; [lia|done].
Qed.

Lemma RandAlgoRange_next_in_range_witness :
  exists g, RandAlgoRange_new 10 20 = Ok g
    /\ (20 - 10 + 1 = TWO64 -> RandAlgoRange_next g (mkXoshiro 1 2 3 4) = None)
    /\ (20 - 10 + 1 < TWO64 ->
          exists v r', RandAlgoRange_next g (mkXoshiro 1 2 3 4) = Some (v, r')
          /\ 10 <= v <= 20 /\ rand_ok r').
Proof.
  apply RandAlgoRange_next_in_range; [lia|lia|].
  change (xoshiro_state_ok (mkXoshiro 1 2 3 4)). unfold xoshiro_state_ok. simpl. lia.
Defined.
