(* ===== verification/BlockSizeMix.v ===== *)
(** Weighted mix of block sizes: toolkits/BlockSizeMix.{h,cpp}. *)

From S2P Require Import Prelude CppStrings UnitTk RandAlgo.

(** ** Definitions *)

Record BlockSizeMix : Type := mkMix {
  sizesAndWeights : list (Z * Z);
  cumulativeWeights : list Z;
  totalWeight : Z;
  maxSize : Z;
  minSize : Z;
}.

(** One entry "size[:weight]" of the list; [seen] is [seenSizes]. *)
Definition mix_parse_entry (seen : list Z) (entryStr : string) : result (Z * Z) :=
  let entry (sizeStr : string) (weight : result Z) :=
    size ← numHumanToBytesBinary sizeStr true;
    weight ← weight;
    if size =? 0 then Throw (ProgException "Block size must not be 0.")
    else if weight =? 0 then Throw (ProgException "Weight must not be 0.")
    else if bool_decide (size ∈ seen)
    then Throw (ProgException "Invalid block size mix: duplicate block size")
    else Ok (size, weight) in
  match boost_split ":" entryStr with
  | [sizeStr] => entry sizeStr (Ok 1)
  | [sizeStr; weightStr] =>
      entry sizeStr (match stoull weightStr with
        | Some w => Ok w
        | None => Throw (ProgException "Weight must be a positive integer.")
        end)
  | _ => Throw (ProgException "Invalid block size mix entry: Expected format: size[:weight]")
  end.

(** The loop over the entries; empty tokens are skipped. *)
Fixpoint mix_parse_entries (entries : list string) (seen : list Z) : result (list (Z * Z)) :=
  match entries with
  | [] => Ok []
  | e :: entries =>
      if String.eqb e "" then mix_parse_entries entries seen
      else
        sw ← mix_parse_entry seen e;
        rest ← mix_parse_entries entries (fst sw :: seen);
        Ok (sw :: rest)
  end.

(** [totalWeight += w; cumulativeWeights.push_back(totalWeight)] in [uint64_t]. *)
Fixpoint mix_cumulate (weights : list Z) (total : Z) : list Z * Z :=
  match weights with
  | [] => ([], total)
  | w :: weights =>
      let total := total +₆₄ w in
      let '(cs, final) := mix_cumulate weights total in
      (total :: cs, final)
  end.

(** The derived members, computed after the entries are parsed. *)
Definition mix_finish (sw : list (Z * Z)) : BlockSizeMix :=
  let '(cumulative, total) := mix_cumulate (snd <$> sw) 0 in
  let front := match sw with [] => 0 | (s, _) :: _ => s end in
  {| sizesAndWeights := sw; cumulativeWeights := cumulative; totalWeight := total;
     maxSize := foldl Z.max front (fst <$> sw); minSize := foldl Z.min front (fst <$> sw) |}.

Definition BlockSizeMix_parse (blockSizeStr : string) : result BlockSizeMix :=
  sw ← mix_parse_entries (boost_split "," blockSizeStr) [];
  match sw with
  | [] => Throw (ProgException "Block size mix is empty after parsing")
  | _ => Ok (mix_finish sw)
  end.

Definition mix_entry_str (sw : Z * Z) : string :=
  to_string (fst sw) +:+ ":" +:+ to_string (snd sw).

Fixpoint mix_entries_str (sw : list (Z * Z)) : string :=
  match sw with
  | [] => ""
  | [e] => mix_entry_str e
  | e :: sw => mix_entry_str e +:+ "," +:+ mix_entries_str sw
  end.

Definition BlockSizeMix_toString (mix : BlockSizeMix) : string :=
  mix_entries_str (sizesAndWeights mix).

Definition isMix (mix : BlockSizeMix) : bool := (1 <? length (sizesAndWeights mix))%nat.

(** The search loop of [getNextSize()] for a drawn weight. *)
Fixpoint mix_pick (drawnWeight : Z) (cumulative : list Z) (sw : list (Z * Z)) (last : Z) : Z :=
  match cumulative, sw with
  | c :: cumulative, (size, _) :: sw =>
      if drawnWeight <? c then size else mix_pick drawnWeight cumulative sw last
  | _, _ => last
  end.

Definition mix_last (mix : BlockSizeMix) : Z :=
  match list.last (sizesAndWeights mix) with Some (s, _) => s | None => 0 end.

(** [getNextSize()]; a zero [totalWeight] is a division by zero ([None]). *)
Definition getNextSize {R} `{!RandAlgo R} (mix : BlockSizeMix) (r : R) : option (Z * R) :=
  if negb (isMix mix) then Some (maxSize mix, r)
  else
    let '(v, r) := rand_next r in
    if totalWeight mix =? 0 then None
    else Some (mix_pick (v `mod` totalWeight mix) (cumulativeWeights mix) (sizesAndWeights mix)
                 (mix_last mix), r).

(** What [parse()] guarantees of the entries. *)
Definition mix_entries_ok (sw : list (Z * Z)) : Prop :=
  sw <> [] /\ Forall (fun '(s, w) => 0 < s < TWO64 /\ 0 < w < TWO64) sw /\ NoDup (fst <$> sw).

(** ** Lemmas *)

Lemma stoull_range s w : stoull s = Some w -> 0 <= w < TWO64.
Proof.
  unfold stoull. destruct (scan_sign s) as [neg s'].
  pose proof (scan_digits_nonneg s' 0 false) as Hn.
  destruct (scan_digits s' 0 false) as [v seen]. simpl in *.
  destruct seen; [|done]. simpl. destruct (TWO64 <=? v) eqn:Hv; [done|]. intros [= <-].
  destruct neg; [apply u64_range|lia].
Qed.

Lemma numHuman_range s b v : numHumanToBytesBinary s b = Ok v -> 0 <= v < TWO64.
Proof.
  unfold numHumanToBytesBinary. intros H.
  repeat case_match; simplify_eq; (apply u64_range || lia).
Qed.

Lemma mix_parse_entry_ok seen e s w :
  mix_parse_entry seen e = Ok (s, w) -> 0 < s < TWO64 /\ 0 < w < TWO64 /\ s ∉ seen.
Proof.
  unfold mix_parse_entry. intros H.
  assert (Hcore : forall sizeStr (weight : result Z),
    (forall w', weight = Ok w' -> 0 <= w' < TWO64) ->
    (size ← numHumanToBytesBinary sizeStr true;
     weight ← weight;
     if size =? 0 then Throw (ProgException "Block size must not be 0.")
     else if weight =? 0 then Throw (ProgException "Weight must not be 0.")
     else if bool_decide (size ∈ seen)
     then Throw (ProgException "Invalid block size mix: duplicate block size")
     else Ok (size, weight)) = Ok (s, w) -> 0 < s < TWO64 /\ 0 < w < TWO64 /\ s ∉ seen).
  { intros sizeStr weight Hw Heq.
    destruct (numHumanToBytesBinary sizeStr true) as [size|] eqn:Hsize; [|done].
    destruct weight as [w'|]; [|done]. simpl in Heq. apply numHuman_range in Hsize.
    specialize (Hw w' eq_refl). destruct (Z.eqb_spec size 0); [done|].
    destruct (Z.eqb_spec w' 0); [done|]. case_bool_decide; [done|]. simplify_eq. split_and!; auto; lia. }
  destruct (boost_split ":" e) as [|a [|b [|? ?]]]; [done|..|done].
  - eapply Hcore; [|exact H]. intros w' [= <-]. lia.
  - eapply Hcore; [|exact H]. intros w'. destruct (stoull b) eqn:Hb; [|done].
    intros [= <-]. by eapply stoull_range.
Qed.

Lemma mix_parse_entries_ok entries seen sw :
  mix_parse_entries entries seen = Ok sw ->
  Forall (fun '(s, w) => 0 < s < TWO64 /\ 0 < w < TWO64) sw /\ NoDup (fst <$> sw)
  /\ Forall (fun s => s ∉ seen) (fst <$> sw).
Proof.
  revert seen sw. induction entries as [|e entries IH]; intros seen sw H.
  { simpl in H. simplify_eq. split_and!; constructor. }
  simpl in H. destruct (String.eqb e ""); [by apply IH|].
  destruct (mix_parse_entry seen e) as [[s w]|] eqn:He; [|done]. simpl in H.
  destruct (mix_parse_entries entries (s :: seen)) as [rest|] eqn:Hrest; [|done]. simpl in H.
  simplify_eq. apply IH in Hrest as (Hall & Hnd & Hns).
  apply mix_parse_entry_ok in He as (Hs & Hw & Hseen). split_and!.
  - constructor; auto.
  - constructor; [|done]. intros Hin. rewrite Forall_forall in Hns. apply Hns in Hin. by apply Hin, list_elem_of_here.
  - constructor; [done|]. eapply Forall_impl; [exact Hns|]. intros x Hx Hin. by apply Hx, list_elem_of_further.
Qed.

Lemma mix_parse_ok str mix :
  BlockSizeMix_parse str = Ok mix -> mix_entries_ok (sizesAndWeights mix)
  /\ mix = mix_finish (sizesAndWeights mix).
Proof.
  unfold BlockSizeMix_parse. intros H.
  destruct (mix_parse_entries _ _) as [sw|] eqn:Hp; [|done]. simpl in H.
  apply mix_parse_entries_ok in Hp as (Hall & Hnd & _).
  assert (sizesAndWeights (mix_finish sw) = sw) as Hsw
    by (unfold mix_finish; by destruct (mix_cumulate _ _)).
  destruct sw as [|e sw]; simplify_eq. rewrite Hsw. done.
Qed.

Lemma mix_cumulate_total ws acc :
  0 <= acc < TWO64 -> snd (mix_cumulate ws acc) = acc +₆₄ Zsum ws.
Proof.
  revert acc. induction ws as [|w ws IH]; intros acc Ha; [simpl; rewrite u64_small; lia|].
  rewrite Zsum_cons. simpl. specialize (IH (acc +₆₄ w) (u64_range _)).
  destruct (mix_cumulate ws _). simpl in *. rewrite IH. autorewrite with machine. f_equal. lia.
Qed.

Lemma mix_finish_fields sw :
  sizesAndWeights (mix_finish sw) = sw
  /\ cumulativeWeights (mix_finish sw) = fst (mix_cumulate (snd <$> sw) 0)
  /\ totalWeight (mix_finish sw) = u64 (Zsum (snd <$> sw)).
Proof.
  unfold mix_finish. pose proof (mix_cumulate_total (snd <$> sw) 0 ltac:(lia)) as Ht.
  by destruct (mix_cumulate _ _).
Qed.

Lemma mix_entries_weights sw :
  mix_entries_ok sw -> Forall (fun w => 0 < w) (snd <$> sw) /\ 0 < Zsum (snd <$> sw).
Proof.
  intros (Hne & Hall & _). assert (Forall (fun w => 0 < w) (snd <$> sw)) as Hpos.
  { apply Forall_fmap. eapply Forall_impl; [exact Hall|]. intros [? ?]. simpl. lia. }
  split; [done|]. destruct sw as [|[s w] sw]; [done|]. rewrite fmap_cons in *.
  apply Forall_cons in Hpos as [Hw Hpos]. rewrite Zsum_cons. simpl in *.
  assert (0 <= Zsum (snd <$> sw)) by (apply Zsum_nonneg; eapply Forall_impl; [done|simpl; lia]). lia.
Qed.

(** The search returns the entry whose weight interval holds the drawn weight. *)
Lemma mix_pick_spec sw acc d l :
  0 <= acc -> Forall (fun w => 0 < w) (snd <$> sw) -> acc + Zsum (snd <$> sw) < TWO64 ->
  acc <= d < acc + Zsum (snd <$> sw) ->
  exists i s w, sw !! i = Some (s, w)
    /\ mix_pick d (fst (mix_cumulate (snd <$> sw) acc)) sw l = s
    /\ acc + Zsum (take i (snd <$> sw)) <= d < acc + Zsum (take i (snd <$> sw)) + w.
Proof.
  revert acc. induction sw as [|[s w] sw IH]; intros acc Ha Hws Hs Hd; [simpl in *; lia|].
  rewrite fmap_cons in *. apply Forall_cons in Hws as [Hw Hws]. rewrite Zsum_cons in *. simpl in Hw, Hs, Hd.
  assert (0 <= Zsum (snd <$> sw)) by (apply Zsum_nonneg; eapply Forall_impl; [done|simpl; lia]).
  cbn [mix_cumulate snd]. rewrite u64_small by lia. specialize (IH (acc + w)).
  destruct (mix_cumulate (snd <$> sw) (acc + w)) as [cs final]. cbn [fst mix_pick] in *.
  destruct (Z.ltb_spec d (acc + w)).
  - exists 0%nat, s, w. cbn. split_and!; (done || lia).
  - destruct IH as (i & s' & w' & Hi & Hp & Hb); [lia|done|lia..|].
    exists (S i), s', w'. rewrite firstn_cons, Zsum_cons. split_and!; (done || lia).
Qed.

Lemma foldl_max_spec l a : a <= foldl Z.max a l /\ Forall (fun x => x <= foldl Z.max a l) l.
Proof.
  revert a. induction l as [|x l IH]; intros a; simpl; [split; [lia|constructor]|].
  destruct (IH (Z.max a x)) as [H1 H2]. split; [lia|]. constructor; [lia|done].
Qed.

Lemma foldl_min_spec l a : foldl Z.min a l <= a /\ Forall (fun x => foldl Z.min a l <= x) l.
Proof.
  revert a. induction l as [|x l IH]; intros a; simpl; [split; [lia|constructor]|].
  destruct (IH (Z.min a x)) as [H1 H2]. split; [lia|]. constructor; [lia|done].
Qed.

Lemma mix_finish_bounds sw i s w :
  sw !! i = Some (s, w) -> minSize (mix_finish sw) <= s <= maxSize (mix_finish sw).
Proof.
  intros Hi. assert (s ∈ (fst <$> sw)) as Hin.
  { apply list_elem_of_fmap. exists (s, w). split; [done|by eapply list_elem_of_lookup_2]. }
  unfold mix_finish. destruct (mix_cumulate _ _). simpl.
  set (f := match sw with [] => 0 | (s, _) :: _ => s end).
  destruct (foldl_max_spec (fst <$> sw) f) as [_ Hmax], (foldl_min_spec (fst <$> sw) f) as [_ Hmin].
  rewrite Forall_forall in Hmax, Hmin. auto.
Qed.

Lemma mix_entry_str_parse seen s w :
  0 < s < 2 ^ 63 -> 0 < w < TWO64 -> s ∉ seen -> mix_parse_entry seen (mix_entry_str (s, w)) = Ok (s, w).
Proof.
  intros Hs Hw Hseen. unfold mix_parse_entry, mix_entry_str, boost_split. simpl.
  assert (str_free ":" (to_string s)) by (apply to_string_free; (done || lia)).
  assert (str_free ":" (to_string w)) by (apply to_string_free; (done || lia)).
  rewrite split_compress_free by done.
  destruct (digits_onto_head 19 w "") as (d & r & Hd & Hr); [lia|]. fold (to_string w) in Hd.
  rewrite Hd at 1. rewrite split_compress_in_sep by (rewrite Ascii.eqb_sym; by apply digit_char_not).
  rewrite <- Hd, split_compress_last by done. simpl.
  rewrite numHuman_plain by lia. simpl. rewrite stoull_to_string by lia. simpl.
  rewrite !(proj2 (Z.eqb_neq _ _)) by lia. by rewrite bool_decide_false.
Qed.

Lemma mix_entry_str_free s w : 0 <= s -> 0 <= w -> str_free "," (mix_entry_str (s, w)).
Proof.
  intros Hs Hw. unfold str_free, mix_entry_str. rewrite !str_contains_app. simpl.
  by rewrite !to_string_free by done.
Qed.

Lemma mix_entries_str_parse sw seen :
  sw <> [] -> Forall (fun '(s, w) => 0 < s < 2 ^ 63 /\ 0 < w < TWO64) sw -> NoDup (fst <$> sw) ->
  Forall (fun s => s ∉ seen) (fst <$> sw) ->
  mix_parse_entries (boost_split "," (mix_entries_str sw)) seen = Ok sw.
Proof.
  revert seen. induction sw as [|[s w] sw IH]; intros seen Hne Hall Hnd Hns; [done|].
  apply Forall_cons in Hall as [[Hs Hw] Hall]. rewrite fmap_cons in *.
  apply NoDup_cons in Hnd as [Hnin Hnd]. apply Forall_cons in Hns as [Hsn Hns]. simpl in Hnin, Hsn.
  pose proof (mix_entry_str_free s w ltac:(lia) ltac:(lia)) as Hfree.
  assert (String.eqb (mix_entry_str (s, w)) "" = false) as Hnempty.
  { apply String.eqb_neq. unfold mix_entry_str. simpl.
    destruct (digits_onto_head 19 s "") as (d & r & Hd & _); [lia|]. fold (to_string s) in Hd. by rewrite Hd. }
  destruct sw as [|[s' w'] sw].
  { unfold boost_split. simpl mix_entries_str. rewrite split_compress_last by done.
    cbn [mix_parse_entries]. simpl String.append. rewrite Hnempty, mix_entry_str_parse by done. done. }
  change (mix_entries_str ((s, w) :: (s', w') :: sw))
    with (mix_entry_str (s, w) +:+ String "," (mix_entries_str ((s', w') :: sw))).
  unfold boost_split. rewrite split_compress_free by done.
  assert (exists c r, mix_entries_str ((s', w') :: sw) = String c r /\ Ascii.eqb c "," = false) as (c & r & Hc & Hsep).
  { apply Forall_cons in Hall as [[Hs' _] _].
    destruct (digits_onto_head 19 s' "") as (d & r & Hd & Hr); [lia|]. fold (to_string s') in Hd.
    exists (digit_char d). destruct sw; simpl; unfold mix_entry_str; simpl; rewrite Hd; simpl; eexists;
      (split; [done|rewrite Ascii.eqb_sym; by apply digit_char_not]). }
  rewrite Hc, split_compress_in_sep, <- Hc by done. cbn [mix_parse_entries]. simpl String.append.
  rewrite Hnempty, mix_entry_str_parse by done. cbn [mbind result_bind fst].
  unfold boost_split in IH. rewrite (IH (s :: seen)); try done. apply Forall_forall. intros x Hx Hin.
  apply elem_of_cons in Hin as [->|Hin]; [done|]. rewrite Forall_forall in Hns. by eapply Hns.
Qed.

(** A mix that [parse()] returned and whose weights add up without overflow. *)
Definition mix_ok (mix : BlockSizeMix) : Prop :=
  mix_entries_ok (sizesAndWeights mix) /\ mix = mix_finish (sizesAndWeights mix)
  /\ Zsum (snd <$> sizesAndWeights mix) < TWO64.

Lemma getNextSize_interval {R} `{!RandAlgo R} mix (r : R) :
  mix_ok mix ->
  let sw := sizesAndWeights mix in
  let total := Zsum (snd <$> sw) in
  exists i s w r', getNextSize mix r = Some (s, r')
     /\ sw !! i = Some (s, w) /\ minSize mix <= s <= maxSize mix
     /\ (if isMix mix then r' = snd (rand_next r) else r' = r)
     /\ (isMix mix = true -> totalWeight mix = total
         /\ let d := fst (rand_next r) `mod` total in
            Zsum (take i (snd <$> sw)) <= d < Zsum (take i (snd <$> sw)) + w).
Proof.
  intros (Hok & Hfin & Ht) sw total.
  destruct (mix_entries_weights _ Hok) as [Hpos Hgt]. fold sw in Hok, Hfin, Hpos, Hgt, Ht.
  fold total in Hgt, Ht.
  assert (isMix mix = (1 <? length sw)%nat) as Him by done. clearbody sw. subst mix.
  destruct (mix_finish_fields sw) as (Hsw & Hcs & Htot). pose proof (mix_finish_bounds sw) as Hb.
  unfold getNextSize. rewrite Him, Hsw, Hcs, Htot. fold total.
  destruct (Nat.ltb_spec 1 (length sw)) as [Hl|Hl]; cbn [negb].
  - destruct (rand_next r) as [v r'] eqn:Hrn. cbn [fst snd].
    rewrite u64_small by lia. rewrite (proj2 (Z.eqb_neq _ _)) by lia.
    destruct (mix_pick_spec sw 0 (v `mod` total) (mix_last (mix_finish sw)))
      as (i & s & w & Hi & -> & Hd); [lia|done|done|apply Z.mod_pos_bound; lia|].
    exists i, s, w, r'. refine (conj eq_refl (conj Hi (conj (Hb i s w Hi) (conj eq_refl _)))).
    intros _. split; [done|]. lia.
  - destruct Hok as [Hne _]. destruct sw as [|[s w] [|? ?]]; [done| |simpl in Hl; lia].
    exists 0%nat, s, w, r.
    refine (conj _ (conj eq_refl (conj (Hb 0%nat s w eq_refl) (conj eq_refl _)))); [|done].
    do 2 f_equal. unfold mix_finish. simpl. lia.
Qed.

(** What the clients of the mix need of [getNextSize()]. *)
Lemma getNextSize_ok {R} `{!RandAlgo R} mix (r : R) :
  mix_ok mix -> rand_ok r ->
  exists s r', getNextSize mix r = Some (s, r') /\ minSize mix <= s <= maxSize mix
    /\ 0 < s < TWO64 /\ rand_ok r'.
Proof.
  intros Hok Hr. destruct (getNextSize_interval mix r Hok) as (i & s & w & r' & Hg & Hi & Hb & Hr' & _).
  exists s, r'. refine (conj Hg (conj Hb (conj _ _))).
  - destruct Hok as ((_ & Hall & _) & _). rewrite Forall_lookup in Hall. specialize (Hall _ _ Hi).
    simpl in Hall. tauto.
  - destruct (isMix mix); subst; auto using rand_next_ok.
Qed.

Lemma foldl_preserves (P : Z -> Prop) (f : Z -> Z -> Z) l a :
  (forall x y, P x -> P y -> P (f x y)) -> P a -> Forall P l -> P (foldl f a l).
Proof. intros Hf Ha Hl. revert a Ha. induction Hl; intros a Ha; simpl; auto. Qed.

Lemma mix_sizes_bounds mix : mix_entries_ok (sizesAndWeights mix) -> mix = mix_finish (sizesAndWeights mix) ->
  0 < minSize mix <= maxSize mix /\ maxSize mix < TWO64.
Proof.
  intros (Hne & Hall & Hnd) Hfin.
  assert (Forall (fun s => 0 < s < TWO64) (fst <$> sizesAndWeights mix)) as Hs.
  { apply Forall_fmap. eapply Forall_impl; [exact Hall|]. intros [? ?]; simpl; tauto. }
  destruct (sizesAndWeights mix) as [|[s w] sw]; [done|].
  pose proof (mix_finish_bounds ((s, w) :: sw) 0 s w eq_refl) as Hb. subst mix.
  unfold mix_finish in *. destruct (mix_cumulate _ _). cbn [minSize maxSize] in *.
  assert (0 < s < TWO64) as Hs0 by (by apply Forall_cons in Hs as [? _]).
  pose proof (foldl_preserves (fun x => 0 < x < TWO64) Z.max _ s ltac:(cbv beta; lia) Hs0 Hs).
  pose proof (foldl_preserves (fun x => 0 < x < TWO64) Z.min _ s ltac:(cbv beta; lia) Hs0 Hs). simpl in *. lia.
Qed.

Lemma mix_ok_sizes mix : mix_ok mix -> 0 < minSize mix <= maxSize mix /\ maxSize mix < TWO64.
Proof. intros (Hall & Hfin & _). by apply mix_sizes_bounds. Qed.

(** ** Properties *)

(** [getNextSize()] of a parsed mix whose weights do not overflow draws with exactly the
    configured proportions: with [d] the drawn value modulo the total weight, the returned size
    is that of the entry [i] for which [d] lies in the i-th of the adjacent intervals of the
    weights' lengths; it lies between the minimum and the maximum size, and the "should be
    unreachable" return after the loop is not taken.  When the weights of a parsed mix add up to
    exactly 2^64 the total wraps to zero and the draw divides by zero. *)
Lemma getNextSize_weighted {R} `{!RandAlgo R} str mix (r : R) :
  BlockSizeMix_parse str = Ok mix -> rand_ok r ->
  let sw := sizesAndWeights mix in
  let total := Zsum (snd <$> sw) in
  (total < TWO64 -> exists i s w r', getNextSize mix r = Some (s, r')
     /\ sw !! i = Some (s, w) /\ minSize mix <= s <= maxSize mix
     /\ (if isMix mix then r' = snd (rand_next r) else r' = r)
     /\ (isMix mix = true -> totalWeight mix = total
         /\ let d := fst (rand_next r) `mod` total in
            Zsum (take i (snd <$> sw)) <= d < Zsum (take i (snd <$> sw)) + w))
  /\ (total = TWO64 -> isMix mix = true -> getNextSize mix r = None).
Proof.
  intros Hp Hr sw total. apply mix_parse_ok in Hp as [Hok Hfin]. split.
  - intros Ht. by apply getNextSize_interval.
  - intros Ht Him. unfold getNextSize. rewrite Him. simpl. destruct (rand_next r).
    destruct (mix_finish_fields sw) as (_ & _ & Htot). fold sw in Hfin. rewrite <- Hfin in Htot.
    rewrite Htot. fold total. by rewrite Ht.
Qed.

(** [parse()] accepts the output of [toString()] of every parsed mix with block sizes below
    2^63 and gives the same mix back, which is what passing the mix to a service relies on.  Also
    every mix that [parse()] accepts has non-zero distinct sizes and non-zero weights. *)
Lemma BlockSizeMix_roundtrip str mix :
  BlockSizeMix_parse str = Ok mix ->
  mix_entries_ok (sizesAndWeights mix)
  /\ (maxSize mix < 2 ^ 63 -> BlockSizeMix_parse (BlockSizeMix_toString mix) = Ok mix).
Proof.
  intros Hp. apply mix_parse_ok in Hp as [Hok Hfin]. split; [done|]. intros Hmax.
  destruct Hok as (Hne & Hall & Hnd). unfold BlockSizeMix_parse, BlockSizeMix_toString.
  rewrite mix_entries_str_parse; [|done| |done|by apply Forall_forall; intros ? _ ?%elem_of_nil].
  - simpl. rewrite Hfin at 2. by destruct (sizesAndWeights mix).
  - apply Forall_lookup. intros i [s w] Hi. rewrite Forall_lookup in Hall.
    pose proof (mix_finish_bounds _ _ _ _ Hi) as Hb. rewrite <- Hfin in Hb.
    specialize (Hall _ _ Hi). simpl in Hall. lia.
Qed.
