(* ===== verification/OffsetGen.v ===== *)
(** The offset generators of the read/write phases: toolkits/offsetgen/OffsetGenerator.h and
    class [OffsetGenRandomAlignedFullCoverageV2].

    The abstract class [OffsetGenerator] is a type class of operations; what its clients rely on
    is the class [OffsetGenLaws], which each generator discharges.  All generators of a worker
    share one random algorithm object and the system's [std::random_device], so both are
    threaded through the operations as [Env]. *)

From S2P Require Import Prelude CoveringRandom RandAlgo UnitTk BlockSizeMix.

(** ** The random sources of a worker *)

Record Env (R D : Type) : Type := mkEnv { env_algo : R; env_device : D }.
Arguments mkEnv {_ _} _ _.
Arguments env_algo {_ _} _.
Arguments env_device {_ _} _.

Definition env_ok {R D} `{!RandAlgo R, !RandAlgo D} (e : Env R D) : Prop :=
  rand_ok (env_algo e) /\ rand_ok (env_device e).

Definition env_seed {R D} `{!RandAlgo D} (e : Env R D) : Z * Env R D :=
  let '(v, d) := rand_next (env_device e) in (v, mkEnv (env_algo e) d).

(** ** The interface *)

Class OffsetGenerator (R D G : Type) : Type := {
  og_reset : G -> Env R D -> G * Env R D;
  og_reset_to : Z -> Z -> G -> Env R D -> result (G * Env R D);
  getNextOffset : G -> Env R D -> option (Z * (G * Env R D));
  getBlockSize : G -> Z;
  getNextBlockSizeToSubmit : G -> Env R D -> option (Z * Env R D);
  getNumBytesTotal : G -> Z;
  getNumBytesLeftToSubmit : G -> Z;
  addBytesSubmitted : Z -> G -> G;
}.

(** The protocol of the clients: while bytes are left, ask for the offset, then for the size,
    and account the size.  The result is the sequence of the (offset, size) accesses. *)
Fixpoint og_drain {R D G} `{!OffsetGenerator R D G} (fuel : nat) (g : G) (e : Env R D)
    : option (list (Z * Z) * (G * Env R D)) :=
  match fuel with
  | O => if getNumBytesLeftToSubmit g =? 0 then Some ([], (g, e)) else None
  | S fuel =>
      if getNumBytesLeftToSubmit g =? 0 then Some ([], (g, e))
      else
        '(off, (g, e)) ← getNextOffset g e;
        '(size, e) ← getNextBlockSizeToSubmit g e;
        '(ios, res) ← og_drain fuel (addBytesSubmitted size g) e;
        Some ((off, size) :: ios, res)
  end.

(** ** [OffsetGenSequential] *)

Record OffsetGenSequential : Type := mkSeq {
  seq_numBytesTotal : Z;
  seq_numBytesLeft : Z;
  seq_startOffset : Z;
  seq_currentOffset : Z;
  seq_blockSizeMix : BlockSizeMix;
  seq_maxBlockSize : Z;
}.

Definition OffsetGenSequential_new (len offset : Z) (mix : BlockSizeMix) : OffsetGenSequential :=
  mkSeq len len offset offset mix (maxSize mix).

(** [std::min(numBytesLeft, blockSizeMix.getNextSize(randAlgo))]. *)
Definition mix_next_submit {R D} `{!RandAlgo R} (left : Z) (mix : BlockSizeMix) (e : Env R D)
    : option (Z * Env R D) :=
  '(s, r) ← getNextSize mix (env_algo e);
  Some (Z.min left s, mkEnv r (env_device e)).

#[export] Instance seq_generator {R D} `{!RandAlgo R} : OffsetGenerator R D OffsetGenSequential := {
  og_reset g e :=
    (mkSeq (seq_numBytesTotal g) (seq_numBytesTotal g) (seq_startOffset g) (seq_startOffset g)
       (seq_blockSizeMix g) (seq_maxBlockSize g), e);
  og_reset_to len offset g e :=
    Ok (mkSeq len len offset offset (seq_blockSizeMix g) (seq_maxBlockSize g), e);
  getNextOffset g e := Some (seq_currentOffset g, (g, e));
  getBlockSize g := seq_maxBlockSize g;
  getNextBlockSizeToSubmit g e := mix_next_submit (seq_numBytesLeft g) (seq_blockSizeMix g) e;
  getNumBytesTotal g := seq_numBytesTotal g;
  getNumBytesLeftToSubmit g := seq_numBytesLeft g;
  addBytesSubmitted numBytes g :=
    mkSeq (seq_numBytesTotal g) (seq_numBytesLeft g -₆₄ numBytes) (seq_startOffset g)
      (seq_currentOffset g +₆₄ numBytes) (seq_blockSizeMix g) (seq_maxBlockSize g);
}.

(** ** [OffsetGenReverseSeq] *)

Record OffsetGenReverseSeq : Type := mkRev {
  rev_numBytesTotal : Z;
  rev_numBytesLeft : Z;
  rev_startOffset : Z;
  rev_currentOffset : Z;
  rev_blockSize : Z;
}.

(** [reset()]: the last block of the range comes first, and it may be a partial one. *)
Definition rev_reset (g : OffsetGenReverseSeq) : OffsetGenReverseSeq :=
  let total := rev_numBytesTotal g in
  let start := rev_startOffset g in
  let bs := rev_blockSize g in
  if total =? 0 then mkRev total total start 0 bs
  else
    let lastBlockRemainder := total `mod` bs in
    if truthy lastBlockRemainder
    then mkRev total total start ((start +₆₄ total) -₆₄ lastBlockRemainder) bs
    else mkRev total total start ((start +₆₄ total) -₆₄ bs) bs.

Definition OffsetGenReverseSeq_new (len offset blockSize : Z) : OffsetGenReverseSeq :=
  rev_reset (mkRev len len offset offset blockSize).

#[export] Instance rev_generator {R D} : OffsetGenerator R D OffsetGenReverseSeq := {
  og_reset g e := (rev_reset g, e);
  og_reset_to len offset g e := Ok (rev_reset (mkRev len len offset offset (rev_blockSize g)), e);
  getNextOffset g e := Some (rev_currentOffset g, (g, e));
  getBlockSize g := rev_blockSize g;
  getNextBlockSizeToSubmit g e :=
    Some (Z.min ((rev_startOffset g +₆₄ rev_numBytesTotal g) -₆₄ rev_currentOffset g)
            (rev_blockSize g), e);
  getNumBytesTotal g := rev_numBytesTotal g;
  getNumBytesLeftToSubmit g := rev_numBytesLeft g;
  addBytesSubmitted numBytes g :=
    mkRev (rev_numBytesTotal g) (rev_numBytesLeft g -₆₄ numBytes) (rev_startOffset g)
      (rev_currentOffset g -₆₄ rev_blockSize g) (rev_blockSize g);
}.

(** ** [OffsetGenRandom] *)

Record OffsetGenRandom : Type := mkRnd {
  rnd_range : RandAlgoRange;
  rnd_numBytesTotal : Z;
  rnd_numBytesLeft : Z;
  rnd_blockSizeMix : BlockSizeMix;
  rnd_maxBlockSize : Z;
}.

Definition OffsetGenRandom_new (numBytesTotal len offset : Z) (mix : BlockSizeMix)
    : result OffsetGenRandom :=
  range ← RandAlgoRange_new offset ((offset +₆₄ len) -₆₄ Z.min (maxSize mix) len);
  Ok (mkRnd range numBytesTotal numBytesTotal mix (maxSize mix)).

#[export] Instance rnd_generator {R D} `{!RandAlgo R} : OffsetGenerator R D OffsetGenRandom := {
  og_reset g e :=
    (mkRnd (rnd_range g) (rnd_numBytesTotal g) (rnd_numBytesTotal g) (rnd_blockSizeMix g)
       (rnd_maxBlockSize g), e);
  og_reset_to len offset g e :=
    let minLenAndBlockSize := Z.min (rnd_maxBlockSize g) len in
    let '(range, res) := RandAlgoRange_reset offset ((offset +₆₄ len) -₆₄ minLenAndBlockSize)
                           (rnd_range g) in
    _ ← res;
    Ok (mkRnd range len len (rnd_blockSizeMix g) (rnd_maxBlockSize g), e);
  getNextOffset g e :=
    '(v, r) ← RandAlgoRange_next (rnd_range g) (env_algo e);
    Some (v, (g, mkEnv r (env_device e)));
  getBlockSize g := rnd_maxBlockSize g;
  getNextBlockSizeToSubmit g e := mix_next_submit (rnd_numBytesLeft g) (rnd_blockSizeMix g) e;
  getNumBytesTotal g := rnd_numBytesTotal g;
  getNumBytesLeftToSubmit g := rnd_numBytesLeft g;
  addBytesSubmitted numBytes g :=
    mkRnd (rnd_range g) (rnd_numBytesTotal g) (rnd_numBytesLeft g -₆₄ numBytes)
      (rnd_blockSizeMix g) (rnd_maxBlockSize g);
}.

(** ** [OffsetGenRandomAligned] *)

Record OffsetGenRandomAligned : Type := mkAli {
  ali_range : RandAlgoRange;
  ali_numBytesTotal : Z;
  ali_numBytesLeft : Z;
  ali_offset : Z;
  ali_blockSizeMix : BlockSizeMix;
  ali_maxBlockSize : Z;
  ali_alignGrid : Z;
}.

(** The largest index on the alignment grid at which the largest block still fits. *)
Definition ali_max_index (minSz maxSz len : Z) : Z :=
  if Z.min minSz len =? 0 then 0 else (len -₆₄ Z.min maxSz len) / Z.min minSz len.

Definition OffsetGenRandomAligned_new (numBytesTotal len offset : Z) (mix : BlockSizeMix)
    : result OffsetGenRandomAligned :=
  range ← RandAlgoRange_new 0 (ali_max_index (minSize mix) (maxSize mix) len);
  Ok (mkAli range numBytesTotal numBytesTotal offset mix (maxSize mix) (minSize mix)).

#[export] Instance ali_generator {R D} `{!RandAlgo R} : OffsetGenerator R D OffsetGenRandomAligned := {
  og_reset g e :=
    (mkAli (ali_range g) (ali_numBytesTotal g) (ali_numBytesTotal g) (ali_offset g)
       (ali_blockSizeMix g) (ali_maxBlockSize g) (ali_alignGrid g), e);
  og_reset_to len offset g e :=
    let '(range, res) :=
      RandAlgoRange_reset 0 (ali_max_index (ali_alignGrid g) (ali_maxBlockSize g) len) (ali_range g) in
    _ ← res;
    Ok (mkAli range len len offset (ali_blockSizeMix g) (ali_maxBlockSize g) (ali_alignGrid g), e);
  getNextOffset g e :=
    '(v, r) ← RandAlgoRange_next (ali_range g) (env_algo e);
    Some (ali_offset g +₆₄ (v *₆₄ ali_alignGrid g), (g, mkEnv r (env_device e)));
  getBlockSize g := ali_maxBlockSize g;
  getNextBlockSizeToSubmit g e := mix_next_submit (ali_numBytesLeft g) (ali_blockSizeMix g) e;
  getNumBytesTotal g := ali_numBytesTotal g;
  getNumBytesLeftToSubmit g := ali_numBytesLeft g;
  addBytesSubmitted numBytes g :=
    mkAli (ali_range g) (ali_numBytesTotal g) (ali_numBytesLeft g -₆₄ numBytes) (ali_offset g)
      (ali_blockSizeMix g) (ali_maxBlockSize g) (ali_alignGrid g);
}.

(** ** [OffsetGenStrided] *)

Record OffsetGenStrided : Type := mkStr {
  str_numBytesTotal : Z;
  str_numBytesLeft : Z;
  str_startOffset : Z;
  str_currentOffset : Z;
  str_blockSize : Z;
  str_numDataSetThreads : Z;
}.

Definition OffsetGenStrided_new (len offset blockSize numDataSetThreads : Z) : OffsetGenStrided :=
  mkStr len len offset offset blockSize numDataSetThreads.

#[export] Instance str_generator {R D} : OffsetGenerator R D OffsetGenStrided := {
  og_reset g e :=
    (mkStr (str_numBytesTotal g) (str_numBytesTotal g) (str_startOffset g) (str_startOffset g)
       (str_blockSize g) (str_numDataSetThreads g), e);
  og_reset_to len offset g e :=
    Ok (mkStr len len offset offset (str_blockSize g) (str_numDataSetThreads g), e);
  getNextOffset g e := Some (str_currentOffset g, (g, e));
  getBlockSize g := str_blockSize g;
  getNextBlockSizeToSubmit g e := Some (Z.min (str_numBytesLeft g) (str_blockSize g), e);
  getNumBytesTotal g := str_numBytesTotal g;
  getNumBytesLeftToSubmit g := str_numBytesLeft g;
  addBytesSubmitted numBytes g :=
    mkStr (str_numBytesTotal g) (str_numBytesLeft g -₆₄ numBytes) (str_startOffset g)
      (str_currentOffset g +₆₄ (str_blockSize g *₆₄ str_numDataSetThreads g))
      (str_blockSize g) (str_numDataSetThreads g);
}.

(** ** [OffsetGenRandomAlignedFullCoverageV2] *)

Record OffsetGenFullCov : Type := mkCov {
  cov_numBytesTotal : Z;
  cov_numBytesLeft : Z;
  cov_rangeLen : Z;
  cov_blockSize : Z;
  cov_randomGen : CoveringRandomGenerator;
}.

Definition calcStartBlockIdx (offset blockSize : Z) : Z :=
  if truthy blockSize then offset / blockSize else 0.

Definition calcEndBlockIdx (offset rangeLen blockSize : Z) : Z :=
  calcStartBlockIdx offset blockSize
  +₆₄ (if truthy blockSize && truthy (rangeLen / blockSize)
       then (rangeLen / blockSize) -₆₄ 1 else 0).

Definition OffsetGenFullCov_new (numBytesTotal len offset blockSize seed : Z)
    : result OffsetGenFullCov :=
  gen ← covering_new (calcStartBlockIdx offset blockSize) (calcEndBlockIdx offset len blockSize) seed;
  Ok (mkCov numBytesTotal numBytesTotal len blockSize gen).

#[export] Instance cov_generator {R D} `{!RandAlgo D} : OffsetGenerator R D OffsetGenFullCov := {
  og_reset g e :=
    let '(seed, e) := env_seed e in
    (mkCov (cov_numBytesTotal g) (cov_numBytesTotal g) (cov_rangeLen g) (cov_blockSize g)
       (covering_reset seed (cov_randomGen g)), e);
  og_reset_to len offset g e :=
    let '(seed, e) := env_seed e in
    gen ← covering_new (calcStartBlockIdx offset (cov_blockSize g))
            (calcEndBlockIdx offset len (cov_blockSize g)) seed;
    Ok (mkCov len len len (cov_blockSize g) gen, e);
  getNextOffset g e :=
    let '(seed, e) := if covering_has_next (cov_randomGen g) then (0, e) else env_seed e in
    '(v, gen) ← covering_next seed (cov_randomGen g);
    Some (v *₆₄ cov_blockSize g,
      (mkCov (cov_numBytesTotal g) (cov_numBytesLeft g) (cov_rangeLen g) (cov_blockSize g) gen, e));
  getBlockSize g := cov_blockSize g;
  getNextBlockSizeToSubmit g e := Some (Z.min (cov_numBytesLeft g) (cov_blockSize g), e);
  getNumBytesTotal g := cov_numBytesTotal g;
  getNumBytesLeftToSubmit g := cov_numBytesLeft g;
  addBytesSubmitted numBytes g :=
    mkCov (cov_numBytesTotal g) (cov_numBytesLeft g -₆₄ numBytes) (cov_rangeLen g)
      (cov_blockSize g) (cov_randomGen g);
}.

(** ** What the clients rely on *)

(** Every generator keeps an invariant under which it serves accesses of at least one and at
    most [getBlockSize()] bytes within [[og_lo, og_hi)] until its bytes are used up, and a
    [reset()] starts over with the same amount and range. *)
Class OffsetGenLaws (R D G : Type) `{!RandAlgo R, !RandAlgo D, !OffsetGenerator R D G} : Type := {
  og_inv : G -> Prop;
  og_lo : G -> Z;
  og_hi : G -> Z;
  og_left_range g : og_inv g -> 0 <= getNumBytesLeftToSubmit g;
  og_step g e :
    og_inv g -> env_ok e -> getNumBytesLeftToSubmit g <> 0 ->
    exists off g1 e1 n e2,
      getNextOffset g e = Some (off, (g1, e1))
      /\ getNextBlockSizeToSubmit g1 e1 = Some (n, e2) /\ env_ok e2
      /\ 0 < n <= getBlockSize g /\ og_lo g <= off /\ off + n <= og_hi g
      /\ let g' := addBytesSubmitted n g1 in
         og_inv g' /\ getNumBytesLeftToSubmit g' = getNumBytesLeftToSubmit g - n
         /\ 0 <= getNumBytesLeftToSubmit g'
         /\ getNumBytesTotal g' = getNumBytesTotal g /\ getBlockSize g' = getBlockSize g
         /\ og_lo g' = og_lo g /\ og_hi g' = og_hi g;
  og_reset_law g e :
    og_inv g -> env_ok e ->
    let '(g', e') := og_reset g e in
    og_inv g' /\ env_ok e' /\ getNumBytesLeftToSubmit g' = getNumBytesTotal g
    /\ getNumBytesTotal g' = getNumBytesTotal g /\ getBlockSize g' = getBlockSize g
    /\ og_lo g' = og_lo g /\ og_hi g' = og_hi g;
}.

(** The generators that can be pointed at the byte range of a file slice: [reset(len, offset)]
    confines all further accesses to the slice. *)
Class OffsetGenSliceLaws (R D G : Type) `{!RandAlgo R, !RandAlgo D, !OffsetGenerator R D G,
    !OffsetGenLaws R D G} : Type := {
  og_slice_pre : G -> Z -> Z -> Prop;
  og_reset_to_law g e len offset :
    og_inv g -> env_ok e -> 0 <= len -> 0 <= offset -> offset + len < 2 ^ 63 ->
    og_slice_pre g len offset ->
    exists g' e', og_reset_to len offset g e = Ok (g', e') /\ og_inv g' /\ env_ok e'
      /\ getNumBytesLeftToSubmit g' = len /\ getNumBytesTotal g' = len
      /\ getBlockSize g' = getBlockSize g /\ offset <= og_lo g' /\ og_hi g' <= offset + len;
}.

Section sources.
Context {R D : Type} `{!RandAlgo R, !RandAlgo D}.

Lemma env_seed_ok (e : Env R D) : env_ok e -> env_ok (snd (env_seed e)) /\ 0 <= fst (env_seed e) < TWO64.
Proof.
  intros [Ha Hd]. unfold env_seed. pose proof (rand_next_ok _ Hd). pose proof (rand_next_u64 _ Hd).
  by destruct (rand_next (env_device e)).
Qed.

Lemma mix_next_submit_ok left mix (e : Env R D) :
  mix_ok mix -> env_ok e -> 0 < left ->
  exists n e', mix_next_submit left mix e = Some (n, e') /\ env_ok e'
    /\ 0 < n <= maxSize mix /\ n <= left.
Proof.
  intros Hm [Ha Hd] Hl. unfold mix_next_submit.
  destruct (getNextSize_ok mix (env_algo e) Hm Ha) as (s & r' & -> & Hs & Hs' & Hr'). simpl.
  eexists _, _. split; [done|]. split; [done|]. lia.
Qed.

Lemma RandAlgoRange_next_ok g (e : Env R D) :
  env_ok e -> 0 <= range_start g -> 0 < lengthPlusOne g -> range_start g + lengthPlusOne g <= TWO64 ->
  exists v r, RandAlgoRange_next g (env_algo e) = Some (v, r) /\ env_ok (mkEnv r (env_device e))
    /\ range_start g <= v < range_start g + lengthPlusOne g.
Proof.
  intros [Ha Hd] Hs Hl Hb. unfold RandAlgoRange_next. pose proof (rand_next_ok _ Ha).
  destruct (rand_next (env_algo e)) as [v r]. rewrite (proj2 (Z.eqb_neq _ _)) by lia.
  pose proof (Z.mod_pos_bound v (lengthPlusOne g) ltac:(lia)). eexists _, _. split; [done|].
  split; [by split|]. rewrite u64_small; lia.
Qed.

(** *** Sequential *)

Definition seq_inv (g : OffsetGenSequential) : Prop :=
  mix_ok (seq_blockSizeMix g) /\ seq_maxBlockSize g = maxSize (seq_blockSizeMix g)
  /\ 0 <= seq_startOffset g /\ seq_startOffset g + seq_numBytesTotal g < TWO64
  /\ 0 <= seq_numBytesLeft g <= seq_numBytesTotal g
  /\ seq_currentOffset g = seq_startOffset g + (seq_numBytesTotal g - seq_numBytesLeft g).

#[global] Program Instance seq_laws : OffsetGenLaws R D OffsetGenSequential := {
  og_inv := seq_inv;
  og_lo g := seq_startOffset g;
  og_hi g := seq_startOffset g + seq_numBytesTotal g;
}.
Next Obligation. intros g Hg. simpl. destruct Hg as (_ & _ & _ & _ & Hl & _). lia. Qed.
Next Obligation.
  intros g e (Hm & Hmax & Hs & Hb & Hl & Hc) He Hne. simpl in Hne |- *.
  destruct (mix_next_submit_ok (seq_numBytesLeft g) (seq_blockSizeMix g) e Hm He)
    as (n & e' & Hn & He' & Hnb & Hnl); [lia|].
  do 5 eexists. split; [done|]. split; [exact Hn|]. split; [done|].
  refine (conj _ (conj _ (conj _ _))); [lia..|].
  unfold seq_inv. simpl. u64_elim. split_and!; (done || lia).
Qed.
Next Obligation.
  intros g e (Hm & Hmax & Hs & Hb & Hl & Hc) He. simpl. unfold seq_inv. simpl. split_and!; (done || lia).
Qed.

#[global] Program Instance seq_slice_laws : OffsetGenSliceLaws R D OffsetGenSequential := {
  og_slice_pre _ _ _ := True;
}.
Next Obligation.
  intros g e len offset (Hm & Hmax & _) He Hlen Hoff Hsum _. eexists _, _. split; [done|].
  simpl. unfold seq_inv. simpl. split_and!; (done || lia).
Qed.

(** *** Reverse sequential *)

Definition rev_inv (g : OffsetGenReverseSeq) : Prop :=
  0 < rev_blockSize g < TWO64 /\ 0 <= rev_startOffset g /\ 0 <= rev_numBytesTotal g
  /\ rev_startOffset g + rev_numBytesTotal g < TWO64
  /\ exists j, 0 <= j /\ rev_numBytesLeft g = Z.min (rev_numBytesTotal g) (j * rev_blockSize g)
     /\ (j - 1) * rev_blockSize g < rev_numBytesTotal g
     /\ (0 < rev_numBytesLeft g ->
         rev_currentOffset g = rev_startOffset g + (j - 1) * rev_blockSize g).

Lemma rev_reset_inv total left start cur bs :
  0 < bs < TWO64 -> 0 <= start -> 0 <= total -> start + total < TWO64 ->
  rev_inv (rev_reset (mkRev total left start cur bs)).
Proof.
  intros Hbs Hs Ht Hb. unfold rev_reset. simpl. destruct (Z.eqb_spec total 0) as [->|Hne].
  - refine (conj _ (conj _ (conj _ (conj _ _)))); simpl; [lia..|]. exists 0. split_and!; lia.
  - pose proof (Z.div_mod total bs ltac:(lia)). pose proof (Z.mod_pos_bound total bs ltac:(lia)).
    unfold truthy. destruct (Z.eqb_spec (total `mod` bs) 0) as [Hm|Hm]; simpl.
    + refine (conj _ (conj _ (conj _ (conj _ _)))); simpl; [lia..|]. exists (total / bs).
      assert (0 <= total / bs) by (apply Z.div_pos; lia). assert (0 < total / bs) by nia.
      assert (total = total / bs * bs) as Htot by lia. assert (bs <= total) by nia. u64_elim.
      rewrite <- Htot. split_and!; (done || lia).
    + refine (conj _ (conj _ (conj _ (conj _ _)))); simpl; [lia..|]. exists (total / bs + 1).
      assert (0 <= total / bs) by (apply Z.div_pos; lia).
      u64_elim. split_and!; lia.
Qed.

#[global] Program Instance rev_laws : OffsetGenLaws R D OffsetGenReverseSeq := {
  og_inv := rev_inv;
  og_lo g := rev_startOffset g;
  og_hi g := rev_startOffset g + rev_numBytesTotal g;
}.
Next Obligation. intros g (Hbs & Hs & Ht & Hb & j & Hj & Hl & _). simpl. nia. Qed.
Next Obligation.
  intros g e (Hbs & Hs & Ht & Hb & j & Hj & Hl & Hlt & Hc) He Hne. simpl in Hne |- *.
  assert (0 < rev_numBytesLeft g) as Hpos by nia. specialize (Hc Hpos). assert (0 < j) by nia.
  assert (0 <= (j - 1) * rev_blockSize g) by nia.
  do 5 eexists. split; [done|]. split; [done|]. split; [done|]. rewrite Hc.
  rewrite (u64_small (rev_startOffset g + rev_numBytesTotal g)) by lia.
  rewrite (u64_small (_ - (_ + _))) by lia.
  refine (conj _ (conj _ (conj _ _))); [lia..|]. unfold rev_inv. simpl.
  assert (rev_numBytesLeft g
    - Z.min (rev_startOffset g + rev_numBytesTotal g - (rev_startOffset g + (j - 1) * rev_blockSize g))
        (rev_blockSize g) = (j - 1) * rev_blockSize g) as Hl' by lia.
  rewrite Hl', (u64_small ((j - 1) * _)) by lia.
  refine (conj _ (conj _ (conj _ _))); [|done|lia|done].
  refine (conj Hbs (conj Hs (conj Ht (conj Hb _)))). exists (j - 1).
  split_and!; [lia|nia|nia|]. intros Hj'.
  assert (1 <= j - 1) by nia. assert (0 <= (j - 1 - 1) * rev_blockSize g) by nia. rewrite u64_small; lia.
Qed.
Next Obligation.
  intros [total left start cur bs] e (Hbs & Hs & Ht & Hb & _) He. simpl in *.
  pose proof (rev_reset_inv total left start cur bs Hbs Hs Ht Hb). split; [done|]. split; [done|].
  unfold rev_reset. simpl. destruct (total =? 0), (truthy (total `mod` bs)); done.
Qed.

#[global] Program Instance rev_slice_laws : OffsetGenSliceLaws R D OffsetGenReverseSeq := {
  og_slice_pre _ _ _ := True;
}.
Next Obligation.
  intros g e len offset (Hbs & _) He Hlen Hoff Hsum _. eexists _, _. split; [done|].
  split; [apply rev_reset_inv; lia|]. simpl. unfold rev_reset. simpl.
  destruct (len =? 0), (truthy (len `mod` rev_blockSize g)); simpl; split_and!; (done || lia).
Qed.

(** *** Random *)

Definition rnd_inv (g : OffsetGenRandom) : Prop :=
  mix_ok (rnd_blockSizeMix g) /\ rnd_maxBlockSize g = maxSize (rnd_blockSizeMix g)
  /\ 0 <= range_start (rnd_range g) /\ 0 < lengthPlusOne (rnd_range g)
  /\ range_start (rnd_range g) + lengthPlusOne (rnd_range g) <= TWO64
  /\ 0 <= rnd_numBytesLeft g <= rnd_numBytesTotal g /\ rnd_numBytesTotal g < TWO64.

#[global] Program Instance rnd_laws : OffsetGenLaws R D OffsetGenRandom := {
  og_inv := rnd_inv;
  og_lo g := range_start (rnd_range g);
  og_hi g := range_start (rnd_range g) + lengthPlusOne (rnd_range g) - 1
             + Z.min (rnd_maxBlockSize g) (rnd_numBytesTotal g);
}.
Next Obligation. intros g Hg. simpl. destruct Hg as (_ & _ & _ & _ & _ & Hl & _). lia. Qed.
Next Obligation.
  intros g e (Hm & Hmax & Hs & Hp & Hb & Hl & Ht) He Hne. simpl in Hne |- *.
  destruct (RandAlgoRange_next_ok (rnd_range g) e He Hs Hp Hb) as (v & r & -> & He1 & Hv).
  destruct (mix_next_submit_ok (rnd_numBytesLeft g) (rnd_blockSizeMix g) _ Hm He1)
    as (n & e' & Hn & He' & Hnb & Hnl); [lia|].
  do 5 eexists. split; [done|]. split; [exact Hn|]. split; [done|].
  refine (conj _ (conj _ (conj _ _))); [lia..|].
  unfold rnd_inv. simpl. u64_elim. split_and!; (done || lia).
Qed.
Next Obligation.
  intros g e (Hm & Hmax & Hs & Hp & Hb & Hl & Ht) He. simpl. unfold rnd_inv. simpl. split_and!; (done || lia).
Qed.

#[global] Program Instance rnd_slice_laws : OffsetGenSliceLaws R D OffsetGenRandom := {
  og_slice_pre _ _ _ := True;
}.
Next Obligation.
  intros g e len offset (Hm & Hmax & _) He Hlen Hoff Hsum _.
  pose proof (mix_ok_sizes _ Hm) as Hsz. simpl. u64_elim.
  rewrite (proj2 (Z.ltb_ge _ _)) by lia. eexists _, _. split; [done|].
  unfold rnd_inv. simpl. u64_elim. split_and!; (done || lia).
Qed.

(** *** Random aligned *)

Definition ali_inv (g : OffsetGenRandomAligned) : Prop :=
  mix_ok (ali_blockSizeMix g) /\ ali_maxBlockSize g = maxSize (ali_blockSizeMix g)
  /\ ali_alignGrid g = minSize (ali_blockSizeMix g)
  /\ range_start (ali_range g) = 0 /\ 0 < lengthPlusOne (ali_range g) <= TWO64
  /\ 0 <= ali_offset g
  /\ ali_offset g + (lengthPlusOne (ali_range g) - 1) * ali_alignGrid g < TWO64
  /\ 0 <= ali_numBytesLeft g <= ali_numBytesTotal g /\ ali_numBytesTotal g < TWO64.

#[global] Program Instance ali_laws : OffsetGenLaws R D OffsetGenRandomAligned := {
  og_inv := ali_inv;
  og_lo g := ali_offset g;
  og_hi g := ali_offset g + (lengthPlusOne (ali_range g) - 1) * ali_alignGrid g
             + Z.min (ali_maxBlockSize g) (ali_numBytesTotal g);
}.
Next Obligation. intros g Hg. simpl. destruct Hg as (_ & _ & _ & _ & _ & _ & _ & Hl & _). lia. Qed.
Next Obligation.
  intros g e (Hm & Hmax & Hmin & Hs & Hp & Ho & Hb & Hl & Ht) He Hne. simpl in Hne |- *.
  destruct (RandAlgoRange_next_ok (ali_range g) e He) as (v & r & -> & He1 & Hv); [lia..|].
  destruct (mix_next_submit_ok (ali_numBytesLeft g) (ali_blockSizeMix g) _ Hm He1)
    as (n & e' & Hn & He' & Hnb & Hnl); [lia|].
  pose proof (mix_ok_sizes _ Hm) as Hsz.
  assert (0 <= v * ali_alignGrid g <= (lengthPlusOne (ali_range g) - 1) * ali_alignGrid g) as Hvg by nia.
  do 5 eexists. split; [done|]. split; [exact Hn|]. split; [done|]. u64_elim.
  refine (conj _ (conj _ (conj _ _))); [lia..|].
  unfold ali_inv. simpl. u64_elim. split_and!; (done || lia).
Qed.
Next Obligation.
  intros g e (Hm & Hmax & Hmin & Hs & Hp & Ho & Hb & Hl & Ht) He. simpl. unfold ali_inv. simpl.
  split_and!; (done || lia).
Qed.

Lemma ali_max_index_spec minSz maxSz len :
  0 < minSz <= maxSz -> 0 <= len < TWO64 ->
  0 <= ali_max_index minSz maxSz len <= len
  /\ ali_max_index minSz maxSz len * minSz + Z.min maxSz len <= len.
Proof.
  intros Hsz Hlen. unfold ali_max_index. destruct (Z.eqb_spec (Z.min minSz len) 0); [lia|].
  u64_elim. destruct (Z.le_gt_cases maxSz len).
  - rewrite !Z.min_l by lia. pose proof (Z.mul_div_le (len - maxSz) minSz ltac:(lia)).
    assert (0 <= (len - maxSz) / minSz) by (apply Z.div_pos; lia). nia.
  - rewrite (Z.min_r maxSz) by lia. rewrite Z.sub_diag, Zdiv_0_l. lia.
Qed.

#[global] Program Instance ali_slice_laws : OffsetGenSliceLaws R D OffsetGenRandomAligned := {
  og_slice_pre _ _ _ := True;
}.
Next Obligation.
  intros g e len offset (Hm & Hmax & Hmin & _) He Hlen Hoff Hsum _.
  pose proof (mix_ok_sizes _ Hm) as Hsz.
  destruct (ali_max_index_spec (ali_alignGrid g) (ali_maxBlockSize g) len) as [Hi Hi']; [lia..|].
  simpl. rewrite (proj2 (Z.ltb_ge _ _)) by lia. eexists _, _. split; [done|].
  unfold ali_inv. simpl. u64_elim. rewrite Z.sub_0_r, Z.add_simpl_r. split_and!; (done || lia).
Qed.

(** *** Strided *)

Definition str_inv (g : OffsetGenStrided) : Prop :=
  0 < str_blockSize g /\ 0 < str_numDataSetThreads g /\ 0 <= str_startOffset g
  /\ 0 <= str_numBytesTotal g
  /\ str_startOffset g + (str_numBytesTotal g + str_blockSize g) * str_numDataSetThreads g < TWO64
  /\ exists k, 0 <= k /\ str_numBytesLeft g = Z.max 0 (str_numBytesTotal g - k * str_blockSize g)
     /\ (k - 1) * str_blockSize g < str_numBytesTotal g
     /\ str_currentOffset g = str_startOffset g + k * (str_blockSize g * str_numDataSetThreads g).

#[global] Program Instance str_laws : OffsetGenLaws R D OffsetGenStrided := {
  og_inv := str_inv;
  og_lo g := str_startOffset g;
  og_hi g := str_startOffset g
             + (str_numBytesTotal g + str_blockSize g) * str_numDataSetThreads g;
}.
Next Obligation. intros g (Hbs & Hn & Hs & Ht & Hb & k & Hk & Hl & _). simpl. lia. Qed.
Next Obligation.
  intros g e (Hbs & Hn & Hs & Ht & Hb & k & Hk & Hl & Hlt & Hc) He Hne. simpl in Hne |- *.
  assert (k * str_blockSize g < str_numBytesTotal g) as Hkb by lia.
  assert (0 <= k * str_blockSize g) by nia.
  assert (0 <= k * (str_blockSize g * str_numDataSetThreads g)
    <= str_numBytesTotal g * str_numDataSetThreads g) as Hko by nia.
  assert (str_blockSize g <= str_blockSize g * str_numDataSetThreads g) by nia.
  assert (str_numBytesTotal g <= str_numBytesTotal g * str_numDataSetThreads g) by nia.
  do 5 eexists. split; [done|]. split; [done|]. split; [done|].
  refine (conj _ (conj _ (conj _ _))); [lia..|]. unfold str_inv. simpl. rewrite Hc. u64_elim.
  refine (conj _ (conj _ (conj _ _))); [|lia|lia|done].
  refine (conj Hbs (conj Hn (conj Hs (conj Ht (conj Hb _))))). exists (k + 1).
  split_and!; lia.
Qed.
Next Obligation.
  intros g e (Hbs & Hn & Hs & Ht & Hb & _) He. simpl. unfold str_inv. simpl. refine (conj _ (conj He _)); [|split_and!; done].
  refine (conj Hbs (conj Hn (conj Hs (conj Ht (conj Hb _))))). exists 0. split_and!; lia.
Qed.

(** *** Full coverage *)

Definition cov_inv (g : OffsetGenFullCov) : Prop :=
  covering_wf (cov_randomGen g) /\ 0 < cov_blockSize g
  /\ (min_value_ (cov_randomGen g) + range_size_ (cov_randomGen g) - 1) * cov_blockSize g < TWO64
  /\ 0 <= cov_numBytesLeft g <= cov_numBytesTotal g /\ cov_numBytesTotal g < TWO64.

#[global] Program Instance cov_laws : OffsetGenLaws R D OffsetGenFullCov := {
  og_inv := cov_inv;
  og_lo g := min_value_ (cov_randomGen g) * cov_blockSize g;
  og_hi g := (min_value_ (cov_randomGen g) + range_size_ (cov_randomGen g) - 1) * cov_blockSize g
             + Z.min (cov_blockSize g) (cov_numBytesTotal g);
}.
Next Obligation. intros g Hg. simpl. destruct Hg as (_ & _ & _ & Hl & _). lia. Qed.
Next Obligation.
  intros g e (Hwf & Hbs & Hb & Hl & Ht) He Hne. simpl in Hne |- *.
  pose proof (env_seed_ok e He) as [He1 _].
  set (se := if covering_has_next (cov_randomGen g) then (0, e) else env_seed e).
  assert (env_ok (snd se)) as He2 by (unfold se; by destruct (covering_has_next _)).
  clearbody se. destruct se as [seed e1]. simpl in He2.
  destruct (covering_next_terminates seed _ Hwf) as (v & gen & Hnext & Hwf' & Hv).
  destruct (covering_next_const _ _ _ _ Hnext) as [Hr Hm]. rewrite Hnext. simpl.
  pose proof (wf_min _ Hwf).
  assert (min_value_ (cov_randomGen g) * cov_blockSize g <= v * cov_blockSize g
    <= (min_value_ (cov_randomGen g) + range_size_ (cov_randomGen g) - 1) * cov_blockSize g) by nia.
  assert (0 <= min_value_ (cov_randomGen g) * cov_blockSize g) by nia.
  do 5 eexists. split; [done|]. split; [done|]. split; [done|]. simpl. u64_elim.
  refine (conj _ (conj _ (conj _ _))); [lia..|]. unfold cov_inv. simpl. rewrite Hr, Hm.
  split_and!; (done || lia).
Qed.
Next Obligation.
  intros g e (Hwf & Hbs & Hb & Hl & Ht) He. simpl. pose proof (env_seed_ok e He) as [He1 _].
  destruct (env_seed e) as [seed e1]. unfold cov_inv. simpl.
  pose proof (covering_reset_wf seed _ Hwf). split_and!; (done || lia).
Qed.

(** The generator of a slice that starts at a block boundary. *)
Lemma cov_range_new len offset bs seed :
  0 < bs -> 0 <= len -> 0 <= offset -> offset + len < 2 ^ 63 -> offset `mod` bs = 0 ->
  exists gen, covering_new (calcStartBlockIdx offset bs) (calcEndBlockIdx offset len bs) seed = Ok gen
    /\ covering_wf gen /\ current_count_ gen = 0 /\ min_value_ gen * bs = offset
    /\ range_size_ gen = Z.max 1 (len / bs).
Proof.
  intros Hbs Hlen Hoff Hsum Hal. unfold calcEndBlockIdx, calcStartBlockIdx, truthy.
  rewrite (proj2 (Z.eqb_neq bs 0)) by lia. cbn [negb andb].
  assert (offset = bs * (offset / bs)) as Ho by (by apply Z_div_exact_full_2; lia).
  assert (0 <= offset / bs) by (apply Z.div_pos; lia). assert (0 <= len / bs) by (apply Z.div_pos; lia).
  pose proof (Z.mul_div_le len bs Hbs). assert (offset / bs <= offset) by nia. assert (len / bs <= len) by nia.
  set (k := if negb (len / bs =? 0) then len / bs -₆₄ 1 else 0).
  assert (k = Z.max 1 (len / bs) - 1) as ->.
  { unfold k. destruct (Z.eqb_spec (len / bs) 0); simpl; u64_elim; lia. }
  u64_elim. destruct (covering_new_wf (offset / bs) (offset / bs + (Z.max 1 (len / bs) - 1)) seed)
    as (gen & -> & Hwf & Hc & Hmin & Hr); [lia..|].
  exists gen. split_and!; [done..|rewrite Hmin; lia|lia].
Qed.

#[global] Program Instance cov_slice_laws : OffsetGenSliceLaws R D OffsetGenFullCov := {
  og_slice_pre g _ offset := offset `mod` cov_blockSize g = 0;
}.
Next Obligation.
  intros g e len offset (_ & Hbs & _) He Hlen Hoff Hsum Hal. simpl.
  pose proof (env_seed_ok e He) as [He1 _]. destruct (env_seed e) as [seed e1].
  destruct (cov_range_new len offset (cov_blockSize g) seed) as (gen & -> & Hwf & _ & Hmin & Hr); [done..|].
  simpl in *. eexists _, _. split; [done|]. unfold cov_inv. simpl.
  pose proof (Z.mul_div_le len (cov_blockSize g) Hbs). assert (0 <= len / cov_blockSize g) by (apply Z.div_pos; lia).
  assert ((min_value_ gen + range_size_ gen - 1) * cov_blockSize g
    + Z.min (cov_blockSize g) len <= offset + len) as Hhi.
  { rewrite Hr. destruct (Z.max_spec 1 (len / cov_blockSize g)) as [[? ->]|[? ->]]; [nia|]. lia. }
  split_and!; (done || lia).
Qed.
End sources.

(** ** The clients' loop, for every generator *)

(** A generator learns of a draw only in [addBytesSubmitted()]: asking for the next offset does not
    change the amounts.  Clients that keep a draw for later rely on this. *)
Class OffsetGenDrawLaws (R D G : Type) `{!OffsetGenerator R D G} : Prop :=
  og_draw_stable (g : G) (e : Env R D) off g1 e1 :
    getNextOffset g e = Some (off, (g1, e1)) ->
    getNumBytesLeftToSubmit g1 = getNumBytesLeftToSubmit g /\ getNumBytesTotal g1 = getNumBytesTotal g.

Section draw_laws.
Context {R D : Type} `{!RandAlgo R, !RandAlgo D}.

#[local] Ltac solve_draw := intros g e off g1 e1; cbn; intros H; repeat (case_match || simplify_option_eq); simplify_eq/=; done.

#[global] Instance seq_draw_laws : OffsetGenDrawLaws R D OffsetGenSequential.
Proof. solve_draw. Qed.
#[global] Instance rev_draw_laws : OffsetGenDrawLaws R D OffsetGenReverseSeq.
Proof. solve_draw. Qed.
#[global] Instance rnd_draw_laws : OffsetGenDrawLaws R D OffsetGenRandom.
Proof. solve_draw. Qed.
#[global] Instance ali_draw_laws : OffsetGenDrawLaws R D OffsetGenRandomAligned.
Proof. solve_draw. Qed.
#[global] Instance str_draw_laws : OffsetGenDrawLaws R D OffsetGenStrided.
Proof. solve_draw. Qed.
#[global] Instance cov_draw_laws : OffsetGenDrawLaws R D OffsetGenFullCov.
Proof. solve_draw. Qed.
End draw_laws.

(** The accesses of a client that has not necessarily drained the generator. *)
Inductive og_steps {R D G} `{!OffsetGenerator R D G} (g : G) (e : Env R D) : list (Z * Z) -> G -> Env R D -> Prop :=
  | og_steps_nil : og_steps g e [] g e
  | og_steps_snoc ios g1 e1 off g2 e2 n e3 :
      og_steps g e ios g1 e1 -> getNumBytesLeftToSubmit g1 <> 0 ->
      getNextOffset g1 e1 = Some (off, (g2, e2)) -> getNextBlockSizeToSubmit g2 e2 = Some (n, e3) ->
      og_steps g e (ios ++ [(off, n)]) (addBytesSubmitted n g2) e3.

(** What is accessed first, then the rest. *)
Lemma og_steps_drain {R D G} `{!OffsetGenerator R D G} (g : G) (e : Env R D) ios g' e' k :
  og_steps g e ios g' e' ->
  og_drain (length ios + k) g e = ('(ios', res) ← og_drain k g' e'; Some (ios ++ ios', res)).
Proof.
  intros H. revert k. induction H as [|ios g1 e1 off g2 e2 n e3 H IH Hl Ho Hn]; intros k.
  - cbn. by destruct (og_drain k g e) as [[]|].
  - rewrite length_app, <- Nat.add_assoc. change (length [(off, n)] + k)%nat with (S k). rewrite IH.
    cbn [og_drain]. rewrite (proj2 (Z.eqb_neq _ _) Hl), Ho. cbn [mbind option_bind]. rewrite Hn. cbn [mbind option_bind].
    destruct (og_drain k _ e3) as [[ios' res]|]; [|done]. cbn. by rewrite <- app_assoc.
Qed.

Lemma og_steps_drained {R D G} `{!OffsetGenerator R D G} (g : G) (e : Env R D) ios g' e' :
  og_steps g e ios g' e' -> getNumBytesLeftToSubmit g' = 0 -> og_drain (length ios) g e = Some (ios, (g', e')).
Proof.
  intros H Hz. pose proof (og_steps_drain _ _ _ _ _ O H) as Hd. rewrite Nat.add_0_r in Hd. rewrite Hd. cbn.
  rewrite Hz. cbn. by rewrite app_nil_r.
Qed.

Section client.
Context {R D G : Type} `{!RandAlgo R, !RandAlgo D, !OffsetGenerator R D G, !OffsetGenLaws R D G}.

(** What [og_drain] does to a generator that keeps the laws. *)
Lemma og_drain_spec fuel (g : G) (e : Env R D) :
  og_inv g -> env_ok e -> getNumBytesLeftToSubmit g <= Z.of_nat fuel ->
  exists ios g' e', og_drain fuel g e = Some (ios, (g', e'))
    /\ Zsum (snd <$> ios) = getNumBytesLeftToSubmit g
    /\ Forall (fun '(off, n) => 0 < n <= getBlockSize g /\ og_lo g <= off /\ off + n <= og_hi g) ios
    /\ og_inv g' /\ env_ok e' /\ getNumBytesLeftToSubmit g' = 0
    /\ getNumBytesTotal g' = getNumBytesTotal g /\ getBlockSize g' = getBlockSize g
    /\ og_lo g' = og_lo g /\ og_hi g' = og_hi g.
Proof.
  revert g e. induction fuel as [|fuel IH]; intros g e Hg He Hf.
  - pose proof (og_left_range g Hg). assert (getNumBytesLeftToSubmit g = 0) as Hz by lia.
    exists [], g, e. simpl. rewrite Hz. split_and!; (done || constructor).
  - simpl. destruct (Z.eqb_spec (getNumBytesLeftToSubmit g) 0) as [Hz|Hz].
    { exists [], g, e. split_and!; (done || constructor). }
    destruct (og_step g e Hg He Hz) as (off & g1 & e1 & n & e2 & -> & Hn & He2 & Hnb & Hlo & Hhi &
      Hg' & Hl' & Hl0 & Ht' & Hb' & Hlo' & Hhi').
    cbn [mbind option_bind]. rewrite Hn. cbn [mbind option_bind].
    destruct (IH (addBytesSubmitted n g1) e2 Hg' He2) as
      (ios & g' & e' & -> & Hsum & Hall & Hi & He' & Hz' & Htt & Hbb & Hll & Hhh); [lia|].
    rewrite Hb', Hlo', Hhi' in *. exists ((off, n) :: ios), g', e'. cbn [mbind option_bind].
    rewrite fmap_cons, Zsum_cons. simpl.
    refine (conj eq_refl (conj _ (conj _ (conj Hi (conj He' (conj Hz' (conj _ _))))))); [lia| |congruence|done].
    constructor; [done|]. done.
Qed.
End client.

(** ** The accesses of the individual generators *)

(** Accesses that follow each other without gap or overlap. *)
Fixpoint contiguous (off : Z) (ios : list (Z * Z)) : Prop :=
  match ios with
  | [] => True
  | (o, n) :: ios => o = off /\ contiguous (off + n) ios
  end.

Section accesses.
Context {R D : Type} `{!RandAlgo R, !RandAlgo D}.

Lemma rev_drain_from (n : nat) fuel total start cur bs (e : Env R D) :
  (n <= fuel)%nat -> 0 < bs < TWO64 -> 0 <= start -> 0 <= total -> start + total < TWO64 ->
  (Z.of_nat n - 1) * bs < total ->
  ((0 < n)%nat -> cur = start + (Z.of_nat n - 1) * bs) ->
  exists g, og_drain fuel (mkRev total (Z.min total (Z.of_nat n * bs)) start cur bs) e
    = Some (reverse (tile_block start total bs <$> seqZ 0 (Z.of_nat n)), (g, e)).
Proof.
  revert fuel cur. induction n as [|n IH]; intros fuel cur Hf Hbs Hs Ht Hb Hn Hc.
  { eexists. assert (Z.min total (Z.of_nat 0 * bs) = 0) as -> by lia. by destruct fuel. }
  destruct fuel as [|fuel]; [lia|]. specialize (Hc ltac:(lia)). rewrite Hc.
  rewrite Nat2Z.inj_succ in *. assert (0 <= Z.of_nat n * bs) by nia. simpl.
  rewrite (proj2 (Z.eqb_neq _ _)) by lia.
  rewrite (u64_small (start + total)) by lia. rewrite (u64_small (start + total - _)) by lia.
  replace (Z.min total (Z.succ (Z.of_nat n) * bs)
    -₆₄ Z.min (start + total - (start + (Z.succ (Z.of_nat n) - 1) * bs)) bs)
    with (Z.min total (Z.of_nat n * bs)) by (rewrite u64_small; lia).
  assert ((0 < n)%nat -> 0 <= (Z.of_nat n - 1) * bs) by nia.
  destruct (IH fuel (start + (Z.succ (Z.of_nat n) - 1) * bs -₆₄ bs)) as [g Hg]; try (done || lia).
  { intros Hn'. specialize (H0 Hn'). rewrite u64_small; lia. }
  exists g. rewrite Hg. cbn [mbind option_bind]. do 2 f_equal.
  replace (Z.succ (Z.of_nat n)) with (Z.of_nat n + 1) by lia.
  rewrite seqZ_snoc, fmap_app, reverse_app by lia. simpl.
  f_equal. unfold tile_block. f_equal; lia.
Qed.

Lemma seq_drain_from (n : nat) fuel k total start (mix : BlockSizeMix) bs (e : Env R D) :
  (n <= fuel)%nat -> isMix mix = false -> maxSize mix = bs -> 0 < bs < TWO64 -> 0 <= start ->
  start + total < TWO64 -> 0 <= k -> k + Z.of_nat n = tile_count total bs -> 0 <= total ->
  exists g, og_drain fuel (mkSeq total (Z.max 0 (total - k * bs)) start
      (Z.min (start + total) (start + k * bs)) mix bs) e
    = Some (tile_block start total bs <$> seqZ k (Z.of_nat n), (g, e)).
Proof.
  destruct e as [r d]. revert fuel k. induction n as [|n IH]; intros fuel k Hf Hmix Hmax Hbs Hs Hb Hk Hkn Ht.
  { eexists. destruct (tile_count_spec total bs) as (_ & Hc & _); [lia..|].
    assert (Z.max 0 (total - k * bs) = 0) as -> by nia. by destruct fuel. }
  destruct fuel as [|fuel]; [lia|].
  destruct (tile_count_spec total bs) as (_ & Hc & Hc'); [lia..|]. assert (k * bs < total) by nia.
  assert (0 <= k * bs) by nia.
  simpl. rewrite (proj2 (Z.eqb_neq _ _)) by lia. unfold mix_next_submit, getNextSize.
  rewrite Hmix, Hmax. simpl. u64_elim.
  replace (Z.max 0 (total - k * bs) - Z.min (Z.max 0 (total - k * bs)) bs)
    with (Z.max 0 (total - (k + 1) * bs)) by lia.
  replace (Z.min (start + total) (start + k * bs) + Z.min (Z.max 0 (total - k * bs)) bs)
    with (Z.min (start + total) (start + (k + 1) * bs)) by lia.
  destruct (IH fuel (k + 1)) as [g Hg]; try (done || lia).
  exists g. rewrite Hg. cbn [mbind option_bind]. do 2 f_equal.
  rewrite (seqZ_cons k) by lia. rewrite fmap_cons, Nat2Z.inj_succ, Z.pred_succ, Z.add_1_r. f_equal.
  unfold tile_block. f_equal; lia.
Qed.

Lemma str_drain_from (n : nat) fuel k (m : Z) start bs nt (e : Env R D) :
  (n <= fuel)%nat -> 0 < bs -> 0 < nt -> 0 <= start -> 0 <= k -> k + Z.of_nat n = m ->
  start + m * (bs * nt) < TWO64 ->
  exists g, og_drain fuel (mkStr (bs * m) (bs * (m - k)) start (start + k * (bs * nt)) bs nt) e
    = Some ((fun i => (start + i * (bs * nt), bs)) <$> seqZ k (Z.of_nat n), (g, e)).
Proof.
  revert fuel k. induction n as [|n IH]; intros fuel k Hf Hbs Hnt Hs Hk Hkn Hb.
  { eexists. replace (bs * (m - k)) with 0 by nia. by destruct fuel. }
  destruct fuel as [|fuel]; [lia|]. assert (bs <= bs * (m - k)) by nia.
  assert (bs <= bs * nt) by nia. assert (0 <= k * (bs * nt)) by nia.
  assert (bs * (m - k) <= m * (bs * nt)) by nia.
  assert (k * (bs * nt) + bs * nt <= m * (bs * nt)) by nia.
  simpl. rewrite (proj2 (Z.eqb_neq _ _)), Z.min_r by lia. u64_elim.
  replace (bs * (m - k) - bs) with (bs * (m - (k + 1))) by lia.
  replace (start + k * (bs * nt) + bs * nt) with (start + (k + 1) * (bs * nt)) by lia.
  destruct (IH fuel (k + 1)) as [g Hg]; try (done || lia). exists g. rewrite Hg.
  cbn [mbind option_bind]. do 2 f_equal.
  rewrite (seqZ_cons k) by lia. by rewrite fmap_cons, Nat2Z.inj_succ, Z.pred_succ, Z.add_1_r.
Qed.

(** Whole blocks from the full-coverage generator follow its underlying sequence. *)
Lemma cov_drain_run (n : nat) fuel total rangeLen bs gen seed l gen' (e : Env R D) :
  (n <= fuel)%nat -> 0 < bs -> bs * Z.of_nat n < TWO64 ->
  current_count_ gen + Z.of_nat n <= range_size_ gen -> covering_wf gen ->
  covering_run seed n gen = Some (l, gen') -> Forall (fun v => 0 <= v * bs < TWO64) l ->
  exists g, og_drain fuel (mkCov total (bs * Z.of_nat n) rangeLen bs gen) e
    = Some ((fun v => (v * bs, bs)) <$> l, (g, e)).
Proof.
  revert fuel gen l. induction n as [|n IH]; intros fuel gen l Hf Hbs Hb Hcnt Hwf Hrun Hl.
  { simpl in Hrun. simplify_eq. eexists. rewrite Z.mul_0_r. by destruct fuel. }
  destruct fuel as [|fuel]; [lia|]. simpl in Hrun.
  destruct (covering_next seed gen) as [[v gen1]|] eqn:Hnext; [|done]. simpl in Hrun.
  destruct (covering_run seed n gen1) as [[l1 gen2]|] eqn:Hrun1; [|done]. simpl in Hrun. simplify_eq.
  apply Forall_cons in Hl as [Hv Hl].
  simpl. rewrite (proj2 (Z.eqb_neq _ _)) by nia. rewrite Nat2Z.inj_succ in *.
  assert (covering_has_next gen = true) as Hhas by (apply Z.ltb_lt; lia). rewrite Hhas.
  rewrite (covering_next_seed 0 seed), Hnext by done. cbn [mbind option_bind getNextBlockSizeToSubmit
    cov_generator cov_numBytesLeft cov_blockSize addBytesSubmitted cov_numBytesTotal cov_rangeLen cov_randomGen].
  rewrite Z.min_r, (u64_small (_ - bs)), (u64_small (v * bs)) by nia.
  replace (bs * Z.succ (Z.of_nat n) - bs) with (bs * Z.of_nat n) by lia.
  destruct (covering_next_const _ _ _ _ Hnext) as [Hr Hm].
  destruct (covering_next_count seed gen v gen1 Hhas Hwf Hnext) as [Hc1 Hwf1].
  destruct (IH fuel gen1 l1) as [g Hg]; try (done || lia). exists g. by rewrite Hg.
Qed.

Lemma seq_drain_contiguous fuel (g : OffsetGenSequential) (e : Env R D) ios res :
  seq_inv g -> env_ok e -> og_drain fuel g e = Some (ios, res) ->
  contiguous (seq_currentOffset g) ios.
Proof.
  revert g e ios res. induction fuel as [|fuel IH]; intros g e ios res Hg He Hd.
  { simpl in Hd. case_match; simplify_eq. done. }
  cbn [og_drain] in Hd. case_match; simplify_eq; [done|].
  destruct (og_step (OffsetGenLaws := seq_laws) g e Hg He) as (off & g1 & e1 & n & e2 & Ho & Hn & He2 & Hnb & _ & Hhi & Hg' & _);
    [by apply Z.eqb_neq|].
  rewrite Ho in Hd. cbn [mbind option_bind] in Hd. rewrite Hn in Hd. cbn [mbind option_bind] in Hd.
  destruct (og_drain fuel _ e2) as [[ios' res']|] eqn:Hd'; [|done]. simpl in Hd. simplify_eq.
  simpl in Ho. simplify_eq. apply IH in Hd'; [|done..]. simpl. split; [done|].
  destruct Hg as (_ & _ & Hs & Hb & Hl & Hc). simpl in Hd', Hhi. by rewrite u64_small in Hd' by lia.
Qed.

Lemma ali_drain_grid fuel (g : OffsetGenRandomAligned) (e : Env R D) ios res :
  ali_inv g -> env_ok e -> og_drain fuel g e = Some (ios, res) ->
  Forall (fun '(off, _) => (off - ali_offset g) `mod` ali_alignGrid g = 0) ios.
Proof.
  revert g e ios res. induction fuel as [|fuel IH]; intros g e ios res Hg He Hd.
  { simpl in Hd. case_match; simplify_eq. done. }
  cbn [og_drain] in Hd. case_match; simplify_eq; [done|].
  destruct (og_step (OffsetGenLaws := ali_laws) g e Hg He) as (off & g1 & e1 & n & e2 & Ho & Hn & He2 & Hnb & _ & Hhi & Hg' & _);
    [by apply Z.eqb_neq|].
  rewrite Ho in Hd. cbn [mbind option_bind] in Hd. rewrite Hn in Hd. cbn [mbind option_bind] in Hd.
  destruct (og_drain fuel _ e2) as [[ios' res']|] eqn:Hd'; [|done]. simpl in Hd. simplify_eq.
  destruct Hg as (Hm & Hmax & Hmin & Hs & Hp & Ho' & Hb & _). pose proof (mix_ok_sizes _ Hm).
  simpl in Ho. destruct (RandAlgoRange_next_ok (ali_range g) e He) as (v & r & Hv & He1 & Hvb); [lia..|].
  rewrite Hv in Ho. simpl in Ho. injection Ho as <- <- <-. apply IH in Hd'; [|done..]. simpl in Hd'.
  constructor; [|done]. assert (0 <= v * ali_alignGrid g
    <= (lengthPlusOne (ali_range g) - 1) * ali_alignGrid g) by nia.
  u64_elim. rewrite Z.add_simpl_l. apply Z.mod_mul. lia.
Qed.
End accesses.

(** Strided blocks of all ranks, regrouped. *)
Lemma strided_regroup (nt m : nat) bs :
  concat ((fun rank => (fun i => (bs * rank + i * (bs * Z.of_nat nt), bs)) <$> seqZ 0 (Z.of_nat m))
            <$> seqZ 0 (Z.of_nat nt))
  ≡ₚ (fun i => (i * bs, bs)) <$> seqZ 0 (Z.of_nat nt * Z.of_nat m).
Proof.
  induction m as [|m IH].
  { rewrite Z.mul_0_r. simpl. induction (seqZ 0 (Z.of_nat nt)); simpl; auto. }
  rewrite Nat2Z.inj_succ. replace (Z.of_nat nt * Z.succ (Z.of_nat m))
    with (Z.of_nat nt * Z.of_nat m + Z.of_nat nt) by lia.
  rewrite seqZ_app, fmap_app, <- IH by lia. clear IH.
  transitivity (concat ((fun rank => ((fun i => (bs * rank + i * (bs * Z.of_nat nt), bs))
      <$> seqZ 0 (Z.of_nat m)) ++ [(bs * rank + Z.of_nat m * (bs * Z.of_nat nt), bs)])
      <$> seqZ 0 (Z.of_nat nt))).
  { apply reflexive_eq. f_equal. apply list_fmap_ext. intros i rank _.
    replace (Z.succ (Z.of_nat m)) with (Z.of_nat m + 1) by lia. by rewrite seqZ_snoc, fmap_app by lia. }
  rewrite Z.add_0_l. transitivity (concat ((fun rank => (fun i => (bs * rank + i * (bs * Z.of_nat nt), bs))
      <$> seqZ 0 (Z.of_nat m)) <$> seqZ 0 (Z.of_nat nt))
    ++ ((fun rank => (bs * rank + Z.of_nat m * (bs * Z.of_nat nt), bs)) <$> seqZ 0 (Z.of_nat nt))).
  - induction (seqZ 0 (Z.of_nat nt)) as [|x l IH]; [done|]. rewrite !fmap_cons. cbn [concat].
    rewrite IH. rewrite <- !app_assoc. apply Permutation_app_head. simpl. by rewrite Permutation_middle.
  - apply Permutation_app_head, reflexive_eq.
    replace (seqZ (Z.of_nat nt * Z.of_nat m) (Z.of_nat nt))
      with (Z.add (Z.of_nat nt * Z.of_nat m) <$> seqZ 0 (Z.of_nat nt))
      by (rewrite fmap_add_seqZ; f_equal; lia).
    rewrite <- list_fmap_compose.
    apply list_fmap_ext. intros i rank _. simpl. f_equal. lia.
Qed.

(** ** Properties *)


(** A two-size mix and a pair of random sources for concrete runs. *)
Definition demo_mix : BlockSizeMix := mix_finish [(4, 3); (6, 1)].
Definition demo_env : Env xoshiro_state xoshiro_state := mkEnv (mkXoshiro 1 2 3 4) (mkXoshiro 5 6 7 8).

Lemma demo_mix_ok : mix_ok demo_mix.
Proof.
  split; [|split; [done|vm_compute; done]]. split; [done|]. split.
  - repeat constructor; vm_compute; done.
  - apply (bool_decide_unpack _). vm_compute. done.
Qed.

Lemma demo_env_ok : env_ok demo_env.
Proof. cbv. repeat split; discriminate. Qed.


(** Reverse sequential access visits exactly the blocks of sequential access with the same
    block size in the opposite order, also when the last block is a partial one, and both tile the
    range; sequential access does so without gap or overlap. *)
Lemma reverse_is_reversed_sequential {R D} `{!RandAlgo R, !RandAlgo D} len offset mix (e : Env R D) :
  isMix mix = false -> 0 < maxSize mix < TWO64 -> 0 <= len -> 0 <= offset -> offset + len < TWO64 ->
  exists ios g g',
    og_drain (Z.to_nat len) (OffsetGenSequential_new len offset mix) e = Some (ios, (g, e))
    /\ og_drain (Z.to_nat len) (OffsetGenReverseSeq_new len offset (maxSize mix)) e
       = Some (reverse ios, (g', e))
    /\ ios = tile offset len (maxSize mix).
Proof.
  intros Hmix Hbs Hlen Hoff Hsum. set (bs := maxSize mix) in *.
  destruct (tile_count_spec len bs) as (Hc & Hc1 & Hc2); [lia..|].
  assert (Z.of_nat (Z.to_nat (tile_count len bs)) = tile_count len bs) as Hnat by lia.
  destruct (seq_drain_from (Z.to_nat (tile_count len bs)) (Z.to_nat len) 0 len offset mix bs e) as [g Hg];
    try (done || lia).
  rewrite Hnat, Z.mul_0_l, Z.sub_0_r, Z.add_0_r, Z.max_r, Z.min_r in Hg by lia.
  destruct (rev_drain_from (Z.to_nat (tile_count len bs)) (Z.to_nat len) len offset
    (rev_currentOffset (OffsetGenReverseSeq_new len offset bs)) bs e) as [g' Hg']; try (done || lia).
  { intros Hpos. unfold OffsetGenReverseSeq_new, rev_reset, truthy. simpl.
    rewrite (proj2 (Z.eqb_neq len 0)) by nia. rewrite Hnat in *.
    pose proof (Z.div_mod len bs ltac:(lia)). pose proof (Z.mod_pos_bound len bs ltac:(lia)).
    destruct (Z.eqb_spec (len `mod` bs) 0); simpl.
    - assert (tile_count len bs = len / bs) as Htc by nia. assert (1 <= len / bs) by lia.
      assert (bs <= len) by nia. u64_elim. rewrite Htc. lia.
    - assert (tile_count len bs = len / bs + 1) as Htc by nia.
      pose proof (Z.mod_le len bs Hlen ltac:(lia)). u64_elim. rewrite Htc. lia. }
  rewrite Hnat, Z.min_l in Hg' by lia.
  exists (tile offset len bs), g, g'. split_and!; [exact Hg| |done].
  etransitivity; [|exact Hg']. f_equal. unfold OffsetGenReverseSeq_new, rev_reset. simpl.
  by destruct (len =? 0), (truthy (len `mod` bs)).
Qed.

(** Strided access of [nt] workers, each with [m] blocks and starting at its rank's block:
    together they access every one of the first [nt * m] blocks exactly once. *)
Lemma strided_ranks_partition {R D} `{!RandAlgo R, !RandAlgo D} (nt m : nat) bs (e : Env R D) :
  (0 < nt)%nat -> 0 < bs -> (Z.of_nat nt * Z.of_nat m + Z.of_nat nt) * bs < TWO64 ->
  exists iosOfRank,
    (forall rank, 0 <= rank < Z.of_nat nt -> exists g,
      og_drain m (OffsetGenStrided_new (bs * Z.of_nat m) (bs * rank) bs (Z.of_nat nt)) e
      = Some (iosOfRank rank, (g, e)))
    /\ concat (iosOfRank <$> seqZ 0 (Z.of_nat nt))
       ≡ₚ (fun i => (i * bs, bs)) <$> seqZ 0 (Z.of_nat nt * Z.of_nat m).
Proof.
  intros Hnt Hbs Hb.
  exists (fun rank => (fun i => (bs * rank + i * (bs * Z.of_nat nt), bs)) <$> seqZ 0 (Z.of_nat m)).
  split; [|apply strided_regroup]. intros rank Hr.
  destruct (str_drain_from m m 0 (Z.of_nat m) (bs * rank) bs (Z.of_nat nt) e) as [g Hg]; (done || nia || idtac).
  exists g. by rewrite Z.sub_0_r, Z.mul_0_l, Z.add_0_r in Hg.
Qed.

(** C30: A random write pass with the full-coverage generator over a range of whole blocks writes
    every block of the range exactly once, each with the full block size. *)
Theorem full_coverage_writes_each_block_once {R D} `{!RandAlgo R, !RandAlgo D}
    (m : nat) start bs seed (e : Env R D) :
  (0 < m)%nat -> 0 < bs -> 0 <= start -> (start + Z.of_nat m) * bs < 2 ^ 63 ->
  let len := bs * Z.of_nat m in
  exists g ios g',
    OffsetGenFullCov_new len len (start * bs) bs seed = Ok g
    /\ og_drain m g e = Some (ios, (g', e))
    /\ ios ≡ₚ (fun i => (i * bs, bs)) <$> seqZ start (Z.of_nat m).
Proof.
  intros Hm Hbs Hstart Hb len. unfold OffsetGenFullCov_new.
  destruct (cov_range_new len (start * bs) bs seed) as (gen & -> & Hwf & Hcnt & Hmin & Hr);
    [done|nia|nia|unfold len; lia|by apply Z.mod_mul; lia|].
  apply Z.mul_reg_r in Hmin; [|lia].
  assert (range_size_ gen = Z.of_nat m) as Hr'.
  { rewrite Hr. unfold len. rewrite Z.mul_comm, Z.div_mul by lia. lia. }
  destruct (covering_cycle_aux 0 gen Hwf Hcnt) as (l & gen' & Hrun & Hperm & _).
  rewrite Hr', Nat2Z.id, Hmin in *.
  destruct (cov_drain_run m m len len bs gen 0 l gen' e) as [g' Hg']; try (done || lia).
  { rewrite Hperm. apply Forall_seqZ. nia. }
  eexists _, _, g'. split; [done|]. split; [exact Hg'|]. by rewrite Hperm.
Qed.

Lemma full_coverage_writes_each_block_once_witness :
  exists g ios g',
    OffsetGenFullCov_new (4 * Z.of_nat 5) (4 * Z.of_nat 5) (3 * 4) 4 77 = Ok g
    /\ og_drain 5 g demo_env = Some (ios, (g', demo_env))
    /\ ios ≡ₚ (fun i => (i * 4, 4)) <$> seqZ 3 (Z.of_nat 5).
Proof. apply (full_coverage_writes_each_block_once 5 3 4 77 demo_env); lia. Defined.

(** Sequential access with any block size mix and any random draws is contiguous: it starts
    at the given offset, each access starts where the previous one ended, and the accesses add up
    to exactly [len] bytes. *)
Lemma sequential_mix_contiguous {R D} `{!RandAlgo R, !RandAlgo D} len offset mix (e : Env R D) :
  mix_ok mix -> env_ok e -> 0 <= len -> 0 <= offset -> offset + len < TWO64 ->
  exists ios g e', og_drain (Z.to_nat len) (OffsetGenSequential_new len offset mix) e = Some (ios, (g, e'))
    /\ contiguous offset ios /\ Zsum (snd <$> ios) = len
    /\ Forall (fun '(_, n) => 0 < n <= maxSize mix) ios.
Proof.
  intros Hm He Hlen Hoff Hsum.
  assert (seq_inv (OffsetGenSequential_new len offset mix)) as Hinv by (unfold seq_inv; simpl; split_and!; (done || lia)).
  destruct (og_drain_spec (OffsetGenLaws0 := seq_laws) (Z.to_nat len) _ e Hinv He) as (ios & g & e' & Hd & Hs & Hall & _); [simpl; lia|].
  exists ios, g, e'. split; [done|]. split; [by eapply seq_drain_contiguous in Hd|]. split; [done|].
  eapply Forall_impl; [exact Hall|]. intros [? ?] [? _]. done.
Qed.

Lemma sequential_mix_contiguous_witness :
  exists ios g e', og_drain (Z.to_nat 25) (OffsetGenSequential_new 25 100 demo_mix) demo_env = Some (ios, (g, e'))
    /\ contiguous 100 ios /\ Zsum (snd <$> ios) = 25
    /\ Forall (fun '(_, n) => 0 < n <= maxSize demo_mix) ios.
Proof.
  apply (sequential_mix_contiguous 25 100 demo_mix demo_env demo_mix_ok demo_env_ok); lia.
Defined.

(** Random aligned access of a range that holds the largest block: every access lies within
    the range and starts at a multiple of the smallest block size from its beginning, and exactly
    [amount] bytes are accessed. *)
Lemma random_aligned_on_grid {R D} `{!RandAlgo R, !RandAlgo D} amount len offset mix (e : Env R D) :
  mix_ok mix -> env_ok e -> 0 <= amount < TWO64 -> maxSize mix <= len -> 0 <= offset ->
  offset + len < TWO64 ->
  exists g ios g' e', OffsetGenRandomAligned_new amount len offset mix = Ok g
    /\ og_drain (Z.to_nat amount) g e = Some (ios, (g', e')) /\ Zsum (snd <$> ios) = amount
    /\ Forall (fun '(off, n) => (off - offset) `mod` minSize mix = 0 /\ offset <= off
                               /\ 0 < n <= maxSize mix /\ off + n <= offset + len) ios.
Proof.
  intros Hm He Ham Hlen Hoff Hsum. pose proof (mix_ok_sizes _ Hm) as Hsz.
  destruct (ali_max_index_spec (minSize mix) (maxSize mix) len) as [Hi Hi']; [lia..|].
  unfold OffsetGenRandomAligned_new, RandAlgoRange_new. rewrite (proj2 (Z.ltb_ge _ _)) by lia.
  cbn [mbind result_bind]. u64_elim. rewrite Z.sub_0_r.
  set (g := mkAli _ _ _ _ _ _ _). assert (ali_inv g) as Hg.
  { unfold ali_inv, g. simpl. rewrite Z.add_simpl_r. split_and!; (done || lia). }
  destruct (og_drain_spec (OffsetGenLaws0 := ali_laws) (Z.to_nat amount) g e Hg He) as (ios & g' & e' & Hd & Hs & Hall & _); [simpl; lia|].
  exists g, ios, g', e'. refine (conj eq_refl (conj Hd (conj Hs _))).
  apply ali_drain_grid in Hd; [|done..]. rewrite Forall_forall in Hall, Hd. apply Forall_forall.
  intros [off n] Hin. specialize (Hall _ Hin). specialize (Hd _ Hin). simpl in Hall, Hd.
  rewrite Z.add_simpl_r in Hall. split_and!; (done || lia).
Qed.

Lemma random_aligned_on_grid_witness :
  exists g ios g' e', OffsetGenRandomAligned_new 30 20 100 demo_mix = Ok g
    /\ og_drain (Z.to_nat 30) g demo_env = Some (ios, (g', e')) /\ Zsum (snd <$> ios) = 30
    /\ Forall (fun '(off, n) => (off - 100) `mod` minSize demo_mix = 0 /\ 100 <= off
                               /\ 0 < n <= maxSize demo_mix /\ off + n <= 100 + 20) ios.
Proof.
  apply (random_aligned_on_grid 30 20 100 demo_mix demo_env demo_mix_ok demo_env_ok); vm_compute; done || split; done.
Defined.
