(* ===== verification/StringTk.v ===== *)
(** String toolkits: toolkits/Base64Encoder.cpp (names in tree files), toolkits/StringTk.cpp
    (checksums of S3 tag values, prefixes) and toolkits/HashTk.cpp (service password hash). *)

From S2P Require Import Prelude CppStrings RandAlgo.

(** ** Base64

    [val] is a 32-bit [int] that only ever has its lowest bits looked at; [valb] counts the
    bits that are not yet consumed. *)

Definition i32 (z : Z) : Z := (z + 2 ^ 31) `mod` 2 ^ 32 - 2 ^ 31.

Definition Base64Alphabet : string :=
  "ABCDEFGHIJKLMNOPQRSTUVWXYZabcdefghijklmnopqrstuvwxyz0123456789+/".

Definition b64_char (i : Z) : ascii :=
  match String.get (Z.to_nat i) Base64Alphabet with Some c => c | None => Ascii.zero end.

(** The table [T]: index of a character in the alphabet, or -1. *)
Fixpoint b64_find (c : ascii) (s : string) (i : Z) : Z :=
  match s with
  | "" => -1
  | String d s => if Ascii.eqb c d then i else b64_find c s (i + 1)
  end.

Definition b64_index (c : ascii) : Z := b64_find c Base64Alphabet 0.

(** [while(valb >= 0)]: at most two characters per input byte. *)
Fixpoint b64_emit (fuel : nat) (val valb : Z) : string * Z :=
  match fuel with
  | O => ("", valb)
  | S fuel =>
      if 0 <=? valb then
        let '(out, valb') := b64_emit fuel val (valb - 6) in
        (String (b64_char (Z.land (Z.shiftr val valb) 63)) out, valb')
      else ("", valb)
  end.

Fixpoint b64_encode_loop (s : string) (val valb : Z) : string * (Z * Z) :=
  match s with
  | "" => ("", (val, valb))
  | String c s =>
      let val := i32 (Z.shiftl val 8 + char_code c) in
      let '(chunk, valb) := b64_emit 2 val (valb + 8) in
      let '(rest, st) := b64_encode_loop s val valb in
      (chunk +:+ rest, st)
  end.

Definition b64_pad (out : string) : string :=
  match (String.length out mod 4)%nat with
  | 1%nat => out +:+ "==="
  | 2%nat => out +:+ "=="
  | 3%nat => out +:+ "="
  | _ => out
  end.

(** The last, incomplete sextet and the padding. *)
Definition b64_finish (loop : string * (Z * Z)) : string :=
  let '(out, (val, valb)) := loop in
  b64_pad
    (if -6 <? valb
     then out +:+ String (b64_char (Z.land (Z.shiftr (i32 (Z.shiftl val 8)) (valb + 8)) 63)) ""
     else out).

Definition Base64_encode (s : string) : string := b64_finish (b64_encode_loop s 0 (-6)).

Fixpoint b64_decode_loop (s : string) (val valb : Z) : string :=
  match s with
  | "" => ""
  | String c s =>
      if b64_index c =? -1 then ""
      else
        let val := i32 (Z.shiftl val 6 + b64_index c) in
        let valb := valb + 6 in
        if 0 <=? valb
        then String (char_of (Z.land (Z.shiftr val valb) 255)) (b64_decode_loop s val (valb - 8))
        else b64_decode_loop s val valb
  end.

Definition Base64_decode (s : string) : string := b64_decode_loop s 0 (-8).

(** ** [StringTk] *)

Definition HEX_ALPHABET : string := "0123456789ABCDEF".

Definition hex_char (i : Z) : ascii :=
  match String.get (Z.to_nat i) HEX_ALPHABET with Some c => c | None => Ascii.zero end.

Fixpoint generateRandomHexString (randGen : golden_state) (strLen : nat) : string :=
  match strLen with
  | O => ""
  | S n =>
      let '(v, randGen) := golden_next randGen in
      String (hex_char (v `mod` 16)) (generateRandomHexString randGen n)
  end.

(** [(unsigned)str[i]]: a plain [char] is signed on the supported platforms. *)
Definition schar (c : ascii) : Z := if 128 <=? char_code c then char_code c - 256 else char_code c.

Fixpoint checksum_sum (s : string) (checkSum : Z) : Z :=
  match s with
  | "" => checkSum
  | String c s => checksum_sum s (u32 (checkSum + u32 (schar c)))
  end.

Fixpoint checksum_digits (n : nat) (checkSum : Z) : string :=
  match n with
  | O => ""
  | S n => String (hex_char (checkSum `mod` 16)) (checksum_digits n (checkSum / 16))
  end.

Definition generateChecksumString (str : string) (checksumLen : nat) : string :=
  checksum_digits checksumLen (checksum_sum str 0).

Definition verifyChecksumString (str checksumStr : string) : bool :=
  String.eqb (generateChecksumString str (String.length checksumStr)) checksumStr.

Definition generateRandomS3TagValue (randGen : golden_state) (objectName : string)
    (strLen checksumLen : nat) : result string :=
  if (strLen <=? checksumLen)%nat
  then Throw (WorkerException "generateRandomS3Tag() was given a strLen that is not larger than checksumLen")
  else
    let randomStr := generateRandomHexString randGen (strLen - checksumLen) in
    let checksumStr := generateChecksumString (objectName +:+ randomStr) checksumLen in
    Ok (randomStr +:+ checksumStr).

Definition verifyRandomS3TagValue (s3TagValue objectName : string) (checksumLen : nat) : bool :=
  if (String.length s3TagValue <=? checksumLen)%nat then false
  else
    let n := (String.length s3TagValue - checksumLen)%nat in
    let checksumStr := String.substring n checksumLen s3TagValue in
    let tagValueWithoutChecksum := String.substring 0 n s3TagValue in
    String.eqb (generateChecksumString (objectName +:+ tagValueWithoutChecksum) checksumLen) checksumStr.

(** [str.find(prefix) == 0]. *)
Definition checkForPrefix (str prefix : string) : bool := String.prefix prefix str.

Definition checkAndErasePrefix (inoutStr prefix : string) : bool * string :=
  if checkForPrefix inoutStr prefix
  then (true, String.substring (String.length prefix) (String.length inoutStr - String.length prefix) inoutStr)
  else (false, inoutStr).

Fixpoint checkForPrefix_vec (vec : list string) (prefix : string) : bool :=
  match vec with
  | [] => false
  | str :: vec => if checkForPrefix str prefix then true else checkForPrefix_vec vec prefix
  end.

Fixpoint vecToStr_tail (vec : list string) (delimiter : string) : string :=
  match vec with
  | [] => ""
  | s :: vec => (delimiter +:+ s) +:+ vecToStr_tail vec delimiter
  end.

Definition vecToStr (vec : list string) (delimiter : string) : string :=
  match vec with
  | [] => ""
  | s :: vec => s +:+ vecToStr_tail vec delimiter
  end.

(** ** [HashTk] *)

Definition simple128CombineHelper (x y : Z) : Z := Z.lxor x (y *₆₄ 0x9E3779B97F4A7C15).

Fixpoint simple128_loop (s : string) (hash1 hash2 : Z) : Z * Z :=
  match s with
  | "" => (hash1, hash2)
  | String c s =>
      let value := u64 (schar c) in
      simple128_loop s (simple128CombineHelper hash1 (value *₆₄ 0x87C37B91114253D5))
        (simple128CombineHelper hash2 (value *₆₄ 0x4CF5AD432745937F))
  end.

(** Lower-case hexadecimal digits, most significant first, [n] of them. *)
Definition lower_hex_char (i : Z) : ascii :=
  match String.get (Z.to_nat i) "0123456789abcdef" with Some c => c | None => Ascii.zero end.

Fixpoint hex_digits (n : nat) (z : Z) : string :=
  match n with
  | O => ""
  | S n => String (lower_hex_char ((z / 16 ^ Z.of_nat n) `mod` 16)) (hex_digits n z)
  end.

Definition simple128 (input : string) : string :=
  let '(hash1, hash2) := simple128_loop input 0xC6A4A7935BD1E995 0xDEADBEEFCAFEBABE in
  hex_digits 16 hash1 +:+ hex_digits 16 hash2.

(** ** Lemmas *)

(** The low bits of a wrapped [int] are those of the exact value. *)
Lemma i32_bits z k j :
  0 <= k -> 0 <= j -> k + j <= 32 -> Z.land (Z.shiftr (i32 z) k) (2 ^ j - 1) = (z / 2 ^ k) `mod` 2 ^ j.
Proof.
  intros Hk Hj Hkj.
  replace (2 ^ j - 1) with (Z.ones j) by (rewrite Z.ones_equiv; lia).
  rewrite Z.land_ones, Z.shiftr_div_pow2 by lia.
  assert (exists q, i32 z = z + q * 2 ^ 32) as [q ->].
  { exists (- ((z + 2 ^ 31) / 2 ^ 32)). unfold i32. pose proof (Z.div_mod (z + 2 ^ 31) (2 ^ 32)). lia. }
  replace (2 ^ 32) with (2 ^ (32 - k - j) * 2 ^ j * 2 ^ k) by (rewrite <- !Z.pow_add_r by lia; f_equal; lia).
  rewrite Z.mul_assoc, Z.div_add by lia. rewrite Z.mul_assoc, Z.mod_add by lia. done.
Qed.

Lemma i32_low z : i32 z `mod` 2 ^ 24 = z `mod` 2 ^ 24.
Proof.
  pose proof (i32_bits z 0 24 ltac:(lia) ltac:(lia) ltac:(lia)) as H.
  rewrite Z.shiftr_0_r, Z.div_1_r in H. rewrite <- H.
  change (2 ^ 24 - 1) with (Z.ones 24). by rewrite Z.land_ones.
Qed.

Lemma b64_index_char i : 0 <= i < 64 -> b64_index (b64_char i) = i.
Proof.
  intros Hi. assert (Forall (fun i => b64_index (b64_char i) = i) (seqZ 0 64)) as H.
  { vm_compute. repeat constructor. }
  rewrite Forall_forall in H. apply H, elem_of_seqZ. lia.
Qed.

Lemma char_of_code_eq c z : z = char_code c -> char_of z = c.
Proof. intros ->. apply char_of_char_code. Qed.

(** The sextets of up to three bytes. *)
Definition sextet1 (a : Z) : Z := a / 4.
Definition sextet2 (a b : Z) : Z := a `mod` 4 * 16 + b / 16.
Definition sextet3 (b c : Z) : Z := b `mod` 16 * 4 + c / 64.
Definition sextet4 (c : Z) : Z := c `mod` 64.

Ltac div_solve := Z.div_mod_to_equations; lia.

Lemma b64_land63 z k : 0 <= k <= 26 -> Z.land (Z.shiftr (i32 z) k) 63 = (z / 2 ^ k) `mod` 64.
Proof. intros Hk. apply (i32_bits z k 6); lia. Qed.

Lemma b64_land255 z k : 0 <= k <= 24 -> Z.land (Z.shiftr (i32 z) k) 255 = (z / 2 ^ k) `mod` 256.
Proof. intros Hk. apply (i32_bits z k 8); lia. Qed.

Lemma b64_encode_3 a b c s val :
  exists val', b64_encode_loop (String a (String b (String c s))) val (-6)
  = (String (b64_char (sextet1 (char_code a)))
      (String (b64_char (sextet2 (char_code a) (char_code b)))
        (String (b64_char (sextet3 (char_code b) (char_code c)))
          (String (b64_char (sextet4 (char_code c))) (fst (b64_encode_loop s val' (-6)))))),
     snd (b64_encode_loop s val' (-6))).
Proof.
  pose proof (char_code_range a). pose proof (char_code_range b). pose proof (char_code_range c).
  cbn [b64_encode_loop]. rewrite !Z.shiftl_mul_pow2 by lia.
  set (v1 := i32 (val * 2 ^ 8 + char_code a)). set (v2 := i32 (v1 * 2 ^ 8 + char_code b)).
  set (v3 := i32 (v2 * 2 ^ 8 + char_code c)). exists v3. simpl.
  change (-6 + 8 - 6 + 8 - 6 + 8 - 6 - 6) with (-6). change (-6 + 8 - 6 + 8 - 6 + 8 - 6) with 0.
  change (-6 + 8 - 6 + 8 - 6 + 8) with 6. change (-6 + 8 - 6 + 8) with 4. change (-6 + 8) with 2.
  destruct (b64_encode_loop s v3 (-6)) as [out st]. simpl.
  pose proof (i32_low (val * 2 ^ 8 + char_code a)). fold v1 in H2.
  pose proof (i32_low (v1 * 2 ^ 8 + char_code b)). fold v2 in H3.
  f_equal. f_equal; [|f_equal; [|f_equal; [|f_equal]]]; f_equal.
  - unfold v1, sextet1. rewrite b64_land63 by lia. clear. pose proof (char_code_range a). div_solve.
  - unfold v2, sextet2. rewrite b64_land63 by lia. clear H3. clearbody v1. div_solve.
  - unfold v3, sextet3. rewrite b64_land63 by lia. clear H2. clearbody v2. div_solve.
  - unfold v3, sextet4. rewrite b64_land63 by lia. clearbody v2. clear H2 H3. div_solve.
Qed.

Lemma b64_decode_step e s val valb :
  0 <= e < 64 ->
  b64_decode_loop (String (b64_char e) s) val valb
  = let val := i32 (Z.shiftl val 6 + e) in
    let valb := valb + 6 in
    if 0 <=? valb
    then String (char_of (Z.land (Z.shiftr val valb) 255)) (b64_decode_loop s val (valb - 8))
    else b64_decode_loop s val valb.
Proof.
  intros He. cbn [b64_decode_loop]. rewrite b64_index_char by done.
  by rewrite (proj2 (Z.eqb_neq _ _)) by lia.
Qed.

Lemma b64_decode_4 a b c s val :
  0 <= a < 256 -> 0 <= b < 256 -> 0 <= c < 256 ->
  exists val', b64_decode_loop (String (b64_char (sextet1 a)) (String (b64_char (sextet2 a b))
      (String (b64_char (sextet3 b c)) (String (b64_char (sextet4 c)) s)))) val (-8)
  = String (char_of a) (String (char_of b) (String (char_of c) (b64_decode_loop s val' (-8)))).
Proof.
  intros Ha Hb Hc. unfold sextet1, sextet2, sextet3, sextet4.
  rewrite !b64_decode_step by div_solve. cbv zeta. simpl (0 <=? _). cbv iota.
  rewrite !b64_decode_step by div_solve. cbv zeta. simpl (0 <=? _). cbv iota.
  rewrite !b64_decode_step by div_solve. cbv zeta. simpl (0 <=? _). cbv iota.
  rewrite !b64_decode_step by div_solve. cbv zeta. simpl (0 <=? _). cbv iota.
  rewrite !Z.shiftl_mul_pow2 by lia.
  set (v1 := i32 (val * 2 ^ 6 + _)). set (v2 := i32 (v1 * 2 ^ 6 + _)). set (v3 := i32 (v2 * 2 ^ 6 + _)).
  set (v4 := i32 (v3 * 2 ^ 6 + _)). exists v4. simpl.
  pose proof (i32_low (val * 2 ^ 6 + a / 4)) as H1. fold v1 in H1.
  pose proof (i32_low (v1 * 2 ^ 6 + (a `mod` 4 * 16 + b / 16))) as H2. fold v2 in H2.
  pose proof (i32_low (v2 * 2 ^ 6 + (b `mod` 16 * 4 + c / 64))) as H3. fold v3 in H3.
  f_equal; [|f_equal; [|f_equal]]; f_equal.
  - unfold v2. rewrite b64_land255 by lia. clear H2 H3. clearbody v1. div_solve.
  - unfold v3. rewrite b64_land255 by lia. clear H1 H3. clearbody v2. div_solve.
  - unfold v4. rewrite b64_land255 by lia. clear H1 H2. clearbody v3. div_solve.
Qed.

Lemma b64_finish_4 a b c d out st :
  b64_finish (String a (String b (String c (String d out))), st)
  = String a (String b (String c (String d (b64_finish (out, st))))).
Proof.
  unfold b64_finish. destruct st as [val valb].
  assert (forall x, b64_pad (String a (String b (String c (String d x))))
    = String a (String b (String c (String d (b64_pad x))))) as Hpad.
  { intros x. unfold b64_pad. cbn [String.length].
    replace ((S (S (S (S (String.length x))))) mod 4)%nat with (String.length x mod 4)%nat.
    - by destruct (String.length x mod 4)%nat as [|[|[|[|?]]]].
    - change (S (S (S (S (String.length x))))) with (4 + String.length x)%nat.
      rewrite Nat.add_comm. replace (String.length x + 4)%nat with (String.length x + 1 * 4)%nat by lia.
      by rewrite Nat.Div0.mod_add. }
  destruct (-6 <? valb); by rewrite <- Hpad.
Qed.

Lemma b64_roundtrip_1 a val val' :
  b64_decode_loop (b64_finish (b64_encode_loop (String a "") val (-6))) val' (-8) = String a "".
Proof.
  pose proof (char_code_range a) as Ha. set (v1 := i32 (Z.shiftl val 8 + char_code a)).
  transitivity (b64_decode_loop (String (b64_char (Z.land (Z.shiftr v1 2) 63))
    (String (b64_char (Z.land (Z.shiftr (i32 (Z.shiftl v1 8)) 4) 63)) "==")) val' (-8)); [done|].
  subst v1. rewrite !Z.shiftl_mul_pow2 by lia. set (v1 := i32 (val * 2 ^ 8 + char_code a)).
  assert (Z.land (Z.shiftr v1 2) 63 = sextet1 (char_code a)) as ->.
  { unfold v1, sextet1. rewrite b64_land63 by lia. div_solve. }
  assert (Z.land (Z.shiftr (i32 (v1 * 2 ^ 8)) 4) 63 = sextet2 (char_code a) 0) as ->.
  { pose proof (i32_low (val * 2 ^ 8 + char_code a)) as H. fold v1 in H. clearbody v1.
    unfold sextet2. rewrite b64_land63 by lia. div_solve. }
  clear v1. unfold sextet1, sextet2.
  rewrite !b64_decode_step by div_solve. cbv zeta. simpl (0 <=? _). cbv iota.
  rewrite !b64_decode_step by div_solve. cbv zeta. simpl (0 <=? _). cbv iota. cbn [b64_decode_loop].
  change (b64_index "=" =? -1) with true. cbv iota. f_equal. apply char_of_code_eq.
  rewrite !Z.shiftl_mul_pow2 by lia. set (v := i32 (val' * 2 ^ 6 + _)).
  pose proof (i32_low (val' * 2 ^ 6 + char_code a / 4)) as H. fold v in H. clearbody v. simpl.
  rewrite b64_land255 by lia. div_solve.
Qed.

Lemma b64_roundtrip_2 a b val val' :
  b64_decode_loop (b64_finish (b64_encode_loop (String a (String b "")) val (-6))) val' (-8)
  = String a (String b "").
Proof.
  pose proof (char_code_range a) as Ha. pose proof (char_code_range b) as Hb.
  set (v1 := i32 (Z.shiftl val 8 + char_code a)). set (v2 := i32 (Z.shiftl v1 8 + char_code b)).
  transitivity (b64_decode_loop (String (b64_char (Z.land (Z.shiftr v1 2) 63))
    (String (b64_char (Z.land (Z.shiftr v2 4) 63))
    (String (b64_char (Z.land (Z.shiftr (i32 (Z.shiftl v2 8)) 6) 63)) "="))) val' (-8)); [done|].
  subst v2 v1. rewrite !Z.shiftl_mul_pow2 by lia. set (v1 := i32 (val * 2 ^ 8 + char_code a)).
  set (v2 := i32 (v1 * 2 ^ 8 + char_code b)).
  assert (Z.land (Z.shiftr v1 2) 63 = sextet1 (char_code a)) as ->.
  { unfold v1, sextet1. rewrite b64_land63 by lia. div_solve. }
  assert (Z.land (Z.shiftr v2 4) 63 = sextet2 (char_code a) (char_code b)) as ->.
  { pose proof (i32_low (val * 2 ^ 8 + char_code a)) as H. fold v1 in H. unfold v2. clearbody v1.
    unfold sextet2. rewrite b64_land63 by lia. div_solve. }
  assert (Z.land (Z.shiftr (i32 (v2 * 2 ^ 8)) 6) 63 = sextet3 (char_code b) 0) as ->.
  { pose proof (i32_low (v1 * 2 ^ 8 + char_code b)) as H. fold v2 in H. clearbody v2.
    unfold sextet3. rewrite b64_land63 by lia. div_solve. }
  clear v1 v2. unfold sextet1, sextet2, sextet3.
  rewrite !b64_decode_step by div_solve. cbv zeta. simpl (0 <=? _). cbv iota.
  rewrite !b64_decode_step by div_solve. cbv zeta. simpl (0 <=? _). cbv iota.
  rewrite !b64_decode_step by div_solve. cbv zeta. simpl (0 <=? _). cbv iota. cbn [b64_decode_loop].
  change (b64_index "=" =? -1) with true. cbv iota.
  rewrite !Z.shiftl_mul_pow2 by lia. set (v := i32 (val' * 2 ^ 6 + _)). set (w := i32 (v * 2 ^ 6 + _)).
  pose proof (i32_low (val' * 2 ^ 6 + char_code a / 4)) as H. fold v in H.
  pose proof (i32_low (v * 2 ^ 6 + (char_code a `mod` 4 * 16 + char_code b / 16))) as H'. fold w in H'.
  simpl. f_equal; [|f_equal]; apply char_of_code_eq.
  - unfold w. rewrite b64_land255 by lia. clear H'. clearbody v. div_solve.
  - rewrite b64_land255 by lia. clear H. clearbody w. div_solve.
Qed.

Lemma b64_roundtrip_aux n s val val' :
  (String.length s <= n)%nat ->
  b64_decode_loop (b64_finish (b64_encode_loop s val (-6))) val' (-8) = s.
Proof.
  revert s val val'. induction n as [n IH] using lt_wf_ind. intros s val val' Hn.
  destruct s as [|a [|b [|c s]]].
  - done.
  - apply b64_roundtrip_1.
  - apply b64_roundtrip_2.
  - destruct (b64_encode_3 a b c s val) as [v ->]. rewrite b64_finish_4.
    destruct (b64_decode_4 (char_code a) (char_code b) (char_code c)
      (b64_finish (fst (b64_encode_loop s v (-6)), snd (b64_encode_loop s v (-6)))) val') as [v' ->];
      [apply char_code_range..|].
    rewrite !char_of_char_code, <- surjective_pairing. do 3 f_equal.
    simpl in Hn. apply (IH (String.length s)); lia.
Qed.

Lemma str_length_app s t : String.length (s +:+ t) = (String.length s + String.length t)%nat.
Proof. induction s as [|c s IH]; simpl; [done|]. by rewrite IH. Qed.

Lemma substring_all s : String.substring 0 (String.length s) s = s.
Proof. induction s as [|c s IH]; simpl; [done|]. by rewrite IH. Qed.

Lemma substring_prefix s t : String.substring 0 (String.length s) (s +:+ t) = s.
Proof. induction s as [|c s IH]; simpl; [by destruct t|]. by rewrite IH. Qed.

Lemma substring_suffix s t : String.substring (String.length s) (String.length t) (s +:+ t) = t.
Proof. induction s as [|c s IH]; simpl; [apply substring_all|done]. Qed.

Lemma generateRandomHexString_length g n : String.length (generateRandomHexString g n) = n.
Proof. revert g. induction n as [|n IH]; intros g; simpl; [done|]. destruct (golden_next g). simpl. by rewrite IH. Qed.

Lemma generateChecksumString_length s n : String.length (generateChecksumString s n) = n.
Proof.
  unfold generateChecksumString. generalize (checksum_sum s 0). induction n as [|n IH]; intros c; simpl; [done|].
  by rewrite IH.
Qed.

Lemma simple128Combine_swap h x y :
  simple128CombineHelper (simple128CombineHelper h x) y
  = simple128CombineHelper (simple128CombineHelper h y) x.
Proof. unfold simple128CombineHelper. rewrite !Z.lxor_assoc. f_equal. apply Z.lxor_comm. Qed.

Lemma simple128Combine_twice h x : simple128CombineHelper (simple128CombineHelper h x) x = h.
Proof. unfold simple128CombineHelper. by rewrite Z.lxor_assoc, Z.lxor_nilpotent, Z.lxor_0_r. Qed.

Lemma simple128_loop_perm l k h1 h2 :
  l ≡ₚ k ->
  simple128_loop (String.string_of_list_ascii l) h1 h2
  = simple128_loop (String.string_of_list_ascii k) h1 h2.
Proof.
  intros Hp. revert h1 h2. induction Hp as [|c l k _ IH|c d l|l k m _ IH1 _ IH2]; intros h1 h2; simpl.
  - done.
  - apply IH.
  - by rewrite (simple128Combine_swap h1), (simple128Combine_swap h2).
  - by rewrite IH1.
Qed.

(** ** Properties *)

(** Decoding an encoded name gives the name back, for every string (also with newlines and
    other special characters, which is why tree files can be base64 encoded). *)
Lemma base64_roundtrip s : Base64_decode (Base64_encode s) = s.
Proof. unfold Base64_decode, Base64_encode. by apply (b64_roundtrip_aux (String.length s)). Qed.

(** The password hash that authorizes requests to a service does not depend on the order of
    the characters, and a character that is added twice at the front has no effect: every
    permutation of the password and infinitely many longer ones are accepted as well. *)
Lemma simple128_collisions s t c :
  String.list_ascii_of_string s ≡ₚ String.list_ascii_of_string t ->
  simple128 s = simple128 t /\ simple128 (String c (String c s)) = simple128 s.
Proof.
  intros Hp. unfold simple128. split.
  - rewrite <- (String.string_of_list_ascii_of_string s), <- (String.string_of_list_ascii_of_string t).
    by rewrite (simple128_loop_perm _ _ _ _ Hp).
  - simpl. by rewrite !simple128Combine_twice.
Qed.

Lemma simple128_collisions_witness :
  simple128 "secret" = simple128 "terces" /\ simple128 "xxsecret" = simple128 "secret".
Proof.
  apply (simple128_collisions "secret" "terces" "x").
  exact (Permutation_rev (String.list_ascii_of_string "secret")).
Defined.

(** A tag value that was generated for an object verifies for that object, whatever the
    random characters are, and generating fails exactly when there is no room for a random
    character. *)
Lemma s3_tag_verifies randGen objectName strLen checksumLen :
  match generateRandomS3TagValue randGen objectName strLen checksumLen with
  | Ok tag => String.length tag = strLen /\ verifyRandomS3TagValue tag objectName checksumLen = true
  | Throw _ => (strLen <= checksumLen)%nat
  end.
Proof.
  unfold generateRandomS3TagValue. destruct (Nat.leb_spec strLen checksumLen) as [?|Hlt]; [done|].
  set (r := generateRandomHexString randGen (strLen - checksumLen)).
  set (cs := generateChecksumString (objectName +:+ r) checksumLen).
  assert (String.length r = (strLen - checksumLen)%nat) as Hr by apply generateRandomHexString_length.
  assert (String.length cs = checksumLen) as Hc by apply generateChecksumString_length.
  unfold verifyRandomS3TagValue. rewrite str_length_app, Hr, Hc. split; [lia|].
  rewrite (proj2 (Nat.leb_gt _ _)) by lia. rewrite Nat.add_sub, <- Hr, substring_prefix.
  rewrite <- Hc at 2. rewrite substring_suffix. apply String.eqb_refl.
Qed.
