(* ===== verification/PathStore.v ===== *)
(** The lists of directories and files of the custom tree mode: PathStore.{h,cpp}.

    A tree file is given by its lines, or [None] when it cannot be opened.  The sublists that the
    workers take of the global store are the heart of the file: whole paths, ranges of blocks,
    or single blocks round-robin. *)

From S2P Require Import Prelude CppStrings StringTk.

From Stdlib Require Import Sorted.

#[local] Open Scope list_scope.

(** ** Definitions *)

Record PathStoreElem : Type := mkElem {
  path : string;
  totalLen : Z;
  rangeStart : Z;
  rangeLen : Z;
}.

Record PathStore : Type := mkStore {
  blockSize : Z;
  numBlocksTotal : Z;
  numBytesTotal : Z;
  numPaths : Z;
  paths : list PathStoreElem;
}.

Definition PathStore_empty : PathStore := mkStore 0 0 0 0 [].

Definition setBlockSize (bs : Z) (st : PathStore) : result PathStore :=
  match paths st with
  | [] => Ok (mkStore bs (numBlocksTotal st) (numBytesTotal st) (numPaths st) [])
  | _ => Throw (ProgException "PathStore block size setter called on non-empty store.")
  end.

Definition PathStore_clear (_ : PathStore) : PathStore := PathStore_empty.

(** *** Reading lines *)

(** [lineStream >> str]: skip white space, take the characters up to the next white space. *)
Fixpoint take_token (s : string) : string * string :=
  match s with
  | "" => ("", "")
  | String c s' =>
      if isspace c then ("", s)
      else let '(t, rest) := take_token s' in (String c t, rest)
  end.

Definition stream_token (s : string) : string * string := take_token (skip_spaces s).

(** The digits at the front of a string and what follows them. *)
Fixpoint take_digits (s : string) : string * string :=
  match s with
  | "" => ("", "")
  | String c s' =>
      if isdigit c then let '(t, rest) := take_digits s' in (String c t, rest) else ("", s)
  end.

(** [lineStream >> u64]: [None] when there is no number or it does not fit.  As with [strtoull],
    a minus sign negates modulo 2^64. *)
Definition stream_u64 (s : string) : option (Z * string) :=
  let '(neg, s) := scan_sign s in
  let '(digits, rest) := take_digits s in
  if String.eqb digits "" then None
  else
    let v := fst (scan_digits digits 0 false) in
    if TWO64 <=? v then None
    else Some (if neg then u64 (- v) else v, rest).

(** [boost::trim]. *)
Fixpoint trim_right (s : string) : string :=
  match s with
  | "" => ""
  | String c s =>
      let t := trim_right s in
      if String.eqb t "" && isspace c then "" else String c t
  end.

Definition trim (s : string) : string := trim_right (skip_spaces s).

Definition TREEFILE_BASE64ENCODING_HEADER : string := "# encoding=base64".

Fixpoint base64_header_scan (lines : list string) : bool :=
  match lines with
  | [] => false
  | line :: lines =>
      if String.eqb line TREEFILE_BASE64ENCODING_HEADER then true
      else match line with
           | String c _ => if negb (Ascii.eqb c "#") then false else base64_header_scan lines
           | "" => base64_header_scan lines
           end
  end.

Definition treefile : Type := option (list string).

Definition checkBase64Encoding (file : treefile) : result bool :=
  match file with
  | None => Throw (ProgException "Opening input file failed")
  | Some lines => Ok (base64_header_scan lines)
  end.

Definition line_path (isBase64 : bool) (rest : string) : string :=
  let p := trim rest in if isBase64 then Base64_decode p else p.

Fixpoint load_dir_lines (isBase64 : bool) (lines : list string) (st : PathStore) : result PathStore :=
  match lines with
  | [] => Ok st
  | line :: lines =>
      let '(prefix, rest) := stream_token line in
      if negb (String.eqb prefix "d") then load_dir_lines isBase64 lines st
      else
        let p := line_path isBase64 rest in
        if String.eqb p ""
        then Throw (ProgException "Encountered invalid directory line without path in input file.")
        else load_dir_lines isBase64 lines
               (mkStore (blockSize st) (numBlocksTotal st) (numBytesTotal st) (numPaths st +₆₄ 1)
                  (paths st ++ [mkElem p 0 0 0]))
  end.

Definition loadDirsFromFile (file : treefile) (st : PathStore) : result PathStore :=
  isBase64 ← checkBase64Encoding file;
  match file with
  | None => Throw (ProgException "Opening input file failed")
  | Some lines => load_dir_lines isBase64 lines st
  end.

(** [(fileSize / blockSize) + ( (fileSize % blockSize) ? 1 : 0)]. *)
Definition num_blocks (fileSize bs : Z) : Z :=
  fileSize / bs +₆₄ (if truthy (fileSize `mod` bs) then 1 else 0).

(** The size of the file after the optional rounding. *)
Definition round_up (len roundUpSize : Z) : Z :=
  if truthy roundUpSize && truthy (len `mod` roundUpSize)
  then (len -₆₄ (len `mod` roundUpSize)) +₆₄ roundUpSize else len.

Fixpoint load_file_lines (isBase64 : bool) (minFileSize maxFileSize roundUpSize : Z)
    (lines : list string) (st : PathStore) : result PathStore :=
  match lines with
  | [] => Ok st
  | line :: lines =>
      let '(prefix, rest) := stream_token line in
      if negb (String.eqb prefix "f")
      then load_file_lines isBase64 minFileSize maxFileSize roundUpSize lines st
      else
        match stream_u64 rest with
        | None => Throw (ProgException "Encountered invalid file line without size in input file.")
        | Some (len, rest) =>
            let fileSize := round_up len roundUpSize in
            if (fileSize <? minFileSize) || (maxFileSize <? fileSize)
            then load_file_lines isBase64 minFileSize maxFileSize roundUpSize lines st
            else
              let numFileBlocks := num_blocks fileSize (blockSize st) in
              let p := line_path isBase64 rest in
              if String.eqb p ""
              then Throw (ProgException "Encountered invalid file line without path in input file.")
              else load_file_lines isBase64 minFileSize maxFileSize roundUpSize lines
                     (mkStore (blockSize st) (numBlocksTotal st +₆₄ numFileBlocks)
                        (numBytesTotal st +₆₄ fileSize) (numPaths st +₆₄ 1)
                        (paths st ++ [mkElem p fileSize 0 fileSize]))
        end
  end.

Definition loadFilesFromFile (file : treefile) (minFileSize maxFileSize roundUpSize : Z)
    (st : PathStore) : result PathStore :=
  isBase64 ← checkBase64Encoding file;
  match file with
  | None => Throw (ProgException "Opening input file failed")
  | Some lines => load_file_lines isBase64 minFileSize maxFileSize roundUpSize lines st
  end.

(** The line without its line end. *)
Definition generateFileLine (filePath : string) (fileSize : Z) : string :=
  "f" +:+ " " +:+ to_string fileSize +:+ " " +:+ filePath.

(** *** Sorting and shuffling *)

(** [a.path < b.path]: lexicographic by unsigned character. *)
Fixpoint str_lt (s t : string) : bool :=
  match s, t with
  | _, "" => false
  | "", String _ _ => true
  | String c s, String d t =>
      (char_code c <? char_code d) || ((char_code c =? char_code d) && str_lt s t)
  end.

Definition path_len_lt (a b : PathStoreElem) : bool :=
  (String.length (path a) <? String.length (path b))%nat
  || ((String.length (path a) =? String.length (path b))%nat && str_lt (path a) (path b)).

Definition file_size_lt (a b : PathStoreElem) : bool :=
  (totalLen a <? totalLen b) || ((totalLen a =? totalLen b) && str_lt (path a) (path b)).

(** [std::list::sort] is stable: an element goes in front of the first one that is not smaller. *)
Fixpoint sort_insert (lt : PathStoreElem -> PathStoreElem -> bool) (x : PathStoreElem)
    (l : list PathStoreElem) : list PathStoreElem :=
  match l with
  | [] => [x]
  | y :: l => if lt y x then y :: sort_insert lt x l else x :: y :: l
  end.

Definition list_sort (lt : PathStoreElem -> PathStoreElem -> bool) (l : list PathStoreElem)
    : list PathStoreElem := foldr (sort_insert lt) [] l.

Definition with_paths (st : PathStore) (l : list PathStoreElem) : PathStore :=
  mkStore (blockSize st) (numBlocksTotal st) (numBytesTotal st) (numPaths st) l.

Definition sortByPathLen (st : PathStore) : PathStore := with_paths st (list_sort path_len_lt (paths st)).
Definition sortByFileSize (st : PathStore) : PathStore := with_paths st (list_sort file_size_lt (paths st)).

(** *** Sublists of the workers *)

(** [outPathStore.paths.push_back(elem)] with the counters. *)
Definition store_add (out : PathStore) (elem : PathStoreElem) (blocks bytes : Z) : PathStore :=
  mkStore (blockSize out) (numBlocksTotal out +₆₄ blocks) (numBytesTotal out +₆₄ bytes)
    (numPaths out +₆₄ 1) (paths out ++ [elem]).

(** [while(true)] of [getWorkerSublistNonShared()]: every n-th element from [currentIdx] on. *)
Fixpoint nonshared_loop (fuel : nat) (st : PathStore) (numDataSetThreads : Z) (doThrow : bool)
    (currentIdx : Z) (out : PathStore) : option (result PathStore) :=
  match fuel with
  | O => None
  | S fuel =>
      elem ← paths st !! Z.to_nat currentIdx;
      let fileSize := totalLen elem in
      let numFileBlocks := if truthy (blockSize st) then num_blocks fileSize (blockSize st) else 0 in
      if doThrow && (fileSize <? blockSize st)
      then Some (Throw (ProgException "Found file that is smaller than block size."))
      else
        let out := store_add out elem numFileBlocks fileSize in
        if numPaths st <=? currentIdx +₆₄ numDataSetThreads then Some (Ok out)
        else nonshared_loop fuel st numDataSetThreads doThrow (currentIdx +₆₄ numDataSetThreads) out
  end.

Definition getWorkerSublistNonShared (st : PathStore) (workerRank numDataSetThreads : Z)
    (doThrow : bool) (out : PathStore) : option (result PathStore) :=
  if numPaths st <=? workerRank then Some (Ok out)
  else nonshared_loop (S (length (paths st))) st numDataSetThreads doThrow workerRank out.

(** The number of blocks and the first block of a worker in [getWorkerSublistShared()]. *)
Definition worker_num_blocks (total workerRank numThreads : Z) : Z :=
  let standard := total / numThreads in
  if (workerRank =? u32 (numThreads - 1)) && truthy (total `mod` numThreads)
  then total -₆₄ (standard *₆₄ u32 (numThreads - 1)) else standard.

Definition worker_start_block (total workerRank numThreads : Z) : Z :=
  workerRank *₆₄ (total / numThreads).

(** The loop over the paths of [getWorkerSublistShared()]. *)
Fixpoint shared_loop (bs startBlock endBlock : Z) (doThrow : bool) (l : list PathStoreElem)
    (currentBlockIdx numBlocksLeft : Z) (out : PathStore) : result PathStore :=
  match l with
  | [] => Ok out
  | p :: l =>
      if negb (currentBlockIdx <? endBlock) then Ok out
      else
        let fileSize := totalLen p in
        let numFileBlocks := num_blocks fileSize bs in
        let firstFileBlock := currentBlockIdx in
        let lastFileBlock := (firstFileBlock +₆₄ numFileBlocks) -₆₄ 1 in
        if totalLen p =? 0 then Throw (ProgException "Found path with 0 length.")
        else if lastFileBlock <? startBlock
        then shared_loop bs startBlock endBlock doThrow l (currentBlockIdx +₆₄ numFileBlocks)
               numBlocksLeft out
        else
          let '(rStart, remainingFileBlocks) :=
            if startBlock <=? firstFileBlock then (0, numFileBlocks)
            else
              let innerFileBlockOffset := startBlock -₆₄ firstFileBlock in
              (innerFileBlockOffset *₆₄ bs, numFileBlocks -₆₄ innerFileBlockOffset) in
          let '(rLen, numBlocksLeft) :=
            if numBlocksLeft <? remainingFileBlocks then (numBlocksLeft *₆₄ bs, 0)
            else (fileSize -₆₄ rStart, numBlocksLeft -₆₄ remainingFileBlocks) in
          if doThrow && (rLen <? bs)
          then Throw (ProgException "Found file slice that is smaller than block size.")
          else
            shared_loop bs startBlock endBlock doThrow l (currentBlockIdx +₆₄ numFileBlocks)
              numBlocksLeft (store_add out (mkElem (path p) (totalLen p) rStart rLen) 0 rLen)
  end.

Definition getWorkerSublistShared (st : PathStore) (workerRank numThreads : Z) (doThrow : bool)
    (out : PathStore) : result PathStore :=
  match paths st with
  | [] => Ok out
  | _ =>
      let thisWorkerNumBlocks := worker_num_blocks (numBlocksTotal st) workerRank numThreads in
      let startBlock := worker_start_block (numBlocksTotal st) workerRank numThreads in
      let endBlock := startBlock +₆₄ thisWorkerNumBlocks in
      if thisWorkerNumBlocks =? 0 then Ok out
      else
        out ← shared_loop (blockSize st) startBlock endBlock doThrow (paths st) 0
                thisWorkerNumBlocks out;
        Ok (mkStore (blockSize out) (numBlocksTotal out +₆₄ thisWorkerNumBlocks)
              (numBytesTotal out) (numPaths out) (paths out))
  end.

(** The inner loop of [getWorkerSublistSharedRoundRobin()] over the blocks of one path. *)
Fixpoint rr_blocks (fuel : nat) (bs workerRank numThreads : Z) (doThrow : bool) (p : PathStoreElem)
    (offset currentBlockIdx : Z) (out : PathStore) : option (result (PathStore * Z)) :=
  if negb (offset <? totalLen p) then Some (Ok (out, currentBlockIdx))
  else
    match fuel with
    | O => None
    | S fuel =>
        let next := rr_blocks fuel bs workerRank numThreads doThrow p (offset +₆₄ bs)
                      (currentBlockIdx +₆₄ 1) in
        if workerRank =? currentBlockIdx `mod` numThreads then
          let fileSizeLeft := totalLen p -₆₄ offset in
          if doThrow && (fileSizeLeft <? bs)
          then Some (Throw (ProgException "Found file slice that is smaller than block size."))
          else
            let len := if fileSizeLeft <? bs then fileSizeLeft else bs in
            next (store_add out (mkElem (path p) (totalLen p) offset len) 1 len)
        else next out
    end.

Fixpoint rr_paths (bs workerRank numThreads : Z) (doThrow : bool) (l : list PathStoreElem)
    (currentBlockIdx : Z) (out : PathStore) : option (result PathStore) :=
  match l with
  | [] => Some (Ok out)
  | p :: l =>
      if totalLen p =? 0 then Some (Throw (ProgException "Found path with 0 length."))
      else
        match rr_blocks (Z.to_nat (totalLen p)) bs workerRank numThreads doThrow p 0 currentBlockIdx out with
        | None => None
        | Some (Throw e) => Some (Throw e)
        | Some (Ok (out, idx)) => rr_paths bs workerRank numThreads doThrow l idx out
        end
  end.

Definition getWorkerSublistSharedRoundRobin (st : PathStore) (workerRank numThreads : Z)
    (doThrow : bool) (out : PathStore) : option (result PathStore) :=
  match paths st with
  | [] => Some (Ok out)
  | _ => rr_paths (blockSize st) workerRank numThreads doThrow (paths st) 0 out
  end.

(** [randomShuffle()]; [shuffle] is [std::shuffle] with its random engine. *)
Definition randomShuffle (shuffle : list PathStoreElem -> list PathStoreElem) (st : PathStore)
    : PathStore :=
  let n := Z.to_nat (numPaths st) in
  mkStore (blockSize st) (numBlocksTotal st) (numBytesTotal st) (numPaths st)
    (shuffle (take n (paths st)) ++ drop n (paths st)).

(** ** Specification *)

(** The blocks of the range of a path: path, offset and length. *)
Definition elem_blocks (bs : Z) (p : PathStoreElem) : list (string * Z * Z) :=
  (fun '(o, n) => (path p, o, n)) <$> tile (rangeStart p) (rangeLen p) bs.

Definition store_blocks (bs : Z) (l : list PathStoreElem) : list (string * Z * Z) :=
  concat (elem_blocks bs <$> l).

(** An element of a global store: its range is the whole file. *)
Definition whole_file (p : PathStoreElem) : Prop :=
  0 < totalLen p /\ rangeStart p = 0 /\ rangeLen p = totalLen p.

(** The global store of files that can be shared. *)
Definition shareable (st : PathStore) : Prop :=
  0 < blockSize st < TWO64 /\ Forall whole_file (paths st)
  /\ Zsum (totalLen <$> paths st) < TWO64
  /\ numPaths st = Z.of_nat (length (paths st))
  /\ numBlocksTotal st = Z.of_nat (length (store_blocks (blockSize st) (paths st))).

(** The counters of a sublist match its contents. *)
Definition out_counts (out : PathStore) : Prop :=
  numPaths out = u64 (Z.of_nat (length (paths out)))
  /\ numBytesTotal out = u64 (Zsum (rangeLen <$> paths out)).

(** ** Lemmas *)

Lemma num_blocks_tile fileSize bs :
  0 < bs -> 0 <= fileSize < TWO64 -> num_blocks fileSize bs = tile_count fileSize bs.
Proof.
  intros Hbs Hf. unfold num_blocks, truthy, tile_count.
  pose proof (Z.div_mod fileSize bs ltac:(lia)). pose proof (Z.mod_pos_bound fileSize bs Hbs).
  assert (0 <= fileSize / bs <= fileSize) by (split; [apply Z.div_pos; lia|apply Z.div_le_upper_bound; nia]).
  destruct (Z.eqb_spec (fileSize `mod` bs) 0) as [Hm|Hm]; simpl.
  - rewrite u64_small by lia. rewrite Z.add_0_r. apply Z.div_unique with (bs - 1); lia.
  - assert (fileSize / bs < fileSize \/ bs = 1) as [?| ->]; [|rewrite u64_small|rewrite Z.mod_1_r in Hm; lia].
    + destruct (decide (bs = 1)); [by right|left]. apply Z.div_lt; lia.
    + apply Z.div_unique with (fileSize `mod` bs - 1); lia.
    + lia.
Qed.

Lemma elem_blocks_length bs p :
  0 < bs -> 0 <= rangeLen p -> Z.of_nat (length (elem_blocks bs p)) = tile_count (rangeLen p) bs.
Proof.
  intros Hbs Hl. unfold elem_blocks, tile. rewrite !length_fmap, length_seqZ.
  destruct (tile_count_spec (rangeLen p) bs Hbs Hl). lia.
Qed.

Lemma elem_blocks_suffix bs p k :
  0 < bs -> whole_file p -> 0 <= k <= tile_count (totalLen p) bs -> k * bs <= totalLen p ->
  elem_blocks bs (mkElem (path p) (totalLen p) (k * bs) (totalLen p - k * bs))
  = drop (Z.to_nat k) (elem_blocks bs p).
Proof.
  intros Hbs (Ht & Hs & Hl) Hk Hkb. unfold elem_blocks, tile. rewrite Hs, Hl. cbn [path rangeStart rangeLen].
  rewrite <- !fmap_drop, seqZ_drop by lia. rewrite <- !list_fmap_compose.
  assert (tile_count (totalLen p - k * bs) bs = tile_count (totalLen p) bs - k) as ->.
  { unfold tile_count. replace (totalLen p - k * bs + bs - 1) with (totalLen p + bs - 1 + (- k) * bs) by lia.
    rewrite Z.div_add by lia. lia. }
  replace (seqZ (0 + k) (tile_count (totalLen p) bs - k))
    with (Z.add k <$> seqZ 0 (tile_count (totalLen p) bs - k)) by (rewrite fmap_add_seqZ; f_equal; lia).
  rewrite <- list_fmap_compose. apply list_fmap_ext. intros i x _. simpl. do 2 f_equal; lia.
Qed.

Lemma elem_blocks_prefix bs p k m :
  0 < bs -> whole_file p -> 0 <= k -> 0 <= m -> k + m < tile_count (totalLen p) bs ->
  elem_blocks bs (mkElem (path p) (totalLen p) (k * bs) (m * bs))
  = take (Z.to_nat m) (drop (Z.to_nat k) (elem_blocks bs p)).
Proof.
  intros Hbs Hp Hk Hm Hkm. pose proof Hp as (Ht & Hs & Hl).
  destruct (tile_count_spec (totalLen p) bs Hbs) as (_ & _ & Hc); [lia|].
  assert ((k + m) * bs <= totalLen p) as Hb by nia. assert (0 <= m * bs) by nia.
  rewrite <- elem_blocks_suffix by (done || lia). unfold elem_blocks, tile. cbn [path rangeStart rangeLen].
  rewrite <- !fmap_take, seqZ_take. 2: {
    destruct (tile_count_spec (totalLen p - k * bs) bs Hbs) as (_ & Hc1 & _); [lia|]. nia. }
  replace (tile_count (m * bs) bs) with m by (by rewrite Z.mul_comm, tile_count_exact).
  rewrite <- !list_fmap_compose. apply list_fmap_ext. intros i x Hx. apply lookup_seqZ in Hx as [-> Hi].
  assert ((Z.of_nat i + 1) * bs <= m * bs) by nia. simpl. unfold tile_block. f_equal. lia.
Qed.

Lemma store_blocks_cons bs p l : store_blocks bs (p :: l) = elem_blocks bs p ++ store_blocks bs l.
Proof. done. Qed.

Lemma store_blocks_app bs l k : store_blocks bs (l ++ k) = store_blocks bs l ++ store_blocks bs k.
Proof. unfold store_blocks. by rewrite fmap_app, concat_app. Qed.

Lemma out_counts_add out elem blocks :
  out_counts out -> out_counts (store_add out elem blocks (rangeLen elem)).
Proof.
  intros [H1 H2]. unfold out_counts, store_add. simpl. rewrite H1, H2, length_app, fmap_app, Zsum_app.
  autorewrite with machine. assert (Zsum (rangeLen <$> [elem]) = rangeLen elem) as -> by (cbn; lia).
  split; [f_equal; simpl; lia|done].
Qed.

(** The outcome of the loop: [out] extended by slices that consist of the blocks [blocks]. *)
Definition shared_result (bs : Z) (blocks : list (string * Z * Z)) (out : PathStore) (r : result PathStore) : Prop :=
  exists sl out', r = Ok out' /\ paths out' = paths out ++ sl /\ store_blocks bs sl = blocks
    /\ out_counts out' /\ numBlocksTotal out' = numBlocksTotal out /\ blockSize out' = blockSize out
    /\ Forall (fun p => 0 < rangeLen p /\ 0 <= rangeStart p /\ rangeStart p + rangeLen p <= totalLen p) sl.

Lemma shared_result_nil bs out : out_counts out -> shared_result bs [] out (Ok out).
Proof. intros Hout. exists [], out. rewrite app_nil_r. by split_and!. Qed.

Lemma shared_result_add bs blocks out elem r :
  shared_result bs blocks (store_add out elem 0 (rangeLen elem)) r -> 0 <= numBlocksTotal out < TWO64 ->
  0 < rangeLen elem -> 0 <= rangeStart elem -> rangeStart elem + rangeLen elem <= totalLen elem ->
  shared_result bs (elem_blocks bs elem ++ blocks) out r.
Proof.
  intros (sl & out' & -> & Hpaths & Hblk & Hoc & Hnb & Hbs & Hall) Hn H1 H2 H3. exists (elem :: sl), out'.
  split; [done|]. split; [rewrite Hpaths; simpl; by rewrite <- app_assoc|]. rewrite store_blocks_cons, Hblk.
  simpl in Hnb, Hbs. rewrite Z.add_0_r, u64_small in Hnb by done. split_and!; try done. by constructor.
Qed.

(** Where a worker starts inside a file of [n] blocks. *)
Lemma shared_inner_start bs startBlock cur n :
  0 < bs -> 0 <= cur -> 0 <= startBlock -> startBlock - cur < n -> n * bs < TWO64 + bs -> n < TWO64 ->
  (if startBlock <=? cur then (0, n) else ((startBlock -₆₄ cur) *₆₄ bs, n -₆₄ (startBlock -₆₄ cur)))
  = (Z.max 0 (startBlock - cur) * bs, n - Z.max 0 (startBlock - cur)).
Proof.
  intros. destruct (Z.leb_spec startBlock cur).
  - rewrite Z.max_l by lia. f_equal; lia.
  - rewrite Z.max_r by lia. rewrite (u64_small (startBlock - cur)) by lia.
    assert ((startBlock - cur) * bs <= (n - 1) * bs) by (apply Z.mul_le_mono_nonneg_r; lia).
    assert (0 <= (startBlock - cur) * bs) by (apply Z.mul_nonneg_nonneg; lia). u64_elim. done.
Qed.

(** What one worker takes from the remaining paths [l], whose first block has index [cur]. *)
Lemma shared_loop_spec bs startBlock endBlock l cur left out :
  0 < bs < TWO64 -> Forall whole_file l -> Zsum (totalLen <$> l) < TWO64 ->
  0 <= cur -> cur + Z.of_nat (length (store_blocks bs l)) < TWO64 ->
  0 <= startBlock < endBlock -> endBlock <= cur + Z.of_nat (length (store_blocks bs l)) \/ endBlock <= cur ->
  left = Z.max 0 (endBlock - Z.max cur startBlock) -> out_counts out ->
  0 <= numBlocksTotal out < TWO64 ->
  shared_result bs (take (Z.to_nat left) (drop (Z.to_nat (startBlock - cur)) (store_blocks bs l))) out
    (shared_loop bs startBlock endBlock false l cur left out).
Proof.
  intros Hbs. revert cur left out. induction l as [|p l IH]; intros cur left out Hl Hsum Hcur Hb Hse He Hleft Hout Hnb.
  { unfold store_blocks. simpl. rewrite drop_nil, take_nil. by apply shared_result_nil. }
  apply Forall_cons in Hl as [Hp Hl]. pose proof Hp as (Ht & Hs & Hrl).
  rewrite fmap_cons, Zsum_cons in Hsum.
  assert (0 <= Zsum (totalLen <$> l)) as Hsl.
  { apply Zsum_nonneg, Forall_fmap. eapply Forall_impl; [exact Hl|]. intros q (? & _). simpl. lia. }
  assert (Z.of_nat (length (elem_blocks bs p)) = tile_count (totalLen p) bs) as Hlen
    by (rewrite elem_blocks_length; [by rewrite Hrl|lia..]).
  rewrite store_blocks_cons, length_app, Nat2Z.inj_add, Hlen in Hb, He.
  destruct (tile_count_spec (totalLen p) bs) as (Htc & Htc1 & Htc2); [lia..|].
  assert (0 < tile_count (totalLen p) bs) as Htc0 by (clear - Ht Htc1 Hbs; nia).
  cbn [shared_loop]. destruct (Z.ltb_spec cur endBlock) as [Hce|Hce]; cbn [negb].
  2: { replace (Z.to_nat left) with O by lia. by apply shared_result_nil. }
  rewrite num_blocks_tile by lia. set (nfb := tile_count (totalLen p) bs) in *.
  rewrite (proj2 (Z.eqb_neq (totalLen p) 0)) by lia.
  rewrite (u64_small (cur + nfb)), (u64_small (cur + nfb - 1)) by lia. rewrite store_blocks_cons.
  destruct (Z.ltb_spec (cur + nfb - 1) startBlock) as [Hbefore|Hin].
  { rewrite drop_app_ge by lia. replace (_ - length _)%nat with (Z.to_nat (startBlock - (cur + nfb))) by lia.
    apply IH; try (done || lia). }
  rewrite shared_inner_start by lia. remember (Z.max 0 (startBlock - cur)) as inner eqn:Hinner.
  assert (inner * bs <= (nfb - 1) * bs) as Hib by (apply Z.mul_le_mono_nonneg_r; lia).
  assert (0 <= inner * bs) by (apply Z.mul_nonneg_nonneg; lia).
  replace (Z.to_nat (startBlock - cur)) with (Z.to_nat inner) by lia.
  cbn [andb]. destruct (Z.ltb_spec left (nfb - inner)) as [Hlast|Hfull].
  - assert (0 < left * bs) by (apply Z.mul_pos_pos; lia).
    assert ((inner + left) * bs <= (nfb - 1) * bs) as Hbnd by (apply Z.mul_le_mono_nonneg_r; lia).
    rewrite (u64_small (left * bs)) by lia. rewrite drop_app_le, take_app_le by (rewrite ?length_drop; lia).
    rewrite <- (elem_blocks_prefix bs p inner left) by (done || lia). rewrite <- (app_nil_r (elem_blocks _ _)).
    apply shared_result_add; cbn [rangeLen rangeStart totalLen]; try lia.
    apply (IH (cur + nfb) 0); try (done || lia); [by apply out_counts_add|simpl; apply u64_range].
  - rewrite (u64_small (totalLen p - inner * bs)), (u64_small (left - _)) by lia.
    rewrite drop_app_le, take_app_ge by (rewrite ?length_drop; lia). rewrite <- elem_blocks_suffix by (done || lia).
    apply shared_result_add; cbn [rangeLen rangeStart totalLen]; try lia.
    rewrite elem_blocks_suffix, length_drop by (done || lia). replace (_ - _)%nat with (Z.to_nat (left - (nfb - inner))) by lia.
    pose proof (IH (cur + nfb) (left - (nfb - inner))
      (store_add out (mkElem (path p) (totalLen p) (inner * bs) (totalLen p - inner * bs)) 0 (totalLen p - inner * bs))) as HI.
    replace (Z.to_nat (startBlock - (cur + nfb))) with O in HI by lia. rewrite drop_0 in HI.
    apply HI; try (done || lia); [by apply out_counts_add|simpl; apply u64_range].
Qed.

Lemma store_blocks_bound bs l :
  0 < bs -> Forall whole_file l ->
  Z.of_nat (length (store_blocks bs l)) <= Zsum (totalLen <$> l) /\ 0 <= Zsum (totalLen <$> l).
Proof.
  intros Hbs Hl. induction Hl as [|p l (Ht & Hs & Hrl) Hl IH]; [done|].
  rewrite store_blocks_cons, length_app, fmap_cons, Zsum_cons, Nat2Z.inj_add, elem_blocks_length by lia.
  destruct (tile_count_spec (rangeLen p) bs Hbs); lia.
Qed.

(** The blocks of the workers with lower rank, and how many blocks a worker gets. *)
Lemma worker_blocks_interval total rank n :
  0 <= total < TWO64 -> 0 < n < TWO32 -> 0 <= rank < n ->
  worker_start_block total rank n = rank * (total / n)
  /\ worker_num_blocks total rank n
     = (if rank =? n - 1 then total - rank * (total / n) else total / n)
  /\ 0 <= worker_num_blocks total rank n
  /\ rank * (total / n) + worker_num_blocks total rank n <= total.
Proof.
  intros Ht Hn Hr. unfold worker_start_block, worker_num_blocks, u32, truthy.
  pose proof (Z.div_mod total n ltac:(lia)) as Hdm. pose proof (Z.mod_pos_bound total n ltac:(lia)).
  assert (0 <= total / n) by (apply Z.div_pos; lia).
  assert (0 <= rank * (total / n) <= (n - 1) * (total / n)) as Hrs by nia.
  assert ((n - 1) * (total / n) + total / n = total - total `mod` n) as Htop by lia.
  rewrite (Z.mod_small (n - 1)), (u64_small (rank * _)) by lia. split; [done|].
  destruct (Z.eqb_spec rank (n - 1)) as [->|Hne]; cbn [andb].
  - destruct (Z.eqb_spec (total `mod` n) 0); simpl; u64_elim; lia.
  - assert (rank * (total / n) <= (n - 2) * (total / n)) by (apply Z.mul_le_mono_nonneg_r; lia). lia.
Qed.

Lemma take_take_drop {A} (i j : nat) (l : list A) : take i l ++ take j (drop i l) = take (i + j) l.
Proof. revert l. induction i; intros [|x l]; simpl; rewrite ?take_nil; f_equal; auto. Qed.

(** Consecutive intervals concatenate. *)
Lemma concat_intervals {A} (start cnt : Z -> Z) (l : list A) (n : nat) :
  start 0 = 0 -> (forall r, 0 <= r < Z.of_nat n -> 0 <= cnt r /\ 0 <= start r /\ start (r + 1) = start r + cnt r) ->
  concat ((fun r => take (Z.to_nat (cnt r)) (drop (Z.to_nat (start r)) l)) <$> seqZ 0 (Z.of_nat n))
  = take (Z.to_nat (start (Z.of_nat n))) l.
Proof.
  intros H0. induction n as [|n IH]; intros Hr; [by change (Z.of_nat 0) with 0; rewrite H0|].
  replace (Z.of_nat (S n)) with (Z.of_nat n + 1) by lia. rewrite seqZ_snoc, fmap_app, concat_app by lia.
  rewrite IH by (intros r ?; apply Hr; lia). destruct (Hr (Z.of_nat n)) as (Hc & Hs & ->); [lia|].
  simpl. rewrite app_nil_r, Z2Nat.inj_add by done. apply take_take_drop.
Qed.

Definition sub_out (bs : Z) : PathStore := mkStore bs 0 0 0 [].

Lemma sub_out_counts bs : out_counts (sub_out bs).
Proof. done. Qed.

(** The share of one worker. *)
(** The blocks of one worker. *)
Definition worker_blocks (st : PathStore) (n rank : Z) : list (string * Z * Z) :=
  take (Z.to_nat (worker_num_blocks (numBlocksTotal st) rank n))
    (drop (Z.to_nat (worker_start_block (numBlocksTotal st) rank n)) (store_blocks (blockSize st) (paths st))).

Lemma getWorkerSublistShared_onto st n rank out :
  shareable st -> 0 < n < TWO32 -> 0 <= rank < n -> out_counts out -> 0 <= numBlocksTotal out < TWO64 ->
  exists sl out', getWorkerSublistShared st rank n false out = Ok out' /\ paths out' = paths out ++ sl
    /\ store_blocks (blockSize st) sl = worker_blocks st n rank
    /\ out_counts out'
    /\ numBlocksTotal out' = u64 (numBlocksTotal out + Z.of_nat (length (store_blocks (blockSize st) sl)))
    /\ Forall (fun p => 0 < rangeLen p /\ 0 <= rangeStart p /\ rangeStart p + rangeLen p <= totalLen p) sl.
Proof.
  intros (Hbs & Hall & Hsum & Hnp & Hnb) Hn Hr Hoc0 Hnb0. unfold worker_blocks.
  destruct (store_blocks_bound (blockSize st) (paths st)) as [Hsb Hsb']; [lia|done|].
  destruct (worker_blocks_interval (numBlocksTotal st) rank n) as (Hst & _ & Hpos & Hend); [lia..|].
  rewrite <- Hst in Hend. assert (0 <= worker_start_block (numBlocksTotal st) rank n) as Hs0 by apply u64_range.
  unfold getWorkerSublistShared. set (cnt := worker_num_blocks _ _ _) in *. set (start := worker_start_block _ _ _) in *.
  assert (u64 (numBlocksTotal out + 0) = numBlocksTotal out) as H0 by (rewrite Z.add_0_r; by apply u64_small).
  destruct (paths st) as [|p l] eqn:Hpaths.
  { exists [], out. unfold store_blocks. simpl. rewrite drop_nil, take_nil, app_nil_r. by split_and!. }
  rewrite <- Hpaths in *. destruct (Z.eqb_spec cnt 0) as [Hc0|Hc0].
  { exists [], out. rewrite Hc0, app_nil_r. by split_and!. }
  rewrite (u64_small (start + cnt)) by lia.
  destruct (shared_loop_spec (blockSize st) start (start + cnt) (paths st) 0 cnt out)
    as (sl & out' & -> & Hp' & Hblk & Hoc & Hnb' & Hbs' & Hf); try (done || lia).
  rewrite Z.sub_0_r in Hblk. exists sl. eexists. split; [done|]. simpl. split; [exact Hp'|]. split; [exact Hblk|].
  split; [exact Hoc|]. split; [|exact Hf]. rewrite Hnb', Hblk, length_take, length_drop. f_equal. lia.
Qed.

Lemma getWorkerSublistShared_spec st n rank bs :
  shareable st -> 0 < n < TWO32 -> 0 <= rank < n ->
  exists out, getWorkerSublistShared st rank n false (sub_out bs) = Ok out
    /\ store_blocks (blockSize st) (paths out) = worker_blocks st n rank
    /\ out_counts out
    /\ numBlocksTotal out = Z.of_nat (length (store_blocks (blockSize st) (paths out)))
    /\ Forall (fun p => 0 < rangeLen p /\ 0 <= rangeStart p /\ rangeStart p + rangeLen p <= totalLen p) (paths out).
Proof.
  intros Hst Hn Hr. destruct (getWorkerSublistShared_onto st n rank (sub_out bs) Hst Hn Hr) as (sl & out & -> & Hp & Hb & Hoc & Hnb & Hf);
    [done..|]. simpl in Hp, Hnb. exists out. rewrite Hp. split_and!; try done. rewrite Hnb. apply u64_small.
  pose proof Hst as (Hbs & Hall & Hsum & _). destruct (store_blocks_bound (blockSize st) (paths st)) as [Hsb Hsb']; [lia|done|].
  rewrite Hb. unfold worker_blocks. rewrite length_take, length_drop. lia.
Qed.

(** The blocks of all workers one after the other are all blocks. *)
Lemma worker_blocks_concat st n : shareable st -> 0 < n < TWO32 ->
  concat (worker_blocks st n <$> seqZ 0 n) = store_blocks (blockSize st) (paths st).
Proof.
  intros (Hbs & Hall & Hsum & _ & Hnb) Hn. unfold worker_blocks. set (bs := blockSize st) in *. set (total := numBlocksTotal st) in *.
  destruct (store_blocks_bound bs (paths st)) as [Hsb Hsb']; [lia|done|]. assert (0 <= total < TWO64) as Htot by lia.
  set (start := fun r => if r =? n then total else r * (total / n)).
  rewrite (list_fmap_ext _ (fun r =>
    take (Z.to_nat (worker_num_blocks total r n)) (drop (Z.to_nat (start r)) (store_blocks bs (paths st))))).
  2: { intros i r Hi. apply lookup_seqZ in Hi as [-> Hi]. unfold start.
       destruct (worker_blocks_interval total (0 + Z.of_nat i) n Htot Hn ltac:(lia)) as (Hs & _). rewrite Hs.
       by rewrite (proj2 (Z.eqb_neq (0 + Z.of_nat i) n)) by lia. }
  pose proof (concat_intervals start (fun r => worker_num_blocks total r n) (store_blocks bs (paths st)) (Z.to_nat n)) as Hci.
  rewrite Z2Nat.id in Hci by lia. rewrite Hci.
  + unfold start. rewrite Z.eqb_refl. apply take_ge. lia.
  + unfold start. rewrite (proj2 (Z.eqb_neq 0 n)) by lia. lia.
  + intros r Hr. destruct (worker_blocks_interval total r n Htot Hn Hr) as (_ & Hc & Hp & He). unfold start.
    rewrite (proj2 (Z.eqb_neq r n)) by lia. assert (0 <= total / n) by (apply Z.div_pos; lia).
    split; [done|]. split; [nia|]. rewrite Hc. destruct (Z.eqb_spec r (n - 1)) as [->|Hne].
    * rewrite Z.sub_add, Z.eqb_refl. lia.
    * rewrite (proj2 (Z.eqb_neq (r + 1) n)) by lia. lia.
Qed.

Lemma store_blocks_concat {A} bs (f : A -> list PathStoreElem) (l : list A) :
  store_blocks bs (concat (f <$> l)) = concat ((fun x => store_blocks bs (f x)) <$> l).
Proof. induction l as [|x l IH]; [done|]. rewrite !fmap_cons. cbn [concat]. by rewrite store_blocks_app, IH. Qed.

(** *** Whole paths *)

Lemma nonshared_loop_spec st n rank k idx out :
  0 < n < TWO32 -> numPaths st = Z.of_nat (length (paths st)) -> numPaths st + n < TWO64 ->
  0 <= idx < numPaths st -> idx `mod` n = rank -> numPaths st - idx <= Z.of_nat k ->
  exists out', nonshared_loop k st n false idx out = Some (Ok out')
    /\ paths out' = paths out ++ nth_from n rank idx (drop (Z.to_nat idx) (paths st)).
Proof.
  intros Hn Hnp Hb. revert idx out. induction k as [|k IH]; intros idx out Hi Hm Hk; [lia|].
  cbn [nonshared_loop]. destruct (lookup_lt_is_Some_2 (paths st) (Z.to_nat idx)) as [elem He]; [lia|].
  rewrite He. cbn [mbind option_bind andb]. rewrite (u64_small (idx + n)) by lia.
  rewrite (drop_S _ _ _ He). cbn [nth_from]. rewrite Hm, Z.eqb_refl.
  rewrite nth_from_period by lia. destruct (Z.leb_spec (numPaths st) (idx + n)) as [Hdone|Hmore].
  - eexists. split; [done|]. simpl. f_equal. rewrite (drop_ge _ (Z.to_nat (idx + n))) by lia. done.
  - destruct (IH (idx + n) (store_add out elem (if truthy (blockSize st)
      then num_blocks (totalLen elem) (blockSize st) else 0) (totalLen elem))) as (out' & -> & Hp); [lia| |lia|].
    { rewrite <- Hm. rewrite <- (Z.mul_1_l n) at 1. apply Z.mod_add. lia. }
    exists out'. split; [done|]. rewrite Hp. simpl. by rewrite <- app_assoc.
Qed.

Lemma nth_from_none {A} n rank (l : list A) :
  0 <= Z.of_nat (length l) <= rank -> 0 < n -> rank < n -> nth_from n rank 0 l = [].
Proof.
  intros Hl Hn Hr. rewrite (nth_from_skip n rank 0 (length l)); [by rewrite drop_all|done|].
  intros i Hi. rewrite Z.mod_small; lia.
Qed.

Lemma getWorkerSublistNonShared_spec st n rank out :
  0 < n < TWO32 -> numPaths st = Z.of_nat (length (paths st)) -> numPaths st + n < TWO64 ->
  0 <= rank < n ->
  exists out', getWorkerSublistNonShared st rank n false out = Some (Ok out')
    /\ paths out' = paths out ++ nth_from n rank 0 (paths st).
Proof.
  intros Hn Hnp Hb Hr. unfold getWorkerSublistNonShared. destruct (Z.leb_spec (numPaths st) rank).
  - exists out. split; [done|]. rewrite nth_from_none by lia. by rewrite app_nil_r.
  - destruct (nonshared_loop_spec st n rank (S (length (paths st))) rank out) as (out' & -> & Hp); try lia.
    { by apply Z.mod_small. }
    exists out'. split; [done|]. rewrite Hp. f_equal.
    by rewrite <- nth_from_first by lia.
Qed.

(** *** Single blocks *)

Definition block_elem (bs : Z) (p : PathStoreElem) (i : Z) : PathStoreElem :=
  mkElem (path p) (totalLen p) (i * bs) (Z.min bs (totalLen p - i * bs)).

Definition block_elems (bs : Z) (p : PathStoreElem) : list PathStoreElem :=
  block_elem bs p <$> seqZ 0 (tile_count (totalLen p) bs).

Lemma rr_blocks_spec (m fuel : nat) bs rank n p i c out :
  (m <= fuel)%nat -> 0 < bs -> 0 < totalLen p -> totalLen p + bs < TWO64 ->
  0 <= i -> i + Z.of_nat m = tile_count (totalLen p) bs -> 0 <= c -> c + Z.of_nat m < TWO64 ->
  exists out', rr_blocks fuel bs rank n false p (i * bs) c out = Some (Ok (out', c + Z.of_nat m))
    /\ paths out' = paths out ++ nth_from n rank c (block_elem bs p <$> seqZ i (Z.of_nat m)).
Proof.
  revert fuel i c out. induction m as [|m IH]; intros fuel i c out Hf Hbs Ht Hb Hi Him Hc Hcb;
    destruct (tile_count_spec (totalLen p) bs) as (_ & Hc1 & Hc2); try lia.
  - exists out. rewrite !Z.add_0_r, app_nil_r in *. split; [|done].
    assert ((i * bs <? totalLen p) = false) as Hlt by (apply Z.ltb_ge; nia).
    destruct fuel; simpl; by rewrite Hlt.
  - destruct fuel as [|fuel]; [lia|]. assert (0 <= i * bs < totalLen p) as Hib by nia.
    cbn [rr_blocks andb]. rewrite (proj2 (Z.ltb_lt _ _)) by lia. cbn [negb].
    rewrite (u64_small (totalLen p - _)), (u64_small (i * bs + bs)), (u64_small (c + 1)) by lia.
    replace (i * bs + bs) with ((i + 1) * bs) by lia.
    replace (if totalLen p - i * bs <? bs then totalLen p - i * bs else bs)
      with (Z.min bs (totalLen p - i * bs)) by (destruct (Z.ltb_spec (totalLen p - i * bs) bs); lia).
    rewrite (seqZ_cons i) by lia. rewrite fmap_cons. cbn [nth_from].
    replace (Z.succ i) with (i + 1) by lia. replace (Z.pred (Z.of_nat (S m))) with (Z.of_nat m) by lia.
    destruct (rank =? c `mod` n).
    + destruct (IH fuel (i + 1) (c + 1) (store_add out (block_elem bs p i) 1 (Z.min bs (totalLen p - i * bs))))
        as (out' & Heq & Hp); try lia.
      exists out'. unfold block_elem in Heq at 1. rewrite Heq. split; [do 3 f_equal; lia|].
      rewrite Hp. simpl. by rewrite <- app_assoc.
    + destruct (IH fuel (i + 1) (c + 1) out) as (out' & Heq & Hp); try lia.
      exists out'. rewrite Heq. split; [do 3 f_equal; lia|]. done.
Qed.

Lemma rr_paths_spec bs rank n l c out :
  0 < bs -> Forall whole_file l -> Zsum (totalLen <$> l) + bs < TWO64 -> 0 <= c ->
  c + Z.of_nat (length (concat (block_elems bs <$> l))) < TWO64 ->
  exists out', rr_paths bs rank n false l c out = Some (Ok out')
    /\ paths out' = paths out ++ nth_from n rank c (concat (block_elems bs <$> l)).
Proof.
  intros Hbs. revert c out. induction l as [|p l IH]; intros c out Hl Hsum Hc Hb.
  { exists out. simpl. by rewrite app_nil_r. }
  apply Forall_cons in Hl as [(Ht & Hs & Hrl) Hl]. rewrite fmap_cons, Zsum_cons in Hsum. rewrite fmap_cons in Hb |- *.
  destruct (store_blocks_bound bs l Hbs Hl) as [_ Hsl]. simpl concat in *.
  destruct (tile_count_spec (totalLen p) bs) as (Htc & _ & _); [lia..|].
  assert (Z.of_nat (length (block_elems bs p)) = tile_count (totalLen p) bs) as Hlen
    by (unfold block_elems; rewrite length_fmap, length_seqZ; lia).
  rewrite length_app, Nat2Z.inj_add in Hb. cbn [rr_paths]. rewrite (proj2 (Z.eqb_neq _ _)) by lia.
  destruct (rr_blocks_spec (Z.to_nat (tile_count (totalLen p) bs)) (Z.to_nat (totalLen p)) bs rank n p 0 c out)
    as (out1 & Heq & Hp1); try lia.
  rewrite Z.mul_0_l, Z2Nat.id in Heq by lia. rewrite Z2Nat.id in Hp1 by lia. rewrite Heq.
  destruct (IH (c + tile_count (totalLen p) bs) out1) as (out' & Heq' & Hp'); [done|lia..|].
  exists out'. split; [done|]. rewrite Hp', Hp1, nth_from_app, Hlen. by rewrite <- app_assoc.
Qed.

Lemma block_elem_blocks bs p i :
  0 < bs -> 0 <= i < tile_count (totalLen p) bs -> 0 < totalLen p ->
  elem_blocks bs (block_elem bs p i) = [(path p, i * bs, Z.min bs (totalLen p - i * bs))].
Proof.
  intros Hbs Hi Ht. destruct (tile_count_spec (totalLen p) bs) as (_ & _ & Hc); [lia..|].
  assert (i * bs < totalLen p) by nia. unfold elem_blocks, tile, tile_block, block_elem. simpl.
  set (len := Z.min bs (totalLen p - i * bs)). assert (0 < len <= bs) as Hl by lia.
  assert (tile_count len bs = 1) as ->.
  { unfold tile_count. symmetry. apply (Z.div_unique _ _ _ (len - 1)); lia. }
  simpl. do 2 f_equal; [f_equal; lia|lia].
Qed.

Lemma block_elems_blocks bs p :
  0 < bs -> whole_file p -> store_blocks bs (block_elems bs p) = elem_blocks bs p.
Proof.
  intros Hbs (Ht & Hs & Hrl). unfold block_elems, elem_blocks, tile. rewrite Hs, Hrl, <- list_fmap_compose.
  assert (Forall (fun i => 0 <= i < tile_count (totalLen p) bs) (seqZ 0 (tile_count (totalLen p) bs))) as Hall
    by (apply Forall_seqZ; lia).
  induction Hall as [|i l Hi Hl IH]; [done|]. rewrite !fmap_cons, store_blocks_cons, IH.
  rewrite block_elem_blocks by done. done.
Qed.

Lemma all_block_elems_blocks bs l :
  0 < bs -> Forall whole_file l -> store_blocks bs (concat (block_elems bs <$> l)) = store_blocks bs l.
Proof.
  intros Hbs. induction 1 as [|p l Hp Hl IH]; [done|]. rewrite fmap_cons. cbn [concat].
  by rewrite store_blocks_app, IH, block_elems_blocks.
Qed.

(** There are no more blocks than bytes. *)
Lemma block_elems_count bs l : 0 < bs -> Forall whole_file l ->
  Z.of_nat (length (concat (block_elems bs <$> l))) <= Zsum (totalLen <$> l).
Proof.
  intros Hbs Hall. destruct (store_blocks_bound bs l) as [Hsb _]; [lia|done|].
  rewrite <- (all_block_elems_blocks bs l) in Hsb by (done || lia).
  assert (forall l, Forall (fun p => 0 < rangeLen p) l -> Z.of_nat (length l) <= Z.of_nat (length (store_blocks bs l))) as Hle.
  { clear - Hbs. intros l. induction 1 as [|p l Hp Hl IH]; [done|].
    rewrite store_blocks_cons, length_app, Nat2Z.inj_add, elem_blocks_length by lia.
    destruct (tile_count_spec (rangeLen p) bs) as (_ & Ht & _); [lia..|]. simpl. nia. }
  assert (Forall (fun p => 0 < rangeLen p) (concat (block_elems bs <$> l))) as Hpos.
  { apply Forall_concat, Forall_fmap. eapply Forall_impl; [exact Hall|]. intros p (Ht & _). simpl.
    apply Forall_fmap, Forall_seqZ. intros i Hi. simpl.
    destruct (tile_count_spec (totalLen p) bs) as (_ & _ & Hc); [lia..|]. nia. }
  specialize (Hle _ Hpos). lia.
Qed.

Lemma store_blocks_perm bs l k : l ≡ₚ k -> store_blocks bs l ≡ₚ store_blocks bs k.
Proof.
  induction 1 as [|x l k _ IH|x y l|l k m _ IH1 _ IH2].
  - done.
  - rewrite !store_blocks_cons. by rewrite IH.
  - rewrite !store_blocks_cons, !app_assoc. apply Permutation_app_tail, Permutation_app_comm.
  - by rewrite IH1.
Qed.

(** *** Sorting *)

Section sorting.
Context (lt : PathStoreElem -> PathStoreElem -> bool).
Hypothesis lt_asym : forall a b, lt a b = true -> lt b a = false.
Hypothesis le_trans : forall a b c, lt b a = false -> lt c b = false -> lt c a = false.

Lemma sort_insert_perm x l : sort_insert lt x l ≡ₚ x :: l.
Proof. induction l as [|y l IH]; simpl; [done|]. case_match; [|done]. rewrite IH. constructor. Qed.

Lemma list_sort_perm l : list_sort lt l ≡ₚ l.
Proof. induction l as [|x l IH]; simpl; [done|]. by rewrite sort_insert_perm, IH. Qed.

Lemma sort_insert_sorted x l :
  StronglySorted (fun a b => lt b a = false) l ->
  StronglySorted (fun a b => lt b a = false) (sort_insert lt x l).
Proof.
  induction 1 as [|y l Hl IH Hy]; simpl; [repeat constructor|]. destruct (lt y x) eqn:Hyx.
  - constructor; [done|]. rewrite sort_insert_perm. constructor; [by apply lt_asym|done].
  - constructor; [by constructor|]. constructor; [done|]. eapply Forall_impl; [exact Hy|].
    intros z Hz. by eapply le_trans.
Qed.

Lemma list_sort_sorted l : StronglySorted (fun a b => lt b a = false) (list_sort lt l).
Proof. induction l; simpl; [constructor|]. by apply sort_insert_sorted. Qed.
End sorting.

Lemma str_lt_asym s t : str_lt s t = true -> str_lt t s = false.
Proof.
  revert t. induction s as [|c s IH]; intros [|d t]; simpl; try done.
  intros H. destruct (Z.ltb_spec (char_code c) (char_code d)).
  - rewrite (proj2 (Z.ltb_ge _ _)), (proj2 (Z.eqb_neq _ _)) by lia. done.
  - simpl in H. apply andb_prop in H as [Hc H]. apply Z.eqb_eq in Hc.
    rewrite (proj2 (Z.ltb_ge _ _)) by lia. simpl. rewrite (IH _ H). by rewrite andb_false_r.
Qed.

Lemma str_le_trans s t u : str_lt t s = false -> str_lt u t = false -> str_lt u s = false.
Proof.
  revert t u. induction s as [|c s IH]; intros [|d t] [|e u]; simpl; try done.
  intros H1 H2. apply orb_false_elim in H1 as [H1 H1']. apply orb_false_elim in H2 as [H2 H2'].
  apply Z.ltb_ge in H1, H2. rewrite (proj2 (Z.ltb_ge _ _)) by lia. simpl.
  destruct (Z.eqb_spec (char_code e) (char_code c)) as [He|He]; [|done]. simpl.
  rewrite (proj2 (Z.eqb_eq _ _)) in H1' by lia. rewrite (proj2 (Z.eqb_eq _ _)) in H2' by lia. simpl in *. by eapply IH.
Qed.

Lemma path_len_lt_asym a b : path_len_lt a b = true -> path_len_lt b a = false.
Proof.
  unfold path_len_lt. intros H. destruct (Nat.ltb_spec (String.length (path a)) (String.length (path b))).
  - rewrite (proj2 (Nat.ltb_ge _ _)), (proj2 (Nat.eqb_neq _ _)) by lia. done.
  - simpl in H. apply andb_prop in H as [Hl H]. apply Nat.eqb_eq in Hl.
    rewrite (proj2 (Nat.ltb_ge _ _)) by lia. simpl. by rewrite (str_lt_asym _ _ H), andb_false_r.
Qed.

Lemma path_len_le_trans a b c :
  path_len_lt b a = false -> path_len_lt c b = false -> path_len_lt c a = false.
Proof.
  unfold path_len_lt. intros H1 H2. apply orb_false_elim in H1 as [H1 H1']. apply orb_false_elim in H2 as [H2 H2'].
  apply Nat.ltb_ge in H1, H2. rewrite (proj2 (Nat.ltb_ge _ _)) by lia. simpl.
  destruct (Nat.eqb_spec (String.length (path c)) (String.length (path a))) as [He|He]; [|done]. simpl.
  rewrite (proj2 (Nat.eqb_eq _ _)) in H1' by lia. rewrite (proj2 (Nat.eqb_eq _ _)) in H2' by lia. simpl in *. by eapply str_le_trans.
Qed.

Lemma StronglySorted_lookup {A} (P : A -> A -> Prop) l i j x y :
  StronglySorted P l -> (i < j)%nat -> l !! i = Some x -> l !! j = Some y -> P x y.
Proof.
  intros Hs. revert i j. induction Hs as [|a l Hl IH Ha]; intros i j Hij Hi Hj; [done|].
  destruct j as [|j]; [lia|]. destruct i as [|i]; simpl in *.
  - simplify_eq. rewrite Forall_lookup in Ha. by eapply Ha.
  - eapply (IH i j); [lia|done..].
Qed.

(** *** Loading *)

(** What a loaded file element is. *)
Definition loaded_file (minFileSize maxFileSize : Z) (p : PathStoreElem) : Prop :=
  path p <> "" /\ rangeStart p = 0 /\ rangeLen p = totalLen p
  /\ minFileSize <= totalLen p <= maxFileSize /\ totalLen p < TWO64.

Definition loaded_counts (st : PathStore) : Prop :=
  numPaths st = u64 (Z.of_nat (length (paths st)))
  /\ numBytesTotal st = u64 (Zsum (totalLen <$> paths st))
  /\ numBlocksTotal st = u64 (Zsum ((fun p => num_blocks (totalLen p) (blockSize st)) <$> paths st)).

Lemma Zsum_one x : Zsum [x] = x.
Proof. cbn. lia. Qed.

Lemma loaded_counts_add st p :
  loaded_counts st -> rangeLen p = totalLen p ->
  loaded_counts (mkStore (blockSize st) (numBlocksTotal st +₆₄ num_blocks (totalLen p) (blockSize st))
    (numBytesTotal st +₆₄ totalLen p) (numPaths st +₆₄ 1) (paths st ++ [p])).
Proof.
  intros (H1 & H2 & H3) Hp. unfold loaded_counts. simpl. rewrite H1, H2, H3, length_app, !fmap_app, !Zsum_app.
  autorewrite with machine. cbn [fmap list_fmap length]. rewrite !Zsum_one. split_and!; [f_equal; lia|done..].
Qed.

Lemma stream_u64_range s v rest : stream_u64 s = Some (v, rest) -> 0 <= v < TWO64.
Proof.
  unfold stream_u64. destruct (scan_sign s) as [neg s']. destruct (take_digits s') as [d r].
  destruct (String.eqb d ""); [done|].
  assert (0 <= fst (scan_digits d 0 false)) as Hn.
  { clear. assert (forall acc seen, 0 <= acc -> 0 <= fst (scan_digits d acc seen)) as H; [|by apply H].
    induction d as [|c d IH]; intros acc seen Ha; [done|]. simpl. destruct (isdigit c) eqn:Hc; [|done].
    apply IH. unfold isdigit in Hc. lia. }
  destruct (TWO64 <=? fst (scan_digits d 0 false)) eqn:Hv; [done|]. intros [= <- <-].
  destruct neg; [apply u64_range|lia].
Qed.

Lemma round_up_range len r : 0 <= len < TWO64 -> 0 <= round_up len r < TWO64.
Proof. intros Hl. unfold round_up. case_match; [apply u64_range|done]. Qed.

Lemma load_file_lines_ok b64 mn mx rnd lines st st' :
  load_file_lines b64 mn mx rnd lines st = Ok st' ->
  loaded_counts st -> Forall (loaded_file mn mx) (paths st) ->
  loaded_counts st' /\ Forall (loaded_file mn mx) (paths st') /\ blockSize st' = blockSize st.
Proof.
  revert st. induction lines as [|line lines IH]; intros st Hload Hc Hall; simpl in Hload; [by simplify_eq|].
  destruct (stream_token line) as [prefix rest]. destruct (String.eqb prefix "f"); simpl in Hload; [|by apply IH].
  destruct (stream_u64 rest) as [[len rest']|] eqn:Hlen; [|done]. apply stream_u64_range in Hlen.
  apply (round_up_range _ rnd) in Hlen. set (fs := round_up len rnd) in *.
  destruct ((fs <? mn) || (mx <? fs)) eqn:Hrange; [by apply IH|].
  destruct (String.eqb (line_path b64 rest') "") eqn:Hp; [done|].
  apply IH in Hload as (Hc' & Hall' & Hb'); [done|..].
  - by apply (loaded_counts_add st (mkElem (line_path b64 rest') fs 0 fs)).
  - apply Forall_app. split; [done|]. constructor; [|done]. unfold loaded_file. simpl.
    apply String.eqb_neq in Hp. split_and!; (done || lia).
Qed.

Lemma take_digits_to_string z s :
  0 <= z < TWO64 -> match s with String c _ => isdigit c = false | "" => True end ->
  take_digits (to_string z +:+ s) = (to_string z, s).
Proof.
  intros Hz Hs. unfold to_string.
  assert (forall fuel z acc, 0 <= z -> take_digits (acc +:+ s) = (acc, s) ->
    take_digits (digits_onto fuel z acc +:+ s) = (digits_onto fuel z acc, s)) as Hdig.
  { clear. intros fuel. induction fuel as [|fuel IH]; intros z acc Hz Hacc; [done|]. simpl.
    assert (take_digits (String (digit_char (z `mod` 10)) acc +:+ s) = (String (digit_char (z `mod` 10)) acc, s)) as H1.
    { simpl. rewrite digit_char_isdigit by (apply Z.mod_pos_bound; lia). by rewrite Hacc. }
    destruct (z / 10 =? 0); [done|]. apply IH; [apply Z.div_pos; lia|done]. }
  apply Hdig; [lia|]. simpl. destruct s as [|c s]; [done|]. simpl. by rewrite Hs.
Qed.

(** A path without white space at its ends. *)
Definition trimmed (p : string) : Prop := trim p = p /\ p <> "".

Lemma trim_space p : trimmed p -> trim (String " " p) = p.
Proof. intros [H _]. unfold trim in *. simpl. done. Qed.

Lemma generateFileLine_parse p size :
  trimmed p -> 0 <= size < TWO64 ->
  let '(prefix, rest) := stream_token (generateFileLine p size) in
  prefix = "f" /\ exists rest', stream_u64 rest = Some (size, rest') /\ line_path false rest' = p.
Proof.
  intros Hp Hs. unfold generateFileLine. simpl. split; [done|].
  exists (String " " p). unfold line_path. rewrite trim_space by done. split; [|done].
  unfold stream_u64. assert (scan_sign (String " " (to_string size +:+ String " " p))
    = (false, to_string size +:+ String " " p)) as ->.
  { pose proof (scan_sign_to_string size (String " " p) ltac:(lia)) as H. unfold scan_sign in *. simpl. exact H. }
  rewrite take_digits_to_string by done.
  assert (to_string size <> "") as Hne.
  { destruct (digits_onto_head 19 size "") as (d & r & Hd & _); [lia|]. unfold to_string. by rewrite Hd. }
  apply String.eqb_neq in Hne. rewrite Hne.
  pose proof (scan_to_string size "" Hs I) as Hsc. rewrite str_app_nil_r in Hsc. rewrite Hsc. simpl.
  by rewrite (proj2 (Z.leb_gt _ _)) by lia.
Qed.

Lemma load_generated_lines mn mx l st :
  Forall (fun '(p, size) => trimmed p /\ 0 <= size < TWO64 /\ mn <= size <= mx) l ->
  exists st', load_file_lines false mn mx 0 ((fun '(p, size) => generateFileLine p size) <$> l) st = Ok st'
    /\ paths st' = paths st ++ ((fun '(p, size) => mkElem p size 0 size) <$> l).
Proof.
  intros Hl. revert st. induction Hl as [|[p size] l (Hp & Hs & Hm) Hl IH]; intros st.
  { exists st. by rewrite app_nil_r. }
  rewrite fmap_cons. cbn [load_file_lines]. pose proof (generateFileLine_parse p size Hp Hs) as Hparse.
  destruct (stream_token (generateFileLine p size)) as [prefix rest].
  destruct Hparse as [-> (rest' & -> & Hpath)]. simpl. unfold round_up. simpl.
  rewrite !(proj2 (Z.ltb_ge _ _)) by lia. simpl. simpl in Hpath. rewrite Hpath.
  destruct Hp as [_ Hne]. apply String.eqb_neq in Hne. rewrite Hne.
  destruct (IH (mkStore (blockSize st) (numBlocksTotal st +₆₄ num_blocks size (blockSize st))
    (numBytesTotal st +₆₄ size) (numPaths st +₆₄ 1) (paths st ++ [mkElem p size 0 size]))) as (st' & -> & Hp').
  exists st'. split; [done|]. rewrite Hp'. simpl. by rewrite <- app_assoc.
Qed.

Lemma loaded_shareable mn mx st :
  0 < blockSize st < TWO64 -> 0 < mn -> Forall (loaded_file mn mx) (paths st) -> loaded_counts st ->
  Zsum (totalLen <$> paths st) < TWO64 -> Z.of_nat (length (paths st)) < TWO64 -> shareable st.
Proof.
  intros Hbs Hmn Hall (Hn & _ & Hb) Hsum Hlen.
  assert (Forall whole_file (paths st)) as Hw.
  { eapply Forall_impl; [exact Hall|]. intros p (_ & ? & ? & ? & _). split_and!; (done || lia). }
  split; [done|]. split; [done|]. split; [done|]. split; [rewrite Hn; apply u64_small; lia|].
  destruct (store_blocks_bound (blockSize st) (paths st)) as [Hsb _]; [lia|done|].
  assert (Z.of_nat (length (store_blocks (blockSize st) (paths st)))
    = Zsum ((fun p => num_blocks (totalLen p) (blockSize st)) <$> paths st)) as Heq.
  { clear - Hw Hall Hbs. induction Hw as [|p l (Ht & Hs & Hrl) Hw IH]; [done|].
    apply Forall_cons in Hall as [(_ & _ & _ & _ & Hp) Hall].
    rewrite store_blocks_cons, length_app, Nat2Z.inj_add, fmap_cons, Zsum_cons, IH by done.
    rewrite elem_blocks_length, num_blocks_tile, Hrl by lia. done. }
  rewrite Hb, <- Heq. apply u64_small. lia.
Qed.

(** ** Properties *)

(** Shared files are cut between the workers without gap or overlap: for every number of
    workers the sublists of all ranks, one after the other, consist of exactly the blocks of all
    files, in order and including the partial last block of each file.  Every slice is non-empty
    and within its file, all ranks but the last one get the same number of blocks, and the
    counters of each sublist match its contents. *)
Lemma shared_sublists_tile_all_files st n :
  shareable st -> 0 < n < TWO32 ->
  exists sub,
    (forall rank, 0 <= rank < n ->
       getWorkerSublistShared st rank n false (sub_out (blockSize st)) = Ok (sub rank)
       /\ out_counts (sub rank)
       /\ numBlocksTotal (sub rank) = Z.of_nat (length (store_blocks (blockSize st) (paths (sub rank))))
       /\ (rank < n - 1 -> numBlocksTotal (sub rank) = numBlocksTotal st / n)
       /\ Forall (fun p => 0 < rangeLen p /\ 0 <= rangeStart p /\ rangeStart p + rangeLen p <= totalLen p)
            (paths (sub rank)))
    /\ store_blocks (blockSize st) (concat ((fun rank => paths (sub rank)) <$> seqZ 0 n))
       = store_blocks (blockSize st) (paths st).
Proof.
  intros Hst Hn. pose proof Hst as (Hbs & Hall & Hsum & _ & Hnb).
  set (sub := fun rank => match getWorkerSublistShared st rank n false (sub_out (blockSize st)) with
                          | Ok out => out | Throw _ => sub_out (blockSize st) end).
  exists sub. split.
  - intros rank Hr. unfold sub.
    destruct (getWorkerSublistShared_spec st n rank (blockSize st) Hst Hn Hr) as (out & -> & Hb & Hoc & Hnum & Hf).
    refine (conj eq_refl (conj Hoc (conj Hnum (conj _ Hf)))). intros Hlt. rewrite Hnum, Hb.
    unfold worker_blocks. rewrite length_take, length_drop.
    destruct (store_blocks_bound (blockSize st) (paths st)) as [Hsb Hsb']; [lia|done|].
    destruct (worker_blocks_interval (numBlocksTotal st) rank n) as (Hs & Hc & Hp & He); [lia..|].
    rewrite (proj2 (Z.eqb_neq rank (n - 1))) in Hc by lia. rewrite Hs, Hc in *. lia.
  - rewrite store_blocks_concat, <- (worker_blocks_concat st n Hst Hn). f_equal. apply list_fmap_ext.
    intros i rank [-> Hi]%lookup_seqZ. unfold sub.
    by destruct (getWorkerSublistShared_spec st n (0 + Z.of_nat i) (blockSize st) Hst Hn ltac:(lia)) as (out & -> & Hb & _).
Qed.

(** A store with a partial last block in each file. *)
Definition demo_store : PathStore :=
  mkStore 4 6 20 2 [mkElem "a" 10 0 10; mkElem "b" 10 0 10].

Lemma demo_store_shareable : shareable demo_store.
Proof. split; [done|]. split; [by repeat constructor|]. by vm_compute. Qed.

(** The round-robin assignment gives every block of all files to exactly one worker, and no
    assigned range is larger than a block or crosses a block boundary. *)
Lemma roundrobin_sublists_partition st n :
  shareable st -> Zsum (totalLen <$> paths st) + blockSize st < TWO64 -> 0 < n ->
  exists sub,
    (forall rank, 0 <= rank < n ->
       getWorkerSublistSharedRoundRobin st rank n false (sub_out (blockSize st)) = Some (Ok (sub rank)))
    /\ concat ((fun rank => paths (sub rank)) <$> seqZ 0 n) ≡ₚ concat (block_elems (blockSize st) <$> paths st)
    /\ store_blocks (blockSize st) (concat ((fun rank => paths (sub rank)) <$> seqZ 0 n))
       ≡ₚ store_blocks (blockSize st) (paths st).
Proof.
  intros (Hbs & Hall & Hsum & _ & _) Hb Hn. set (bs := blockSize st) in *.
  set (sub := fun rank => match getWorkerSublistSharedRoundRobin st rank n false (sub_out bs) with
                          | Some (Ok out) => out | _ => sub_out bs end).
  assert (forall rank, getWorkerSublistSharedRoundRobin st rank n false (sub_out bs) = Some (Ok (sub rank))
    /\ paths (sub rank) = nth_from n rank 0 (concat (block_elems bs <$> paths st))) as Hsub.
  { intros rank. unfold sub, getWorkerSublistSharedRoundRobin.
    destruct (rr_paths_spec bs rank n (paths st) 0 (sub_out bs)) as (out & Heq & Hp); [lia|done|lia..| |].
    { pose proof (block_elems_count bs (paths st) ltac:(lia) Hall). lia. }
    fold bs. destruct (paths st) as [|p l] eqn:Hpaths; [done|]. rewrite Heq. done. }
  exists sub. split; [intros rank _; apply Hsub|].
  assert (concat ((fun rank => paths (sub rank)) <$> seqZ 0 n) ≡ₚ concat (block_elems bs <$> paths st)) as Hperm.
  { rewrite <- (nth_from_partition n 0 (concat (block_elems bs <$> paths st)) Hn). apply reflexive_eq. f_equal.
    apply list_fmap_ext. intros i rank _. apply Hsub. }
  split; [done|]. rewrite <- (all_block_elems_blocks bs (paths st)) by (done || lia).
  by apply store_blocks_perm.
Qed.

(** The non-shared assignment terminates and gives every path of the store, directories as
    well as files, to exactly one worker. *)
Lemma nonshared_sublists_partition st n :
  numPaths st = Z.of_nat (length (paths st)) -> 0 < n < TWO32 -> numPaths st + n < TWO64 ->
  exists sub,
    (forall rank, 0 <= rank < n ->
       getWorkerSublistNonShared st rank n false (sub_out (blockSize st)) = Some (Ok (sub rank)))
    /\ concat ((fun rank => paths (sub rank)) <$> seqZ 0 n) ≡ₚ paths st.
Proof.
  intros Hnp Hn Hb.
  exists (fun rank => match getWorkerSublistNonShared st rank n false (sub_out (blockSize st)) with
                      | Some (Ok out) => out | _ => sub_out (blockSize st) end). split.
  - intros rank Hr. destruct (getWorkerSublistNonShared_spec st n rank (sub_out (blockSize st)) Hn Hnp Hb Hr)
      as (out & -> & _). done.
  - rewrite <- (nth_from_partition n 0 (paths st)) by lia. apply reflexive_eq. f_equal.
    apply list_fmap_ext. intros i rank Hi. apply lookup_seqZ in Hi as [-> Hi].
    destruct (getWorkerSublistNonShared_spec st n (0 + Z.of_nat i) (sub_out (blockSize st)) Hn Hnp Hb)
      as (out & -> & Hp); [lia|]. exact Hp.
Qed.

Lemma nonshared_sublists_partition_witness :
  exists sub, (forall rank, 0 <= rank < 5 ->
      getWorkerSublistNonShared demo_store rank 5 false (sub_out 4) = Some (Ok (sub rank)))
    /\ concat ((fun rank => paths (sub rank)) <$> seqZ 0 5) ≡ₚ paths demo_store.
Proof. apply (nonshared_sublists_partition demo_store 5); vm_compute; done || split; done. Defined.

(** Sorting by path length keeps exactly the given paths and puts every directory in front
    of the directories and files whose path extends its own, so that parents get created before
    their children; the counters are unchanged. *)
Lemma sortByPathLen_parents_first st i j p q suffix :
  paths (sortByPathLen st) !! i = Some p -> paths (sortByPathLen st) !! j = Some q ->
  path q = path p +:+ suffix -> suffix <> "" ->
  (i < j)%nat /\ paths (sortByPathLen st) ≡ₚ paths st
  /\ numPaths (sortByPathLen st) = numPaths st.
Proof.
  intros Hi Hj Hq Hs. split; [|split; [apply list_sort_perm|done]].
  assert (String.length (path p) < String.length (path q))%nat as Hlen.
  { rewrite Hq, str_length_app. destruct suffix; simpl; [done|lia]. }
  assert (i <> j) by (intros ->; simplify_eq; lia). destruct (decide (i < j)%nat) as [|Hge]; [done|].
  assert (path_len_lt p q = false) as Hlt.
  { eapply (StronglySorted_lookup (fun a b => path_len_lt b a = false)); [|..|exact Hj|exact Hi]; [|lia].
    apply list_sort_sorted; [apply path_len_lt_asym|apply path_len_le_trans]. }
  unfold path_len_lt in Hlt. rewrite (proj2 (Nat.ltb_lt _ _)) in Hlt by lia. done.
Qed.

Lemma sortByPathLen_parents_first_witness :
  let st := mkStore 0 0 0 2 [mkElem "a/b" 0 0 0; mkElem "a" 0 0 0] in
  (0 < 1)%nat /\ paths (sortByPathLen st) ≡ₚ paths st /\ numPaths (sortByPathLen st) = numPaths st.
Proof.
  apply (sortByPathLen_parents_first (mkStore 0 0 0 2 [mkElem "a/b" 0 0 0; mkElem "a" 0 0 0]) 0 1
    (mkElem "a" 0 0 0) (mkElem "a/b" 0 0 0) "/b"); done.
Defined.

(** A tree file that is loaded as the list of shared files (non-zero minimum size) gives a
    store that meets everything the shared sublists rely on, with sizes in the requested range;
    and the lines that [generateFileLine()] writes are read back to exactly the files they were
    written for. *)
Lemma loadFiles_shareable lines mn mx rnd bs st l :
  0 < bs < TWO64 -> 0 < mn ->
  loadFilesFromFile (Some lines) mn mx rnd (sub_out bs) = Ok st ->
  Zsum (totalLen <$> paths st) < TWO64 -> Z.of_nat (length (paths st)) < TWO64 ->
  Forall (fun '(p, size) => trimmed p /\ 0 <= size < TWO64 /\ mn <= size <= mx) l ->
  shareable st /\ Forall (fun p => mn <= totalLen p <= mx) (paths st)
  /\ exists st', loadFilesFromFile (Some ((fun '(p, size) => generateFileLine p size) <$> l)) mn mx 0 (sub_out bs) = Ok st'
     /\ paths st' = (fun '(p, size) => mkElem p size 0 size) <$> l.
Proof.
  intros Hbs Hmn Hload Hsum Hlen Hl. unfold loadFilesFromFile in Hload. simpl in Hload.
  apply load_file_lines_ok in Hload as (Hc & Hall & Hb); [|done|constructor]. simpl in Hb.
  split; [|split].
  - eapply loaded_shareable; [by rewrite Hb|exact Hmn|done..].
  - eapply Forall_impl; [exact Hall|]. intros p (_ & _ & _ & ? & _). done.
  - unfold loadFilesFromFile. simpl.
    assert (base64_header_scan ((fun '(p, size) => generateFileLine p size) <$> l) = false) as ->
      by (by destruct l as [|[p size] l]).
    destruct (load_generated_lines mn mx l (sub_out bs) Hl) as (st' & Heq & Hp). exists st'. done.
Qed.

Lemma loadFiles_shareable_witness :
  exists st st', loadFilesFromFile (Some ["# comment"; "d x"; "f 10 dir/a b "; "f 3 small"]) 4 100 0 (sub_out 4) = Ok st
    /\ shareable st
    /\ loadFilesFromFile (Some [generateFileLine "x y" 12]) 4 100 0 (sub_out 4) = Ok st'
    /\ paths st' = [mkElem "x y" 12 0 12].
Proof.
  eexists. destruct (loadFiles_shareable ["# comment"; "d x"; "f 10 dir/a b "; "f 3 small"] 4 100 0 4 _ [("x y", 12)]
    ltac:(lia) ltac:(lia) ltac:(vm_compute; reflexivity) ltac:(vm_compute; reflexivity) ltac:(vm_compute; reflexivity))
    as (Hs & _ & st' & Hl & Hp).
  { repeat constructor; vm_compute; done. }
  exists st'. split; [vm_compute; reflexivity|]. split; [exact Hs|]. split; [exact Hl|exact Hp].
Defined.
