(* ===== verification/CustomTree.v ===== *)
(** Custom trees (ProgArgs.cpp, [loadCustomTreeFile()], and LocalWorker.cpp,
    [prepareCustomTreePathStores()]): the directories and files of a tree file are loaded into
    three path stores, and each worker takes its part of them.  With S3 uploads from several
    services the shared files are divided among the services first, since the parts of an upload
    cannot come from several services. *)

From S2P Require Import Prelude Common CppStrings StringTk PathStore.
From Stdlib Require String.

#[local] Open Scope list_scope.
#[local] Open Scope Z_scope.

(** ** Definitions *)

Record TreeArgs : Type := mkTreeArgs {
  ta_benchMode : BenchMode;
  ta_runAsService : bool;
  ta_runCreateDirsPhase : bool;
  ta_runDeleteDirsPhase : bool;
  ta_runCreateFilesPhase : bool;
  ta_runStatFilesPhase : bool;
  ta_runReadPhase : bool;
  ta_runDeleteFilesPhase : bool;
  (** [runS3AclPut || runS3AclGet || runS3BucketAclPut || runS3BucketAclGet] *)
  ta_runS3Acl : bool;
  ta_blockSize : Z;
  ta_fileShareSize : Z;
  ta_treeRoundUpSize : Z;
  ta_numThreads : Z;
  ta_numDataSetThreads : Z;
  ta_rankOffset : Z;
  ta_useS3MPUSharing : bool;
  ta_useCustomTreeRoundRobin : bool;
  ta_useCustomTreeRandomize : bool;
  ta_useDirectIO : bool;
  ta_noDirectIOCheck : bool;
  ta_useRandomOffsets : bool;
}.

(** [customTree] *)
Record CustomTree : Type := mkTree3 { ct_dirs : PathStore; ct_filesNonShared : PathStore; ct_filesShared : PathStore }.

Definition CustomTree_empty : CustomTree := mkTree3 PathStore_empty PathStore_empty PathStore_empty.

Definition MAX_FILE_SIZE : Z := TWO64 - 1.

(** S3 uploads by several services that do not share them. *)
Definition splits_by_service (a : TreeArgs) : bool :=
  ta_runAsService a && bool_decide (ta_benchMode a = BenchMode_S3) && ta_runCreateFilesPhase a
  && negb (ta_numDataSetThreads a =? ta_numThreads a) && negb (ta_useS3MPUSharing a).

Definition load_dirs (a : TreeArgs) (file : treefile) (dirs : PathStore) : result PathStore :=
  if ta_runCreateDirsPhase a || ta_runDeleteDirsPhase a
  then dirs ← loadDirsFromFile file dirs; Ok (sortByPathLen dirs) else Ok dirs.

Definition needs_files (a : TreeArgs) : bool :=
  ta_runCreateFilesPhase a || ta_runStatFilesPhase a || ta_runReadPhase a || ta_runDeleteFilesPhase a || ta_runS3Acl a.

(** The files of at least the share size. *)
Definition load_shared (a : TreeArgs) (file : treefile) (shared : PathStore) : option (result PathStore) :=
  if splits_by_service a then
    if ta_numThreads a =? 0 then None else
    let serviceRank := ta_rankOffset a / ta_numThreads a in
    let numServiceRanksTotal := ta_numDataSetThreads a / ta_numThreads a in
    temp ⇐ Some (setBlockSize (ta_blockSize a) PathStore_empty);
    temp ⇐ Some (loadFilesFromFile file (ta_fileShareSize a) MAX_FILE_SIZE (ta_treeRoundUpSize a) temp);
    shared ⇐ Some (setBlockSize (ta_blockSize a) shared);
    getWorkerSublistNonShared (sortByFileSize temp) serviceRank numServiceRanksTotal false shared
  else
    shared ⇐ Some (setBlockSize (ta_blockSize a) shared);
    Some (loadFilesFromFile file (ta_fileShareSize a) MAX_FILE_SIZE (ta_treeRoundUpSize a) shared).

(** The store of the files that are not shared is sorted (once more when the shared files are not
    divided by service, where the store of the shared files stays as it was loaded). *)
Definition loadCustomTreeFile (a : TreeArgs) (file : treefile) (t : CustomTree) : option (result CustomTree) :=
  dirs ⇐ Some (load_dirs a file (ct_dirs t));
  if negb (needs_files a) then Some (Ok (mkTree3 dirs (ct_filesNonShared t) (ct_filesShared t)))
  else
    nonShared ⇐ Some (setBlockSize (ta_blockSize a) (ct_filesNonShared t));
    nonShared ⇐ Some (loadFilesFromFile file 0 (ta_fileShareSize a -₆₄ 1) (ta_treeRoundUpSize a) nonShared);
    shared ⇐ load_shared a file (ct_filesShared t);
    let nonShared := sortByFileSize nonShared in
    Some (Ok (mkTree3 dirs (if splits_by_service a then nonShared else sortByFileSize nonShared) shared)).

(** The directories and files of a worker. *)
Definition prepareCustomTreePathStores (a : TreeArgs) (shuffle : list PathStoreElem -> list PathStoreElem) (t : CustomTree)
    (workerRank : Z) (customTreeDirs customTreeFiles : PathStore) : option (result (PathStore * PathStore)) :=
  let throwOnSmallerThanBlockSize := negb (ta_noDirectIOCheck a) && ta_useDirectIO a && ta_useRandomOffsets a in
  let numThreads := ta_numThreads a in
  let numDataSetThreads := ta_numDataSetThreads a in
  dirs ⇐ getWorkerSublistNonShared (ct_dirs t) workerRank numDataSetThreads false customTreeDirs;
  files ⇐ getWorkerSublistNonShared (ct_filesNonShared t) workerRank numDataSetThreads throwOnSmallerThanBlockSize customTreeFiles;
  files ⇐
    (if splits_by_service a
     then Some (getWorkerSublistShared (ct_filesShared t) (workerRank -₆₄ ta_rankOffset a) numThreads throwOnSmallerThanBlockSize files)
     else if ta_useCustomTreeRoundRobin a
     then getWorkerSublistSharedRoundRobin (ct_filesShared t) workerRank numDataSetThreads throwOnSmallerThanBlockSize files
     else Some (getWorkerSublistShared (ct_filesShared t) workerRank numDataSetThreads throwOnSmallerThanBlockSize files));
  Some (Ok (dirs, if ta_useCustomTreeRandomize a then randomShuffle shuffle files else files)).

(** ** Lemmas *)

(** *** Sublists *)

Lemma Zsum_sublist (l k : list Z) : l `sublist_of` k -> Forall (fun z => 0 <= z) k -> Zsum l <= Zsum k.
Proof.
  induction 1 as [|x l k _ IH|x l k _ IH]; [done| |]; intros [Hx Hk]%Forall_cons; rewrite ?Zsum_cons; specialize (IH Hk); lia.
Qed.

Lemma nth_from_sublist {A} (n rank c : Z) (l : list A) : nth_from n rank c l `sublist_of` l.
Proof. revert c. induction l as [|x l IH]; intros c; [done|]. cbn. destruct (_ =? _); constructor; apply IH. Qed.

Lemma nth_from_Forall {A} (P : A -> Prop) (n rank c : Z) (l : list A) : Forall P l -> Forall P (nth_from n rank c l).
Proof. intros Hl. revert c. induction Hl as [|x l Hx Hl IH]; intros c; cbn; [done|]. destruct (_ =? _); [by constructor|done]. Qed.

Lemma list_filter_sublist {A} (f : A -> bool) (l : list A) : List.filter f l `sublist_of` l.
Proof. induction l as [|x l IH]; [done|]. cbn. destruct (f x); by constructor. Qed.

Lemma list_filter_perm {A} (f : A -> bool) (l k : list A) : l ≡ₚ k -> List.filter f l ≡ₚ List.filter f k.
Proof.
  induction 1 as [|x l k _ IH|x y l|l k m _ IH1 _ IH2]; cbn; [done| | |by rewrite IH1].
  - destruct (f x); by rewrite IH.
  - destruct (f x), (f y); try done. constructor.
Qed.

(** *** Loading a range of sizes *)

Definition in_sizes (mn mx : Z) (p : PathStoreElem) : bool := (mn <=? totalLen p) && (totalLen p <=? mx).

(** What is loaded of a range of sizes are the files of these sizes, in their order. *)
Lemma load_file_lines_range b64 mn mx rnd lines st0 all st :
  load_file_lines b64 0 MAX_FILE_SIZE rnd lines st0 = Ok all ->
  exists new st', paths all = paths st0 ++ new /\ load_file_lines b64 mn mx rnd lines st = Ok st'
    /\ paths st' = paths st ++ List.filter (in_sizes mn mx) new.
Proof.
  revert st0 st. induction lines as [|line lines IH]; intros st0 st Hall; cbn [load_file_lines] in *.
  { injection Hall as <-. exists [], st. cbn. by rewrite !app_nil_r. }
  destruct (stream_token line) as [prefix rest]. destruct (negb (String.eqb prefix "f")); [by eapply IH|].
  destruct (stream_u64 rest) as [[len rest']|] eqn:Hlen; [|done]. apply stream_u64_range in Hlen.
  apply (round_up_range _ rnd) in Hlen. set (fs := round_up len rnd) in *.
  assert ((fs <? 0) || (MAX_FILE_SIZE <? fs) = false) as Hr by (unfold MAX_FILE_SIZE; lia). rewrite Hr in Hall.
  destruct (String.eqb (line_path b64 rest') "") eqn:Hp; [done|].
  set (e := mkElem (line_path b64 rest') fs 0 fs).
  destruct (IH _ (if (fs <? mn) || (mx <? fs) then st else
    mkStore (blockSize st) (numBlocksTotal st +₆₄ num_blocks fs (blockSize st)) (numBytesTotal st +₆₄ fs) (numPaths st +₆₄ 1)
      (paths st ++ [e])) Hall) as (new & st' & Hn & Hl & Hp').
  exists (e :: new), st'. cbn [List.filter]. unfold in_sizes at 1. cbn [totalLen e].
  replace ((mn <=? fs) && (fs <=? mx)) with (negb ((fs <? mn) || (mx <? fs))) by lia.
  split; [rewrite Hn; cbn; by rewrite <- app_assoc|]. destruct ((fs <? mn) || (mx <? fs)); cbn [negb]; [done|].
  split; [done|]. rewrite Hp'. cbn. by rewrite <- app_assoc.
Qed.

Lemma load_dir_lines_counts b64 lines st st' :
  load_dir_lines b64 lines st = Ok st' -> numPaths st = u64 (Z.of_nat (length (paths st))) ->
  numPaths st' = u64 (Z.of_nat (length (paths st'))).
Proof.
  revert st. induction lines as [|line lines IH]; intros st; cbn [load_dir_lines]; [by intros [= <-]|].
  destruct (stream_token line) as [prefix rest]. destruct (negb _); [apply IH|]. destruct (String.eqb _ ""); [done|].
  intros Hl Hn. eapply IH; [exact Hl|]. cbn. rewrite length_app, Hn. cbn. autorewrite with machine. f_equal. lia.
Qed.

Lemma loadFiles_range lines rnd bs all mn mx :
  loadFilesFromFile (Some lines) 0 MAX_FILE_SIZE rnd (sub_out bs) = Ok all ->
  exists st, loadFilesFromFile (Some lines) mn mx rnd (sub_out bs) = Ok st
    /\ paths st = List.filter (in_sizes mn mx) (paths all)
    /\ loaded_counts st /\ Forall (loaded_file mn mx) (paths st) /\ blockSize st = bs.
Proof.
  unfold loadFilesFromFile. cbn [checkBase64Encoding mbind result_bind]. intros Hall.
  destruct (load_file_lines_range _ mn mx _ _ _ _ (sub_out bs) Hall) as (new & st & Hn & Hl & Hp).
  exists st. split; [done|]. rewrite Hn. split; [done|].
  apply load_file_lines_ok in Hl as (Hc & Hf & Hb); [done|done|constructor].
Qed.

(** *** Slices keep the size of their file *)

Lemma shared_loop_lens (P : Z -> Prop) bs startBlock endBlock l cur left out out' :
  Forall (fun p => P (totalLen p)) l -> shared_loop bs startBlock endBlock false l cur left out = Ok out' ->
  exists sl, paths out' = paths out ++ sl /\ Forall (fun p => P (totalLen p)) sl.
Proof.
  intros Hl. revert cur left out. induction Hl as [|p l Hp Hl IH]; intros cur left out; cbn [shared_loop].
  { intros [= <-]. exists []. by rewrite app_nil_r. }
  destruct (negb _); [intros [= <-]; exists []; by rewrite app_nil_r|]. destruct (_ =? 0); [done|].
  destruct (_ <? startBlock); [apply IH|]. destruct (if startBlock <=? cur then _ else _) as [rStart rem].
  destruct (if left <? rem then _ else _) as [rLen left']. cbn [andb]. intros Hr. apply IH in Hr as (sl & Hs & Hf).
  cbn [store_add paths] in Hs. rewrite <- app_assoc in Hs. eexists. split; [exact Hs|]. by constructor.
Qed.

Lemma getWorkerSublistShared_lens (P : Z -> Prop) st n rank out out' :
  Forall (fun p => P (totalLen p)) (paths st) -> getWorkerSublistShared st rank n false out = Ok out' ->
  exists sl, paths out' = paths out ++ sl /\ Forall (fun p => P (totalLen p)) sl.
Proof.
  intros Hall. unfold getWorkerSublistShared. destruct (paths st) eqn:Hp; [intros [= <-]; exists []; by rewrite app_nil_r|].
  destruct (_ =? 0); [intros [= <-]; exists []; by rewrite app_nil_r|].
  destruct (shared_loop _ _ _ _ _ _ _ _) as [o|e] eqn:Hs; [|done]. cbn. intros [= <-].
  by eapply shared_loop_lens in Hs.
Qed.

(** *** Counters of sublists *)

(** The counters that a sublist needs to be extended, and those that it needs to be divided again. *)
Definition whole_counts (st out : PathStore) : Prop :=
  out_counts out /\ 0 <= numBlocksTotal out < TWO64 /\ (blockSize out = blockSize st -> blockSize st <> 0 -> loaded_counts out).

Lemma whole_counts_add st out p : whole_counts st out -> rangeLen p = totalLen p ->
  whole_counts st (store_add out p (if truthy (blockSize st) then num_blocks (totalLen p) (blockSize st) else 0) (totalLen p)).
Proof.
  intros (Ho & _ & Hl) Hp. split; [rewrite <- Hp at 2; by apply out_counts_add|]. split; [apply u64_range|].
  cbn. intros Hb H0. specialize (Hl Hb H0). rewrite <- Hb in *. unfold truthy. rewrite (proj2 (Z.eqb_neq _ _)) by done.
  by apply loaded_counts_add.
Qed.

Lemma nonshared_loop_counts k st n idx out out' :
  Forall (fun p => rangeLen p = totalLen p) (paths st) -> nonshared_loop k st n false idx out = Some (Ok out') ->
  whole_counts st out -> whole_counts st out' /\ blockSize out' = blockSize out.
Proof.
  intros Hall. revert idx out. induction k as [|k IH]; intros idx out; [done|]. cbn [nonshared_loop].
  destruct (paths st !! Z.to_nat idx) as [p|] eqn:Hp; [|done]. cbn [mbind option_bind andb].
  rewrite Forall_lookup in Hall. specialize (Hall _ _ Hp). intros Hrun Hout.
  pose proof (whole_counts_add st out p Hout Hall) as Hadd. destruct (_ <=? _); [by injection Hrun as <-|].
  by apply IH in Hrun as [Hc Hb].
Qed.

Lemma getWorkerSublistNonShared_whole st n rank out :
  0 < n < TWO32 -> numPaths st = Z.of_nat (length (paths st)) -> numPaths st + n < TWO64 -> 0 <= rank < n ->
  Forall (fun p => rangeLen p = totalLen p) (paths st) -> whole_counts st out ->
  exists out', getWorkerSublistNonShared st rank n false out = Some (Ok out')
    /\ paths out' = paths out ++ nth_from n rank 0 (paths st) /\ whole_counts st out' /\ blockSize out' = blockSize out.
Proof.
  intros Hn Hnp Hb Hr Hall Hout. destruct (getWorkerSublistNonShared_spec st n rank out Hn Hnp Hb Hr) as (out' & Hrun & Hp).
  exists out'. split; [done|]. split; [done|]. unfold getWorkerSublistNonShared in Hrun.
  destruct (_ <=? _); [by injection Hrun as <-|]. by eapply nonshared_loop_counts.
Qed.

Lemma whole_counts_empty st bs : whole_counts st (sub_out bs).
Proof. by split_and!. Qed.

(** *** The trees of the services *)

(** The arguments of the [k]-th service: the master adds the threads of the services before it to
    the rank offset. *)
Definition service_tree_args (a : TreeArgs) (k : Z) : TreeArgs :=
  mkTreeArgs (ta_benchMode a) (ta_runAsService a) (ta_runCreateDirsPhase a) (ta_runDeleteDirsPhase a) (ta_runCreateFilesPhase a)
    (ta_runStatFilesPhase a) (ta_runReadPhase a) (ta_runDeleteFilesPhase a) (ta_runS3Acl a) (ta_blockSize a) (ta_fileShareSize a)
    (ta_treeRoundUpSize a) (ta_numThreads a) (ta_numDataSetThreads a) (k * ta_numThreads a) (ta_useS3MPUSharing a)
    (ta_useCustomTreeRoundRobin a) (ta_useCustomTreeRandomize a) (ta_useDirectIO a) (ta_noDirectIOCheck a) (ta_useRandomOffsets a).

(** A run of [nsvc] services on a tree file with the files [all] and the directories [dirs]. *)
Record tree_run_ok (a : TreeArgs) (lines : list string) (all dirs : PathStore) (nsvc : Z) : Prop := {
  tr_needs : needs_files a = true;
  tr_block : 0 < ta_blockSize a < TWO64;
  tr_share : 0 < ta_fileShareSize a < TWO64;
  tr_all : loadFilesFromFile (Some lines) 0 MAX_FILE_SIZE (ta_treeRoundUpSize a) (sub_out (ta_blockSize a)) = Ok all;
  tr_dirs : load_dirs a (Some lines) PathStore_empty = Ok dirs;
  tr_size : Zsum (totalLen <$> paths all) + ta_blockSize a < TWO64;
  tr_count : Z.of_nat (length (paths all)) + ta_numDataSetThreads a < TWO64;
  tr_dir_count : Z.of_nat (length (paths dirs)) + ta_numDataSetThreads a < TWO64;
  tr_threads : 0 < ta_numThreads a;
  tr_services : 0 < nsvc;
  tr_total : nsvc * ta_numThreads a = ta_numDataSetThreads a;
  tr_max : ta_numDataSetThreads a < TWO32;
  tr_throw : negb (ta_noDirectIOCheck a) && ta_useDirectIO a && ta_useRandomOffsets a = false;
}.

Section run.
Context (a : TreeArgs) (lines : list string) (all dirs : PathStore) (nsvc : Z) (Hrun : tree_run_ok a lines all dirs nsvc).

Definition small_files : list PathStoreElem := List.filter (in_sizes 0 (ta_fileShareSize a - 1)) (paths all).
Definition big_files : list PathStoreElem := List.filter (in_sizes (ta_fileShareSize a) MAX_FILE_SIZE) (paths all).

(** The list of files that are not shared, as it is sorted. *)
Definition nonshared_paths : list PathStoreElem :=
  let l := list_sort file_size_lt small_files in if splits_by_service a then l else list_sort file_size_lt l.

(** The list of shared files of a service. *)
Definition shared_paths (k : Z) : list PathStoreElem :=
  if splits_by_service a then nth_from nsvc k 0 (list_sort file_size_lt big_files) else big_files.

Lemma all_loaded : Forall (loaded_file 0 MAX_FILE_SIZE) (paths all) /\ blockSize all = ta_blockSize a.
Proof.
  pose proof (tr_all _ _ _ _ _ Hrun) as Hall. unfold loadFilesFromFile in Hall. cbn [checkBase64Encoding mbind result_bind] in Hall.
  apply load_file_lines_ok in Hall as (_ & Hf & Hb); [done|done|constructor].
Qed.

Lemma nonshared_perm : nonshared_paths ≡ₚ small_files.
Proof. unfold nonshared_paths. destruct (splits_by_service a); rewrite ?list_sort_perm; done. Qed.

Lemma part_sizes l : l ⊆+ paths all ->
  Zsum (totalLen <$> l) + ta_blockSize a < TWO64 /\ Z.of_nat (length l) + ta_numDataSetThreads a < TWO64.
Proof.
  intros Hl. pose proof (tr_size _ _ _ _ _ Hrun). pose proof (tr_count _ _ _ _ _ Hrun). pose proof (submseteq_length _ _ Hl).
  apply submseteq_Permutation in Hl as [r Hr].
  assert (Zsum (totalLen <$> paths all) = Zsum (totalLen <$> l) + Zsum (totalLen <$> r)) as Heq
    by (rewrite <- Zsum_app, <- fmap_app; apply Zsum_perm; by rewrite Hr).
  assert (0 <= Zsum (totalLen <$> r)); [|lia]. apply Zsum_nonneg, Forall_fmap.
  assert (Forall (loaded_file 0 MAX_FILE_SIZE) (l ++ r)) as [_ Hf]%Forall_app by (rewrite <- Hr; apply all_loaded).
  eapply Forall_impl; [exact Hf|]. intros p (_ & _ & _ & ? & _). cbn. lia.
Qed.

(** A store with the given elements and the counters of a loaded one can be divided. *)
Lemma shareable_big st : loaded_counts st -> blockSize st = ta_blockSize a ->
  Forall (loaded_file (ta_fileShareSize a) MAX_FILE_SIZE) (paths st) ->
  paths st ⊆+ paths all -> shareable st.
Proof.
  intros Hc Hb Hf Hl. pose proof (part_sizes _ Hl) as [Hs Hn].
  pose proof (tr_block _ _ _ _ _ Hrun). pose proof (tr_share _ _ _ _ _ Hrun).
  assert (0 < ta_numDataSetThreads a) by (rewrite <- (tr_total _ _ _ _ _ Hrun); pose proof (tr_threads _ _ _ _ _ Hrun);
    pose proof (tr_services _ _ _ _ _ Hrun); apply Z.mul_pos_pos; lia).
  apply (loaded_shareable (ta_fileShareSize a) MAX_FILE_SIZE); (done || lia).
Qed.

Lemma threads_pos : 0 < ta_numDataSetThreads a /\ nsvc < TWO32 /\ ta_numThreads a < TWO32.
Proof.
  pose proof (tr_threads _ _ _ _ _ Hrun). pose proof (tr_services _ _ _ _ _ Hrun). pose proof (tr_max _ _ _ _ _ Hrun).
  pose proof (tr_total _ _ _ _ _ Hrun). assert (nsvc * 1 <= nsvc * ta_numThreads a) by (apply Z.mul_le_mono_nonneg_l; lia).
  assert (1 * ta_numThreads a <= nsvc * ta_numThreads a) by (apply Z.mul_le_mono_nonneg_r; lia). lia.
Qed.

Lemma whole_lens mn mx l : Forall (loaded_file mn mx) l -> Forall (fun p => rangeLen p = totalLen p) l.
Proof. intros Hl. eapply Forall_impl; [exact Hl|]. by intros p (_ & _ & ? & _). Qed.

(** The files of at least the share size of one service. *)
Lemma load_shared_spec k : 0 <= k < nsvc ->
  exists st, load_shared (service_tree_args a k) (Some lines) PathStore_empty = Some (Ok st)
    /\ paths st = shared_paths k /\ shareable st /\ blockSize st = ta_blockSize a.
Proof.
  intros Hk. destruct (loadFiles_range lines _ _ _ (ta_fileShareSize a) MAX_FILE_SIZE (tr_all _ _ _ _ _ Hrun))
    as (st & Hl & Hp & Hc & Hf & Hb). fold big_files in Hp. pose proof threads_pos as (Hn & Hns & Hnt).
  pose proof (tr_threads _ _ _ _ _ Hrun) as HT. pose proof (tr_block _ _ _ _ _ Hrun).
  assert (big_files ⊆+ paths all) as Hsub by apply sublist_submseteq, list_filter_sublist.
  pose proof (part_sizes _ Hsub) as [_ Hlen].
  unfold load_shared, shared_paths. change (splits_by_service (service_tree_args a k)) with (splits_by_service a).
  destruct (splits_by_service a).
  - cbn [service_tree_args ta_numThreads ta_rankOffset ta_numDataSetThreads ta_blockSize ta_fileShareSize ta_treeRoundUpSize].
    rewrite (proj2 (Z.eqb_neq (ta_numThreads a) 0)) by lia.
    change (setBlockSize (ta_blockSize a) PathStore_empty) with (Ok (sub_out (ta_blockSize a))). cbn [and_then]. rewrite Hl.
    cbn [and_then]. rewrite Z.div_mul by lia. rewrite <- (tr_total _ _ _ _ _ Hrun), Z.div_mul by lia.
    pose proof (tr_services _ _ _ _ _ Hrun). pose proof (tr_max _ _ _ _ _ Hrun).
    assert (length (list_sort file_size_lt (paths st)) = length (paths st)) as Hls by apply Permutation_length, list_sort_perm.
    assert (Forall (loaded_file (ta_fileShareSize a) MAX_FILE_SIZE) (paths (sortByFileSize st))) as Hf'
      by (eapply Permutation_Forall; [symmetry; apply list_sort_perm|done]).
    assert (nsvc <= ta_numDataSetThreads a) by (rewrite <- (tr_total _ _ _ _ _ Hrun); nia).
    destruct Hc as (Hc & _). rewrite u64_small in Hc by (rewrite Hp; lia).
    destruct (getWorkerSublistNonShared_whole (sortByFileSize st) nsvc k (sub_out (ta_blockSize a))) as (out & Hout & Hpo & (_ & _ & Hlc) & Hbo);
      [lia|cbn; by rewrite Hls|cbn; rewrite Hc, Hp; lia|done|by eapply whole_lens|apply whole_counts_empty|].
    exists out. split; [done|]. cbn in Hpo. rewrite Hp in Hpo. split; [done|]. split; [|done].
    apply shareable_big; [apply Hlc; cbn; [by rewrite Hbo, Hb|lia]|done| |].
    + cbn in Hf'. rewrite Hp in Hf'. rewrite Hpo. by apply nth_from_Forall.
    + rewrite Hpo. transitivity (list_sort file_size_lt big_files); [apply sublist_submseteq, nth_from_sublist|].
      by rewrite list_sort_perm.
  - exists st. change (setBlockSize (ta_blockSize (service_tree_args a k)) PathStore_empty) with (Ok (sub_out (ta_blockSize a))).
    cbn [and_then]. split; [by rewrite <- Hl|]. split; [done|]. split; [|done]. apply shareable_big; try done. by rewrite Hp.
Qed.
(** What a service loads. *)
Record service_tree (k : Z) (t : CustomTree) : Prop := {
  st_load : loadCustomTreeFile (service_tree_args a k) (Some lines) CustomTree_empty = Some (Ok t);
  st_dirs : ct_dirs t = dirs;
  st_nonshared : paths (ct_filesNonShared t) = nonshared_paths;
  st_nonshared_num : numPaths (ct_filesNonShared t) = Z.of_nat (length nonshared_paths);
  st_shared : paths (ct_filesShared t) = shared_paths k;
  st_shareable : shareable (ct_filesShared t);
  st_block : blockSize (ct_filesShared t) = ta_blockSize a;
}.

Lemma loadCustomTreeFile_spec k : 0 <= k < nsvc -> exists t, service_tree k t.
Proof.
  intros Hk. destruct (load_shared_spec k Hk) as (sh & Hsh & Hps & Hshare & Hbs).
  pose proof (tr_share _ _ _ _ _ Hrun). pose proof threads_pos as (Hn & _).
  destruct (loadFiles_range lines _ _ _ 0 (ta_fileShareSize a - 1) (tr_all _ _ _ _ _ Hrun)) as (st & Hl & Hp & Hc & _ & _).
  fold small_files in Hp. assert (small_files ⊆+ paths all) as Hsub by apply sublist_submseteq, list_filter_sublist.
  pose proof (part_sizes _ Hsub) as [_ Hlen]. destruct Hc as (Hc & _). rewrite u64_small in Hc by (rewrite Hp; lia).
  exists (mkTree3 dirs (if splits_by_service a then sortByFileSize st else sortByFileSize (sortByFileSize st)) sh).
  split; cbn [ct_dirs ct_filesNonShared ct_filesShared]; try done.
  - unfold loadCustomTreeFile. change (load_dirs (service_tree_args a k)) with (load_dirs a).
    change (needs_files (service_tree_args a k)) with (needs_files a).
    cbn [ct_dirs CustomTree_empty ct_filesNonShared ct_filesShared]. rewrite (tr_dirs _ _ _ _ _ Hrun), (tr_needs _ _ _ _ _ Hrun).
    cbn [and_then negb]. change (setBlockSize (ta_blockSize (service_tree_args a k)) PathStore_empty) with (Ok (sub_out (ta_blockSize a))).
    cbn [and_then service_tree_args ta_fileShareSize ta_treeRoundUpSize]. rewrite u64_small by lia. rewrite Hl. cbn [and_then].
    fold (service_tree_args a k). by rewrite Hsh.
  - unfold nonshared_paths. rewrite <- Hp. by destruct (splits_by_service a).
  - rewrite (Permutation_length nonshared_perm), <- Hp. by destruct (splits_by_service a).
Qed.

Lemma dirs_num : numPaths dirs = Z.of_nat (length (paths dirs)).
Proof.
  pose proof (tr_dirs _ _ _ _ _ Hrun) as Hd. pose proof (tr_dir_count _ _ _ _ _ Hrun). pose proof threads_pos as (Hn & _).
  unfold load_dirs in Hd. destruct (_ || _); [|by injection Hd as <-].
  destruct (loadDirsFromFile (Some lines) PathStore_empty) as [d|e] eqn:Hl; [|done]. cbn in Hd. injection Hd as <-. cbn in *.
  unfold loadDirsFromFile in Hl. cbn in Hl. apply load_dir_lines_counts in Hl; [|done].
  rewrite (Permutation_length (list_sort_perm path_len_lt (paths d))) in *. rewrite Hl. apply u64_small. lia.
Qed.
(** The blocks of shared files of the [j]-th worker of a service. *)
Definition worker_part (t : CustomTree) (k j : Z) : list (string * Z * Z) :=
  let n := ta_numDataSetThreads a in
  let rank := k * ta_numThreads a + j in
  if splits_by_service a then worker_blocks (ct_filesShared t) (ta_numThreads a) j
  else if ta_useCustomTreeRoundRobin a
  then store_blocks (ta_blockSize a) (nth_from n rank 0 (concat (block_elems (ta_blockSize a) <$> big_files)))
  else worker_blocks (ct_filesShared t) n rank.

Definition is_small (p : PathStoreElem) : bool := totalLen p <? ta_fileShareSize a.

Lemma shared_is_big k : Forall (fun p => is_small p = false) (shared_paths k).
Proof.
  assert (Forall (fun p => is_small p = false) big_files) as Hb.
  { apply Forall_forall. intros p Hp%list_elem_of_In%filter_In. unfold in_sizes, is_small in *. lia. }
  unfold shared_paths. destruct (splits_by_service a); [|done]. apply nth_from_Forall.
  eapply Permutation_Forall; [symmetry; apply list_sort_perm|done].
Qed.

Lemma rank_in_range k j : 0 <= k < nsvc -> 0 <= j < ta_numThreads a -> 0 <= k * ta_numThreads a + j < ta_numDataSetThreads a.
Proof. intros Hk Hj. rewrite <- (tr_total _ _ _ _ _ Hrun). nia. Qed.

(** The shared files of a worker, behind those that it has already. *)
Lemma worker_shared_spec t k j out :
  service_tree k t -> 0 <= k < nsvc -> 0 <= j < ta_numThreads a -> out_counts out -> 0 <= numBlocksTotal out < TWO64 ->
  let rank := k * ta_numThreads a + j in
  exists sl out',
    (if splits_by_service a
     then Some (getWorkerSublistShared (ct_filesShared t) (rank -₆₄ (k * ta_numThreads a)) (ta_numThreads a) false out)
     else if ta_useCustomTreeRoundRobin a
     then getWorkerSublistSharedRoundRobin (ct_filesShared t) rank (ta_numDataSetThreads a) false out
     else Some (getWorkerSublistShared (ct_filesShared t) rank (ta_numDataSetThreads a) false out)) = Some (Ok out')
    /\ paths out' = paths out ++ sl /\ store_blocks (ta_blockSize a) sl = worker_part t k j
    /\ Forall (fun p => is_small p = false) sl.
Proof.
  intros Ht Hk Hj Hoc Hnb rank. pose proof threads_pos as (Hn & _ & HT). pose proof (rank_in_range k j Hk Hj) as Hr.
  pose proof (tr_max _ _ _ _ _ Hrun). pose proof (tr_threads _ _ _ _ _ Hrun). pose proof (shared_is_big k) as Hbig.
  assert (forall n r, 0 < n < TWO32 -> 0 <= r < n ->
    exists sl out', getWorkerSublistShared (ct_filesShared t) r n false out = Ok out'
      /\ paths out' = paths out ++ sl /\ store_blocks (ta_blockSize a) sl = worker_blocks (ct_filesShared t) n r
      /\ Forall (fun p => is_small p = false) sl) as Hshared.
  { intros n r Hn' Hr'. destruct (getWorkerSublistShared_onto _ n r out (st_shareable _ _ Ht) Hn' Hr' Hoc Hnb) as (sl & out' & Hg & Hp & Hb & _).
    rewrite (st_block _ _ Ht) in Hb.
    destruct (getWorkerSublistShared_lens (fun z => (z <? ta_fileShareSize a) = false) _ _ _ _ _
      ltac:(rewrite (st_shared _ _ Ht); exact Hbig) Hg) as (sl' & Hp' & Hf).
    rewrite Hp in Hp'. apply app_inv_head in Hp' as <-. by exists sl, out'. }
  unfold worker_part. fold rank. destruct (splits_by_service a) eqn:Hsplit.
  - replace (rank -₆₄ (k * ta_numThreads a)) with j by (unfold rank; rewrite u64_small; lia).
    destruct (Hshared (ta_numThreads a) j) as (sl & out' & -> & Hrest); [lia..|]. by exists sl, out'.
  - destruct (ta_useCustomTreeRoundRobin a).
    + destruct (st_shareable _ _ Ht) as (Hbs & Hall & Hsum & _ & Hnum). unfold getWorkerSublistSharedRoundRobin.
      rewrite (st_block _ _ Ht), (st_shared _ _ Ht) in *. unfold shared_paths in *. rewrite Hsplit in *.
      assert (big_files ⊆+ paths all) as Hsub by apply sublist_submseteq, list_filter_sublist.
      pose proof (part_sizes _ Hsub) as [Hsz _].
      destruct (rr_paths_spec (ta_blockSize a) rank (ta_numDataSetThreads a) big_files 0 out) as (out' & Heq & Hp);
        [lia|done|done|done| |].
      { pose proof (block_elems_count (ta_blockSize a) big_files ltac:(lia) Hall). lia. }
      exists (nth_from (ta_numDataSetThreads a) rank 0 (concat (block_elems (ta_blockSize a) <$> big_files))), out'.
      split; [by destruct big_files|]. split; [done|]. split; [done|]. apply nth_from_Forall, Forall_concat, Forall_fmap.
      eapply Forall_impl; [exact Hbig|]. intros p Hp'. cbn. apply Forall_fmap, Forall_forall. by intros i _.
    + destruct (Hshared (ta_numDataSetThreads a) rank) as (sl & out' & -> & Hrest); [lia..|]. by exists sl, out'.
Qed.
Lemma nonshared_small : Forall (fun p => is_small p = true) nonshared_paths /\ Forall (fun p => rangeLen p = totalLen p) nonshared_paths.
Proof.
  split; (eapply Permutation_Forall; [symmetry; apply nonshared_perm|]); apply Forall_forall; intros p [Hp Hs]%list_elem_of_In%filter_In.
  - unfold in_sizes, is_small in *. lia.
  - destruct all_loaded as [Hall _]. rewrite Forall_forall in Hall. apply list_elem_of_In, Hall in Hp as (_ & _ & Hl & _). done.
Qed.

Lemma filter_all_true {A} (f : A -> bool) l : Forall (fun x => f x = true) l -> List.filter f l = l.
Proof. induction 1 as [|x l Hx Hl IH]; [done|]. cbn. by rewrite Hx, IH. Qed.

Lemma filter_all_false {A} (f : A -> bool) l : Forall (fun x => f x = false) l -> List.filter f l = [].
Proof. induction 1 as [|x l Hx Hl IH]; [done|]. cbn. by rewrite Hx. Qed.

Lemma randomShuffle_perm shuffle st : (forall l, shuffle l ≡ₚ l) -> paths (randomShuffle shuffle st) ≡ₚ paths st.
Proof. intros Hs. cbn. rewrite Hs. by rewrite take_drop. Qed.

(** The lists of one worker. *)
Lemma worker_lists shuffle t k j :
  (forall l, shuffle l ≡ₚ l) -> service_tree k t -> 0 <= k < nsvc -> 0 <= j < ta_numThreads a ->
  let rank := k * ta_numThreads a + j in
  let n := ta_numDataSetThreads a in
  exists d f, prepareCustomTreePathStores (service_tree_args a k) shuffle t rank PathStore_empty PathStore_empty = Some (Ok (d, f))
    /\ paths d = nth_from n rank 0 (paths dirs)
    /\ store_blocks (ta_blockSize a) (paths f) ≡ₚ store_blocks (ta_blockSize a) (nth_from n rank 0 nonshared_paths) ++ worker_part t k j
    /\ List.filter is_small (paths f) ≡ₚ nth_from n rank 0 nonshared_paths.
Proof.
  intros Hsh Ht Hk Hj rank n. pose proof threads_pos as (Hn & _ & HT). pose proof (rank_in_range k j Hk Hj) as Hr.
  pose proof (tr_max _ _ _ _ _ Hrun) as Hmax. pose proof nonshared_small as [Hsmall Hwhole]. fold n in Hn, Hr, Hmax. fold rank in Hr.
  pose proof (tr_dir_count _ _ _ _ _ Hrun) as Hdc. fold n in Hdc.
  assert (small_files ⊆+ paths all) as Hsub by apply sublist_submseteq, list_filter_sublist.
  pose proof (part_sizes _ Hsub) as [_ Hlen]. rewrite <- (Permutation_length nonshared_perm) in Hlen. fold n in Hlen.
  destruct (getWorkerSublistNonShared_spec dirs n rank PathStore_empty) as (d & Hd & Hpd); [lia|apply dirs_num|rewrite dirs_num; lia|done|].
  destruct (getWorkerSublistNonShared_whole (ct_filesNonShared t) n rank PathStore_empty) as (f0 & Hf0 & Hpf0 & (Hoc & Hnb & _) & _);
    rewrite ?(st_nonshared _ _ Ht), ?(st_nonshared_num _ _ Ht); [lia|done|lia|done|done|apply (whole_counts_empty _ 0)|].
  rewrite (st_nonshared _ _ Ht) in Hpf0. cbn in Hpf0, Hpd.
  destruct (worker_shared_spec t k j f0 Ht Hk Hj Hoc Hnb) as (sl & f1 & Hf1 & Hpf1 & Hblk & Hbig). fold rank n in Hf1.
  set (f2 := if ta_useCustomTreeRandomize a then randomShuffle shuffle f1 else f1).
  assert (paths f2 ≡ₚ nth_from n rank 0 nonshared_paths ++ sl) as Hp2.
  { unfold f2. destruct (ta_useCustomTreeRandomize a); [rewrite randomShuffle_perm by done|]; by rewrite Hpf1, Hpf0. }
  exists d, f2. split.
  - unfold prepareCustomTreePathStores. cbn [service_tree_args ta_numThreads ta_numDataSetThreads ta_noDirectIOCheck ta_useDirectIO
      ta_useRandomOffsets ta_rankOffset ta_useCustomTreeRoundRobin ta_useCustomTreeRandomize].
    rewrite (st_dirs _ _ Ht), (tr_throw _ _ _ _ _ Hrun). fold n. rewrite Hd. cbn [and_then]. rewrite Hf0. cbn [and_then].
    fold (service_tree_args a k). change (splits_by_service (service_tree_args a k)) with (splits_by_service a). by rewrite Hf1.
  - split; [done|]. split; [rewrite (store_blocks_perm _ _ _ Hp2), store_blocks_app; by rewrite Hblk|].
    rewrite (list_filter_perm _ _ _ Hp2), List.filter_app, (filter_all_false _ sl) by done. rewrite app_nil_r.
    rewrite filter_all_true; [done|]. by apply nth_from_Forall.
Qed.
End run.

(** *** All workers of all services *)

(** The lists [F k j] of the [j]-th workers of the [k]-th services, one after the other. *)
Definition of_workers {A} (nsvc numThreads : Z) (F : Z -> Z -> list A) : list A :=
  concat ((fun k => concat (F k <$> seqZ 0 numThreads)) <$> seqZ 0 nsvc).

Lemma concat_perm_ext {A B} (f g : A -> list B) l : (forall x, x ∈ l -> f x ≡ₚ g x) -> concat (f <$> l) ≡ₚ concat (g <$> l).
Proof.
  induction l as [|x l IH]; intros Hfg; [done|]. rewrite !fmap_cons. cbn [concat]. rewrite (Hfg x) by by left.
  rewrite IH; [done|]. intros y Hy. apply Hfg. by right.
Qed.

Lemma concat_fmap_app {A B} (f g : A -> list B) l : concat ((fun x => f x ++ g x) <$> l) ≡ₚ concat (f <$> l) ++ concat (g <$> l).
Proof. induction l as [|x l IH]; [done|]. rewrite !fmap_cons. cbn [concat]. rewrite IH. solve_Permutation. Qed.

Section of_workers.
Context {A : Type} (nsvc numThreads : Z).

Lemma of_workers_perm (F G : Z -> Z -> list A) :
  (forall k j, 0 <= k < nsvc -> 0 <= j < numThreads -> F k j ≡ₚ G k j) -> of_workers nsvc numThreads F ≡ₚ of_workers nsvc numThreads G.
Proof.
  intros HFG. apply concat_perm_ext. intros k Hk%elem_of_seqZ. apply concat_perm_ext. intros j Hj%elem_of_seqZ. apply HFG; lia.
Qed.

Lemma of_workers_app (F G : Z -> Z -> list A) :
  of_workers nsvc numThreads (fun k j => F k j ++ G k j) ≡ₚ of_workers nsvc numThreads F ++ of_workers nsvc numThreads G.
Proof. unfold of_workers. rewrite <- concat_fmap_app. apply concat_perm_ext. intros k _. apply concat_fmap_app. Qed.

(** The ranks of all workers are consecutive. *)
Lemma of_workers_rank (G : Z -> list A) : 0 <= nsvc -> 0 <= numThreads ->
  of_workers nsvc numThreads (fun k j => G (k * numThreads + j)) = concat (G <$> seqZ 0 (nsvc * numThreads)).
Proof.
  intros Hs HT. rewrite <- concat_seqZ by done. unfold of_workers. induction (seqZ 0 nsvc) as [|k l IH]; [done|].
  rewrite !fmap_cons. cbn [concat]. rewrite fmap_app, concat_app, IH. f_equal. f_equal.
  replace (0 + k * numThreads) with (k * numThreads + 0) by lia. rewrite <- (fmap_add_seqZ (k * numThreads) 0), <- list_fmap_compose. done.
Qed.

Lemma of_workers_map {B} (h : list A -> list B) (F : Z -> Z -> list A) :
  h [] = [] -> (forall l k, h (l ++ k) = h l ++ h k) ->
  h (of_workers nsvc numThreads F) = of_workers nsvc numThreads (fun k j => h (F k j)).
Proof.
  intros H0 Happ. assert (forall f (l : list Z), h (concat (f <$> l)) = concat ((fun x => h (f x)) <$> l)) as Hc.
  { intros f l. induction l as [|x l IH]; [done|]. rewrite !fmap_cons. cbn [concat]. by rewrite Happ, IH. }
  unfold of_workers. rewrite Hc. f_equal. apply list_fmap_ext. intros i k _. apply Hc.
Qed.
End of_workers.

Lemma worker_blocks_same st st' n r : shareable st -> shareable st' -> paths st = paths st' -> blockSize st = blockSize st' ->
  worker_blocks st n r = worker_blocks st' n r.
Proof.
  intros (_ & _ & _ & _ & H) (_ & _ & _ & _ & H') Hp Hb. unfold worker_blocks. by rewrite H, H', Hp, Hb.
Qed.

(** The parts of all workers are all blocks of the shared files. *)
Lemma worker_parts_all a lines all dirs nsvc (tree : Z -> CustomTree) :
  tree_run_ok a lines all dirs nsvc -> (forall k, 0 <= k < nsvc -> service_tree a lines all dirs nsvc k (tree k)) ->
  of_workers nsvc (ta_numThreads a) (fun k j => worker_part a all (tree k) k j) ≡ₚ store_blocks (ta_blockSize a) (big_files a all).
Proof.
  intros Hrun Ht. pose proof (threads_pos _ _ _ _ _ Hrun) as (Hn & Hns & HT). pose proof (tr_services _ _ _ _ _ Hrun) as Hs.
  pose proof (tr_threads _ _ _ _ _ Hrun) as HT0. pose proof (tr_max _ _ _ _ _ Hrun) as Hmax. pose proof (tr_total _ _ _ _ _ Hrun) as Htot.
  assert (0 <= 0 < nsvc) as H0 by lia. unfold worker_part. destruct (splits_by_service a) eqn:Hsplit.
  - transitivity (store_blocks (ta_blockSize a) (list_sort file_size_lt (big_files a all))); [|apply store_blocks_perm, list_sort_perm].
    rewrite <- (store_blocks_perm _ _ _ (nth_from_partition nsvc 0 (list_sort file_size_lt (big_files a all)) Hs)), store_blocks_concat.
    apply concat_perm_ext. intros k Hk%elem_of_seqZ. specialize (Ht k ltac:(lia)).
    rewrite worker_blocks_concat; [|by eapply st_shareable|lia]. rewrite (st_block _ _ _ _ _ _ _ Ht), (st_shared _ _ _ _ _ _ _ Ht).
    unfold shared_paths. by rewrite Hsplit.
  - assert (paths (ct_filesShared (tree 0)) = big_files a all) as Hp0
      by (rewrite (st_shared _ _ _ _ _ _ _ (Ht 0 H0)); unfold shared_paths; by rewrite Hsplit).
    destruct (ta_useCustomTreeRoundRobin a).
    + rewrite (of_workers_rank nsvc (ta_numThreads a) (fun r => store_blocks (ta_blockSize a)
        (nth_from (ta_numDataSetThreads a) r 0 (concat (block_elems (ta_blockSize a) <$> big_files a all))))) by lia.
      rewrite <- store_blocks_concat, Htot. rewrite (store_blocks_perm _ _ _ (nth_from_partition _ 0 _ Hn)).
      rewrite all_block_elems_blocks; [done|apply (tr_block _ _ _ _ _ Hrun)|].
      destruct (st_shareable _ _ _ _ _ _ _ (Ht 0 H0)) as (_ & Hall & _). by rewrite Hp0 in Hall.
    + rewrite (of_workers_perm nsvc (ta_numThreads a) _
        (fun k j => worker_blocks (ct_filesShared (tree 0)) (ta_numDataSetThreads a) (k * ta_numThreads a + j))).
      * rewrite (of_workers_rank nsvc (ta_numThreads a) (worker_blocks (ct_filesShared (tree 0)) (ta_numDataSetThreads a))) by lia.
        rewrite Htot, worker_blocks_concat; [|by eapply st_shareable, Ht|lia]. by rewrite Hp0, (st_block _ _ _ _ _ _ _ (Ht 0 H0)).
      * intros k j Hk Hj. apply reflexive_eq, worker_blocks_same; [by eapply st_shareable, Ht..| |].
        { rewrite Hp0, (st_shared _ _ _ _ _ _ _ (Ht k Hk)). unfold shared_paths. by rewrite Hsplit. }
        by rewrite (st_block _ _ _ _ _ _ _ (Ht k Hk)), (st_block _ _ _ _ _ _ _ (Ht 0 H0)).
Qed.

(** Small and big files are all files. *)
Lemma files_partition a lines all dirs nsvc : tree_run_ok a lines all dirs nsvc ->
  small_files a all ++ big_files a all ≡ₚ paths all /\ List.filter (is_small a) (paths all) = small_files a all.
Proof.
  intros Hrun. destruct (all_loaded _ _ _ _ _ Hrun) as [Hall _]. unfold small_files, big_files.
  pose proof (tr_share _ _ _ _ _ Hrun). split; induction Hall as [|p l (_ & _ & _ & Hp & _) Hl IH]; try done; cbn; unfold in_sizes, is_small in *.
  - destruct (Z.leb_spec (totalLen p) (ta_fileShareSize a - 1)).
    + rewrite (proj2 (Z.leb_le 0 _)), (proj2 (Z.leb_gt (ta_fileShareSize a) _)) by lia. cbn. by rewrite IH.
    + rewrite andb_false_r, (proj2 (Z.leb_le (ta_fileShareSize a) _)), (proj2 (Z.leb_le _ MAX_FILE_SIZE)) by lia. cbn.
      by rewrite <- Permutation_middle, IH.
  - rewrite IH. destruct (Z.ltb_spec (totalLen p) (ta_fileShareSize a)).
    + by rewrite (proj2 (Z.leb_le 0 _)), (proj2 (Z.leb_le _ (ta_fileShareSize a - 1))) by lia.
    + by rewrite andb_comm, (proj2 (Z.leb_gt _ (ta_fileShareSize a - 1))) by lia.
Qed.

(** ** Theorems *)

(** C19: A custom tree is worked on completely and only once, whether it is divided among the workers
    of one process or of several services, by consecutive blocks or round-robin, and also when S3
    uploads are divided by service first.  All services load the tree file without error and every
    worker gets its lists; together the lists have every directory once, every block of every file
    once, and every file below the share size (empty files included) once and as a whole. *)
Theorem custom_tree_distributed a lines all dirs nsvc shuffle :
  tree_run_ok a lines all dirs nsvc -> (forall l, shuffle l ≡ₚ l) ->
  exists (tree : Z -> CustomTree) (wdirs wfiles : Z -> Z -> PathStore),
    (forall k j, 0 <= k < nsvc -> 0 <= j < ta_numThreads a ->
       loadCustomTreeFile (service_tree_args a k) (Some lines) CustomTree_empty = Some (Ok (tree k))
       /\ prepareCustomTreePathStores (service_tree_args a k) shuffle (tree k) (k * ta_numThreads a + j) PathStore_empty PathStore_empty
          = Some (Ok (wdirs k j, wfiles k j)))
    /\ of_workers nsvc (ta_numThreads a) (fun k j => paths (wdirs k j)) ≡ₚ paths dirs
    /\ store_blocks (ta_blockSize a) (of_workers nsvc (ta_numThreads a) (fun k j => paths (wfiles k j)))
       ≡ₚ store_blocks (ta_blockSize a) (paths all)
    /\ List.filter (is_small a) (of_workers nsvc (ta_numThreads a) (fun k j => paths (wfiles k j))) ≡ₚ List.filter (is_small a) (paths all).
Proof.
  intros Hrun Hsh. pose proof (threads_pos _ _ _ _ _ Hrun) as (Hn & _). pose proof (tr_services _ _ _ _ _ Hrun) as Hs.
  pose proof (tr_threads _ _ _ _ _ Hrun) as HT0. pose proof (tr_total _ _ _ _ _ Hrun) as Htot.
  set (tree k := match loadCustomTreeFile (service_tree_args a k) (Some lines) CustomTree_empty with Some (Ok t) => t | _ => CustomTree_empty end).
  assert (forall k, 0 <= k < nsvc -> service_tree a lines all dirs nsvc k (tree k)) as Ht.
  { intros k Hk. destruct (loadCustomTreeFile_spec _ _ _ _ _ Hrun k Hk) as [t Ht]. unfold tree. by rewrite (st_load _ _ _ _ _ _ _ Ht). }
  set (w k j := prepareCustomTreePathStores (service_tree_args a k) shuffle (tree k) (k * ta_numThreads a + j) PathStore_empty PathStore_empty).
  set (lists k j := match w k j with Some (Ok df) => df | _ => (PathStore_empty, PathStore_empty) end).
  exists tree, (fun k j => (lists k j).1), (fun k j => (lists k j).2).
  assert (forall k j, 0 <= k < nsvc -> 0 <= j < ta_numThreads a -> exists d f, w k j = Some (Ok (d, f)) /\ lists k j = (d, f)
    /\ paths d = nth_from (ta_numDataSetThreads a) (k * ta_numThreads a + j) 0 (paths dirs)
    /\ store_blocks (ta_blockSize a) (paths f)
       ≡ₚ store_blocks (ta_blockSize a) (nth_from (ta_numDataSetThreads a) (k * ta_numThreads a + j) 0 (nonshared_paths a all)) ++ worker_part a all (tree k) k j
    /\ List.filter (is_small a) (paths f) ≡ₚ nth_from (ta_numDataSetThreads a) (k * ta_numThreads a + j) 0 (nonshared_paths a all)) as Hw.
  { intros k j Hk Hj. destruct (worker_lists _ _ _ _ _ Hrun shuffle (tree k) k j Hsh (Ht k Hk) Hk Hj) as (d & f & Hp & Hrest).
    fold (w k j) in Hp. exists d, f. split; [done|]. unfold lists. by rewrite Hp. }
  destruct (files_partition _ _ _ _ _ Hrun) as [Hpart Hsmall].
  assert (forall A (l : list A), of_workers nsvc (ta_numThreads a) (fun k j => nth_from (ta_numDataSetThreads a) (k * ta_numThreads a + j) 0 l) ≡ₚ l) as Hranks.
  { intros A l. rewrite (of_workers_rank nsvc _ (fun r => nth_from (ta_numDataSetThreads a) r 0 l)) by lia. rewrite Htot. by apply nth_from_partition. }
  split_and!.
  - intros k j Hk Hj. split; [apply (st_load _ _ _ _ _ _ _ (Ht k Hk))|]. destruct (Hw k j Hk Hj) as (d & f & Hwk & Hl & _).
    rewrite Hl. exact Hwk.
  - rewrite <- (Hranks _ (paths dirs)). apply of_workers_perm. intros k j Hk Hj.
    destruct (Hw k j Hk Hj) as (d & f & _ & -> & Hd & _). cbn [fst]. by rewrite Hd.
  - rewrite (of_workers_map _ _ (store_blocks (ta_blockSize a))) by (done || intros; apply store_blocks_app).
    rewrite <- (store_blocks_perm _ _ _ Hpart), store_blocks_app.
    rewrite <- (worker_parts_all _ _ _ _ _ tree Hrun Ht).
    rewrite <- (store_blocks_perm _ _ _ (nonshared_perm a all)), <- (store_blocks_perm _ _ _ (Hranks _ (nonshared_paths a all))).
    rewrite (of_workers_map _ _ (store_blocks (ta_blockSize a))) by (done || intros; apply store_blocks_app).
    rewrite <- of_workers_app. apply of_workers_perm. intros k j Hk Hj. destruct (Hw k j Hk Hj) as (d & f & _ & -> & _ & Hb & _). exact Hb.
  - rewrite (of_workers_map _ _ (List.filter (is_small a))) by (done || intros; apply List.filter_app).
    rewrite Hsmall, <- (nonshared_perm a all), <- (Hranks _ (nonshared_paths a all)). apply of_workers_perm. intros k j Hk Hj.
    destruct (Hw k j Hk Hj) as (d & f & _ & -> & _ & _ & Hf). exact Hf.
Qed.

(** ** Witness *)

Definition demo_tree_args : TreeArgs :=
  mkTreeArgs BenchMode_S3 true true false true false false false false 4 8 0 2 4 0 false false true false false false.

Definition demo_lines : list string := ["# demo"; "d sub"; "f 3 small"; "f 22 sub/big"; "f 0 empty"; "f 9 other"].

Definition demo_all : PathStore :=
  mkStore 4 10 34 4 [mkElem "small" 3 0 3; mkElem "sub/big" 22 0 22; mkElem "empty" 0 0 0; mkElem "other" 9 0 9].
Definition demo_dirs : PathStore := mkStore 0 0 0 1 [mkElem "sub" 0 0 0].

Lemma demo_tree_run : tree_run_ok demo_tree_args demo_lines demo_all demo_dirs 2.
Proof. split; vm_compute; done. Qed.

Lemma custom_tree_distributed_witness :
  exists (tree : Z -> CustomTree) (wdirs wfiles : Z -> Z -> PathStore),
    (forall k j, 0 <= k < 2 -> 0 <= j < 2 ->
       prepareCustomTreePathStores (service_tree_args demo_tree_args k) reverse (tree k) (k * 2 + j) PathStore_empty PathStore_empty
       = Some (Ok (wdirs k j, wfiles k j)))
    /\ store_blocks 4 (of_workers 2 2 (fun k j => paths (wfiles k j))) ≡ₚ store_blocks 4 (paths demo_all).
Proof.
  destruct (custom_tree_distributed demo_tree_args demo_lines demo_all demo_dirs 2 reverse demo_tree_run) as (tree & wdirs & wfiles & Hw & _ & Hb & _);
    [apply reverse_Permutation|].
  exists tree, wdirs, wfiles. split; [|exact Hb]. intros k j Hk Hj. apply (Hw k j Hk Hj).
Defined.

(** The division by service in this example: the second service has the larger file for itself. *)
Example demo_service_division :
  (fun t => path <$> paths (ct_filesShared t)) <$> [0; 1] ≫= (fun k =>
    match loadCustomTreeFile (service_tree_args demo_tree_args k) (Some demo_lines) CustomTree_empty with Some (Ok t) => [t] | _ => [] end)
  = [["other"]; ["sub/big"]].
Proof. reflexivity. Qed.
