(* ===== verification/PropertyTree.v ===== *)
(** Property trees ([boost::property_tree]), in which arguments and results travel between the master
    and the services: a list of keys with texts, and how values are written to and read from the
    text of a node.  The transport as JSON is that of the library and not part of the model. *)

From S2P Require Import Prelude CppStrings StringTk PathStore TranslatorTk.
From Stdlib Require String.

#[local] Open Scope list_scope.
#[local] Open Scope Z_scope.

(** ** Definitions *)

Definition arg_tree : Type := list (string * string).

Fixpoint ptree_get (tree : arg_tree) (key : string) : option string :=
  match tree with
  | [] => None
  | (k, v) :: tree => if String.eqb k key then Some v else ptree_get tree key
  end.

(** [tree.put(key, value)]: replaces the value of a key that is there. *)
Fixpoint ptree_put (key value : string) (tree : arg_tree) : arg_tree :=
  match tree with
  | [] => [(key, value)]
  | (k, v) :: tree => if String.eqb k key then (k, value) :: tree else (k, v) :: ptree_put key value tree
  end.

Definition ptree_puts (entries : list (string * string)) : arg_tree :=
  foldl (fun tree '(k, v) => ptree_put k v tree) [] entries.

(** [boost::property_tree::stream_translator]: how values are written to and read from the text of
    a node.  Behind the value there may only be white space. *)

Definition print_bool (b : bool) : string := if b then "true" else "false".
Definition print_int (z : Z) : string := if z <? 0 then "-" +:+ to_string (- z) else to_string z.

Definition only_ws (s : string) : bool := String.eqb (skip_spaces s) "".

(** An unsigned integer of [bits] bits; a minus sign negates modulo [2 ^ bits]. *)
Definition parse_uint (bits : Z) (s : string) : option Z :=
  let '(neg, s) := scan_sign s in
  let '(digits, rest) := take_digits s in
  if String.eqb digits "" then None
  else
    let v := fst (scan_digits digits 0 false) in
    if 2 ^ bits <=? v then None
    else if only_ws rest then Some (if neg : bool then (- v) `mod` 2 ^ bits else v) else None.

(** An [int]. *)
Definition parse_int (s : string) : option Z :=
  let '(neg, s) := scan_sign s in
  let '(digits, rest) := take_digits s in
  if String.eqb digits "" then None
  else
    let v := fst (scan_digits digits 0 false) in
    if (if neg : bool then 2 ^ 31 <? v else 2 ^ 31 <=? v) then None
    else if only_ws rest then Some (if neg : bool then - v else v) else None.

(** A [bool]: the numbers 0 and 1, or else a name behind what was read of a number. *)
Definition parse_bool (s : string) : option bool :=
  let '(neg, s) := scan_sign s in
  let '(digits, rest) := take_digits s in
  let v := fst (scan_digits digits 0 false) in
  if negb (String.eqb digits "") && ((v =? 0) || ((v =? 1) && negb neg))
  then if only_ws rest then Some (v =? 1) else None
  else
    match strip_prefix "true" (skip_spaces rest), strip_prefix "false" (skip_spaces rest) with
    | Some rest, _ => if only_ws rest then Some true else None
    | _, Some rest => if only_ws rest then Some false else None
    | None, None => None
    end.

(** [tree.get<T>(key)] *)
Definition tree_get {A} (parse : string -> option A) (tree : arg_tree) (key : string) : result A :=
  match ptree_get tree key ≫= parse with Some a => Ok a | None => Throw (PtreeError key) end.

Definition get_str : arg_tree -> string -> result string := tree_get Some.
Definition get_bool : arg_tree -> string -> result bool := tree_get parse_bool.
Definition get_int : arg_tree -> string -> result Z := tree_get parse_int.
Definition get_uint (bits : Z) : arg_tree -> string -> result Z := tree_get (parse_uint bits).

(** ** Lemmas *)

(** *** Property trees *)

Lemma ptree_put_new k v (t : arg_tree) : k ∉ t.*1 -> ptree_put k v t = t ++ [(k, v)].
Proof.
  induction t as [|[k' v'] t IH]; [done|]. cbn. rewrite not_elem_of_cons. intros [Hk Ht].
  destruct (String.eqb_spec k' k) as [->|]; [done|]. by rewrite IH.
Qed.

Lemma ptree_puts_onto (l acc : arg_tree) : NoDup (acc.*1 ++ l.*1) -> foldl (fun tree '(k, v) => ptree_put k v tree) acc l = acc ++ l.
Proof.
  revert acc. induction l as [|[k v] l IH]; intros acc; cbn; [intros _; by rewrite app_nil_r|]. intros Hnd.
  rewrite ptree_put_new.
  - rewrite IH; [by rewrite <- app_assoc|]. rewrite fmap_app, <- app_assoc. exact Hnd.
  - apply NoDup_app in Hnd as (_ & Hd & _). intros Hk. apply (Hd k Hk). by left.
Qed.

Lemma ptree_puts_distinct l : NoDup l.*1 -> ptree_puts l = l.
Proof. intros Hnd. by apply (ptree_puts_onto l []). Qed.

(** *** Numbers and names *)

Lemma to_string_some v : 0 <= v -> String.eqb (to_string v) "" = false.
Proof.
  intros Hv. apply String.eqb_neq. destruct (digits_onto_head 19 v "" Hv) as (d & r & Hd & _).
  unfold to_string. by rewrite Hd.
Qed.

(** The digits of a printed number and their value. *)
Lemma scan_printed v : 0 <= v < TWO64 ->
  take_digits (to_string v) = (to_string v, "") /\ fst (scan_digits (to_string v) 0 false) = v.
Proof.
  intros Hv. pose proof (take_digits_to_string v "" Hv I) as Ht. pose proof (scan_to_string v "" Hv I) as Hs.
  rewrite str_app_nil_r in Ht, Hs. by rewrite Hs.
Qed.

Lemma scan_sign_printed v : 0 <= v -> scan_sign (to_string v) = (false, to_string v).
Proof. intros Hv. pose proof (scan_sign_to_string v "" Hv) as Hs. by rewrite str_app_nil_r in Hs. Qed.

Lemma parse_uint_to_string bits v : 0 <= bits <= 64 -> 0 <= v < 2 ^ bits -> parse_uint bits (to_string v) = Some v.
Proof.
  intros Hb Hv. assert (v < TWO64) by (pose proof (Z.pow_le_mono_r 2 bits 64); lia).
  unfold parse_uint. rewrite scan_sign_printed by lia. destruct (scan_printed v) as [-> ->]; [lia|].
  rewrite to_string_some by lia. by rewrite (proj2 (Z.leb_gt _ _)) by lia.
Qed.

Lemma parse_int_print z : - 2 ^ 31 <= z < 2 ^ 31 -> parse_int (print_int z) = Some z.
Proof.
  intros Hz. unfold parse_int, print_int. destruct (Z.ltb_spec z 0) as [Hneg|Hpos].
  - change ("-" +:+ to_string (- z)) with (String "-" (to_string (- z))).
    assert (scan_sign (String "-" (to_string (- z))) = (true, to_string (- z))) as -> by done.
    destruct (scan_printed (- z)) as [-> ->]; [lia|]. rewrite to_string_some by lia.
    destruct (Z.ltb_spec (2 ^ 31) (- z)); [lia|]. cbn. f_equal. lia.
  - rewrite scan_sign_printed by lia. destruct (scan_printed z) as [-> ->]; [lia|]. rewrite to_string_some by lia.
    by destruct (Z.leb_spec (2 ^ 31) z); [lia|].
Qed.

Lemma parse_bool_print b : parse_bool (print_bool b) = Some b.
Proof. by destruct b. Qed.

(** *** Reading what was written *)

Section reading.
Context (tree : arg_tree).

Lemma get_str_ok k v : ptree_get tree k = Some v -> get_str tree k = Ok v.
Proof. unfold get_str, tree_get. by intros ->. Qed.

Lemma get_bool_ok k b : ptree_get tree k = Some (print_bool b) -> get_bool tree k = Ok b.
Proof. unfold get_bool, tree_get. intros ->. cbn. by rewrite parse_bool_print. Qed.

Lemma get_int_ok k z : ptree_get tree k = Some (print_int z) -> - 2 ^ 31 <= z < 2 ^ 31 -> get_int tree k = Ok z.
Proof. unfold get_int, tree_get. intros -> Hz. change (Some ?x ≫= ?f) with (f x). by rewrite parse_int_print. Qed.

Lemma get_uint_ok bits k v : ptree_get tree k = Some (to_string v) -> 0 <= bits <= 64 -> 0 <= v < 2 ^ bits -> get_uint bits tree k = Ok v.
Proof. unfold get_uint, tree_get. intros -> Hb Hv. change (Some ?x ≫= ?f) with (f x). by rewrite parse_uint_to_string. Qed.
End reading.

Lemma bind_Ok {A B} (m : result A) (f : A -> result B) a : m = Ok a -> (m ≫= f) = f a.
Proof. by intros ->. Qed.

Lemma ptree_get_elem (l : arg_tree) k v : ptree_get l k = Some v -> (k, v) ∈ l.
Proof.
  induction l as [|[k' v'] l IH]; [done|]. cbn. destruct (String.eqb_spec k' k) as [->|].
  - intros [= ->]. by left.
  - intros Hl. right. by apply IH.
Qed.

Lemma ptree_get_distinct (l : arg_tree) k v : NoDup l.*1 -> (k, v) ∈ l -> ptree_get l k = Some v.
Proof.
  induction l as [|[k' v'] l IH]; [by intros _ ?%elem_of_nil|]. cbn. intros [Hk' Hnd]%NoDup_cons [[= -> ->]|Hl]%elem_of_cons.
  - by rewrite String.eqb_refl.
  - destruct (String.eqb_spec k' k) as [->|]; [|by apply IH].
    destruct Hk'. by apply (list_elem_of_fmap_2 fst) in Hl.
Qed.
