(* ===== verification/ServiceArgs.v ===== *)
(** The program arguments on their way to the services (ProgArgs.cpp,
    [getAsPropertyTreeForService()] and [setFromPropertyTreeForService()]): the master puts its
    arguments into a property tree for each service, and the service takes its arguments from the
    tree.  [CommonArgs] are the members that are sent as they are; [ServiceArgs] adds those that
    the master computes for each service and those that only the master uses. *)

From S2P Require Import Prelude Common CppStrings UnitTk RandAlgo BlockSizeMix StringTk PathStore TranslatorTk PropertyTree.
From Stdlib Require String.

#[local] Open Scope list_scope.
#[local] Open Scope Z_scope.

(** ** Definitions *)

(** *** Arguments *)

Record CommonArgs : Type := mkCommonArgs {
  cm_benchLabel : string;
  cm_benchMode : Z;
  cm_benchPathStr : string;
  cm_blockVarianceAlgo : string;
  cm_blockVariancePercent : Z;
  cm_doDirectVerify : bool;
  cm_doDirSharing : bool;
  cm_doInfiniteIOLoop : bool;
  cm_doPreallocFile : bool;
  cm_doReadInline : bool;
  cm_doReverseSeqOffsets : bool;
  cm_doS3AclPutInline : bool;
  cm_doS3AclVerify : bool;
  cm_doS3ListObjVerify : bool;
  cm_doStatInline : bool;
  cm_doS3BucketTag : bool;
  cm_doS3BucketTagVerify : bool;
  cm_doS3BucketVersioning : bool;
  cm_doS3BucketVersioningVerify : bool;
  cm_doS3ObjectTag : bool;
  cm_doS3ObjectTagVerify : bool;
  cm_doS3ObjectLockCfg : bool;
  cm_doS3ObjectLockCfgVerify : bool;
  cm_doTruncate : bool;
  cm_doTruncToSize : bool;
  cm_fadviseFlags : Z;
  cm_fileOffset : Z;
  cm_fileShareSize : Z;
  cm_fileSize : Z;
  cm_flockType : Z;
  cm_ignore0USecErrors : bool;
  cm_ignoreDelErrors : bool;
  cm_ignoreS3Errors : bool;
  cm_integrityCheckSalt : Z;
  cm_ioDepth : Z;
  cm_limitReadBps : Z;
  cm_limitWriteBps : Z;
  cm_madviseFlags : Z;
  cm_netBenchRespSize : Z;
  cm_noDirectIOCheck : bool;
  cm_numDirs : Z;
  cm_numFiles : Z;
  cm_numNetBenchServers : Z;
  cm_numRWMixReadThreads : Z;
  cm_numThreads : Z;
  cm_opsLogPath : string;
  cm_randOffsetAlgo : string;
  cm_randomAmount : Z;
  cm_runCreateDirsPhase : bool;
  cm_runCreateFilesPhase : bool;
  cm_runDeleteDirsPhase : bool;
  cm_runDeleteFilesPhase : bool;
  cm_runDropCachesPhase : bool;
  cm_runReadPhase : bool;
  cm_runS3AclGet : bool;
  cm_runS3AclPut : bool;
  cm_runS3BucketAclGet : bool;
  cm_runS3BucketAclPut : bool;
  cm_runS3ListObjNum : Z;
  cm_runS3ListObjParallel : bool;
  cm_runS3MPUSharingCompletionPhase : bool;
  cm_runS3MultiDelObjNum : Z;
  cm_s3IgnoreMultipartUpload404 : bool;
  cm_runS3StatDirs : bool;
  cm_runStatFilesPhase : bool;
  cm_runSyncPhase : bool;
  cm_rwMixReadPercent : Z;
  cm_rwMixThreadsReadPercent : Z;
  cm_s3AccessKey : string;
  cm_s3AccessSecret : string;
  cm_s3AclGrantee : string;
  cm_s3AclGranteePermissions : string;
  cm_s3AclGranteeType : string;
  cm_s3CredentialsFile : string;
  cm_s3CredentialsList : string;
  cm_s3EndpointsStr : string;
  cm_s3MaxConnections : Z;
  cm_s3MpuSizeVariance : Z;
  cm_s3MpuSplitSize : Z;
  cm_s3NoCompression : bool;
  cm_s3NoMpuCompletion : bool;
  cm_s3ObjectPrefix : string;
  cm_s3Region : string;
  cm_s3SessionToken : string;
  cm_s3SignPolicy : Z;
  cm_s3SSECKey : string;
  cm_s3SSEKMSKey : string;
  cm_s3ThroughputTargetGbps : Z;
  cm_showThroughputBase10 : bool;
  cm_sockRecvBufSize : Z;
  cm_sockSendBufSize : Z;
  cm_spdkConfJSON : string;
  cm_treeRoundUpSize : Z;
  cm_useCuFile : bool;
  cm_useCuFileDriverOpen : bool;
  cm_useCuHostBufReg : bool;
  cm_useCustomTreeRandomize : bool;
  cm_useCustomTreeRoundRobin : bool;
  cm_useDirectIO : bool;
  cm_useGDSBufReg : bool;
  cm_useHDFS : bool;
  cm_useMmap : bool;
  cm_useNetBench : bool;
  cm_useNoFDSharing : bool;
  cm_useOpsLogLocking : bool;
  cm_useRandomUnaligned : bool;
  cm_useRandomOffsets : bool;
  cm_useS3ClientSingleton : bool;
  cm_useS3FastRead : bool;
  cm_useS3MPUSharing : bool;
  cm_useS3RandObjSelect : bool;
  cm_useS3SSE : bool;
  cm_useS3VirtualAddressing : bool;
  cm_useStridedAccess : bool;
  cm_numDataSetThreads : Z;
}.

(** The members that are sent as they are, in the order of the code. *)
Definition common_entries (c : CommonArgs) : list (string * string) :=
  [("blockvarpct", to_string (cm_blockVariancePercent c)); ("blockvaralgo", cm_blockVarianceAlgo c);
     ("label", cm_benchLabel c); ("benchmode", to_string (cm_benchMode c)); ("path", cm_benchPathStr c);
     ("mkdirs", print_bool (cm_runCreateDirsPhase c)); ("write", print_bool (cm_runCreateFilesPhase c));
     ("cufile", print_bool (cm_useCuFile c)); ("cufiledriveropen", print_bool (cm_useCuFileDriverOpen c));
     ("cuhostbufreg", print_bool (cm_useCuHostBufReg c)); ("deldirs", print_bool (cm_runDeleteDirsPhase c));
     ("delfiles", print_bool (cm_runDeleteFilesPhase c)); ("dirsharing", print_bool (cm_doDirSharing c));
     ("direct", print_bool (cm_useDirectIO c)); ("dropcache", print_bool (cm_runDropCachesPhase c));
     ("fadv", to_string (cm_fadviseFlags c)); ("offset", to_string (cm_fileOffset c));
     ("sharesize", to_string (cm_fileShareSize c)); ("size", to_string (cm_fileSize c));
     ("flock", to_string (cm_flockType c)); ("gdsbufreg", print_bool (cm_useGDSBufReg c));
     ("hdfs", print_bool (cm_useHDFS c)); ("no0usecerr", print_bool (cm_ignore0USecErrors c));
     ("nodelerr", print_bool (cm_ignoreDelErrors c)); ("infloop", print_bool (cm_doInfiniteIOLoop c));
     ("verify", to_string (cm_integrityCheckSalt c)); ("iodepth", to_string (cm_ioDepth c));
     ("limitread", to_string (cm_limitReadBps c)); ("limitwrite", to_string (cm_limitWriteBps c));
     ("madv", to_string (cm_madviseFlags c)); ("mmap", print_bool (cm_useMmap c));
     ("netbench", print_bool (cm_useNetBench c)); ("datasetthreads", to_string (cm_numDataSetThreads c));
     ("dirs", to_string (cm_numDirs c)); ("files", to_string (cm_numFiles c));
     ("numservers", to_string (cm_numNetBenchServers c)); ("threads", to_string (cm_numThreads c));
     ("nofdsharing", print_bool (cm_useNoFDSharing c)); ("nodiocheck", print_bool (cm_noDirectIOCheck c));
     ("opsloglock", print_bool (cm_useOpsLogLocking c)); ("opslog", cm_opsLogPath c);
     ("preallocfile", print_bool (cm_doPreallocFile c)); ("norandalign", print_bool (cm_useRandomUnaligned c));
     ("randamount", to_string (cm_randomAmount c)); ("rand", print_bool (cm_useRandomOffsets c));
     ("randalgo", cm_randOffsetAlgo c); ("read", print_bool (cm_runReadPhase c));
     ("readinline", print_bool (cm_doReadInline c)); ("recvbuf", print_int (cm_sockRecvBufSize c));
     ("respsize", to_string (cm_netBenchRespSize c)); ("backward", print_bool (cm_doReverseSeqOffsets c));
     ("rwmixpct", to_string (cm_rwMixReadPercent c)); ("rwmixthr", to_string (cm_numRWMixReadThreads c));
     ("rwmixthrpct", to_string (cm_rwMixThreadsReadPercent c)); ("s3key", cm_s3AccessKey c);
     ("s3secret", cm_s3AccessSecret c); ("s3aclget", print_bool (cm_runS3AclGet c));
     ("s3aclgrantee", cm_s3AclGrantee c); ("s3aclgtype", cm_s3AclGranteeType c);
     ("s3aclgrants", cm_s3AclGranteePermissions c); ("s3aclput", print_bool (cm_runS3AclPut c));
     ("s3aclputinl", print_bool (cm_doS3AclPutInline c)); ("s3aclverify", print_bool (cm_doS3AclVerify c));
     ("s3baclget", print_bool (cm_runS3BucketAclGet c)); ("s3baclput", print_bool (cm_runS3BucketAclPut c));
     ("s3btag", print_bool (cm_doS3BucketTag c)); ("s3btagverify", print_bool (cm_doS3BucketTagVerify c));
     ("s3bversion", print_bool (cm_doS3BucketVersioning c));
     ("s3bversionverify", print_bool (cm_doS3BucketVersioningVerify c));
     ("s3single", print_bool (cm_useS3ClientSingleton c)); ("s3credfile", cm_s3CredentialsFile c);
     ("s3credlist", cm_s3CredentialsList c); ("s3endpoints", cm_s3EndpointsStr c);
     ("s3fastget", print_bool (cm_useS3FastRead c)); ("s3ignoreerrors", print_bool (cm_ignoreS3Errors c));
     ("s3listobj", to_string (cm_runS3ListObjNum c)); ("s3listobjpar", print_bool (cm_runS3ListObjParallel c));
     ("s3listverify", print_bool (cm_doS3ListObjVerify c)); ("s3maxconns", to_string (cm_s3MaxConnections c));
     ("s3mpusharing", print_bool (cm_useS3MPUSharing c));
     ("s3mpucomplphase", print_bool (cm_runS3MPUSharingCompletionPhase c));
     ("s3mpusizevar", to_string (cm_s3MpuSizeVariance c)); ("s3mpusplit", to_string (cm_s3MpuSplitSize c));
     ("s3multidel", to_string (cm_runS3MultiDelObjNum c));
     ("s3multiignore404", print_bool (cm_s3IgnoreMultipartUpload404 c));
     ("s3nocompress", print_bool (cm_s3NoCompression c)); ("s3nompucompl", print_bool (cm_s3NoMpuCompletion c));
     ("s3objprefix", cm_s3ObjectPrefix c); ("s3olockcfg", print_bool (cm_doS3ObjectLockCfg c));
     ("s3olockcfgverify", print_bool (cm_doS3ObjectLockCfgVerify c)); ("s3otag", print_bool (cm_doS3ObjectTag c));
     ("s3otagverify", print_bool (cm_doS3ObjectTagVerify c)); ("s3randobj", print_bool (cm_useS3RandObjSelect c));
     ("s3region", cm_s3Region c); ("s3sessiontoken", cm_s3SessionToken c); ("s3sign", to_string (cm_s3SignPolicy c));
     ("s3sse", print_bool (cm_useS3SSE c)); ("s3sseckey", cm_s3SSECKey c); ("s3ssekmskey", cm_s3SSEKMSKey c);
     ("s3statdirs", print_bool (cm_runS3StatDirs c)); ("s3targetgbps", to_string (cm_s3ThroughputTargetGbps c));
     ("s3virtaddr", print_bool (cm_useS3VirtualAddressing c)); ("sendbuf", print_int (cm_sockSendBufSize c));
     ("spdkconf", cm_spdkConfJSON c); ("stat", print_bool (cm_runStatFilesPhase c));
     ("statinline", print_bool (cm_doStatInline c)); ("strided", print_bool (cm_useStridedAccess c));
     ("sync", print_bool (cm_runSyncPhase c)); ("base10", print_bool (cm_showThroughputBase10 c));
     ("trunc", print_bool (cm_doTruncate c)); ("trunctosize", print_bool (cm_doTruncToSize c));
     ("treerand", print_bool (cm_useCustomTreeRandomize c));
     ("treeroundrob", print_bool (cm_useCustomTreeRoundRobin c)); ("treeroundup", to_string (cm_treeRoundUpSize c));
     ("verifydirect", print_bool (cm_doDirectVerify c))].

(** The members of unsigned types with their widths. *)
Definition common_uints (c : CommonArgs) : list (Z * Z) :=
  [(16, cm_benchMode c); (32, cm_blockVariancePercent c); (32, cm_fadviseFlags c); (64, cm_fileOffset c);
     (64, cm_fileShareSize c); (64, cm_fileSize c); (16, cm_flockType c); (64, cm_integrityCheckSalt c);
     (64, cm_ioDepth c); (64, cm_limitReadBps c); (64, cm_limitWriteBps c); (32, cm_madviseFlags c);
     (64, cm_netBenchRespSize c); (64, cm_numDirs c); (64, cm_numFiles c); (32, cm_numNetBenchServers c);
     (64, cm_numRWMixReadThreads c); (64, cm_numThreads c); (64, cm_randomAmount c); (64, cm_runS3ListObjNum c);
     (64, cm_runS3MultiDelObjNum c); (32, cm_rwMixReadPercent c); (32, cm_rwMixThreadsReadPercent c);
     (32, cm_s3MaxConnections c); (64, cm_s3MpuSizeVariance c); (64, cm_s3MpuSplitSize c); (16, cm_s3SignPolicy c);
     (32, cm_s3ThroughputTargetGbps c); (64, cm_treeRoundUpSize c); (64, cm_numDataSetThreads c)].

Definition common_ints (c : CommonArgs) : list Z := [cm_sockRecvBufSize c; cm_sockSendBufSize c].

Definition read_common (tree : arg_tree) : result CommonArgs :=
  benchLabel ← get_str tree "label";
  benchMode ← get_uint 16 tree "benchmode";
  benchPathStr ← get_str tree "path";
  blockVarianceAlgo ← get_str tree "blockvaralgo";
  blockVariancePercent ← get_uint 32 tree "blockvarpct";
  doDirectVerify ← get_bool tree "verifydirect";
  doDirSharing ← get_bool tree "dirsharing";
  doInfiniteIOLoop ← get_bool tree "infloop";
  doPreallocFile ← get_bool tree "preallocfile";
  doReadInline ← get_bool tree "readinline";
  doReverseSeqOffsets ← get_bool tree "backward";
  doS3AclPutInline ← get_bool tree "s3aclputinl";
  doS3AclVerify ← get_bool tree "s3aclverify";
  doS3ListObjVerify ← get_bool tree "s3listverify";
  doStatInline ← get_bool tree "statinline";
  doS3BucketTag ← get_bool tree "s3btag";
  doS3BucketTagVerify ← get_bool tree "s3btagverify";
  doS3BucketVersioning ← get_bool tree "s3bversion";
  doS3BucketVersioningVerify ← get_bool tree "s3bversionverify";
  doS3ObjectTag ← get_bool tree "s3otag";
  doS3ObjectTagVerify ← get_bool tree "s3otagverify";
  doS3ObjectLockCfg ← get_bool tree "s3olockcfg";
  doS3ObjectLockCfgVerify ← get_bool tree "s3olockcfgverify";
  doTruncate ← get_bool tree "trunc";
  doTruncToSize ← get_bool tree "trunctosize";
  fadviseFlags ← get_uint 32 tree "fadv";
  fileOffset ← get_uint 64 tree "offset";
  fileShareSize ← get_uint 64 tree "sharesize";
  fileSize ← get_uint 64 tree "size";
  flockType ← get_uint 16 tree "flock";
  ignore0USecErrors ← get_bool tree "no0usecerr";
  ignoreDelErrors ← get_bool tree "nodelerr";
  ignoreS3Errors ← get_bool tree "s3ignoreerrors";
  integrityCheckSalt ← get_uint 64 tree "verify";
  ioDepth ← get_uint 64 tree "iodepth";
  limitReadBps ← get_uint 64 tree "limitread";
  limitWriteBps ← get_uint 64 tree "limitwrite";
  madviseFlags ← get_uint 32 tree "madv";
  netBenchRespSize ← get_uint 64 tree "respsize";
  noDirectIOCheck ← get_bool tree "nodiocheck";
  numDirs ← get_uint 64 tree "dirs";
  numFiles ← get_uint 64 tree "files";
  numNetBenchServers ← get_uint 32 tree "numservers";
  numRWMixReadThreads ← get_uint 64 tree "rwmixthr";
  numThreads ← get_uint 64 tree "threads";
  opsLogPath ← get_str tree "opslog";
  randOffsetAlgo ← get_str tree "randalgo";
  randomAmount ← get_uint 64 tree "randamount";
  runCreateDirsPhase ← get_bool tree "mkdirs";
  runCreateFilesPhase ← get_bool tree "write";
  runDeleteDirsPhase ← get_bool tree "deldirs";
  runDeleteFilesPhase ← get_bool tree "delfiles";
  runDropCachesPhase ← get_bool tree "dropcache";
  runReadPhase ← get_bool tree "read";
  runS3AclGet ← get_bool tree "s3aclget";
  runS3AclPut ← get_bool tree "s3aclput";
  runS3BucketAclGet ← get_bool tree "s3baclget";
  runS3BucketAclPut ← get_bool tree "s3baclput";
  runS3ListObjNum ← get_uint 64 tree "s3listobj";
  runS3ListObjParallel ← get_bool tree "s3listobjpar";
  runS3MPUSharingCompletionPhase ← get_bool tree "s3mpucomplphase";
  runS3MultiDelObjNum ← get_uint 64 tree "s3multidel";
  s3IgnoreMultipartUpload404 ← get_bool tree "s3multiignore404";
  runS3StatDirs ← get_bool tree "s3statdirs";
  runStatFilesPhase ← get_bool tree "stat";
  runSyncPhase ← get_bool tree "sync";
  rwMixReadPercent ← get_uint 32 tree "rwmixpct";
  rwMixThreadsReadPercent ← get_uint 32 tree "rwmixthrpct";
  s3AccessKey ← get_str tree "s3key";
  s3AccessSecret ← get_str tree "s3secret";
  s3AclGrantee ← get_str tree "s3aclgrantee";
  s3AclGranteePermissions ← get_str tree "s3aclgrants";
  s3AclGranteeType ← get_str tree "s3aclgtype";
  s3CredentialsFile ← get_str tree "s3credfile";
  s3CredentialsList ← get_str tree "s3credlist";
  s3EndpointsStr ← get_str tree "s3endpoints";
  s3MaxConnections ← get_uint 32 tree "s3maxconns";
  s3MpuSizeVariance ← get_uint 64 tree "s3mpusizevar";
  s3MpuSplitSize ← get_uint 64 tree "s3mpusplit";
  s3NoCompression ← get_bool tree "s3nocompress";
  s3NoMpuCompletion ← get_bool tree "s3nompucompl";
  s3ObjectPrefix ← get_str tree "s3objprefix";
  s3Region ← get_str tree "s3region";
  s3SessionToken ← get_str tree "s3sessiontoken";
  s3SignPolicy ← get_uint 16 tree "s3sign";
  s3SSECKey ← get_str tree "s3sseckey";
  s3SSEKMSKey ← get_str tree "s3ssekmskey";
  s3ThroughputTargetGbps ← get_uint 32 tree "s3targetgbps";
  showThroughputBase10 ← get_bool tree "base10";
  sockRecvBufSize ← get_int tree "recvbuf";
  sockSendBufSize ← get_int tree "sendbuf";
  spdkConfJSON ← get_str tree "spdkconf";
  treeRoundUpSize ← get_uint 64 tree "treeroundup";
  useCuFile ← get_bool tree "cufile";
  useCuFileDriverOpen ← get_bool tree "cufiledriveropen";
  useCuHostBufReg ← get_bool tree "cuhostbufreg";
  useCustomTreeRandomize ← get_bool tree "treerand";
  useCustomTreeRoundRobin ← get_bool tree "treeroundrob";
  useDirectIO ← get_bool tree "direct";
  useGDSBufReg ← get_bool tree "gdsbufreg";
  useHDFS ← get_bool tree "hdfs";
  useMmap ← get_bool tree "mmap";
  useNetBench ← get_bool tree "netbench";
  useNoFDSharing ← get_bool tree "nofdsharing";
  useOpsLogLocking ← get_bool tree "opsloglock";
  useRandomUnaligned ← get_bool tree "norandalign";
  useRandomOffsets ← get_bool tree "rand";
  useS3ClientSingleton ← get_bool tree "s3single";
  useS3FastRead ← get_bool tree "s3fastget";
  useS3MPUSharing ← get_bool tree "s3mpusharing";
  useS3RandObjSelect ← get_bool tree "s3randobj";
  useS3SSE ← get_bool tree "s3sse";
  useS3VirtualAddressing ← get_bool tree "s3virtaddr";
  useStridedAccess ← get_bool tree "strided";
  numDataSetThreads ← get_uint 64 tree "datasetthreads";
  Ok (mkCommonArgs benchLabel benchMode benchPathStr blockVarianceAlgo blockVariancePercent doDirectVerify
     doDirSharing doInfiniteIOLoop doPreallocFile doReadInline doReverseSeqOffsets doS3AclPutInline doS3AclVerify
     doS3ListObjVerify doStatInline doS3BucketTag doS3BucketTagVerify doS3BucketVersioning doS3BucketVersioningVerify
     doS3ObjectTag doS3ObjectTagVerify doS3ObjectLockCfg doS3ObjectLockCfgVerify doTruncate doTruncToSize
     fadviseFlags fileOffset fileShareSize fileSize flockType ignore0USecErrors ignoreDelErrors ignoreS3Errors
     integrityCheckSalt ioDepth limitReadBps limitWriteBps madviseFlags netBenchRespSize noDirectIOCheck numDirs
     numFiles numNetBenchServers numRWMixReadThreads numThreads opsLogPath randOffsetAlgo randomAmount
     runCreateDirsPhase runCreateFilesPhase runDeleteDirsPhase runDeleteFilesPhase runDropCachesPhase runReadPhase
     runS3AclGet runS3AclPut runS3BucketAclGet runS3BucketAclPut runS3ListObjNum runS3ListObjParallel
     runS3MPUSharingCompletionPhase runS3MultiDelObjNum s3IgnoreMultipartUpload404 runS3StatDirs runStatFilesPhase
     runSyncPhase rwMixReadPercent rwMixThreadsReadPercent s3AccessKey s3AccessSecret s3AclGrantee
     s3AclGranteePermissions s3AclGranteeType s3CredentialsFile s3CredentialsList s3EndpointsStr s3MaxConnections
     s3MpuSizeVariance s3MpuSplitSize s3NoCompression s3NoMpuCompletion s3ObjectPrefix s3Region s3SessionToken
     s3SignPolicy s3SSECKey s3SSEKMSKey s3ThroughputTargetGbps showThroughputBase10 sockRecvBufSize sockSendBufSize
     spdkConfJSON treeRoundUpSize useCuFile useCuFileDriverOpen useCuHostBufReg useCustomTreeRandomize
     useCustomTreeRoundRobin useDirectIO useGDSBufReg useHDFS useMmap useNetBench useNoFDSharing useOpsLogLocking
     useRandomUnaligned useRandomOffsets useS3ClientSingleton useS3FastRead useS3MPUSharing useS3RandObjSelect
     useS3SSE useS3VirtualAddressing useStridedAccess numDataSetThreads).
Record ServiceArgs : Type := mkServiceArgs {
  sv_common : CommonArgs;
  sv_blockSizeOrigStr : string;
  sv_blockSizeMix : BlockSizeMix;
  sv_blockSize : Z;
  sv_gpuIDsStr : string;
  sv_netBenchServersStr : string;
  sv_rankOffset : Z;
  sv_treeFilePath : string;
  sv_s3ChecksumAlgoStr : string;
  sv_serversStr : string;
  sv_gpuIDsVec : list Z;
  sv_assignGPUPerService : bool;
  sv_noSharedServicePath : bool;
  sv_useS3ObjectPrefixRand : bool;
}.

Definition getIsServicePathShared (a : ServiceArgs) : bool := negb (sv_noSharedServicePath a).

Definition SERVICE_UPLOAD_TREEFILE : string := "treefile.txt".

Definition remoteRankOffset (a : ServiceArgs) (serviceRank : Z) : Z :=
  if getIsServicePathShared a then sv_rankOffset a +₆₄ (serviceRank *₆₄ cm_numThreads (sv_common a)) else sv_rankOffset a.

(** One GPU per service, round-robin, if the user wants that. *)
Definition service_gpuIDs (a : ServiceArgs) (serviceRank : Z) : string :=
  if negb (sv_assignGPUPerService a) || bool_decide (sv_gpuIDsVec a = []) then sv_gpuIDsStr a
  else
    let gpuIndex := serviceRank `mod` Z.of_nat (length (sv_gpuIDsVec a)) in
    print_int (nth (Z.to_nat gpuIndex) (sv_gpuIDsVec a) 0).

Definition service_entries (a : ServiceArgs) (serviceRank : Z) : list (string * string) :=
  [("block", BlockSizeMix_toString (sv_blockSizeMix a)); ("netbenchservers", sv_serversStr a);
   ("s3chksumalgo", sv_s3ChecksumAlgoStr a)]
  ++ common_entries (sv_common a)
  ++ [("rankoffset", to_string (remoteRankOffset a serviceRank));
      ("treefile", if bool_decide (sv_treeFilePath a = "") then "" else SERVICE_UPLOAD_TREEFILE);
      ("gpuids", service_gpuIDs a serviceRank)].

Definition args_getAsPropertyTreeForService (a : ServiceArgs) (serviceRank : Z) : arg_tree :=
  ptree_puts (service_entries a serviceRank).

(** The part of the path behind the last slash; trailing slashes do not count. *)
Fixpoint strip_slashes (s : string) : string :=
  match s with
  | "" => ""
  | String ch s => let t := strip_slashes s in if String.eqb t "" && Ascii.eqb ch "/" then "" else String ch t
  end.
Fixpoint last_component (s acc : string) : string :=
  match s with
  | "" => acc
  | String ch s => if Ascii.eqb ch "/" then last_component s "" else last_component s (acc +:+ String ch "")
  end.

(** [basename()] of a path that is not empty. *)
Definition basename (path : string) : string :=
  if String.eqb (strip_slashes path) "" then "/" else last_component (strip_slashes path) "".

(** [s3ObjectPrefix.find("%%%") != npos] *)
Fixpoint find_rand_marks (s : string) : bool :=
  match s with
  | "" => false
  | String _ s' => String.prefix "%%%" s || find_rand_marks s'
  end.

(** The values from the tree, with what [setFromPropertyTreeForService()] makes of them before it
    goes on to load the tree file, to open the paths and to check the arguments.  [uploadBase] is
    the directory of uploaded files.  What is not in the tree stays as it was. *)
Definition read_args (uploadBase : string) (tree : arg_tree) (old : ServiceArgs) : result ServiceArgs :=
  common ← read_common tree;
  blockSizeOrigStr ← get_str tree "block";
  gpuIDsStr ← get_str tree "gpuids";
  netBenchServersStr ← get_str tree "netbenchservers";
  blockSizeMix ← BlockSizeMix_parse blockSizeOrigStr;
  rankOffset ← get_uint 64 tree "rankoffset";
  treeFilePath ← get_str tree "treefile";
  Ok (mkServiceArgs common blockSizeOrigStr blockSizeMix (maxSize blockSizeMix) gpuIDsStr netBenchServersStr rankOffset
    (if String.eqb treeFilePath "" then "" else uploadBase +:+ "/" +:+ basename treeFilePath)
    (sv_s3ChecksumAlgoStr old) (sv_serversStr old) (sv_gpuIDsVec old) (sv_assignGPUPerService old)
    (sv_noSharedServicePath old) (find_rand_marks (cm_s3ObjectPrefix common))).

(** *** Ranks *)

(** The ranks of the workers that [WorkerManager::prepareThreads()] makes: one local worker per
    thread, or one remote worker per host on the master. *)
Definition local_worker_ranks (a : ServiceArgs) : list Z :=
  (fun i => sv_rankOffset a +₆₄ i) <$> seqZ 0 (cm_numThreads (sv_common a)).
Definition remote_worker_ranks (a : ServiceArgs) (numHosts : Z) : list Z :=
  (fun i => sv_rankOffset a +₆₄ i) <$> seqZ 0 numHosts.

(** The tree that [RemoteWorker::preparePhase()] sends: the rank of the remote worker is the
    service rank. *)
Definition preparePhase_tree (a : ServiceArgs) (workerRank : Z) : arg_tree := args_getAsPropertyTreeForService a workerRank.

(** ** Lemmas *)

(** The numbers fit into their types. *)
Definition common_fit (c : CommonArgs) : Prop :=
  Forall (fun '(bits, v) => 0 <= v < 2 ^ bits) (common_uints c) /\ Forall (fun z => - 2 ^ 31 <= z < 2 ^ 31) (common_ints c).

Lemma read_common_ok tree c :
  (forall k v, ptree_get (common_entries c) k = Some v -> ptree_get tree k = Some v) -> common_fit c -> read_common tree = Ok c.
Proof.
  intros Ht [Hu Hi]. destruct c. unfold common_uints, common_ints in *. cbn in Hu, Hi. rewrite !Forall_cons in Hu. rewrite !Forall_cons in Hi. destruct_and!.
  unfold read_common.
  repeat (erewrite bind_Ok;
    [|first [ apply get_bool_ok, Ht; reflexivity | apply get_str_ok, Ht; reflexivity
            | apply get_uint_ok; [apply Ht; reflexivity|lia|split; eassumption]
            | apply get_int_ok; [apply Ht; reflexivity|split; eassumption] ]]).
  reflexivity.
Qed.

Lemma service_keys_distinct a serviceRank : NoDup (service_entries a serviceRank).*1.
Proof. eapply bool_decide_unpack. vm_compute. exact I. Qed.

(** The values of the arguments fit into their types, and the block size mix was parsed. *)
Record args_fit (a : ServiceArgs) : Prop := {
  af_common : common_fit (sv_common a);
  af_rank : 0 <= sv_rankOffset a < TWO64;
  af_mix : exists str, BlockSizeMix_parse str = Ok (sv_blockSizeMix a);
  af_max : maxSize (sv_blockSizeMix a) < 2 ^ 63;
}.

Lemma common_numThreads_fit c : common_fit c -> 0 <= cm_numThreads c < 2 ^ 64.
Proof.
  intros [Hu _]. rewrite Forall_forall in Hu. apply (Hu (64, cm_numThreads c)).
  unfold common_uints. repeat (apply elem_of_cons; first [by left|right]).
Qed.

Lemma mapM_Ok {A B} (f : A -> result B) g l : (forall x, f x = Ok (g x)) -> mapM f l = Ok (g <$> l).
Proof. intros Hf. induction l as [|x l IH]; [done|]. cbn. rewrite Hf. cbn. by rewrite IH. Qed.

(** Consecutive numbers that do not overflow. *)
Lemma fmap_add_seqZ' b T : 0 <= b -> b + T <= TWO64 -> (fun i => b +₆₄ i) <$> seqZ 0 T = seqZ b T.
Proof.
  intros Hb HT. transitivity (Z.add b <$> seqZ 0 T).
  - apply list_fmap_ext. intros i x Hx%list_elem_of_lookup_2%elem_of_seqZ. apply u64_small. lia.
  - rewrite fmap_add_seqZ. f_equal. lia.
Qed.

(** What a service gets. *)
Lemma read_sent_args a old uploadBase serviceRank : args_fit a ->
  read_args uploadBase (args_getAsPropertyTreeForService a serviceRank) old
  = Ok (mkServiceArgs (sv_common a) (BlockSizeMix_toString (sv_blockSizeMix a)) (sv_blockSizeMix a) (maxSize (sv_blockSizeMix a))
      (service_gpuIDs a serviceRank) (sv_serversStr a) (remoteRankOffset a serviceRank)
      (if bool_decide (sv_treeFilePath a = "") then "" else uploadBase +:+ "/" +:+ SERVICE_UPLOAD_TREEFILE)
      (sv_s3ChecksumAlgoStr old) (sv_serversStr old) (sv_gpuIDsVec old) (sv_assignGPUPerService old)
      (sv_noSharedServicePath old) (find_rand_marks (cm_s3ObjectPrefix (sv_common a)))).
Proof.
  intros [Hc Hr [str Hmix] Hmax]. unfold args_getAsPropertyTreeForService.
  pose proof (service_keys_distinct a serviceRank) as Hnd. rewrite ptree_puts_distinct by done.
  unfold read_args. rewrite (bind_Ok _ _ (sv_common a)).
  2: { apply read_common_ok; [|done]. intros k v Hk%ptree_get_elem. apply ptree_get_distinct; [done|].
       apply elem_of_app. right. apply elem_of_app. by left. }
  rewrite (bind_Ok _ _ (BlockSizeMix_toString (sv_blockSizeMix a))) by by apply get_str_ok.
  rewrite (bind_Ok _ _ (service_gpuIDs a serviceRank)) by by apply get_str_ok.
  rewrite (bind_Ok _ _ (sv_serversStr a)) by by apply get_str_ok.
  rewrite (bind_Ok _ _ (sv_blockSizeMix a)) by by apply (BlockSizeMix_roundtrip str).
  rewrite (bind_Ok _ _ (remoteRankOffset a serviceRank)).
  2: { apply get_uint_ok; [done|lia|]. unfold remoteRankOffset. destruct (getIsServicePathShared a); [apply u64_range|done]. }
  rewrite (bind_Ok _ _ (if bool_decide (sv_treeFilePath a = "") then "" else SERVICE_UPLOAD_TREEFILE)) by by apply get_str_ok.
  by destruct (bool_decide (sv_treeFilePath a = "")).
Qed.

(** ** Theorems *)

(** C26: What the master sends is what the service uses.  For arguments that fit into their types and
    a parsed block size mix, a service that reads the master's tree has all members of
    [CommonArgs] and the block size mix of the master; its rank offset, GPU IDs and server list
    are those that the master computed for it, and a tree file is that in its upload directory.
    (The checksum algorithm of the master does not arrive: the service keeps its own.) *)
Theorem service_args_round_trip a old uploadBase serviceRank :
  args_fit a ->
  exists a', read_args uploadBase (args_getAsPropertyTreeForService a serviceRank) old = Ok a'
    /\ sv_common a' = sv_common a
    /\ sv_blockSizeMix a' = sv_blockSizeMix a /\ sv_blockSize a' = maxSize (sv_blockSizeMix a)
    /\ sv_rankOffset a' = remoteRankOffset a serviceRank
    /\ sv_gpuIDsStr a' = service_gpuIDs a serviceRank
    /\ sv_netBenchServersStr a' = sv_serversStr a
    /\ (sv_treeFilePath a' = "" <-> sv_treeFilePath a = "")
    /\ (sv_treeFilePath a <> "" -> sv_treeFilePath a' = uploadBase +:+ "/" +:+ SERVICE_UPLOAD_TREEFILE)
    /\ sv_s3ChecksumAlgoStr a' = sv_s3ChecksumAlgoStr old.
Proof.
  intros Hfit. eexists. rewrite read_sent_args by done. split; [reflexivity|]. cbn. repeat split.
  - case_bool_decide as Ht; [done|]. by destruct uploadBase.
  - intros ->. done.
  - intros Ht. by rewrite bool_decide_false.
Qed.

(** C25: The workers of all services have distinct consecutive ranks.  With paths that the services
    share, the master sends to each of [n] services a tree, each service takes its arguments from
    it and makes its workers; the ranks of all workers, in the order of the services, are [n]
    times the number of threads consecutive numbers.  Without a rank offset they start at 0, so
    that they are exactly the ranks below the number of data set threads; a rank offset [r] is
    counted also as [r] services, so that they start at [r * (numThreads + 1)]. *)
Theorem service_ranks_consecutive a old uploadBase n :
  let r := sv_rankOffset a in
  let numThreads := cm_numThreads (sv_common a) in
  args_fit a -> getIsServicePathShared a = true -> 0 <= n -> r + (r + n) * numThreads < TWO64 -> r + n < TWO64 ->
  exists services,
    mapM (fun workerRank => read_args uploadBase (preparePhase_tree a workerRank) old) (remote_worker_ranks a n) = Ok services
    /\ concat (local_worker_ranks <$> services) = seqZ (r * (numThreads + 1)) (n * numThreads).
Proof.
  cbv zeta. intros Hfit Hsh Hn Hmax Hmax'. eexists. split; [apply mapM_Ok; intros w; by apply read_sent_args|].
  destruct (af_rank _ Hfit) as [Hr _]. destruct (common_numThreads_fit _ (af_common _ Hfit)) as [HT _].
  rewrite <- concat_seqZ by done. f_equal. unfold remote_worker_ranks. rewrite <- !list_fmap_compose.
  apply list_fmap_ext. intros i x Hx%list_elem_of_lookup_2%elem_of_seqZ. cbn -[seqZ]. unfold local_worker_ranks, remoteRankOffset.
  rewrite Hsh. cbn [sv_rankOffset sv_common].
  rewrite (u64_small (sv_rankOffset a + x)) by lia.
  assert (0 <= (sv_rankOffset a + x) * cm_numThreads (sv_common a)) by (apply Z.mul_nonneg_nonneg; lia).
  assert ((sv_rankOffset a + x + 1) * cm_numThreads (sv_common a) <= (sv_rankOffset a + n) * cm_numThreads (sv_common a))
    by (apply Z.mul_le_mono_nonneg_r; lia).
  rewrite (u64_small ((sv_rankOffset a + x) * _)), (u64_small (_ + (_ + x) * _)) by lia.
  rewrite fmap_add_seqZ' by lia. f_equal; lia.
Qed.

(** ** Witnesses *)

Definition demo_common : CommonArgs := mkCommonArgs "demo" 1 "/mnt/a,/mnt/b," "" 0 false false false false false
  false false false false false false false false false false false false false false false 0 0 131072 1048576 0
  false false false 0 1 0 0 0 0 false 0 0 0 0 4 "" "balanced_single" 0 false true false false false false false
  false false false 0 false false 0 false false false false 0 0 "" "" "" "" "" "" "" "" 0 0 0 false false "" "" ""
  0 "" "" 0 false (-1) 0 "" 0 false false false false false false false false false false false false false false
  false false false false false false false 12.

Definition demo_mix_service : BlockSizeMix := mix_finish [(4096, 1)].

Definition demo_service_args (rankOffset : Z) : ServiceArgs :=
  mkServiceArgs demo_common "4k" demo_mix_service 4096 "" "" rankOffset "/tmp/tree.txt" "CRC32" "" [] false false false.

Lemma demo_service_fit rankOffset : 0 <= rankOffset < TWO64 -> args_fit (demo_service_args rankOffset).
Proof.
  intros Hr. split; [|done| |done].
  - split; repeat constructor; cbn; lia.
  - exists "4k". by vm_compute.
Qed.

Lemma service_args_round_trip_witness :
  exists a', read_args "/var/tmp/elbencho" (args_getAsPropertyTreeForService (demo_service_args 0) 2) (demo_service_args 7) = Ok a'
    /\ sv_common a' = demo_common /\ sv_rankOffset a' = 8 /\ sv_treeFilePath a' = "/var/tmp/elbencho/treefile.txt".
Proof.
  destruct (service_args_round_trip (demo_service_args 0) (demo_service_args 7) "/var/tmp/elbencho" 2)
    as (a' & Ha & Hc & _ & _ & Hr & _ & _ & _ & Ht & _); [by apply demo_service_fit|].
  exists a'. split; [exact Ha|]. split; [exact Hc|]. split; [exact Hr|]. by apply Ht.
Defined.

Lemma service_ranks_consecutive_witness :
  exists services,
    mapM (fun w => read_args "" (preparePhase_tree (demo_service_args 0) w) (demo_service_args 0)) (remote_worker_ranks (demo_service_args 0) 3)
      = Ok services
    /\ concat (local_worker_ranks <$> services) = seqZ 0 12.
Proof.
  refine (service_ranks_consecutive (demo_service_args 0) (demo_service_args 0) "" 3 _ _ _ _ _);
    [by apply demo_service_fit|reflexivity|lia|by vm_compute|by vm_compute].
Defined.

(** A rank offset of 2 with 4 threads per service: the first worker has rank 10. *)
Lemma rank_offset_counted_twice :
  exists services,
    mapM (fun w => read_args "" (preparePhase_tree (demo_service_args 2) w) (demo_service_args 0)) (remote_worker_ranks (demo_service_args 2) 3)
      = Ok services
    /\ concat (local_worker_ranks <$> services) = seqZ 10 12.
Proof.
  eexists. split; [apply mapM_Ok; intros w; by apply read_sent_args, demo_service_fit|]. by vm_compute.
Qed.
