(* ===== verification/NetBench.v ===== *)
(** The network benchmark of the services (LocalWorker.cpp): who is server and who is client, which
    connections the clients make and how many the servers wait for, and the transfer over a
    connection.  The first services are servers, the others clients; each client worker has one
    connection, sends its bytes block by block, and waits for a response after each block.

    A connection is a pair of byte streams, of which only the lengths count.  How many bytes a
    [recv()] gives is left open, as is the order in which a server worker finds its connections
    ready: both are choices of a step. *)

From S2P Require Import Prelude Common.

#[local] Open Scope list_scope.
#[local] Open Scope Z_scope.

(** ** Definitions *)

(** *** Connections *)

(** What the workers of a service read from its arguments. *)
Record NetArgs : Type := mkNetArgs { ne_numThreads : Z; ne_numDataSetThreads : Z; ne_numServers : Z; ne_rankOffset : Z }.

(** Zero-based index of the host. *)
Definition hostIndex (a : NetArgs) : Z := ne_rankOffset a / ne_numThreads a.

Definition hostIsServer (a : NetArgs) : bool := hostIndex a <? ne_numServers a.

(** The number of connections that the first worker of a server accepts for all its workers. *)
Definition numConnsToWaitFor (a : NetArgs) : Z :=
  let numClients := (ne_numDataSetThreads a / ne_numThreads a) -₆₄ ne_numServers a in
  let numConnsTotal := u32 (numClients *₆₄ ne_numThreads a) in
  let numConns := numConnsTotal / ne_numServers a in
  if truthy (numConnsTotal `mod` ne_numServers a) && (hostIndex a <? numConnsTotal `mod` ne_numServers a)
  then u32 (numConns + 1) else numConns.

(** The server that a client worker connects to, out of [numServersVec] addresses. *)
Definition serversOffset (a : NetArgs) (numServersVec workerRank : Z) : Z :=
  let clientWorkerRank := workerRank -₆₄ (numServersVec *₆₄ ne_numThreads a) in
  clientWorkerRank `mod` numServersVec.

(** [initNetBench()] of a worker: the connections that the first worker of a server waits for, or
    the server that a client connects to. *)
Inductive NetInit : Type := ServerWaits (numConns : Z) | ServerIdle | ClientConnects (server : Z).

#[global] Instance NetInit_eq_dec : EqDecision NetInit.
Proof. solve_decision. Defined.

Definition initNetBench (a : NetArgs) (numServersVec workerRank : Z) : NetInit :=
  if hostIsServer a then
    if workerRank -₆₄ ne_rankOffset a =? 0 then ServerWaits (numConnsToWaitFor a) else ServerIdle
  else ClientConnects (serversOffset a numServersVec workerRank).

(** The loop [for(i = localWorkerRank; i < size; i += numThreads)] over the accepted sockets. *)
Fixpoint socket_loop {A} (fuel : nat) (sockets : list A) (numThreads i : Z) : list A :=
  match fuel with
  | O => []
  | S fuel =>
      match sockets !! Z.to_nat i with
      | Some sock => sock :: socket_loop fuel sockets numThreads (i +₆₄ numThreads)
      | None => []
      end
  end.

Definition worker_sockets {A} (sockets : list A) (numThreads localWorkerRank : Z) : list A :=
  socket_loop (S (length sockets)) sockets numThreads localWorkerRank.

(** *** Transfer *)

Record NetSizes : Type := mkNetSizes { nz_total : Z; nz_blockSize : Z; nz_respSize : Z }.

(** One connection.  [cn_missing] are the bytes that the client still waits for, if it does. *)
Record Conn : Type := mkConn {
  cn_sent : Z;        (** client: transferredBytes *)
  cn_missing : option Z;
  cn_iops : Z;        (** client: completed blocks *)
  cn_toServer : Z;    (** bytes on the way to the server *)
  cn_received : Z;    (** server: transferredBytesVec[i] *)
  cn_replies : Z;     (** server: responses *)
  cn_toClient : Z;    (** bytes on the way to the client *)
}.

Definition conn_start : Conn := mkConn 0 None 0 0 0 0 0.

Section transfer.
Context (z : NetSizes).

(** [(bytesLeft < blockSize) ? bytesLeft : blockSize] *)
Definition currentBlockSize (transferred : Z) : Z :=
  let bytesLeft := nz_total z -₆₄ transferred in
  if bytesLeft <? nz_blockSize z then bytesLeft else nz_blockSize z.

(** The client sends a block and then waits for the response. *)
Definition client_send (c : Conn) : option Conn :=
  match cn_missing c with
  | Some _ => None
  | None =>
      if cn_sent c =? nz_total z then None
      else
        let n := currentBlockSize (cn_sent c) in
        Some (mkConn (cn_sent c +₆₄ n) (Some (nz_respSize z)) (cn_iops c) (cn_toServer c + n)
          (cn_received c) (cn_replies c) (cn_toClient c))
  end.

(** The server receives [n] bytes, and responds at the end of a block and at the end of the
    transfer.  A connection with all bytes is no longer polled. *)
Definition server_recv (n : Z) (c : Conn) : option Conn :=
  if (cn_received c =? nz_total z) || (n <=? 0) || (currentBlockSize (cn_received c) <? n) || (cn_toServer c <? n) then None
  else
    let received := cn_received c +₆₄ n in
    let responds := (received `mod` nz_blockSize z =? 0) || (received =? nz_total z) in
    Some (mkConn (cn_sent c) (cn_missing c) (cn_iops c) (cn_toServer c - n) received
      (if responds then cn_replies c + 1 else cn_replies c) (if responds then cn_toClient c + nz_respSize z else cn_toClient c)).

(** The client receives [n] bytes of the response ([recvExactT()]). *)
Definition client_recv (n : Z) (c : Conn) : option Conn :=
  match cn_missing c with
  | None => None
  | Some missing =>
      if (n <=? 0) || (missing <? n) || (cn_toClient c <? n) then None
      else
        let missing := missing - n in
        Some (mkConn (cn_sent c) (if missing =? 0 then None else Some missing)
          (if missing =? 0 then cn_iops c + 1 else cn_iops c) (cn_toServer c) (cn_received c) (cn_replies c) (cn_toClient c - n))
  end.

(** The client has waited for two seconds without further bytes (which may still be on their way):
    it starts to receive the response again. *)
Definition client_timeout (c : Conn) : option Conn :=
  match cn_missing c with
  | None => None
  | Some _ => Some (mkConn (cn_sent c) (Some (nz_respSize z)) (cn_iops c) (cn_toServer c) (cn_received c) (cn_replies c) (cn_toClient c))
  end.

Definition conn_step (c c' : Conn) : Prop :=
  client_send c = Some c' \/ (exists n, server_recv n c = Some c') \/ (exists n, client_recv n c = Some c').

(** The connections of a run: one of them takes a step. *)
Inductive net_run : nat -> list Conn -> list Conn -> Prop :=
  | net_start conns : net_run 0 conns conns
  | net_next k conns conns' i c c' :
      net_run k conns conns' -> conns' !! i = Some c -> conn_step c c' -> net_run (S k) conns (<[i := c']> conns').

(** Client and server are done with a connection: all bytes have arrived, every block was answered
    and every answer arrived. *)
Definition conn_finished (c : Conn) : Prop :=
  cn_sent c = nz_total z /\ cn_received c = nz_total z /\ cn_missing c = None /\ cn_toServer c = 0 /\ cn_toClient c = 0
  /\ cn_iops c = tile_count (nz_total z) (nz_blockSize z) /\ cn_replies c = cn_iops c.
End transfer.

(** ** Lemmas *)

(** *** Counting connections *)

(** The numbers below [n] with a given remainder. *)
Lemma count_remainder (s h n : Z) : 0 < s -> 0 <= h < s -> 0 <= n ->
  Z.of_nat (length (filter (fun c => c `mod` s = h) (seqZ 0 n))) = n / s + (if h <? n `mod` s then 1 else 0).
Proof.
  intros Hs Hh Hn. pattern n. apply natlike_ind; [|clear n Hn; intros n Hn IH|done].
  { rewrite Z.div_0_l, Z.mod_0_l by lia. cbn. by rewrite (proj2 (Z.ltb_ge h 0)) by lia. }
  unfold Z.succ. rewrite seqZ_snoc by done. rewrite filter_app, length_app, Nat2Z.inj_add, IH, Z.add_0_l. cbn [filter list_filter].
  pose proof (Z.mod_pos_bound n s Hs) as Hm. pose proof (Z.div_mod n s ltac:(lia)) as Hd.
  destruct (Z.eq_dec (n `mod` s) (s - 1)) as [Hlast|Hne].
  - rewrite <- (Z.div_unique (n + 1) s (n / s + 1) 0), <- (Z.mod_unique (n + 1) s (n / s + 1) 0) by lia.
    rewrite (proj2 (Z.ltb_ge h 0)) by lia. case_decide as Hc; cbn [length]; destruct (Z.ltb_spec h (n `mod` s)); lia.
  - rewrite <- (Z.div_unique (n + 1) s (n / s) (n `mod` s + 1)), <- (Z.mod_unique (n + 1) s (n / s) (n `mod` s + 1)) by lia.
    case_decide as Hc; cbn [length]; destruct (Z.ltb_spec h (n `mod` s)), (Z.ltb_spec h (n `mod` s + 1)); lia.
Qed.

Lemma count_shifted (P Q : Z -> Prop) `{!forall x, Decision (P x), !forall x, Decision (Q x)} b n :
  0 <= n -> (forall i, 0 <= i < n -> P (b + i) <-> Q i) -> length (filter P (seqZ b n)) = length (filter Q (seqZ 0 n)).
Proof.
  intros Hn. pattern n. apply natlike_ind; [done| |done]. clear n Hn. intros n Hn IH HPQ. unfold Z.succ.
  rewrite !seqZ_snoc, !filter_app, !length_app by done. rewrite IH by (intros; apply HPQ; lia). f_equal.
  specialize (HPQ n ltac:(lia)). cbn [filter list_filter]. rewrite Z.add_0_l.
  destruct (decide (P (b + n))), (decide (Q n)); tauto.
Qed.

(** *** Sockets of a worker *)

Lemma socket_loop_spec {A} fuel (sockets : list A) n rank idx :
  0 < n -> Z.of_nat (length sockets) + n < TWO64 -> 0 <= idx -> idx `mod` n = rank ->
  Z.of_nat (length sockets) - idx < Z.of_nat fuel ->
  socket_loop fuel sockets n idx = nth_from n rank idx (drop (Z.to_nat idx) sockets).
Proof.
  intros Hn Hb. revert idx. induction fuel as [|fuel IH]; intros idx Hi Hm Hf.
  { rewrite drop_ge by lia. done. }
  cbn [socket_loop]. destruct (sockets !! Z.to_nat idx) as [x|] eqn:Hx.
  - pose proof (lookup_lt_Some _ _ _ Hx) as Hlt. rewrite (drop_S _ _ _ Hx). cbn [nth_from]. rewrite Hm, Z.eqb_refl. f_equal.
    rewrite u64_small by lia. rewrite nth_from_period by lia. apply IH; [lia| |lia].
    rewrite <- Hm. by rewrite Z.add_mod, Z_mod_same_full, Z.add_0_r, Z.mod_mod by lia.
  - apply lookup_ge_None in Hx. rewrite drop_ge by lia. done.
Qed.

Lemma worker_sockets_spec {A} (sockets : list A) n rank :
  0 <= rank < n -> Z.of_nat (length sockets) + n < TWO64 -> worker_sockets sockets n rank = nth_from n rank 0 sockets.
Proof.
  intros Hr Hb. unfold worker_sockets. rewrite (socket_loop_spec _ _ _ rank); [|lia|done|lia|by apply Z.mod_small|lia].
  by rewrite <- nth_from_first by lia.
Qed.

(** *** Invariant of a connection *)

Record sizes_ok (z : NetSizes) : Prop := {
  so_total : 0 < nz_total z < TWO64;
  so_block : 0 < nz_blockSize z < TWO64;
  so_resp : 0 < nz_respSize z;
}.

Section connection.
Context (z : NetSizes) (Hz : sizes_ok z).

(** The client has completed [cn_iops] blocks.  While it waits for a response, the bytes that are
    not received are those of the current block, and the response is sent when there are none. *)
Definition conn_inv (c : Conn) : Prop :=
  let base := cn_iops c * nz_blockSize z in
  0 <= cn_iops c /\ cn_toServer c = cn_sent c - cn_received c /\
  match cn_missing c with
  | None =>
      base < nz_total z + nz_blockSize z /\ cn_sent c = Z.min base (nz_total z) /\ cn_received c = cn_sent c
      /\ cn_toClient c = 0 /\ cn_replies c = cn_iops c
  | Some m =>
      base < nz_total z /\ cn_sent c = Z.min (base + nz_blockSize z) (nz_total z) /\ base <= cn_received c <= cn_sent c
      /\ 0 < m <= nz_respSize z
      /\ (cn_received c < cn_sent c /\ cn_toClient c = 0 /\ m = nz_respSize z /\ cn_replies c = cn_iops c
          \/ cn_received c = cn_sent c /\ cn_toClient c = m /\ cn_replies c = cn_iops c + 1)
  end.

Lemma conn_start_inv : conn_inv conn_start.
Proof. destruct Hz. unfold conn_inv. cbn. lia. Qed.

Lemma currentBlockSize_spec t : 0 <= t <= nz_total z -> currentBlockSize z t = Z.min (nz_total z - t) (nz_blockSize z).
Proof. destruct Hz. intros Ht. unfold currentBlockSize. rewrite u64_small by lia. destruct (Z.ltb_spec (nz_total z - t) (nz_blockSize z)); lia. Qed.

Lemma client_send_inv c c' : conn_inv c -> client_send z c = Some c' -> conn_inv c'.
Proof.
  destruct Hz. unfold conn_inv, client_send. destruct c as [sent [m|] iops toS recv rep toC]; cbn; [done|].
  intros (Hi & Ht & Hb & Hs & Hr & Hc & Hp). destruct (Z.eqb_spec sent (nz_total z)); [done|]. intros [= <-]. cbn.
  assert (0 <= iops * nz_blockSize z) by (apply Z.mul_nonneg_nonneg; lia).
  rewrite currentBlockSize_spec by lia. rewrite u64_small by lia. lia.
Qed.

Lemma server_recv_inv n c c' : conn_inv c -> server_recv z n c = Some c' -> conn_inv c'.
Proof.
  destruct Hz. unfold conn_inv, server_recv. destruct c as [sent missing iops toS recv rep toC]; cbn.
  intros (Hi & Ht & Hm). destruct ((recv =? nz_total z) || (n <=? 0) || (currentBlockSize z recv <? n) || (toS <? n)) eqn:Hg; [done|].
  intros [= <-]. cbn. assert (0 <= iops * nz_blockSize z) as Hbase by (apply Z.mul_nonneg_nonneg; lia).
  destruct missing as [m|]; [|lia]. destruct Hm as (Hb & Hs & Hr & Hmr & Hcase).
  rewrite u64_small by lia. destruct Hcase as [(Hlt & Hc & Hmm & Hrep)|Hcase]; [|lia].
  assert ((recv + n) `mod` nz_blockSize z = 0 \/ recv + n = nz_total z <-> recv + n = sent) as Hend.
  { split.
    - intros [Hmod|Heq]; [|lia]. apply Z.mod_divide in Hmod as [q Hq]; [|lia]. assert (iops < q) by nia. assert (iops + 1 <= q) by lia.
      assert ((iops + 1) * nz_blockSize z <= q * nz_blockSize z) by (apply Z.mul_le_mono_nonneg_r; lia). lia.
    - intros Heq. destruct (Z.min_spec (iops * nz_blockSize z + nz_blockSize z) (nz_total z)) as [[_ Hmin]|[_ Hmin]]; [left|right; lia].
      rewrite Heq, Hs, Hmin. replace (iops * nz_blockSize z + nz_blockSize z) with ((iops + 1) * nz_blockSize z) by lia.
      apply Z.mod_mul. lia. }
  destruct (((recv + n) `mod` nz_blockSize z =? 0) || (recv + n =? nz_total z)) eqn:Hresp.
  - assert (recv + n = sent) by (apply Hend; lia). lia.
  - assert (recv + n <> sent) by (intros He; apply Hend in He; lia). lia.
Qed.

Lemma client_recv_inv n c c' : conn_inv c -> client_recv n c = Some c' -> conn_inv c'.
Proof.
  destruct Hz. unfold conn_inv, client_recv. destruct c as [sent [m|] iops toS recv rep toC]; cbn; [|done].
  intros (Hi & Ht & Hb & Hs & Hr & Hmr & Hcase). destruct ((n <=? 0) || (m <? n) || (toC <? n)) eqn:Hg; [done|].
  intros [= <-]. cbn. destruct (Z.eqb_spec (m - n) 0); cbn; nia.
Qed.

Lemma conn_step_inv c c' : conn_inv c -> conn_step z c c' -> conn_inv c'.
Proof.
  intros Hi [Hs|[[n Hs]|[n Hs]]]; [by eapply client_send_inv|by eapply server_recv_inv|by eapply client_recv_inv].
Qed.

(** A bound of the steps that are left. *)
Definition conn_measure (c : Conn) : Z :=
  (nz_total z - cn_sent c) * (nz_respSize z + 2) + cn_toServer c + default 0 (cn_missing c).

Lemma conn_inv_bounds c : conn_inv c -> 0 <= cn_received c <= cn_sent c /\ cn_sent c <= nz_total z /\ 0 <= default 0 (cn_missing c).
Proof.
  destruct Hz. unfold conn_inv. intros (Hi & Ht & Hm). assert (0 <= cn_iops c * nz_blockSize z) by (apply Z.mul_nonneg_nonneg; lia).
  destruct (cn_missing c); cbn; lia.
Qed.

Lemma conn_measure_nonneg c : conn_inv c -> 0 <= conn_measure c.
Proof.
  intros Hc. pose proof (conn_inv_bounds c Hc) as (Hr & Hs & Hm). destruct Hz, Hc as (_ & Ht & _). unfold conn_measure.
  assert (0 <= (nz_total z - cn_sent c) * (nz_respSize z + 2)) by (apply Z.mul_nonneg_nonneg; lia). lia.
Qed.

Lemma conn_step_measure c c' : conn_inv c -> conn_step z c c' -> conn_measure c' < conn_measure c.
Proof.
  intros Hc Hstep. pose proof (conn_inv_bounds c Hc) as (Hr & Hs & _). destruct Hz. unfold conn_measure.
  destruct c as [sent missing iops toS recv rep toC]; cbn in *. destruct Hstep as [Hst|[[n Hst]|[n Hst]]].
  - unfold client_send in Hst. cbn in Hst. destruct missing; [done|]. destruct (Z.eqb_spec sent (nz_total z)); [done|].
    injection Hst as <-. cbn. rewrite currentBlockSize_spec by lia. set (k := Z.min _ _). assert (1 <= k <= nz_total z - sent) by lia.
    rewrite u64_small by lia. assert (nz_respSize z <= k * nz_respSize z) by nia. nia.
  - unfold server_recv in Hst. cbn in Hst. destruct (_ || _) eqn:Hg; [done|]. injection Hst as <-. cbn. lia.
  - unfold client_recv in Hst. cbn in Hst. destruct missing as [m|]; [|done]. destruct (_ || _) eqn:Hg; [done|]. injection Hst as <-. cbn.
    destruct (Z.eqb_spec (m - n) 0); cbn; lia.
Qed.

(** Without a step that is possible, the connection is finished. *)
Lemma conn_progress c : conn_inv c -> (exists c', conn_step z c c') \/ conn_finished z c.
Proof.
  intros Hc. pose proof (conn_inv_bounds c Hc) as (Hr & Hs & _). destruct Hz as [Ht Hb Hresp].
  destruct c as [sent missing iops toS recv rep toC]; cbn in *. unfold conn_inv in Hc. cbn in Hc. destruct missing as [m|].
  - destruct Hc as (Hi & HtoS & Hbase & Hsent & Hrecv & Hm & [(Hlt & Hc & _)|(He & Hc & _)]); left.
    + eexists. right. left. exists 1. unfold server_recv. cbn. rewrite currentBlockSize_spec by lia.
      rewrite (proj2 (Z.eqb_neq recv _)), (proj2 (Z.ltb_ge _ 1)), (proj2 (Z.ltb_ge toS 1)) by lia. done.
    + eexists. right. right. exists m. unfold client_recv. cbn.
      rewrite (proj2 (Z.leb_gt m 0)), (proj2 (Z.ltb_ge m m)), (proj2 (Z.ltb_ge toC m)) by lia. done.
  - destruct Hc as (Hi & HtoS & Hbase & Hsent & Hrecv & Hc & Hrep). destruct (Z.eqb_spec sent (nz_total z)) as [He|He].
    + right. unfold conn_finished. cbn. split_and!; try (done || lia). unfold tile_count.
      apply (Z.div_unique _ _ _ (nz_total z + nz_blockSize z - 1 - iops * nz_blockSize z)); lia.
    + left. eexists. left. unfold client_send. cbn. by rewrite (proj2 (Z.eqb_neq _ _)) by done.
Qed.
End connection.

Lemma net_run_inv z k conns0 conns : sizes_ok z -> Forall (conn_inv z) conns0 -> net_run z k conns0 conns ->
  Forall (conn_inv z) conns /\ length conns = length conns0
  /\ Z.of_nat k + Zsum (conn_measure z <$> conns) <= Zsum (conn_measure z <$> conns0).
Proof.
  intros Hz H0. induction 1 as [conns|k conns conns' i c c' Hrun IH Hi Hstep]; [split_and!; (done || lia)|].
  destruct (IH H0) as (Hall & Hlen & Hm). pose proof (Forall_lookup_1 _ _ _ _ Hall Hi) as Hc.
  pose proof (conn_step_measure z Hz c c' Hc Hstep). split_and!.
  - apply Forall_insert; [done|]. by eapply conn_step_inv.
  - by rewrite length_insert.
  - rewrite (Zsum_fmap_insert _ _ _ c) by done. lia.
Qed.

Lemma Forall_or_lookup {A} (P : A -> Prop) (Q : A -> Prop) l : (forall x, x ∈ l -> Q x \/ P x) ->
  Forall P l \/ exists i x, l !! i = Some x /\ Q x.
Proof.
  induction l as [|x l IH]; intros H; [by left|]. destruct IH as [Hl|(i & y & Hi & Hy)].
  - intros y Hy. apply H. by right.
  - destruct (H x ltac:(by left)) as [Hx|Hx]; [right; by exists 0%nat, x|left; by constructor].
  - right. by exists (S i), y.
Qed.

(** The arguments of the [h]-th of [s + c] services. *)
Definition net_args (s c t h : Z) : NetArgs := mkNetArgs t ((s + c) * t) s (h * t).

Lemma client_connects s c t h i :
  0 < s -> 0 < t -> 0 <= i -> s * t + i < TWO64 ->
  initNetBench (net_args s c t ((s * t + i) / t)) s (s * t + i) = ClientConnects h <-> i `mod` s = h.
Proof.
  intros Hs Ht Hi Hmax. assert (0 < s * t) by (apply Z.mul_pos_pos; lia).
  unfold initNetBench, hostIsServer, hostIndex, serversOffset, net_args. cbn [ne_rankOffset ne_numThreads ne_numServers].
  rewrite Z.div_mul by lia. rewrite Z.div_add_l by lia. pose proof (Z.div_pos i t Hi Ht).
  rewrite (proj2 (Z.ltb_ge (s + i / t) s)) by lia. rewrite (u64_small (s * t)), u64_small by lia.
  replace (s * t + i - s * t) with i by lia. split; [by intros [= ->]|by intros ->].
Qed.

(** ** Theorems *)

(** Every server of a network benchmark waits for exactly the connections that the clients make
    to it: of all client workers (those with the ranks behind the workers of the [s] servers)
    their number is the number of those that connect to the server.  And the workers of a server
    divide the accepted connections among themselves, each connection to one worker. *)
Lemma netbench_connections_match (s c t h : Z) :
  0 < s -> 0 < c -> 0 < t -> (s + c) * t < TWO32 -> 0 <= h < s ->
  initNetBench (net_args s c t h) s (h * t)
  = ServerWaits (Z.of_nat (length (filter (fun r => initNetBench (net_args s c t (r / t)) s r = ClientConnects h)
      (seqZ (s * t) (c * t)))))
  /\ forall (sockets : list nat), Z.of_nat (length sockets) + t < TWO64 ->
     concat (worker_sockets sockets t <$> seqZ 0 t) ≡ₚ sockets.
Proof.
  intros Hs Hc Ht Hmax Hh. assert (0 < s * t) as Hst by (apply Z.mul_pos_pos; lia). assert (0 < c * t) as Hct by (apply Z.mul_pos_pos; lia).
  assert (h * t < s * t) as Hht by (apply Z.mul_lt_mono_pos_r; lia). split.
  - unfold initNetBench at 1, hostIsServer, hostIndex, net_args. cbn [ne_rankOffset ne_numThreads ne_numServers].
    rewrite Z.div_mul by lia. rewrite (proj2 (Z.ltb_lt h s)) by lia. rewrite Z.sub_diag. cbn [u64]. change (u64 0 =? 0) with true. cbv iota.
    f_equal. unfold numConnsToWaitFor, hostIndex. cbn [ne_rankOffset ne_numThreads ne_numServers ne_numDataSetThreads].
    rewrite !Z.div_mul by lia. replace (s + c - s) with c by lia. assert (c <= c * t) by nia. rewrite (u64_small c), (u64_small (c * t)) by lia.
    assert (u32 (c * t) = c * t) as -> by (apply Z.mod_small; lia).
    transitivity (Z.of_nat (length (filter (fun k => k `mod` s = h) (seqZ 0 (c * t))))).
    { rewrite count_remainder by lia. pose proof (Z.mod_pos_bound (c * t) s Hs). unfold truthy.
      assert (0 <= c * t / s <= c * t) by (split; [apply Z.div_pos|apply Z.div_le_upper_bound]; nia).
      destruct (Z.ltb_spec h ((c * t) `mod` s)); [|by rewrite andb_false_r, Z.add_0_r].
      rewrite (proj2 (Z.eqb_neq ((c * t) `mod` s) 0)) by lia. cbn. apply Z.mod_small. lia. }
    f_equal. symmetry. apply count_shifted; [lia|]. intros i Hi. apply client_connects; lia.
  - intros sockets Hl. rewrite <- (nth_from_partition t 0 sockets Ht) at 2. apply reflexive_eq. f_equal.
    apply list_fmap_ext. intros i r [-> Hi]%lookup_seqZ. apply worker_sockets_spec; lia.
Qed.


Definition demo_sizes : NetSizes := mkNetSizes 6 4 2.

(** The first block of one of two connections on its way, in parts. *)
Lemma demo_net_run : net_run demo_sizes 3 (replicate 2 conn_start) [conn_start; mkConn 4 (Some 2) 0 0 4 1 2].
Proof.
  apply (net_next demo_sizes 2 _ [conn_start; mkConn 4 (Some 2) 0 3 1 0 0] 1 (mkConn 4 (Some 2) 0 3 1 0 0)); [|done|right; left; by exists 3].
  apply (net_next demo_sizes 1 _ [conn_start; mkConn 4 (Some 2) 0 4 0 0 0] 1 (mkConn 4 (Some 2) 0 4 0 0 0)); [|done|right; left; by exists 1].
  apply (net_next demo_sizes 0 _ [conn_start; conn_start] 1 conn_start); [constructor|done|by left].
Qed.


(** A client that waits for two seconds in the middle of a response forgets what it has received:
    then the connection cannot go on, although the server has sent all of the response. *)
Lemma timeout_loses_response :
  let z := mkNetSizes 4 4 2 in
  exists c, (c1 ← client_send z conn_start; c2 ← server_recv z 4 c1; c3 ← client_recv 1 c2; c4 ← client_timeout z c3; client_recv 1 c4) = Some c
    /\ cn_replies c = 1 /\ cn_missing c = Some 1 /\ cn_toClient c = 0 /\ ~ exists c', conn_step z c c'.
Proof.
  eexists. split; [vm_compute; reflexivity|]. split_and!; try reflexivity. intros [c' [Hs|[[n Hs]|[n Hs]]]]; try done.
  unfold client_recv in Hs. cbn in Hs. destruct ((n <=? 0) || (1 <? n) || (0 <? n)) eqn:Hg; [done|lia].
Qed.
