(* ===== verification/ProgLists.v ===== *)
(** Lists in the program arguments (ProgArgs.cpp): the benchmark paths on the master and on a
    service, the service hosts, the servers of a network benchmark, S3 endpoints and network
    devices.  [fuel] bounds the expansion of brackets; [expandSquareBrackets_ends] of TranslatorTk
    says that there always is one that is enough. *)

From S2P Require Import Prelude Common CppStrings StringTk PathStore TranslatorTk.
From Stdlib Require String.

#[local] Open Scope list_scope.
#[local] Open Scope Z_scope.

(** ** Definitions *)

(** Undefined behaviour of the expansion does not come back. *)
Definition expansion_result (e : option (bool * expansion)) : option (result (list string)) :=
  match e with
  | Some (_, Expanded l) => Some (Ok l)
  | Some (_, Refused e) => Some (Throw e)
  | Some (_, IntOverflow) | None => None
  end.

(** [splitAndExpandStr()] and [eraseEmptyStringsFromVec()]. *)
Definition parse_list (fuel : nat) (str delimiters : string) : option (result (list string)) :=
  l ⇐ expansion_result (splitAndExpandStr fuel str delimiters);
  Some (Ok (eraseEmptyStringsFromVec l)).

(** *** Benchmark paths *)

(** [cwd] is the current directory, if it can be resolved. *)
Definition absolutePath (cwd : option string) (pathStr : string) : result string :=
  match pathStr with
  | "" => Throw (ProgException "The absolutePath() method can't handle empty paths")
  | String "/" _ => Ok pathStr
  | _ =>
      match cwd with
      | Some cwd => Ok (cwd +:+ "/" +:+ pathStr)
      | None => Throw (ProgException "Failed to resolve current work dir. ")
      end
  end.

(** [",\n\r@"] *)
Definition BENCHPATH_DELIMITER : string := String "," (String "010" (String "013" (String "@" ""))).

(** The text for the paths: each one is followed by a comma. *)
Fixpoint make_benchPathStr (benchMode : BenchMode) (cwd : option string) (paths : list string) : result string :=
  match paths with
  | [] => Ok ""
  | path :: paths =>
      p ← (if bool_decide (benchMode = BenchMode_POSIX) then absolutePath cwd path else Ok path);
      rest ← make_benchPathStr benchMode cwd paths;
      Ok (p +:+ String "," rest)
  end.

(** On a service: its own paths, if there are any, or those in the text from the master. *)
Definition service_paths (benchMode : BenchMode) (cwd : option string) (overridePaths : list string) (benchPathStr : string)
    : result (list string * string) :=
  lists ← match overridePaths with
    | [] => Ok (split_any (is_any_of BENCHPATH_DELIMITER) benchPathStr "" false, benchPathStr)
    | _ => str ← make_benchPathStr benchMode cwd overridePaths; Ok (overridePaths, str)
    end;
  Ok (eraseBenchPathPrefixesFromVec (eraseEmptyStringsFromVec lists.1), lists.2).

(** [if( (benchPathsVec.empty() || benchPathStr.empty() ) && !useNetBench) throw] *)
Definition check_paths_given (paths : list string) (benchPathStr : string) (useNetBench : bool) : result unit :=
  if (bool_decide (paths = []) || bool_decide (benchPathStr = "")) && negb useNetBench
  then Throw (ProgException "Benchmark path missing.") else Ok tt.

(** *** S3 paths with slashes *)

(** [boost::trim_if(.., is_any_of("/"))] *)
Fixpoint skip_slashes (s : string) : string := match s with String "/" s => skip_slashes s | _ => s end.
Fixpoint drop_slashes (s : string) : string :=
  match s with
  | "" => ""
  | String ch s => let t := drop_slashes s in if String.eqb t "" && Ascii.eqb ch "/" then "" else String ch t
  end.

(** The elements behind the bucket name, with slashes between them. *)
Fixpoint join_elems (l : list string) : string :=
  match l with [] => "" | [e] => e | e :: l => e +:+ "/" +:+ join_elems l end.

(** The bucket name and the lines of the tree file. *)
Fixpoint s3_tree_lines (fileSize : Z) (bucketName : string) (paths : list string) : result (string * list string) :=
  match paths with
  | [] => Ok (bucketName, [])
  | path :: paths =>
      match boost_split "/" (drop_slashes (skip_slashes path)) with
      | bucket :: ((_ :: _) as elems) =>
          if negb (String.eqb bucketName "") && negb (String.eqb bucketName bucket)
          then Throw (ProgException "Different bucket names are not suppported in this mode. ")
          else
            rest ← s3_tree_lines fileSize bucket paths;
            Ok (rest.1, generateFileLine (join_elems elems) fileSize :: rest.2)
      | _ => Throw (ProgException "Conversion to S3 custom tree mode failed because a path without elements after slash was found: ")
      end
  end.

(** [convertS3PathsToCustomTree()]: the benchmark paths afterwards, and the lines of the tree file
    if one is written. *)
Definition convertS3PathsToCustomTree (benchMode : BenchMode) (haveTreeFile : bool) (fileSize : Z) (paths : list string)
    : result (list string * option (list string)) :=
  match paths with
  | String _ rest :: _ =>
      if negb (bool_decide (benchMode = BenchMode_S3)) || haveTreeFile || negb (str_contains "/" rest) then Ok (paths, None)
      else res ← s3_tree_lines fileSize "" paths; Ok ([res.1], Some res.2)
  | _ => Ok (paths, None)
  end.

(** The lists of [parseAndCheckPaths()] on the master or in a local run: from the command line.  The
    last component are the lines of an implicit tree file. *)
Definition master_paths (fuel : nat) (benchMode : BenchMode) (cwd : option string) (disablePathBracketsExpansion haveTreeFile : bool)
    (fileSize : Z) (argPaths : list string) : option (result (list string * string * option (list string))) :=
  paths ⇐ (if disablePathBracketsExpansion then Some (Ok argPaths) else expansion_result (expandSquareBrackets fuel argPaths));
  let paths := eraseBenchPathPrefixesFromVec (eraseEmptyStringsFromVec paths) in
  conv ⇐ Some (convertS3PathsToCustomTree benchMode haveTreeFile fileSize paths);
  str ⇐ Some (make_benchPathStr benchMode cwd conv.1);
  Some (Ok (conv.1, str, conv.2)).

(** *** Hosts *)

Record HostArgs : Type := mkHostArgs {
  ho_numHosts : Z;   (** -1: all hosts *)
  ho_useNetBench : bool;
  ho_servicePort : Z;
  ho_hosts : string * string;     (** hostsStr and hostsFilePath *)
  ho_servers : string * string;
  ho_clients : string * string;
}.

(** [lineStr.rfind("#", 0) == 0] *)
Definition is_comment (line : string) : bool := match line with String "#" _ => true | _ => false end.

Definition hosts_of_lines (lines : list string) : string :=
  foldr (fun line rest => if is_comment line then rest else line +:+ "," +:+ rest) "" lines.

(** The part of [s] behind a closing bracket, if no other bracket comes before it. *)
Fixpoint behind_bracket (s : string) : option string :=
  match s with
  | "" => None
  | String ch s => if Ascii.eqb ch "]" then Some s else if Ascii.eqb ch "[" then None else behind_bracket s
  end.

(** Is there a colon that is not between brackets?  [fuel] is the length of [s]. *)
Fixpoint outer_colon (fuel : nat) (s : string) : bool :=
  match fuel with
  | O => false
  | S fuel =>
      match s with
      | "" => false
      | String ch s =>
          if Ascii.eqb ch ":" then true
          else if Ascii.eqb ch "[" then outer_colon fuel (default s (behind_bracket s))
          else outer_colon fuel s
      end
  end.

Definition has_port (host : string) : bool := outer_colon (String.length host) host.

Definition with_port (servicePort : Z) (host : string) : string :=
  if has_port host then host else host +:+ ":" +:+ to_string servicePort.

(** One pair of a list and a file; [file] gives the lines of a file.  The first component is the list
    with the hosts of the file. *)
Definition parse_host_pair (fuel : nat) (file : string -> option (list string)) (servicePort : Z) (pair : string * string)
    : option (result (string * list string)) :=
  let '(hostsStr, filePath) := pair in
  if String.eqb hostsStr "" && String.eqb filePath "" then Some (Ok (hostsStr, []))
  else
    hostsStr ⇐ (if String.eqb filePath "" then Some (Ok hostsStr)
                else match file filePath with
                     | None => Some (Throw (ProgException "Unable to read hosts file. Path: "))
                     | Some lines => Some (Ok (hostsStr +:+ " " +:+ hosts_of_lines lines))
                     end);
    hosts ⇐ parse_list fuel hostsStr LIST_DELIMITERS;
    match hosts with
    | [] => Some (Throw (ProgException "Hosts defined, but parsing resulted in an empty list. "))
    | _ => Some (Ok (hostsStr, with_port servicePort <$> hosts))
    end.

Record Hosts : Type := mkHosts { hs_hostsVec : list string; hs_numNetBenchServers : Z; hs_hostsStr : string; hs_serversStr : string }.

Definition parseHosts (fuel : nat) (file : string -> option (list string)) (a : HostArgs) : option (result Hosts) :=
  if ho_numHosts a =? 0 then Some (Ok (mkHosts [] 0 "" ""))
  else
    let parse := parse_host_pair fuel file (ho_servicePort a) in
    all ⇐ (if ho_useNetBench a then
             servers ⇐ parse (ho_servers a);
             clients ⇐ parse (ho_clients a);
             Some (Ok (mkHosts (servers.2 ++ clients.2) (Z.of_nat (length servers.2)) (ho_hosts a).1 servers.1))
           else
             hosts ⇐ parse (ho_hosts a);
             Some (Ok (mkHosts hosts.2 0 hosts.1 (ho_servers a).1)));
    if negb (bool_decide (NoDup (hs_hostsVec all)))
    then Some (Throw (ProgException "List of hosts contains duplicates. "))
    else
      (* [(unsigned)numHosts] of a negative number is larger than any list *)
      let hostsVec := if ho_numHosts a <? 0 then hs_hostsVec all else take (Z.to_nat (ho_numHosts a)) (hs_hostsVec all) in
      Some (Ok (mkHosts hostsVec (hs_numNetBenchServers all) (hs_hostsStr all) (hs_serversStr all))).

(** [rotateHosts()] *)
Definition rotate_left {A} (l : list A) : list A := match l with [] => [] | x :: l => l ++ [x] end.
Definition rotateHosts (useNetBench : bool) (rotateHostsNum : nat) (hosts : list string) : list string :=
  if (length hosts <? 2)%nat || useNetBench then hosts else Nat.iter rotateHostsNum rotate_left hosts.

(** *** Servers of a network benchmark *)

(** [std::stoi()]: the rest of the text does not matter. *)
Definition stoi (s : string) : result Z :=
  let '(neg, s) := scan_sign s in
  let '(v, seen) := scan_digits s 0 false in
  if negb seen then Throw (StdException "invalid_argument")
  else if (if neg : bool then 2 ^ 31 <? v else 2 ^ 31 <=? v) then Throw (StdException "out_of_range")
  else Ok (if neg : bool then - v else v).

Definition ARGDEFAULT_SERVICEPORT : Z := 1611.
Definition NETBENCH_PORT_OFFSET : Z := 1000.

(** The text before the first colon and the text behind it. *)
Fixpoint split_colon (s : string) : option (string * string) :=
  match s with
  | "" => None
  | String ch s =>
      if Ascii.eqb ch ":" then Some ("", s) else (fun '(before, behind) => (String ch before, behind)) <$> split_colon s
  end.

(** The port is an [unsigned short]. *)
Definition server_addr (server : string) : result (string * Z) :=
  match split_colon server with
  | None => Ok (server, ARGDEFAULT_SERVICEPORT + NETBENCH_PORT_OFFSET)
  | Some (host, portStr) => port ← stoi portStr; Ok (host, (port + NETBENCH_PORT_OFFSET) `mod` 2 ^ 16)
  end.

Definition parseNetBenchServersForService (fuel : nat) (useNetBench : bool) (netBenchServersStr : string) (numNetBenchServers : Z)
    (serversVec : list (string * Z)) : option (result (list (string * Z))) :=
  if negb useNetBench || String.eqb netBenchServersStr "" || (numNetBenchServers =? 0) then Some (Ok serversVec)
  else
    servers ⇐ parse_list fuel netBenchServersStr LIST_DELIMITERS;
    addrs ⇐ Some (mapM server_addr servers);
    match serversVec ++ addrs with
    | [] => Some (Throw (ProgException "Netbench servers defined, but parsing resulted in an empty list: "))
    | all => Some (Ok (take (Z.to_nat numNetBenchServers) all))
    end.

(** *** S3 endpoints and network devices *)

Definition parseS3Endpoints (fuel : nat) (benchMode : BenchMode) (treeScanIsS3 runAsService : bool) (overrideStr endpointsStr : string)
    : option (result (string * list string)) :=
  if negb (bool_decide (benchMode = BenchMode_S3)) && negb treeScanIsS3 then Some (Ok (endpointsStr, []))
  else
    let endpointsStr := if negb (String.eqb overrideStr "") && runAsService then overrideStr else endpointsStr in
    endpoints ⇐ parse_list fuel endpointsStr LIST_DELIMITERS;
    match endpoints with
    | [] =>
        if String.eqb endpointsStr "" then Some (Ok (endpointsStr, []))
        else Some (Throw (ProgException "S3 endpoints defined, but parsing resulted in an empty list: "))
    | _ => Some (Ok (endpointsStr, endpoints))
    end.

Definition parseNetDevs (fuel : nat) (netDevsStr : string) : option (result (list string)) :=
  if String.eqb netDevsStr "" then Some (Ok [])
  else
    devs ⇐ parse_list fuel netDevsStr LIST_DELIMITERS;
    match devs with
    | [] => Some (Throw (ProgException "Network devices for binding defined, but parsing resulted in an empty list: "))
    | _ => Some (Ok devs)
    end.

(** ** Lemmas *)

(** *** Splitting *)

Definition sep_free (is_sep : ascii -> bool) (s : string) : Prop := str_forall (fun c => negb (is_sep c)) s = true.

Lemma split_any_free is_sep s acc sep rest :
  sep_free is_sep s -> is_sep sep = true ->
  split_any is_sep (s +:+ String sep rest) acc false = (acc +:+ s) :: split_any is_sep rest "" true.
Proof.
  unfold sep_free. revert acc. induction s as [|c s IH]; intros acc Hs Hsep; cbn.
  - by rewrite Hsep, str_app_nil_r.
  - cbn in Hs. apply andb_prop in Hs as [Hc Hs]. apply negb_true_iff in Hc. rewrite Hc, IH, str_app_assoc by done. done.
Qed.

(** In front of text that does not start with a separator it does not matter whether one came before. *)
Lemma split_any_start is_sep c s acc ins : is_sep c = false -> split_any is_sep (String c s) acc ins = split_any is_sep (String c s) acc false.
Proof. intros Hc. destruct ins; [|done]. cbn. by rewrite Hc. Qed.

(** *** Paths *)

(** A path that can be passed on in a list. *)
Definition path_text_ok (p : string) : Prop :=
  sep_free (is_any_of BENCHPATH_DELIMITER) p /\ only_spaces p = false /\ erase_path_prefix p = p.

Lemma split_paths paths ins : Forall path_text_ok paths ->
  split_any (is_any_of BENCHPATH_DELIMITER) (foldr (fun p rest => p +:+ String "," rest) "" paths) "" ins = paths ++ [""].
Proof.
  intros Hp. revert ins. induction Hp as [|p paths (Hsep & Hsp & _) Hp IH]; intros ins; [by destruct ins|]. cbn [foldr].
  assert (split_any (is_any_of BENCHPATH_DELIMITER) (p +:+ String "," (foldr (fun p rest => p +:+ String "," rest) "" paths)) "" ins
    = split_any (is_any_of BENCHPATH_DELIMITER) (p +:+ String "," (foldr (fun p rest => p +:+ String "," rest) "" paths)) "" false) as ->.
  { destruct p as [|c p]; [done|]. cbn [String.append]. apply split_any_start. unfold sep_free in Hsep. cbn [str_forall] in Hsep.
    apply andb_prop in Hsep as [Hc _]. by apply negb_true_iff in Hc. }
  rewrite split_any_free by done. by rewrite IH.
Qed.

Lemma erase_ok_paths paths : Forall path_text_ok paths ->
  eraseBenchPathPrefixesFromVec (eraseEmptyStringsFromVec (paths ++ [""])) = paths.
Proof.
  induction 1 as [|p paths (_ & Hsp & He) Hp IH]; [done|]. unfold eraseBenchPathPrefixesFromVec, eraseEmptyStringsFromVec in *.
  cbn [app List.filter]. rewrite Hsp. cbn [negb fmap list_fmap]. rewrite He. f_equal. exact IH.
Qed.

(** The paths as the master sends them. *)
Definition sent_path (benchMode : BenchMode) (cwd : option string) (path : string) : result string :=
  if bool_decide (benchMode = BenchMode_POSIX) then absolutePath cwd path else Ok path.

(** Whenever there is a text, it is that of the paths as they are sent. *)
Lemma make_benchPathStr_ok benchMode cwd paths str : make_benchPathStr benchMode cwd paths = Ok str ->
  exists sent, mapM (sent_path benchMode cwd) paths = Ok sent /\ str = foldr (fun p rest => p +:+ String "," rest) "" sent.
Proof.
  revert str. induction paths as [|p paths IH]; intros str; cbn [make_benchPathStr].
  { intros [= <-]. by exists []. }
  fold (sent_path benchMode cwd p). cbn [mapM]. destruct (sent_path benchMode cwd p) as [q|]; [|done]. cbn.
  destruct (make_benchPathStr benchMode cwd paths) as [rest|]; [|done]. destruct (IH rest eq_refl) as (sent & -> & ->).
  cbn. intros [= <-]. by exists (q :: sent).
Qed.

Lemma service_paths_sent benchMode cwd sent : Forall path_text_ok sent ->
  let str := foldr (fun p rest => p +:+ String "," rest) "" sent in
  service_paths benchMode cwd [] str = Ok (sent, str).
Proof. intros Hok. cbn -[String.append]. by rewrite split_paths, erase_ok_paths. Qed.

(** *** Ports *)

Lemma behind_bracket_some s u r :
  behind_bracket s = Some r -> behind_bracket (s +:+ u) = Some (r +:+ u) /\ (String.length r < String.length s)%nat.
Proof.
  induction s as [|c s IH]; [done|]. cbn [String.append String.length behind_bracket].
  destruct (Ascii.eqb c "]"); [intros [= ->]; split; [done|lia]|]. destruct (Ascii.eqb c "["); [done|].
  intros H. destruct (IH H). split; [done|lia].
Qed.

Lemma behind_bracket_none s u : behind_bracket s = None -> behind_bracket u = None -> behind_bracket (s +:+ u) = None.
Proof.
  intros Hs Hu. induction s as [|c s IH]; [done|]. revert Hs. cbn [String.append behind_bracket].
  destruct (Ascii.eqb c "]"); [done|]. destruct (Ascii.eqb c "["); [done|]. exact IH.
Qed.

(** A colon behind any text is found, unless a bracket is closed behind it. *)
Lemma outer_colon_app t fuel s :
  behind_bracket t = None -> (String.length s < fuel)%nat -> outer_colon fuel (s +:+ String ":" t) = true.
Proof.
  intros Ht. revert s. induction fuel as [|fuel IH]; intros s Hl; [lia|]. destruct s as [|c s]; [done|].
  cbn [String.length] in Hl. cbn [String.append outer_colon]. destruct (Ascii.eqb c ":"); [done|].
  destruct (Ascii.eqb c "["); [|apply IH; lia]. destruct (behind_bracket s) as [r|] eqn:Hb.
  - destruct (behind_bracket_some s (String ":" t) r Hb) as [-> ?]. apply IH. lia.
  - rewrite (behind_bracket_none s (String ":" t) Hb) by done. apply IH. lia.
Qed.

Lemma behind_bracket_free s : str_contains "]" s = false -> behind_bracket s = None.
Proof.
  induction s as [|c s IH]; [done|]. cbn [str_contains behind_bracket]. intros H. apply orb_false_iff in H as [H1 H2].
  rewrite Ascii.eqb_sym, H1, IH by done. by destruct (Ascii.eqb c "[").
Qed.

Lemma with_port_has_port port host : 0 <= port -> has_port (with_port port host) = true.
Proof.
  intros Hp. unfold with_port. destruct (has_port host) eqn:H; [done|]. unfold has_port.
  change (host +:+ ":" +:+ to_string port) with (host +:+ String ":" (to_string port)).
  apply outer_colon_app; [|rewrite str_length_app; cbn; lia]. apply behind_bracket_free, to_string_free; [done|reflexivity].
Qed.

(** *** Hosts *)

Lemma parse_host_pair_ports fuel file port pair str hosts : 0 <= port ->
  parse_host_pair fuel file port pair = Some (Ok (str, hosts)) -> Forall (fun h => has_port h = true) hosts.
Proof.
  intros Hp. destruct pair as [hostsStr filePath]. cbn [parse_host_pair]. destruct (_ && _).
  { intros [= <- <-]. constructor. }
  assert (forall l, Forall (fun h => has_port h = true) (with_port port <$> l)) as Hl.
  { intros l. apply Forall_fmap, Forall_true. intros h. by apply with_port_has_port. }
  unfold and_then. repeat case_match; intros Heq; simplify_eq; exact (Hl (_ :: _)).
Qed.

(** What the hosts in the arguments become: a list without duplicates, with a port each. *)
Lemma parsed_hosts_wf fuel file a h : 0 <= ho_servicePort a -> parseHosts fuel file a = Some (Ok h) ->
  NoDup (hs_hostsVec h) /\ Forall (fun s => has_port s = true) (hs_hostsVec h) /\
  (0 <= ho_numHosts a -> Z.of_nat (length (hs_hostsVec h)) <= ho_numHosts a).
Proof.
  intros Hp. unfold parseHosts. destruct (_ =? 0) eqn:H0.
  { intros [= <-]. cbn. repeat split; try constructor. lia. }
  set (all := if ho_useNetBench a then _ else _).
  assert (forall r, all = Some (Ok r) -> Forall (fun s => has_port s = true) (hs_hostsVec r)) as Hall.
  { subst all. intros r. unfold and_then. destruct (ho_useNetBench a).
    - destruct (parse_host_pair _ _ _ (ho_servers a)) as [[[s1 h1]|]|] eqn:H1; try done.
      destruct (parse_host_pair _ _ _ (ho_clients a)) as [[[s2 h2]|]|] eqn:H2; try done.
      intros [= <-]. cbn. apply Forall_app; split; by eapply parse_host_pair_ports.
    - destruct (parse_host_pair _ _ _ (ho_hosts a)) as [[[s1 h1]|]|] eqn:H1; try done.
      intros [= <-]. by eapply parse_host_pair_ports. }
  unfold and_then. destruct all as [[r|]|]; try done. specialize (Hall r eq_refl).
  case_bool_decide as Hnd; [|done]. cbn [negb]. intros [= <-]. cbn [hs_hostsVec]. destruct (_ <? 0) eqn:Hn; [repeat split; [done..|lia]|].
  repeat split; [by eapply sublist_NoDup, sublist_take|by apply Forall_take|]. rewrite length_take. lia.
Qed.

(** *** Servers *)

Lemma split_colon_app s t : str_contains ":" s = false -> split_colon (s +:+ String ":" t) = Some (s, t).
Proof.
  induction s as [|c s IH]; [done|]. cbn [str_contains String.append split_colon]. intros H. apply orb_false_iff in H as [H1 H2].
  by rewrite Ascii.eqb_sym, H1, IH.
Qed.

Lemma split_colon_free s : str_contains ":" s = false -> split_colon s = None.
Proof.
  induction s as [|c s IH]; [done|]. cbn [str_contains split_colon]. intros H. apply orb_false_iff in H as [H1 H2].
  by rewrite Ascii.eqb_sym, H1, IH.
Qed.

Lemma stoi_of_to_string z : 0 <= z < 2 ^ 31 -> stoi (to_string z) = Ok z.
Proof.
  intros Hz. unfold stoi. pose proof (scan_sign_to_string z "") as Hs. rewrite str_app_nil_r in Hs. rewrite Hs by lia.
  pose proof (scan_to_string z "") as Hd. rewrite str_app_nil_r in Hd. rewrite Hd by (done || lia). cbn [negb].
  destruct (Z.leb_spec (2 ^ 31) z); [lia|done].
Qed.

(** The clients of a network benchmark find a server that was given without a port where the
    master finds its service, one thousand ports higher: if the port of the service is the
    default one. *)
Lemma server_addr_default_port server : str_contains ":" server = false ->
  server_addr (server +:+ ":" +:+ to_string ARGDEFAULT_SERVICEPORT) = server_addr server.
Proof.
  intros Hs. unfold server_addr. rewrite (split_colon_free server Hs).
  change (server +:+ ":" +:+ to_string ARGDEFAULT_SERVICEPORT) with (server +:+ String ":" (to_string ARGDEFAULT_SERVICEPORT)).
  by rewrite (split_colon_app server _ Hs), stoi_of_to_string by (unfold ARGDEFAULT_SERVICEPORT; lia).
Qed.

(** With another port the two differ, and an IPv6 address is not an address. *)
Example servers_of_other_port : with_port 1700 "node1" = "node1:1700" /\ server_addr "node1:1700" = Ok ("node1", 2700) /\
  server_addr "node1" = Ok ("node1", 2611) /\ server_addr "[fe80::1]:1611" = Throw (StdException "invalid_argument").
Proof. by vm_compute. Qed.

(** A path with a character of the list of delimiters is two paths on the service. *)
Example path_with_at_is_split : service_paths BenchMode_POSIX None [] "/mnt/a@b/f," = Ok (["/mnt/a"; "b/f"], "/mnt/a@b/f,").
Proof. reflexivity. Qed.

(** ** Theorems *)

(** C29: A service gets the benchmark paths of the master: whatever paths the command line gives,
    after the expansion of brackets and the conversion of S3 paths, a service that has none of its own
    reads from the text that the master sends exactly the master's paths, made absolute in POSIX
    mode, in their order, whatever its own working directory is; provided that no path has one of the
    delimiters in it, is blank or starts with the prefix of another mode. *)
Theorem bench_paths_round_trip fuel benchMode cwd cwd' noExpansion haveTreeFile fileSize argPaths paths str tree :
  master_paths fuel benchMode cwd noExpansion haveTreeFile fileSize argPaths = Some (Ok (paths, str, tree)) ->
  (forall p q, p ∈ paths -> sent_path benchMode cwd p = Ok q -> path_text_ok q) ->
  exists sent, mapM (sent_path benchMode cwd) paths = Ok sent /\
    service_paths benchMode cwd' [] str = Ok (sent, str).
Proof.
  intros Hm Hok. assert (make_benchPathStr benchMode cwd paths = Ok str) as Hstr.
  { revert Hm. unfold master_paths, and_then. repeat case_match; intros; simplify_eq/=; done. }
  destruct (make_benchPathStr_ok _ _ _ _ Hstr) as (sent & Hs & ->). exists sent. split; [done|].
  apply service_paths_sent. clear Hstr Hm. revert sent Hs. induction paths as [|p paths IH]; intros sent; cbn [mapM].
  { intros [= <-]. constructor. }
  destruct (sent_path benchMode cwd p) as [q|] eqn:Hq; [|done]. cbn.
  destruct (mapM (sent_path benchMode cwd) paths) as [l|] eqn:Hl; [|done]. cbn. intros [= <-]. constructor.
  - apply (Hok p q); [apply list_elem_of_here|done].
  - apply IH; [|done]. intros p' q' Hin. apply Hok. by apply list_elem_of_further.
Qed.

Lemma bench_paths_round_trip_witness :
  exists sent, mapM (sent_path BenchMode_POSIX (Some "/home/u")) ["d1"; "d2"; "/mnt/x"] = Ok sent /\
    service_paths BenchMode_POSIX None [] "/home/u/d1,/home/u/d2,/mnt/x," = Ok (sent, "/home/u/d1,/home/u/d2,/mnt/x,").
Proof.
  apply (bench_paths_round_trip 10 BenchMode_POSIX (Some "/home/u") None false false 4096 ["d[1-2]"; "/mnt/x"] _ _ None).
  - vm_compute. reflexivity.
  - intros p q Hp. assert (p = "d1" \/ p = "d2" \/ p = "/mnt/x") as [-> | [-> | ->]] by set_solver.
    all: intros Hq; vm_compute in Hq; injection Hq as <-; by vm_compute.
Defined.
