(* ===== verification/S3UploadStore.v ===== *)
(** Shared multipart uploads: class [S3UploadStore] of S3UploadStore.{h,cpp}, which tracks the
    parts that different workers upload for one object and hands all parts to the worker that
    completes the object.

    Every public function holds the mutex of the store for its whole body, so the calls of the
    workers are a sequence of atomic steps.  The S3 server is a parameter: [server] answers a
    [CreateMultipartUpload] request with a new upload ID or an error. *)

From S2P Require Import Prelude CppStrings PathStore.
From Stdlib Require String.
From Stdlib Require Import Sorted.

#[local] Open Scope list_scope.
#[local] Open Scope Z_scope.

(** ** Definitions *)

Record S3UploadKey : Type := mkKey { key_bucketName : string; key_objectName : string }.

#[global] Instance S3UploadKey_eq_dec : EqDecision S3UploadKey.
Proof. solve_decision. Defined.

(** [operator<]: shorter object names first, then by object name, then by bucket name. *)
Definition key_lt (a b : S3UploadKey) : bool :=
  let la := String.length (key_objectName a) in
  let lb := String.length (key_objectName b) in
  if (la <? lb)%nat then true
  else if (lb <? la)%nat then false
  else if str_lt (key_objectName a) (key_objectName b) then true
  else if str_lt (key_objectName b) (key_objectName a) then false
  else str_lt (key_bucketName a) (key_bucketName b).

Section store.
Context {Part : Type}.

Record S3UploadElem : Type := mkUpload {
  up_numBytesDone : Z;
  up_uploadID : string;
  up_completedParts : list Part;
}.

(** [std::map<S3UploadKey, S3UploadElem>], ascending by [key_lt]. *)
Definition upload_map : Type := list (S3UploadKey * S3UploadElem).

Fixpoint upload_find (k : S3UploadKey) (m : upload_map) : option S3UploadElem :=
  match m with
  | [] => None
  | (k', e) :: m => if decide (k = k') then Some e else upload_find k m
  end.

Fixpoint upload_insert (k : S3UploadKey) (e : S3UploadElem) (m : upload_map) : upload_map :=
  match m with
  | [] => [(k, e)]
  | (k', e') :: m =>
      if decide (k = k') then (k, e) :: m
      else if key_lt k k' then (k, e) :: (k', e') :: m
      else (k', e') :: upload_insert k e m
  end.

Fixpoint upload_erase (k : S3UploadKey) (m : upload_map) : upload_map :=
  match m with
  | [] => []
  | (k', e) :: m => if decide (k = k') then m else (k', e) :: upload_erase k m
  end.

(** A server with its state: [Some id] or an error answer. *)
Definition s3_server (S : Type) : Type := S3UploadKey -> S -> option string * S.

Definition getMultipartUploadID {S} (server : s3_server S) (k : S3UploadKey) (m : upload_map) (s : S)
    : result string * upload_map * S :=
  match upload_find k m with
  | Some e => (Ok (up_uploadID e), m, s)
  | None =>
      match server k s with
      | (None, s) => (Throw (WorkerException "Multipart upload creation failed."), m, s)
      | (Some id, s) => (Ok id, upload_insert k (mkUpload 0 id []) m, s)
      end
  end.

(** [None] is the null pointer: rejected or not finished yet. *)
Definition addCompletedPart (s3NoMpuCompletion : bool) (k : S3UploadKey) (numProgressBytes objectTotalSize : Z)
    (part : Part) (m : upload_map) : option (list Part) * upload_map :=
  match upload_find k m with
  | None => (None, m)
  | Some e =>
      let e := mkUpload (up_numBytesDone e +₆₄ numProgressBytes) (up_uploadID e) (up_completedParts e ++ [part]) in
      if (up_numBytesDone e <? objectTotalSize) || s3NoMpuCompletion then (None, upload_insert k e m)
      else (Some (up_completedParts e), upload_erase k (upload_insert k e m))
  end.

Definition getNextUnfinishedUpload (m : upload_map) : option (S3UploadKey * string) * upload_map :=
  match m with
  | [] => (None, [])
  | (k, e) :: m => (Some (k, up_uploadID e), m)
  end.

Definition S3UploadStore_reset (m : upload_map) : upload_map := [].

(** The loop of [loadSvcMPUSharingFile()] over the lines of the file; what was inserted before an
    exception stays in the map. *)
Fixpoint load_mpu_lines (bucketName objectPrefix : string) (lines : list string) (pathList : list PathStoreElem)
    (m : upload_map) : result unit * upload_map :=
  match lines with
  | [] =>
      match pathList with
      | [] => (Ok tt, m)
      | _ => (Throw (WorkerException "Treefile list longer than shared MPU IDs list"), m)
      end
  | line :: lines =>
      if decide (line = "") then load_mpu_lines bucketName objectPrefix lines pathList m
      else
        match pathList with
        | [] => (Throw (WorkerException "Shared MPU IDs list is longer than treefile list"), m)
        | p :: pathList =>
            let k := mkKey bucketName (objectPrefix +:+ path p) in
            let numBytesDone := match upload_find k m with Some e => up_numBytesDone e | None => 0 end in
            load_mpu_lines bucketName objectPrefix lines pathList (upload_insert k (mkUpload numBytesDone line []) m)
        end
  end.

Definition loadSvcMPUSharingFile (bucketName objectPrefix : string) (pathList : list PathStoreElem)
    (file : option (list string)) (m : upload_map) : result unit * upload_map :=
  match pathList with
  | [] => (Throw (WorkerException "Found empty shared paths list in MPU sharing mode."), m)
  | _ =>
      match file with
      | None => (Throw (WorkerException "Opening MPU IDs file failed: "), m)
      | Some lines => load_mpu_lines bucketName objectPrefix lines pathList m
      end
  end.

Definition setProgArgs (useS3MPUSharing : bool) (workerRank rankOffset : Z) (bucketName objectPrefix : string)
    (pathList : list PathStoreElem) (file : option (list string)) (m : upload_map) : result unit * upload_map :=
  if useS3MPUSharing && (workerRank -₆₄ rankOffset =? 0)
  then loadSvcMPUSharingFile bucketName objectPrefix pathList file m
  else (Ok tt, m).

(** The calls of [addCompletedPart()] for one object, by whichever workers and in whichever
    order: the answers. *)
Fixpoint add_parts (noCompletion : bool) (k : S3UploadKey) (total : Z) (parts : list (Z * Part)) (m : upload_map)
    : list (option (list Part)) * upload_map :=
  match parts with
  | [] => ([], m)
  | (n, part) :: parts =>
      let '(r, m) := addCompletedPart noCompletion k n total part m in
      let '(rs, m) := add_parts noCompletion k total parts m in
      (r :: rs, m)
  end.
End store.
Arguments S3UploadElem _ : clear implicits.
Arguments upload_map _ : clear implicits.

(** ** The order of the keys *)

Lemma str_lt_total s t : str_lt s t = false -> str_lt t s = false -> s = t.
Proof.
  revert t. induction s as [|c s IH]; intros [|d t]; cbn; try done.
  intros H1 H2. apply orb_false_iff in H1 as [H1 H1']. apply orb_false_iff in H2 as [H2 H2'].
  assert (char_code c = char_code d) as Hc by lia. rewrite Hc, Z.eqb_refl in *. cbn in *.
  f_equal; [|by apply IH]. unfold char_code in Hc. rewrite <- (ascii_N_embedding c), <- (ascii_N_embedding d). f_equal. lia.
Qed.

Lemma str_lt_irrefl s : str_lt s s = false.
Proof. destruct (str_lt s s) eqn:H; [|done]. by rewrite (str_lt_asym s s H) in H. Qed.

Lemma str_lt_trans s t u : str_lt s t = true -> str_lt t u = true -> str_lt s u = true.
Proof.
  intros H1 H2. destruct (str_lt s u) eqn:H; [done|].
  pose proof (str_le_trans u s t H (str_lt_asym _ _ H1)). congruence.
Qed.

Definition key_less (a b : S3UploadKey) : Prop := key_lt a b = true.

Lemma key_lt_spec a b :
  key_less a b <->
  (String.length (key_objectName a) < String.length (key_objectName b))%nat
  \/ String.length (key_objectName a) = String.length (key_objectName b)
     /\ (str_lt (key_objectName a) (key_objectName b) = true
         \/ key_objectName a = key_objectName b /\ str_lt (key_bucketName a) (key_bucketName b) = true).
Proof.
  unfold key_less, key_lt. destruct (Nat.ltb_spec (String.length (key_objectName a)) (String.length (key_objectName b))) as [H1|H1].
  { split; [by left|done]. }
  destruct (Nat.ltb_spec (String.length (key_objectName b)) (String.length (key_objectName a))) as [H2|H2].
  { split; [done|]. intros [?|[? _]]; lia. }
  assert (String.length (key_objectName a) = String.length (key_objectName b)) as He by lia.
  destruct (str_lt (key_objectName a) (key_objectName b)) eqn:Hab; [split; auto|].
  destruct (str_lt (key_objectName b) (key_objectName a)) eqn:Hba.
  { split; [done|]. intros [?|[_ [?|[E _]]]]; [lia|done|]. rewrite E, str_lt_irrefl in Hba. done. }
  pose proof (str_lt_total _ _ Hab Hba) as E. split; [auto|]. intros [?|[_ [?|[_ ?]]]]; [lia|done|done].
Qed.

#[global] Instance key_less_strict : StrictOrder key_less.
Proof.
  split.
  - intros a H. apply key_lt_spec in H as [H|[_ [H|[_ H]]]]; [lia|by rewrite str_lt_irrefl in H..].
  - intros a b c H1 H2. apply key_lt_spec in H1. apply key_lt_spec in H2. apply key_lt_spec.
    destruct H1 as [H1|[E1 H1]], H2 as [H2|[E2 H2]]; [left; lia..|]. right. split; [congruence|].
    destruct H1 as [H1|[F1 H1]], H2 as [H2|[F2 H2]].
    + left. by eapply str_lt_trans.
    + left. by rewrite <- F2.
    + left. by rewrite F1.
    + right. split; [congruence|]. by eapply str_lt_trans.
Qed.

Lemma key_lt_total a b : key_lt a b = false -> a <> b -> key_less b a.
Proof.
  intros H Hne. apply key_lt_spec.
  assert (~ key_less a b) as Hn by (unfold key_less; congruence). rewrite key_lt_spec in Hn.
  destruct (decide (String.length (key_objectName b) < String.length (key_objectName a))%nat); [by left|right].
  split; [lia|]. destruct (str_lt (key_objectName b) (key_objectName a)) eqn:Hba; [by left|right].
  destruct (str_lt (key_objectName a) (key_objectName b)) eqn:Hab; [exfalso; apply Hn; right; split; [lia|by left]|].
  pose proof (str_lt_total _ _ Hab Hba) as E. split; [done|].
  destruct (str_lt (key_bucketName b) (key_bucketName a)) eqn:Hbb; [done|]. exfalso.
  destruct (str_lt (key_bucketName a) (key_bucketName b)) eqn:Hcc; [apply Hn; right; split; [lia|by right]|].
  apply Hne. destruct a, b; cbn in *. f_equal; [by apply str_lt_total|done].
Qed.

(** ** The map *)

Section map.
Context {Part : Type}.
#[local] Abbreviation umap := (upload_map Part).

(** Ascending by key. *)
Definition upload_sorted (m : umap) : Prop := StronglySorted (fun a b => key_less (fst a) (fst b)) m.

Lemma upload_find_insert k k' e (m : umap) :
  upload_find k' (upload_insert k e m) = if decide (k' = k) then Some e else upload_find k' m.
Proof.
  induction m as [|[k0 e0] m IH]; cbn; [done|]. destruct (decide (k = k0)) as [->|Hne]; cbn.
  - destruct (decide (k' = k0)); done.
  - destruct (key_lt k k0); cbn; [done|]. rewrite IH. destruct (decide (k' = k0)) as [->|]; [|done].
    by rewrite decide_False by done.
Qed.

Lemma upload_insert_elem k e (m : umap) x : x ∈ upload_insert k e m -> x = (k, e) \/ x ∈ m.
Proof.
  induction m as [|[k0 e0] m IH]; cbn; [by intros ?%list_elem_of_singleton; left|].
  destruct (decide (k = k0)); [intros [?|?]%elem_of_cons; [by left|right; by right]|].
  destruct (key_lt k k0); [intros [?|?]%elem_of_cons; auto|].
  intros [->|[?|?]%IH]%elem_of_cons; [right; left|by left|right; by right].
Qed.

Lemma upload_insert_sorted k e (m : umap) : upload_sorted m -> upload_sorted (upload_insert k e m).
Proof.
  induction 1 as [|[k0 e0] m Hs IH Hall]; cbn; [repeat constructor|].
  destruct (decide (k = k0)) as [->|Hne]; [by constructor|]. destruct (key_lt k k0) eqn:Hlt.
  - constructor; [by constructor|]. constructor; [done|]. eapply Forall_impl; [exact Hall|]. intros [k1 e1] H1. cbn in *.
    by transitivity k0.
  - constructor; [done|]. apply Forall_forall. intros x Hx. apply upload_insert_elem in Hx as [->|Hx]; cbn.
    + by apply key_lt_total.
    + rewrite Forall_forall in Hall. by apply Hall.
Qed.

Lemma upload_find_above k (m : umap) : Forall (fun x => key_less k (fst x)) m -> upload_find k m = None.
Proof.
  induction 1 as [|[k0 e0] m Hk _ IH]; cbn; [done|]. destruct (decide (k = k0)) as [->|]; [|done]. cbn in Hk.
  exfalso. exact (StrictOrder_Irreflexive _ Hk).
Qed.

Lemma upload_find_erase k k' (m : umap) :
  upload_sorted m -> upload_find k' (upload_erase k m) = if decide (k' = k) then None else upload_find k' m.
Proof.
  induction 1 as [|[k0 e0] m Hs IH Hall]; cbn; [by destruct (decide _)|]. destruct (decide (k = k0)) as [->|Hne]; cbn.
  - destruct (decide (k' = k0)) as [->|]; [|done]. by apply upload_find_above.
  - rewrite IH. destruct (decide (k' = k0)) as [->|]; [|done]. by rewrite decide_False by done.
Qed.

Lemma upload_erase_sorted k (m : umap) : upload_sorted m -> upload_sorted (upload_erase k m).
Proof.
  induction 1 as [|[k0 e0] m Hs IH Hall]; cbn; [constructor|]. destruct (decide (k = k0)); [done|].
  constructor; [done|]. apply Forall_forall. intros x Hx. rewrite Forall_forall in Hall. apply Hall.
  clear -Hx. induction m as [|[k1 e1] m IH]; cbn in Hx; [done|].
  destruct (decide (k = k1)); [by right|]. apply elem_of_cons in Hx as [->|Hx]; [left|right; auto].
Qed.
End map.

(** ** Theorems *)

Section completion.
Context {Part : Type}.
#[local] Abbreviation umap := (upload_map Part).

(** Adding the parts [parts] to an upload that has [nd] bytes in the parts [ps]. *)
Lemma add_parts_spec k total parts nd ps id (m : umap) :
  upload_sorted m -> upload_find k m = Some (mkUpload nd id ps) -> parts <> [] -> 0 <= nd ->
  Forall (fun p => 0 < fst p) parts -> nd + Zsum (fst <$> parts) = total -> total < TWO64 ->
  let '(answers, m') := add_parts false k total parts m in
  answers = replicate (length parts - 1) None ++ [Some (ps ++ (snd <$> parts))]
  /\ upload_sorted m' /\ forall k', upload_find k' m' = if decide (k' = k) then None else upload_find k' m.
Proof.
  revert nd ps m. induction parts as [|[n part] parts IH]; intros nd ps m Hs Hf Hne Hd Hpos Hsum Hb; [done|].
  apply Forall_cons in Hpos as [Hn Hpos]. rewrite fmap_cons, Zsum_cons in Hsum. cbn [fst] in Hn, Hsum.
  assert (0 <= Zsum (fst <$> parts)) as H0.
  { apply Zsum_nonneg, Forall_fmap. eapply Forall_impl; [exact Hpos|]. intros [a b]. cbn. lia. }
  cbn [add_parts]. unfold addCompletedPart. rewrite Hf. cbn [up_numBytesDone up_uploadID up_completedParts].
  rewrite u64_small by lia. rewrite orb_false_r. destruct parts as [|[n2 part2] parts].
  - cbn in Hsum. rewrite (proj2 (Z.ltb_ge _ _)) by lia. cbn. split; [done|]. split.
    + by apply upload_erase_sorted, upload_insert_sorted.
    + intros k'. rewrite upload_find_erase by (by apply upload_insert_sorted). case_decide; [done|].
      rewrite upload_find_insert. by rewrite decide_False.
  - assert (0 < Zsum (fst <$> (n2, part2) :: parts)) as Hrest.
    { apply Forall_cons in Hpos as [Hn2 Hpos2]. rewrite fmap_cons, Zsum_cons in *. cbn in *.
      assert (0 <= Zsum (fst <$> parts)); [|lia]. apply Zsum_nonneg, Forall_fmap. eapply Forall_impl; [exact Hpos2|]. intros [a b]. cbn. lia. }
    rewrite (proj2 (Z.ltb_lt _ _)) by lia.
    specialize (IH (nd + n) (ps ++ [part]) (upload_insert k (mkUpload (nd + n) id (ps ++ [part])) m)).
    destruct (add_parts false k total ((n2, part2) :: parts) _) as [answers m'] eqn:Hadd.
    destruct IH as (Ha & Hs' & Hf'); [by apply upload_insert_sorted|by rewrite upload_find_insert, decide_True|done|lia|done|lia|done|].
    rewrite Ha. split; [|split; [done|]].
    + cbn [length Nat.sub]. rewrite Nat.sub_0_r. cbn [replicate app fmap list_fmap snd]. by rewrite <- app_assoc.
    + intros k'. rewrite Hf'. case_decide; [done|]. rewrite upload_find_insert. by rewrite decide_False.
Qed.

(** a shared multipart upload is completed exactly once: when workers report the parts of an
    object, in any order and of any sizes that add up to the object size, every report but the
    last gets nothing, the last one gets all parts in the order of the reports, the object leaves
    the store, other objects are untouched, and a later report is rejected. *)
Lemma s3_upload_completed_exactly_once k total parts id (m : umap) :
  upload_sorted m -> upload_find k m = Some (mkUpload 0 id []) -> parts <> [] ->
  Forall (fun p => 0 < fst p) parts -> Zsum (fst <$> parts) = total -> total < TWO64 ->
  let '(answers, m') := add_parts false k total parts m in
  answers = replicate (length parts - 1) None ++ [Some (snd <$> parts)]
  /\ upload_sorted m' /\ (forall k', k' <> k -> upload_find k' m' = upload_find k' m)
  /\ forall n part, addCompletedPart false k n total part m' = (None, m').
Proof.
  intros Hs Hf Hne Hpos Hsum Hb. pose proof (add_parts_spec k total parts 0 [] id m Hs Hf Hne ltac:(lia) Hpos Hsum Hb) as H.
  destruct (add_parts false k total parts m) as [answers m']. destruct H as (Ha & Hs' & Hf').
  split; [done|]. split; [done|]. split.
  - intros k' Hk'. rewrite Hf'. by rewrite decide_False.
  - intros n part. unfold addCompletedPart. rewrite Hf'. by rewrite decide_True.
Qed.

(** All workers of an object use the same upload: the first request asks the server once and
    stores its answer, every later request gets the same ID without asking; a failed creation
    leaves the store unchanged. *)
Lemma s3_upload_id_shared {S} (server : s3_server S) k (m : umap) s :
  upload_sorted m ->
  let '(r, m1, s1) := getMultipartUploadID server k m s in
  upload_sorted m1
  /\ match r with
     | Ok id =>
         (forall s', getMultipartUploadID server k m1 s' = (Ok id, m1, s'))
         /\ (upload_find k m = None -> upload_find k m1 = Some (mkUpload 0 id []) /\ server k s = (Some id, s1))
         /\ (forall k', k' <> k -> upload_find k' m1 = upload_find k' m)
     | Throw _ => m1 = m /\ upload_find k m = None
     end.
Proof.
  intros Hs. unfold getMultipartUploadID. destruct (upload_find k m) as [e|] eqn:Hf.
  - split; [done|]. split; [intros s'; by rewrite Hf|]. split; done.
  - destruct (server k s) as [[id|] s1] eqn:Hsrv; [|done]. split; [by apply upload_insert_sorted|]. split; [|split].
    + intros s'. by rewrite upload_find_insert, decide_True.
    + intros _. by rewrite upload_find_insert, decide_True.
    + intros k' Hk'. by rewrite upload_find_insert, decide_False.
Qed.
End completion.

Definition ex_key : S3UploadKey := mkKey "bucket" "obj".

Lemma s3_upload_id_shared_witness :
  exists m1, upload_sorted (Part := nat) m1 /\ forall s' : nat,
    getMultipartUploadID (fun _ n => (Some "id", S n)) ex_key m1 s' = (Ok "id", m1, s').
Proof.
  pose proof (s3_upload_id_shared (Part := nat) (fun _ n => (Some "id", S n)) ex_key [] 0%nat ltac:(constructor)) as H.
  cbn in H. destruct H as (Hs & Hid & _). eexists. split; [exact Hs|exact Hid].
Defined.
