(* ===== verification/RateLimiter.v ===== *)
(** Rate limits: class [RateLimiter] of toolkits/RateLimiter.h, which one worker uses for itself,
    and class [RateLimiterRWMixThreads] of toolkits/RateLimiterRWMixThreads.h, which balances all
    reader threads against all writer threads through two shared atomic counters.

    Clock readings are arguments, in nanoseconds: [wait()] gets the value of each of its calls of
    [steady_clock::now()].  The balance is a step relation: a thread inside [waitRead()] or
    [waitWrite()] executes one access to a shared counter per step, and the steps of different
    threads interleave freely.  The steps start when every worker has run its [initStart()],
    which sets the two counters to zero. *)

From S2P Require Import Prelude.
From stdpp Require Import relations.

#[local] Open Scope list_scope.
#[local] Open Scope Z_scope.

(** ** Definitions *)

(** *** The limit of one thread *)

Record RateLimiter : Type := mkRateLimiter { limitPerSec : Z; numDoneThisSec : Z; startT : Z }.

Definition RateLimiter_initStart (limit now : Z) : RateLimiter := mkRateLimiter limit 0 now.

(** What [wait()] does with the clock: [Sleep t] calls [sleep_until(t)] between the readings. *)
Inductive wait_branch : Type := NewSecond | Sleep (until : Z) | Proceed.

Definition wait_decide (nextSize nowT : Z) (l : RateLimiter) : wait_branch :=
  if 1000000 <=? Z.quot (nowT - startT l) 1000 then NewSecond
  else if limitPerSec l <? numDoneThisSec l +₆₄ nextSize then Sleep (startT l + 1000000 * 1000)
  else Proceed.

(** [afterT] is the second reading, which [Proceed] does not take. *)
Definition RateLimiter_wait (nextSize nowT afterT : Z) (l : RateLimiter) : bool * RateLimiter :=
  match wait_decide nextSize nowT l with
  | NewSecond => (false, mkRateLimiter (limitPerSec l) nextSize afterT)
  | Sleep _ => (true, mkRateLimiter (limitPerSec l) nextSize afterT)
  | Proceed => (false, mkRateLimiter (limitPerSec l) (numDoneThisSec l +₆₄ nextSize) (startT l))
  end.

(** A worker's calls: size and clock readings of each. *)
Record wait_call : Type := mkCall { wc_size : Z; wc_now : Z; wc_after : Z }.

Fixpoint wait_calls (calls : list wait_call) (l : RateLimiter) : RateLimiter :=
  match calls with
  | [] => l
  | c :: calls => wait_calls calls (snd (RateLimiter_wait (wc_size c) (wc_now c) (wc_after c) l))
  end.

(** [steady_clock] never goes back, and [sleep_until(t)] returns at [t] or later.  [t] is the
    reading before the calls. *)
Fixpoint clock_ok (calls : list wait_call) (t : Z) (l : RateLimiter) : Prop :=
  match calls with
  | [] => True
  | c :: calls =>
      t <= wc_now c <= wc_after c
      /\ match wait_decide (wc_size c) (wc_now c) l with Sleep until => until <= wc_after c | _ => True end
      /\ clock_ok calls (wc_after c) (snd (RateLimiter_wait (wc_size c) (wc_now c) (wc_after c) l))
  end.

(** *** The balance between reader and writer threads *)

Record RateLimiterRWMixThreads : Type := mkBalance {
  readRatioPercent : Z;
  numReaderThreads : Z;
  numWriterThreads : Z;
  maxBlockSize : Z;
}.

(** Where a thread is inside [waitRead()]/[waitWrite()]; [hadToWait] is the local variable. *)
Inductive wait_phase : Type :=
  | W_outside
  | W_loopStart (size : Z) (hadToWait : bool)
  | W_otherLoaded (size : Z) (hadToWait : bool) (otherWithHeadroom : Z)
  | W_allowedKnown (size : Z) (hadToWait : bool) (numBytesAllowed : Z)
  | W_granted (size : Z) (hadToWait : bool)
  | W_denied (size : Z)
  | W_thrown (e : exn).

(** One step of the loop.  [own] and [other] are the shared counters, [headRoomBytes] and
    [ratioPercent] the values of the two functions, [interrupted] and [elapsedSec] what the
    thread sees when it was denied. The result holds the new value of [own]. *)
Definition wait_step (headRoomBytes ratioPercent : Z) (interrupted : bool) (elapsedSec : Z) (timeoutMsg : string)
    (own other : Z) (ph : wait_phase) : option (wait_phase * Z) :=
  match ph with
  | W_outside | W_thrown _ => None
  | W_loopStart size hw => Some (W_otherLoaded size hw (other +₆₄ headRoomBytes), own)
  | W_otherLoaded size hw owh => Some (W_allowedKnown size hw (((owh +₆₄ own) *₆₄ ratioPercent) / 100), own)
  | W_allowedKnown size hw allowed =>
      Some (if own <=? allowed then W_granted size hw else W_denied size, own)
  | W_granted size hw => Some (W_outside, own +₆₄ size)
  | W_denied size =>
      if interrupted
      then Some (W_thrown (WorkerInterruptedException "Received friendly request to interrupt execution."), own)
      else if 600 <=? elapsedSec then Some (W_thrown (WorkerException timeoutMsg), own)
      else Some (W_loopStart size true, own)
  end.

Definition waitRead_step (b : RateLimiterRWMixThreads) (interrupted : bool) (elapsedSec numBytesRead numBytesWrite : Z)
    : wait_phase -> option (wait_phase * Z) :=
  wait_step (maxBlockSize b *₆₄ numWriterThreads b) (readRatioPercent b) interrupted elapsedSec
    "Max wait time exceeded for rate balanced reader. " numBytesRead numBytesWrite.

Definition waitWrite_step (b : RateLimiterRWMixThreads) (interrupted : bool) (elapsedSec numBytesRead numBytesWrite : Z)
    : wait_phase -> option (wait_phase * Z) :=
  wait_step (maxBlockSize b *₆₄ numReaderThreads b) (100 - readRatioPercent b) interrupted elapsedSec
    "Max wait time exceeded for rate balanced writer. " numBytesWrite numBytesRead.

(** The threads of all workers and the two shared counters. *)
Record balance_sys : Type := mkSys {
  readers : list wait_phase;
  writers : list wait_phase;
  numBytesRead : Z;
  numBytesWrite : Z;
}.

Definition RWMix_initStart (b : RateLimiterRWMixThreads) : balance_sys :=
  mkSys (replicate (Z.to_nat (numReaderThreads b)) W_outside) (replicate (Z.to_nat (numWriterThreads b)) W_outside) 0 0.

Inductive balance_step (b : RateLimiterRWMixThreads) : balance_sys -> balance_sys -> Prop :=
  | reader_calls i size s :
      readers s !! i = Some W_outside -> 0 <= size <= maxBlockSize b ->
      balance_step b s (mkSys (<[i := W_loopStart size false]> (readers s)) (writers s) (numBytesRead s) (numBytesWrite s))
  | writer_calls i size s :
      writers s !! i = Some W_outside -> 0 <= size <= maxBlockSize b ->
      balance_step b s (mkSys (readers s) (<[i := W_loopStart size false]> (writers s)) (numBytesRead s) (numBytesWrite s))
  | reader_steps i ph intr sec ph' r s :
      readers s !! i = Some ph ->
      waitRead_step b intr sec (numBytesRead s) (numBytesWrite s) ph = Some (ph', r) ->
      balance_step b s (mkSys (<[i := ph']> (readers s)) (writers s) r (numBytesWrite s))
  | writer_steps i ph intr sec ph' w s :
      writers s !! i = Some ph ->
      waitWrite_step b intr sec (numBytesRead s) (numBytesWrite s) ph = Some (ph', w) ->
      balance_step b s (mkSys (readers s) (<[i := ph']> (writers s)) (numBytesRead s) w).

(** The counters are far from the 64-bit limit (184 petabytes). *)
Definition counters_small (b : RateLimiterRWMixThreads) (s : balance_sys) : Prop :=
  (numBytesRead s + numBytesWrite s + maxBlockSize b * (numReaderThreads b + numWriterThreads b + 1)) * 100 < TWO64.

Definition balance_reach (b : RateLimiterRWMixThreads) : balance_sys -> balance_sys -> Prop :=
  rtc (fun s s' => balance_step b s s' /\ counters_small b s').

(** What a thread was granted but has not added to its counter yet. *)
Definition pending (ph : wait_phase) : Z := match ph with W_granted size _ => size | _ => 0 end.

(** A call that no other thread disturbs and that is granted without waiting. *)
Definition passes_alone (step : wait_phase -> option (wait_phase * Z)) (size : Z) : Prop :=
  exists ph1 ph2, fst <$> step (W_loopStart size false) = Some ph1 /\ fst <$> step ph1 = Some ph2
    /\ fst <$> step ph2 = Some (W_granted size false).

Definition balance_ok (b : RateLimiterRWMixThreads) : Prop :=
  0 <= readRatioPercent b <= 100 /\ 0 <= numReaderThreads b /\ 0 <= numWriterThreads b /\ 0 <= maxBlockSize b.

(** ** Lemmas: one thread *)

(** In the second that [l] is in, at most [M] was granted; since [t0], at most [M] in each second
    before it. *)
Definition limiter_inv (M t0 total : Z) (l : RateLimiter) : Prop :=
  limitPerSec l <= M /\ 0 <= numDoneThisSec l <= M
  /\ exists k, 0 <= k /\ t0 + k * 1000000000 <= startT l /\ total <= k * M + numDoneThisSec l.

Lemma elapsed_second d : 1000000 <= Z.quot d 1000 -> 1000000000 <= d.
Proof.
  intros Hq. destruct (Z.le_gt_cases 0 d).
  - rewrite Z.quot_div_nonneg in Hq by lia. pose proof (Z.mul_div_le d 1000). lia.
  - pose proof (Z.quot_le_mono d 0 1000). rewrite Z.quot_0_l in *; lia.
Qed.

Lemma wait_keeps_limiter_inv M t0 total l size nowT afterT :
  limiter_inv M t0 total l -> 0 <= size <= M -> 2 * M < TWO64 -> nowT <= afterT ->
  match wait_decide size nowT l with Sleep until => until <= afterT | _ => True end ->
  limiter_inv M t0 (total + size) (snd (RateLimiter_wait size nowT afterT l)).
Proof.
  intros (Hlim & Hd & k & Hk & Hs & Ht) Hsize HM Hclock Hsleep. unfold RateLimiter_wait, wait_decide in *.
  rewrite u64_small in * by lia. unfold limiter_inv.
  destruct (Z.leb_spec 1000000 (Z.quot (nowT - startT l) 1000)) as [Hq|_];
    [|destruct (Z.ltb_spec (limitPerSec l) (numDoneThisSec l + size))]; cbn in *.
  - assert (1000000000 <= nowT - startT l) by (by apply elapsed_second). split_and!; try lia. exists (k + 1). lia.
  - split_and!; try lia. exists (k + 1). lia.
  - split_and!; try lia. exists k. lia.
Qed.

Lemma startT_not_ahead size nowT afterT t l :
  startT l <= t -> t <= nowT <= afterT -> startT (snd (RateLimiter_wait size nowT afterT l)) <= afterT.
Proof. intros. unfold RateLimiter_wait. destruct (wait_decide size nowT l); cbn; lia. Qed.

Lemma wait_calls_inv M t0 calls : forall total t l,
  limiter_inv M t0 total l -> 2 * M < TWO64 -> Forall (fun c => 0 <= wc_size c <= M) calls -> clock_ok calls t l ->
  startT l <= t ->
  limiter_inv M t0 (total + Zsum (wc_size <$> calls)) (wait_calls calls l)
  /\ startT (wait_calls calls l) <= default t (last (wc_after <$> calls)).
Proof.
  induction calls as [|c calls IH]; intros total t l Hinv HM Hall Hclock Hst; cbn [wait_calls].
  { split; [|done]. cbn. by rewrite Z.add_0_r. }
  apply Forall_cons in Hall as [Hc Hall]. destruct Hclock as (Ht & Hsleep & Hclock).
  destruct (IH (total + wc_size c) (wc_after c) (snd (RateLimiter_wait (wc_size c) (wc_now c) (wc_after c) l)))
    as [Hi Hs]; try done.
  - apply wait_keeps_limiter_inv; try done. lia.
  - by eapply startT_not_ahead.
  - rewrite fmap_cons, Zsum_cons, Z.add_assoc. split; [done|]. rewrite fmap_cons, last_cons.
    by destruct (last (wc_after <$> calls)).
Qed.

(** ** Lemmas: the balance *)

Lemma Zsum_fmap_le {A} (f : A -> Z) (c : Z) l :
  Forall (fun x => 0 <= f x <= c) l -> 0 <= Zsum (f <$> l) <= Z.of_nat (length l) * c.
Proof. induction 1 as [|x l Hx _ IH]; [done|]. rewrite fmap_cons, Zsum_cons. cbn [length]. nia. Qed.

(** What the local variables of a thread say about the counters. *)
Definition phase_ok (maxB H p own other : Z) (ph : wait_phase) : Prop :=
  match ph with
  | W_outside | W_thrown _ => True
  | W_loopStart size _ | W_granted size _ | W_denied size => 0 <= size <= maxB
  | W_otherLoaded size _ owh => 0 <= size <= maxB /\ 0 <= owh <= other + H
  | W_allowedKnown size _ allowed => 0 <= size <= maxB /\ 100 * allowed <= p * (other + H + own)
  end.

(** One group of [n] threads; what was granted stays within its share and one block per thread. *)
Definition side_inv (n maxB H p own other : Z) (threads : list wait_phase) : Prop :=
  0 <= own /\ Z.of_nat (length threads) = n /\ Forall (phase_ok maxB H p own other) threads
  /\ (100 - p) * (own + Zsum (pending <$> threads)) <= p * (other + H) + (100 - p) * (n * maxB).

Lemma phase_ok_mono maxB H p own own' other other' ph :
  0 <= p -> own <= own' -> other <= other' -> phase_ok maxB H p own other ph -> phase_ok maxB H p own' other' ph.
Proof. intros Hp Ho Ht. destruct ph; cbn; try done; intros [? ?]; split; nia. Qed.

Lemma pending_bounds maxB H p own other threads :
  0 <= maxB -> Forall (phase_ok maxB H p own other) threads ->
  0 <= Zsum (pending <$> threads) <= Z.of_nat (length threads) * maxB.
Proof. intros HB Hall. apply Zsum_fmap_le. eapply Forall_impl; [exact Hall|]. intros []; cbn; lia. Qed.

Section side.
Context (n maxB H p : Z).
Hypothesis (HB : 0 <= maxB) (HH : 0 <= H) (Hp : 0 <= p <= 100).

(** The other group's progress only widens the share. *)
Lemma side_inv_other own other other' threads :
  side_inv n maxB H p own other threads -> other <= other' -> side_inv n maxB H p own other' threads.
Proof.
  intros (H0 & Hn & Hall & Hb) Ho. split; [done|]. split; [done|]. split; [|nia].
  eapply Forall_impl; [exact Hall|]. intros ph. apply phase_ok_mono; lia.
Qed.

(** Replacing the phase of a thread that was granted nothing new. *)
Lemma side_inv_insert own own' other threads i ph ph' :
  side_inv n maxB H p own other threads -> threads !! i = Some ph -> own <= own' ->
  phase_ok maxB H p own' other ph' ->
  (own' + pending ph' = own + pending ph \/ (own' = own /\ 100 * own <= p * (other + H + own))) ->
  side_inv n maxB H p own' other (<[i := ph']> threads).
Proof.
  intros (H0 & Hn & Hall & Hb) Hi Ho Hok Hcase.
  assert (Forall (phase_ok maxB H p own' other) (<[i := ph']> threads)) as Hall'.
  { apply Forall_insert; [|done]. eapply Forall_impl; [exact Hall|]. intros. eapply phase_ok_mono; [lia|done|reflexivity|done]. }
  split; [lia|]. split; [by rewrite length_insert|]. split; [done|].
  pose proof (pending_bounds _ _ _ _ _ _ HB Hall') as Hpend. rewrite length_insert, Hn in Hpend.
  destruct Hcase as [Heq|[-> Hgrant]]; [|nia].
  rewrite (Zsum_fmap_insert pending _ _ ph) by done. nia.
Qed.

(** A step of one of the group's threads. *)
Lemma side_inv_step own other threads i ph intr sec msg ph' own' :
  side_inv n maxB H p own other threads -> 0 <= other -> (own + other + H + maxB) * 100 < TWO64 ->
  threads !! i = Some ph -> wait_step H p intr sec msg own other ph = Some (ph', own') ->
  own <= own' /\ side_inv n maxB H p own' other (<[i := ph']> threads).
Proof.
  intros Hinv Hother Hsmall Hi Hstep. pose proof Hinv as (H0 & _ & Hall & _).
  pose proof (proj1 (Forall_lookup _ _) Hall i ph Hi) as Hph.
  cut (own <= own' /\ phase_ok maxB H p own' other ph'
    /\ (own' + pending ph' = own + pending ph \/ (own' = own /\ 100 * own <= p * (other + H + own)))).
  { intros (Hle & Hok & Hc). split; [done|]. by eapply side_inv_insert. }
  destruct ph as [|size hw|size hw owh|size hw allowed|size hw|size|e]; cbn in Hstep, Hph;
    try discriminate Hstep; try (injection Hstep as <- <-).
  - rewrite u64_small by lia. cbn. lia.
  - rewrite (u64_small (owh + own)) by lia. rewrite u64_small by nia. split; [lia|]. split; [|left; reflexivity]. cbn.
    split; [lia|]. pose proof (Z.mul_div_le ((owh + own) * p) 100). nia.
  - destruct (Z.leb_spec own allowed); cbn; split; try lia; split; try lia.
  - rewrite u64_small by lia. cbn. lia.
  - destruct intr; simplify_eq; [|destruct (600 <=? sec); simplify_eq]; cbn; lia.
Qed.
End side.

(** Both groups of threads. *)
Definition balance_inv (b : RateLimiterRWMixThreads) (s : balance_sys) : Prop :=
  side_inv (numReaderThreads b) (maxBlockSize b) (maxBlockSize b * numWriterThreads b) (readRatioPercent b)
    (numBytesRead s) (numBytesWrite s) (readers s)
  /\ side_inv (numWriterThreads b) (maxBlockSize b) (maxBlockSize b * numReaderThreads b) (100 - readRatioPercent b)
       (numBytesWrite s) (numBytesRead s) (writers s).

Lemma balance_inv_init b : balance_ok b -> balance_inv b (RWMix_initStart b).
Proof.
  intros (Hp & Hr & Hw & HB).
  assert (forall n H p, 0 <= n -> 0 <= H -> 0 <= p <= 100 ->
    side_inv n (maxBlockSize b) H p 0 0 (replicate (Z.to_nat n) W_outside)) as Hside.
  { intros n H p Hn HH Hq. split; [done|]. split; [rewrite length_replicate; lia|]. split; [by apply Forall_replicate|].
    rewrite fmap_replicate. cbn [pending]. assert (Zsum (replicate (Z.to_nat n) 0) = 0) as ->; [|nia].
    clear. induction (Z.to_nat n); cbn; [done|]. unfold Zsum in *. cbn. lia. }
  split; apply Hside; cbn; nia.
Qed.

Lemma balance_inv_step b s s' :
  balance_ok b -> balance_inv b s -> counters_small b s -> balance_step b s s' -> balance_inv b s'.
Proof.
  intros (Hp & Hr & Hw & HB) [Hrd Hwr] Hsmall Hstep. unfold counters_small in Hsmall.
  pose proof (proj1 Hrd) as HR0. pose proof (proj1 Hwr) as HW0. unfold balance_inv.
  assert (0 <= maxBlockSize b * numWriterThreads b) as HHw by nia.
  assert (0 <= maxBlockSize b * numReaderThreads b) as HHr by nia. assert (0 <= 100 - readRatioPercent b <= 100) as Hp' by lia.
  destruct Hstep as [i size s Hi Hsize|i size s Hi Hsize|i ph intr sec ph' r s Hi Hst|i ph intr sec ph' w s Hi Hst];
    cbn [readers writers numBytesRead numBytesWrite].
  - split; [|done]. eapply side_inv_insert; try done; try nia. by left.
  - split; [done|]. eapply side_inv_insert; try done; try nia. by left.
  - unfold waitRead_step in Hst. rewrite (u64_small (maxBlockSize b * numWriterThreads b)) in Hst by nia.
    assert ((numBytesRead s + numBytesWrite s + maxBlockSize b * numWriterThreads b + maxBlockSize b) * 100 < TWO64) as Hsm by nia.
    destruct (side_inv_step _ _ _ _ HB HHw Hp _ _ _ _ _ _ _ _ _ _ Hrd HW0 Hsm Hi Hst) as [Hle Hrd'].
    split; [done|]. by apply side_inv_other with (numBytesRead s).
  - unfold waitWrite_step in Hst. rewrite (u64_small (maxBlockSize b * numReaderThreads b)) in Hst by nia.
    assert ((numBytesWrite s + numBytesRead s + maxBlockSize b * numReaderThreads b + maxBlockSize b) * 100 < TWO64) as Hsm by nia.
    destruct (side_inv_step _ _ _ _ HB HHr Hp' _ _ _ _ _ _ _ _ _ _ Hwr HR0 Hsm Hi Hst) as [Hle Hwr'].
    split; [|done]. by apply side_inv_other with (numBytesWrite s).
Qed.

Lemma balance_inv_reach b s s' :
  balance_ok b -> balance_inv b s -> counters_small b s -> balance_reach b s s' -> balance_inv b s' /\ counters_small b s'.
Proof.
  intros Hb Hinv Hsmall Hreach. revert Hinv Hsmall. induction Hreach as [s|s s1 s' [Hstep Hsmall1] _ IH]; [done|].
  intros Hinv Hsmall. apply IH; [|done]. by eapply balance_inv_step.
Qed.

(** ** Theorems *)

(** C36: the limit holds over any run: from the start of the limiter to the last clock reading [T],
    a thread is granted at most [limitPerSec] (or the largest single request, if that is larger)
    for each started second, however the calls are spaced. *)
Theorem rate_limit_holds limit now calls M T :
  limit <= M -> 0 <= limit -> 2 * M < TWO64 -> Forall (fun c => 0 <= wc_size c <= M) calls ->
  clock_ok calls now (RateLimiter_initStart limit now) ->
  default now (last (wc_after <$> calls)) = T ->
  Zsum (wc_size <$> calls) <= ((T - now) / 1000000000 + 1) * M.
Proof.
  intros Hlim Hl0 HM Hall Hclock HT.
  destruct (wait_calls_inv M now calls 0 now (RateLimiter_initStart limit now)) as [(_ & Hd & k & Hk & Hs & Ht) Hst];
    try done; [|].
  { split; [done|]. split; [cbn; lia|]. exists 0. cbn. lia. }
  rewrite HT in Hst. assert (k <= (T - now) / 1000000000) by (apply Z.div_le_lower_bound; lia). nia.
Qed.


(** the balance never stalls: in every reachable state a call of a reader or a call of a writer
    that runs undisturbed is granted at once, so readers and writers never wait for each other. *)
Lemma rwmix_balance_never_stalls b s intr sec size :
  balance_ok b -> counters_small b (RWMix_initStart b) -> balance_reach b (RWMix_initStart b) s ->
  passes_alone (waitRead_step b intr sec (numBytesRead s) (numBytesWrite s)) size
  \/ passes_alone (waitWrite_step b intr sec (numBytesRead s) (numBytesWrite s)) size.
Proof.
  intros Hb Hsmall Hreach. destruct (balance_inv_reach b _ s Hb (balance_inv_init b Hb) Hsmall Hreach) as [[Hr Hw] Hs].
  pose proof (proj1 Hr) as HR0. pose proof (proj1 Hw) as HW0. destruct Hb as (Hp & Hnr & Hnw & HB). unfold counters_small in Hs.
  set (p := readRatioPercent b) in *. set (R := numBytesRead s) in *. set (Wr := numBytesWrite s) in *.
  assert (forall H q own other msg, 0 <= H -> 0 <= q <= 100 -> 0 <= own -> 0 <= other -> (own + other + H) * 100 < TWO64 ->
    100 * own <= q * (other + H + own) -> passes_alone (wait_step H q intr sec msg own other) size) as Hpass.
  { intros H q own other msg HH Hq Ho Ht Hb64 Hle. eexists _, _. split; [reflexivity|]. split; [reflexivity|]. cbn.
    rewrite (u64_small (other + H)), (u64_small (other + H + own)), u64_small by nia.
    rewrite (proj2 (Z.leb_le _ _)); [done|]. apply Z.div_le_lower_bound; nia. }
  unfold waitRead_step, waitWrite_step. rewrite !u64_small by nia.
  destruct (Z.le_gt_cases (100 * R) (p * (Wr + maxBlockSize b * numWriterThreads b + R))) as [Hle|Hgt].
  - left. apply Hpass; try done; nia.
  - right. apply Hpass; try done; fold p; nia.
Qed.

(** A limit of 10 bytes per second: the second call of 6 bytes sleeps. *)
Lemma rate_limit_holds_witness :
  RateLimiter_wait 6 5 1000000001 (mkRateLimiter 10 6 0) = (true, mkRateLimiter 10 6 1000000001)
  /\ Zsum (wc_size <$> [mkCall 6 3 4; mkCall 6 5 1000000001]) <= ((1000000001 - 0) / 1000000000 + 1) * 10.
Proof.
  split; [reflexivity|]. apply (rate_limit_holds 10 0); try lia; try reflexivity.
  - repeat constructor; cbn; lia.
  - vm_compute. repeat split; discriminate.
Defined.

(** One reader and one writer at 50%: the reader is granted 8 bytes. *)
Definition ex_balance : RateLimiterRWMixThreads := mkBalance 50 1 1 8.

Definition ex_granted : balance_sys := mkSys [W_outside] [W_outside] 8 0.

Lemma ex_balance_reach : balance_reach ex_balance (RWMix_initStart ex_balance) ex_granted.
Proof.
  eapply rtc_l; [split; [apply (reader_calls _ 0 8); [reflexivity|cbn; lia]|vm_compute; reflexivity]|].
  do 4 (eapply rtc_l; [split; [eapply (reader_steps _ 0 _ false 0); reflexivity|vm_compute; reflexivity]|]).
  apply rtc_refl.
Defined.

