(* ===== verification/LatencyHistogram.v ===== *)
(** The latency histograms of the workers: LatencyHistogram.{h,cpp}.

    The percentile search compares in [double]; that comparison is a parameter of the model
    ([reached]).  The boost property tree that carries a histogram from a service to the master
    is modelled by the values and list items that are put into it. *)

From S2P Require Import Prelude CppStrings.

#[local] Open Scope list_scope.

(** ** Definitions *)

Definition LATHISTO_SUBBUCKET_COUNT : Z := 128.
Definition LATHISTO_SUBBUCKET_HALFCOUNT : Z := 64.
Definition LATHISTO_MAXBUCKETIDX : Z := 38.
Definition LATHISTO_NUMBUCKETS : Z :=
  LATHISTO_SUBBUCKET_COUNT + LATHISTO_MAXBUCKETIDX * LATHISTO_SUBBUCKET_HALFCOUNT.

(** [63 - __builtin_clzll(v)] is the binary logarithm of a non-zero value. *)
Definition valueToIndex (latencyMicroSec : Z) : Z :=
  if latencyMicroSec <? LATHISTO_SUBBUCKET_COUNT then latencyMicroSec
  else
    let bucketIndex := Z.log2 latencyMicroSec - 6 in
    let bucketIndex :=
      if LATHISTO_MAXBUCKETIDX <? bucketIndex then LATHISTO_MAXBUCKETIDX else bucketIndex in
    let subBucketIndex := Z.shiftr latencyMicroSec bucketIndex in
    let subBucketIndex :=
      if LATHISTO_SUBBUCKET_COUNT <=? subBucketIndex then LATHISTO_SUBBUCKET_COUNT - 1
      else subBucketIndex in
    LATHISTO_SUBBUCKET_COUNT + (bucketIndex - 1) * LATHISTO_SUBBUCKET_HALFCOUNT
    + (subBucketIndex - LATHISTO_SUBBUCKET_HALFCOUNT).

Definition indexToUpperBoundMicroSec (bucketIndex : Z) : Z :=
  if bucketIndex <? LATHISTO_SUBBUCKET_COUNT then bucketIndex + 1
  else
    let octave := 1 + (bucketIndex - LATHISTO_SUBBUCKET_COUNT) / LATHISTO_SUBBUCKET_HALFCOUNT in
    let subBucketIndex := LATHISTO_SUBBUCKET_HALFCOUNT
      + (bucketIndex - LATHISTO_SUBBUCKET_COUNT) `mod` LATHISTO_SUBBUCKET_HALFCOUNT in
    u64 (Z.shiftl (subBucketIndex + 1) octave).

Record LatencyHistogram : Type := mkHisto {
  numStoredValues : Z;
  numMicroSecTotal : Z;
  minMicroSecLat : Z;
  maxMicroSecLat : Z;
  buckets : list Z;
  numStoredValuesLive : Z;
  numMicroSecsTotalLive : Z;
}.

Definition zero_buckets : list Z := replicate (Z.to_nat LATHISTO_NUMBUCKETS) 0.

Definition LatencyHistogram_new : LatencyHistogram :=
  mkHisto 0 0 (TWO64 - 1) 0 zero_buckets 0 0.

Definition addLatency (latencyMicroSec : Z) (h : LatencyHistogram) : LatencyHistogram :=
  {| numStoredValues := numStoredValues h +₆₄ 1;
     numMicroSecTotal := numMicroSecTotal h +₆₄ latencyMicroSec;
     minMicroSecLat :=
       if latencyMicroSec <? minMicroSecLat h then latencyMicroSec else minMicroSecLat h;
     maxMicroSecLat :=
       if maxMicroSecLat h <? latencyMicroSec then latencyMicroSec else maxMicroSecLat h;
     buckets := alter (fun c => c +₆₄ 1) (Z.to_nat (valueToIndex latencyMicroSec)) (buckets h);
     numStoredValuesLive := numStoredValuesLive h +₆₄ 1;
     numMicroSecsTotalLive := numMicroSecsTotalLive h +₆₄ latencyMicroSec |}.

(** Adds to the caller's sums and clears the live values: new sums and new histogram. *)
Definition addAndResetAverageLiveMicroSec (sums : Z * Z) (h : LatencyHistogram)
    : (Z * Z) * LatencyHistogram :=
  ((fst sums +₆₄ numStoredValuesLive h, snd sums +₆₄ numMicroSecsTotalLive h),
   mkHisto (numStoredValues h) (numMicroSecTotal h) (minMicroSecLat h) (maxMicroSecLat h)
     (buckets h) 0 0).

Definition getAverageMicroSec (h : LatencyHistogram) : Z :=
  if truthy (numStoredValues h) then numMicroSecTotal h / numStoredValues h else 0.

(** [reset()] leaves the live values alone. *)
Definition LatencyHistogram_reset (h : LatencyHistogram) : LatencyHistogram :=
  mkHisto 0 0 (TWO64 - 1) 0 zero_buckets (numStoredValuesLive h) (numMicroSecsTotalLive h).

Definition LatencyHistogram_merge (h rhs : LatencyHistogram) : LatencyHistogram :=
  {| numStoredValues := numStoredValues h +₆₄ numStoredValues rhs;
     numMicroSecTotal := numMicroSecTotal h +₆₄ numMicroSecTotal rhs;
     minMicroSecLat :=
       if minMicroSecLat rhs <? minMicroSecLat h then minMicroSecLat rhs else minMicroSecLat h;
     maxMicroSecLat :=
       if maxMicroSecLat h <? maxMicroSecLat rhs then maxMicroSecLat rhs else maxMicroSecLat h;
     buckets := zip_with (fun a b => a +₆₄ b) (buckets h) (buckets rhs);
     numStoredValuesLive := numStoredValuesLive h;
     numMicroSecsTotalLive := numMicroSecsTotalLive h |}.

Definition getHistogramExceeded (h : LatencyHistogram) : bool :=
  match buckets h !! Z.to_nat (LATHISTO_NUMBUCKETS - 1) with Some c => truthy c | None => false end.

(** The loop of [findPercentileBucketIndex()]: [reached n] is
    [(double)n / numStoredValues >= percentage/100]. *)
Fixpoint percentile_scan (reached : Z -> bool) (bs : list Z) (bucketIndex numValuesSoFar : Z) : Z :=
  match bs with
  | [] => LATHISTO_NUMBUCKETS - 1
  | c :: bs =>
      let numValuesSoFar := numValuesSoFar +₆₄ c in
      if reached numValuesSoFar then bucketIndex
      else percentile_scan reached bs (bucketIndex + 1) numValuesSoFar
  end.

Definition findPercentileBucketIndex (reached : Z -> bool) (h : LatencyHistogram) : Z :=
  percentile_scan reached (buckets h) 0 0.

Definition getPercentile (reached : Z -> bool) (h : LatencyHistogram) : Z :=
  indexToUpperBoundMicroSec (findPercentileBucketIndex reached h).

(** *** Transfer from a service to the master *)

(** The four values and, when there is any, the list of the non-empty buckets. *)
Record ptree_latency : Type := mkPtree {
  pt_LATNUMVALUES : Z;
  pt_LATMICROSECTOTAL : Z;
  pt_LATMINMICROSEC : Z;
  pt_LATMAXMICROSEC : Z;
  pt_LATHISTOLIST : option (list (Z * Z));
}.

Fixpoint sparse_items (bs : list Z) (bucketIndex : Z) : list (Z * Z) :=
  match bs with
  | [] => []
  | c :: bs =>
      if truthy c then (bucketIndex, c) :: sparse_items bs (bucketIndex + 1)
      else sparse_items bs (bucketIndex + 1)
  end.

Definition getAsPropertyTreeForService (h : LatencyHistogram) : ptree_latency :=
  {| pt_LATNUMVALUES := numStoredValues h;
     pt_LATMICROSECTOTAL := numMicroSecTotal h;
     pt_LATMINMICROSEC := minMicroSecLat h;
     pt_LATMAXMICROSEC := maxMicroSecLat h;
     pt_LATHISTOLIST :=
       match sparse_items (buckets h) 0 with [] => None | items => Some items end |}.

Definition apply_items (items : list (Z * Z)) (bs : list Z) : list Z :=
  foldl (fun bs '(bucketIndex, bucketCount) =>
           if LATHISTO_NUMBUCKETS <=? bucketIndex then bs
           else <[Z.to_nat bucketIndex := bucketCount]> bs) bs items.

Definition setFromPropertyTreeForService (tree : ptree_latency) (h : LatencyHistogram)
    : LatencyHistogram :=
  {| numStoredValues := pt_LATNUMVALUES tree;
     numMicroSecTotal := pt_LATMICROSECTOTAL tree;
     minMicroSecLat := pt_LATMINMICROSEC tree;
     maxMicroSecLat := pt_LATMAXMICROSEC tree;
     buckets :=
       match pt_LATHISTOLIST tree with
       | None => zero_buckets
       | Some items => apply_items items zero_buckets
       end;
     numStoredValuesLive := numStoredValuesLive h;
     numMicroSecsTotalLive := numMicroSecsTotalLive h |}.

(** *** Output by decades *)

(** [for(threshold = 10; v >= threshold; threshold *= 10) decadeExp++]. *)
Fixpoint decade_loop (fuel : nat) (v threshold : Z) : Z :=
  match fuel with
  | O => 0
  | S fuel => if threshold <=? v then 1 + decade_loop fuel v (threshold *₆₄ 10) else 0
  end.

Definition decadeExponent (v : Z) : Z := decade_loop 20 v 10.

Fixpoint pow10 (exponent : nat) : Z :=
  match exponent with O => 1 | S n => pow10 n *₆₄ 10 end.

Definition decadeUnitAndDigits (decadeExp : Z) : string * Z :=
  if decadeExp <? 3 then ("us", decadeExp)
  else if decadeExp <? 6 then ("ms", decadeExp - 3)
  else ("s", decadeExp - 6).

Definition decadeRangeStr (decadeExp : Z) : string :=
  let '(unit, digitDecade) := decadeUnitAndDigits decadeExp in
  let lowerBound := if decadeExp =? 0 then 0 else pow10 (Z.to_nat digitDecade) in
  let upperBound := pow10 (Z.to_nat (digitDecade + 1)) -₆₄ 1 in
  to_string lowerBound +:+ "-" +:+ to_string upperBound +:+ unit.

Definition decadeLowerBoundStr (decadeExp : Z) : string :=
  let '(unit, digitDecade) := decadeUnitAndDigits decadeExp in
  let lowerBound := if decadeExp =? 0 then 0 else pow10 (Z.to_nat digitDecade) in
  to_string lowerBound +:+ unit.

(** The sums per decade of [getHistogramGroupedStr()]. *)
Fixpoint decade_sums (bs : list Z) (bucketIndex : Z) (categorySums : list Z) : list Z :=
  match bs with
  | [] => categorySums
  | c :: bs =>
      if truthy c
      then decade_sums bs (bucketIndex + 1)
             (alter (fun s => s +₆₄ c) (Z.to_nat (decadeExponent (indexToUpperBoundMicroSec bucketIndex)))
                categorySums)
      else decade_sums bs (bucketIndex + 1) categorySums
  end.

(** The lines of the summary: label and count of each non-empty decade. *)
Fixpoint summary_lines (sums : list Z) (decade : Z) (topOpen : bool) : list (string * Z) :=
  match sums with
  | [] => []
  | s :: sums =>
      if truthy s then
        let topCategoryDecade := decadeExponent (indexToUpperBoundMicroSec (LATHISTO_NUMBUCKETS - 1)) in
        ((if topOpen && (decade =? topCategoryDecade)
          then "≥" +:+ decadeLowerBoundStr decade else decadeRangeStr decade), s)
          :: summary_lines sums (decade + 1) topOpen
      else summary_lines sums (decade + 1) topOpen
  end.

Definition getHistogramGrouped (h : LatencyHistogram) : list (string * Z) :=
  summary_lines (decade_sums (buckets h) 0 (replicate 20 0)) 0 (getHistogramExceeded h).

(** ** Specification *)

(** The histogram of a sequence of measured latencies. *)
Definition histo_of (lats : list Z) : LatencyHistogram := foldl (fun h l => addLatency l h) LatencyHistogram_new lats.

(** The lowest latency that belongs to a slot. *)
Definition indexLowerBound (i : Z) : Z := if i =? 0 then 0 else indexToUpperBoundMicroSec (i - 1).

(** Everything but the live values. *)
Definition histo_data (h : LatencyHistogram) : (Z * Z * Z * Z) * list Z :=
  (numStoredValues h, numMicroSecTotal h, minMicroSecLat h, maxMicroSecLat h, buckets h).

Definition lat_count (lats : list Z) (i : Z) : Z :=
  Z.of_nat (length (filter (fun l => valueToIndex l = i) lats)).

Definition lat_ok (l : Z) : Prop := 0 <= l < TWO64.

(** ** Lemmas *)

(** The slots of the octave [b]. *)
Lemma slot_upper_bound b j :
  1 <= b <= 38 -> 0 <= j < 64 ->
  indexToUpperBoundMicroSec (128 + (b - 1) * 64 + j) = (64 + j + 1) * 2 ^ b.
Proof.
  intros Hb Hj. unfold indexToUpperBoundMicroSec, LATHISTO_SUBBUCKET_COUNT, LATHISTO_SUBBUCKET_HALFCOUNT.
  rewrite (proj2 (Z.ltb_ge _ _)) by lia.
  replace (128 + (b - 1) * 64 + j - 128) with (j + (b - 1) * 64) by lia.
  rewrite Z.div_add, Z.mod_add, Z.div_small, Z.mod_small by lia.
  rewrite Z.shiftl_mul_pow2 by lia. replace (1 + (0 + (b - 1))) with b by lia.
  assert (0 < 2 ^ b <= 2 ^ 38) by (split; [lia|apply Z.pow_le_mono_r; lia]). rewrite u64_small; nia.
Qed.

Lemma slot_lower_bound b j :
  1 <= b <= 38 -> 0 <= j < 64 -> indexLowerBound (128 + (b - 1) * 64 + j) = (64 + j) * 2 ^ b.
Proof.
  intros Hb Hj. unfold indexLowerBound. rewrite (proj2 (Z.eqb_neq _ _)) by lia.
  destruct (decide (j = 0)) as [->|Hj0].
  - destruct (decide (b = 1)) as [->|Hb1]; [done|].
    replace (128 + (b - 1) * 64 + 0 - 1) with (128 + (b - 1 - 1) * 64 + 63) by lia.
    rewrite slot_upper_bound by lia. replace (2 ^ b) with (2 ^ (b - 1) * 2); [lia|].
    rewrite Z.mul_comm, <- Z.pow_succ_r by lia. f_equal. lia.
  - replace (128 + (b - 1) * 64 + j - 1) with (128 + (b - 1) * 64 + (j - 1)) by lia.
    rewrite slot_upper_bound by lia. f_equal. lia.
Qed.

(** Where a latency that is not counted exactly goes. *)
Lemma valueToIndex_octave v :
  128 <= v < 2 ^ 45 ->
  exists b j, 1 <= b <= 38 /\ 0 <= j < 64 /\ valueToIndex v = 128 + (b - 1) * 64 + j
    /\ (64 + j) * 2 ^ b <= v < (64 + j + 1) * 2 ^ b.
Proof.
  intros Hv. set (k := Z.log2 v). pose proof (Z.log2_spec v ltac:(lia)) as Hk. fold k in Hk.
  assert (7 <= k) by (unfold k; apply Z.log2_le_pow2; lia).
  assert (k < 45) by (unfold k; apply Z.log2_lt_pow2; lia).
  exists (k - 6), (v / 2 ^ (k - 6) - 64). unfold valueToIndex. fold k.
  unfold LATHISTO_SUBBUCKET_COUNT, LATHISTO_SUBBUCKET_HALFCOUNT, LATHISTO_MAXBUCKETIDX.
  rewrite (proj2 (Z.ltb_ge v 128)), (proj2 (Z.ltb_ge 38 (k - 6))), Z.shiftr_div_pow2 by lia.
  assert (2 ^ k = 64 * 2 ^ (k - 6)) as Hk6 by (change 64 with (2 ^ 6); rewrite <- Z.pow_add_r by lia; f_equal; lia).
  rewrite Z.pow_succ_r in Hk by lia. set (w := 2 ^ (k - 6)) in *. assert (0 < w) by (unfold w; lia).
  pose proof (Z.div_mod v w ltac:(lia)). pose proof (Z.mod_pos_bound v w ltac:(lia)).
  assert (64 <= v / w < 128) by nia. rewrite (proj2 (Z.leb_gt _ _)) by lia.
  refine (conj _ (conj _ (conj _ _))); [lia..|]. nia.
Qed.

Lemma valueToIndex_clamped v : 2 ^ 45 <= v < TWO64 -> valueToIndex v = LATHISTO_NUMBUCKETS - 1.
Proof.
  intros Hv. unfold valueToIndex. assert (45 <= Z.log2 v) by (apply Z.log2_le_pow2; lia).
  unfold LATHISTO_SUBBUCKET_COUNT, LATHISTO_SUBBUCKET_HALFCOUNT, LATHISTO_MAXBUCKETIDX.
  rewrite (proj2 (Z.ltb_ge v 128)), (proj2 (Z.ltb_lt 38 _)), Z.shiftr_div_pow2 by lia.
  assert (128 <= v / 2 ^ 38) by (apply Z.div_le_lower_bound; lia).
  by rewrite (proj2 (Z.leb_le _ _)) by lia.
Qed.

Lemma valueToIndex_range v : lat_ok v -> 0 <= valueToIndex v < LATHISTO_NUMBUCKETS.
Proof.
  intros Hv. unfold lat_ok in Hv. change LATHISTO_NUMBUCKETS with 2560. destruct (decide (v < 128)).
  - unfold valueToIndex. change LATHISTO_SUBBUCKET_COUNT with 128. rewrite (proj2 (Z.ltb_lt _ _)); lia.
  - destruct (decide (v < 2 ^ 45)).
    + destruct (valueToIndex_octave v) as (b & j & Hb & Hj & -> & _); lia.
    + rewrite valueToIndex_clamped by lia. done.
Qed.

Lemma lat_count_app l k i : lat_count (l ++ k) i = lat_count l i + lat_count k i.
Proof. unfold lat_count. rewrite filter_app, length_app. lia. Qed.

Lemma lat_count_one l i : lat_count [l] i = if decide (valueToIndex l = i) then 1 else 0.
Proof. unfold lat_count. rewrite filter_cons. by case_decide. Qed.

Lemma histo_of_snoc lats l : histo_of (lats ++ [l]) = addLatency l (histo_of lats).
Proof. unfold histo_of. by rewrite foldl_app. Qed.

Lemma foldr_min_app a l k : foldr Z.min a (l ++ k) = Z.min (foldr Z.min a k) (foldr Z.min a l) .
Proof. induction l as [|x l IH]; simpl; [|lia]. induction k; simpl; lia. Qed.

Lemma foldr_max_app a l k : foldr Z.max a (l ++ k) = Z.max (foldr Z.max a k) (foldr Z.max a l) .
Proof. induction l as [|x l IH]; simpl; [|lia]. induction k; simpl; lia. Qed.

Lemma alter_fmap_seqZ (f g : Z -> Z) (h : Z -> Z) (i n : Z) :
  0 <= i < n -> (forall j, 0 <= j < n -> g j = if decide (i = j) then h (f j) else f j) ->
  alter h (Z.to_nat i) (f <$> seqZ 0 n) = g <$> seqZ 0 n.
Proof.
  intros Hi Hg. apply list_eq. intros j. destruct (decide (Z.of_nat j < n)) as [Hj|Hj].
  - destruct (decide (Z.to_nat i = j)) as [<-|Hne].
    + rewrite list_lookup_alter_eq, !list_lookup_fmap, lookup_seqZ_lt by lia. simpl. f_equal.
      rewrite Hg by lia. rewrite decide_True by lia. done.
    + rewrite list_lookup_alter_ne by done. rewrite !list_lookup_fmap, lookup_seqZ_lt by lia. simpl. f_equal.
      rewrite Hg by lia. by rewrite decide_False by lia.
  - rewrite !lookup_ge_None_2; [done|..].
    + rewrite length_fmap, length_seqZ. lia.
    + rewrite length_alter, length_fmap, length_seqZ. lia.
Qed.

(** The contents of the histogram of a sequence of latencies. *)
Record histo_fields (lats : list Z) (h : LatencyHistogram) : Prop := {
  hf_num : numStoredValues h = u64 (Z.of_nat (length lats));
  hf_total : numMicroSecTotal h = u64 (Zsum lats);
  hf_min : minMicroSecLat h = foldr Z.min (TWO64 - 1) lats;
  hf_max : maxMicroSecLat h = foldr Z.max 0 lats;
  hf_buckets : buckets h = (fun i => u64 (lat_count lats i)) <$> seqZ 0 LATHISTO_NUMBUCKETS;
}.

Lemma histo_of_fields lats : Forall lat_ok lats -> histo_fields lats (histo_of lats).
Proof.
  induction lats as [|l lats IH] using rev_ind; intros Hl.
  { split; vm_compute; done. }
  apply Forall_app in Hl as [Hl Hlast]. apply Forall_cons in Hlast as [Hlast _].
  destruct (IH Hl) as [H1 H2 H3 H4 H5]. clear IH. rewrite histo_of_snoc. unfold addLatency.
  split; cbn [numStoredValues numMicroSecTotal minMicroSecLat maxMicroSecLat buckets].
  - rewrite H1, length_app, u64_add_mod_l. f_equal. simpl. lia.
  - rewrite H2, Zsum_app, u64_add_mod_l. f_equal. cbn. lia.
  - rewrite H3, foldr_min_app. simpl. unfold lat_ok in *.
    destruct (Z.ltb_spec l (foldr Z.min (TWO64 - 1) lats)); lia.
  - rewrite H4, foldr_max_app. simpl. unfold lat_ok in *. destruct (Z.ltb_spec (foldr Z.max 0 lats) l); lia.
  - rewrite H5. apply alter_fmap_seqZ; [by apply valueToIndex_range|]. intros j Hj.
    rewrite lat_count_app, lat_count_one. case_decide; [|by rewrite Z.add_0_r]. by rewrite u64_add_mod_l.
Qed.

Lemma zip_with_fmap_seqZ (f g h : Z -> Z) (op : Z -> Z -> Z) (l : list Z) :
  (forall i, op (f i) (g i) = h i) -> zip_with op (f <$> l) (g <$> l) = h <$> l.
Proof. intros H. induction l as [|x l IH]; [done|]. rewrite !fmap_cons. simpl. by rewrite H, IH. Qed.

Lemma lat_count_nonneg l i : 0 <= lat_count l i.
Proof. unfold lat_count. lia. Qed.

Lemma lat_count_cons x l i :
  lat_count (x :: l) i = (if decide (valueToIndex x = i) then 1 else 0) + lat_count l i.
Proof. change (x :: l) with ([x] ++ l). by rewrite lat_count_app, lat_count_one. Qed.

(** Latencies in the first [n] slots. *)
Definition lats_below (lats : list Z) (n : Z) : Z :=
  Z.of_nat (length (filter (fun l => valueToIndex l < n) lats)).

Lemma lats_below_succ lats n : lats_below lats (n + 1) = lats_below lats n + lat_count lats n.
Proof.
  induction lats as [|l lats IH]; [done|]. unfold lats_below in *. rewrite lat_count_cons, !filter_cons.
  repeat case_decide; simpl in *; lia.
Qed.

Lemma lats_below_all lats : Forall lat_ok lats -> lats_below lats LATHISTO_NUMBUCKETS = Z.of_nat (length lats).
Proof.
  intros Hl. unfold lats_below. rewrite filter_all; [done|]. eapply Forall_impl; [exact Hl|].
  intros l Hok. by apply valueToIndex_range.
Qed.

Lemma lats_below_0 lats : Forall lat_ok lats -> lats_below lats 0 = 0.
Proof.
  intros Hl. unfold lats_below. rewrite filter_none; [done|]. eapply Forall_impl; [exact Hl|].
  intros l Hok. pose proof (valueToIndex_range l Hok). lia.
Qed.

Lemma lats_below_le lats n : 0 <= lats_below lats n <= Z.of_nat (length lats).
Proof. unfold lats_below. pose proof (length_filter (fun l => valueToIndex l < n) lats). lia. Qed.

Lemma Zsum_lat_count lats s (n : nat) :
  Zsum (lat_count lats <$> seqZ s (Z.of_nat n)) = lats_below lats (s + Z.of_nat n) - lats_below lats s.
Proof.
  induction n as [|n IH]; [simpl; rewrite Z.add_0_r; cbn; lia|].
  replace (Z.of_nat (S n)) with (Z.of_nat n + 1) by lia. rewrite seqZ_snoc, fmap_app, Zsum_app, IH by lia.
  rewrite Z.add_assoc, lats_below_succ. cbn. lia.
Qed.

(** The scan stops at the first slot at which enough values are counted. *)
Lemma percentile_scan_spec reached lats (n : nat) s :
  0 <= s -> s + Z.of_nat n = LATHISTO_NUMBUCKETS -> Z.of_nat (length lats) < TWO64 ->
  (exists j, s <= j < LATHISTO_NUMBUCKETS /\ reached (lats_below lats (j + 1)) = true) ->
  let i := percentile_scan reached ((fun i => u64 (lat_count lats i)) <$> seqZ s (Z.of_nat n)) s (lats_below lats s) in
  s <= i < LATHISTO_NUMBUCKETS /\ reached (lats_below lats (i + 1)) = true
  /\ forall j, s <= j < i -> reached (lats_below lats (j + 1)) = false.
Proof.
  revert s. induction n as [|n IH]; intros s Hs Hn Hlen (j & Hj & Hr); [lia|].
  rewrite (seqZ_cons s) by lia. rewrite fmap_cons. cbn [percentile_scan].
  rewrite u64_add_mod_r, <- lats_below_succ.
  pose proof (lats_below_le lats (s + 1)). rewrite u64_small by lia.
  destruct (reached (lats_below lats (s + 1))) eqn:Hreach; cbv zeta.
  - split; [lia|]. split; [done|]. lia.
  - replace (Z.pred (Z.of_nat (S n))) with (Z.of_nat n) by lia. replace (Z.succ s) with (s + 1) by lia.
    destruct (IH (s + 1)) as (Hi & Hok & Hbefore); try lia.
    { exists j. split; [|done]. destruct (decide (j = s)) as [->|]; [congruence|lia]. }
    split; [lia|]. split; [done|]. intros k Hk. destruct (decide (k = s)) as [->|]; [done|]. apply Hbefore. lia.
Qed.

Lemma apply_items_sparse bs pre :
  Z.of_nat (length pre + length bs) = LATHISTO_NUMBUCKETS ->
  apply_items (sparse_items bs (Z.of_nat (length pre))) (pre ++ replicate (length bs) 0) = pre ++ bs.
Proof.
  revert pre. induction bs as [|c bs IH]; intros pre Hlen; [done|]. cbn [sparse_items length replicate].
  assert (Z.of_nat (length pre) + 1 = Z.of_nat (length (pre ++ [c]))) as Hpre by (rewrite length_app; simpl; lia).
  assert (Z.of_nat (length (pre ++ [c]) + length bs) = LATHISTO_NUMBUCKETS) as Hlen'
    by (rewrite length_app; simpl in *; lia).
  specialize (IH (pre ++ [c]) Hlen'). rewrite <- !app_assoc in IH. simpl in IH. rewrite Hpre.
  unfold truthy. destruct (Z.eqb_spec c 0) as [->|Hc]; simpl; [exact IH|].
  unfold apply_items in *. cbn [foldl]. rewrite (proj2 (Z.leb_gt _ _)) by (simpl in Hlen; lia).
  rewrite Nat2Z.id, insert_app_r_alt, Nat.sub_diag by lia. simpl. exact IH.
Qed.

(** ** Properties *)

(** Log-linear bucketing: every latency below 2^45 microseconds falls into a slot of the
    array whose bounds enclose it; slots are exact below 128 microseconds and at most 1/64 of the
    latency wide above; higher latencies fall into the last slot. *)
Lemma valueToIndex_sound v :
  lat_ok v ->
  let i := valueToIndex v in
  0 <= i < LATHISTO_NUMBUCKETS
  /\ (v < 2 ^ 45 -> indexLowerBound i <= v < indexToUpperBoundMicroSec i)
  /\ (v < 128 -> indexToUpperBoundMicroSec i = v + 1)
  /\ (128 <= v < 2 ^ 45 -> 64 * (indexToUpperBoundMicroSec i - indexLowerBound i) <= v)
  /\ (2 ^ 45 <= v -> i = LATHISTO_NUMBUCKETS - 1).
Proof.
  intros Hv i. split; [by apply valueToIndex_range|]. unfold i, lat_ok in *.
  destruct (decide (v < 128)) as [Hlt|Hge].
  - assert (valueToIndex v = v) as -> by (unfold valueToIndex; change LATHISTO_SUBBUCKET_COUNT with 128;
      by rewrite (proj2 (Z.ltb_lt _ _))).
    unfold indexLowerBound, indexToUpperBoundMicroSec. change LATHISTO_SUBBUCKET_COUNT with 128.
    rewrite !(proj2 (Z.ltb_lt _ 128)) by lia. destruct (Z.eqb_spec v 0); split_and!; lia.
  - split_and!; [..|intros Hbig; apply valueToIndex_clamped; lia]; try lia; intros Hv'.
    all: destruct (valueToIndex_octave v) as (b & j & Hb & Hj & -> & Hvb); [lia|].
    all: rewrite slot_lower_bound, slot_upper_bound by done; lia.
Qed.

(** Merging is exact: adding the histogram of one worker to that of another gives the
    histogram of all of their latencies together (count, sum, minimum, maximum and every slot),
    so that the order and grouping of the merges does not matter. *)
Lemma histogram_merge_homomorphism l k :
  Forall lat_ok l -> Forall lat_ok k ->
  histo_data (LatencyHistogram_merge (histo_of l) (histo_of k)) = histo_data (histo_of (l ++ k)).
Proof.
  intros Hl Hk. destruct (histo_of_fields l Hl) as [H1 H2 H3 H4 H5].
  destruct (histo_of_fields k Hk) as [K1 K2 K3 K4 K5].
  destruct (histo_of_fields (l ++ k)) as [M1 M2 M3 M4 M5]; [by apply Forall_app|].
  unfold histo_data. rewrite M1, M2, M3, M4, M5. unfold LatencyHistogram_merge.
  cbn [numStoredValues numMicroSecTotal minMicroSecLat maxMicroSecLat buckets].
  rewrite H1, H2, H3, H4, H5, K1, K2, K3, K4, K5. rewrite length_app, Zsum_app, foldr_min_app, foldr_max_app.
  rewrite !u64_add_mod_l, !u64_add_mod_r, <- Nat2Z.inj_add. f_equal; [f_equal; [f_equal|]|].
  - destruct (Z.ltb_spec (foldr Z.min (TWO64 - 1) k) (foldr Z.min (TWO64 - 1) l)); lia.
  - destruct (Z.ltb_spec (foldr Z.max 0 l) (foldr Z.max 0 k)); lia.
  - apply zip_with_fmap_seqZ. intros i. rewrite u64_add_mod_l, u64_add_mod_r. by rewrite lat_count_app.
Qed.

(** The percentile search finds the first slot up to which the counted values reach the
    requested share: all slots before it do not reach it.  [reached n] stands for the comparison
    of [n/numStoredValues] with the percentage; it has to hold for all of the values, which is
    the case for percentages up to 100. *)
Lemma percentile_first_slot reached lats :
  Forall lat_ok lats -> Z.of_nat (length lats) < TWO64 -> reached (Z.of_nat (length lats)) = true ->
  let i := findPercentileBucketIndex reached (histo_of lats) in
  0 <= i < LATHISTO_NUMBUCKETS
  /\ reached (lats_below lats (i + 1)) = true
  /\ (forall j, 0 <= j < i -> reached (lats_below lats (j + 1)) = false)
  /\ Zsum (buckets (histo_of lats)) = numStoredValues (histo_of lats).
Proof.
  intros Hl Hlen Hr. destruct (histo_of_fields lats Hl) as [Hn _ _ _ Hb].
  unfold findPercentileBucketIndex. rewrite Hb, Hn. cbv zeta.
  change LATHISTO_NUMBUCKETS with (Z.of_nat 2560).
  pose proof (percentile_scan_spec reached lats 2560 0 ltac:(lia) eq_refl Hlen) as Hscan.
  cbv zeta in Hscan. rewrite lats_below_0 in Hscan by done. destruct Hscan as (Hi & Hok & Hbefore).
  { exists (LATHISTO_NUMBUCKETS - 1). split; [by vm_compute|]. rewrite Z.sub_add.
    by rewrite lats_below_all by done. }
  split; [exact Hi|]. split; [exact Hok|]. split; [exact Hbefore|].
  rewrite (list_fmap_ext _ (lat_count lats)).
  - rewrite Zsum_lat_count, lats_below_0 by done. change (0 + Z.of_nat 2560) with LATHISTO_NUMBUCKETS.
    rewrite lats_below_all, u64_small by (done || lia). lia.
  - intros j x _. apply u64_small. split; [apply lat_count_nonneg|]. unfold lat_count.
    pose proof (length_filter (fun l => valueToIndex l = x) lats). lia.
Qed.

(** A histogram that a service sends arrives unchanged at the master, whatever the master's
    object held before: only the non-empty slots are sent and the others are cleared. *)
Lemma histogram_service_roundtrip h before :
  Z.of_nat (length (buckets h)) = LATHISTO_NUMBUCKETS ->
  histo_data (setFromPropertyTreeForService (getAsPropertyTreeForService h) before) = histo_data h.
Proof.
  intros Hlen. unfold histo_data, setFromPropertyTreeForService, getAsPropertyTreeForService.
  cbn [numStoredValues numMicroSecTotal minMicroSecLat maxMicroSecLat buckets pt_LATNUMVALUES
    pt_LATMICROSECTOTAL pt_LATMINMICROSEC pt_LATMAXMICROSEC pt_LATHISTOLIST]. f_equal.
  pose proof (apply_items_sparse (buckets h) [] Hlen) as Happ. cbn [length Z.of_nat app] in Happ.
  assert (zero_buckets = replicate (length (buckets h)) 0) as -> by (unfold zero_buckets; f_equal; lia).
  change (Z.of_nat 0) with 0 in Happ. by destruct (sparse_items (buckets h) 0).
Qed.

(** The summary by decades classifies a slot by its exclusive upper bound: a latency of exactly
    9us, which belongs to the decade "0-9us", is printed under "10-99us", and 99us under
    "100-999us". *)
Lemma grouped_summary_misplaces_upper_edge :
  decadeExponent 9 = 0 /\ decadeExponent 99 = 1
  /\ getHistogramGrouped (histo_of [9]) = [("10-99us", 1)]
  /\ getHistogramGrouped (histo_of [99]) = [("100-999us", 1)].
Proof. vm_compute. done. Qed.
