(* ===== verification/LiveOps.v ===== *)
(** The live statistics counters: struct [LiveOps] and [AtomicLiveOps] (LiveOps.h) and struct
    [LiveLatency] (LiveLatency.h), which are summed over the workers and compared between two
    points in time.  All counters are [uint64_t] and wrap around. *)

From S2P Require Import Prelude.

(** ** Definitions *)

Record LiveOps : Type := mkLiveOps { numEntriesDone : Z; numBytesDone : Z; numIOPSDone : Z }.

#[global] Instance LiveOps_eq_dec : EqDecision LiveOps.
Proof. solve_decision. Defined.

Definition LiveOps_zero : LiveOps := mkLiveOps 0 0 0.

Definition LiveOps_setToZero (_ : LiveOps) : LiveOps := LiveOps_zero.

(** [getAndAddOps(outSumOps)], also of [AtomicLiveOps]. *)
Definition LiveOps_getAndAddOps (ops outSumOps : LiveOps) : LiveOps :=
  mkLiveOps (numEntriesDone outSumOps +₆₄ numEntriesDone ops)
    (numBytesDone outSumOps +₆₄ numBytesDone ops) (numIOPSDone outSumOps +₆₄ numIOPSDone ops).

Definition LiveOps_sub (ops other : LiveOps) : LiveOps :=
  mkLiveOps (numEntriesDone ops -₆₄ numEntriesDone other)
    (numBytesDone ops -₆₄ numBytesDone other) (numIOPSDone ops -₆₄ numIOPSDone other).

Definition LiveOps_div (ops : LiveOps) (rhs : Z) : LiveOps :=
  mkLiveOps (numEntriesDone ops / rhs) (numBytesDone ops / rhs) (numIOPSDone ops / rhs).

Definition LiveOps_mul (ops : LiveOps) (rhs : Z) : LiveOps :=
  mkLiveOps (numEntriesDone ops *₆₄ rhs) (numBytesDone ops *₆₄ rhs) (numIOPSDone ops *₆₄ rhs).

(** [getAsLiveOps()] loads each counter. *)
Definition AtomicLiveOps_getAsLiveOps (ops : LiveOps) : LiveOps := ops.

(** The increments of the I/O loops: [numBytesDone += n; numIOPSDone++]. *)
Definition LiveOps_add_io (n : Z) (ops : LiveOps) : LiveOps :=
  mkLiveOps (numEntriesDone ops) (numBytesDone ops +₆₄ n) (numIOPSDone ops +₆₄ 1).

Record LiveLatency : Type := mkLiveLatency {
  numAvgIOLatValues : Z;
  avgIOLatMicroSecsSum : Z;
  numAvgIOLatReadMixValues : Z;
  avgIOLatReadMixMicroSecsSum : Z;
  numAvgEntriesLatValues : Z;
  avgEntriesLatMicroSecsSum : Z;
  numAvgEntriesLatReadMixValues : Z;
  avgEntriesLatReadMixMicrosSecsSum : Z;
}.

Definition LiveLatency_zero : LiveLatency := mkLiveLatency 0 0 0 0 0 0 0 0.

Definition LiveLatency_setToZero (_ : LiveLatency) : LiveLatency := LiveLatency_zero.

Definition LiveLatency_getAndAddOps (l out : LiveLatency) : LiveLatency :=
  mkLiveLatency
    (numAvgIOLatValues out +₆₄ numAvgIOLatValues l)
    (avgIOLatMicroSecsSum out +₆₄ avgIOLatMicroSecsSum l)
    (numAvgIOLatReadMixValues out +₆₄ numAvgIOLatReadMixValues l)
    (avgIOLatReadMixMicroSecsSum out +₆₄ avgIOLatReadMixMicroSecsSum l)
    (numAvgEntriesLatValues out +₆₄ numAvgEntriesLatValues l)
    (avgEntriesLatMicroSecsSum out +₆₄ avgEntriesLatMicroSecsSum l)
    (numAvgEntriesLatReadMixValues out +₆₄ numAvgEntriesLatReadMixValues l)
    (avgEntriesLatReadMixMicrosSecsSum out +₆₄ avgEntriesLatReadMixMicrosSecsSum l).

(** One of the four pairs: number of values and their sum. *)
Definition div_pair (num sum : Z) : Z * Z := if truthy num then (1, sum / num) else (num, sum).

Definition divAllByNumValues (l : LiveLatency) : LiveLatency :=
  let '(n1, s1) := div_pair (numAvgIOLatValues l) (avgIOLatMicroSecsSum l) in
  let '(n2, s2) := div_pair (numAvgIOLatReadMixValues l) (avgIOLatReadMixMicroSecsSum l) in
  let '(n3, s3) := div_pair (numAvgEntriesLatValues l) (avgEntriesLatMicroSecsSum l) in
  let '(n4, s4) := div_pair (numAvgEntriesLatReadMixValues l) (avgEntriesLatReadMixMicrosSecsSum l) in
  mkLiveLatency n1 s1 n2 s2 n3 s3 n4 s4.

(** ** Lemmas *)

Definition ops_ok (ops : LiveOps) : Prop :=
  0 <= numEntriesDone ops < TWO64 /\ 0 <= numBytesDone ops < TWO64 /\ 0 <= numIOPSDone ops < TWO64.

Lemma u64_add_sub a b : 0 <= b < TWO64 -> (a +₆₄ b) -₆₄ a = b.
Proof. intros Hb. rewrite u64_sub_mod_l. replace (a + b - a) with b by lia. by apply u64_small. Qed.

(** The difference of two snapshots of a counter set is what happened in between, also when the
    64-bit counters wrapped around in the meantime. *)
Lemma live_ops_interval_exact before delta :
  ops_ok delta -> LiveOps_sub (LiveOps_getAndAddOps delta before) before = delta.
Proof.
  intros (H1 & H2 & H3). destruct delta as [d1 d2 d3]. unfold LiveOps_sub, LiveOps_getAndAddOps. cbn in *.
  by rewrite !u64_add_sub.
Qed.
