(* ===== verification/Statistics.v ===== *)
(** The results of a phase (Statistics.cpp, workers/Worker.h): what the workers count and measure, how
    the statistics sum it up during a phase and at its end, and how a service passes it on to the
    master. *)

From S2P Require Import Prelude Common CppStrings TranslatorTk PropertyTree CppFloats CPUUtil LiveOps LatencyHistogram.
From Stdlib Require String.

#[local] Open Scope list_scope.
#[local] Open Scope Z_scope.

(** ** Definitions *)

(** *** Workers *)

(** The members of class [Worker] for the statistics. *)
Record WorkerStats : Type := mkStats {
  st_elapsedUSecVec : list Z;
  st_ops : LiveOps;             (** atomicLiveOps *)
  st_opsReadMix : LiveOps;
  st_oldOps : LiveOps;
  st_oldOpsReadMix : LiveOps;
  st_stoneWallTriggered : bool;
  st_gotPhaseWork : bool;
  st_stoneWallOps : LiveOps;
  st_stoneWallOpsReadMix : LiveOps;
  st_iopsLatHisto : LatencyHistogram;
  st_iopsLatHistoReadMix : LatencyHistogram;
  st_entriesLatHisto : LatencyHistogram;
  st_entriesLatHistoReadMix : LatencyHistogram;
}.

Definition Stats_resetStats (w : WorkerStats) : WorkerStats :=
  mkStats [] LiveOps_zero LiveOps_zero LiveOps_zero LiveOps_zero false true LiveOps_zero LiveOps_zero
    (LatencyHistogram_reset (st_iopsLatHisto w)) (LatencyHistogram_reset (st_iopsLatHistoReadMix w))
    (LatencyHistogram_reset (st_entriesLatHisto w)) (LatencyHistogram_reset (st_entriesLatHistoReadMix w)).

(** A worker before its first phase. *)
Definition Stats_new : WorkerStats :=
  mkStats [] LiveOps_zero LiveOps_zero LiveOps_zero LiveOps_zero false true LiveOps_zero LiveOps_zero
    LatencyHistogram_new LatencyHistogram_new LatencyHistogram_new LatencyHistogram_new.

Definition Stats_createStoneWallStats (w : WorkerStats) : WorkerStats :=
  mkStats (st_elapsedUSecVec w) (st_ops w) (st_opsReadMix w) (st_oldOps w) (st_oldOpsReadMix w) true (st_gotPhaseWork w)
    (AtomicLiveOps_getAsLiveOps (st_ops w)) (AtomicLiveOps_getAsLiveOps (st_opsReadMix w))
    (st_iopsLatHisto w) (st_iopsLatHistoReadMix w) (st_entriesLatHisto w) (st_entriesLatHistoReadMix w).

(** [getLiveOpsCombined()] *)
Definition getLiveOpsCombined (w : WorkerStats) : LiveOps :=
  LiveOps_getAndAddOps (st_opsReadMix w) (AtomicLiveOps_getAsLiveOps (st_ops w)).

(** The differences to the last call. *)
Definition getAndResetDiffStats (w : WorkerStats) : (LiveOps * LiveOps) * WorkerStats :=
  ((LiveOps_sub (st_ops w) (st_oldOps w), LiveOps_sub (st_opsReadMix w) (st_oldOpsReadMix w)),
   mkStats (st_elapsedUSecVec w) (st_ops w) (st_opsReadMix w) (st_ops w) (st_opsReadMix w) (st_stoneWallTriggered w)
     (st_gotPhaseWork w) (st_stoneWallOps w) (st_stoneWallOpsReadMix w)
     (st_iopsLatHisto w) (st_iopsLatHistoReadMix w) (st_entriesLatHisto w) (st_entriesLatHistoReadMix w)).

Definition getAndResetDiffStatsCombined (w : WorkerStats) : LiveOps * WorkerStats :=
  let '((diff, diffReadMix), w) := getAndResetDiffStats w in (LiveOps_getAndAddOps diffReadMix diff, w).

(** [getAndAddLiveLatency()] of class [Worker], which clears the live values of its histograms. *)
Definition Stats_getAndAddLiveLatency (out : LiveLatency) (w : WorkerStats) : LiveLatency * WorkerStats :=
  let '((n1, s1), h1) := addAndResetAverageLiveMicroSec (numAvgIOLatValues out, avgIOLatMicroSecsSum out) (st_iopsLatHisto w) in
  let '((n2, s2), h2) := addAndResetAverageLiveMicroSec (numAvgIOLatReadMixValues out, avgIOLatReadMixMicroSecsSum out)
                           (st_iopsLatHistoReadMix w) in
  let '((n3, s3), h3) := addAndResetAverageLiveMicroSec (numAvgEntriesLatValues out, avgEntriesLatMicroSecsSum out)
                           (st_entriesLatHisto w) in
  let '((n4, s4), h4) := addAndResetAverageLiveMicroSec (numAvgEntriesLatReadMixValues out, avgEntriesLatReadMixMicrosSecsSum out)
                           (st_entriesLatHistoReadMix w) in
  (mkLiveLatency n1 s1 n2 s2 n3 s3 n4 s4,
   mkStats (st_elapsedUSecVec w) (st_ops w) (st_opsReadMix w) (st_oldOps w) (st_oldOpsReadMix w) (st_stoneWallTriggered w)
     (st_gotPhaseWork w) (st_stoneWallOps w) (st_stoneWallOpsReadMix w) h1 h2 h3 h4).

(** What the statistics need of a worker: the members of the base class, and the virtual method. *)
Class StatsWorker (W : Type) : Type := {
  base_stats : W -> WorkerStats;
  getAndAddLiveLatency : LiveLatency -> W -> LiveLatency * W;
}.

#[global] Instance local_StatsWorker : StatsWorker WorkerStats := {|
  base_stats := id;
  getAndAddLiveLatency := Stats_getAndAddLiveLatency;
|}.

(** *** Sums over the workers *)

Definition getLiveOps `{StatsWorker W} (workers : list W) : (LiveOps * LiveOps * LiveLatency) * list W :=
  foldl (fun '((ops, opsReadMix, lat), done) w =>
           let ops := LiveOps_getAndAddOps (st_ops (base_stats w)) ops in
           let opsReadMix := LiveOps_getAndAddOps (st_opsReadMix (base_stats w)) opsReadMix in
           let '(lat, w) := getAndAddLiveLatency lat w in
           ((ops, opsReadMix, lat), done ++ [w]))
    ((LiveOps_zero, LiveOps_zero, LiveLatency_zero), []) workers.

(** [UnitTk::getPerSecFromUSec()]; [None] if the result does not fit. *)
Definition getPerSecFromUSec (totalValue elapsedUsec : Z) : option Z :=
  fl_to_uint 64 (fl_mul double_fmt (fl_of_Z double_fmt totalValue)
    (fl_div double_fmt (fl_of_Z double_fmt 1000000) (fl_of_Z double_fmt elapsedUsec))).

Definition LiveOps_getPerSecFromUSec (ops : LiveOps) (elapsedUsec : Z) : option LiveOps :=
  entries ← getPerSecFromUSec (numEntriesDone ops) elapsedUsec;
  bytes ← getPerSecFromUSec (numBytesDone ops) elapsedUsec;
  iops ← getPerSecFromUSec (numIOPSDone ops) elapsedUsec;
  Some (mkLiveOps entries bytes iops).

(** *** Results of a phase *)

(** The members that the loop over the workers fills; the times are there after the first one. *)
Record PhaseSums : Type := mkSums {
  ps_finish : option (Z * Z);    (** firstFinishUSec and lastFinishUSec *)
  ps_opsTotal : LiveOps;
  ps_opsTotalReadMix : LiveOps;
  ps_opsStoneWallTotal : LiveOps;
  ps_opsStoneWallTotalReadMix : LiveOps;
  ps_iopsLatHisto : LatencyHistogram;
  ps_iopsLatHistoReadMix : LatencyHistogram;
  ps_entriesLatHisto : LatencyHistogram;
  ps_entriesLatHistoReadMix : LatencyHistogram;
}.

Definition PhaseSums_zero : PhaseSums :=
  mkSums None LiveOps_zero LiveOps_zero LiveOps_zero LiveOps_zero
    LatencyHistogram_new LatencyHistogram_new LatencyHistogram_new LatencyHistogram_new.

(** [firstFinishUSec] and [lastFinishUSec] after another time. *)
Definition add_elapsed (finish : option (Z * Z)) (elapsedUSec : Z) : option (Z * Z) :=
  match finish with
  | None => Some (elapsedUSec, elapsedUSec)
  | Some (first, last) =>
      Some (if elapsedUSec <? first then elapsedUSec else first, if last <? elapsedUSec then elapsedUSec else last)
  end.

Definition add_worker (r : PhaseSums) (w : WorkerStats) : PhaseSums :=
  mkSums (foldl add_elapsed (ps_finish r) (st_elapsedUSecVec w))
    (LiveOps_getAndAddOps (st_ops w) (ps_opsTotal r))
    (LiveOps_getAndAddOps (st_opsReadMix w) (ps_opsTotalReadMix r))
    (LiveOps_getAndAddOps (st_stoneWallOps w) (ps_opsStoneWallTotal r))
    (LiveOps_getAndAddOps (st_stoneWallOpsReadMix w) (ps_opsStoneWallTotalReadMix r))
    (LatencyHistogram_merge (ps_iopsLatHisto r) (st_iopsLatHisto w))
    (LatencyHistogram_merge (ps_iopsLatHistoReadMix r) (st_iopsLatHistoReadMix w))
    (LatencyHistogram_merge (ps_entriesLatHisto r) (st_entriesLatHisto w))
    (LatencyHistogram_merge (ps_entriesLatHistoReadMix r) (st_entriesLatHistoReadMix w)).

(** The loop over the workers; [None] if a worker with work has no time. *)
Fixpoint sum_workers (workers : list WorkerStats) (r : PhaseSums) : option PhaseSums :=
  match workers with
  | [] => Some r
  | w :: workers =>
      match st_elapsedUSecVec w with
      | [] => if st_gotPhaseWork w then None else sum_workers workers r
      | _ => sum_workers workers (add_worker r w)
      end
  end.

(** A result per second is only there if it fits, and zero if it is not computed. *)
Record PhaseResults : Type := mkResults {
  pr_firstFinishUSec : Z;
  pr_lastFinishUSec : Z;
  pr_sums : PhaseSums;
  pr_opsStoneWallPerSec : option LiveOps;
  pr_opsStoneWallPerSecReadMix : option LiveOps;
  pr_opsPerSec : option LiveOps;
  pr_opsPerSecReadMix : option LiveOps;
  pr_cpuUtilStoneWallPercent : spec_float;
  pr_cpuUtilPercent : spec_float;
}.

(** Where the CPU utilization comes from: the counters of this host, or the values (at the first
    and the last finisher) of the services. *)
Inductive CPUSource : Type :=
  | LocalCPU (cpuUtilFirstDone cpuUtilLastDone : CPUUtil)
  | RemoteCPU (services : list (Z * Z)).

Definition average (values : list Z) : spec_float :=
  fl_div float_fmt (foldl (fun sum v => fl_add float_fmt sum (fl_of_Z float_fmt v)) (fl_of_Z float_fmt 0) values)
    (fl_of_Z float_fmt (Z.of_nat (length values))).

Definition cpu_percents (cpu : CPUSource) : spec_float * spec_float :=
  match cpu with
  | LocalCPU first last => (getCPUUtilPercent first, getCPUUtilPercent last)
  | RemoteCPU services => (average services.*1, average services.*2)
  end.

Definition per_sec_if (cond : bool) (ops : LiveOps) (elapsedUSec : Z) : option LiveOps :=
  if cond then LiveOps_getPerSecFromUSec ops elapsedUSec else Some LiveOps_zero.

(** [generatePhaseResults()]; [None] is the result [false]. *)
Definition generatePhaseResults (cpu : CPUSource) (workers : list WorkerStats) : option PhaseResults :=
  if bool_decide (workers = []) then None
  else
    r ← sum_workers workers PhaseSums_zero;
    '(first, last) ← ps_finish r;
    let haveReadMix := truthy (numIOPSDone (ps_opsTotalReadMix r)) in
    Some (mkResults first last r
      (per_sec_if (truthy first) (ps_opsStoneWallTotal r) first)
      (per_sec_if (truthy first && haveReadMix) (ps_opsStoneWallTotalReadMix r) first)
      (per_sec_if (truthy last) (ps_opsTotal r) last)
      (per_sec_if (truthy last && haveReadMix) (ps_opsTotalReadMix r) last)
      (cpu_percents cpu).1 (cpu_percents cpu).2).

(** *** Live statistics *)

Record LiveResults : Type := mkLive {
  lr_numEntriesPerWorker : Z;
  lr_numBytesPerWorker : Z;
  lr_numRemoteThreadsLeft : Z;
  lr_percentRemoteCPU : Z;
  lr_lastLiveOps : LiveOps;
  lr_lastLiveOpsReadMix : LiveOps;
  lr_newLiveOps : LiveOps;
  lr_newLiveOpsReadMix : LiveOps;
  lr_liveOpsPerSec : LiveOps;
  lr_liveOpsPerSecReadMix : LiveOps;
  lr_percentDone : Z;
  lr_percentDoneReadMix : Z;
  lr_liveLatency : LiveLatency;
}.

(** [updateLiveStatsRemoteInfo()]: [services] are the workers that are done and the CPU utilization
    of each service. *)
Definition updateLiveStatsRemoteInfo (isMaster : bool) (numThreads : Z) (services : list (Z * Z)) (r : LiveResults) : LiveResults :=
  if negb isMaster then r
  else
    let total := Z.of_nat (length services) *₆₄ numThreads in
    let left := foldl (fun left '(numWorkersDone, _) => left -₆₄ numWorkersDone) total services in
    let cpu := foldl (fun sum '(_, percent) => sum +₆₄ percent) 0 services / Z.of_nat (length services) in
    mkLive (lr_numEntriesPerWorker r) (lr_numBytesPerWorker r) left cpu (lr_lastLiveOps r) (lr_lastLiveOpsReadMix r)
      (lr_newLiveOps r) (lr_newLiveOpsReadMix r) (lr_liveOpsPerSec r) (lr_liveOpsPerSecReadMix r)
      (lr_percentDone r) (lr_percentDoneReadMix r) (lr_liveLatency r).

(** Bytes, if the phase has any, or else entries. *)
Definition percent_done (r : LiveResults) (numWorkers : Z) (ops : LiveOps) : Z :=
  if truthy (lr_numBytesPerWorker r) then (100 *₆₄ numBytesDone ops) / (lr_numBytesPerWorker r *₆₄ numWorkers)
  else if truthy (lr_numEntriesPerWorker r) then (100 *₆₄ numEntriesDone ops) / (lr_numEntriesPerWorker r *₆₄ numWorkers)
  else 0.

Definition updateLiveStatsLiveOps `{StatsWorker W} (elapsedMS : Z) (workers : list W) (r : LiveResults) : result (LiveResults * list W) :=
  if elapsedMS =? 0 then Throw (ProgException "updateLiveStatsLiveOps called with elapsedMS=0. ")
  else
    let '((ops, opsReadMix, lat), workers) := getLiveOps workers in
    let per_sec new last := LiveOps_div (LiveOps_mul (LiveOps_sub new last) 1000) elapsedMS in
    let numWorkers := Z.of_nat (length workers) in
    Ok (mkLive (lr_numEntriesPerWorker r) (lr_numBytesPerWorker r) (lr_numRemoteThreadsLeft r) (lr_percentRemoteCPU r)
          ops opsReadMix ops opsReadMix (per_sec ops (lr_lastLiveOps r)) (per_sec opsReadMix (lr_lastLiveOpsReadMix r))
          (percent_done r numWorkers ops) (percent_done r numWorkers opsReadMix) (divAllByNumValues lat), workers).

(** *** From a service to the master *)

(** A property tree with the values, the items of the list of times and the histograms by their
    prefix. *)
Record ResultTree : Type := mkTree {
  rt_values : arg_tree;
  rt_elapsed : list string;
  rt_latencies : list (string * ptree_latency);
}.

(** What a service knows of its phase.  A bench ID is a text. *)
Record ServicePhase : Type := mkPhase {
  ph_benchID : string;
  ph_benchPhase : BenchPhase;
  ph_names : NameArgs;
  ph_numWorkersDone : Z;
  ph_numWorkersDoneWithError : Z;
  ph_cpuUtilFirstDone : CPUUtil;
  ph_cpuUtilLastDone : CPUUtil;
  ph_liveCpuUtil : CPUUtil;
  ph_elapsedSecs : Z;
  ph_errorHistory : string;
}.

(** The condition for the values of reads in a write phase. *)
Definition has_read_mix (benchPhase : BenchPhase) (a : NameArgs) : bool :=
  bool_decide (benchPhase = BenchPhase_CREATEFILES)
  && (truthy (na_rwMixReadPercent a) || truthy (na_numRWMixReadThreads a) || bool_decide (na_benchMode a = BenchMode_NETBENCH)).

Definition phase_values (ph : ServicePhase) : arg_tree :=
  [("BenchID", ph_benchID ph); ("PhaseName", benchPhaseToPhaseName (ph_benchPhase ph) (ph_names ph));
   ("PhaseCode", to_string (BenchPhase_code (ph_benchPhase ph))); ("NumWorkersDone", to_string (ph_numWorkersDone ph));
   ("NumWorkersDoneWithError", to_string (ph_numWorkersDoneWithError ph))].

Definition ops_values (suffix : string) (ops : LiveOps) : arg_tree :=
  [("NumEntriesDone" +:+ suffix, to_string (numEntriesDone ops)); ("NumBytesDone" +:+ suffix, to_string (numBytesDone ops));
   ("NumIOPSDone" +:+ suffix, to_string (numIOPSDone ops))].

(** [(unsigned)percent] *)
Definition cpu_value (u : CPUUtil) : option Z := fl_to_uint 32 (getCPUUtilPercent u).

(** [getLiveStatsAsPropertyTreeForService()]; [None] if a percentage does not fit. *)
Definition getLiveStatsAsPropertyTreeForService (ph : ServicePhase) (workers : list WorkerStats)
    : option (arg_tree * list WorkerStats) :=
  let '((ops, opsReadMix, lat), workers) := getLiveOps workers in
  let trigger := match workers with [] => false | w :: _ => st_stoneWallTriggered w end in
  cpu ← cpu_value (ph_liveCpuUtil ph);
  Some (ptree_puts (phase_values ph ++ [("TriggerStoneWall", print_bool trigger)] ++ ops_values "" ops
    ++ [("CPUUtil", to_string cpu); ("ElapsedSecs", to_string (ph_elapsedSecs ph));
        ("NumIOLatUSec", to_string (numAvgIOLatValues lat)); ("SumIOLatUSec", to_string (avgIOLatMicroSecsSum lat));
        ("NumEntLatUSec", to_string (numAvgEntriesLatValues lat)); ("SumEntLatUSec", to_string (avgEntriesLatMicroSecsSum lat))]
    ++ (if has_read_mix (ph_benchPhase ph) (ph_names ph) then
          ops_values "RWMixRead" opsReadMix
          ++ [("NumIOLatUSecRWMixRead", to_string (numAvgIOLatReadMixValues lat));
              ("SumIOLatUSecRWMixRead", to_string (avgIOLatReadMixMicroSecsSum lat));
              ("NumEntLatUSecRWMixRead", to_string (numAvgEntriesLatReadMixValues lat));
              ("SumEntLatUSecRWMixRead", to_string (avgEntriesLatReadMixMicrosSecsSum lat))]
        else [])
    ++ [("ErrorHistory", ph_errorHistory ph)]), workers).

Definition merge_all (histo : WorkerStats -> LatencyHistogram) (workers : list WorkerStats) : LatencyHistogram :=
  foldl (fun sum w => LatencyHistogram_merge sum (histo w)) LatencyHistogram_new workers.

(** The values of a result, in the order in which they are put into the tree. *)
Definition result_values (ph : ServicePhase) (readMix : bool) (ops opsReadMix : LiveOps) (cpuFirst cpuLast : Z) (trigger : bool) : arg_tree :=
  phase_values ph ++ ops_values "" ops
  ++ [("CPUUtilStoneWall", to_string cpuFirst); ("CPUUtil", to_string cpuLast); ("TriggerStoneWall", print_bool trigger)]
  ++ (if readMix then ops_values "RWMixRead" opsReadMix else [])
  ++ [("ErrorHistory", ph_errorHistory ph)].

Definition getBenchResultAsPropertyTreeForService (ph : ServicePhase) (workers : list WorkerStats)
    : option (ResultTree * list WorkerStats) :=
  let '((ops, opsReadMix, _), workers) := getLiveOps workers in
  let readMix := has_read_mix (ph_benchPhase ph) (ph_names ph) in
  cpuFirst ← cpu_value (ph_cpuUtilFirstDone ph);
  cpuLast ← cpu_value (ph_cpuUtilLastDone ph);
  Some (mkTree
    (ptree_puts (result_values ph readMix ops opsReadMix cpuFirst cpuLast (existsb st_gotPhaseWork workers)))
    (to_string <$> concat ((fun w => if st_gotPhaseWork w then st_elapsedUSecVec w else []) <$> workers))
    ([("IOPS_", getAsPropertyTreeForService (merge_all st_iopsLatHisto workers));
      ("Entries_", getAsPropertyTreeForService (merge_all st_entriesLatHisto workers))]
     ++ (if readMix then
           [("IOPSRWMixRead_", getAsPropertyTreeForService (merge_all st_iopsLatHistoReadMix workers));
            ("EntriesRWMixRead_", getAsPropertyTreeForService (merge_all st_entriesLatHistoReadMix workers))]
         else [])), workers).
