(* ===== verification/Journal.v ===== *)
(** The write journal of one target: classes [Journal] and [JournalBlockIO] of
    toolkits/Journal.{h,cpp}.

    The mmap'ed file is a list of bytes ([j_mem]); [j_disk] is what has reached the disk, which
    [msync] copies from the mapping.  The stripe locks of the process are a table from stripe
    numbers to lock states; an operation that would have to wait for a lock is [None].  The
    interleaving of several threads is in JournalLocks.v. *)

From stdpp Require Export gmap.
From S2P Require Import Prelude.

#[local] Open Scope list_scope.
#[local] Open Scope Z_scope.

(** ** Definitions *)

Record Journal : Type := mkJournal {
  j_mem : list Z;
  j_disk : list Z;
  journalBlockSize : Z;
  targetOffset : Z;
  targetSize : Z;
  numJournalBlocks : Z;
  journalSeed : Z;
  journalSyncEnabled : bool;
  lockRegionShift : Z;
  stripeSalt : Z;
}.

Definition with_mem (j : Journal) (mem : list Z) : Journal :=
  mkJournal mem (j_disk j) (journalBlockSize j) (targetOffset j) (targetSize j)
    (numJournalBlocks j) (journalSeed j) (journalSyncEnabled j) (lockRegionShift j) (stripeSalt j).

Definition with_disk (j : Journal) (disk : list Z) : Journal :=
  mkJournal (j_mem j) disk (journalBlockSize j) (targetOffset j) (targetSize j)
    (numJournalBlocks j) (journalSeed j) (journalSyncEnabled j) (lockRegionShift j) (stripeSalt j).

Definition mapLength (j : Journal) : Z := (numJournalBlocks j *₆₄ 2 +₆₄ 7) / 8.

(** [(targetSize + journalBlockSize - 1) / journalBlockSize]. *)
Definition ceil_blocks (size blockSize : Z) : Z := ((size +₆₄ blockSize) -₆₄ 1) / blockSize.

(** *** Creating and opening; [sys] tells which system calls succeed *)

Inductive journal_syscall : Type :=
  | Sys_create_sidecar | Sys_write_sidecar | Sys_fsync_sidecar | Sys_create_binary
  | Sys_ftruncate | Sys_fallocate | Sys_mmap | Sys_open_binary | Sys_fstat | Sys_msync.

Definition check_sys (ok : bool) (msg : string) : result unit :=
  if ok then Ok tt else Throw (ProgException msg).

(** [(uint64_t)randDev() << 32 | (uint64_t)randDev()]. *)
Definition journal_seed (rand1 rand2 : Z) : Z := Z.lor (u64 (Z.shiftl (u32 rand1) 32)) (u32 rand2).

Definition Journal_createNew (sys : journal_syscall -> bool) (rand1 rand2 : Z)
    (blockSize offset size : Z) : result Journal :=
  let j := mkJournal [] [] blockSize offset size (ceil_blocks size blockSize)
             (journal_seed rand1 rand2) false 0 0 in
  let zeros := replicate (Z.to_nat (mapLength j)) 0 in
  _ ← check_sys (sys Sys_create_sidecar) "Unable to create journal sidecar file.";
  _ ← check_sys (sys Sys_write_sidecar) "Unable to write journal sidecar file.";
  _ ← check_sys (sys Sys_fsync_sidecar) "Unable to fsync journal sidecar file.";
  _ ← check_sys (sys Sys_create_binary) "Unable to create journal binary file.";
  _ ← check_sys (sys Sys_ftruncate) "Unable to set size of journal binary file.";
  _ ← check_sys (sys Sys_fallocate) "Unable to preallocate journal binary file disk space.";
  _ ← check_sys (sys Sys_mmap) "Unable to mmap journal binary file.";
  Ok (with_disk (with_mem j zeros) zeros).

Definition Journal_openExisting (sys : journal_syscall -> bool) (binary : list Z)
    (blockSize offset size seed : Z) : result Journal :=
  let j := mkJournal [] [] blockSize offset size (ceil_blocks size blockSize) seed false 0 0 in
  _ ← check_sys (sys Sys_open_binary) "Unable to open existing journal binary file.";
  _ ← check_sys (sys Sys_fstat) "Unable to stat existing journal binary file.";
  _ ← check_sys (Z.of_nat (length binary) =? mapLength j)
        "Existing journal binary file size does not match the size derived from its sidecar.";
  _ ← check_sys (sys Sys_mmap) "Unable to mmap journal binary file.";
  Ok (with_disk (with_mem j binary) binary).

(** [while((1 << shift) < maxBlocksPerIO) shift++]; a 64-bit value needs at most 64 rounds. *)
Fixpoint region_shift (fuel : nat) (shift maxBlocksPerIO : Z) : option Z :=
  if u64 (Z.shiftl 1 shift) <? maxBlocksPerIO then
    match fuel with
    | O => None
    | S fuel => region_shift fuel (shift + 1) maxBlocksPerIO
    end
  else Some shift.

Definition initRunOptions (maxIOSize : Z) (sync : bool) (j : Journal) : option Journal :=
  shift ← region_shift 64 0 (ceil_blocks maxIOSize (journalBlockSize j));
  Some (mkJournal (j_mem j) (j_disk j) (journalBlockSize j) (targetOffset j) (targetSize j)
          (numJournalBlocks j) (journalSeed j) sync shift (journalSeed j)).

(** *** Cells *)

Definition cellLocation (blockIndex : Z) : nat * Z * Z :=
  let shift := blockIndex `mod` 4 * 2 in
  (Z.to_nat (blockIndex / 4), shift, u8 (Z.shiftl 3 shift)).

(** The cell of a block in a given image of the file. *)
Definition cell_at (mem : list Z) (idx : Z) : Z :=
  let '(byteIdx, shift, mask) := cellLocation idx in
  Z.shiftr (Z.land (nth byteIdx mem 0) mask) shift.

Definition loadBlockGen (j : Journal) (idx : Z) : Z := cell_at (j_mem j) idx.

Definition markBlockBusy (idx : Z) (j : Journal) : Journal :=
  let '(byteIdx, _, mask) := cellLocation idx in
  with_mem j (alter (fun b => Z.land b (u8 (Z.lnot mask))) byteIdx (j_mem j)).

Definition commitBlockGen (idx newGen : Z) (j : Journal) : Journal :=
  let '(byteIdx, shift, mask) := cellLocation idx in
  with_mem j (alter (fun b => Z.lor b (u8 (Z.land (Z.shiftl newGen shift) mask))) byteIdx (j_mem j)).

(** [msync] of the bytes from the page that holds the first cell on. *)
Definition syncRange (sys : journal_syscall -> bool) (pageSize firstBlockIdx numBlocks : Z) (j : Journal)
    : result Journal :=
  if negb (journalSyncEnabled j) then Ok j
  else
    let startByteIdx := firstBlockIdx / 4 in
    let endByteIdx := Z.min (((firstBlockIdx +₆₄ numBlocks) +₆₄ 3) / 4) (mapLength j) in
    let pageAlignedStart := startByteIdx / pageSize * pageSize in
    _ ← check_sys (sys Sys_msync) "Unable to msync journal.";
    let a := Z.to_nat pageAlignedStart in
    let b := Z.to_nat endByteIdx in
    Ok (with_disk j (take a (j_disk j) ++ take (b - a) (drop a (j_mem j)) ++ drop b (j_disk j))).

Definition offsetToBlockIndex (j : Journal) (absoluteOffset : Z) : Z :=
  (absoluteOffset -₆₄ targetOffset j) / journalBlockSize j.

Definition nextGen (prevGen : Z) : Z := if prevGen =? 0 then 1 else prevGen `mod` 3 + 1.

Definition computeExpectedTileValue (blockAlignedOffset seed generation : Z) : Z :=
  let x := Z.lxor (Z.lxor blockAlignedOffset (seed *₆₄ 0x9E3779B97F4A7C15))
             (generation *₆₄ 0xBF58476D1CE4E5B9) in
  let x := Z.lxor x (Z.shiftr x 33) in
  let x := x *₆₄ 0xFF51AFD7ED558CCD in
  let x := Z.lxor x (Z.shiftr x 33) in
  let x := x *₆₄ 0xC4CEB9FE1A85EC53 in
  Z.lxor x (Z.shiftr x 33).

(** *** Verifiable blocks *)

Fixpoint popcount (n : nat) (z : Z) : Z :=
  match n with
  | O => 0
  | S n => Z.b2z (Z.odd z) + popcount n (Z.div2 z)
  end.

(** [memcpy] of 8 bytes into a [uint64_t]. *)
Fixpoint le_word (bytes : list Z) : Z :=
  match bytes with
  | [] => 0
  | b :: bytes => b + 256 * le_word bytes
  end.

Definition word_cells (w : Z) : Z :=
  popcount 64 (Z.land (Z.lor w (Z.shiftr w 1)) 0x5555555555555555).

Definition byte_cells (b : Z) : Z := popcount 32 (Z.land (Z.lor b (Z.shiftr b 1)) 0x55).

(** The word loop and then the byte loop of [getVerifiablePercent()]; its result is divided by
    the number of journal blocks in [double]. *)
Fixpoint count_verifiable (fuel : nat) (mem : list Z) : Z :=
  match fuel with
  | O => 0
  | S fuel =>
      match mem with
      | b0 :: b1 :: b2 :: b3 :: b4 :: b5 :: b6 :: b7 :: rest =>
          word_cells (le_word [b0; b1; b2; b3; b4; b5; b6; b7]) +₆₄ count_verifiable fuel rest
      | b :: rest => byte_cells b +₆₄ count_verifiable fuel rest
      | [] => 0
      end
  end.

Definition numVerifiable (j : Journal) : Z :=
  if numJournalBlocks j =? 0 then 0 else count_verifiable (length (j_mem j)) (j_mem j).

(** *** Stripe locks *)

Definition NUM_STRIPES_SHIFT : Z := 16.

Definition blockIndexToStripe (j : Journal) (idx : Z) : Z :=
  let regionIdx := Z.lxor (Z.shiftr idx (lockRegionShift j)) (stripeSalt j) in
  Z.shiftr (regionIdx *₆₄ 0x9E3779B97F4A7C15) (64 - NUM_STRIPES_SHIFT).

Inductive lock_state : Type := LockShared (n : positive) | LockExclusive.

(** A stripe that is not in the table is free. *)
Abbreviation lock_table := (gmap Z lock_state).

Definition try_lock (isExclusive : bool) (stripe : Z) (t : lock_table) : option lock_table :=
  match t !! stripe, isExclusive with
  | None, true => Some (<[stripe := LockExclusive]> t)
  | None, false => Some (<[stripe := LockShared 1]> t)
  | Some (LockShared n), false => Some (<[stripe := LockShared (n + 1)]> t)
  | _, _ => None
  end.

(** [unlock()] and [unlock_shared()]. *)
Definition unlock (isExclusive : bool) (stripe : Z) (t : lock_table) : lock_table :=
  partial_alter (fun st =>
    match st, isExclusive with
    | Some (LockShared n), false =>
        if decide (n = 1%positive) then None else Some (LockShared (Pos.pred n))
    | _, _ => None
    end) stripe t.

(** The locks that a [JournalRangeGuard] holds. *)
Record JournalRangeGuard : Type := mkGuard { guard_locks : list Z; guard_exclusive : bool }.

Definition guard_none : JournalRangeGuard := mkGuard [] false.

Definition guard_release (g : JournalRangeGuard) (t : lock_table) : JournalRangeGuard * lock_table :=
  (mkGuard [] (guard_exclusive g), foldl (fun t s => unlock (guard_exclusive g) s t) t (guard_locks g)).

(** The stripes of a block range, ascending and without duplicate. *)
Definition range_stripes (j : Journal) (firstBlockIdx numBlocks : Z) : list Z :=
  let firstStripe := blockIndexToStripe j firstBlockIdx in
  let lastStripe := blockIndexToStripe j ((firstBlockIdx +₆₄ numBlocks) -₆₄ 1) in
  if negb (firstStripe =? lastStripe)
  then [Z.min firstStripe lastStripe; Z.max firstStripe lastStripe]
  else [Z.min firstStripe lastStripe].

(** The loop over the wanted locks with [try_lock]; gives up what it got on failure. *)
Fixpoint try_locks (isExclusive : bool) (wanted : list Z) (g : JournalRangeGuard) (t : lock_table)
    : bool * JournalRangeGuard * lock_table :=
  match wanted with
  | [] => (true, g, t)
  | s :: wanted =>
      match try_lock isExclusive s t with
      | Some t' => try_locks isExclusive wanted (mkGuard (guard_locks g ++ [s]) isExclusive) t'
      | None => let '(g, t) := guard_release g t in (false, g, t)
      end
  end.

(** [None]: the thread has to wait ([mayBlock]). *)
Definition acquireRange (j : Journal) (firstBlockIdx numBlocks : Z) (isExclusive mayBlock : bool)
    (t : lock_table) : option (bool * JournalRangeGuard * lock_table) :=
  let '(ok, g, t') := try_locks isExclusive (range_stripes j firstBlockIdx numBlocks)
                        (mkGuard [] isExclusive) t in
  if mayBlock && negb ok then None else Some (ok, g, t').

(** *** [JournalBlockIO] *)

Inductive Intent : Type := INTENT_WRITE | INTENT_READ_SKIP_UNINIT | INTENT_READ_OR_INIT.
Inductive Action : Type := ACTION_READ | ACTION_WRITE | ACTION_SKIP | ACTION_DEFER.

Record JournalBlockIO : Type := mkBlockIO {
  baseBlockIdx : Z;
  io_numBlocks : Z;
  io_action : Action;
  io_gens : list Z;
  io_guard : JournalRangeGuard;
}.

Definition JournalBlockIO_new : JournalBlockIO := mkBlockIO 0 0 ACTION_SKIP [] guard_none.

(** The blocks of an I/O. *)
Definition io_blocks (base num : Z) : list Z := seqZ base num.

(** The loop of [claimForWrite()]: rotate each generation, then clear the cell. *)
Fixpoint claim_cells (blocks : list Z) (j : Journal) : list Z * bool * Journal :=
  match blocks with
  | [] => ([], false, j)
  | idx :: blocks =>
      let oldGen := loadBlockGen j idx in
      let j := markBlockBusy idx j in
      let '(gens, any, j) := claim_cells blocks j in
      (nextGen oldGen :: gens, negb (oldGen =? 0) || any, j)
  end.

(** [claimForWrite()]; the result is [false] when the locks are taken. *)
Definition claimForWrite (sys : journal_syscall -> bool) (pageSize : Z) (mayBlock : bool)
    (io : JournalBlockIO) (j : Journal) (t : lock_table)
    : option (result (bool * JournalBlockIO * Journal * lock_table)) :=
  '(ok, g, t) ← acquireRange j (baseBlockIdx io) (io_numBlocks io) true mayBlock t;
  let io := mkBlockIO (baseBlockIdx io) (io_numBlocks io) (io_action io) (io_gens io) g in
  if negb ok then Some (Ok (false, io, j, t))
  else
    let '(gens, anyWasVerifiable, j) := claim_cells (io_blocks (baseBlockIdx io) (io_numBlocks io)) j in
    Some (j ← (if anyWasVerifiable then syncRange sys pageSize (baseBlockIdx io) (io_numBlocks io) j
               else Ok j);
          Ok (true, mkBlockIO (baseBlockIdx io) (io_numBlocks io) ACTION_WRITE gens g, j, t)).

(** The tail of [begin()] for writes. *)
Definition claim_action (res : option (result (bool * JournalBlockIO * Journal * lock_table)))
    : option (result (Action * JournalBlockIO * Journal * lock_table)) :=
  r ← res;
  Some ('(ok, io, j, t) ← r; Ok (if (ok : bool) then io_action io else ACTION_DEFER, io, j, t)).

Definition JournalBlockIO_begin (sys : journal_syscall -> bool) (pageSize : Z) (absoluteOffset ioLen : Z)
    (intent : Intent) (mayBlock : bool) (io : JournalBlockIO) (j : Journal) (t : lock_table)
    : option (result (Action * JournalBlockIO * Journal * lock_table)) :=
  let base := offsetToBlockIndex j absoluteOffset in
  let num := ceil_blocks ioLen (journalBlockSize j) in
  let io := mkBlockIO base num (io_action io) (resize (Z.to_nat num) 0 (io_gens io)) (io_guard io) in
  match intent with
  | INTENT_WRITE => claim_action (claimForWrite sys pageSize mayBlock io j t)
  | _ =>
      '(ok, g, t) ← acquireRange j base num false mayBlock t;
      if negb ok then Some (Ok (ACTION_DEFER, mkBlockIO base num (io_action io) (io_gens io) g, j, t))
      else
        let gens := loadBlockGen j <$> io_blocks base num in
        let anyUninit := existsb (fun g => g =? 0) gens in
        let allUninit := forallb (fun g => g =? 0) gens in
        let read := Some (Ok (ACTION_READ, mkBlockIO base num ACTION_READ gens g, j, t)) in
        if negb anyUninit then read
        else
          match intent with
          | INTENT_READ_SKIP_UNINIT =>
              if allUninit then
                let '(g, t) := guard_release g t in
                Some (Ok (ACTION_SKIP, mkBlockIO base num ACTION_SKIP gens g, j, t))
              else read
          | _ =>
              let '(g, t) := guard_release g t in
              claim_action (claimForWrite sys pageSize mayBlock
                (mkBlockIO base num (io_action io) gens g) j t)
          end
  end.

Fixpoint commit_cells (blocks gens : list Z) (j : Journal) : Journal :=
  match blocks, gens with
  | idx :: blocks, g :: gens => commit_cells blocks gens (commitBlockGen idx g j)
  | _, _ => j
  end.

Definition JournalBlockIO_commit (sys : journal_syscall -> bool) (pageSize : Z)
    (io : JournalBlockIO) (j : Journal) (t : lock_table)
    : result (JournalBlockIO * Journal * lock_table) :=
  j ← match io_action io with
      | ACTION_WRITE =>
          syncRange sys pageSize (baseBlockIdx io) (io_numBlocks io)
            (commit_cells (io_blocks (baseBlockIdx io) (io_numBlocks io)) (io_gens io) j)
      | _ => Ok j
      end;
  let '(g, t) := guard_release (io_guard io) t in
  Ok (mkBlockIO (baseBlockIdx io) (io_numBlocks io) (io_action io) (io_gens io) g, j, t).

Definition JournalBlockIO_release (io : JournalBlockIO) (t : lock_table) : JournalBlockIO * lock_table :=
  let '(g, t) := guard_release (io_guard io) t in
  (mkBlockIO (baseBlockIdx io) (io_numBlocks io) (io_action io) (io_gens io) g, t).

(** ** Specification *)

Definition is_byte (b : Z) : Prop := 0 <= b < 256.

(** A journal whose mapping has the right size. *)
Record journal_wf (j : Journal) : Prop := {
  jw_bs : 0 < journalBlockSize j < TWO64;
  jw_num : 0 <= numJournalBlocks j < 2 ^ 62;
  jw_mem : Z.of_nat (length (j_mem j)) = mapLength j;
  jw_disk : Z.of_nat (length (j_disk j)) = mapLength j;
  jw_mem_bytes : Forall is_byte (j_mem j);
  jw_disk_bytes : Forall is_byte (j_disk j);
}.

Definition in_journal (j : Journal) (i : Z) : Prop := 0 <= i < numJournalBlocks j.

(** What the journal claims on disk, it also claims in memory or the block is being rewritten:
    a cleared cell is cleared on disk as well. *)
Definition durable_zeros (j : Journal) : Prop :=
  forall i, in_journal j i -> cell_at (j_mem j) i = 0 -> cell_at (j_disk j) i = 0.

(** ** Cells within a byte, checked exhaustively *)

Definition cell_get (b k : Z) : Z := Z.shiftr (Z.land b (u8 (Z.shiftl 3 (k * 2)))) (k * 2).
Definition cell_clear (b k : Z) : Z := Z.land b (u8 (Z.lnot (u8 (Z.shiftl 3 (k * 2))))).
Definition cell_set (b k g : Z) : Z :=
  Z.lor b (u8 (Z.land (Z.shiftl g (k * 2)) (u8 (Z.shiftl 3 (k * 2))))).

Definition byte_check (b k k' g : Z) : bool :=
  (0 <=? cell_get b k) && (cell_get b k <? 4)
  && (0 <=? cell_clear b k) && (cell_clear b k <? 256)
  && (cell_get (cell_clear b k) k' =? (if k =? k' then 0 else cell_get b k'))
  && (0 <=? cell_set b k g) && (cell_set b k g <? 256)
  && (negb (cell_get b k =? 0)
      || (cell_get (cell_set b k g) k' =? (if k =? k' then g else cell_get b k'))).

Lemma byte_check_ok b k k' g :
  is_byte b -> 0 <= k < 4 -> 0 <= k' < 4 -> 0 <= g < 4 -> byte_check b k k' g = true.
Proof.
  intros Hb Hk Hk' Hg.
  assert (forallb (fun b => forallb (fun k => forallb (fun k' => forallb (byte_check b k k')
    (seqZ 0 4)) (seqZ 0 4)) (seqZ 0 4)) (seqZ 0 256) = true) as H by (vm_compute; reflexivity).
  assert (forall x n, 0 <= x < n -> In x (seqZ 0 n)) as Hin
    by (intros x n Hx; apply list_elem_of_In, elem_of_seqZ; lia).
  rewrite forallb_forall in H. specialize (H b (Hin b 256 Hb)).
  rewrite forallb_forall in H. specialize (H k (Hin k 4 Hk)).
  rewrite forallb_forall in H. specialize (H k' (Hin k' 4 Hk')).
  rewrite forallb_forall in H. exact (H g (Hin g 4 Hg)).
Qed.

Lemma byte_cells_spec b k k' g :
  is_byte b -> 0 <= k < 4 -> 0 <= k' < 4 -> 0 <= g < 4 ->
  0 <= cell_get b k < 4 /\ is_byte (cell_clear b k)
  /\ cell_get (cell_clear b k) k' = (if k =? k' then 0 else cell_get b k')
  /\ is_byte (cell_set b k g)
  /\ (cell_get b k = 0 -> cell_get (cell_set b k g) k' = if k =? k' then g else cell_get b k').
Proof.
  intros Hb Hk Hk' Hg. pose proof (byte_check_ok b k k' g Hb Hk Hk' Hg) as H. unfold byte_check in H.
  repeat (apply andb_prop in H as [H ?]). unfold is_byte.
  split; [lia|]. split; [lia|]. split; [by apply Z.eqb_eq|]. split; [lia|]. intros Hz.
  rewrite Hz in *. simpl in *. by apply Z.eqb_eq.
Qed.

(** ** Cells of the journal *)

Lemma cell_at_get mem i : 0 <= i -> cell_at mem i = cell_get (nth (Z.to_nat (i / 4)) mem 0) (i `mod` 4).
Proof. done. Qed.

Lemma mod4 i : 0 <= i `mod` 4 < 4.
Proof. apply Z.mod_pos_bound. lia. Qed.

Lemma div4_mod4_inj i k : 0 <= i -> 0 <= k -> Z.to_nat (i / 4) = Z.to_nat (k / 4) -> i `mod` 4 = k `mod` 4 -> i = k.
Proof.
  intros Hi Hk Hd Hm. pose proof (Z.div_mod i 4). pose proof (Z.div_mod k 4).
  assert (0 <= i / 4) by (apply Z.div_pos; lia). assert (0 <= k / 4) by (apply Z.div_pos; lia). lia.
Qed.

Lemma nth_alter_eq (f : Z -> Z) n l : (n < length l)%nat -> nth n (alter f n l) 0 = f (nth n l 0).
Proof.
  intros Hn. rewrite !nth_lookup, list_lookup_alter_eq. by destruct (lookup_lt_is_Some_2 l n Hn) as [x ->].
Qed.

Lemma nth_alter_ne (f : Z -> Z) n m l : n <> m -> nth m (alter f n l) 0 = nth m l 0.
Proof. intros Hn. by rewrite !nth_lookup, list_lookup_alter_ne. Qed.

Lemma nth_byte l n : Forall is_byte l -> is_byte (nth n l 0).
Proof.
  intros Hl. rewrite nth_lookup. destruct (l !! n) eqn:Hn; simpl; [by eapply Forall_lookup_1|done].
Qed.

Lemma Forall_alter_byte (f : Z -> Z) n l :
  (forall b, is_byte b -> is_byte (f b)) -> Forall is_byte l -> Forall is_byte (alter f n l).
Proof. intros Hf Hl. apply Forall_alter; [done|]. intros x _ Hx. by apply Hf. Qed.

Lemma cell_at_range mem i : Forall is_byte mem -> 0 <= i -> 0 <= cell_at mem i < 4.
Proof.
  intros Hm Hi. rewrite cell_at_get by done.
  destruct (byte_cells_spec (nth (Z.to_nat (i / 4)) mem 0) (i `mod` 4) 0 0) as [? _]; auto using nth_byte, mod4; lia.
Qed.

Lemma in_journal_byte j i :
  journal_wf j -> in_journal j i -> (Z.to_nat (i / 4) < length (j_mem j))%nat /\ (Z.to_nat (i / 4) < length (j_disk j))%nat.
Proof.
  intros [_ Hn Hm Hd _ _] Hi. unfold in_journal, mapLength in *.
  rewrite (u64_small (numJournalBlocks j * 2)), u64_small in Hm, Hd by lia.
  assert (i / 4 < (numJournalBlocks j * 2 + 7) / 8) by (Z.div_mod_to_equations; lia).
  assert (0 <= i / 4) by (apply Z.div_pos; lia). lia.
Qed.

Lemma markBlockBusy_cell j i k :
  journal_wf j -> in_journal j i -> 0 <= k ->
  loadBlockGen (markBlockBusy i j) k = if k =? i then 0 else loadBlockGen j k.
Proof.
  intros Hj Hi Hk. destruct (in_journal_byte j i Hj Hi) as [Hb _]. unfold loadBlockGen.
  rewrite !cell_at_get by done. unfold markBlockBusy, cellLocation. cbn [with_mem j_mem].
  destruct (decide (Z.to_nat (i / 4) = Z.to_nat (k / 4))) as [Heq|Hne].
  - rewrite <- Heq, nth_alter_eq by done. destruct (byte_cells_spec (nth (Z.to_nat (i / 4)) (j_mem j) 0) (i `mod` 4) (k `mod` 4) 0)
      as (_ & _ & H & _); [apply nth_byte, Hj|apply mod4..|lia|]. unfold cell_clear in H at 1. rewrite H.
    destruct (Z.eqb_spec (i `mod` 4) (k `mod` 4)) as [Hm|Hm].
    + assert (i = k) as -> by (apply div4_mod4_inj; unfold in_journal in Hi; (done || lia)). by rewrite Z.eqb_refl.
    + rewrite (proj2 (Z.eqb_neq k i)); [done|]. by intros ->.
  - rewrite nth_alter_ne by done. rewrite (proj2 (Z.eqb_neq k i)); [done|]. by intros ->.
Qed.

Lemma commitBlockGen_cell j i g k :
  journal_wf j -> in_journal j i -> 0 <= k -> 0 <= g < 4 -> loadBlockGen j i = 0 ->
  loadBlockGen (commitBlockGen i g j) k = if k =? i then g else loadBlockGen j k.
Proof.
  intros Hj Hi Hk Hg Hz. destruct (in_journal_byte j i Hj Hi) as [Hb _]. unfold loadBlockGen in *.
  rewrite !cell_at_get in * by (unfold in_journal in Hi; lia). unfold commitBlockGen, cellLocation. cbn [with_mem j_mem].
  destruct (decide (Z.to_nat (i / 4) = Z.to_nat (k / 4))) as [Heq|Hne].
  - rewrite <- Heq, nth_alter_eq by done. destruct (byte_cells_spec (nth (Z.to_nat (i / 4)) (j_mem j) 0) (i `mod` 4) (k `mod` 4) g)
      as (_ & _ & _ & _ & H); [apply nth_byte, Hj|apply mod4..|lia|]. specialize (H Hz). unfold cell_set in H at 1. rewrite H.
    destruct (Z.eqb_spec (i `mod` 4) (k `mod` 4)) as [Hm|Hm].
    + assert (i = k) as -> by (apply div4_mod4_inj; unfold in_journal in Hi; (done || lia)). by rewrite Z.eqb_refl.
    + rewrite (proj2 (Z.eqb_neq k i)); [done|]. by intros ->.
  - rewrite nth_alter_ne by done. rewrite (proj2 (Z.eqb_neq k i)); [done|]. by intros ->.
Qed.

Lemma with_mem_wf j mem :
  journal_wf j -> length mem = length (j_mem j) -> Forall is_byte mem -> journal_wf (with_mem j mem).
Proof. intros [? ? ? ? ? ?] Hl Hb. split; try done. cbn. by rewrite Hl. Qed.

Lemma markBlockBusy_wf i j : journal_wf j -> 0 <= i -> journal_wf (markBlockBusy i j).
Proof.
  intros Hj Hi. apply with_mem_wf; [done|by rewrite length_alter|]. apply Forall_alter_byte; [|apply Hj].
  intros b Hb. by apply (byte_cells_spec b (i `mod` 4) 0 0 Hb (mod4 i)).
Qed.

Lemma commitBlockGen_wf i g j : journal_wf j -> 0 <= i -> 0 <= g < 4 -> journal_wf (commitBlockGen i g j).
Proof.
  intros Hj Hi Hg. apply with_mem_wf; [done|by rewrite length_alter|]. apply Forall_alter_byte; [|apply Hj].
  intros b Hb. by apply (byte_cells_spec b (i `mod` 4) 0 g Hb (mod4 i)).
Qed.

Lemma nextGen_range g : 0 <= g < 4 -> 1 <= nextGen g <= 3 /\ nextGen g <> g.
Proof.
  intros Hg. unfold nextGen. assert (g = 0 \/ g = 1 \/ g = 2 \/ g = 3) as [->|[->|[->| ->]]] by lia; cbv; split; split || (intros [=]); congruence.
Qed.

(** Everything but the mapping. *)
Definition same_setup (j j' : Journal) : Prop :=
  j_disk j' = j_disk j /\ journalBlockSize j' = journalBlockSize j /\ targetOffset j' = targetOffset j
  /\ numJournalBlocks j' = numJournalBlocks j /\ journalSeed j' = journalSeed j
  /\ journalSyncEnabled j' = journalSyncEnabled j /\ lockRegionShift j' = lockRegionShift j
  /\ stripeSalt j' = stripeSalt j.

Lemma claim_cells_spec blocks j gens any j' :
  journal_wf j -> Forall (in_journal j) blocks -> NoDup blocks ->
  claim_cells blocks j = (gens, any, j') ->
  journal_wf j' /\ same_setup j j' /\ gens = (fun i => nextGen (loadBlockGen j i)) <$> blocks
  /\ any = existsb (fun i => negb (loadBlockGen j i =? 0)) blocks
  /\ (forall k, 0 <= k -> loadBlockGen j' k = if decide (k ∈ blocks) then 0 else loadBlockGen j k).
Proof.
  revert j gens any j'. induction blocks as [|i blocks IH]; intros j gens any j' Hj Hin Hnd Hclaim.
  { simpl in Hclaim. simplify_eq. by split_and!. }
  apply Forall_cons in Hin as [Hi Hin]. apply NoDup_cons in Hnd as [Hni Hnd]. cbn [claim_cells] in Hclaim.
  destruct (claim_cells blocks (markBlockBusy i j)) as [[gens1 any1] j1] eqn:Hc. simplify_eq.
  pose proof (markBlockBusy_wf i j Hj (proj1 Hi)) as Hj1.
  destruct (IH _ _ _ _ Hj1 Hin Hnd Hc) as (Hwf & Hsame & Hgens & Hany & Hcell).
  assert (forall k, k ∈ blocks -> loadBlockGen (markBlockBusy i j) k = loadBlockGen j k) as Hother.
  { intros k Hk. rewrite markBlockBusy_cell; [|done..|].
    - rewrite (proj2 (Z.eqb_neq k i)); [done|]. by intros ->.
    - rewrite Forall_forall in Hin. by apply Hin in Hk as [? _]. }
  split; [done|]. split; [done|]. split; [|split].
  - rewrite fmap_cons, Hgens. f_equal. apply list_fmap_ext. intros n k Hk. simpl.
    rewrite Hother; [done|]. by eapply list_elem_of_lookup_2.
  - rewrite Hany. simpl. f_equal.
    assert (forall l, (forall k, k ∈ l -> loadBlockGen (markBlockBusy i j) k = loadBlockGen j k) ->
      existsb (fun i0 => negb (loadBlockGen (markBlockBusy i j) i0 =? 0)) l
      = existsb (fun i0 => negb (loadBlockGen j i0 =? 0)) l) as Hex.
    { intros l. induction l as [|k l IHl]; intros Hl; [done|]. simpl. rewrite Hl by left. rewrite IHl; [done|].
      intros m Hm. apply Hl. by right. }
    by apply Hex.
  - intros k Hk. rewrite Hcell by done. rewrite markBlockBusy_cell by done.
    destruct (decide (k ∈ blocks)) as [Hb|Hb].
    + by rewrite decide_True by (by right).
    + destruct (Z.eqb_spec k i) as [->|Hne]; [by rewrite decide_True by left|].
      rewrite decide_False; [done|]. by intros [?|?]%elem_of_cons.
Qed.

Lemma commit_cells_spec blocks gens j :
  journal_wf j -> Forall (in_journal j) blocks -> NoDup blocks -> length gens = length blocks ->
  Forall (fun g => 0 <= g < 4) gens -> Forall (fun i => loadBlockGen j i = 0) blocks ->
  let j' := commit_cells blocks gens j in
  journal_wf j' /\ same_setup j j'
  /\ (forall n i g, blocks !! n = Some i -> gens !! n = Some g -> loadBlockGen j' i = g)
  /\ (forall k, 0 <= k -> k ∉ blocks -> loadBlockGen j' k = loadBlockGen j k).
Proof.
  revert gens j. induction blocks as [|i blocks IH]; intros gens j Hj Hin Hnd Hlen Hg Hz; cbn [commit_cells].
  { split_and!; try done. }
  destruct gens as [|g gens]; [done|]. apply Forall_cons in Hin as [Hi Hin]. apply NoDup_cons in Hnd as [Hni Hnd].
  apply Forall_cons in Hg as [Hg0 Hg]. apply Forall_cons in Hz as [Hz0 Hz].
  pose proof (commitBlockGen_wf i g j Hj (proj1 Hi) Hg0) as Hj1.
  assert (forall k, 0 <= k -> k <> i -> loadBlockGen (commitBlockGen i g j) k = loadBlockGen j k) as Hother.
  { intros k Hk Hne. rewrite commitBlockGen_cell by done. by rewrite (proj2 (Z.eqb_neq k i)). }
  destruct (IH gens (commitBlockGen i g j) Hj1 Hin Hnd) as (Hwf & Hsame & Hset & Hrest); [simpl in Hlen; lia|done|..].
  { rewrite Forall_forall in Hz, Hin |- *. intros k Hk. rewrite Hother; [by apply Hz|by apply Hin|]. by intros ->. }
  split; [done|]. split; [done|]. split.
  - intros [|n] k h Hk Hh; simpl in Hk, Hh.
    + simplify_eq. rewrite Hrest by (done || apply Hi). rewrite commitBlockGen_cell by (done || apply Hi).
      by rewrite Z.eqb_refl.
    + by eapply Hset.
  - intros k Hk Hnk. apply not_elem_of_cons in Hnk as [Hne Hnk]. rewrite Hrest by done. by apply Hother.
Qed.

(** *** What [msync] makes durable *)

Lemma nth_sync (a b x : nat) (disk mem : list Z) :
  length disk = length mem -> (a <= b)%nat -> (b <= length mem)%nat ->
  nth x (take a disk ++ take (b - a) (drop a mem) ++ drop b disk) 0
  = if decide (a <= x < b)%nat then nth x mem 0 else nth x disk 0.
Proof.
  intros Hl Hab Hb. rewrite !nth_lookup. f_equal. case_decide as Hx.
  - rewrite lookup_app_r by (rewrite length_take; lia).
    rewrite lookup_app_l by (rewrite length_take, length_take, length_drop; lia).
    rewrite length_take, lookup_take_lt by lia. rewrite lookup_drop.
    by replace (a + (x - a `min` length disk))%nat with x by lia.
  - destruct (decide (x < a)%nat).
    + rewrite lookup_app_l by (rewrite length_take; lia). by rewrite lookup_take_lt.
    + rewrite lookup_app_r by (rewrite length_take; lia).
      rewrite lookup_app_r by (rewrite !length_take, length_drop; lia).
      rewrite !length_take, length_drop, lookup_drop.
      by replace (b + (x - a `min` length disk - (b - a) `min` (length mem - a)))%nat with x by lia.
Qed.

Lemma syncRange_spec sys pageSize first num j :
  journal_wf j -> 0 < pageSize -> 0 <= first -> 0 < num -> first + num <= numJournalBlocks j ->
  journalSyncEnabled j = true -> sys Sys_msync = true ->
  exists j', syncRange sys pageSize first num j = Ok j' /\ journal_wf j' /\ j_mem j' = j_mem j
    /\ same_setup (with_disk j (j_disk j')) j'
    /\ (forall i, first <= i < first + num -> cell_at (j_disk j') i = cell_at (j_mem j) i)
    /\ (forall i, 0 <= i -> cell_at (j_disk j') i = cell_at (j_mem j) i \/ cell_at (j_disk j') i = cell_at (j_disk j) i).
Proof.
  intros Hj Hp Hf Hn Hend Hs Hok. pose proof Hj as [_ Hnum Hm Hd Hmb Hdb].
  unfold syncRange. rewrite Hs, Hok. cbn [negb check_sys mbind result_bind].
  rewrite (u64_small (first + num)), u64_small by lia.
  set (ps := first / 4 / pageSize * pageSize). set (eb := Z.min ((first + num + 3) / 4) (mapLength j)).
  assert (0 <= ps <= first / 4) as Hps.
  { unfold ps. assert (0 <= first / 4) by (apply Z.div_pos; lia). pose proof (Z.mul_div_le (first / 4) pageSize Hp).
    assert (0 <= first / 4 / pageSize) by (apply Z.div_pos; lia). nia. }
  assert (forall i, in_journal j i -> i / 4 < mapLength j) as Hbyte.
  { intros i Hi. destruct (in_journal_byte j i Hj Hi) as [Hb _]. assert (0 <= i / 4) by (apply Z.div_pos; unfold in_journal in Hi; lia). lia. }
  assert (ps <= eb <= mapLength j) as Heb.
  { specialize (Hbyte first ltac:(unfold in_journal; lia)). unfold eb.
    assert (first / 4 <= (first + num + 3) / 4) by (apply Z.div_le_mono; lia). lia. }
  eexists. split; [done|]. assert (forall x, nth x (j_disk (with_disk j (take (Z.to_nat ps) (j_disk j)
      ++ take (Z.to_nat eb - Z.to_nat ps) (drop (Z.to_nat ps) (j_mem j)) ++ drop (Z.to_nat eb) (j_disk j)))) 0
    = if decide (Z.to_nat ps <= x < Z.to_nat eb)%nat then nth x (j_mem j) 0 else nth x (j_disk j) 0) as Hnth.
  { intros x. cbn [with_disk j_disk]. apply nth_sync; lia. }
  split; [|split; [done|split; [by split_and!|split]]].
  - split; [apply Hj|apply Hj|apply Hj| |apply Hj|].
    + cbn [with_disk j_disk]. rewrite !length_app, !length_take, !length_drop. change (mapLength (with_disk j _)) with (mapLength j). lia.
    + cbn [with_disk j_disk]. apply Forall_app. split; [by apply Forall_take|].
      apply Forall_app. split; [by apply Forall_take, Forall_drop|by apply Forall_drop].
  - intros i Hi. rewrite !cell_at_get, Hnth by lia. rewrite decide_True; [done|].
    specialize (Hbyte i ltac:(unfold in_journal; lia)).
    assert (first / 4 <= i / 4) by (apply Z.div_le_mono; lia).
    assert (i / 4 < (first + num + 3) / 4) by (Z.div_mod_to_equations; lia).
    unfold eb. lia.
  - intros i Hi. rewrite !cell_at_get, Hnth by lia. case_decide; auto.
Qed.

(** *** Locks *)

Lemma try_lock_unlock ex s t t' : try_lock ex s t = Some t' -> unlock ex s t' = t.
Proof.
  unfold try_lock, unlock. intros H. apply map_eq. intros k. destruct (decide (k = s)) as [->|Hne].
  - rewrite lookup_partial_alter_eq. destruct (t !! s) as [[n|]|] eqn:Ht, ex; simplify_eq; rewrite lookup_insert_eq; try done.
    rewrite decide_False by lia. do 2 f_equal. lia.
  - rewrite lookup_partial_alter_ne by done.
    destruct (t !! s) as [[n|]|], ex; simplify_eq; by rewrite lookup_insert_ne.
Qed.

Lemma unlock_comm ex s s' t : unlock ex s (unlock ex s' t) = unlock ex s' (unlock ex s t).
Proof. destruct (decide (s = s')) as [->|Hne]; [done|]. by apply partial_alter_partial_alter_ne. Qed.

Definition unlock_all (ex : bool) (l : list Z) (t : lock_table) : lock_table :=
  foldl (fun t s => unlock ex s t) t l.

Lemma unlock_all_comm ex s l t : unlock ex s (unlock_all ex l t) = unlock_all ex l (unlock ex s t).
Proof. revert t. induction l as [|s' l IH]; intros t; simpl; [done|]. by rewrite IH, unlock_comm. Qed.

Lemma unlock_all_snoc ex l s t : unlock_all ex (l ++ [s]) t = unlock ex s (unlock_all ex l t).
Proof. unfold unlock_all. by rewrite foldl_app. Qed.

Lemma unlock_all_ne ex l s t : s ∉ l -> unlock_all ex l t !! s = t !! s.
Proof.
  revert t. induction l as [|s' l IH]; intros t Hs; [done|]. apply not_elem_of_cons in Hs as [Hne Hs].
  change (unlock_all ex (s' :: l) t) with (unlock_all ex l (unlock ex s' t)). rewrite IH by done.
  unfold unlock. by rewrite lookup_partial_alter_ne.
Qed.

Lemma try_lock_none ex s t : try_lock ex s t = None -> is_Some (t !! s).
Proof. unfold try_lock. destruct (t !! s) as [[n|]|], ex; try done; by eexists. Qed.

(** A failed attempt leaves no lock behind and found a stripe that another holder has; after a
    successful one the release gives the old table back. *)
Lemma try_locks_spec ex wanted held t t0 :
  unlock_all ex held t = t0 -> NoDup (held ++ wanted) ->
  let '(ok, g, t') := try_locks ex wanted (mkGuard held ex) t in
  guard_exclusive g = ex
  /\ if (ok : bool) then guard_locks g = held ++ wanted /\ unlock_all ex (guard_locks g) t' = t0
     else guard_locks g = [] /\ t' = t0 /\ Exists (fun s => is_Some (t0 !! s)) wanted.
Proof.
  revert held t. induction wanted as [|s wanted IH]; intros held t Hh Hnd; cbn [try_locks].
  { by rewrite app_nil_r. }
  destruct (try_lock ex s t) as [t1|] eqn:Hs.
  - cbn [guard_locks]. specialize (IH (held ++ [s]) t1). rewrite <- app_assoc in IH.
    destruct (try_locks _ _ _ _) as [[ok g] t']. destruct IH as [Hex IH]; [|done|].
    { rewrite unlock_all_snoc, unlock_all_comm. by rewrite (try_lock_unlock _ _ _ _ Hs). }
    split; [done|]. destruct ok; [done|]. destruct IH as (? & ? & ?). split_and!; auto.
  - cbn. split_and!; [done..|]. left. rewrite <- Hh, unlock_all_ne; [by eapply try_lock_none|].
    apply NoDup_app in Hnd as (_ & Hd & _). intros Hin. apply (Hd s Hin). left.
Qed.

Lemma range_stripes_NoDup j first num : NoDup (range_stripes j first num).
Proof.
  unfold range_stripes. case_match eqn:H; [|apply NoDup_singleton].
  apply negb_true_iff, Z.eqb_neq in H. apply NoDup_cons. split; [|apply NoDup_singleton].
  intros Hin%list_elem_of_singleton. lia.
Qed.

(** Some stripe of the range has a holder. *)
Definition range_contended (j : Journal) (first num : Z) (t : lock_table) : Prop :=
  Exists (fun s => is_Some (t !! s)) (range_stripes j first num).

Lemma acquireRange_spec j first num ex mayBlock t :
  match acquireRange j first num ex mayBlock t with
  | None => mayBlock = true /\ range_contended j first num t
  | Some (true, g, t') =>
      guard_exclusive g = ex /\ guard_locks g = range_stripes j first num
      /\ snd (guard_release g t') = t
  | Some (false, g, t') =>
      mayBlock = false /\ guard_locks g = [] /\ t' = t /\ range_contended j first num t
  end.
Proof.
  unfold acquireRange.
  pose proof (try_locks_spec ex (range_stripes j first num) [] t t eq_refl (range_stripes_NoDup j first num)) as H.
  destruct (try_locks _ _ _ _) as [[ok g] t']. destruct H as [Hex H].
  destruct mayBlock, ok; simpl; try done; destruct_and!; subst ex; done.
Qed.

(** *** The blocks of an I/O *)

Definition io_range_ok (j : Journal) (off len : Z) : Prop :=
  0 <= targetOffset j <= off /\ 0 < len /\ off + len < 2 ^ 63
  /\ (off - targetOffset j) `mod` journalBlockSize j = 0
  /\ off + len <= targetOffset j + numJournalBlocks j * journalBlockSize j
  /\ journalBlockSize j < 2 ^ 63.

Lemma io_blocks_in_journal j off len :
  journal_wf j -> io_range_ok j off len ->
  let base := offsetToBlockIndex j off in
  let num := ceil_blocks len (journalBlockSize j) in
  0 <= base /\ 0 < num /\ base + num <= numJournalBlocks j
  /\ Forall (in_journal j) (io_blocks base num).
Proof.
  intros Hj (Ho & Hl & Hb & Hal & Hend & Hbs'). pose proof (jw_bs j Hj) as Hbs. unfold offsetToBlockIndex, ceil_blocks.
  set (bs := journalBlockSize j) in *. u64_elim.
  assert (off - targetOffset j = bs * ((off - targetOffset j) / bs)) as Hq by (by apply Z_div_exact_full_2; lia).
  set (base := (off - targetOffset j) / bs) in *.
  pose proof (Z.div_mod (len + bs - 1) bs ltac:(lia)). pose proof (Z.mod_pos_bound (len + bs - 1) bs ltac:(lia)).
  set (num := (len + bs - 1) / bs) in *. assert (0 <= base) by (apply Z.div_pos; lia).
  assert (0 < num) by nia. assert (base + num <= numJournalBlocks j) by nia.
  split; [done|]. split; [done|]. split; [done|]. apply Forall_seqZ. unfold in_journal. lia.
Qed.

Lemma existsb_false_iff (f : Z -> bool) l : existsb f l = false <-> Forall (fun x => f x = false) l.
Proof.
  induction l as [|x l IH]; simpl; [split; [constructor|done]|].
  rewrite orb_false_iff, IH, Forall_cons. done.
Qed.

Section operations.
Context (sys : journal_syscall -> bool) (pageSize : Z).
Hypothesis msync_ok : sys Sys_msync = true.
Hypothesis page_pos : 0 < pageSize.

(** The state that a claimed write leaves behind. *)
Definition claimed (j j' : Journal) (blocks gens : list Z) : Prop :=
  journal_wf j' /\ numJournalBlocks j' = numJournalBlocks j /\ journalBlockSize j' = journalBlockSize j
  /\ targetOffset j' = targetOffset j /\ journalSyncEnabled j' = journalSyncEnabled j
  /\ gens = (fun i => nextGen (loadBlockGen j i)) <$> blocks
  /\ (forall k, 0 <= k -> loadBlockGen j' k = if decide (k ∈ blocks) then 0 else loadBlockGen j k)
  /\ (journalSyncEnabled j = true -> durable_zeros j ->
      durable_zeros j' /\ Forall (fun i => cell_at (j_disk j') i = 0) blocks).

Lemma claim_then_sync j base num gens any j1 :
  journal_wf j -> 0 <= base -> 0 < num -> base + num <= numJournalBlocks j ->
  claim_cells (io_blocks base num) j = (gens, any, j1) ->
  exists j', (if any then syncRange sys pageSize base num j1 else Ok j1) = Ok j'
    /\ claimed j j' (io_blocks base num) gens.
Proof.
  intros Hj Hb Hn Hend Hc. assert (Forall (in_journal j) (io_blocks base num)) as Hin
    by (apply Forall_seqZ; unfold in_journal; lia).
  assert (NoDup (io_blocks base num)) as Hnd by apply NoDup_seqZ.
  destruct (claim_cells_spec _ _ _ _ _ Hj Hin Hnd Hc) as (Hj1 & (Hdisk & Hbs & Hto & Hnum & _ & Hsync & _) & Hgens & Hany & Hcell).
  assert (forall i, i ∈ io_blocks base num -> cell_at (j_mem j1) i = 0) as Hzero.
  { intros i Hi. specialize (Hcell i). unfold loadBlockGen in Hcell. rewrite Hcell, decide_True; [done..|].
    apply elem_of_seqZ in Hi. lia. }
  destruct (decide (any = true /\ journalSyncEnabled j = true)) as [[Ha Hs]|Hno].
  - rewrite Ha. destruct (syncRange_spec sys pageSize base num j1) as (j' & -> & Hj' & Hmem & Hsame & Hin' & Hor);
      [done..|by rewrite Hnum|by rewrite Hsync|done|].
    destruct Hsame as (_ & Hbs' & Hto' & Hnum' & _ & Hsync' & _). cbn in Hbs', Hto', Hnum', Hsync'.
    exists j'. split; [done|]. split; [done|]. split_and!; [congruence..|exact Hgens| |].
    + intros k Hk. rewrite <- Hcell by done. unfold loadBlockGen. by rewrite Hmem.
    + intros _ Hdz. split.
      * intros i Hi Hz. rewrite Hmem in Hz. destruct (decide (i ∈ io_blocks base num)) as [Hb'|Hb'].
        -- rewrite Hin' by (apply elem_of_seqZ in Hb'; lia). done.
        -- destruct (Hor i (proj1 Hi)) as [-> | ->]; [done|]. rewrite Hdisk. apply Hdz.
           { unfold in_journal in *. by rewrite <- Hnum, <- Hnum'. }
           specialize (Hcell i (proj1 Hi)). unfold loadBlockGen in Hcell. rewrite decide_False in Hcell by done. congruence.
      * apply Forall_forall. intros i Hi. rewrite Hin' by (apply elem_of_seqZ in Hi; lia). by apply Hzero.
  - exists j1. split.
    { destruct any; [|done]. unfold syncRange. rewrite Hsync. destruct (journalSyncEnabled j); [|done]. exfalso. by apply Hno. }
    split; [done|]. split_and!; [congruence..|exact Hgens|exact Hcell|].
    intros Hs Hdz. assert (any = false) as Ha by (destruct any; [|done]; exfalso; by apply Hno).
    rewrite Ha in Hany. symmetry in Hany. apply existsb_false_iff in Hany. rewrite Forall_forall in Hany.
    assert (forall i, i ∈ io_blocks base num -> loadBlockGen j i = 0) as Hold.
    { intros i Hi. specialize (Hany i Hi). destruct (Z.eqb_spec (loadBlockGen j i) 0); done. }
    rewrite Forall_forall in Hin. split.
    + intros i Hi Hz. rewrite Hdisk. apply Hdz; [unfold in_journal in *; by rewrite <- Hnum|].
      specialize (Hcell i (proj1 Hi)). unfold loadBlockGen in *. case_decide; [by apply Hold|congruence].
    + apply Forall_forall. intros i Hi. rewrite Hdisk. apply Hdz; [by apply Hin|by apply Hold].
Qed.

Lemma claimForWrite_spec mayBlock io j t :
  journal_wf j -> 0 <= baseBlockIdx io -> 0 < io_numBlocks io ->
  baseBlockIdx io + io_numBlocks io <= numJournalBlocks j ->
  match claimForWrite sys pageSize mayBlock io j t with
  | None => mayBlock = true /\ range_contended j (baseBlockIdx io) (io_numBlocks io) t
  | Some (Throw _) => False
  | Some (Ok (true, io', j', t')) =>
      baseBlockIdx io' = baseBlockIdx io /\ io_numBlocks io' = io_numBlocks io
      /\ io_action io' = ACTION_WRITE /\ guard_exclusive (io_guard io') = true
      /\ guard_locks (io_guard io') = range_stripes j (baseBlockIdx io) (io_numBlocks io)
      /\ snd (guard_release (io_guard io') t') = t
      /\ claimed j j' (io_blocks (baseBlockIdx io) (io_numBlocks io)) (io_gens io')
  | Some (Ok (false, io', j', t')) =>
      mayBlock = false /\ guard_locks (io_guard io') = [] /\ j' = j /\ t' = t
      /\ range_contended j (baseBlockIdx io) (io_numBlocks io) t
  end.
Proof.
  intros Hj Hb Hn Hend. unfold claimForWrite.
  pose proof (acquireRange_spec j (baseBlockIdx io) (io_numBlocks io) true mayBlock t) as Hacq.
  destruct (acquireRange _ _ _ _ _ _) as [[[ok g] t1]|]; [|done].
  cbn [mbind option_bind baseBlockIdx io_numBlocks]. destruct ok; cbn [negb]; [|cbn; tauto].
  destruct (claim_cells (io_blocks (baseBlockIdx io) (io_numBlocks io)) j) as [[gens any] j1] eqn:Hc.
  destruct (claim_then_sync _ _ _ _ _ _ Hj Hb Hn Hend Hc) as (j' & -> & Hcl). cbn. tauto.
Qed.

(** What [begin()] may answer, on every path: [io'], [j'] and [t'] are its results. *)
Definition begin_post (intent : Intent) (mayBlock : bool) (base num : Z) (j : Journal) (t : lock_table)
    (action : Action) (io' : JournalBlockIO) (j' : Journal) (t' : lock_table) : Prop :=
  let blocks := io_blocks base num in
  match action with
  | ACTION_DEFER =>
      mayBlock = false /\ guard_locks (io_guard io') = [] /\ j' = j /\ t' = t
      /\ range_contended j base num t
  | ACTION_SKIP =>
      intent = INTENT_READ_SKIP_UNINIT /\ Forall (fun i => loadBlockGen j i = 0) blocks
      /\ guard_locks (io_guard io') = [] /\ j' = j /\ t' = t
  | ACTION_READ =>
      intent <> INTENT_WRITE
      /\ (intent = INTENT_READ_OR_INIT -> Forall (fun i => loadBlockGen j i <> 0) blocks)
      /\ Exists (fun i => loadBlockGen j i <> 0) blocks
      /\ io_action io' = ACTION_READ /\ io_gens io' = loadBlockGen j <$> blocks
      /\ guard_exclusive (io_guard io') = false
      /\ guard_locks (io_guard io') = range_stripes j base num
      /\ snd (guard_release (io_guard io') t') = t /\ j' = j
  | ACTION_WRITE =>
      (intent = INTENT_WRITE
       \/ intent = INTENT_READ_OR_INIT /\ Exists (fun i => loadBlockGen j i = 0) blocks)
      /\ baseBlockIdx io' = base /\ io_numBlocks io' = num
      /\ io_action io' = ACTION_WRITE /\ guard_exclusive (io_guard io') = true
      /\ guard_locks (io_guard io') = range_stripes j base num
      /\ snd (guard_release (io_guard io') t') = t
      /\ claimed j j' blocks (io_gens io')
  end.

Lemma claim_action_spec intent mayBlock io j t :
  journal_wf j -> 0 <= baseBlockIdx io -> 0 < io_numBlocks io ->
  baseBlockIdx io + io_numBlocks io <= numJournalBlocks j ->
  intent = INTENT_WRITE
  \/ intent = INTENT_READ_OR_INIT
     /\ Exists (fun i => loadBlockGen j i = 0) (io_blocks (baseBlockIdx io) (io_numBlocks io)) ->
  match claim_action (claimForWrite sys pageSize mayBlock io j t) with
  | None => mayBlock = true /\ range_contended j (baseBlockIdx io) (io_numBlocks io) t
  | Some (Throw _) => False
  | Some (Ok (action, io', j', t')) =>
      begin_post intent mayBlock (baseBlockIdx io) (io_numBlocks io) j t action io' j' t'
  end.
Proof.
  intros Hj Hb Hn Hend Hi. pose proof (claimForWrite_spec mayBlock io j t Hj Hb Hn Hend) as H.
  unfold claim_action. destruct (claimForWrite _ _ _ _ _ _) as [[[[[ok io'] j'] t']|e]|]; cbn; try done.
  destruct ok; [|done]. destruct H as (H1 & H2 & H3 & H4). rewrite H3. by cbn.
Qed.

Lemma begin_spec off len intent mayBlock io j t :
  journal_wf j -> io_range_ok j off len ->
  match JournalBlockIO_begin sys pageSize off len intent mayBlock io j t with
  | None =>
      mayBlock = true
      /\ range_contended j (offsetToBlockIndex j off) (ceil_blocks len (journalBlockSize j)) t
  | Some (Throw _) => False
  | Some (Ok (action, io', j', t')) =>
      begin_post intent mayBlock (offsetToBlockIndex j off) (ceil_blocks len (journalBlockSize j))
        j t action io' j' t'
  end.
Proof.
  intros Hj Hr. destruct (io_blocks_in_journal j off len Hj Hr) as (Hb & Hn & Hend & Hin).
  unfold JournalBlockIO_begin. set (base := offsetToBlockIndex j off) in *.
  set (num := ceil_blocks len (journalBlockSize j)) in *.
  set (gens := loadBlockGen j <$> io_blocks base num).
  assert (existsb (fun g => g =? 0) gens = false -> Forall (fun i => loadBlockGen j i <> 0) (io_blocks base num)) as Hnone.
  { intros H. apply existsb_false_iff, Forall_fmap in H. eapply Forall_impl; [exact H|]. intros i Hi. by apply Z.eqb_neq. }
  assert (existsb (fun g => g =? 0) gens = true -> Exists (fun i => loadBlockGen j i = 0) (io_blocks base num)) as Hsome.
  { intros H. apply existsb_exists in H as (g & Hg & H0). apply list_elem_of_In, list_elem_of_fmap in Hg as (i & -> & Hi).
    apply Exists_exists. exists i. split; [done|]. by apply Z.eqb_eq. }
  assert (forallb (fun g => g =? 0) gens = true -> Forall (fun i => loadBlockGen j i = 0) (io_blocks base num)) as Hall.
  { intros H. rewrite forallb_forall in H. apply Forall_forall. intros i Hi.
    specialize (H (loadBlockGen j i)). apply Z.eqb_eq, H, list_elem_of_In, list_elem_of_fmap. by exists i. }
  assert (forallb (fun g => g =? 0) gens = false -> Exists (fun i => loadBlockGen j i <> 0) (io_blocks base num)) as Hnotall.
  { intros H. destruct (decide (Exists (fun i => loadBlockGen j i <> 0) (io_blocks base num))) as [?|Hn0]; [done|].
    apply not_Exists_Forall in Hn0; [|intros ?; apply _]. rewrite <- not_true_iff_false in H. contradict H.
    apply forallb_forall. intros g Hg. apply list_elem_of_In, list_elem_of_fmap in Hg as (i & -> & Hi).
    rewrite Forall_forall in Hn0. specialize (Hn0 i Hi). cbn beta in Hn0. apply Z.eqb_eq. by destruct (decide (loadBlockGen j i = 0)). }
  assert (Forall (fun i => loadBlockGen j i <> 0) (io_blocks base num) ->
          Exists (fun i => loadBlockGen j i <> 0) (io_blocks base num)) as Hfe.
  { intros H. apply Exists_exists. exists base. rewrite Forall_forall in H.
    assert (base ∈ io_blocks base num) by (apply elem_of_seqZ; lia). auto. }
  destruct intent; [by apply (claim_action_spec INTENT_WRITE _ (mkBlockIO _ _ _ _ _)); auto| |].
  - pose proof (acquireRange_spec j base num false mayBlock t) as Hacq.
    destruct (acquireRange _ _ _ _ _ _) as [[[ok g] t1]|]; [|done]. cbn [mbind option_bind].
    destruct ok; cbn [negb]; [|cbn; tauto]. destruct Hacq as (Hex & Hlocks & Hrel).
    destruct (existsb _ _) eqn:Hany; cbn [negb].
    2:{ cbn. split_and!; auto. }
    destruct (forallb _ _) eqn:Hal.
    + unfold guard_release in *. cbn in *. split_and!; auto.
    + cbn. split_and!; auto. done.
  - pose proof (acquireRange_spec j base num false mayBlock t) as Hacq.
    destruct (acquireRange _ _ _ _ _ _) as [[[ok g] t1]|]; [|done]. cbn [mbind option_bind].
    destruct ok; cbn [negb]; [|cbn; tauto]. destruct Hacq as (Hex & Hlocks & Hrel).
    destruct (existsb _ _) eqn:Hany; cbn [negb].
    2:{ cbn. split_and!; auto. }
    destruct (guard_release g t1) as [g' t2] eqn:Hg. cbn in Hrel. subst t2.
    apply (claim_action_spec INTENT_READ_OR_INIT _ (mkBlockIO _ _ _ _ _)); auto.
Qed.
(** Completing a write whose blocks are still cleared. *)
Lemma commit_spec io j t :
  journal_wf j -> 0 <= baseBlockIdx io -> 0 < io_numBlocks io ->
  baseBlockIdx io + io_numBlocks io <= numJournalBlocks j -> io_action io = ACTION_WRITE ->
  let blocks := io_blocks (baseBlockIdx io) (io_numBlocks io) in
  length (io_gens io) = length blocks -> Forall (fun g => 0 < g < 4) (io_gens io) ->
  Forall (fun i => loadBlockGen j i = 0) blocks ->
  exists io' j', JournalBlockIO_commit sys pageSize io j t = Ok (io', j', snd (guard_release (io_guard io) t))
    /\ guard_locks (io_guard io') = [] /\ journal_wf j' /\ numJournalBlocks j' = numJournalBlocks j
    /\ (forall n i g, blocks !! n = Some i -> io_gens io !! n = Some g -> loadBlockGen j' i = g)
    /\ (forall k, 0 <= k -> k ∉ blocks -> loadBlockGen j' k = loadBlockGen j k)
    /\ (journalSyncEnabled j = true ->
        Forall (fun i => cell_at (j_disk j') i = loadBlockGen j' i) blocks
        /\ (durable_zeros j -> durable_zeros j')).
Proof.
  intros Hj Hb Hn Hend Ha blocks Hlen Hg Hz. set (j1 := commit_cells blocks (io_gens io) j).
  destruct (commit_cells_spec blocks (io_gens io) j Hj) as (Hj1 & Hsame & Hset & Hother); [|apply NoDup_seqZ|done|..|done|].
  { apply Forall_seqZ. unfold in_journal. lia. }
  { eapply Forall_impl; [exact Hg|]. intros g Hg0; cbn beta in Hg0 |- *; lia. }
  fold j1 in Hj1, Hsame, Hset, Hother. destruct Hsame as (Hd & _ & _ & Hnum & _ & Hs & _).
  assert (durable_zeros j -> forall i, in_journal j i -> cell_at (j_mem j1) i = 0 -> cell_at (j_disk j) i = 0) as Hdz.
  { intros Hdz i Hi H0. apply Hdz; [done|]. destruct (decide (i ∈ blocks)) as [Hib|Hib].
    - rewrite Forall_forall in Hz. by apply Hz.
    - pose proof (Hother i (proj1 Hi) Hib) as Ho. unfold loadBlockGen in Ho. congruence. }
  assert (exists j', syncRange sys pageSize (baseBlockIdx io) (io_numBlocks io) j1 = Ok j' /\ journal_wf j'
    /\ numJournalBlocks j' = numJournalBlocks j /\ j_mem j' = j_mem j1
    /\ (journalSyncEnabled j = true -> Forall (fun i => cell_at (j_disk j') i = loadBlockGen j' i) blocks
         /\ (durable_zeros j -> durable_zeros j'))) as (j' & Hsync & Hj' & Hnum' & Hmem & Hdur).
  { destruct (journalSyncEnabled j) eqn:Hse.
    - destruct (syncRange_spec sys pageSize (baseBlockIdx io) (io_numBlocks io) j1)
        as (j' & -> & Hj' & Hmem & Hsame & Hin & Hor); [done..|congruence|congruence|done|].
      destruct Hsame as (_ & _ & _ & Hn' & _). cbn in Hn'. exists j'. split_and!; [done|done|congruence|done|]. intros _. split.
      + apply Forall_seqZ. intros i Hi. unfold loadBlockGen. rewrite Hmem. apply Hin. lia.
      + intros H i Hi H0. rewrite Hmem in H0. destruct (Hor i (proj1 Hi)) as [-> | ->]; [done|].
        rewrite Hd. apply Hdz; [done| |done]. unfold in_journal in *. by rewrite <- Hnum, <- Hn'.
    - exists j1. split_and!; [|done|done|done|done]. unfold syncRange. by rewrite Hs. }
  assert (forall i, loadBlockGen j' i = loadBlockGen j1 i) as Hl by (intros i; unfold loadBlockGen; by rewrite Hmem).
  exists (mkBlockIO (baseBlockIdx io) (io_numBlocks io) (io_action io) (io_gens io) (mkGuard [] (guard_exclusive (io_guard io)))), j'.
  unfold JournalBlockIO_commit. rewrite Ha. fold blocks. fold j1. rewrite Hsync. cbn -[loadBlockGen].
  split_and!; try done.
  - intros n i g Hi Hgn. rewrite Hl. by eapply Hset.
  - intros k Hk Hnk. rewrite Hl. by apply Hother.
Qed.

Lemma claimed_committable j j1 base num gens :
  journal_wf j -> 0 <= base -> claimed j j1 (io_blocks base num) gens ->
  length gens = length (io_blocks base num) /\ Forall (fun g => 0 < g < 4) gens
  /\ Forall (fun i => loadBlockGen j1 i = 0) (io_blocks base num).
Proof.
  intros Hj Hb (_ & _ & _ & _ & _ & -> & Hcell & _). split; [by rewrite length_fmap|]. split.
  - apply Forall_fmap, Forall_seqZ. intros i Hi. cbn -[loadBlockGen].
    destruct (nextGen_range (loadBlockGen j i)); [|lia]. apply cell_at_range; [apply Hj|lia].
  - apply Forall_seqZ. intros i Hi. rewrite Hcell by lia. rewrite decide_True; [done|]. apply elem_of_seqZ. lia.
Qed.

(** A whole write: [begin()], the data write, [commit()]. *)
Lemma write_cycle off len mayBlock io j t io1 j1 t1 :
  journal_wf j -> io_range_ok j off len ->
  JournalBlockIO_begin sys pageSize off len INTENT_WRITE mayBlock io j t = Some (Ok (ACTION_WRITE, io1, j1, t1)) ->
  let blocks := io_blocks (offsetToBlockIndex j off) (ceil_blocks len (journalBlockSize j)) in
  Forall (fun i => loadBlockGen j1 i = 0) blocks
  /\ snd (JournalBlockIO_release io1 t1) = t
  /\ exists io2 j2, JournalBlockIO_commit sys pageSize io1 j1 t1 = Ok (io2, j2, t)
    /\ journal_wf j2
    /\ (forall k, 0 <= k -> loadBlockGen j2 k = if decide (k ∈ blocks) then nextGen (loadBlockGen j k) else loadBlockGen j k)
    /\ (journalSyncEnabled j = true -> durable_zeros j ->
        Forall (fun i => cell_at (j_disk j1) i = 0) blocks
        /\ Forall (fun i => cell_at (j_disk j2) i = loadBlockGen j2 i) blocks
        /\ durable_zeros j1 /\ durable_zeros j2).
Proof.
  intros Hj Hr Hbeg blocks. destruct (io_blocks_in_journal j off len Hj Hr) as (Hb & Hn & Hend & _).
  pose proof (begin_spec off len INTENT_WRITE mayBlock io j t Hj Hr) as H. rewrite Hbeg in H.
  destruct H as (_ & Hb1 & Hn1 & Ha & _ & _ & Hrel & Hcl).
  destruct (claimed_committable _ _ _ _ _ Hj Hb Hcl) as (Hlen & Hg & Hz).
  destruct Hcl as (Hj1 & Hnum & _ & _ & Hse & Hgens & Hcell & Hdz). fold blocks in Hlen, Hz, Hgens, Hcell, Hdz.
  split; [done|]. split. { unfold JournalBlockIO_release. by destruct (guard_release _ _). }
  destruct (commit_spec io1 j1 t1) as (io2 & j2 & Hc & _ & Hj2 & Hn2 & Hset & Hother & Hdur);
    rewrite ?Hb1, ?Hn1, ?Hnum; [done..|]. rewrite Hb1, Hn1, Hrel in *. fold blocks in Hset, Hother, Hdur.
  exists io2, j2. split; [done|]. split; [done|]. split.
  - intros k Hk. case_decide as Hkb.
    + apply list_elem_of_lookup in Hkb as [n Hk1]. eapply Hset; [done|]. rewrite Hgens, list_lookup_fmap, Hk1. done.
    + rewrite Hother, Hcell by done. by rewrite decide_False.
  - intros Hs Hz0. destruct (Hdz Hs Hz0) as [Hz1 Hzb]. destruct Hdur as [Hd2 Hz2]; [congruence|]. auto.
Qed.
End operations.

(** ** Lock regions *)

Lemma region_shift_spec fuel shift maxBlocks :
  0 <= shift -> shift + Z.of_nat fuel <= 63 -> maxBlocks <= 2 ^ (shift + Z.of_nat fuel) ->
  exists s, region_shift fuel shift maxBlocks = Some s /\ shift <= s <= 63 /\ maxBlocks <= 2 ^ s.
Proof.
  revert shift. induction fuel as [|fuel IH]; intros shift Hs Hf Hm; cbn [region_shift];
    rewrite Z.shiftl_mul_pow2, Z.mul_1_l by lia;
    assert (2 ^ shift <= 2 ^ 63) by (apply Z.pow_le_mono_r; lia);
    assert (0 < 2 ^ shift) by (apply Z.pow_pos_nonneg; lia); rewrite u64_small by lia.
  - rewrite Z.add_0_r in Hm. destruct (Z.ltb_spec (2 ^ shift) maxBlocks); [lia|]. exists shift. split_and!; (done || lia).
  - destruct (Z.ltb_spec (2 ^ shift) maxBlocks).
    + destruct (IH (shift + 1)) as (s & -> & ? & ?); [lia|lia| |].
      { by replace (shift + 1 + Z.of_nat fuel) with (shift + Z.of_nat (S fuel)) by lia. }
      exists s. split_and!; (done || lia).
    + exists shift. split_and!; (done || lia).
Qed.

Lemma region_shift_fuel fuel fuel' shift maxBlocks s :
  region_shift fuel shift maxBlocks = Some s -> (fuel <= fuel')%nat -> region_shift fuel' shift maxBlocks = Some s.
Proof.
  revert fuel' shift. induction fuel as [|fuel IH]; intros [|fuel'] shift H Hle; cbn [region_shift] in *;
    destruct (_ <? _); try done; try lia. apply IH; [done|lia].
Qed.

(** Blocks that are less than a region apart lie in at most two regions. *)
Lemma shiftr_two_regions s first i last :
  0 <= s -> 0 <= first <= i -> i <= last -> last - first < 2 ^ s ->
  Z.shiftr i s = Z.shiftr first s \/ Z.shiftr i s = Z.shiftr last s.
Proof.
  intros Hs Hf Hi Hl. rewrite !Z.shiftr_div_pow2 by lia. assert (0 < 2 ^ s) by (apply Z.pow_pos_nonneg; lia).
  assert (first / 2 ^ s <= i / 2 ^ s) by (apply Z.div_le_mono; lia).
  assert (i / 2 ^ s <= last / 2 ^ s) by (apply Z.div_le_mono; lia).
  assert (last / 2 ^ s <= first / 2 ^ s + 1); [|lia].
  rewrite <- Z.div_add by lia. apply Z.div_le_mono; lia.
Qed.

Lemma range_stripes_In j first num :
  0 <= first -> 0 < num -> first + num < 2 ^ 63 ->
  blockIndexToStripe j first ∈ range_stripes j first num
  /\ blockIndexToStripe j (first + num - 1) ∈ range_stripes j first num.
Proof.
  intros Hf Hn Hb. unfold range_stripes. rewrite (u64_small (first + num)), u64_small by lia.
  set (a := blockIndexToStripe j first). set (b := blockIndexToStripe j (first + num - 1)).
  destruct (Z.eqb_spec a b) as [->|Hne]; cbn [negb].
  - rewrite Z.min_id. split; left.
  - destruct (Z.le_ge_cases a b); [rewrite Z.min_l, Z.max_r by lia|rewrite Z.min_r, Z.max_l by lia];
      split; (by left) || (by right; left).
Qed.

Lemma initRunOptions_stripes maxIOSize sync j :
  0 < journalBlockSize j -> 0 < maxIOSize -> maxIOSize + journalBlockSize j <= 2 ^ 63 ->
  exists j', initRunOptions maxIOSize sync j = Some j' /\ journalSyncEnabled j' = sync
    /\ 0 <= lockRegionShift j' <= 63 /\ journalBlockSize j' = journalBlockSize j
    /\ forall first num i, 0 <= first -> 0 < num <= ceil_blocks maxIOSize (journalBlockSize j) ->
       first + num < 2 ^ 63 -> first <= i < first + num ->
       blockIndexToStripe j' i ∈ range_stripes j' first num.
Proof.
  intros Hbs Hm Hb. unfold initRunOptions. set (maxBlocks := ceil_blocks maxIOSize (journalBlockSize j)).
  assert (maxBlocks <= 2 ^ 63) as Hmax.
  { unfold maxBlocks, ceil_blocks. u64_elim. apply Z.div_le_upper_bound; nia. }
  destruct (region_shift_spec 63 0 maxBlocks) as (s & Hs & Hrange & Hle); [lia|lia|done|].
  rewrite (region_shift_fuel 63 64 _ _ _ Hs) by lia. eexists. split; [done|]. cbn.
  split; [done|]. split; [done|]. split; [done|].
  intros first num i Hf Hn Hend Hi.
  match goal with |- context [range_stripes ?jj _ _] => set (j' := jj) end.
  destruct (range_stripes_In j' first num) as [Ha Hz]; [lia..|].
  destruct (shiftr_two_regions s first i (first + num - 1)) as [E|E]; [lia..| |].
  - assert (blockIndexToStripe j' i = blockIndexToStripe j' first) as -> by (unfold blockIndexToStripe; cbn; by rewrite E). done.
  - assert (blockIndexToStripe j' i = blockIndexToStripe j' (first + num - 1)) as ->
      by (unfold blockIndexToStripe; cbn; by rewrite E). done.
Qed.

(** Two I/Os that share a block want a common stripe. *)
Lemma overlapping_ranges_share_stripe maxIOSize sync j j' first1 num1 first2 num2 i :
  0 < journalBlockSize j -> 0 < maxIOSize -> maxIOSize + journalBlockSize j <= 2 ^ 63 ->
  initRunOptions maxIOSize sync j = Some j' ->
  0 <= first1 -> 0 < num1 <= ceil_blocks maxIOSize (journalBlockSize j) -> first1 + num1 < 2 ^ 63 ->
  0 <= first2 -> 0 < num2 <= ceil_blocks maxIOSize (journalBlockSize j) -> first2 + num2 < 2 ^ 63 ->
  first1 <= i < first1 + num1 -> first2 <= i < first2 + num2 ->
  exists s, s ∈ range_stripes j' first1 num1 /\ s ∈ range_stripes j' first2 num2.
Proof.
  intros Hbs Hm Hb Hinit ? ? ? ? ? ? ? ?.
  destruct (initRunOptions_stripes maxIOSize sync j Hbs Hm Hb) as (j2 & Hinit2 & _ & _ & _ & Hst).
  rewrite Hinit in Hinit2. injection Hinit2 as <-. exists (blockIndexToStripe j' i). split; apply Hst; lia.
Qed.

(** ** Counting verifiable blocks *)

Lemma popcount_split (m n : nat) x y :
  0 <= x < 2 ^ Z.of_nat m -> popcount (m + n) (x + 2 ^ Z.of_nat m * y) = popcount m x + popcount n y.
Proof.
  revert x. induction m as [|m IH]; intros x Hx.
  { cbn [Nat.add popcount]. change (2 ^ Z.of_nat 0) with 1 in *. assert (x = 0) as -> by lia. by rewrite Z.mul_1_l, !Z.add_0_l. }
  cbn [popcount Nat.add]. rewrite Nat2Z.inj_succ, Z.pow_succ_r in * by lia.
  assert (Z.odd (x + 2 * 2 ^ Z.of_nat m * y) = Z.odd x) as ->.
  { replace (x + 2 * 2 ^ Z.of_nat m * y) with (x + 2 * (2 ^ Z.of_nat m * y)) by lia. by rewrite Z.odd_add_mul_2. }
  assert (Z.div2 (x + 2 * 2 ^ Z.of_nat m * y) = Z.div2 x + 2 ^ Z.of_nat m * y) as ->.
  { rewrite !Z.div2_div. replace (x + 2 * 2 ^ Z.of_nat m * y) with (x + (2 ^ Z.of_nat m * y) * 2) by lia.
    by rewrite Z.div_add by lia. }
  rewrite IH; [lia|]. rewrite Z.div2_div. split; [apply Z.div_pos; lia|apply Z.div_lt_upper_bound; lia].
Qed.

Lemma testbit_cons b w i :
  is_byte b -> 0 <= i -> Z.testbit (b + 256 * w) i = if i <? 8 then Z.testbit b i else Z.testbit w (i - 8).
Proof.
  intros Hb Hi. unfold is_byte in Hb. change 256 with (2 ^ 8) in *. destruct (Z.ltb_spec i 8).
  - rewrite <- (Z.mod_pow2_bits_low (b + 2 ^ 8 * w) 8 i) by lia.
    by rewrite Z.mul_comm, Z_mod_plus_full, Z.mod_small.
  - pose proof (Z.div_pow2_bits (b + 2 ^ 8 * w) 8 (i - 8) ltac:(lia) ltac:(lia)) as H8.
    rewrite Z.sub_add in H8. by rewrite <- H8, Z.mul_comm, Z.div_add, Z.div_small by lia.
Qed.

Definition cells_mask (bytes : list Z) : Z := le_word (replicate (length bytes) 0x55).
Definition nonzero_cells (w mask : Z) : Z := Z.land (Z.lor w (Z.shiftr w 1)) mask.

Lemma nonzero_cells_byte b : is_byte b -> is_byte (nonzero_cells b 0x55).
Proof.
  intros Hb. assert (forallb (fun b => (0 <=? nonzero_cells b 0x55) && (nonzero_cells b 0x55 <? 256)) (seqZ 0 256) = true) as H
    by (vm_compute; reflexivity). rewrite forallb_forall in H. specialize (H b).
  unfold is_byte in *. rewrite <- list_elem_of_In, elem_of_seqZ in H. lia.
Qed.

Lemma nonzero_cells_cons b w m :
  is_byte b -> 0 <= w -> 0 <= m ->
  nonzero_cells (b + 256 * w) (0x55 + 256 * m) = nonzero_cells b 0x55 + 256 * nonzero_cells w m.
Proof.
  intros Hb Hw Hm. apply Z.bits_inj'. intros i Hi. rewrite testbit_cons by (auto using nonzero_cells_byte).
  unfold nonzero_cells. rewrite Z.land_spec, Z.lor_spec, Z.shiftr_spec by done.
  rewrite !testbit_cons by (done || lia). destruct (Z.ltb_spec i 8).
  - rewrite Z.land_spec, Z.lor_spec, Z.shiftr_spec by done.
    destruct (Z.ltb_spec (i + 1) 8); [done|]. assert (i = 7) as -> by lia. simpl. by rewrite !andb_false_r.
  - rewrite (proj2 (Z.ltb_ge (i + 1) 8)) by lia. rewrite Z.land_spec, Z.lor_spec, Z.shiftr_spec by lia.
    by replace (i + 1 - 8) with (i - 8 + 1) by lia.
Qed.

Lemma le_word_nonneg bytes : Forall is_byte bytes -> 0 <= le_word bytes.
Proof. induction 1 as [|b bytes Hb _ IH]; simpl; [done|]. unfold is_byte in Hb. lia. Qed.

Lemma popcount_word bytes :
  Forall is_byte bytes ->
  popcount (8 * length bytes) (nonzero_cells (le_word bytes) (cells_mask bytes))
  = Z.of_nat (sum_list_with (fun b => Z.to_nat (popcount 8 (nonzero_cells b 0x55))) bytes).
Proof.
  induction 1 as [|b bytes Hb Hbs IH]; [done|]. unfold cells_mask. cbn [le_word length replicate].
  assert (0 <= le_word (replicate (length bytes) 0x55)).
  { apply le_word_nonneg, Forall_replicate. unfold is_byte. lia. }
  rewrite nonzero_cells_cons by (auto using le_word_nonneg). replace (8 * S (length bytes))%nat with (8 + 8 * length bytes)%nat by lia.
  change 256 with (2 ^ Z.of_nat 8). rewrite popcount_split by (change (2 ^ Z.of_nat 8) with 256; by apply nonzero_cells_byte).
  unfold cells_mask in IH. rewrite IH. cbn [sum_list_with]. assert (forall n z, 0 <= popcount n z) as Hp.
  { induction n as [|n IHn]; intros z; cbn [popcount]; [done|]. specialize (IHn (Z.div2 z)). destruct (Z.odd z); simpl; lia. }
  specialize (Hp 8%nat (nonzero_cells b 0x55)). lia.
Qed.

(** The cells of a byte that are not zero. *)
Definition byte_count (b : Z) : nat := length (filter (fun k => cell_get b k <> 0) (seqZ 0 4)).

Lemma byte_count_spec b :
  is_byte b -> byte_cells b = Z.of_nat (byte_count b)
  /\ popcount 8 (nonzero_cells b 0x55) = Z.of_nat (byte_count b).
Proof.
  intros Hb. assert (forallb (fun b => (byte_cells b =? Z.of_nat (byte_count b))
      && (popcount 8 (nonzero_cells b 0x55) =? Z.of_nat (byte_count b))) (seqZ 0 256) = true) as H
    by (vm_compute; reflexivity). rewrite forallb_forall in H. specialize (H b).
  unfold is_byte in *. rewrite <- list_elem_of_In, elem_of_seqZ in H. lia.
Qed.

Lemma word_count_spec bytes :
  length bytes = 8%nat -> Forall is_byte bytes ->
  word_cells (le_word bytes) = Z.of_nat (sum_list_with byte_count bytes).
Proof.
  intros Hl Hb. pose proof (popcount_word bytes Hb) as H. unfold cells_mask in H. rewrite Hl in H.
  change (8 * 8)%nat with 64%nat in H. change (le_word (replicate 8 0x55)) with 0x5555555555555555 in H.
  transitivity (popcount 64 (nonzero_cells (le_word bytes) 0x5555555555555555)); [done|]. rewrite H. f_equal.
  clear Hl H. induction Hb as [|b bytes Hb _ IH]; [done|]. cbn [sum_list_with]. rewrite IH.
  rewrite (proj2 (byte_count_spec b Hb)). lia.
Qed.

Lemma sum_byte_count mem : (sum_list_with byte_count mem <= 4 * length mem)%nat.
Proof.
  induction mem as [|b mem IH]; cbn [sum_list_with length]; [lia|].
  assert (byte_count b <= 4)%nat; [|lia]. unfold byte_count. etrans; [apply length_filter|]. by vm_compute.
Qed.

Lemma count_verifiable_spec fuel mem :
  Forall is_byte mem -> (length mem <= fuel)%nat -> 4 * Z.of_nat (length mem) < TWO64 ->
  count_verifiable fuel mem = Z.of_nat (sum_list_with byte_count mem).
Proof.
  revert mem. induction fuel as [|fuel IH]; intros mem Hm Hf Hb; [by destruct mem; simpl in Hf; [|lia]|].
  assert (forall pre rest, mem = pre ++ rest -> pre <> [] ->
    u64 (Z.of_nat (sum_list_with byte_count pre) + count_verifiable fuel rest) = Z.of_nat (sum_list_with byte_count mem)) as Hstep.
  { intros pre rest -> Hne. rewrite length_app in Hf, Hb. apply Forall_app in Hm as [Hm1 Hm2].
    assert (length pre <> 0)%nat by (by destruct pre). rewrite IH by (done || lia). rewrite sum_list_with_app.
    pose proof (sum_byte_count pre). pose proof (sum_byte_count rest). rewrite u64_small; lia. }
  assert (forall b rest, mem = b :: rest -> byte_cells b +₆₄ count_verifiable fuel rest
    = Z.of_nat (sum_list_with byte_count mem)) as Hone.
  { intros b rest ->. rewrite <- (Hstep [b] rest eq_refl ltac:(done)). apply Forall_cons in Hm as [Hm _].
    rewrite (proj1 (byte_count_spec b Hm)). cbn [sum_list_with]. by rewrite Nat.add_0_r. }
  destruct mem as [|b0 [|b1 [|b2 [|b3 [|b4 [|b5 [|b6 [|b7 rest]]]]]]]]; cbn [count_verifiable]; [done|by apply Hone..|].
  rewrite <- (Hstep [b0; b1; b2; b3; b4; b5; b6; b7] rest eq_refl ltac:(done)).
  rewrite word_count_spec; [done|done|]. by apply (Forall_app _ [b0; b1; b2; b3; b4; b5; b6; b7] rest) in Hm as [Hm _].
Qed.

Lemma length_filter_shift (P Q : Z -> Prop) `{!forall x, Decision (P x), !forall x, Decision (Q x)} d m n :
  (forall i, m <= i < m + n -> P i <-> Q (i + d)) ->
  length (filter P (seqZ m n)) = length (filter Q (seqZ (m + d) n)).
Proof.
  intros Hiff. rewrite (Z.add_comm m d), <- fmap_add_seqZ.
  assert (forall i, i ∈ seqZ m n -> P i <-> Q (d + i)) as Hl.
  { intros i Hi%elem_of_seqZ. rewrite Z.add_comm. apply Hiff. lia. }
  clear Hiff. induction (seqZ m n) as [|i l IH]; [done|].
  rewrite fmap_cons, !filter_cons. pose proof (Hl i ltac:(left)) as Hi.
  specialize (IH (fun k Hk => Hl k ltac:(by right))).
  destruct (decide (P i)), (decide (Q (d + i))); cbn [length]; (lia || tauto).
Qed.

(** The blocks whose cell is not zero. *)
Definition verifiable_blocks (mem : list Z) (n : Z) : list Z := filter (fun i => cell_at mem i <> 0) (seqZ 0 n).

Lemma sum_byte_count_cells mem :
  sum_list_with byte_count mem = length (verifiable_blocks mem (4 * Z.of_nat (length mem))).
Proof.
  induction mem as [|b mem IH]; [done|]. cbn [sum_list_with length]. rewrite IH. unfold verifiable_blocks.
  replace (4 * Z.of_nat (S (length mem))) with (4 + 4 * Z.of_nat (length mem)) by lia.
  rewrite seqZ_app, filter_app, length_app by lia. f_equal.
  apply length_filter_shift. intros k Hk. rewrite !cell_at_get by lia.
    replace ((k + 4) / 4) with (k / 4 + 1) by (Z.div_mod_to_equations; lia).
    replace ((k + 4) `mod` 4) with (k `mod` 4) by (Z.div_mod_to_equations; lia).
    assert (0 <= k / 4) by (apply Z.div_pos; lia). by replace (Z.to_nat (k / 4 + 1)) with (S (Z.to_nat (k / 4))) by lia.
Qed.

(** The unused cells of the last byte. *)
Definition padding_clear (j : Journal) : Prop :=
  forall i, numJournalBlocks j <= i < 4 * mapLength j -> loadBlockGen j i = 0.

(** ** Theorems *)

(** C31: [begin()] decides as documented, whatever the other I/Os hold.  It waits (blocking call) or
    answers DEFER (non-blocking call, nothing stays locked or changed) only if some stripe of the
    range has a holder.  It answers SKIP only for a skipping read of entirely uninitialized blocks,
    without a lock left; READ with shared locks on the stripes of the range and the generations
    of its blocks, all initialized if the intent was to initialize otherwise; WRITE with exclusive
    locks, each generation rotated and each cell cleared, on disk too if the journal is synced. *)
Theorem journal_begin_decides sys pageSize off len intent mayBlock io j t :
  sys Sys_msync = true -> 0 < pageSize -> journal_wf j -> io_range_ok j off len ->
  match JournalBlockIO_begin sys pageSize off len intent mayBlock io j t with
  | None =>
      mayBlock = true
      /\ range_contended j (offsetToBlockIndex j off) (ceil_blocks len (journalBlockSize j)) t
  | Some (Throw _) => False
  | Some (Ok (action, io', j', t')) =>
      begin_post intent mayBlock (offsetToBlockIndex j off) (ceil_blocks len (journalBlockSize j))
        j t action io' j' t'
  end.
Proof. intros. by apply begin_spec. Qed.

(** C20: a journaled write, [begin()] up to [commit()]: while the data is written the cells of the
    range are zero; the commit rotates the generation of exactly the blocks of the range, to a
    value between 1 and 3 that differs from the old one, and gives the locks back, as does an
    abandoned write.  With a synced journal the zero cells are on disk before the data write and
    the new generations are on disk after the commit, so that the file never claims a generation
    that the block does not hold. *)
Theorem journal_write_cycle sys pageSize off len mayBlock io j t io1 j1 t1 :
  sys Sys_msync = true -> 0 < pageSize -> journal_wf j -> io_range_ok j off len ->
  JournalBlockIO_begin sys pageSize off len INTENT_WRITE mayBlock io j t = Some (Ok (ACTION_WRITE, io1, j1, t1)) ->
  let blocks := io_blocks (offsetToBlockIndex j off) (ceil_blocks len (journalBlockSize j)) in
  Forall (fun i => loadBlockGen j1 i = 0) blocks
  /\ snd (JournalBlockIO_release io1 t1) = t
  /\ exists io2 j2, JournalBlockIO_commit sys pageSize io1 j1 t1 = Ok (io2, j2, t)
    /\ journal_wf j2
    /\ (forall k, k ∈ blocks -> loadBlockGen j2 k = nextGen (loadBlockGen j k)
                 /\ 1 <= loadBlockGen j2 k <= 3 /\ loadBlockGen j2 k <> loadBlockGen j k)
    /\ (forall k, 0 <= k -> k ∉ blocks -> loadBlockGen j2 k = loadBlockGen j k)
    /\ (journalSyncEnabled j = true -> durable_zeros j ->
        Forall (fun i => cell_at (j_disk j1) i = 0) blocks
        /\ Forall (fun i => cell_at (j_disk j2) i = loadBlockGen j2 i) blocks
        /\ durable_zeros j1 /\ durable_zeros j2).
Proof.
  intros Hs Hp Hj Hr Hb blocks. destruct (io_blocks_in_journal j off len Hj Hr) as (Hb0 & _ & _ & _).
  destruct (write_cycle sys pageSize Hs Hp _ _ _ _ _ _ _ _ _ Hj Hr Hb) as (Hz & Hrel & io2 & j2 & Hc & Hj2 & Hgen & Hd).
  split; [done|]. split; [done|]. exists io2, j2. split; [done|]. split; [done|]. split; [|split; [|done]].
  - intros k Hk. pose proof (proj1 (elem_of_seqZ _ _ _) Hk) as Hk'. rewrite Hgen by lia. rewrite decide_True by done.
    split; [done|]. apply nextGen_range. apply cell_at_range; [apply Hj|lia].
  - intros k Hk Hnk. rewrite Hgen by done. by rewrite decide_False.
Qed.

(** the lock regions: choosing the region size terminates for every I/O size, and then an I/O of
    at most the maximum size takes at most two stripes, which cover all its blocks; two I/Os that
    share a block take a common stripe. *)
Lemma lock_regions_cover_io maxIOSize sync j :
  0 < journalBlockSize j -> 0 < maxIOSize -> maxIOSize + journalBlockSize j <= 2 ^ 63 ->
  exists j', initRunOptions maxIOSize sync j = Some j'
    /\ (forall first num, 0 <= first -> 0 < num <= ceil_blocks maxIOSize (journalBlockSize j) ->
        first + num < 2 ^ 63 ->
        (length (range_stripes j' first num) <= 2)%nat
        /\ forall i, first <= i < first + num -> blockIndexToStripe j' i ∈ range_stripes j' first num)
    /\ (forall first1 num1 first2 num2 i,
        0 <= first1 -> 0 < num1 <= ceil_blocks maxIOSize (journalBlockSize j) -> first1 + num1 < 2 ^ 63 ->
        0 <= first2 -> 0 < num2 <= ceil_blocks maxIOSize (journalBlockSize j) -> first2 + num2 < 2 ^ 63 ->
        first1 <= i < first1 + num1 -> first2 <= i < first2 + num2 ->
        exists s, s ∈ range_stripes j' first1 num1 /\ s ∈ range_stripes j' first2 num2).
Proof.
  intros Hbs Hm Hb. destruct (initRunOptions_stripes maxIOSize sync j Hbs Hm Hb) as (j' & Hi & _ & _ & _ & Hst).
  exists j'. split; [done|]. split.
  - intros first num Hf Hn He. split; [unfold range_stripes; case_match; simpl; lia|]. intros i. by apply Hst.
  - intros. by eapply (overlapping_ranges_share_stripe maxIOSize sync j).
Qed.

(** [getVerifiablePercent()] counts the initialized blocks: the word-wise and byte-wise bit
    tricks together give the number of journal blocks whose generation is not zero. *)
Lemma numVerifiable_counts_blocks j :
  journal_wf j -> padding_clear j ->
  numVerifiable j = Z.of_nat (length (filter (fun i => loadBlockGen j i <> 0) (seqZ 0 (numJournalBlocks j)))).
Proof.
  intros Hj Hpad. pose proof Hj as [_ Hn Hm _ Hb _]. unfold numVerifiable.
  destruct (Z.eqb_spec (numJournalBlocks j) 0) as [->|Hne]; [done|].
  assert (mapLength j = (numJournalBlocks j * 2 + 7) / 8) as Hml by (unfold mapLength; u64_elim; done).
  assert (numJournalBlocks j <= 4 * mapLength j < TWO64) by (rewrite Hml; Z.div_mod_to_equations; lia).
  rewrite count_verifiable_spec by (done || lia). f_equal. rewrite sum_byte_count_cells, Hm. unfold verifiable_blocks.
  replace (4 * mapLength j) with (numJournalBlocks j + (4 * mapLength j - numJournalBlocks j)) by lia.
  rewrite seqZ_app, filter_app, length_app by lia. rewrite (filter_none _ (seqZ (0 + _) _)); [by rewrite Nat.add_0_r|].
  apply Forall_seqZ. intros i Hi Hc. apply Hc, Hpad. lia.
Qed.

Lemma cell_at_zeros n i : 0 <= i -> cell_at (replicate n 0) i = 0.
Proof.
  intros Hi. rewrite cell_at_get by done.
  assert (nth (Z.to_nat (i / 4)) (replicate n 0) 0 = 0) as ->.
  { rewrite nth_lookup. destruct (replicate n 0 !! _) eqn:H; [|done]. by apply lookup_replicate in H as [-> _]. }
  unfold cell_get. by rewrite Z.land_0_l, Z.shiftr_0_l.
Qed.

Lemma ceil_blocks_range size bs : 0 < bs -> 0 <= size -> size + bs <= 2 ^ 62 -> 0 <= ceil_blocks size bs < 2 ^ 62.
Proof.
  intros Hbs Hs Hb. unfold ceil_blocks. rewrite (u64_small (size + bs)), u64_small by lia. split; [apply Z.div_pos; lia|].
  apply Z.div_lt_upper_bound; nia.
Qed.

(** C38: a journal that [createNew()] makes is well formed, initialized in no block, and durable; a
    journal of which [openExisting()] reads the file a later run left shows exactly the generations
    that had reached the disk, and a file of another size is refused. *)
Theorem journal_create_and_resume sys r1 r2 bs off size :
  (forall c, sys c = true) -> 0 < bs -> 0 <= size -> size + bs <= 2 ^ 62 ->
  exists j0, Journal_createNew sys r1 r2 bs off size = Ok j0
    /\ journal_wf j0 /\ padding_clear j0 /\ durable_zeros j0
    /\ (forall i, 0 <= i -> loadBlockGen j0 i = 0) /\ numVerifiable j0 = 0
    /\ (forall j, journal_wf j -> numJournalBlocks j = numJournalBlocks j0 ->
        exists j', Journal_openExisting sys (j_disk j) bs off size (journalSeed j0) = Ok j'
          /\ journal_wf j' /\ durable_zeros j'
          /\ (forall i, loadBlockGen j' i = cell_at (j_disk j) i)
          /\ numJournalBlocks j' = numJournalBlocks j0 /\ journalSeed j' = journalSeed j0)
    /\ (forall binary, Z.of_nat (length binary) <> mapLength j0 ->
        exists e, Journal_openExisting sys binary bs off size (journalSeed j0) = Throw e).
Proof.
  intros Hsys Hbs Hs Hb. pose proof (ceil_blocks_range size bs Hbs Hs Hb) as Hnum.
  unfold Journal_createNew. rewrite !Hsys. cbn [check_sys mbind result_bind].
  set (nb := ceil_blocks size bs) in *. eexists. split; [done|].
  set (j0 := with_disk _ _). assert (0 <= mapLength j0) as Hml.
  { unfold mapLength, j0. cbn. rewrite (u64_small (nb * 2)), u64_small by lia. apply Z.div_pos; lia. }
  assert (forall i, 0 <= i -> loadBlockGen j0 i = 0) as Hz by (intros i Hi; by apply cell_at_zeros).
  assert (journal_wf j0) as Hj0.
  { split; cbn; [lia|done|rewrite length_replicate; unfold mapLength in *; cbn in *; lia
      |rewrite length_replicate; unfold mapLength in *; cbn in *; lia|apply Forall_replicate; done..]. }
  assert (padding_clear j0) as Hp. { intros i Hi. apply Hz. cbn in Hi. lia. }
  split; [done|]. split; [done|]. split; [by intros i Hi H0|]. split; [done|]. split; [|split].
  - unfold numVerifiable. case_match; [done|]. rewrite count_verifiable_spec; [|apply Hj0|done|].
    + rewrite sum_byte_count_cells. unfold verifiable_blocks. rewrite filter_none; [done|].
      apply Forall_seqZ. intros i Hi Hc. apply Hc. apply Hz. lia.
    + rewrite (jw_mem _ Hj0). unfold mapLength, j0. cbn. rewrite (u64_small (nb * 2)), u64_small by lia. Z.div_mod_to_equations; lia.
  - intros j Hj Hn. assert (mapLength j = mapLength j0) as Hmj by (unfold mapLength; by rewrite Hn).
    pose proof (jw_disk j Hj) as Hd. unfold Journal_openExisting. rewrite !Hsys. cbn [check_sys mbind result_bind].
    change (mapLength (mkJournal [] [] bs off size (ceil_blocks size bs) (journalSeed j0) false 0 0)) with (mapLength j0).
    rewrite (proj2 (Z.eqb_eq _ _)) by congruence. cbn [check_sys]. eexists. split; [done|]. split; [|split; [by intros i _ H0|by split_and!]].
    split; cbn; [lia|done|by rewrite Hd, Hmj|by rewrite Hd, Hmj|apply Hj|apply Hj].
  - intros binary Hlen. unfold Journal_openExisting. rewrite !Hsys. cbn [check_sys mbind result_bind].
    change (mapLength (mkJournal [] [] bs off size (ceil_blocks size bs) (journalSeed j0) false 0 0)) with (mapLength j0).
    rewrite (proj2 (Z.eqb_neq _ _)) by done. by eexists.
Qed.

(** ** A concrete journal of ten 4 KiB blocks *)

Definition all_ok (c : journal_syscall) : bool := true.

Definition ex_journal : Journal :=
  mkJournal [0x1b; 0; 0] [0x1b; 0; 0] 4096 0 40960 10 7 true 1 7.

Lemma ex_journal_wf : journal_wf ex_journal.
Proof. split; [cbn; lia|cbn; lia|reflexivity|reflexivity|repeat constructor; unfold is_byte; lia..]. Defined.

Lemma ex_range_ok : io_range_ok ex_journal 4096 8192.
Proof. unfold io_range_ok. cbn. split; [lia|]. split; [lia|]. split; [lia|]. split; [reflexivity|]. split; lia. Defined.

Lemma ex_padding_clear : padding_clear ex_journal.
Proof.
  intros i Hi. change (mapLength ex_journal) with 3 in Hi. cbn in Hi.
  assert (i = 10 \/ i = 11) as [-> | ->] by lia; reflexivity.
Defined.

(** The write of blocks 1 and 2, which hold the generations 2 and 1. *)
Definition ex_begin : option (result (Action * JournalBlockIO * Journal * lock_table)) :=
  JournalBlockIO_begin all_ok 4096 4096 8192 INTENT_WRITE true JournalBlockIO_new ex_journal ∅.

Definition ex_io1 : JournalBlockIO :=
  mkBlockIO 1 2 ACTION_WRITE [3; 2] (mkGuard (range_stripes ex_journal 1 2) true).

Definition ex_locks : lock_table :=
  foldr (fun s t => <[s := LockExclusive]> t) ∅ (range_stripes ex_journal 1 2).

Definition ex_journal1 : Journal := mkJournal [0x03; 0; 0] [0x03; 0; 0] 4096 0 40960 10 7 true 1 7.

Lemma ex_begin_result : ex_begin = Some (Ok (ACTION_WRITE, ex_io1, ex_journal1, ex_locks)).
Proof. vm_compute. reflexivity. Defined.

Lemma journal_begin_decides_witness :
  begin_post INTENT_WRITE true 1 2 ex_journal ∅ ACTION_WRITE ex_io1 ex_journal1 ex_locks.
Proof.
  pose proof (journal_begin_decides all_ok 4096 4096 8192 INTENT_WRITE true JournalBlockIO_new ex_journal ∅
    eq_refl eq_refl ex_journal_wf ex_range_ok) as H.
  change (JournalBlockIO_begin _ _ _ _ _ _ _ _ _) with ex_begin in H. rewrite ex_begin_result in H. exact H.
Defined.

Lemma journal_write_cycle_witness :
  exists io2 j2, JournalBlockIO_commit all_ok 4096 ex_io1 ex_journal1 ex_locks = Ok (io2, j2, ∅)
    /\ loadBlockGen j2 1 = 3 /\ loadBlockGen j2 2 = 2.
Proof.
  destruct (journal_write_cycle all_ok 4096 4096 8192 true JournalBlockIO_new ex_journal ∅ ex_io1 ex_journal1 ex_locks
    eq_refl eq_refl ex_journal_wf ex_range_ok ex_begin_result) as (_ & _ & io2 & j2 & Hc & _ & Hgen & _).
  exists io2, j2. split; [exact Hc|]. split.
  - apply (Hgen 1). apply elem_of_seqZ. vm_compute. split; [discriminate|reflexivity].
  - apply (Hgen 2). apply elem_of_seqZ. vm_compute. split; [discriminate|reflexivity].
Defined.

Lemma journal_create_and_resume_witness :
  exists j0, Journal_createNew all_ok 1 2 4096 0 40960 = Ok j0 /\ journal_wf j0 /\ numVerifiable j0 = 0.
Proof.
  destruct (journal_create_and_resume all_ok 1 2 4096 0 40960) as (j0 & Hc & Hw & _ & _ & _ & Hn & _);
    [done|lia|lia|lia|]. exists j0. split; [exact Hc|]. split; [exact Hw|exact Hn].
Defined.

(** Two journals with different seeds may use the same stripe for the same block. *)
Lemma equal_offsets_may_share_stripe :
  exists j j', stripeSalt j <> stripeSalt j' /\ blockIndexToStripe j 0 = blockIndexToStripe j' 0.
Proof.
  exists (mkJournal [] [] 4096 0 0 0 0 false 0 0), (mkJournal [] [] 4096 0 0 0 0 false 0 0xF1DE83E19937733D).
  split; [discriminate|]. vm_compute. reflexivity.
Qed.
