(* ===== verification/JournalLocks.v ===== *)
(** The journal locks under concurrency: the worker threads of one process, each with its
    in-flight I/O slots ([journalIOSlots] of LocalWorker), run [journalBeginIO()],
    [journalCommitIO()] and [journalReleaseIO()] (workers/LocalWorker.cpp) on the one table of
    stripe locks (toolkits/Journal.cpp).  [Journal::acquireRange()] is split into its single lock
    operations, so that the threads interleave between them. *)

From S2P Require Import Prelude Journal.

#[local] Open Scope list_scope.
#[local] Open Scope Z_scope.

(** ** Definitions *)

(** The blocks that an I/O covers, of which journal. *)
Record io_range : Type := mkRange { rg_journal : Journal; rg_first : Z; rg_num : Z }.

Definition wanted_stripes (r : io_range) : list Z := range_stripes (rg_journal r) (rg_first r) (rg_num r).

(** A call of [acquireRange()] that is under way: what it holds and what it still wants. *)
Record Acquire : Type := mkAcquire {
  a_slot : nat;
  a_range : io_range;
  a_mayBlock : bool;
  a_guard : JournalRangeGuard;
  a_wanted : list Z;
}.

Record Thread : Type := mkThread {
  journalIOSlots : list (option (io_range * JournalRangeGuard));
  journalNumGuardsHeld : Z;
  th_acquire : option Acquire;
}.

Inductive lock_action : Type :=
  | L_begin (slotIdx : nat) (r : io_range) (isExclusive : bool)
  | L_lock
  | L_giveup
  | L_keep
  | L_skip
  | L_upgrade
  | L_finish (slotIdx : nat).

Definition start_acquire (slotIdx : nat) (r : io_range) (isExclusive mayBlock : bool) : Acquire :=
  mkAcquire slotIdx r mayBlock (mkGuard [] isExclusive) (wanted_stripes r).

(** One step of a thread:
    - [L_begin]: [journalBeginIO()] for a free slot; it may wait only if the thread holds nothing;
    - [L_lock]: the next [lock()], [lock_shared()], [try_lock()] or [try_lock_shared()] succeeds;
    - [L_giveup]: a [try_lock()] fails, what was taken is released, the I/O is deferred;
    - [L_keep]: all locks are held and [begin()] answers READ or WRITE;
    - [L_skip]: [begin()] answers SKIP;
    - [L_upgrade]: a read of uninitialized blocks becomes a write, shared locks are released and
      exclusive ones requested;
    - [L_finish]: [journalCommitIO()] or [journalReleaseIO()] of a slot. *)
Definition thread_step (a : lock_action) (th : Thread) (t : lock_table) : option (Thread * lock_table) :=
  let slots := journalIOSlots th in
  let held := journalNumGuardsHeld th in
  match a, th_acquire th with
  | L_begin slotIdx r isExclusive, None =>
      match slots !! slotIdx with
      | Some None =>
          Some (mkThread slots held (Some (start_acquire slotIdx r isExclusive (held =? 0))), t)
      | _ => None
      end
  | L_lock, Some p =>
      match a_wanted p with
      | s :: wanted =>
          t' ← try_lock (guard_exclusive (a_guard p)) s t;
          Some (mkThread slots held (Some (mkAcquire (a_slot p) (a_range p) (a_mayBlock p)
                  (mkGuard (guard_locks (a_guard p) ++ [s]) (guard_exclusive (a_guard p))) wanted)), t')
      | [] => None
      end
  | L_giveup, Some p =>
      match a_wanted p, a_mayBlock p with
      | s :: _, false =>
          match try_lock (guard_exclusive (a_guard p)) s t with
          | None => Some (mkThread slots held None, snd (guard_release (a_guard p) t))
          | Some _ => None
          end
      | _, _ => None
      end
  | L_keep, Some p =>
      match a_wanted p with
      | [] => Some (mkThread (<[a_slot p := Some (a_range p, a_guard p)]> slots) (held + 1) None, t)
      | _ => None
      end
  | L_skip, Some p =>
      match a_wanted p with
      | [] => Some (mkThread slots held None, snd (guard_release (a_guard p) t))
      | _ => None
      end
  | L_upgrade, Some p =>
      match a_wanted p, guard_exclusive (a_guard p) with
      | [], false =>
          Some (mkThread slots held (Some (start_acquire (a_slot p) (a_range p) true (a_mayBlock p))),
                snd (guard_release (a_guard p) t))
      | _, _ => None
      end
  | L_finish slotIdx, None =>
      match slots !! slotIdx with
      | Some (Some (_, g)) =>
          Some (mkThread (<[slotIdx := None]> slots) (held - 1) None, snd (guard_release g t))
      | _ => None
      end
  | _, _ => None
  end.

(** The process: its threads and the stripe locks they share. *)
Record system : Type := mkSystem { sys_threads : list Thread; sys_locks : lock_table }.

Inductive step : system -> system -> Prop :=
  | step_thread i a th th' threads t t' :
      threads !! i = Some th -> thread_step a th t = Some (th', t') ->
      step (mkSystem threads t) (mkSystem (<[i := th']> threads) t').

(** Every worker thread starts with empty slots, and no lock is taken. *)
Definition initial (s : system) : Prop :=
  sys_locks s = ∅
  /\ Forall (fun th => Forall (fun sl => sl = None) (journalIOSlots th)
                       /\ journalNumGuardsHeld th = 0 /\ th_acquire th = None) (sys_threads s).

Definition reachable (s : system) : Prop := exists s0, initial s0 /\ rtc step s0 s.

(** A thread that waits in [lock()] or [lock_shared()]. *)
Definition blocked (th : Thread) (t : lock_table) : Prop :=
  exists p s rest, th_acquire th = Some p /\ a_mayBlock p = true /\ a_wanted p = s :: rest
    /\ try_lock (guard_exclusive (a_guard p)) s t = None.

(** ** The table agrees with what the threads hold *)

Definition stripe_count (s : Z) (ex : bool) (g : JournalRangeGuard) : nat :=
  if Bool.eqb (guard_exclusive g) ex then length (filter (eq s) (guard_locks g)) else 0.

Definition slot_count (s : Z) (ex : bool) (sl : option (io_range * JournalRangeGuard)) : nat :=
  match sl with Some (_, g) => stripe_count s ex g | None => 0 end.

Definition acquire_count (s : Z) (ex : bool) (p : option Acquire) : nat :=
  match p with Some p => stripe_count s ex (a_guard p) | None => 0 end.

Definition thread_count (s : Z) (ex : bool) (th : Thread) : nat :=
  (sum_list_with (slot_count s ex) (journalIOSlots th) + acquire_count s ex (th_acquire th))%nat.

Definition agrees (st : option lock_state) (shared exclusive : nat) : Prop :=
  match st with
  | None => shared = 0%nat /\ exclusive = 0%nat
  | Some (LockShared n) => shared = Pos.to_nat n /\ exclusive = 0%nat
  | Some LockExclusive => shared = 0%nat /\ exclusive = 1%nat
  end.

Definition agrees_all (t : lock_table) (count : Z -> bool -> nat) : Prop :=
  forall s, agrees (t !! s) (count s false) (count s true).

Lemma agrees_all_ext t c c' : (forall s ex, c s ex = c' s ex) -> agrees_all t c -> agrees_all t c'.
Proof. intros He H s. rewrite <- !He. apply H. Qed.

Definition one (s : Z) (ex : bool) (s' : Z) (ex' : bool) : nat :=
  if decide (s' = s) then if Bool.eqb ex ex' then 1 else 0 else 0.

Lemma try_lock_agrees ex s t t' c :
  try_lock ex s t = Some t' -> agrees_all t c -> agrees_all t' (fun s' ex' => c s' ex' + one s ex s' ex')%nat.
Proof.
  intros Ht Hc s'. specialize (Hc s'). unfold one, try_lock in *. destruct (decide (s' = s)) as [->|Hne].
  - destruct (t !! s) as [[n|]|], ex; simplify_eq; rewrite lookup_insert_eq; simpl in *; lia.
  - assert (t' !! s' = t !! s') as ->; [|by rewrite !Nat.add_0_r].
    destruct (t !! s) as [[n|]|], ex; simplify_eq; by rewrite lookup_insert_ne.
Qed.

Lemma unlock_agrees ex s t c :
  agrees_all t (fun s' ex' => c s' ex' + one s ex s' ex')%nat -> agrees_all (unlock ex s t) c.
Proof.
  intros Hc s'. specialize (Hc s'). unfold one, unlock in *. destruct (decide (s' = s)) as [->|Hne].
  - rewrite lookup_partial_alter_eq. destruct (t !! s) as [[n|]|], ex; simpl in *; try lia.
    case_decide; simpl; lia.
  - rewrite lookup_partial_alter_ne by done. by rewrite !Nat.add_0_r in Hc.
Qed.

Lemma stripe_count_snoc s ex s' ex' l :
  stripe_count s' ex' (mkGuard (l ++ [s]) ex) = (stripe_count s' ex' (mkGuard l ex) + one s ex s' ex')%nat.
Proof.
  unfold stripe_count, one. cbn. destruct (Bool.eqb ex ex'); [|by destruct (decide _)].
  rewrite filter_app, length_app. f_equal. rewrite filter_cons, filter_nil.
  by destruct (decide (s' = s)).
Qed.

Lemma stripe_count_cons s ex s' ex' l :
  stripe_count s' ex' (mkGuard (s :: l) ex) = (stripe_count s' ex' (mkGuard l ex) + one s ex s' ex')%nat.
Proof.
  unfold stripe_count, one. cbn [guard_locks guard_exclusive]. destruct (Bool.eqb ex ex'); [|by destruct (decide _)].
  rewrite filter_cons. destruct (decide (s' = s)); cbn [length]; lia.
Qed.

Lemma guard_release_agrees g t c :
  agrees_all t (fun s ex => c s ex + stripe_count s ex g)%nat -> agrees_all (snd (guard_release g t)) c.
Proof.
  destruct g as [l ex]. unfold guard_release. cbn [guard_locks guard_exclusive snd].
  revert t. induction l as [|s l IH]; intros t H; cbn [foldl].
  - eapply agrees_all_ext; [|exact H]. intros s e. unfold stripe_count. cbn. destruct (Bool.eqb ex e); simpl; lia.
  - apply IH. apply unlock_agrees. eapply agrees_all_ext; [|exact H]. intros s' e. cbn beta.
    rewrite stripe_count_cons. lia.
Qed.

Lemma sum_list_with_insert {A} (f : A -> nat) l i x y :
  l !! i = Some x -> (sum_list_with f (<[i := y]> l) + f x = sum_list_with f l + f y)%nat.
Proof.
  revert i. induction l as [|z l IH]; intros [|i] Hi; [done|done|..].
  - cbn in *. simplify_eq. lia.
  - change (<[S i := y]> (z :: l)) with (z :: <[i := y]> l). cbn [sum_list_with]. specialize (IH i Hi). lia.
Qed.

#[local] Arguments guard_release : simpl never.

(** A step changes the table and the thread's own holdings alike. *)
Lemma thread_step_agrees a th t th' t' c :
  thread_step a th t = Some (th', t') ->
  (forall p, th_acquire th = Some p -> journalIOSlots th !! a_slot p = Some None) ->
  agrees_all t (fun s ex => c s ex + thread_count s ex th)%nat ->
  agrees_all t' (fun s ex => c s ex + thread_count s ex th')%nat.
Proof.
  intros Hstep Hslot Hc. unfold thread_step in Hstep. destruct th as [slots held acq]. cbn in *.
  unfold thread_count in *. cbn in Hc. destruct a as [k r ex| | | | | |k]; destruct acq as [p|]; try done; cbn in Hc.
  - destruct (slots !! k) as [[|]|] eqn:Hk; simplify_eq. cbn. eapply agrees_all_ext; [|exact Hc].
    intros s e. cbn. unfold stripe_count. cbn. destruct (Bool.eqb ex e); cbn; lia.
  - destruct (a_wanted p) as [|s wanted]; [done|]. destruct (try_lock _ s t) as [t1|] eqn:Ht; [|done]. simpl in Hstep. simplify_eq.
    eapply agrees_all_ext; [|exact (try_lock_agrees _ _ _ _ _ Ht Hc)]. intros s' e. cbn.
    rewrite stripe_count_snoc. unfold stripe_count. cbn. lia.
  - destruct (a_wanted p) as [|s wanted], (a_mayBlock p); try done. destruct (try_lock _ s t); simplify_eq. cbn.
    apply guard_release_agrees. eapply agrees_all_ext; [|exact Hc]. intros s' e. cbn. lia.
  - destruct (a_wanted p); simplify_eq. cbn. eapply agrees_all_ext; [|exact Hc]. intros s' e. cbn.
    pose proof (sum_list_with_insert (slot_count s' e) slots (a_slot p) None (Some (a_range p, a_guard p)) (Hslot p eq_refl)) as Hs.
    cbn in Hs. lia.
  - destruct (a_wanted p); simplify_eq. cbn. apply guard_release_agrees. eapply agrees_all_ext; [|exact Hc]. intros s' e. cbn. lia.
  - destruct (a_wanted p), (guard_exclusive (a_guard p)) eqn:He; simplify_eq. cbn. apply guard_release_agrees.
    eapply agrees_all_ext; [|exact Hc]. intros s' e. cbn. unfold stripe_count at 2. cbn. destruct e; cbn; lia.
  - destruct (slots !! k) as [[[r g]|]|] eqn:Hk; simplify_eq. cbn. apply guard_release_agrees.
    eapply agrees_all_ext; [|exact Hc]. intros s' e. cbn.
    pose proof (sum_list_with_insert (slot_count s' e) slots k (Some (r, g)) None Hk) as Hs. cbn in Hs. lia.
Qed.

(** ** What holds for every thread *)

Definition occupied (sl : option (io_range * JournalRangeGuard)) : nat :=
  match sl with Some _ => 1 | None => 0 end.

Definition acquire_ok (slots : list (option (io_range * JournalRangeGuard))) (p : Acquire) : Prop :=
  slots !! a_slot p = Some None
  /\ guard_locks (a_guard p) ++ a_wanted p = wanted_stripes (a_range p)
  /\ (a_mayBlock p = true -> sum_list_with occupied slots = 0%nat).

Record thread_ok (th : Thread) : Prop := {
  to_held : journalNumGuardsHeld th = Z.of_nat (sum_list_with occupied (journalIOSlots th));
  to_slots : forall k r g, journalIOSlots th !! k = Some (Some (r, g)) -> guard_locks g = wanted_stripes r;
  to_acquire : forall p, th_acquire th = Some p -> acquire_ok (journalIOSlots th) p;
}.

Lemma thread_step_ok a th t th' t' :
  thread_step a th t = Some (th', t') -> thread_ok th -> thread_ok th'.
Proof.
  intros Hstep [Hh Hs Ha]. unfold thread_step in Hstep. destruct th as [slots held acq]. cbn in *.
  destruct a as [k r ex| | | | | |k]; destruct acq as [p|]; try done; try (specialize (Ha p eq_refl) as (Hsl & Hw & Hb)).
  - destruct (slots !! k) as [[|]|] eqn:Hk; simplify_eq. split; cbn; [done|done|].
    intros p [= <-]. split; [done|]. split; [done|]. cbn. lia.
  - destruct (a_wanted p) as [|s wanted] eqn:He; [done|]. destruct (try_lock _ s t) as [t1|]; [|done]. simpl in Hstep. simplify_eq.
    split; cbn; [done|done|]. intros p' [= <-]. split; [done|]. cbn. split; [|done]. by rewrite <- app_assoc.
  - destruct (a_wanted p) as [|s wanted], (a_mayBlock p); try done. destruct (try_lock _ s t); simplify_eq. by split.
  - destruct (a_wanted p) eqn:He; simplify_eq. rewrite app_nil_r in Hw. split; cbn; [| |done].
    + pose proof (sum_list_with_insert occupied slots (a_slot p) None (Some (a_range p, a_guard p)) Hsl) as Hi.
      cbn [occupied] in Hi. lia.
    + intros k r g Hk. apply list_lookup_insert_Some in Hk as [(<- & [= <- <-] & _)|[_ Hk]]; [done|by eapply Hs].
  - destruct (a_wanted p); simplify_eq. by split.
  - destruct (a_wanted p), (guard_exclusive (a_guard p)); simplify_eq. split; cbn; [done|done|].
    intros p' [= <-]. by split.
  - destruct (slots !! k) as [[[r g]|]|] eqn:Hk; simplify_eq. split; cbn; [| |done].
    + pose proof (sum_list_with_insert occupied slots k (Some (r, g)) None Hk) as Hi. cbn [occupied] in Hi. lia.
    + intros k' r' g' Hk'. apply list_lookup_insert_Some in Hk' as [(<- & [=] & _)|[_ Hk']]. by eapply Hs.
Qed.

Record system_ok (s : system) : Prop := {
  so_threads : Forall thread_ok (sys_threads s);
  so_locks : agrees_all (sys_locks s) (fun st ex => sum_list_with (thread_count st ex) (sys_threads s));
}.

Lemma sum_list_with_0 {A} (f : A -> nat) l : Forall (fun x => f x = 0%nat) l -> sum_list_with f l = 0%nat.
Proof. induction 1 as [|x l Hx _ IH]; cbn; lia. Qed.

Lemma initial_ok s : initial s -> system_ok s.
Proof.
  intros [Ht Hth]. assert (forall th, th ∈ sys_threads s -> sum_list_with occupied (journalIOSlots th) = 0%nat
     /\ (forall st ex, thread_count st ex th = 0%nat) /\ thread_ok th) as H.
  { intros th Hin. rewrite Forall_forall in Hth. destruct (Hth th Hin) as (Hsl & Hh & Ha).
    assert (forall f : option (io_range * JournalRangeGuard) -> nat, f None = 0%nat -> sum_list_with f (journalIOSlots th) = 0%nat) as Hsum.
    { intros f Hf. apply sum_list_with_0. eapply Forall_impl; [exact Hsl|]. by intros sl ->. }
    split; [by apply Hsum|]. split; [intros st ex; unfold thread_count; rewrite Ha, Hsum; done|].
    split; [by rewrite Hh, Hsum| |by rewrite Ha]. intros k r g Hk. rewrite Forall_forall in Hsl.
    apply list_elem_of_lookup_2, Hsl in Hk. done. }
  split; [by apply Forall_forall; intros th Hin; apply H|].
  intros st. rewrite Ht, lookup_empty. cbn. split; apply sum_list_with_0, Forall_forall; intros th Hin; by apply H.
Qed.

Lemma step_ok s s' : step s s' -> system_ok s -> system_ok s'.
Proof.
  intros [i a th th' threads t t' Hi Hstep] [Hth Hl]. cbn in *. pose proof (Forall_lookup_1 _ _ _ _ Hth Hi) as Hok.
  split; cbn; [apply Forall_insert; [done|by eapply thread_step_ok]|].
  set (c := fun st ex => (sum_list_with (thread_count st ex) threads - thread_count st ex th)%nat).
  assert (forall th2 st ex, sum_list_with (thread_count st ex) (<[i := th2]> threads) = (c st ex + thread_count st ex th2)%nat) as Hc.
  { intros th2 st ex. pose proof (sum_list_with_insert (thread_count st ex) threads i th th2 Hi).
    pose proof (sum_list_with_insert (thread_count st ex) threads i th (mkThread [] 0 None) Hi) as H0. unfold c. cbn in H0. lia. }
  eapply agrees_all_ext; [intros st ex; symmetry; apply Hc|]. eapply thread_step_agrees; [exact Hstep| |].
  - intros p Hp. by destruct (to_acquire th Hok p Hp).
  - eapply agrees_all_ext; [|exact Hl]. intros st ex. cbn. rewrite <- (Hc th st ex). by rewrite list_insert_id.
Qed.

Lemma reachable_ok s : reachable s -> system_ok s.
Proof.
  intros (s0 & H0 & Hr). apply initial_ok in H0. induction Hr as [|s0 s1 s2 Hstep _ IH]; [done|].
  apply IH. by eapply step_ok.
Qed.

(** ** Mutual exclusion *)

Lemma sum_list_with_ge1 {A} (f : A -> nat) l i x : l !! i = Some x -> (f x <= sum_list_with f l)%nat.
Proof.
  revert i. induction l as [|y l IH]; intros [|i] Hi; cbn in *; [done|done|simplify_eq; lia|].
  specialize (IH i Hi). lia.
Qed.

Lemma sum_list_with_ge2 {A} (f : A -> nat) l i k x y :
  i <> k -> l !! i = Some x -> l !! k = Some y -> (f x + f y <= sum_list_with f l)%nat.
Proof.
  revert i k. induction l as [|z l IH]; intros [|i] [|k] Hne Hi Hk; cbn in *; try done; simplify_eq.
  - pose proof (sum_list_with_ge1 f l k y Hk). lia.
  - pose proof (sum_list_with_ge1 f l i x Hi). lia.
  - specialize (IH i k ltac:(lia) Hi Hk). lia.
Qed.

Lemma stripe_count_in s g : s ∈ guard_locks g -> (1 <= stripe_count s (guard_exclusive g) g)%nat.
Proof.
  intros Hs. unfold stripe_count. rewrite Bool.eqb_reflx.
  assert (s ∈ filter (eq s) (guard_locks g)) as H by (by apply list_elem_of_filter).
  destruct (filter (eq s) (guard_locks g)); cbn; [by apply elem_of_nil in H|lia].
Qed.

Lemma stripe_count_pos s ex g : (0 < stripe_count s ex g)%nat -> guard_exclusive g = ex /\ s ∈ guard_locks g.
Proof.
  unfold stripe_count. destruct (Bool.eqb (guard_exclusive g) ex) eqn:He; [|lia]. apply eqb_prop in He.
  destruct (filter (eq s) (guard_locks g)) as [|x l] eqn:Hf; cbn; [lia|]. intros _. split; [done|].
  assert (x ∈ filter (eq s) (guard_locks g)) as H by (rewrite Hf; left). by apply list_elem_of_filter in H as [-> ?].
Qed.

(** A guard that is held in slot [k] of thread [i]. *)
Definition holds_guard (s : system) (i k : nat) (r : io_range) (g : JournalRangeGuard) : Prop :=
  exists th, sys_threads s !! i = Some th /\ journalIOSlots th !! k = Some (Some (r, g)).

Lemma guards_two_count s i k r g i' k' r' g' st ex :
  (i, k) <> (i', k') -> holds_guard s i k r g -> holds_guard s i' k' r' g' ->
  (stripe_count st ex g + stripe_count st ex g' <= sum_list_with (thread_count st ex) (sys_threads s))%nat.
Proof.
  intros Hne (th & Hi & Hk) (th' & Hi' & Hk'). destruct (decide (i = i')) as [->|Hii].
  - rewrite Hi in Hi'. injection Hi' as <-. etrans; [|by apply (sum_list_with_ge1 _ _ i' th)].
    pose proof (sum_list_with_ge2 (slot_count st ex) _ k k' _ _ ltac:(congruence) Hk Hk') as H. cbn in H. unfold thread_count. lia.
  - etrans; [|by apply (sum_list_with_ge2 _ _ i i' th th')].
    pose proof (sum_list_with_ge1 (slot_count st ex) _ k _ Hk) as H. pose proof (sum_list_with_ge1 (slot_count st ex) _ k' _ Hk') as H'.
    cbn in H, H'. unfold thread_count. lia.
Qed.

Lemma exclusive_guard_alone s i k r g i' k' r' g' st :
  system_ok s -> (i, k) <> (i', k') -> holds_guard s i k r g -> holds_guard s i' k' r' g' ->
  guard_exclusive g = true -> st ∈ guard_locks g -> st ∉ guard_locks g'.
Proof.
  intros [_ Hl] Hne Hg Hg' Hex Hin Hin'. specialize (Hl st).
  pose proof (guards_two_count s i k r g i' k' r' g' st true Hne Hg Hg').
  pose proof (guards_two_count s i k r g i' k' r' g' st false Hne Hg Hg').
  pose proof (stripe_count_in st g Hin) as H1. pose proof (stripe_count_in st g' Hin') as H2. rewrite Hex in H1.
  destruct (sys_locks s !! st) as [[n|]|], (guard_exclusive g'); cbn in Hl; lia.
Qed.

(** ** No deadlock *)

Lemma blockIndexToStripe_range j i : 0 <= blockIndexToStripe j i < 2 ^ 16.
Proof.
  unfold blockIndexToStripe, NUM_STRIPES_SHIFT. rewrite Z.shiftr_div_pow2 by lia.
  pose proof (u64_range (Z.lxor (Z.shiftr i (lockRegionShift j)) (stripeSalt j) * 0x9E3779B97F4A7C15)).
  split; [apply Z.div_pos; lia|]. apply Z.div_lt_upper_bound; [lia|]. change (2 ^ (64 - 16) * 2 ^ 16) with TWO64. lia.
Qed.

(** Locks are taken in ascending order. *)
Lemma wanted_stripes_ascend r :
  (exists a, wanted_stripes r = [a]) \/ exists a b, wanted_stripes r = [a; b] /\ a < b /\ 0 <= b < 2 ^ 16.
Proof.
  unfold wanted_stripes, range_stripes.
  set (a := blockIndexToStripe _ (rg_first r)). set (b := blockIndexToStripe _ (_ -₆₄ 1)).
  assert (0 <= a < 2 ^ 16) by apply blockIndexToStripe_range. assert (0 <= b < 2 ^ 16) by apply blockIndexToStripe_range.
  destruct (Z.eqb_spec a b); [left; by eexists|right]. eexists _, _. split; [done|]. lia.
Qed.

Lemma held_below_wanted r held s rest x :
  held ++ s :: rest = wanted_stripes r -> x ∈ held -> x < s /\ s < 2 ^ 16.
Proof.
  intros He Hx. destruct held as [|h held]; [by apply elem_of_nil in Hx|].
  destruct (wanted_stripes_ascend r) as [(a & Hw)|(a & b & Hw & Hab & Hb)]; rewrite Hw in He;
    injection He as -> He; destruct held as [|h2 held]; try done.
  - injection He as -> ->. apply list_elem_of_singleton in Hx as ->. lia.
  - injection He as -> He. by destruct held.
Qed.

(** A thread that holds something can move on, or waits for a higher stripe. *)
Definition can_progress (th : Thread) (t : lock_table) : Prop :=
  exists a th' t', (forall k r ex, a <> L_begin k r ex) /\ thread_step a th t = Some (th', t').

Lemma acquire_progress th t p :
  th_acquire th = Some p -> blocked th t \/ can_progress th t.
Proof.
  intros Hp. destruct (a_wanted p) as [|s rest] eqn:Hw.
  - right. eexists L_keep, _, _. split; [done|]. unfold thread_step. by rewrite Hp, Hw.
  - destruct (try_lock (guard_exclusive (a_guard p)) s t) as [t'|] eqn:Ht.
    + right. eexists L_lock, _, _. split; [done|]. unfold thread_step. by rewrite Hp, Hw, Ht.
    + destruct (a_mayBlock p) eqn:Hb.
      * left. by exists p, s, rest.
      * right. eexists L_giveup, _, _. split; [done|]. unfold thread_step. by rewrite Hp, Hw, Hb, Ht.
Qed.

Lemma sum_list_with_pos {A} (f : A -> nat) l :
  (0 < sum_list_with f l)%nat -> exists i x, l !! i = Some x /\ (0 < f x)%nat.
Proof.
  induction l as [|y l IH]; cbn; [lia|]. intros H. destruct (decide (0 < f y)%nat); [by exists 0%nat, y|].
  destruct IH as (i & x & Hi & Hx); [lia|]. by exists (S i), x.
Qed.

Lemma holder_progress th t s ex :
  thread_ok th -> (0 < thread_count s ex th)%nat ->
  can_progress th t
  \/ exists p s' rest, th_acquire th = Some p /\ a_mayBlock p = true /\ a_wanted p = s' :: rest
       /\ try_lock (guard_exclusive (a_guard p)) s' t = None /\ s < s' /\ s' < 2 ^ 16.
Proof.
  intros Hok Hpos. destruct (th_acquire th) as [p|] eqn:Hp.
  - destruct (acquire_progress th t p Hp) as [(p' & s' & rest & Hp' & Hb & Hw & Ht)|]; [|by left].
    right. exists p', s', rest. rewrite Hp in Hp'. injection Hp' as <-. split_and!; try done.
    all: destruct (to_acquire th Hok p Hp) as (_ & Hst & Hnone); specialize (Hnone Hb).
    all: unfold thread_count in Hpos; rewrite Hp in Hpos; rewrite Hw in Hst.
    all: assert (sum_list_with (slot_count s ex) (journalIOSlots th) = 0%nat) as Hz;
      [|cbn in Hpos; rewrite Hz in Hpos; apply stripe_count_pos in Hpos as [_ Hin]; by eapply held_below_wanted].
    all: apply sum_list_with_0, Forall_forall; intros sl Hsl; apply list_elem_of_lookup in Hsl as [k Hk];
      pose proof (sum_list_with_ge1 occupied _ k sl Hk) as Hocc; destruct sl; cbn in *; [lia|done].
  - left. unfold thread_count in Hpos. rewrite Hp in Hpos. cbn in Hpos.
    destruct (sum_list_with_pos (slot_count s ex) (journalIOSlots th)) as (k & [[r g]|] & Hk & Hx); [lia| |cbn in Hx; lia].
    eexists (L_finish k), _, _. split; [done|]. unfold thread_step. rewrite Hp, Hk. done.
Qed.

Lemma blocked_progress s th p st rest :
  system_ok s -> th ∈ sys_threads s -> th_acquire th = Some p -> a_wanted p = st :: rest ->
  try_lock (guard_exclusive (a_guard p)) st (sys_locks s) = None ->
  exists i' th', sys_threads s !! i' = Some th' /\ can_progress th' (sys_locks s).
Proof.
  intros Hok. remember (Z.to_nat (2 ^ 16 - st)) as m eqn:Hm. revert th p st rest Hm.
  induction m as [m IH] using lt_wf_ind. intros th p st rest Hm Hth Hp Hw Ht.
  pose proof (so_locks s Hok st) as Hl. apply try_lock_none in Ht as [ls Hls]. rewrite Hls in Hl.
  assert (exists ex, (0 < sum_list_with (thread_count st ex) (sys_threads s))%nat) as [ex Hpos].
  { destruct ls as [n|]; [exists false|exists true]; cbn in Hl; lia. }
  apply sum_list_with_pos in Hpos as (i' & th' & Hi' & Hc).
  pose proof (Forall_lookup_1 _ _ _ _ (so_threads s Hok) Hi') as Hok'.
  destruct (holder_progress th' (sys_locks s) st ex Hok' Hc) as [Hprog|(p' & s' & rest' & Hp' & _ & Hw' & Ht' & Hlt & Hmax)].
  - by exists i', th'.
  - eapply (IH (Z.to_nat (2 ^ 16 - s'))); [lia|done|by eapply list_elem_of_lookup_2|exact Hp'|exact Hw'|exact Ht'].
Qed.

(** ** Running a schedule *)

Fixpoint run (schedule : list (nat * lock_action)) (s : system) : option system :=
  match schedule with
  | [] => Some s
  | (i, a) :: schedule =>
      th ← sys_threads s !! i;
      '(th', t') ← thread_step a th (sys_locks s);
      run schedule (mkSystem (<[i := th']> (sys_threads s)) t')
  end.

Lemma run_steps schedule s s' : run schedule s = Some s' -> rtc step s s'.
Proof.
  revert s. induction schedule as [|[i a] schedule IH]; intros s Hrun; cbn [run] in Hrun.
  { simplify_eq. done. }
  destruct (sys_threads s !! i) as [th|] eqn:Hi; [|done]. cbn [mbind option_bind] in Hrun.
  destruct (thread_step a th (sys_locks s)) as [[th' t']|] eqn:Ht; [|done]. cbn [mbind option_bind] in Hrun.
  eapply rtc_l; [|by apply IH]. destruct s as [threads t]. by eapply step_thread.
Qed.

(** Journals with the same locking parameters map blocks to the same stripes. *)
Lemma range_stripes_ext j j' first num :
  lockRegionShift j = lockRegionShift j' -> stripeSalt j = stripeSalt j' ->
  range_stripes j first num = range_stripes j' first num.
Proof. intros H1 H2. unfold range_stripes, blockIndexToStripe. by rewrite H1, H2. Qed.

(** An I/O of the run with the locking parameters of journal [j]. *)
Definition io_of (j : Journal) (maxIOSize : Z) (r : io_range) : Prop :=
  lockRegionShift (rg_journal r) = lockRegionShift j /\ stripeSalt (rg_journal r) = stripeSalt j
  /\ 0 <= rg_first r /\ 0 < rg_num r <= ceil_blocks maxIOSize (journalBlockSize j)
  /\ rg_first r + rg_num r < 2 ^ 63.

(** ** Theorems *)

(** C21: mutual exclusion: whatever the interleaving of the worker threads, two in-flight I/Os of a
    journal that cover a common block are both reads; so no block is read or written while
    another I/O writes it. *)
Theorem journal_io_mutual_exclusion maxIOSize sync j0 j s i k r g i' k' r' g' b :
  0 < journalBlockSize j0 -> 0 < maxIOSize -> maxIOSize + journalBlockSize j0 <= 2 ^ 63 ->
  initRunOptions maxIOSize sync j0 = Some j -> reachable s ->
  (i, k) <> (i', k') -> holds_guard s i k r g -> holds_guard s i' k' r' g' ->
  io_of j maxIOSize r -> io_of j maxIOSize r' ->
  rg_first r <= b < rg_first r + rg_num r -> rg_first r' <= b < rg_first r' + rg_num r' ->
  guard_exclusive g = false /\ guard_exclusive g' = false.
Proof.
  intros Hbs Hm Hmb Hinit Hreach Hne Hg Hg' (Hs1 & Hs2 & Hf & Hn & He) (Hs1' & Hs2' & Hf' & Hn' & He') Hb Hb'.
  apply reachable_ok in Hreach. assert (journalBlockSize j = journalBlockSize j0) as Hjb.
  { destruct (initRunOptions_stripes maxIOSize sync j0 Hbs Hm Hmb) as (j' & Hi' & _ & _ & Hsame & _). by simplify_eq. }
  rewrite Hjb in Hn, Hn'.
  destruct (overlapping_ranges_share_stripe maxIOSize sync j0 j (rg_first r) (rg_num r) (rg_first r') (rg_num r') b)
    as (st & Hst & Hst'); [done..|].
  assert (forall i k r g, holds_guard s i k r g -> guard_locks g = wanted_stripes r) as Hw.
  { intros i0 k0 r0 g0 (th & Hi & Hk). eapply to_slots; [|exact Hk]. eapply Forall_lookup_1; [apply Hreach|exact Hi]. }
  pose proof (Hw _ _ _ _ Hg) as Hl. pose proof (Hw _ _ _ _ Hg') as Hl'. unfold wanted_stripes in Hl, Hl'.
  rewrite (range_stripes_ext _ j) in Hl by done. rewrite (range_stripes_ext _ j) in Hl' by done. rewrite <- Hl in Hst. rewrite <- Hl' in Hst'. split.
  - destruct (guard_exclusive g) eqn:Hex; [|done]. exfalso. by eapply (exclusive_guard_alone s i k r g).
  - destruct (guard_exclusive g') eqn:Hex; [|done]. exfalso.
    eapply (exclusive_guard_alone s i' k' r' g' i k r g); try done.
Qed.

(** C22: no deadlock: whenever some worker thread waits for a journal lock, it holds no guard of its
    own, and some thread of the process can move on (take its next lock, give up, finish
    [begin()], or complete an I/O). *)
Theorem journal_locks_no_deadlock s i th :
  reachable s -> sys_threads s !! i = Some th -> blocked th (sys_locks s) ->
  Forall (fun sl => sl = None) (journalIOSlots th)
  /\ exists i' th', sys_threads s !! i' = Some th' /\ can_progress th' (sys_locks s).
Proof.
  intros Hreach Hi (p & st & rest & Hp & Hb & Hw & Ht). apply reachable_ok in Hreach. split.
  - pose proof (Forall_lookup_1 _ _ _ _ (so_threads s Hreach) Hi) as Hok.
    destruct (to_acquire th Hok p Hp) as (_ & _ & Hnone). specialize (Hnone Hb).
    apply Forall_forall. intros sl Hsl. apply list_elem_of_lookup in Hsl as [k Hk].
    pose proof (sum_list_with_ge1 occupied _ k sl Hk). destruct sl; cbn in *; [lia|done].
  - eapply blocked_progress; [done|by eapply list_elem_of_lookup_2|done..].
Qed.

(** A worker's count of held guards is exact in every reachable state, so that its
    non-blocking and blocking requests are chosen as intended: it is the number of its slots
    with an I/O in flight, each of which holds all the locks of its range. *)
Lemma journal_guard_accounting s i th :
  reachable s -> sys_threads s !! i = Some th ->
  journalNumGuardsHeld th = Z.of_nat (length (filter is_Some (journalIOSlots th)))
  /\ forall k r g, journalIOSlots th !! k = Some (Some (r, g)) -> guard_locks g = wanted_stripes r.
Proof.
  intros Hreach Hi. apply reachable_ok in Hreach.
  pose proof (Forall_lookup_1 _ _ _ _ (so_threads s Hreach) Hi) as [Hh Hs _]. split; [|done].
  rewrite Hh. f_equal. clear. induction (journalIOSlots th) as [|[x|] l IH]; [done|..].
  - rewrite filter_cons_True by (by eexists). cbn. by rewrite IH.
  - rewrite filter_cons_False by (by intros [? ?]). cbn. by rewrite IH.
Qed.

(** ** Two threads with two slots each *)

Definition ex_run_journal : Journal := default ex_journal (initRunOptions 65536 true ex_journal).
Definition ex_thread : Thread := mkThread [None; None] 0 None.
Definition ex_system0 : system := mkSystem [ex_thread; ex_thread] ∅.
Definition ex_read : io_range := mkRange ex_run_journal 0 4.
Definition ex_read2 : io_range := mkRange ex_run_journal 2 4.

Lemma ex_initial : initial ex_system0.
Proof. split; [reflexivity|]. repeat constructor. Defined.

(** Both threads read overlapping ranges. *)
Definition ex_reads : list (nat * lock_action) :=
  [(0%nat, L_begin 0 ex_read false); (1%nat, L_begin 1 ex_read2 false); (0%nat, L_lock); (1%nat, L_lock);
   (1%nat, L_keep); (0%nat, L_keep)].

Definition ex_system1 : system := default ex_system0 (run ex_reads ex_system0).

Lemma ex_reads_run : run ex_reads ex_system0 = Some ex_system1.
Proof. vm_compute. reflexivity. Defined.

Lemma ex_reachable1 : reachable ex_system1.
Proof. exists ex_system0. split; [exact ex_initial|]. apply (run_steps ex_reads). exact ex_reads_run. Defined.

(** Thread 0 writes, thread 1 wants the same blocks. *)
Definition ex_blocking : list (nat * lock_action) :=
  [(0%nat, L_begin 0 ex_read true); (0%nat, L_lock); (0%nat, L_keep); (1%nat, L_begin 0 ex_read2 true)].

Definition ex_system2 : system := default ex_system0 (run ex_blocking ex_system0).

Lemma ex_reachable2 : reachable ex_system2.
Proof.
  exists ex_system0. split; [exact ex_initial|]. apply (run_steps ex_blocking). vm_compute. reflexivity.
Defined.

Definition ex_guard : JournalRangeGuard := mkGuard (wanted_stripes ex_read) false.
Definition ex_guard2 : JournalRangeGuard := mkGuard (wanted_stripes ex_read2) false.

Lemma journal_io_mutual_exclusion_witness :
  reachable ex_system1 /\ guard_exclusive ex_guard = false /\ guard_exclusive ex_guard2 = false.
Proof.
  split; [exact ex_reachable1|].
  apply (journal_io_mutual_exclusion 65536 true ex_journal ex_run_journal ex_system1 0 0 ex_read ex_guard 1 1 ex_read2 ex_guard2 3).
  - cbn. lia.
  - lia.
  - cbn. lia.
  - reflexivity.
  - exact ex_reachable1.
  - discriminate.
  - eexists. split; reflexivity.
  - eexists. split; reflexivity.
  - repeat split; vm_compute; (reflexivity || discriminate).
  - repeat split; vm_compute; (reflexivity || discriminate).
  - cbn. lia.
  - cbn. lia.
Defined.

Lemma journal_locks_no_deadlock_witness :
  exists i' th', sys_threads ex_system2 !! i' = Some th' /\ can_progress th' (sys_locks ex_system2).
Proof.
  apply (journal_locks_no_deadlock ex_system2 1 (mkThread [None; None] 0 (Some (start_acquire 0 ex_read2 true true)))).
  - exact ex_reachable2.
  - vm_compute. reflexivity.
  - eexists _, _, []. split; [reflexivity|]. split; [reflexivity|]. split; [vm_compute; reflexivity|]. vm_compute. reflexivity.
Defined.

Lemma journal_guard_accounting_witness :
  exists th, sys_threads ex_system2 !! 0%nat = Some th
    /\ journalNumGuardsHeld th = Z.of_nat (length (filter is_Some (journalIOSlots th))).
Proof.
  destruct (sys_threads ex_system2 !! 0%nat) as [th|] eqn:Hth; [|vm_compute in Hth; discriminate].
  exists th. split; [reflexivity|]. apply (journal_guard_accounting ex_system2 0 th ex_reachable2 Hth).
Defined.
