(* ===== verification/JournalStore.v ===== *)
(** The journals of a run: class [JournalStore] of toolkits/JournalStore.{h,cpp}, which scans the
    journal directory for sidecar files, matches them with the targets of the run and opens or
    creates one [Journal] per target.

    The JSON parser and the file system are parameters: a directory entry comes with what the
    parser makes of it ([ptree]), [sys] tells which system calls succeed for a target, [binary]
    is the content of the binary journal files and [rand] the device that seeds new journals. *)

From S2P Require Import Prelude CppStrings Journal.
From Stdlib Require String.

#[local] Open Scope list_scope.
#[local] Open Scope Z_scope.

(** ** Definitions *)

(** [tree.get<std::string>()] and [tree.get<uint64_t>()] of a parsed sidecar. *)
Record ptree : Type := mkTree { get_string : string -> option string; get_u64 : string -> option Z }.

(** A file of the directory: its name and the tree, if it can be parsed. *)
Definition dirent : Type := string * option ptree.

Record SidecarInfo : Type := mkSidecar {
  sc_sidecarPath : string;
  sc_binaryPath : string;
  sc_binaryFileName : string;
  sc_target : string;
  sc_journalBlockSize : Z;
  sc_targetOffset : Z;
  sc_targetSize : Z;
  sc_journalSeed : Z;
}.

Definition JOURNAL_SIDECAR_SUFFIX : string := ".journal.json".

Definition is_sidecar_name (name : string) : bool :=
  let n := String.length name in
  let m := String.length JOURNAL_SIDECAR_SUFFIX in
  negb ((n <=? m)%nat || negb (String.eqb (String.substring (n - m) m name) JOURNAL_SIDECAR_SUFFIX)).

Definition field {A} (o : option A) : result A :=
  match o with
  | Some x => Ok x
  | None => Throw (ProgException "Journal sidecar file is missing a required field or has an invalid value.")
  end.

Definition parse_sidecar (journalDirPath name : string) (tree : ptree) : result SidecarInfo :=
  target ← field (get_string tree "target");
  bs ← field (get_u64 tree "journalBlockSize");
  offset ← field (get_u64 tree "targetOffset");
  size ← field (get_u64 tree "targetSize");
  seed ← field (get_u64 tree "journalSeed");
  binaryFileName ← field (get_string tree "binaryFileName");
  Ok (mkSidecar (journalDirPath +:+ "/" +:+ name) (journalDirPath +:+ "/" +:+ binaryFileName)
        binaryFileName target bs offset size seed).

Fixpoint scan_entries (journalDirPath : string) (entries : list dirent) : result (list SidecarInfo) :=
  match entries with
  | [] => Ok []
  | (name, tree) :: entries =>
      if negb (is_sidecar_name name) then scan_entries journalDirPath entries
      else
        match tree with
        | None => Throw (ProgException "Unable to parse journal sidecar file.")
        | Some tree =>
            info ← parse_sidecar journalDirPath name tree;
            rest ← scan_entries journalDirPath entries;
            Ok (info :: rest)
        end
  end.

Definition scanSidecars (journalDirPath : string) (dir : option (list dirent)) : result (list SidecarInfo) :=
  match dir with
  | None => Throw (ProgException "Unable to open journal directory.")
  | Some entries => scan_entries journalDirPath entries
  end.

(** What [init()] reads from [ProgArgs]. *)
Record JournalArgs : Type := mkArgs {
  journalDirStr : string;
  benchPaths : list string;
  runJournalBlockSize : Z;
  runOffset : Z;
  runFileSize : Z;
  maxBlockSize : Z;
  runJournalSync : bool;
}.

Section store.
Context (sys : string -> journal_syscall -> bool) (rand : string -> Z * Z) (binary : string -> list Z).

Definition store_throw {A} (msg : string) : result A := Throw (ProgException msg).

(** The journal of one target. *)
Definition target_journal (args : JournalArgs) (sidecars : list SidecarInfo) (targetPath : string)
    : result Journal :=
  let runEndOffset := runOffset args +₆₄ runFileSize args in
  match filter (fun sidecar => sc_target sidecar = targetPath) sidecars with
  | [] =>
      Journal_createNew (sys targetPath) (rand targetPath).1 (rand targetPath).2
        (runJournalBlockSize args) (runOffset args) (runFileSize args)
  | [sidecar] =>
      if negb (sc_journalBlockSize sidecar =? runJournalBlockSize args) then
        store_throw "Existing journal's block size does not match the one given for this run."
      else
        let sidecarEndOffset := sc_targetOffset sidecar +₆₄ sc_targetSize sidecar in
        if (runOffset args <? sc_targetOffset sidecar) || (sidecarEndOffset <? runEndOffset) then
          store_throw "Requested range exceeds the range that the existing journal was created for."
        else
          Journal_openExisting (sys targetPath) (binary (sc_binaryPath sidecar))
            (sc_journalBlockSize sidecar) (sc_targetOffset sidecar) (sc_targetSize sidecar)
            (sc_journalSeed sidecar)
  | _ => store_throw "Ambiguous journal sidecars found for target."
  end.

(** The loop over the targets; [None] if choosing a region size does not end. *)
Fixpoint init_targets (args : JournalArgs) (sidecars : list SidecarInfo) (targets : list string)
    : option (result (list Journal)) :=
  match targets with
  | [] => Some (Ok [])
  | targetPath :: targets =>
      match target_journal args sidecars targetPath with
      | Throw e => Some (Throw e)
      | Ok journal =>
          journal ← initRunOptions (maxBlockSize args) (runJournalSync args) journal;
          rest ← init_targets args sidecars targets;
          Some (rest ← rest; Ok (journal :: rest))
      end
  end.

Record JournalStore : Type := mkJournalStore { js_enabled : bool; journalsVec : list Journal }.

Definition JournalStore_new : JournalStore := mkJournalStore false [].

Definition JournalStore_init (args : JournalArgs) (isDir : bool) (dir : option (list dirent))
    (store : JournalStore) : option (result JournalStore) :=
  if negb isDir then Some (store_throw "Journal directory does not exist or is not a directory.")
  else
    match scanSidecars (journalDirStr args) dir with
    | Throw e => Some (Throw e)
    | Ok sidecars =>
        journals ← init_targets args sidecars (benchPaths args);
        Some (journals ← journals; Ok (mkJournalStore true journals))
    end.

Definition getJournalForTarget (store : JournalStore) (targetIdx : nat) : option Journal :=
  if negb (js_enabled store) || (length (journalsVec store) <=? targetIdx)%nat then None
  else journalsVec store !! targetIdx.

(** The destructor of each journal syncs the whole mapping if the run asked for it; the file keeps
    what the mapping holds in either case, as long as the system does not crash. *)
Definition Journal_close (j : Journal) : Journal := if journalSyncEnabled j then with_disk j (j_mem j) else j.

Definition closeAll (store : JournalStore) : list Journal * JournalStore :=
  (Journal_close <$> journalsVec store, JournalStore_new).

(** ** Specification *)

(** The checks of [ProgArgs] on the run, and what an earlier run left in a sidecar. *)
Record run_ok (args : JournalArgs) : Prop := {
  ro_bs : 0 < runJournalBlockSize args;
  ro_off : 0 <= runOffset args;
  ro_size : 0 <= runFileSize args;
  ro_off_al : runOffset args `mod` runJournalBlockSize args = 0;
  ro_bound : runOffset args + runFileSize args + runJournalBlockSize args <= 2 ^ 62;
  ro_max : 0 < maxBlockSize args <= 2 ^ 62;
}.

Definition sidecar_ok (s : SidecarInfo) : Prop :=
  0 < sc_journalBlockSize s /\ 0 <= sc_targetOffset s /\ 0 <= sc_targetSize s
  /\ sc_targetOffset s `mod` sc_journalBlockSize s = 0
  /\ sc_targetOffset s + sc_targetSize s + sc_journalBlockSize s <= 2 ^ 62.

(** A journal that serves every I/O of the run. *)
Definition serves_run (args : JournalArgs) (j : Journal) : Prop :=
  journal_wf j /\ journalBlockSize j = runJournalBlockSize args
  /\ journalSyncEnabled j = runJournalSync args
  /\ forall off len, runOffset args <= off -> 0 < len -> off + len <= runOffset args + runFileSize args ->
     off `mod` runJournalBlockSize args = 0 -> io_range_ok j off len.

(** ** Journals of the run *)

Lemma check_sys_ok b msg u : check_sys b msg = Ok u -> b = true.
Proof. by destruct b. Qed.

(** A journal with the given geometry. *)
Definition journal_of (bs off size : Z) (j : Journal) : Prop :=
  journal_wf j /\ journalBlockSize j = bs /\ targetOffset j = off /\ numJournalBlocks j = ceil_blocks size bs.

Lemma mapLength_nonneg j : 0 <= mapLength j.
Proof. unfold mapLength. apply Z.div_pos; [apply u64_range|lia]. Qed.

Lemma createNew_journal sc r1 r2 bs off size j :
  0 < bs -> 0 <= size -> size + bs <= 2 ^ 62 -> Journal_createNew sc r1 r2 bs off size = Ok j -> journal_of bs off size j.
Proof.
  intros Hbs Hs Hb Hj. pose proof (ceil_blocks_range size bs Hbs Hs Hb) as Hn. unfold Journal_createNew in Hj.
  destruct (sc Sys_create_sidecar), (sc Sys_write_sidecar), (sc Sys_fsync_sidecar), (sc Sys_create_binary),
    (sc Sys_ftruncate), (sc Sys_fallocate), (sc Sys_mmap); try discriminate Hj.
  cbn [check_sys mbind result_bind] in Hj. injection Hj as <-. split; [|done].
  match goal with |- journal_wf (with_disk (with_mem ?jj _) _) => pose proof (mapLength_nonneg jj) as Hml end.
  split; cbn; [lia|done| | |apply Forall_replicate; done..]; rewrite length_replicate; unfold mapLength in *; cbn in *; lia.
Qed.

Lemma openExisting_journal sc bin bs off size seed j :
  0 < bs -> 0 <= size -> size + bs <= 2 ^ 62 -> Forall is_byte bin ->
  Journal_openExisting sc bin bs off size seed = Ok j -> journal_of bs off size j.
Proof.
  intros Hbs Hs Hb Hbin Hj. pose proof (ceil_blocks_range size bs Hbs Hs Hb) as Hn. unfold Journal_openExisting in Hj.
  destruct (sc Sys_open_binary), (sc Sys_fstat); try discriminate Hj. cbn [check_sys mbind result_bind] in Hj.
  destruct (Z.eqb_spec (Z.of_nat (length bin)) (mapLength (mkJournal [] [] bs off size (ceil_blocks size bs) seed false 0 0)))
    as [Hlen|]; [|discriminate Hj]. cbn [check_sys] in Hj.
  destruct (sc Sys_mmap); [|discriminate Hj]. cbn in Hj. injection Hj as <-. split; [|done].
  split; cbn; [lia|done|done|done|done|done].
Qed.

(** Geometry decides which I/Os the journal can track. *)
Lemma journal_of_range bs off0 size j off len :
  0 < bs -> 0 <= off0 -> 0 <= size -> off0 + size + bs <= 2 ^ 62 -> off0 `mod` bs = 0 -> journal_of bs off0 size j ->
  off0 <= off -> 0 < len -> off + len <= off0 + size -> off `mod` bs = 0 -> io_range_ok j off len.
Proof.
  intros Hbs Ho Hs Hb Hal (Hj & Hjb & Hjo & Hjn) Hoff Hlen Hend Hmod. unfold io_range_ok. rewrite Hjb, Hjo, Hjn.
  split; [lia|]. split; [done|]. split; [lia|]. split; [by rewrite Zminus_mod, Hmod, Hal, Z.mod_0_l by lia|].
  split; [|lia]. unfold ceil_blocks. rewrite (u64_small (size + bs)), u64_small by lia.
  pose proof (Z.div_mod (size + bs - 1) bs ltac:(lia)). pose proof (Z.mod_pos_bound (size + bs - 1) bs Hbs). nia.
Qed.

Hypothesis binary_bytes : forall path, Forall is_byte (binary path).

Lemma target_journal_serves args sidecars targetPath j :
  run_ok args -> Forall sidecar_ok sidecars -> target_journal args sidecars targetPath = Ok j ->
  exists off size, journal_of (runJournalBlockSize args) off size j
    /\ 0 <= off <= runOffset args /\ runOffset args + runFileSize args <= off + size
    /\ off `mod` runJournalBlockSize args = 0 /\ off + size + runJournalBlockSize args <= 2 ^ 62 /\ 0 <= size.
Proof.
  intros [Hbs Ho Hs Hal Hb Hm] Hsc Hj. unfold target_journal in Hj.
  destruct (filter _ sidecars) as [|sc [|sc2 rest]] eqn:Hf; [| |done].
  - apply createNew_journal in Hj; [|lia..]. exists (runOffset args), (runFileSize args). split; [done|]. split_and!; (done || lia).
  - assert (sc ∈ filter (fun sidecar => sc_target sidecar = targetPath) sidecars) as Hin by (rewrite Hf; left).
    apply list_elem_of_filter in Hin as [_ Hin]. rewrite Forall_forall in Hsc. destruct (Hsc sc Hin) as (Hb1 & Ho1 & Hs1 & Hal1 & Hbd1).
    destruct (Z.eqb_spec (sc_journalBlockSize sc) (runJournalBlockSize args)) as [Heq|]; [|done]. cbn [negb] in Hj.
    destruct (_ || _) eqn:Hr; [done|]. apply orb_false_iff in Hr as [Hr1 Hr2].
    rewrite !u64_small in Hr2 by lia. apply openExisting_journal in Hj; [|lia|lia|lia|done]. rewrite Heq in *.
    exists (sc_targetOffset sc), (sc_targetSize sc). split; [done|]. split_and!; (done || lia).
Qed.

Lemma initRunOptions_same maxIO sync j j' :
  initRunOptions maxIO sync j = Some j' ->
  journalSyncEnabled j' = sync /\ forall bs off size, journal_of bs off size j -> journal_of bs off size j'.
Proof.
  unfold initRunOptions. destruct (region_shift _ _ _); [|done]. cbn. intros [= <-]. split; [done|].
  intros bs off size ([] & ? & ? & ?). by split.
Qed.

Lemma init_targets_serve args sidecars targets :
  run_ok args -> Forall sidecar_ok sidecars ->
  match init_targets args sidecars targets with
  | None => False
  | Some (Throw _) => True
  | Some (Ok journals) => Forall2 (fun _ j => serves_run args j) targets journals
  end.
Proof.
  intros Hrun Hsc. induction targets as [|target targets IH]; cbn [init_targets]; [constructor|].
  destruct (target_journal args sidecars target) as [j|e] eqn:Hj; [|done].
  destruct (target_journal_serves _ _ _ _ Hrun Hsc Hj) as (off & size & Hof & Hoff & Hend & Hal & Hb & Hs).
  pose proof Hrun as [Hbs Ho Hs0 Hal0 Hb0 Hm].
  destruct (initRunOptions_stripes (maxBlockSize args) (runJournalSync args) j) as (j' & Hj' & _);
    [by destruct Hof as (_ & -> & _)|lia|destruct Hof as (_ & -> & _); lia|].
  rewrite Hj'. cbn [mbind option_bind]. destruct (init_targets args sidecars targets) as [[js|e]|]; [|done|done].
  cbn. constructor; [|done]. destruct (initRunOptions_same _ _ _ _ Hj') as [Hsync Hsame]. pose proof (Hsame _ _ _ Hof) as Hof'.
  split; [apply Hof'|]. split; [apply Hof'|]. split; [done|]. intros o l Hol Hl He Hmod.
  eapply journal_of_range; [|..|exact Hof'| | | |]; (done || lia).
Qed.

Lemma init_targets_sidecars args sidecars targets journals target :
  init_targets args sidecars targets = Some (Ok journals) -> target ∈ targets ->
  (length (filter (fun s => sc_target s = target) sidecars) <= 1)%nat
  /\ forall s, s ∈ sidecars -> sc_target s = target -> sc_journalBlockSize s = runJournalBlockSize args.
Proof.
  revert journals. induction targets as [|t targets IH]; intros journals Hi Hin; [by apply elem_of_nil in Hin|].
  cbn [init_targets] in Hi. destruct (target_journal args sidecars t) as [j|e] eqn:Hj; [|done].
  destruct (initRunOptions _ _ j) as [j'|]; [|done]. cbn in Hi.
  destruct (init_targets args sidecars targets) as [[js|e]|]; [|done..]. apply elem_of_cons in Hin as [->|Hin]; [|by eapply IH].
  unfold target_journal in Hj. destruct (filter _ sidecars) as [|sc [|sc2 rest]] eqn:Hf; [| |done].
  - split; [simpl; lia|]. intros s Hs Ht. assert (s ∈ filter (fun s => sc_target s = t) sidecars) as H by (by apply list_elem_of_filter).
    rewrite Hf in H. by apply elem_of_nil in H.
  - split; [simpl; lia|]. intros s Hs Ht. assert (s ∈ filter (fun s => sc_target s = t) sidecars) as H by (by apply list_elem_of_filter).
    rewrite Hf in H. apply list_elem_of_singleton in H as ->. destruct (Z.eqb_spec (sc_journalBlockSize sc) (runJournalBlockSize args)); done.
Qed.
End store.

(** The store of a run has a journal for each target. *)
Lemma JournalStore_init_serves sys rand binary args isDir dir store :
  (forall path, Forall is_byte (binary path)) -> run_ok args ->
  (forall sidecars, scanSidecars (journalDirStr args) dir = Ok sidecars -> Forall sidecar_ok sidecars) ->
  match JournalStore_init sys rand binary args isDir dir store with
  | None => False
  | Some (Throw _) => True
  | Some (Ok store') =>
      js_enabled store' = true
      /\ (forall i, (i < length (benchPaths args))%nat ->
          exists j, getJournalForTarget store' i = Some j /\ serves_run args j)
      /\ (forall i, (length (benchPaths args) <= i)%nat -> getJournalForTarget store' i = None)
  end.
Proof.
  intros Hbytes Hrun Hsc. unfold JournalStore_init. destruct isDir; cbn [negb]; [|done].
  destruct (scanSidecars (journalDirStr args) dir) as [sidecars|e] eqn:Hscan; [|done]. specialize (Hsc sidecars eq_refl).
  pose proof (init_targets_serve sys rand binary Hbytes args sidecars (benchPaths args) Hrun Hsc) as Hserve.
  destruct (init_targets sys rand binary args sidecars (benchPaths args)) as [[js|e]|] eqn:Hi; [|done|done]. cbn.
  pose proof (Forall2_length _ _ _ Hserve) as Hlen. split; [done|]. split.
  - intros i Hlt. unfold getJournalForTarget. cbn. rewrite (proj2 (Nat.leb_gt _ _)) by lia.
    destruct (lookup_lt_is_Some_2 (benchPaths args) i Hlt) as [t Ht].
    destruct (Forall2_lookup_l _ _ _ _ _ Hserve Ht) as (j & Hj & Hs). by exists j.
  - intros i Hge. unfold getJournalForTarget. cbn. by rewrite (proj2 (Nat.leb_le _ _)) by lia.
Qed.

(** ** Theorems *)

(** C37: [JournalStore::init()] ends for every directory content, and when it does not throw every
    target of the run has exactly one journal, at the target's index, whose block size is the
    run's and which covers every aligned I/O within the range of the run, be it new or resumed; a
    target with two sidecars, or one of another block size, is refused. *)
Theorem journal_store_covers_run sys rand binary args isDir dir store :
  (forall path, Forall is_byte (binary path)) -> run_ok args ->
  (forall sidecars, scanSidecars (journalDirStr args) dir = Ok sidecars -> Forall sidecar_ok sidecars) ->
  match JournalStore_init sys rand binary args isDir dir store with
  | None => False
  | Some (Throw _) => True
  | Some (Ok store') =>
      js_enabled store' = true
      /\ (forall i, (i < length (benchPaths args))%nat ->
          exists j, getJournalForTarget store' i = Some j /\ serves_run args j)
      /\ (forall i, (length (benchPaths args) <= i)%nat -> getJournalForTarget store' i = None)
      /\ exists sidecars, scanSidecars (journalDirStr args) dir = Ok sidecars
         /\ forall target, target ∈ benchPaths args ->
            (length (filter (fun s => sc_target s = target) sidecars) <= 1)%nat
            /\ forall s, s ∈ sidecars -> sc_target s = target -> sc_journalBlockSize s = runJournalBlockSize args
  end.
Proof.
  intros Hbytes Hrun Hsc. pose proof (JournalStore_init_serves sys rand binary args isDir dir store Hbytes Hrun Hsc) as Hserves.
  destruct (JournalStore_init _ _ _ _ _ _ _) as [[store'|e]|] eqn:Hi; [|done..]. destruct Hserves as (Hen & Hin & Hout).
  split; [done|]. split; [done|]. split; [done|]. unfold JournalStore_init in Hi. destruct isDir; [|done]. cbn [negb] in Hi.
  destruct (scanSidecars (journalDirStr args) dir) as [sidecars|e]; [|done]. exists sidecars. split; [done|]. intros target Ht.
  destruct (init_targets sys rand binary args sidecars (benchPaths args)) as [[js|e]|] eqn:Hits; [|done..].
  by eapply init_targets_sidecars.
Qed.

(** ** One resumed and one new journal *)

Definition ex_tree : ptree := mkTree
  (fun key => if String.eqb key "target" then Some "/dev/a"
              else if String.eqb key "binaryFileName" then Some "a.journal" else None)
  (fun key => if String.eqb key "journalBlockSize" then Some 4096 else if String.eqb key "targetOffset" then Some 0
              else if String.eqb key "targetSize" then Some 40960 else if String.eqb key "journalSeed" then Some 7 else None).

Definition ex_args : JournalArgs := mkArgs "/j" ["/dev/a"; "/dev/b"] 4096 8192 16384 8192 true.
Definition ex_dir : option (list dirent) := Some [("a.journal", None); ("a.journal.json", Some ex_tree)].
Definition ex_binary (path : string) : list Z := [0x1b; 0; 0].

Lemma journal_store_covers_run_witness :
  exists store', JournalStore_init (fun _ _ => true) (fun _ => (1, 2)) ex_binary ex_args true ex_dir JournalStore_new
                 = Some (Ok store')
    /\ exists j, getJournalForTarget store' 0 = Some j /\ serves_run ex_args j.
Proof.
  pose proof (journal_store_covers_run (fun _ _ => true) (fun _ => (1, 2)) ex_binary ex_args true ex_dir JournalStore_new) as H.
  destruct (JournalStore_init _ _ _ _ _ _ _) as [[store'|e]|] eqn:Hi.
  - exists store'. split; [reflexivity|]. destruct H as (_ & Hj & _).
    + intros path. repeat constructor; unfold is_byte; lia.
    + split; cbn; try lia. reflexivity.
    + intros sidecars Hs. vm_compute in Hs. injection Hs as <-. repeat constructor; vm_compute; discriminate || reflexivity.
    + apply (Hj 0%nat). cbn. lia.
  - vm_compute in Hi. discriminate.
  - vm_compute in Hi. discriminate.
Defined.
