(* ===== verification/Integrity.v ===== *)
(** Data verification in the worker (workers/LocalWorker.cpp): the buffers that a write fills and
    that a later read is compared with.

    - [preWriteIntegrityCheckFillBuf()] and [postReadIntegrityCheckVerifyBuf()]: 8-byte values of
      offset plus salt;
    - [journalFillTileBlock()], [preWriteJournalFillBuf()] and [postReadJournalVerifyBuf()]: one
      8-byte value per journal block, mixed from offset, journal seed and content generation;
    - [bufFill()], [preWriteBufRandRefill()] and [calcFileIdxAndOffsetStriped()].

    A buffer is the list of its bytes; memory is little endian. *)

From S2P Require Import Prelude CppStrings RandAlgo Journal.

#[local] Open Scope list_scope.
#[local] Open Scope Z_scope.

(** ** Definitions *)

(** Byte [k] of a [uint64_t] in memory. *)
Definition word_byte (w k : Z) : Z := Z.land (Z.shiftr w (8 * k)) 0xff.

(** [n] bytes of [w] from byte [k] on, as [memcpy] takes them. *)
Definition word_slice (w k n : Z) : list Z := word_byte w <$> seqZ k n.

(** [memcpy(buf, bytes, len)]. *)
Definition overwrite (bytes buf : list Z) : list Z := bytes ++ drop (length bytes) buf.

(** *** Offset plus salt *)

(** The loop; it ends because each round copies at least one byte. *)
Fixpoint checksum_bytes (fuel : nat) (checkSumSalt numBytesLeft currentOffset : Z) : list Z :=
  match fuel with
  | O => []
  | S fuel =>
      if numBytesLeft =? 0 then []
      else
        let checkSumStartOffset := currentOffset - currentOffset `mod` 8 in
        let checkSum := checkSumStartOffset +₆₄ checkSumSalt in
        let checkSumArrayStartIdx := currentOffset - checkSumStartOffset in
        let checkSumCopyLen := Z.min numBytesLeft (8 - checkSumArrayStartIdx) in
        word_slice checkSum checkSumArrayStartIdx checkSumCopyLen
        ++ checksum_bytes fuel checkSumSalt (numBytesLeft - checkSumCopyLen)
             (currentOffset + checkSumCopyLen)
  end.

Definition preWriteIntegrityCheckFillBuf (salt : Z) (hostIOBuf : list Z) (bufLen fileOffset : Z) : list Z :=
  overwrite (checksum_bytes (Z.to_nat bufLen) salt bufLen fileOffset) hostIOBuf.

(** The first position at which the two buffers differ, with expected and actual value. *)
Fixpoint first_mismatch (expected actual : list Z) (i : Z) : option (Z * Z * Z) :=
  match expected, actual with
  | e :: expected, a :: actual =>
      if e =? a then first_mismatch expected actual (i + 1) else Some (i, e, a)
  | _, _ => None
  end.

Definition mismatch_msg (what : string) (offset expected actual : Z) : string :=
  what +:+ " Offset: " +:+ to_string offset +:+ "; Expected value: " +:+ to_string expected
  +:+ "; Actual value: " +:+ to_string actual.

(** [mallocOk]: the verification buffer could be allocated; its old content is arbitrary. *)
Definition postReadIntegrityCheckVerifyBuf (mallocOk : bool) (garbage : list Z) (salt : Z)
    (hostIOBuf : list Z) (bufLen fileOffset : Z) : result unit :=
  if bufLen =? 0 then Ok tt
  else if negb mallocOk then Throw (WorkerException "Buffer alloc for verification buffer failed.")
  else
    let verifyBuf := preWriteIntegrityCheckFillBuf salt garbage bufLen fileOffset in
    let n := Z.to_nat bufLen in
    match first_mismatch (take n verifyBuf) (take n hostIOBuf) 0 with
    | None => Ok tt
    | Some (i, expectedVal, actualVal) =>
        Throw (WorkerException (mismatch_msg "Data verification failed." (fileOffset + i) expectedVal actualVal))
    end.

(** *** Journal content *)

Definition journalFillTileBlock (len blockAlignedOffset seed generation : Z) : list Z :=
  let tileValue := computeExpectedTileValue blockAlignedOffset seed generation in
  (fun i => word_byte tileValue (i `mod` 8)) <$> seqZ 0 len.

(** The loop of [preWriteJournalFillBuf()]; [None] if an index is outside the generations. *)
Fixpoint journal_fill_loop (fuel : nat) (bs seed : Z) (gens : list Z) (bufLen fileOffset numBytesDone : Z)
    : option (list Z) :=
  if numBytesDone <? bufLen then
    match fuel with
    | O => None
    | S fuel =>
        let subBlockIdx := numBytesDone / bs in
        let subBlockCopyLen := Z.min (bufLen - numBytesDone) bs in
        gen ← gens !! Z.to_nat subBlockIdx;
        rest ← journal_fill_loop fuel bs seed gens bufLen fileOffset (numBytesDone + subBlockCopyLen);
        Some (journalFillTileBlock subBlockCopyLen (fileOffset + numBytesDone) seed gen ++ rest)
    end
  else Some [].

Definition preWriteJournalFillBuf (j : Journal) (io : JournalBlockIO) (hostIOBuf : list Z)
    (bufLen fileOffset : Z) : option (list Z) :=
  match io_action io with
  | ACTION_WRITE =>
      bytes ← journal_fill_loop (Z.to_nat bufLen) (journalBlockSize j) (journalSeed j) (io_gens io)
                bufLen fileOffset 0;
      Some (overwrite bytes hostIOBuf)
  | _ => Some hostIOBuf
  end.

Fixpoint journal_verify_loop (fuel : nat) (bs seed : Z) (gens : list Z) (hostIOBuf : list Z)
    (bufLen fileOffset numBytesDone : Z) : option (result unit) :=
  if numBytesDone <? bufLen then
    match fuel with
    | O => None
    | S fuel =>
        let subBlockIdx := numBytesDone / bs in
        let subBlockCopyLen := Z.min (bufLen - numBytesDone) bs in
        let next := journal_verify_loop fuel bs seed gens hostIOBuf bufLen fileOffset
                      (numBytesDone + subBlockCopyLen) in
        generation ← gens !! Z.to_nat subBlockIdx;
        if generation =? 0 then next
        else
          let journalVerifyBuf := journalFillTileBlock subBlockCopyLen (fileOffset + numBytesDone) seed generation in
          match first_mismatch journalVerifyBuf
                  (take (Z.to_nat subBlockCopyLen) (drop (Z.to_nat numBytesDone) hostIOBuf)) 0 with
          | None => next
          | Some (i, e, a) =>
              Some (Throw (WorkerException (mismatch_msg "Journal data verification failed."
                (fileOffset + numBytesDone + i) e a)))
          end
    end
  else Some (Ok tt).

Definition postReadJournalVerifyBuf (j : Journal) (io : JournalBlockIO) (hostIOBuf : list Z)
    (bufLen fileOffset : Z) : option (result unit) :=
  match io_action io with
  | ACTION_WRITE => Some (Ok tt)
  | _ => journal_verify_loop (Z.to_nat bufLen) (journalBlockSize j) (journalSeed j) (io_gens io)
           hostIOBuf bufLen fileOffset 0
  end.

(** *** Random refill *)

Fixpoint fill_value_words (n : nat) (fillValue : Z) : list Z :=
  match n with
  | O => []
  | S n => word_slice fillValue 0 8 ++ fill_value_words n fillValue
  end.

Definition bufFill (fillValue bufLen : Z) : list Z :=
  let words := fill_value_words (Z.to_nat (bufLen / 8)) fillValue in
  if Z.of_nat (length words) =? bufLen then words
  else words ++ word_slice fillValue 0 (bufLen - Z.of_nat (length words)).

(** [randFill]: [fillBuf()] of the generator chosen for the block variance. *)
Definition preWriteBufRandRefill {R} `{!RandAlgo R} (randFill : Z -> R -> list Z * R)
    (workerRank numIOPSSubmitted rwMixReadPercent blockVariancePercent : Z) (hostIOBuf : list Z) (bufLen : Z)
    (r : R) : list Z * R :=
  if (workerRank +₆₄ numIOPSSubmitted) `mod` 100 <? rwMixReadPercent then (hostIOBuf, r)
  else
    let varFillLen := (bufLen *₆₄ blockVariancePercent) / 100 in
    let constFillRemainderLen := bufLen -₆₄ varFillLen in
    let '(bytes, r) := randFill varFillLen r in
    if constFillRemainderLen =? 0 then (overwrite bytes hostIOBuf, r)
    else
      let '(v, r) := rand_next r in
      (overwrite (bytes ++ bufFill v constFillRemainderLen) hostIOBuf, r).

(** *** Many files as one range *)

Definition calcFileIdxAndOffsetStriped (rwOffsetGenNext fileSize fileOffsetBase : Z) (isSingleFile : bool)
    : Z * Z :=
  if isSingleFile then (0, rwOffsetGenNext +₆₄ fileOffsetBase)
  else (rwOffsetGenNext / fileSize, rwOffsetGenNext `mod` fileSize +₆₄ fileOffsetBase).

(** ** Specification *)

(** The byte that integrity checking stores at an absolute file offset. *)
Definition expected_byte (salt o : Z) : Z := word_byte ((o - o `mod` 8) +₆₄ salt) (o `mod` 8).

(** The content of consecutive journal blocks from [off] on. *)
Fixpoint tile_list (bs seed off : Z) (gens : list Z) : list Z :=
  match gens with
  | [] => []
  | g :: gens => journalFillTileBlock bs off seed g ++ tile_list bs seed (off + bs) gens
  end.

(** ** Lemmas *)

Lemma fmap_seqZ_shift {A} (f g : Z -> A) a b n :
  (forall i, 0 <= i < n -> f (a + i) = g (b + i)) -> f <$> seqZ a n = g <$> seqZ b n.
Proof.
  intros H. destruct (decide (0 <= n)) as [Hn|Hn].
  2:{ by rewrite !seqZ_nil by lia. }
  rewrite <- (Z.add_0_r a), <- (Z.add_0_r b) at 1. rewrite <- (fmap_add_seqZ a 0 n), <- (fmap_add_seqZ b 0 n).
  rewrite <- !list_fmap_compose. apply list_fmap_ext. intros k i Hi. apply lookup_seqZ in Hi as [-> Hi]. cbn. apply H. lia.
Qed.

Lemma mod8_same o i : 0 <= o -> 0 <= i < 8 - o `mod` 8 -> (o + i) `mod` 8 = o `mod` 8 + i.
Proof.
  intros Ho Hi. pose proof (Z.mod_pos_bound o 8 ltac:(lia)). pose proof (Z.div_mod o 8 ltac:(lia)).
  replace (o + i) with (o `mod` 8 + i + (o / 8) * 8) by lia. rewrite Z_mod_plus_full. apply Z.mod_small. lia.
Qed.

Lemma checksum_bytes_spec fuel salt left off :
  (Z.to_nat left <= fuel)%nat -> 0 <= left -> 0 <= off ->
  checksum_bytes fuel salt left off = expected_byte salt <$> seqZ off left.
Proof.
  revert left off. induction fuel as [|fuel IH]; intros left off Hf Hl Ho; cbn [checksum_bytes].
  { assert (left = 0) as -> by lia. by rewrite seqZ_nil. }
  destruct (Z.eqb_spec left 0) as [->|Hne]; [by rewrite seqZ_nil|].
  pose proof (Z.mod_pos_bound off 8 ltac:(lia)) as Hmod. set (n := Z.min left (8 - (off - (off - off `mod` 8)))).
  assert (0 < n <= left /\ n <= 8 - off `mod` 8) as [Hn Hn8] by lia.
  rewrite IH by lia. replace (seqZ off left) with (seqZ off (n + (left - n))) by (f_equal; lia).
  rewrite seqZ_app, fmap_app by lia. f_equal. unfold word_slice. apply fmap_seqZ_shift. intros i Hi.
  unfold expected_byte. rewrite mod8_same by lia.
  replace (off + i - (off `mod` 8 + i)) with (off - off `mod` 8) by lia. f_equal. lia.
Qed.

Lemma first_mismatch_spec expected actual i :
  length expected = length actual ->
  match first_mismatch expected actual i with
  | None => expected = actual
  | Some (k, e, a) =>
      i <= k /\ expected !! Z.to_nat (k - i) = Some e /\ actual !! Z.to_nat (k - i) = Some a /\ e <> a
      /\ take (Z.to_nat (k - i)) expected = take (Z.to_nat (k - i)) actual
  end.
Proof.
  revert actual i. induction expected as [|e expected IH]; intros [|a actual] i Hl; try done. cbn [first_mismatch].
  destruct (Z.eqb_spec e a) as [->|Hne].
  - specialize (IH actual (i + 1) ltac:(by injection Hl)). destruct (first_mismatch _ _ _) as [[[k e'] a']|]; [|by f_equal].
    destruct IH as (Hk & He & Ha & Hne & Ht). replace (Z.to_nat (k - i)) with (S (Z.to_nat (k - (i + 1)))) by lia.
    cbn. split; [lia|]. split; [done|]. split; [done|]. split; [done|]. by f_equal.
  - replace (Z.to_nat (i - i)) with 0%nat by lia. split; [lia|]. done.
Qed.

Lemma word_byte_range w k : 0 <= word_byte w k < 256.
Proof. unfold word_byte. change 0xff with (Z.ones 8). rewrite Z.land_ones by lia. apply Z.mod_pos_bound. lia. Qed.

Lemma word_byte_div w k : 0 <= k -> word_byte w k = (w / 256 ^ k) `mod` 256.
Proof.
  intros Hk. unfold word_byte. change 0xff with (Z.ones 8). rewrite Z.land_ones, Z.shiftr_div_pow2 by lia.
  change (2 ^ 8) with 256. rewrite Z.pow_mul_r by lia. done.
Qed.

(** A word is determined by its eight bytes. *)
Lemma word_bytes_inj w w' :
  0 <= w < TWO64 -> 0 <= w' < TWO64 -> (forall k, 0 <= k < 8 -> word_byte w k = word_byte w' k) -> w = w'.
Proof.
  intros Hw Hw' H. apply (le_bytes_inj 8); [done|done|]. apply list_eq. intros i.
  destruct (decide (i < 8)%nat) as [Hi|Hi].
  - rewrite !le_bytes_lookup by done. f_equal. rewrite <- !word_byte_div by lia. apply H. lia.
  - rewrite !lookup_ge_None_2; [done|rewrite le_bytes_length; lia..].
Qed.

(** *** The mixing function is injective *)

Definition xorshift33 (x : Z) : Z := Z.lxor x (Z.shiftr x 33).

Lemma xorshift33_range x : 0 <= x < TWO64 -> 0 <= xorshift33 x < TWO64.
Proof. intros Hx. apply lxor_u64; [done|]. apply shiftr_u64; lia. Qed.

Lemma xorshift33_involutive x : 0 <= x < TWO64 -> xorshift33 (xorshift33 x) = x.
Proof.
  intros Hx. unfold xorshift33. rewrite Z.shiftr_lxor, Z.shiftr_shiftr by lia.
  assert (Z.shiftr x (33 + 33) = 0) as ->.
  { rewrite Z.shiftr_div_pow2 by lia. apply Z.div_small. change (2 ^ (33 + 33)) with (4 * TWO64). lia. }
  rewrite Z.lxor_0_r, Z.lxor_assoc, Z.lxor_nilpotent. apply Z.lxor_0_r.
Qed.

Lemma xorshift33_inj x y : 0 <= x < TWO64 -> 0 <= y < TWO64 -> xorshift33 x = xorshift33 y -> x = y.
Proof. intros Hx Hy H. rewrite <- (xorshift33_involutive x Hx), H. by apply xorshift33_involutive. Qed.

(** Multiplication with an odd constant can be undone. *)
Lemma mul64_inj c cinv x y :
  (c * cinv) `mod` 18446744073709551616 = 1 -> 0 <= x < TWO64 -> 0 <= y < TWO64 -> x *₆₄ c = y *₆₄ c -> x = y.
Proof.
  intros Hc Hx Hy H. assert (forall z, 0 <= z < TWO64 -> u64 (u64 (z * c) * cinv) = z) as Hinv.
  { intros z Hz. unfold u64. rewrite Zmult_mod_idemp_l, <- Z.mul_assoc, Zmult_mod, Hc, Z.mul_1_r, Zmod_mod. by apply Z.mod_small. }
  rewrite <- (Hinv x Hx), H. by apply Hinv.
Qed.

Definition tile_mix (x : Z) : Z :=
  xorshift33 (xorshift33 (xorshift33 x *₆₄ 0xFF51AFD7ED558CCD) *₆₄ 0xC4CEB9FE1A85EC53).

Lemma tile_mix_inj x y : 0 <= x < TWO64 -> 0 <= y < TWO64 -> tile_mix x = tile_mix y -> x = y.
Proof.
  intros Hx Hy H. unfold tile_mix in H.
  apply xorshift33_inj in H; [|apply u64_range..].
  apply (mul64_inj _ 0x9cb4b2f8129337db) in H; [|vm_compute; reflexivity|apply xorshift33_range, u64_range..].
  apply xorshift33_inj in H; [|apply u64_range..].
  apply (mul64_inj _ 0x4f74430c22a54005) in H; [|vm_compute; reflexivity|by apply xorshift33_range..].
  by apply xorshift33_inj in H.
Qed.

Lemma computeExpectedTileValue_mix off seed gen :
  computeExpectedTileValue off seed gen
  = tile_mix (Z.lxor (Z.lxor off (seed *₆₄ 0x9E3779B97F4A7C15)) (gen *₆₄ 0xBF58476D1CE4E5B9)).
Proof. done. Qed.

Lemma tile_value_range off seed gen : 0 <= off < TWO64 -> 0 <= computeExpectedTileValue off seed gen < TWO64.
Proof. intros Ho. rewrite computeExpectedTileValue_mix. apply xorshift33_range, u64_range. Qed.

(** Each input of the tile value matters. *)
Lemma tile_value_cancel off off' seed seed' g g' :
  0 <= off < TWO64 -> 0 <= off' < TWO64 -> 0 <= seed < TWO64 -> 0 <= seed' < TWO64 -> 0 <= g < TWO64 -> 0 <= g' < TWO64 ->
  computeExpectedTileValue off seed g = computeExpectedTileValue off' seed' g' ->
  (seed = seed' -> g = g' -> off = off') /\ (off = off' -> g = g' -> seed = seed') /\ (off = off' -> seed = seed' -> g = g').
Proof.
  intros Ho Ho' Hs Hs' Hg Hg' H. rewrite !computeExpectedTileValue_mix in H.
  apply tile_mix_inj in H; [|repeat apply lxor_u64; (done || apply u64_range)..].
  assert (forall a b c, Z.lxor (Z.lxor a b) c = Z.lxor a (Z.lxor b c)) as Hassoc by (intros; apply Z.lxor_assoc).
  assert (forall a b c, Z.lxor a c = Z.lxor b c -> a = b) as Hr.
  { intros a b c Hx. apply (f_equal (fun z => Z.lxor z c)) in Hx.
    by rewrite !Z.lxor_assoc, Z.lxor_nilpotent, !Z.lxor_0_r in Hx. }
  assert (forall a b c, Z.lxor c a = Z.lxor c b -> a = b) as Hl by (intros a b c; rewrite !(Z.lxor_comm c); apply Hr).
  split_and!.
  - intros -> ->. by apply Hr, Hr in H.
  - intros -> ->. apply Hr, Hl in H. by apply (mul64_inj _ 0xf1de83e19937733d) in H.
  - intros -> ->. apply Hl in H. by apply (mul64_inj _ 0x96de1b173f119089) in H.
Qed.

Lemma journalFillTileBlock_length len off seed g : 0 <= len -> Z.of_nat (length (journalFillTileBlock len off seed g)) = len.
Proof. intros Hl. unfold journalFillTileBlock. rewrite length_fmap, length_seqZ. lia. Qed.

(** A block that holds the content of another generation differs in its first eight bytes. *)
Lemma tile_block_inj len off seed g g' :
  8 <= len -> 0 <= off < TWO64 -> 0 <= seed < TWO64 -> 0 <= g < TWO64 -> 0 <= g' < TWO64 ->
  journalFillTileBlock len off seed g = journalFillTileBlock len off seed g' -> g = g'.
Proof.
  intros Hlen Ho Hs Hg Hg' H.
  assert (computeExpectedTileValue off seed g = computeExpectedTileValue off seed g') as Hv.
  { apply word_bytes_inj; [by apply tile_value_range..|]. intros k Hk. unfold journalFillTileBlock in H.
    apply (f_equal (fun l => l !! Z.to_nat k)) in H. rewrite !list_lookup_fmap in H.
    rewrite lookup_seqZ_lt in H by lia. cbn in H. injection H as H. rewrite Z2Nat.id, Z.mod_small in H by lia. done. }
  by apply tile_value_cancel in Hv as (_ & _ & Hv); [apply Hv|..].
Qed.

Lemma tile_list_length bs seed off gens :
  0 <= bs -> Z.of_nat (length (tile_list bs seed off gens)) = bs * Z.of_nat (length gens).
Proof.
  intros Hbs. revert off. induction gens as [|g gens IH]; intros off; cbn [tile_list length]; [simpl; lia|].
  rewrite length_app, Nat2Z.inj_add, IH, journalFillTileBlock_length by lia. lia.
Qed.

(** The loop at the block after [pre]. *)
Lemma journal_fill_loop_spec fuel bs seed pre gens off :
  0 < bs -> (length gens <= fuel)%nat ->
  journal_fill_loop fuel bs seed (pre ++ gens) (bs * Z.of_nat (length (pre ++ gens))) off (bs * Z.of_nat (length pre))
  = Some (tile_list bs seed (off + bs * Z.of_nat (length pre)) gens).
Proof.
  intros Hbs. revert pre fuel. induction gens as [|g gens IH]; intros pre fuel Hf.
  { rewrite app_nil_r. destruct fuel; cbn [journal_fill_loop]; by rewrite Z.ltb_irrefl. }
  destruct fuel as [|fuel]; [simpl in Hf; lia|]. cbn [journal_fill_loop].
  rewrite length_app, Nat2Z.inj_add. cbn [length]. rewrite (proj2 (Z.ltb_lt _ _)) by lia.
  assert (bs * Z.of_nat (length pre) / bs = Z.of_nat (length pre)) as -> by (rewrite Z.mul_comm; apply Z.div_mul; lia).
  rewrite Nat2Z.id, list_lookup_middle by done. cbn [mbind option_bind].
  assert (Z.min (bs * (Z.of_nat (length pre) + Z.of_nat (S (length gens))) - bs * Z.of_nat (length pre)) bs = bs) as -> by nia.
  specialize (IH (pre ++ [g]) fuel ltac:(simpl in Hf; lia)). rewrite <- app_assoc in IH. cbn [app] in IH.
  rewrite !length_app, !Nat2Z.inj_add in IH. cbn [length] in IH.
  replace (bs * Z.of_nat (length pre) + bs) with (bs * (Z.of_nat (length pre) + Z.of_nat 1)) by lia.
  rewrite IH. cbn [mbind option_bind tile_list]. do 2 f_equal. f_equal. lia.
Qed.

(** Compare a buffer that holds the content of [gens] with what is expected for [gens']. *)
Lemma journal_verify_loop_spec fuel bs seed pre gens gens' buf rest off :
  8 <= bs -> (length gens <= fuel)%nat -> length gens = length gens' ->
  0 <= off -> off + bs * Z.of_nat (length (pre ++ gens')) < TWO64 -> 0 <= seed < TWO64 ->
  Forall (fun g => 0 <= g < TWO64) gens -> Forall (fun g => 0 <= g < TWO64) gens' ->
  drop (Z.to_nat (bs * Z.of_nat (length pre))) buf = tile_list bs seed (off + bs * Z.of_nat (length pre)) gens ++ rest ->
  exists r, journal_verify_loop fuel bs seed (pre ++ gens') buf (bs * Z.of_nat (length (pre ++ gens'))) off
              (bs * Z.of_nat (length pre)) = Some r
    /\ (r = Ok tt <-> Forall2 (fun g g' => g' = 0 \/ g' = g) gens gens')
    /\ (r <> Ok tt -> exists msg, r = Throw (WorkerException msg)).
Proof.
  intros Hbs. revert pre gens' fuel. induction gens as [|g gens IH]; intros pre [|g' gens'] fuel Hf Hlen Ho Hb Hs Hg Hg' Hbuf; try done.
  { exists (Ok tt). split; [|split; [split; [constructor|done]|done]]. rewrite app_nil_r.
    destruct fuel; cbn [journal_verify_loop]; by rewrite Z.ltb_irrefl. }
  apply Forall_cons in Hg as [Hg0 Hg]. apply Forall_cons in Hg' as [Hg0' Hg'].
  destruct fuel as [|fuel]; [simpl in Hf; lia|]. cbn [tile_list] in Hbuf. rewrite <- app_assoc in Hbuf.
  set (done_ := bs * Z.of_nat (length pre)) in *. set (off1 := off + done_) in *.
  pose proof (journalFillTileBlock_length bs off1 seed g ltac:(lia)) as Htl.
  pose proof (journalFillTileBlock_length bs off1 seed g' ltac:(lia)) as Htl'.
  rewrite length_app, Nat2Z.inj_add in Hb. cbn [length] in Hb.
  destruct (IH (pre ++ [g']) gens' fuel) as (r & Hr & Hok & Hth); [simpl in Hf; lia|by injection Hlen|done| |done|done|done| |].
  { rewrite <- app_assoc. cbn [app]. rewrite length_app, Nat2Z.inj_add. cbn [length]. lia. }
  { rewrite length_app, Nat2Z.inj_add. cbn [length]. rewrite Z.mul_add_distr_l. change (bs * Z.of_nat (length pre)) with done_.
    assert (0 <= done_) by lia. rewrite Z2Nat.inj_add by lia. rewrite <- drop_drop, Hbuf, drop_app_ge by lia.
    replace (Z.to_nat (bs * Z.of_nat 1) - length (journalFillTileBlock bs off1 seed g))%nat with 0%nat by lia.
    rewrite drop_0. do 2 f_equal. unfold off1. lia. }
  assert (forall x, (x = 0 \/ x = g) -> g' = x -> (r = Ok tt <-> Forall2 (fun g g' => g' = 0 \/ g' = g) (g :: gens) (g' :: gens'))) as Hcons.
  { intros x Hx ->. rewrite Hok. split; [by constructor|by intros [_ ?]%Forall2_cons]. }
  rewrite <- app_assoc in Hr. cbn [app] in Hr. rewrite !length_app, !Nat2Z.inj_add in Hr. cbn [length] in Hr.
  replace (bs * (Z.of_nat (length pre) + Z.of_nat 1)) with (done_ + bs) in Hr by lia.
  cbn [journal_verify_loop]. rewrite length_app, Nat2Z.inj_add. cbn [length]. rewrite (proj2 (Z.ltb_lt _ _)) by lia.
  assert (done_ / bs = Z.of_nat (length pre)) as -> by (unfold done_; rewrite Z.mul_comm; apply Z.div_mul; lia).
  rewrite Nat2Z.id, list_lookup_middle by done. cbn [mbind option_bind].
  assert (Z.min (bs * (Z.of_nat (length pre) + Z.of_nat (S (length gens'))) - done_) bs = bs) as -> by nia.
  destruct (Z.eqb_spec g' 0) as [Hz|Hnz].
  { exists r. split; [done|]. split; [|done]. apply (Hcons 0); auto. }
  change (off + done_) with off1. rewrite Hbuf, take_app_le, take_ge by lia.
  pose proof (first_mismatch_spec (journalFillTileBlock bs off1 seed g') (journalFillTileBlock bs off1 seed g) 0 ltac:(lia)) as Hm.
  destruct (first_mismatch _ _ _) as [[[i e] a]|].
  - eexists. split; [done|]. split; [|intros _; by eexists]. split; [done|]. intros Hall.
    apply Forall2_cons in Hall as [[?| ->] _]; [done|]. destruct Hm as (_ & He & Ha & Hne & _). congruence.
  - exists r. split; [done|]. split; [|done]. apply (Hcons g); [auto|]. eapply tile_block_inj; [exact Hbs| |exact Hs|done|done|exact Hm].
    unfold off1. lia.
Qed.

(** *** Files *)

(** [pwrite()] of [bytes] at [off] and [pread()] of [len] bytes, within the file. *)
Definition pwrite (off : Z) (bytes file : list Z) : list Z :=
  take (Z.to_nat off) file ++ bytes ++ drop (Z.to_nat off + length bytes) file.

Definition pread (off len : Z) (file : list Z) : list Z := take (Z.to_nat len) (drop (Z.to_nat off) file).

(** The accesses [(offset, length)] of a write phase with integrity checking. *)
Definition write_checked (salt : Z) (ios : list (Z * Z)) (file : list Z) : list Z :=
  foldl (fun file '(off, len) => pwrite off (preWriteIntegrityCheckFillBuf salt [] len off) file) file ios.

Lemma fill_spec salt buf len off :
  0 <= len -> 0 <= off ->
  preWriteIntegrityCheckFillBuf salt buf len off = (expected_byte salt <$> seqZ off len) ++ drop (Z.to_nat len) buf.
Proof.
  intros Hl Ho. unfold preWriteIntegrityCheckFillBuf, overwrite. rewrite checksum_bytes_spec by (done || lia).
  by rewrite length_fmap, length_seqZ.
Qed.

Lemma pwrite_lookup off bytes file (i : nat) :
  0 <= off -> off + Z.of_nat (length bytes) <= Z.of_nat (length file) ->
  pwrite off bytes file !! i
  = if decide (off <= Z.of_nat i < off + Z.of_nat (length bytes)) then bytes !! (i - Z.to_nat off)%nat else file !! i.
Proof.
  intros Ho Hb. unfold pwrite. case_decide.
  - rewrite lookup_app_r by (rewrite length_take; lia). rewrite length_take, lookup_app_l by lia. f_equal. lia.
  - destruct (decide (i < Z.to_nat off)%nat).
    + rewrite lookup_app_l by (rewrite length_take; lia). apply lookup_take_lt. lia.
    + rewrite lookup_app_r by (rewrite length_take; lia). rewrite length_take, lookup_app_r by lia. rewrite lookup_drop. f_equal. lia.
Qed.

Lemma pwrite_length off bytes file :
  0 <= off -> off + Z.of_nat (length bytes) <= Z.of_nat (length file) -> length (pwrite off bytes file) = length file.
Proof. intros Ho Hb. unfold pwrite. rewrite !length_app, length_take, length_drop. lia. Qed.

(** Every byte that some access covers holds its expected value. *)
Lemma write_checked_spec salt ios file :
  Forall (fun '(off, len) => 0 <= off /\ 0 <= len /\ off + len <= Z.of_nat (length file)) ios ->
  length (write_checked salt ios file) = length file
  /\ forall o, Exists (fun '(off, len) => off <= o < off + len) ios \/ (0 <= o /\ file !! Z.to_nat o = Some (expected_byte salt o)) ->
     write_checked salt ios file !! Z.to_nat o = Some (expected_byte salt o).
Proof.
  revert file. induction ios as [|[off len] ios IH]; intros file Hall; cbn.
  { split; [done|]. intros o [He|[_ He]]; [by apply Exists_nil in He|done]. }
  apply Forall_cons in Hall as [(Ho & Hl & Hb) Hall]. set (file1 := pwrite off _ file).
  assert (Z.of_nat (length (preWriteIntegrityCheckFillBuf salt [] len off)) = len) as Hlen.
  { rewrite fill_spec, drop_nil, app_nil_r, length_fmap, length_seqZ by done. lia. }
  assert (length file1 = length file) as Hf1 by (apply pwrite_length; lia).
  destruct (IH file1) as [Hl1 Hcov].
  { eapply Forall_impl; [exact Hall|]. intros [o l]. by rewrite Hf1. }
  split; [by rewrite <- Hf1|]. intros o Hcase. apply Hcov.
  destruct (decide (off <= o < off + len)) as [Hin|Hout].
  - right. split; [lia|]. unfold file1. rewrite pwrite_lookup, decide_True by lia.
    rewrite fill_spec, drop_nil, app_nil_r, list_lookup_fmap, lookup_seqZ_lt by lia. cbn. do 2 f_equal. lia.
  - destruct Hcase as [He|[Ho' He]]; [apply Exists_cons in He as [?|He]; [done|by left]|].
    right. split; [done|]. unfold file1. rewrite pwrite_lookup, decide_False by lia. done.
Qed.

Lemma verify_spec garbage salt buf len off :
  0 < len -> 0 <= off -> len <= Z.of_nat (length buf) ->
  match postReadIntegrityCheckVerifyBuf true garbage salt buf len off with
  | Ok _ => take (Z.to_nat len) buf = expected_byte salt <$> seqZ off len
  | Throw e =>
      exists i a, 0 <= i < len /\ buf !! Z.to_nat i = Some a /\ a <> expected_byte salt (off + i)
        /\ e = WorkerException (mismatch_msg "Data verification failed." (off + i) (expected_byte salt (off + i)) a)
        /\ forall k, 0 <= k < i -> buf !! Z.to_nat k = Some (expected_byte salt (off + k))
  end.
Proof.
  intros Hl Ho Hb. unfold postReadIntegrityCheckVerifyBuf. rewrite (proj2 (Z.eqb_neq len 0)) by lia. cbn [negb].
  set (exp := expected_byte salt <$> seqZ off len).
  assert (length exp = Z.to_nat len) as Hexp by (unfold exp; by rewrite length_fmap, length_seqZ).
  rewrite fill_spec, take_app_le, take_ge by (fold exp; lia). fold exp.
  assert (forall k, (k < Z.to_nat len)%nat -> exp !! k = Some (expected_byte salt (off + Z.of_nat k))) as Hlk.
  { intros k Hk. unfold exp. rewrite list_lookup_fmap, lookup_seqZ_lt by lia. done. }
  pose proof (first_mismatch_spec exp (take (Z.to_nat len) buf) 0) as Hm. rewrite length_take in Hm. specialize (Hm ltac:(lia)).
  destruct (first_mismatch _ _ _) as [[[i e] a]|]; [|by rewrite Hm]. rewrite Z.sub_0_r in Hm. destruct Hm as (Hi & He & Ha & Hne & Ht).
  pose proof (lookup_lt_Some _ _ _ He) as Hlt. rewrite Hlk, Z2Nat.id in He by lia. injection He as <-.
  rewrite lookup_take_lt in Ha by lia. exists i, a. split; [lia|]. split; [done|]. split; [done|]. split; [done|].
  intros k Hk. apply (f_equal (fun l => l !! Z.to_nat k)) in Ht. rewrite !lookup_take_lt in Ht by lia.
  rewrite <- Ht, Hlk by lia. do 2 f_equal. lia.
Qed.

(** ** Theorems *)

(** C34: integrity checking does not depend on how the range was cut into blocks: after a write
    phase with any accesses, of any lengths and in any order, every read of bytes that some access
    wrote passes the verification, whatever its own offset and length. *)
Theorem integrity_write_then_read_any_block_size salt ios file off len garbage :
  Forall (fun '(o, l) => 0 <= o /\ 0 <= l /\ o + l <= Z.of_nat (length file)) ios ->
  0 <= off -> 0 <= len -> off + len <= Z.of_nat (length file) ->
  (forall o, off <= o < off + len -> Exists (fun '(o', l) => o' <= o < o' + l) ios) ->
  postReadIntegrityCheckVerifyBuf true garbage salt (pread off len (write_checked salt ios file)) len off = Ok tt.
Proof.
  intros Hios Ho Hl Hb Hcov. destruct (write_checked_spec salt ios file Hios) as [Hlen Hval].
  set (file' := write_checked salt ios file) in *. destruct (decide (len = 0)) as [->|Hne]; [done|].
  assert (length (pread off len file') = Z.to_nat len) as Hpl.
  { unfold pread. rewrite length_take, length_drop, Hlen. lia. }
  assert (forall i, 0 <= i < len -> pread off len file' !! Z.to_nat i = Some (expected_byte salt (off + i))) as Hrd.
  { intros i Hi. unfold pread. rewrite lookup_take_lt, lookup_drop by lia. rewrite <- Z2Nat.inj_add by lia. apply Hval. left. apply Hcov. lia. }
  pose proof (verify_spec garbage salt (pread off len file') len off ltac:(lia) Ho ltac:(lia)) as H.
  destruct (postReadIntegrityCheckVerifyBuf _ _ _ _ _ _) as [[]|e]; [done|].
  destruct H as (i & a & Hi & Ha & Hd & _). rewrite Hrd in Ha by done. congruence.
Qed.

(** The verification of a read accepts exactly the expected content; otherwise it throws and
    names the first wrong offset with the expected and the actual value. *)
Lemma integrity_verify_exact garbage salt buf len off :
  0 < len -> 0 <= off -> len <= Z.of_nat (length buf) ->
  match postReadIntegrityCheckVerifyBuf true garbage salt buf len off with
  | Ok _ => take (Z.to_nat len) buf = expected_byte salt <$> seqZ off len
  | Throw e =>
      exists i a, 0 <= i < len /\ buf !! Z.to_nat i = Some a /\ a <> expected_byte salt (off + i)
        /\ e = WorkerException (mismatch_msg "Data verification failed." (off + i) (expected_byte salt (off + i)) a)
        /\ forall k, 0 <= k < i -> buf !! Z.to_nat k = Some (expected_byte salt (off + k))
  end.
Proof. apply verify_spec. Qed.

(** C32: journaled verification is exact: a buffer filled for the generations [gens] of a range of
    blocks passes the verification against the generations [gens'] if and only if each block is
    either not initialized in [gens'] or has the same generation in both; so content of an older
    write is always detected. *)
Theorem journal_verify_detects_stale j wio rio buf bufLen off :
  8 <= journalBlockSize j -> 0 <= journalSeed j < TWO64 -> 0 <= off -> off + bufLen < TWO64 ->
  io_action wio = ACTION_WRITE -> io_action rio = ACTION_READ ->
  bufLen = journalBlockSize j * Z.of_nat (length (io_gens wio)) -> length (io_gens wio) = length (io_gens rio) ->
  Forall (fun g => 0 <= g < 4) (io_gens wio) -> Forall (fun g => 0 <= g < 4) (io_gens rio) ->
  exists buf' r, preWriteJournalFillBuf j wio buf bufLen off = Some buf'
    /\ postReadJournalVerifyBuf j rio buf' bufLen off = Some r
    /\ (r = Ok tt <-> Forall2 (fun g g' => g' = 0 \/ g' = g) (io_gens wio) (io_gens rio))
    /\ (r <> Ok tt -> exists msg, r = Throw (WorkerException msg)).
Proof.
  intros Hbs Hs Ho Hb Hw Hr -> Hlen Hg Hg'.
  assert (forall gens : list Z, Forall (fun g => 0 <= g < 4) gens -> Forall (fun g => 0 <= g < TWO64) gens) as Hwide.
  { intros gens H. eapply Forall_impl; [exact H|]. intros g. cbn. lia. }
  set (bs := journalBlockSize j) in *. set (n := Z.of_nat (length (io_gens wio))) in *.
  assert (length (io_gens wio) <= Z.to_nat (bs * n))%nat by nia.
  unfold preWriteJournalFillBuf, postReadJournalVerifyBuf. rewrite Hw, Hr. fold bs.
  pose proof (journal_fill_loop_spec (Z.to_nat (bs * n)) bs (journalSeed j) [] (io_gens wio) off ltac:(lia) ltac:(lia)) as Hfill.
  cbn [length app] in Hfill. rewrite Z.mul_0_r, Z.add_0_r in Hfill. fold n in Hfill. rewrite Hfill. cbn [mbind option_bind].
  eexists. destruct (journal_verify_loop_spec (Z.to_nat (bs * n)) bs (journalSeed j) [] (io_gens wio) (io_gens rio)
    (overwrite (tile_list bs (journalSeed j) off (io_gens wio)) buf)
    (drop (length (tile_list bs (journalSeed j) off (io_gens wio))) buf) off) as (r & Hv & Hiff & Hth);
    [done|lia|done|done| |done|by apply Hwide|by apply Hwide| |].
  { cbn [app]. rewrite <- Hlen. done. }
  { cbn [length]. rewrite Z.mul_0_r, Z.add_0_r. done. }
  exists r. split; [done|]. cbn [app length] in Hv. rewrite Z.mul_0_r, <- Hlen in Hv. fold n in Hv. split; [exact Hv|]. done.
Qed.

(** The content value of a journal block distinguishes blocks, journals and generations: a
    change of only the offset, only the journal seed or only the generation changes the value, so
    that misplaced, foreign and stale blocks all differ in content. *)
Lemma tile_value_distinguishes off off' seed seed' g g' :
  0 <= off < TWO64 -> 0 <= off' < TWO64 -> 0 <= seed < TWO64 -> 0 <= seed' < TWO64 -> 0 <= g < 4 -> 0 <= g' < 4 ->
  (off <> off' -> computeExpectedTileValue off seed g <> computeExpectedTileValue off' seed g)
  /\ (seed <> seed' -> computeExpectedTileValue off seed g <> computeExpectedTileValue off seed' g)
  /\ (g <> g' -> computeExpectedTileValue off seed g <> computeExpectedTileValue off seed g').
Proof.
  intros. split_and!; intros Hne Heq; apply Hne; eapply tile_value_cancel in Heq; try lia; by apply Heq.
Qed.

(** Many files act as one range: every position of the range belongs to exactly one file and
    offset, each file from its base offset on, and an aligned block never crosses a file end. *)
Lemma striped_files_one_range v fileSize base numFiles bs :
  0 < fileSize -> 0 <= base -> base + fileSize < TWO64 -> 0 <= v < numFiles * fileSize ->
  0 < bs -> (bs | fileSize) -> (bs | v) ->
  let '(idx, off) := calcFileIdxAndOffsetStriped v fileSize base false in
  0 <= idx < numFiles /\ base <= off /\ off + bs <= base + fileSize /\ v = idx * fileSize + (off - base).
Proof.
  intros Hf Hb Hb64 Hv Hbs [k Hk] [m Hm]. cbn. pose proof (Z.mod_pos_bound v fileSize Hf) as Hmod.
  pose proof (Z.div_mod v fileSize ltac:(lia)) as Hdm. rewrite u64_small by lia.
  split; [split; [apply Z.div_pos; lia|apply Z.div_lt_upper_bound; lia]|]. split; [lia|]. split; [|lia].
  assert (v `mod` fileSize = (m - k * (v / fileSize)) * bs) as Hr by nia.
  assert ((m - k * (v / fileSize)) < k) by nia. nia.
Qed.

Lemma integrity_write_then_read_any_block_size_witness :
  postReadIntegrityCheckVerifyBuf true [] 5 (pread 3 9 (write_checked 5 [(8, 8); (0, 5); (5, 3)] (replicate 16 0))) 9 3 = Ok tt.
Proof.
  apply (integrity_write_then_read_any_block_size 5 [(8, 8); (0, 5); (5, 3)] (replicate 16 0) 3 9 []).
  - repeat constructor; cbn; lia.
  - lia.
  - lia.
  - cbn. lia.
  - intros o Ho. destruct (decide (8 <= o)); [left; lia|right]. destruct (decide (o < 5)); [left; lia|right; left; lia].
Defined.

Lemma integrity_verify_exact_witness :
  exists i a, 0 <= i < 2 /\ [0; 1] !! Z.to_nat i = Some a /\ a <> expected_byte 0 (0 + i).
Proof.
  pose proof (integrity_verify_exact [] 0 [0; 1] 2 0 ltac:(lia) ltac:(lia) ltac:(cbn; lia)) as H.
  destruct (postReadIntegrityCheckVerifyBuf true [] 0 [0; 1] 2 0) as [u|e] eqn:Hv; [vm_compute in Hv; discriminate|].
  destruct H as (i & a & Hi & Ha & Hne & _). exists i, a. split; [exact Hi|]. split; [exact Ha|exact Hne].
Defined.

Lemma journal_verify_detects_stale_witness :
  exists buf' r, preWriteJournalFillBuf ex_journal ex_io1 [] 8192 4096 = Some buf'
    /\ postReadJournalVerifyBuf ex_journal (mkBlockIO 1 2 ACTION_READ [3; 1] guard_none) buf' 8192 4096 = Some r
    /\ r <> Ok tt.
Proof.
  destruct (journal_verify_detects_stale ex_journal ex_io1 (mkBlockIO 1 2 ACTION_READ [3; 1] guard_none) [] 8192 4096)
    as (buf' & r & Hf & Hv & Hiff & _); try reflexivity; try (cbn; lia); try (repeat constructor; lia).
  exists buf', r. split; [exact Hf|]. split; [exact Hv|]. intros Hr. apply Hiff in Hr.
  apply Forall2_cons in Hr as [_ Hr]. apply Forall2_cons in Hr as [[Hr|Hr] _]; discriminate.
Defined.

Lemma tile_value_distinguishes_witness :
  computeExpectedTileValue 4096 7 1 <> computeExpectedTileValue 4096 7 2.
Proof. apply (tile_value_distinguishes 4096 8192 7 8 1 2); lia. Defined.

Lemma striped_files_one_range_witness :
  let '(idx, off) := calcFileIdxAndOffsetStriped 24 16 100 false in
  0 <= idx < 3 /\ 100 <= off /\ off + 8 <= 100 + 16 /\ 24 = idx * 16 + (off - 100).
Proof. apply (striped_files_one_range 24 16 100 3 8); try lia; [exists 2|exists 3]; reflexivity. Defined.
