(* ===== verification/RWLoop.v ===== *)
(** The synchronous read/write engine of a worker (workers/LocalWorker.cpp): the choice of the
    phase-dependent functions ([initPhaseFunctionPointers()]), the journal side of an I/O
    ([journalBeginIO()], [journalCommitIO()], [journalReleaseIO()]) and the loop
    [rwBlockSized()] itself, which draws offsets from a generator, decides whether an access
    reads or writes, fills and checks the buffer and accounts the result.

    The storage is a parameter: a [Device] gives the results of [pread()], [pwrite()] and the file
    range locks, what the rate limiter does, the elapsed time of an I/O and whether the user interrupted the run. *)

From S2P Require Import Prelude Common CppStrings RandAlgo BlockSizeMix OffsetGen Journal Integrity LatencyHistogram LiveOps.

#[local] Open Scope list_scope.
#[local] Open Scope Z_scope.

(** ** Definitions *)

(** *** The functions of a phase *)

Inductive RWEngine : Type := Engine_rwBlockSized | Engine_aioBlockSized | Engine_spdkAioBlockSized.
Inductive PositionalWrite : Type :=
  | hdfsWriteWrapper | spdkWriteWrapper | mmapWriteWrapper | cuFileWriteWrapper | pwriteWrapper
  | spdkWriteAndReadWrapper | pwriteAndReadWrapper | cuFileWriteAndReadWrapper.
Inductive PositionalRead : Type :=
  | hdfsReadWrapper | spdkReadWrapper | mmapReadWrapper | cuFileReadWrapper | preadWrapper.
Inductive AioPrepper : Type := aioWritePrepper | aioRWMixPrepper | aioReadPrepper | aioJournalPrepper.
Inductive CudaMemcpy : Type := noOpCudaMemcpy | cudaMemcpyGPUToHost | cudaMemcpyHostToGPU.
Inductive BlockModifier : Type :=
  | Mod_noOp | Mod_integrityFill | Mod_randRefillCuda | Mod_randRefill | Mod_journalFill.
Inductive BlockChecker : Type := Check_noOp | Check_integrityVerify | Check_journalVerify.
Inductive RWRateLimiter : Type :=
  | noOpRateLimiter | preRWRateLimiter | preRWRateBalanceLimiterForReaders | preRWRateBalanceLimiterForWriters.

Record PhaseFuncs : Type := mkFuncs {
  funcRWBlockSized : RWEngine;
  funcPositionalWrite : PositionalWrite;
  funcPositionalRead : PositionalRead;
  funcAioRwPrepper : option AioPrepper;
  funcPreWriteCudaMemcpy : CudaMemcpy;
  funcPostReadCudaMemcpy : CudaMemcpy;
  funcPreWriteBlockModifier : BlockModifier;
  funcPostReadBlockChecker : BlockChecker;
  funcRWRateLimiter : RWRateLimiter;
  funcCuFileHandleReg_dirMode : bool;
}.

(** The configuration that the choice depends on. *)
Record PhaseArgs : Type := mkPhaseArgs {
  pa_ioDepth : Z;
  pa_useHDFS : bool;
  pa_useSPDK : bool;
  pa_spdkSupport : bool;
  pa_useMmap : bool;
  pa_useCuFileAPI : bool;
  pa_benchPathDir : bool;
  pa_integrityCheckSalt : Z;
  pa_areGPUsGiven : bool;
  pa_doDirectVerify : bool;
  pa_doReadInline : bool;
  pa_blockVariancePercent : Z;
  pa_rwMixReadPercent : Z;
  pa_limitWriteBps : Z;
  pa_limitReadBps : Z;
  pa_numRWMixReadThreads : Z;
  pa_rwMixThreadsReadPercent : Z;
  pa_journalingEnabled : bool;
}.

Definition rw_engine (a : PhaseArgs) : RWEngine :=
  if pa_ioDepth a =? 1 then Engine_rwBlockSized
  else if pa_spdkSupport a && pa_useSPDK a then Engine_spdkAioBlockSized
  else Engine_aioBlockSized.

Definition positional_write (a : PhaseArgs) : PositionalWrite :=
  if pa_useHDFS a then hdfsWriteWrapper
  else if pa_useSPDK a then spdkWriteWrapper
  else if pa_useMmap a then mmapWriteWrapper
  else if pa_useCuFileAPI a then cuFileWriteWrapper
  else pwriteWrapper.

Definition positional_read (a : PhaseArgs) : PositionalRead :=
  if pa_useHDFS a then hdfsReadWrapper
  else if pa_useSPDK a then spdkReadWrapper
  else if pa_useMmap a then mmapReadWrapper
  else if pa_useCuFileAPI a then cuFileReadWrapper
  else preadWrapper.

(** The branch for [BenchPhase_CREATEFILES]. *)
Definition write_phase_funcs (a : PhaseArgs) : PhaseFuncs :=
  let integrity := truthy (pa_integrityCheckSalt a) in
  let gpus := pa_areGPUsGiven a in
  let cuFile := pa_useCuFileAPI a in
  let inline := pa_doDirectVerify a || pa_doReadInline a in
  {| funcRWBlockSized := rw_engine a;
     funcPositionalWrite :=
       if inline then
         if pa_useSPDK a then spdkWriteAndReadWrapper
         else if negb cuFile then pwriteAndReadWrapper else cuFileWriteAndReadWrapper
       else positional_write a;
     funcPositionalRead := positional_read a;
     funcAioRwPrepper :=
       if pa_ioDepth a =? 1 then None
       else if truthy (pa_rwMixReadPercent a) then Some aioRWMixPrepper else Some aioWritePrepper;
     funcPreWriteCudaMemcpy :=
       if gpus && integrity then cudaMemcpyHostToGPU
       else if gpus && negb cuFile then cudaMemcpyGPUToHost else noOpCudaMemcpy;
     funcPostReadCudaMemcpy :=
       if inline && negb (pa_useSPDK a) && cuFile then cudaMemcpyGPUToHost else noOpCudaMemcpy;
     funcPreWriteBlockModifier :=
       if integrity then Mod_integrityFill
       else if truthy (pa_blockVariancePercent a) && gpus then Mod_randRefillCuda
       else if truthy (pa_blockVariancePercent a) then Mod_randRefill
       else Mod_noOp;
     funcPostReadBlockChecker :=
       if inline && pa_doDirectVerify a then Check_integrityVerify else Check_noOp;
     funcRWRateLimiter :=
       if truthy (pa_numRWMixReadThreads a) && truthy (pa_rwMixThreadsReadPercent a)
       then preRWRateBalanceLimiterForWriters
       else if truthy (pa_limitWriteBps a) then preRWRateLimiter
       else noOpRateLimiter;
     funcCuFileHandleReg_dirMode := cuFile && pa_benchPathDir a |}.

(** The branch for [BenchPhase_READFILES] and the other phases. *)
Definition read_phase_funcs (globalBenchPhase : BenchPhase) (a : PhaseArgs) : PhaseFuncs :=
  let integrity := truthy (pa_integrityCheckSalt a) in
  let cuFile := pa_useCuFileAPI a in
  {| funcRWBlockSized := rw_engine a;
     funcPositionalWrite := positional_write a;
     funcPositionalRead := positional_read a;
     funcAioRwPrepper := if pa_ioDepth a =? 1 then None else Some aioReadPrepper;
     funcPreWriteCudaMemcpy := noOpCudaMemcpy;
     funcPostReadCudaMemcpy :=
       if cuFile && integrity then cudaMemcpyGPUToHost
       else if pa_areGPUsGiven a && negb cuFile then cudaMemcpyHostToGPU else noOpCudaMemcpy;
     funcPreWriteBlockModifier := Mod_noOp;
     funcPostReadBlockChecker := if integrity then Check_integrityVerify else Check_noOp;
     funcRWRateLimiter :=
       if truthy (pa_numRWMixReadThreads a) && truthy (pa_rwMixThreadsReadPercent a)
          && bool_decide (globalBenchPhase = BenchPhase_CREATEFILES)
       then preRWRateBalanceLimiterForReaders
       else if truthy (pa_limitReadBps a) then preRWRateLimiter
       else noOpRateLimiter;
     funcCuFileHandleReg_dirMode := cuFile && pa_benchPathDir a |}.

Definition initPhaseFunctionPointers (benchPhase globalBenchPhase : BenchPhase) (a : PhaseArgs) : PhaseFuncs :=
  let f := if decide (benchPhase = BenchPhase_CREATEFILES) then write_phase_funcs a
           else read_phase_funcs globalBenchPhase a in
  if pa_journalingEnabled a then
    {| funcRWBlockSized := funcRWBlockSized f;
       funcPositionalWrite := funcPositionalWrite f;
       funcPositionalRead := funcPositionalRead f;
       funcAioRwPrepper := if 1 <? pa_ioDepth a then Some aioJournalPrepper else funcAioRwPrepper f;
       funcPreWriteCudaMemcpy := funcPreWriteCudaMemcpy f;
       funcPostReadCudaMemcpy := funcPostReadCudaMemcpy f;
       funcPreWriteBlockModifier := Mod_journalFill;
       funcPostReadBlockChecker := Check_journalVerify;
       funcRWRateLimiter := funcRWRateLimiter f;
       funcCuFileHandleReg_dirMode := funcCuFileHandleReg_dirMode f |}
  else f.

(** *** Read or write *)

(** [(workerRank + numIOPSSubmitted) % 100 < rwMixReadPercent]. *)
Definition is_rwmix_read (workerRank numIOPSSubmitted rwMixReadPercent : Z) : bool :=
  truthy rwMixReadPercent && ((workerRank +₆₄ numIOPSSubmitted) `mod` 100 <? rwMixReadPercent).

(** What an access is: is it a read, is it a read of a mix, and what the journal is told. *)
Definition decideIO (benchPhase globalBenchPhase : BenchPhase) (workerRank numIOPSSubmitted rwMixReadPercent : Z)
    : bool * bool * Intent :=
  if decide (benchPhase = BenchPhase_READFILES) then
    let isRWMixRead := bool_decide (benchPhase <> globalBenchPhase) in
    (true, isRWMixRead, if isRWMixRead then INTENT_READ_OR_INIT else INTENT_READ_SKIP_UNINIT)
  else if is_rwmix_read workerRank numIOPSSubmitted rwMixReadPercent then (true, true, INTENT_READ_OR_INIT)
  else (false, false, INTENT_WRITE).

(** [journalGetIntent()] of the asynchronous engines. *)
Definition journalGetIntent (benchPhase globalBenchPhase : BenchPhase) (workerRank numIOPSSubmitted rwMixReadPercent : Z)
    : Intent :=
  if decide (benchPhase = BenchPhase_READFILES) then
    if decide (globalBenchPhase = BenchPhase_READFILES) then INTENT_READ_SKIP_UNINIT else INTENT_READ_OR_INIT
  else if is_rwmix_read workerRank numIOPSSubmitted rwMixReadPercent then INTENT_READ_OR_INIT
  else INTENT_WRITE.

(** *** The storage *)

Record Device (W : Type) : Type := mkDevice {
  dev_pread : Z -> Z -> Z -> W -> Z * list Z * W;
  dev_pwrite : Z -> list Z -> Z -> W -> Z * W;
  dev_flock : Z -> Z -> Z -> bool -> bool -> W -> result W;
  dev_ratelimit : RWRateLimiter -> Z -> W -> result W;
  dev_elapsed : W -> Z;
  dev_interrupted : W -> bool;
}.
Arguments dev_pread {_} _ _ _ _ _.
Arguments dev_pwrite {_} _ _ _ _ _.
Arguments dev_flock {_} _ _ _ _ _ _ _.
Arguments dev_ratelimit {_} _ _ _ _.
Arguments dev_elapsed {_} _ _.
Arguments dev_interrupted {_} _ _.

Section rw_loop.
Context {R D G W : Type} `{!RandAlgo R, !RandAlgo D, !OffsetGenerator R D G} (dev : Device W).

(** What stays fixed during a phase. *)
Record RWArgs : Type := mkRWArgs {
  ra_workerRank : Z;
  ra_benchPhase : BenchPhase;
  ra_globalBenchPhase : BenchPhase;
  ra_rwMixReadPercent : Z;
  ra_blockVariancePercent : Z;
  ra_fileSize : Z;
  ra_fileOffsetBase : Z;
  ra_isSingleFile : bool;
  ra_journalEnabled : bool;
  ra_salt : Z;
  ra_funcs : PhaseFuncs;
  ra_randFill : Z -> R -> list Z * R;
  ra_sys : journal_syscall -> bool;
  ra_pageSize : Z;
}.

(** The part of the worker's state that the loop changes. *)
Record RWState : Type := mkRWState {
  rw_gen : G;
  rw_env : Env R D;
  rw_world : W;
  rw_buf : list Z;
  rw_blockVar : R;
  numIOPSSubmitted : Z;
  iopsLatHisto : LatencyHistogram;
  iopsLatHistoReadMix : LatencyHistogram;
  atomicLiveOps : LiveOps;
  atomicLiveOpsReadMix : LiveOps;
  rw_slot : JournalBlockIO;
  rw_guardsHeld : Z;
  rw_journals : list Journal;
  rw_locks : lock_table;
  errorFDVecIdx : option Z;
}.

Definition set_gen (st : RWState) (g : G) (e : Env R D) : RWState :=
  mkRWState g e (rw_world st) (rw_buf st) (rw_blockVar st) (numIOPSSubmitted st) (iopsLatHisto st)
    (iopsLatHistoReadMix st) (atomicLiveOps st) (atomicLiveOpsReadMix st) (rw_slot st)
    (rw_guardsHeld st) (rw_journals st) (rw_locks st) (errorFDVecIdx st).

Definition set_world (st : RWState) (w : W) : RWState :=
  mkRWState (rw_gen st) (rw_env st) w (rw_buf st) (rw_blockVar st) (numIOPSSubmitted st)
    (iopsLatHisto st) (iopsLatHistoReadMix st) (atomicLiveOps st) (atomicLiveOpsReadMix st) (rw_slot st)
    (rw_guardsHeld st) (rw_journals st) (rw_locks st) (errorFDVecIdx st).

Definition set_buf (st : RWState) (buf : list Z) (r : R) : RWState :=
  mkRWState (rw_gen st) (rw_env st) (rw_world st) buf r (numIOPSSubmitted st)
    (iopsLatHisto st) (iopsLatHistoReadMix st) (atomicLiveOps st) (atomicLiveOpsReadMix st) (rw_slot st)
    (rw_guardsHeld st) (rw_journals st) (rw_locks st) (errorFDVecIdx st).

Definition set_iops (st : RWState) (n : Z) : RWState :=
  mkRWState (rw_gen st) (rw_env st) (rw_world st) (rw_buf st) (rw_blockVar st) n
    (iopsLatHisto st) (iopsLatHistoReadMix st) (atomicLiveOps st) (atomicLiveOpsReadMix st) (rw_slot st)
    (rw_guardsHeld st) (rw_journals st) (rw_locks st) (errorFDVecIdx st).

Definition set_stats (st : RWState) (h hm : LatencyHistogram) (o om : LiveOps) : RWState :=
  mkRWState (rw_gen st) (rw_env st) (rw_world st) (rw_buf st) (rw_blockVar st) (numIOPSSubmitted st)
    h hm o om (rw_slot st) (rw_guardsHeld st) (rw_journals st) (rw_locks st) (errorFDVecIdx st).

Definition set_journal (st : RWState) (slot : JournalBlockIO) (held : Z) (js : list Journal)
    (t : lock_table) : RWState :=
  mkRWState (rw_gen st) (rw_env st) (rw_world st) (rw_buf st) (rw_blockVar st) (numIOPSSubmitted st)
    (iopsLatHisto st) (iopsLatHistoReadMix st) (atomicLiveOps st) (atomicLiveOpsReadMix st)
    slot held js t (errorFDVecIdx st).

Definition set_error (st : RWState) (fileIdx : Z) : RWState :=
  mkRWState (rw_gen st) (rw_env st) (rw_world st) (rw_buf st) (rw_blockVar st) (numIOPSSubmitted st)
    (iopsLatHisto st) (iopsLatHistoReadMix st) (atomicLiveOps st) (atomicLiveOpsReadMix st) (rw_slot st)
    (rw_guardsHeld st) (rw_journals st) (rw_locks st) (Some fileIdx).

(** How an iteration ends: go on, return a value, or throw; the state is kept in each case. *)
Inductive outcome : Type :=
  | Out_next (st : RWState)
  | Out_return (rc : Z) (st : RWState)
  | Out_throw (e : exn) (st : RWState).

(** [journalBeginIO(0, ...)]; [None]: the thread would wait for another holder. *)
Definition journalBeginIO (args : RWArgs) (fileIdx off len : Z) (intent : Intent) (st : RWState)
    : option (result (Action * RWState)) :=
  j ← rw_journals st !! Z.to_nat fileIdx;
  r ← JournalBlockIO_begin (ra_sys args) (ra_pageSize args) off len intent (rw_guardsHeld st =? 0)
        (rw_slot st) j (rw_locks st);
  Some ('(action, slot, j, t) ← r;
        let held := match action with
                    | ACTION_READ | ACTION_WRITE => rw_guardsHeld st + 1
                    | _ => rw_guardsHeld st
                    end in
        Ok (action, set_journal st slot held (<[Z.to_nat fileIdx := j]> (rw_journals st)) t)).

Definition journalCommitIO (args : RWArgs) (fileIdx : Z) (st : RWState) : option (result RWState) :=
  j ← rw_journals st !! Z.to_nat fileIdx;
  Some ('(slot, j, t) ← JournalBlockIO_commit (ra_sys args) (ra_pageSize args) (rw_slot st) j (rw_locks st);
        Ok (set_journal st slot (rw_guardsHeld st - 1) (<[Z.to_nat fileIdx := j]> (rw_journals st)) t)).

Definition journalReleaseIO (st : RWState) : RWState :=
  let '(slot, t) := JournalBlockIO_release (rw_slot st) (rw_locks st) in
  set_journal st slot (rw_guardsHeld st - 1) (rw_journals st) t.

(** The destructor of [JournalSlotsReleaser], at every exit of the function. *)
Definition journal_slots_release (st : RWState) : RWState :=
  let '(slot, t) := JournalBlockIO_release (rw_slot st) (rw_locks st) in
  set_journal st slot 0 (rw_journals st) t.

(** [funcPreWriteBlockModifier]; the CUDA variant is not modelled. *)
Definition pre_write_modify (args : RWArgs) (fileIdx len off : Z) (st : RWState) : option RWState :=
  match funcPreWriteBlockModifier (ra_funcs args) with
  | Mod_noOp => Some st
  | Mod_integrityFill =>
      Some (set_buf st (preWriteIntegrityCheckFillBuf (ra_salt args) (rw_buf st) len off) (rw_blockVar st))
  | Mod_randRefill =>
      let '(buf, r) := preWriteBufRandRefill (ra_randFill args) (ra_workerRank args) (numIOPSSubmitted st)
                         (ra_rwMixReadPercent args) (ra_blockVariancePercent args) (rw_buf st) len (rw_blockVar st) in
      Some (set_buf st buf r)
  | Mod_journalFill =>
      j ← rw_journals st !! Z.to_nat fileIdx;
      buf ← preWriteJournalFillBuf j (rw_slot st) (rw_buf st) len off;
      Some (set_buf st buf (rw_blockVar st))
  | Mod_randRefillCuda => None
  end.

(** [funcPostReadBlockChecker]. *)
Definition post_read_check (args : RWArgs) (fileIdx len off : Z) (st : RWState) : option (result unit) :=
  match funcPostReadBlockChecker (ra_funcs args) with
  | Check_noOp => Some (Ok tt)
  | Check_integrityVerify =>
      Some (postReadIntegrityCheckVerifyBuf true [] (ra_salt args) (rw_buf st) len off)
  | Check_journalVerify =>
      j ← rw_journals st !! Z.to_nat fileIdx;
      postReadJournalVerifyBuf j (rw_slot st) (rw_buf st) len off
  end.

(** The statistics of a finished I/O. *)
Definition account_io (isRWMixRead : bool) (rwRes elapsed : Z) (st : RWState) : RWState :=
  if isRWMixRead then
    set_stats st (iopsLatHisto st) (addLatency elapsed (iopsLatHistoReadMix st)) (atomicLiveOps st)
      (LiveOps_add_io rwRes (atomicLiveOpsReadMix st))
  else
    set_stats st (addLatency elapsed (iopsLatHisto st)) (iopsLatHistoReadMix st)
      (LiveOps_add_io rwRes (atomicLiveOps st)) (atomicLiveOpsReadMix st).

(** [numIOPSSubmitted++; rwOffsetGen->addBytesSubmitted(n); checkInterruptionRequest();] *)
Definition finish_io (n : Z) (st : RWState) : outcome :=
  let st := set_gen (set_iops st (numIOPSSubmitted st +₆₄ 1)) (addBytesSubmitted n (rw_gen st)) (rw_env st) in
  if dev_interrupted dev (rw_world st)
  then Out_throw (WorkerInterruptedException "Received friendly request to interrupt execution.") st
  else Out_next st.

(** From the rate limiter to the end of the iteration. *)
Definition do_io (args : RWArgs) (isRead isRWMixRead : bool) (fileIdx off len : Z) (st : RWState)
    : option outcome :=
  match dev_ratelimit dev (funcRWRateLimiter (ra_funcs args)) len (rw_world st) with
  | Throw e => Some (Out_throw e st)
  | Ok w =>
  st ← pre_write_modify args fileIdx len off (set_world st w);
  match dev_flock dev fileIdx off len (negb isRead) false (rw_world st) with
  | Throw e => Some (Out_throw e st)
  | Ok w =>
      let '(rwRes, st) :=
        if isRead then
          let '(rc, bytes, w) := dev_pread dev fileIdx len off w in
          (rc, set_buf (set_world st w) (overwrite bytes (rw_buf st)) (rw_blockVar st))
        else
          let '(rc, w) := dev_pwrite dev fileIdx (take (Z.to_nat len) (rw_buf st)) off w in
          (rc, set_world st w) in
      let unlocked := dev_flock dev fileIdx off len true true (rw_world st) in
      if rwRes <=? 0 then
        let st := set_error st fileIdx in
        match unlocked with
        | Throw e => Some (Out_throw e st)
        | Ok w =>
            let st := set_world st w in
            let st := if ra_journalEnabled args then journalReleaseIO st else st in
            Some (Out_return
              (if rwRes <? 0 then rwRes
               else getNumBytesTotal (rw_gen st) -₆₄ getNumBytesLeftToSubmit (rw_gen st)) st)
        end
      else
        match unlocked with
        | Throw e => Some (Out_throw e st)
        | Ok w =>
            let st := set_world st w in
            check ← post_read_check args fileIdx len off st;
            match check with
            | Throw e => Some (Out_throw e st)
            | Ok _ =>
                commit ← (if ra_journalEnabled args then journalCommitIO args fileIdx st else Some (Ok st));
                match commit with
                | Throw e => Some (Out_throw e st)
                | Ok st => Some (finish_io rwRes (account_io isRWMixRead rwRes (dev_elapsed dev (rw_world st)) st))
                end
            end
        end
  end
  end.

(** One iteration of the loop. *)
Definition rw_iteration (args : RWArgs) (st : RWState) : option outcome :=
  '(rwOffsetGenNext, (g, e)) ← getNextOffset (rw_gen st) (rw_env st);
  '(currentBlockSize, e) ← getNextBlockSizeToSubmit g e;
  let st := set_gen st g e in
  let '(fileHandleIdx, currentOffset) :=
    calcFileIdxAndOffsetStriped rwOffsetGenNext (ra_fileSize args) (ra_fileOffsetBase args) (ra_isSingleFile args) in
  let '(isRead, isRWMixRead, journalIntent) :=
    decideIO (ra_benchPhase args) (ra_globalBenchPhase args) (ra_workerRank args) (numIOPSSubmitted st)
      (ra_rwMixReadPercent args) in
  if ra_journalEnabled args then
    begun ← journalBeginIO args fileHandleIdx currentOffset currentBlockSize journalIntent st;
    match begun with
    | Throw e => Some (Out_throw e st)
    | Ok (ACTION_SKIP, st) => Some (finish_io currentBlockSize st)
    | Ok (action, st) =>
        let isRead := match action with ACTION_READ => true | _ => false end in
        do_io args isRead (isRWMixRead && isRead) fileHandleIdx currentOffset currentBlockSize st
    end
  else do_io args isRead isRWMixRead fileHandleIdx currentOffset currentBlockSize st.

(** [rwBlockSized()]: the returned value or the exception, with the state at the exit. *)
Fixpoint rwBlockSized (fuel : nat) (args : RWArgs) (st : RWState) : option (result Z * RWState) :=
  if getNumBytesLeftToSubmit (rw_gen st) =? 0 then
    Some (Ok (getNumBytesTotal (rw_gen st)), journal_slots_release st)
  else
    match fuel with
    | O => None
    | S fuel =>
        out ← rw_iteration args st;
        match out with
        | Out_next st => rwBlockSized fuel args st
        | Out_return rc st => Some (Ok rc, journal_slots_release st)
        | Out_throw e st => Some (Throw e, journal_slots_release st)
        end
    end.
End rw_loop.

(** ** Storage that transfers every byte *)

Record disk : Type := mkDisk { d_files : list (list Z); d_accesses : list (bool * Z * Z * Z) }.

(** Reads stop at the end of the file; each access is recorded (is it a read, file, offset, length). *)
Definition plain_device (elapsed : nat -> Z) : Device disk := {|
  dev_pread fileIdx len off w :=
    let bytes := pread off len (default [] (d_files w !! Z.to_nat fileIdx)) in
    (Z.of_nat (length bytes), bytes, mkDisk (d_files w) (d_accesses w ++ [(true, fileIdx, off, len)]));
  dev_pwrite fileIdx bytes off w :=
    (Z.of_nat (length bytes),
     mkDisk (alter (pwrite off bytes) (Z.to_nat fileIdx) (d_files w))
       (d_accesses w ++ [(false, fileIdx, off, Z.of_nat (length bytes))]));
  dev_flock _ _ _ _ _ w := Ok w;
  dev_ratelimit _ _ w := Ok w;
  dev_elapsed w := elapsed (length (d_accesses w));
  dev_interrupted _ := false;
|}.

Section phases.
Context {R D G : Type} `{!RandAlgo R, !RandAlgo D, !OffsetGenerator R D G} (elapsed : nat -> Z).
#[local] Abbreviation state := (RWState (R := R) (D := D) (G := G) (W := disk)).
#[local] Abbreviation args_t := (RWArgs (R := R)).

(** The counters of the worker after [ios]. *)
Definition counted (ios : list (Z * Z)) (st st' : state) : Prop :=
  numBytesDone (atomicLiveOps st') = u64 (numBytesDone (atomicLiveOps st) + Zsum (snd <$> ios))
  /\ numIOPSDone (atomicLiveOps st') = u64 (numIOPSDone (atomicLiveOps st) + Z.of_nat (length ios))
  /\ numStoredValues (iopsLatHisto st') = u64 (numStoredValues (iopsLatHisto st) + Z.of_nat (length ios))
  /\ numIOPSSubmitted st' = u64 (numIOPSSubmitted st + Z.of_nat (length ios))
  /\ atomicLiveOpsReadMix st' = atomicLiveOpsReadMix st.

Definition counters_ok (st : state) : Prop :=
  0 <= numBytesDone (atomicLiveOps st) < TWO64 /\ 0 <= numIOPSDone (atomicLiveOps st) < TWO64
  /\ 0 <= numStoredValues (iopsLatHisto st) < TWO64 /\ 0 <= numIOPSSubmitted st < TWO64.

Lemma counted_nil st : counters_ok st -> counted [] st st.
Proof. intros (? & ? & ? & ?). unfold counted. cbn. rewrite !Z.add_0_r. split_and!; (done || by rewrite u64_small). Qed.

Lemma counted_cons off n ios st st1 st' :
  numBytesDone (atomicLiveOps st1) = numBytesDone (atomicLiveOps st) +₆₄ n ->
  numIOPSDone (atomicLiveOps st1) = numIOPSDone (atomicLiveOps st) +₆₄ 1 ->
  numStoredValues (iopsLatHisto st1) = numStoredValues (iopsLatHisto st) +₆₄ 1 ->
  numIOPSSubmitted st1 = numIOPSSubmitted st +₆₄ 1 ->
  atomicLiveOpsReadMix st1 = atomicLiveOpsReadMix st ->
  counted ios st1 st' -> counted ((off, n) :: ios) st st'.
Proof.
  intros H1 H2 H3 H4 H5 (C1 & C2 & C3 & C4 & C5). unfold counted. rewrite fmap_cons, Zsum_cons. cbn [snd length].
  rewrite C1, C2, C3, C4, H1, H2, H3, H4, !u64_add_mod_l. split_and!; [f_equal; lia..|congruence].
Qed.

(** A phase without journal on a single file. *)
Record plain_phase (args : args_t) (phase : BenchPhase) : Prop := {
  pp_phase : ra_benchPhase args = phase;
  pp_global : ra_globalBenchPhase args = phase;
  pp_mix : ra_rwMixReadPercent args = 0;
  pp_single : ra_isSingleFile args = true;
  pp_journal : ra_journalEnabled args = false;
  pp_base : 0 <= ra_fileOffsetBase args;
}.

Definition shift_ios (base : Z) (ios : list (Z * Z)) : list (Z * Z) := (fun '(o, n) => (o + base, n)) <$> ios.

Definition ios_in_file (base size : Z) (ios : list (Z * Z)) : Prop :=
  Forall (fun '(o, n) => 0 <= o /\ 0 < n /\ o + base + n <= size /\ o + base < TWO64) ios.

Lemma take_fill salt buf len off :
  0 <= len -> 0 <= off -> take (Z.to_nat len) (preWriteIntegrityCheckFillBuf salt buf len off)
                          = preWriteIntegrityCheckFillBuf salt [] len off.
Proof.
  intros Hl Ho. rewrite !fill_spec by done. rewrite drop_nil, app_nil_r, take_app_le, take_ge; [done|..];
    rewrite length_fmap, length_seqZ; lia.
Qed.

Lemma fill_length salt len off : 0 <= len -> 0 <= off -> Z.of_nat (length (preWriteIntegrityCheckFillBuf salt [] len off)) = len.
Proof. intros Hl Ho. rewrite fill_spec, drop_nil, app_nil_r, length_fmap, length_seqZ by done. lia. Qed.

(** The state after one access of a write phase with integrity checking. *)
Lemma write_iteration args (st : state) off (g1 : G) (e1 e2 : Env R D) n file :
  plain_phase args BenchPhase_CREATEFILES ->
  funcPreWriteBlockModifier (ra_funcs args) = Mod_integrityFill -> funcPostReadBlockChecker (ra_funcs args) = Check_noOp ->
  getNextOffset (rw_gen st) (rw_env st) = Some (off, (g1, e1)) -> getNextBlockSizeToSubmit g1 e1 = Some (n, e2) ->
  d_files (rw_world st) = [file] -> ios_in_file (ra_fileOffsetBase args) (Z.of_nat (length file)) [(off, n)] ->
  exists st1, rw_iteration (plain_device elapsed) args st = Some (Out_next st1)
    /\ rw_gen st1 = addBytesSubmitted n g1 /\ rw_env st1 = e2
    /\ d_files (rw_world st1) = [write_checked (ra_salt args) (shift_ios (ra_fileOffsetBase args) [(off, n)]) file]
    /\ d_accesses (rw_world st1) = d_accesses (rw_world st) ++ [(false, 0, off + ra_fileOffsetBase args, n)]
    /\ numBytesDone (atomicLiveOps st1) = numBytesDone (atomicLiveOps st) +₆₄ n
    /\ numIOPSDone (atomicLiveOps st1) = numIOPSDone (atomicLiveOps st) +₆₄ 1
    /\ numStoredValues (iopsLatHisto st1) = numStoredValues (iopsLatHisto st) +₆₄ 1
    /\ numIOPSSubmitted st1 = numIOPSSubmitted st +₆₄ 1
    /\ atomicLiveOpsReadMix st1 = atomicLiveOpsReadMix st.
Proof.
  intros [Hp Hg Hm Hs Hj Hb] Hmod Hchk Hoff Hsize Hf Hin. apply Forall_cons in Hin as [(Ho & Hn & Hend & H64) _].
  unfold rw_iteration. rewrite Hoff. cbn [mbind option_bind]. rewrite Hsize. cbn [mbind option_bind].
  unfold calcFileIdxAndOffsetStriped. rewrite Hs, Hj, Hp, Hm. unfold decideIO.
  rewrite decide_False by done. cbn [is_rwmix_read truthy Z.eqb negb andb].
  unfold do_io, pre_write_modify, post_read_check. rewrite Hmod, Hchk, Hj. rewrite u64_small by lia.
  cbn [mbind option_bind set_world set_gen set_buf plain_device dev_flock dev_ratelimit dev_pwrite rw_world rw_buf negb].
  rewrite take_fill by lia. rewrite fill_length by lia. rewrite (proj2 (Z.leb_gt n 0)) by lia.
  cbn [set_world rw_world]. unfold finish_io, account_io. eexists. split; [reflexivity|]. cbn. rewrite Hf. split_and!; done.
Qed.

(** Expected content passes the verification. *)
Lemma verify_expected salt buf len off :
  0 < len -> 0 <= off -> (forall i, 0 <= i < len -> buf !! Z.to_nat i = Some (expected_byte salt (off + i))) ->
  postReadIntegrityCheckVerifyBuf true [] salt buf len off = Ok tt.
Proof.
  intros Hl Ho Hbuf. assert (len <= Z.of_nat (length buf)) as Hlen.
  { pose proof (lookup_lt_Some _ _ _ (Hbuf (len - 1) ltac:(lia))). lia. }
  pose proof (verify_spec [] salt buf len off Hl Ho Hlen) as H.
  destruct (postReadIntegrityCheckVerifyBuf _ _ _ _ _ _) as [[]|e]; [done|].
  destruct H as (i & a & Hi & Ha & Hne & _). rewrite Hbuf in Ha by done. congruence.
Qed.

(** The state after one access of a read phase that verifies. *)
Lemma read_iteration args (st : state) off (g1 : G) (e1 e2 : Env R D) n file :
  plain_phase args BenchPhase_READFILES ->
  funcPreWriteBlockModifier (ra_funcs args) = Mod_noOp -> funcPostReadBlockChecker (ra_funcs args) = Check_integrityVerify ->
  getNextOffset (rw_gen st) (rw_env st) = Some (off, (g1, e1)) -> getNextBlockSizeToSubmit g1 e1 = Some (n, e2) ->
  d_files (rw_world st) = [file] -> ios_in_file (ra_fileOffsetBase args) (Z.of_nat (length file)) [(off, n)] ->
  (forall o, off + ra_fileOffsetBase args <= o < off + ra_fileOffsetBase args + n ->
     file !! Z.to_nat o = Some (expected_byte (ra_salt args) o)) ->
  exists st1, rw_iteration (plain_device elapsed) args st = Some (Out_next st1)
    /\ rw_gen st1 = addBytesSubmitted n g1 /\ rw_env st1 = e2 /\ d_files (rw_world st1) = [file]
    /\ d_accesses (rw_world st1) = d_accesses (rw_world st) ++ [(true, 0, off + ra_fileOffsetBase args, n)]
    /\ numBytesDone (atomicLiveOps st1) = numBytesDone (atomicLiveOps st) +₆₄ n
    /\ numIOPSDone (atomicLiveOps st1) = numIOPSDone (atomicLiveOps st) +₆₄ 1
    /\ numStoredValues (iopsLatHisto st1) = numStoredValues (iopsLatHisto st) +₆₄ 1
    /\ numIOPSSubmitted st1 = numIOPSSubmitted st +₆₄ 1
    /\ atomicLiveOpsReadMix st1 = atomicLiveOpsReadMix st.
Proof.
  intros [Hp Hg Hm Hs Hj Hb] Hmod Hchk Hoff Hsize Hf Hin Hfile. apply Forall_cons in Hin as [(Ho & Hn & Hend & H64) _].
  assert (length (pread (off + ra_fileOffsetBase args) n file) = Z.to_nat n) as Hlen.
  { unfold pread. rewrite length_take, length_drop. lia. }
  unfold rw_iteration. rewrite Hoff. cbn [mbind option_bind]. rewrite Hsize. cbn [mbind option_bind].
  unfold calcFileIdxAndOffsetStriped. rewrite Hs, Hj, Hp, Hg. unfold decideIO.
  rewrite decide_True by done. rewrite bool_decide_eq_false_2 by (intros H; by apply H).
  unfold do_io, pre_write_modify, post_read_check. rewrite Hmod, Hchk, Hj. rewrite u64_small by lia.
  cbn [mbind option_bind set_world set_gen set_buf plain_device dev_flock dev_ratelimit dev_pread rw_world rw_buf negb].
  rewrite Hf. change (default [] ([file] !! Z.to_nat 0)) with file. rewrite Hlen, Z2Nat.id by lia.
  rewrite (proj2 (Z.leb_gt n 0)) by lia. cbn [set_world rw_world rw_buf set_buf mbind option_bind].
  rewrite verify_expected; [| lia| lia|].
  - unfold finish_io, account_io. eexists. split; [reflexivity|]. cbn. split_and!; done.
  - intros i Hi. unfold overwrite. rewrite lookup_app_l by lia. unfold pread. rewrite lookup_take_lt, lookup_drop by lia.
    rewrite <- Z2Nat.inj_add by lia. apply Hfile. lia.
Qed.

Lemma write_checked_cons salt io ios file : write_checked salt (io :: ios) file = write_checked salt ios (write_checked salt [io] file).
Proof. done. Qed.

Lemma write_checked_length salt ios file :
  Forall (fun '(off, len) => 0 <= off /\ 0 <= len /\ off + len <= Z.of_nat (length file)) ios ->
  length (write_checked salt ios file) = length file.
Proof. intros H. by apply write_checked_spec. Qed.

(** The whole write phase performs the accesses of the generator. *)
Lemma write_phase fuel args (st : state) ios (g' : G) (e' : Env R D) file :
  plain_phase args BenchPhase_CREATEFILES ->
  funcPreWriteBlockModifier (ra_funcs args) = Mod_integrityFill -> funcPostReadBlockChecker (ra_funcs args) = Check_noOp ->
  og_drain fuel (rw_gen st) (rw_env st) = Some (ios, (g', e')) -> counters_ok st ->
  d_files (rw_world st) = [file] -> ios_in_file (ra_fileOffsetBase args) (Z.of_nat (length file)) ios ->
  exists st', rwBlockSized (plain_device elapsed) fuel args st = Some (Ok (getNumBytesTotal g'), st')
    /\ d_files (rw_world st') = [write_checked (ra_salt args) (shift_ios (ra_fileOffsetBase args) ios) file]
    /\ d_accesses (rw_world st')
       = d_accesses (rw_world st) ++ ((fun '(o, n) => (false, 0, o + ra_fileOffsetBase args, n)) <$> ios)
    /\ counted ios st st'.
Proof.
  intros Hpp Hmod Hchk. revert st ios file. induction fuel as [|fuel IH]; intros st ios file Hd Hc Hf Hin.
  - cbn [og_drain] in Hd. cbn [rwBlockSized]. destruct (_ =? 0); [|done]. injection Hd as <- <- <-.
    eexists. split; [reflexivity|]. cbn. split; [done|]. split; [by rewrite app_nil_r|]. by apply (counted_nil st).
  - cbn [og_drain] in Hd. cbn [rwBlockSized]. destruct (_ =? 0).
    { injection Hd as <- <- <-. eexists. split; [reflexivity|]. cbn. split; [done|]. split; [by rewrite app_nil_r|].
      by apply (counted_nil st). }
    destruct (getNextOffset (rw_gen st) (rw_env st)) as [[off [g1 e1]]|] eqn:Hoff; [|done]. cbn [mbind option_bind] in Hd.
    destruct (getNextBlockSizeToSubmit g1 e1) as [[n e2]|] eqn:Hsize; [|done]. cbn [mbind option_bind] in Hd.
    destruct (og_drain fuel (addBytesSubmitted n g1) e2) as [[ios1 [g2 e3]]|] eqn:Hd1; [|done]. injection Hd as <- <- <-.
    apply Forall_cons in Hin as [Hio Hin].
    destruct (write_iteration args st off g1 e1 e2 n file Hpp Hmod Hchk Hoff Hsize Hf) as
      (st1 & -> & Hg1 & He1 & Hf1 & Ha1 & H1 & H2 & H3 & H4 & H5); [by constructor|]. cbn [mbind option_bind].
    destruct (IH st1 ios1 (write_checked (ra_salt args) (shift_ios (ra_fileOffsetBase args) [(off, n)]) file))
      as (st' & Hrun & Hf' & Ha' & Hc'); [by rewrite Hg1, He1| |done| |].
    { unfold counters_ok. rewrite H1, H2, H3, H4. split_and!; apply u64_range. }
    { unfold ios_in_file. rewrite write_checked_length; [done|]. constructor; [|done]. pose proof (pp_base _ _ Hpp). lia. }
    exists st'. split; [done|]. split; [by rewrite Hf'|]. split.
    + rewrite Ha', Ha1, <- app_assoc. done.
    + by eapply counted_cons.
Qed.

(** The whole read phase performs the accesses of the generator and accepts the content. *)
Lemma read_phase fuel args (st : state) ios (g' : G) (e' : Env R D) file :
  plain_phase args BenchPhase_READFILES ->
  funcPreWriteBlockModifier (ra_funcs args) = Mod_noOp -> funcPostReadBlockChecker (ra_funcs args) = Check_integrityVerify ->
  og_drain fuel (rw_gen st) (rw_env st) = Some (ios, (g', e')) -> counters_ok st ->
  d_files (rw_world st) = [file] -> ios_in_file (ra_fileOffsetBase args) (Z.of_nat (length file)) ios ->
  Forall (fun '(off, n) => forall o, off + ra_fileOffsetBase args <= o < off + ra_fileOffsetBase args + n ->
            file !! Z.to_nat o = Some (expected_byte (ra_salt args) o)) ios ->
  exists st', rwBlockSized (plain_device elapsed) fuel args st = Some (Ok (getNumBytesTotal g'), st')
    /\ d_files (rw_world st') = [file]
    /\ d_accesses (rw_world st')
       = d_accesses (rw_world st) ++ ((fun '(o, n) => (true, 0, o + ra_fileOffsetBase args, n)) <$> ios)
    /\ counted ios st st'.
Proof.
  intros Hpp Hmod Hchk. revert st ios. induction fuel as [|fuel IH]; intros st ios Hd Hc Hf Hin Hok.
  - cbn [og_drain] in Hd. cbn [rwBlockSized]. destruct (_ =? 0); [|done]. injection Hd as <- <- <-.
    eexists. split; [reflexivity|]. cbn. split; [done|]. split; [by rewrite app_nil_r|]. by apply (counted_nil st).
  - cbn [og_drain] in Hd. cbn [rwBlockSized]. destruct (_ =? 0).
    { injection Hd as <- <- <-. eexists. split; [reflexivity|]. cbn. split; [done|]. split; [by rewrite app_nil_r|].
      by apply (counted_nil st). }
    destruct (getNextOffset (rw_gen st) (rw_env st)) as [[off [g1 e1]]|] eqn:Hoff; [|done]. cbn [mbind option_bind] in Hd.
    destruct (getNextBlockSizeToSubmit g1 e1) as [[n e2]|] eqn:Hsize; [|done]. cbn [mbind option_bind] in Hd.
    destruct (og_drain fuel (addBytesSubmitted n g1) e2) as [[ios1 [g2 e3]]|] eqn:Hd1; [|done]. injection Hd as <- <- <-.
    apply Forall_cons in Hin as [Hio Hin]. apply Forall_cons in Hok as [Hok1 Hok].
    destruct (read_iteration args st off g1 e1 e2 n file Hpp Hmod Hchk Hoff Hsize Hf) as
      (st1 & -> & Hg1 & He1 & Hf1 & Ha1 & H1 & H2 & H3 & H4 & H5); [by constructor|done|]. cbn [mbind option_bind].
    destruct (IH st1 ios1) as (st' & Hrun & Hf' & Ha' & Hc'); [by rewrite Hg1, He1| |done|done|done|].
    { unfold counters_ok. rewrite H1, H2, H3, H4. split_and!; apply u64_range. }
    exists st'. split; [done|]. split; [by rewrite Hf'|]. split.
    + rewrite Ha', Ha1, <- app_assoc. done.
    + by eapply counted_cons.
Qed.
End phases.

(** ** Coverage of contiguous accesses *)

Lemma contiguous_covers off ios :
  contiguous off ios -> Forall (fun '(_, n) => 0 < n) ios ->
  forall o, off <= o < off + Zsum (snd <$> ios) -> Exists (fun '(o', n) => o' <= o < o' + n) ios.
Proof.
  revert off. induction ios as [|[o' n] ios IH]; intros off Hc Hn o Ho; cbn in *; [lia|].
  destruct Hc as [-> Hc]. apply Forall_cons in Hn as [Hn0 Hn]. change (foldr Z.add 0 (snd <$> ios)) with (Zsum (snd <$> ios)) in Ho.
  destruct (decide (o < off + n)); [left; lia|right]. apply (IH (off + n)); [done|done|lia].
Qed.

(** The same configuration for a write phase and a read phase, with integrity checking. *)
Definition verify_config (pa : PhaseArgs) (salt : Z) : Prop :=
  pa_integrityCheckSalt pa = salt /\ salt <> 0 /\ pa_journalingEnabled pa = false
  /\ pa_doDirectVerify pa = false /\ pa_doReadInline pa = false.

Lemma verify_config_funcs pa salt :
  verify_config pa salt ->
  let w := initPhaseFunctionPointers BenchPhase_CREATEFILES BenchPhase_CREATEFILES pa in
  let r := initPhaseFunctionPointers BenchPhase_READFILES BenchPhase_READFILES pa in
  funcPreWriteBlockModifier w = Mod_integrityFill /\ funcPostReadBlockChecker w = Check_noOp
  /\ funcPreWriteBlockModifier r = Mod_noOp /\ funcPostReadBlockChecker r = Check_integrityVerify.
Proof.
  intros (Hs & Hne & Hj & Hd & Hi). unfold initPhaseFunctionPointers. rewrite Hj. rewrite decide_True by done.
  rewrite decide_False by done. cbn. rewrite Hs, Hd, Hi. unfold truthy. by rewrite (proj2 (Z.eqb_neq salt 0)).
Qed.

(** ** Theorems *)

(** C1: a write phase followed by a read phase, with integrity checking: a worker that writes a file
    sequentially with any mix of block sizes returns the file size and counts every byte and
    access; then every worker that reads within the file, with any offset generator (sequential,
    reverse, random, aligned or full coverage) and other block sizes, terminates without a
    verification error, returns its amount, and leaves the file unchanged. *)
Theorem verified_write_then_read_phases {R D G} `{!RandAlgo R, !RandAlgo D, !OffsetGenerator R D G, !OffsetGenLaws R D G}
    (elapsed : nat -> Z) pa salt (wargs rargs : RWArgs (R := R)) mix size file
    (wst : RWState (R := R) (D := D) (G := OffsetGenSequential) (W := disk)) :
  verify_config pa salt -> mix_ok mix -> env_ok (rw_env wst) -> counters_ok wst ->
  plain_phase wargs BenchPhase_CREATEFILES -> plain_phase rargs BenchPhase_READFILES ->
  ra_salt wargs = salt -> ra_salt rargs = salt -> ra_fileOffsetBase rargs = ra_fileOffsetBase wargs ->
  ra_funcs wargs = initPhaseFunctionPointers BenchPhase_CREATEFILES BenchPhase_CREATEFILES pa ->
  ra_funcs rargs = initPhaseFunctionPointers BenchPhase_READFILES BenchPhase_READFILES pa ->
  0 <= size -> ra_fileOffsetBase wargs + size < 2 ^ 63 -> Z.of_nat (length file) = ra_fileOffsetBase wargs + size ->
  rw_gen wst = OffsetGenSequential_new size 0 mix -> d_files (rw_world wst) = [file] ->
  exists wst' ios, rwBlockSized (plain_device elapsed) (Z.to_nat size) wargs wst = Some (Ok size, wst')
    /\ Zsum (snd <$> ios) = size /\ counted ios wst wst'
    /\ forall rst : RWState (R := R) (D := D) (G := G) (W := disk),
       og_inv (rw_gen rst) -> env_ok (rw_env rst) -> counters_ok rst ->
       0 <= og_lo (rw_gen rst) -> og_hi (rw_gen rst) <= size ->
       d_files (rw_world rst) = d_files (rw_world wst') ->
       exists rst' rios,
         rwBlockSized (plain_device elapsed) (Z.to_nat (getNumBytesLeftToSubmit (rw_gen rst))) rargs rst
         = Some (Ok (getNumBytesTotal (rw_gen rst)), rst')
         /\ d_files (rw_world rst') = d_files (rw_world wst')
         /\ Zsum (snd <$> rios) = getNumBytesLeftToSubmit (rw_gen rst) /\ counted rios rst rst'.
Proof.
  intros Hcfg Hmix Henv Hcnt Hwp Hrp Hws Hrs Hbase Hwf Hrf Hsize H63 Hlen Hgen Hfile.
  destruct (verify_config_funcs pa salt Hcfg) as (Hf1 & Hf2 & Hf3 & Hf4). rewrite <- Hwf in Hf1, Hf2. rewrite <- Hrf in Hf3, Hf4.
  pose proof (pp_base _ _ Hwp) as Hb0.
  assert (seq_inv (rw_gen wst)) as Hinv. { rewrite Hgen. unfold seq_inv. cbn. split_and!; (done || lia). }
  destruct (og_drain_spec (OffsetGenLaws0 := seq_laws) (Z.to_nat size) (rw_gen wst) (rw_env wst) Hinv Henv)
    as (ios & g' & e' & Hd & Hsum & Hall & _ & _ & _ & Htot & _); [rewrite Hgen; cbn; lia|].
  pose proof (seq_drain_contiguous _ _ _ _ _ Hinv Henv Hd) as Hcont.
  rewrite Hgen in Hsum, Htot, Hcont. cbn in Hsum, Htot, Hcont.
  assert (Forall (fun '(o, n) => 0 <= o /\ 0 < n /\ o + n <= size) ios) as Hios.
  { eapply Forall_impl; [exact Hall|]. intros [o n] (Hn & Hlo & Hhi). rewrite Hgen in Hlo, Hhi. cbn in Hlo, Hhi. lia. }
  destruct (write_phase elapsed (Z.to_nat size) wargs wst ios g' e' file) as (wst' & Hrun & Hf' & _ & Hc'); try done.
  { eapply Forall_impl; [exact Hios|]. intros [o n]. cbn. lia. }
  rewrite Hws in Hf'. exists wst', ios. rewrite Hrun. split; [by rewrite <- Htot|]. split; [done|]. split; [done|].
  intros rst Hri Hre Hrc Hlo Hhi Hrfile. rewrite Hf' in Hrfile.
  assert (Forall (fun '(off, len) => 0 <= off /\ 0 <= len /\ off + len <= Z.of_nat (length file)) (shift_ios (ra_fileOffsetBase wargs) ios)) as Hsh.
  { apply Forall_fmap. eapply Forall_impl; [exact Hios|]. intros [o n]. cbn. lia. }
  destruct (write_checked_spec salt _ file Hsh) as [Hwl Hwv].
  pose proof (og_left_range _ Hri) as Hleft.
  destruct (og_drain_spec (Z.to_nat (getNumBytesLeftToSubmit (rw_gen rst))) (rw_gen rst) (rw_env rst) Hri Hre)
    as (rios & rg & re & Hrd & Hrsum & Hrall & _ & _ & _ & Hrtot & _); [lia|].
  assert (Forall (fun '(o, n) => 0 <= o /\ 0 < n /\ o + n <= size) rios) as Hrios.
  { eapply Forall_impl; [exact Hrall|]. intros [o n] (Hn & Ho1 & Ho2). lia. }
  destruct (read_phase elapsed (Z.to_nat (getNumBytesLeftToSubmit (rw_gen rst))) rargs rst rios rg re (write_checked salt (shift_ios (ra_fileOffsetBase wargs) ios) file))
    as (rst' & Hrrun & Hrf' & _ & Hrc'); try done.
  { rewrite Hbase, Hwl. eapply Forall_impl; [exact Hrios|]. intros [o n]. cbn. lia. }
  { rewrite Hbase, Hrs. eapply Forall_impl; [exact Hrios|]. intros [o n] (Ho & Hn & Hend) x Hx. cbn in Hx. apply Hwv. left.
    apply Exists_exists. destruct (proj1 (Exists_exists _ _) (contiguous_covers 0 ios Hcont
      ltac:(eapply Forall_impl; [exact Hios|]; intros [? ?]; cbn; lia) (x - ra_fileOffsetBase wargs) ltac:(lia))) as ([o' n'] & Hin & Hcov).
    exists (o' + ra_fileOffsetBase wargs, n'). split; [|lia]. apply list_elem_of_fmap. by exists (o', n'). }
  exists rst', rios. rewrite Hrrun, Hrtot, Hrf', Hf'. done.
Qed.

(** A run of 20 bytes at offset 3, sizes 4 and 6 mixed, read back in reverse in blocks of 5. *)
Definition demo_pa : PhaseArgs :=
  mkPhaseArgs 1 false false false false false false 77 false false false 0 0 0 0 0 0 false.

Definition demo_rwargs (phase : BenchPhase) : RWArgs (R := xoshiro_state) :=
  mkRWArgs 0 phase phase 0 0 20 3 true false 77 (initPhaseFunctionPointers phase phase demo_pa)
    (fun _ r => ([], r)) (fun _ => true) 4096.

Definition demo_state {G} (g : G) (file : list Z) : RWState (R := xoshiro_state) (D := xoshiro_state) (G := G) (W := disk) :=
  mkRWState g demo_env (mkDisk [file] []) [] (mkXoshiro 1 2 3 4) 0 LatencyHistogram_new LatencyHistogram_new
    LiveOps_zero LiveOps_zero JournalBlockIO_new 0 [] ∅ None.

Lemma demo_plain phase : phase = BenchPhase_CREATEFILES \/ phase = BenchPhase_READFILES -> plain_phase (demo_rwargs phase) phase.
Proof. intros H. split; try reflexivity. cbn. lia. Defined.

Lemma demo_counters {G} (g : G) file : counters_ok (demo_state g file).
Proof. unfold counters_ok. cbn. split_and!; (done || lia). Defined.

Lemma verified_write_then_read_phases_witness :
  exists wst' (ios : list (Z * Z)),
    rwBlockSized (plain_device (fun n => Z.of_nat n)) 20 (demo_rwargs BenchPhase_CREATEFILES)
      (demo_state (OffsetGenSequential_new 20 0 demo_mix) (replicate 23 0)) = Some (Ok 20, wst')
    /\ Zsum (snd <$> ios) = 20
    /\ forall file, [file] = d_files (rw_world wst') ->
       exists rst', rwBlockSized (plain_device (fun n => Z.of_nat n)) 20 (demo_rwargs BenchPhase_READFILES)
                      (demo_state (OffsetGenReverseSeq_new 20 0 5) file) = Some (Ok 20, rst').
Proof.
  destruct (verified_write_then_read_phases (G := OffsetGenReverseSeq) (D := xoshiro_state) (fun n => Z.of_nat n) demo_pa 77
    (demo_rwargs BenchPhase_CREATEFILES) (demo_rwargs BenchPhase_READFILES) demo_mix 20 (replicate 23 0)
    (demo_state (OffsetGenSequential_new 20 0 demo_mix) (replicate 23 0))) as (wst' & ios & Hw & Hs & _ & Hr);
    [repeat split; discriminate|exact demo_mix_ok|exact demo_env_ok|apply demo_counters|apply demo_plain; by left
    |apply demo_plain; by right|reflexivity|reflexivity|reflexivity|reflexivity|reflexivity|lia|cbn; lia|reflexivity
    |reflexivity|reflexivity|].
  exists wst', ios. split; [exact Hw|]. split; [exact Hs|]. intros file Hfile.
  destruct (Hr (demo_state (OffsetGenReverseSeq_new 20 0 5) file)) as (rst' & rios & Hrun & _).
  - apply rev_reset_inv; lia.
  - exact demo_env_ok.
  - apply demo_counters.
  - vm_compute. discriminate.
  - vm_compute. discriminate.
  - exact Hfile.
  - exists rst'. exact Hrun.
Defined.

(** ** The read/write mix *)

Lemma filter_below (p n : Z) : 0 <= p <= n -> filter (fun i => i < p) (seqZ 0 n) = seqZ 0 p.
Proof.
  intros Hp. replace n with (p + (n - p)) by lia. rewrite seqZ_app, filter_app by lia.
  rewrite filter_all by (apply Forall_seqZ; lia). rewrite filter_none by (apply Forall_seqZ; lia). apply app_nil_r.
Qed.

(** Among consecutive numbers each residue occurs once. *)
Lemma residues_below a m p :
  0 < m -> 0 <= a -> 0 <= p <= m -> length (filter (fun i => i `mod` m < p) (seqZ a m)) = Z.to_nat p.
Proof.
  intros Hm Ha Hp. pose proof (Z.div_mod a m ltac:(lia)) as Hdm. pose proof (Z.mod_pos_bound a m Hm) as Hr.
  set (r := a `mod` m) in *. set (q := a / m) in *.
  replace (seqZ a m) with (seqZ a ((m - r) + r)) by (f_equal; lia). rewrite seqZ_app, filter_app, length_app by lia.
  assert (length (filter (fun i => i `mod` m < p) (seqZ a (m - r))) = length (filter (fun i => i < p) (seqZ r (m - r)))) as ->.
  { replace (seqZ a (m - r)) with (seqZ (r + q * m) (m - r)) by (f_equal; lia). symmetry.
    apply length_filter_shift. intros i Hi. rewrite Z_mod_plus_full, Z.mod_small by lia. done. }
  assert (length (filter (fun i => i `mod` m < p) (seqZ (a + (m - r)) r)) = length (filter (fun i => i < p) (seqZ 0 r))) as ->.
  { replace (seqZ (a + (m - r)) r) with (seqZ (0 + (q + 1) * m) r) by (f_equal; lia). symmetry.
    apply length_filter_shift. intros i Hi. rewrite Z_mod_plus_full, Z.mod_small by lia. done. }
  rewrite <- length_seqZ with (m := 0), <- (filter_below p m Hp).
  replace (seqZ 0 m) with (seqZ 0 (r + (m - r))) by (f_equal; lia). rewrite seqZ_app, filter_app, length_app by lia.
  rewrite Z.add_0_l. lia.
Qed.

(** the read/write mix of a write phase is exact: of any 100 consecutive accesses of a worker,
    whatever its rank, exactly [rwMixReadPercent] are reads; and the intent that the asynchronous
    engines give to the journal is the one of the synchronous engine. *)
Lemma rwmix_percentage_exact rank n pct :
  0 <= rank -> 0 <= n -> rank + n + 100 <= TWO64 -> 0 <= pct <= 100 ->
  length (filter (fun i => (decideIO BenchPhase_CREATEFILES BenchPhase_CREATEFILES rank i pct).1.1 = true) (seqZ n 100))
  = Z.to_nat pct
  /\ forall phase global, journalGetIntent phase global rank n pct = (decideIO phase global rank n pct).2.
Proof.
  intros Hrank Hn Hb Hp. split.
  - rewrite <- (residues_below (rank + n) 100 pct) by lia.
    replace (seqZ (rank + n) 100) with (seqZ (n + rank) 100) by (f_equal; lia). apply length_filter_shift. intros i Hi.
    unfold decideIO, is_rwmix_read, truthy. rewrite decide_False by done. rewrite u64_small by lia. rewrite (Z.add_comm rank i).
    pose proof (Z.mod_pos_bound (i + rank) 100 ltac:(lia)).
    destruct (Z.eqb_spec pct 0); cbn [negb andb]; [split; [done|lia]|].
    destruct (Z.ltb_spec ((i + rank) `mod` 100) pct); cbn; split; (done || lia).
  - intros phase global. unfold journalGetIntent, decideIO. destruct (decide (phase = BenchPhase_READFILES)) as [->|Hne].
    + destruct (decide (global = BenchPhase_READFILES)) as [->|Hne]; cbn; [done|].
      by rewrite bool_decide_eq_true_2 by (intros H; by apply Hne).
    + by destruct (is_rwmix_read rank n pct).
Qed.

(** ** A failing journaled write *)

Section failing.
Context {R D G W : Type} `{!RandAlgo R, !RandAlgo D, !OffsetGenerator R D G} (dev : Device W).
#[local] Abbreviation fstate := (RWState (R := R) (D := D) (G := G) (W := W)).

(** A journaled write phase on a single file. *)
Record journaled_phase (args : RWArgs (R := R)) : Prop := {
  jp_phase : ra_benchPhase args = BenchPhase_CREATEFILES;
  jp_mix : ra_rwMixReadPercent args = 0;
  jp_single : ra_isSingleFile args = true;
  jp_journal : ra_journalEnabled args = true;
  jp_fill : funcPreWriteBlockModifier (ra_funcs args) = Mod_journalFill;
  jp_msync : ra_sys args Sys_msync = true;
  jp_page : 0 < ra_pageSize args;
}.

(** [journalBeginIO()] of an uncontended write claims the blocks of the range. *)
Lemma journalBeginIO_write args (st : fstate) j off len :
  journaled_phase args -> rw_journals st = [j] -> rw_guardsHeld st = 0 -> journal_wf j -> io_range_ok j off len ->
  ~ range_contended j (offsetToBlockIndex j off) (ceil_blocks len (journalBlockSize j)) (rw_locks st) ->
  exists slot j1 t1, journalBeginIO args 0 off len INTENT_WRITE st = Some (Ok (ACTION_WRITE, set_journal st slot 1 [j1] t1))
    /\ io_action slot = ACTION_WRITE /\ snd (guard_release (io_guard slot) t1) = rw_locks st
    /\ claimed j j1 (io_blocks (offsetToBlockIndex j off) (ceil_blocks len (journalBlockSize j))) (io_gens slot).
Proof.
  intros Hjp Hjs Hheld Hj Hr Hfree. unfold journalBeginIO. rewrite Hjs, Hheld.
  change ([j] !! Z.to_nat 0) with (Some j). cbn [mbind option_bind].
  pose proof (begin_spec (ra_sys args) (ra_pageSize args) (jp_msync _ Hjp) (jp_page _ Hjp) off len INTENT_WRITE (0 =? 0)
    (rw_slot st) j (rw_locks st) Hj Hr) as H.
  destruct (JournalBlockIO_begin _ _ _ _ _ _ _ _ _) as [[[[[action slot] j1] t1]|e]|]; [|done|].
  - cbn. destruct action; cbn in H; destruct_and!; try done.
    exists slot, j1, t1. split; [done|]. split; [done|]. split; [done|]. done.
  - by destruct H as [_ H].
Qed.

Lemma claimed_gens_length j j1 base num gens : claimed j j1 (io_blocks base num) gens -> length gens = Z.to_nat num.
Proof. intros (_ & _ & _ & _ & _ & -> & _). by rewrite length_fmap, length_seqZ. Qed.

(** The journal fill of a claimed write of whole blocks succeeds. *)
Lemma journal_fill_total j io buf len off :
  0 < journalBlockSize j -> (journalBlockSize j | len) -> 0 < len -> len + journalBlockSize j < 2 ^ 63 ->
  length (io_gens io) = Z.to_nat (ceil_blocks len (journalBlockSize j)) ->
  exists buf', preWriteJournalFillBuf j io buf len off = Some buf'.
Proof.
  intros Hbs [k Hk] Hl Hb Hg. unfold preWriteJournalFillBuf. destruct (io_action io); try (by eexists).
  set (bs := journalBlockSize j) in *. assert (ceil_blocks len bs = k) as Hnum.
  { unfold ceil_blocks. rewrite (u64_small (len + bs)), u64_small by lia. rewrite Hk. symmetry. apply Z.div_unique with (bs - 1); lia. }
  rewrite Hnum in Hg. assert (0 < k) by nia.
  pose proof (journal_fill_loop_spec (Z.to_nat len) bs (journalSeed j) [] (io_gens io) off Hbs ltac:(nia)) as Hfl.
  cbn [app length] in Hfl. rewrite Z.mul_0_r, Hg, Z2Nat.id in Hfl by lia. replace (bs * k) with len in Hfl by lia.
  rewrite Hfl. by eexists.
Qed.
End failing.

(** C33: a journaled write that the storage rejects leaves its blocks "uninitialized": the engine
    returns, every cell of the range is zero, every other cell is as before, all locks are given
    back, and the file is marked as the failing one. *)
Theorem failed_write_stays_uninitialized {R D G W} `{!RandAlgo R, !RandAlgo D, !OffsetGenerator R D G} (dev : Device W)
    fuel (args : RWArgs (R := R)) (st : RWState (R := R) (D := D) (G := G) (W := W)) off (g1 : G) (e1 e2 : Env R D) n j :
  journaled_phase args -> rw_journals st = [j] -> rw_guardsHeld st = 0 -> journal_wf j ->
  getNumBytesLeftToSubmit (rw_gen st) <> 0 ->
  getNextOffset (rw_gen st) (rw_env st) = Some (off, (g1, e1)) -> getNextBlockSizeToSubmit g1 e1 = Some (n, e2) ->
  0 <= off -> 0 <= ra_fileOffsetBase args -> (journalBlockSize j | n) -> n + journalBlockSize j < 2 ^ 63 ->
  io_range_ok j (off + ra_fileOffsetBase args) n ->
  let blocks := io_blocks (offsetToBlockIndex j (off + ra_fileOffsetBase args)) (ceil_blocks n (journalBlockSize j)) in
  ~ range_contended j (offsetToBlockIndex j (off + ra_fileOffsetBase args)) (ceil_blocks n (journalBlockSize j)) (rw_locks st) ->
  (forall f l w, exists w', dev_ratelimit dev f l w = Ok w') ->
  (forall f o l wr un w, exists w', dev_flock dev f o l wr un w = Ok w') ->
  (forall f bytes o w, fst (dev_pwrite dev f bytes o w) <= 0) ->
  exists rc st' j', rwBlockSized dev (S fuel) args st = Some (Ok rc, st')
    /\ rw_journals st' = [j'] /\ Forall (fun i => loadBlockGen j' i = 0) blocks
    /\ (forall k, 0 <= k -> k ∉ blocks -> loadBlockGen j' k = loadBlockGen j k)
    /\ rw_locks st' = rw_locks st /\ rw_guardsHeld st' = 0 /\ errorFDVecIdx st' = Some 0.
Proof.
  intros Hjp Hjs Hheld Hj Hleft Hoff Hsize Ho Hbase Hdiv Hn63 Hr blocks Hfree Hrate Hflock Hpw.
  pose proof Hr as (_ & Hn & H63 & _). cbn [rwBlockSized]. rewrite (proj2 (Z.eqb_neq _ 0)) by done.
  unfold rw_iteration. rewrite Hoff. cbn [mbind option_bind]. rewrite Hsize. cbn [mbind option_bind].
  unfold calcFileIdxAndOffsetStriped. rewrite (jp_single _ Hjp), (jp_journal _ Hjp), (jp_phase _ Hjp), (jp_mix _ Hjp).
  unfold decideIO. rewrite decide_False by done. cbn [is_rwmix_read truthy Z.eqb negb andb]. rewrite u64_small by lia.
  destruct (journalBeginIO_write args (set_gen st g1 e2) j (off + ra_fileOffsetBase args) n Hjp Hjs Hheld Hj Hr Hfree)
    as (slot & j1 & t1 & -> & Ha & Hrel & Hcl). cbn [mbind option_bind].
  unfold do_io, pre_write_modify. rewrite (jp_fill _ Hjp). cbn [set_journal set_gen rw_world].
  destruct (Hrate (funcRWRateLimiter (ra_funcs args)) n (rw_world st)) as [w0 ->].
  cbn [set_world set_gen set_journal rw_journals rw_slot rw_buf mbind option_bind].
  change ([j1] !! Z.to_nat 0) with (Some j1). cbn [mbind option_bind].
  pose proof Hcl as (_ & _ & Hbs1 & _ & _ & _ & Hcells & _).
  destruct (journal_fill_total j1 slot (rw_buf st) n (off + ra_fileOffsetBase args)) as [buf' Hfill];
    [rewrite Hbs1; apply Hj|by rewrite Hbs1|done|by rewrite Hbs1|rewrite Hbs1; by eapply claimed_gens_length|].
  rewrite Hfill. cbn [mbind option_bind set_buf rw_world rw_buf].
  destruct (Hflock 0 (off + ra_fileOffsetBase args) n true false w0) as [w1 Hw1]. cbn [negb set_world set_journal set_gen rw_world]. rewrite Hw1.
  specialize (Hpw 0 (take (Z.to_nat n) buf') (off + ra_fileOffsetBase args) w1).
  destruct (dev_pwrite dev 0 (take (Z.to_nat n) buf') (off + ra_fileOffsetBase args) w1) as [rc w2]. cbn in Hpw.
  cbn [set_world rw_world]. destruct (Hflock 0 (off + ra_fileOffsetBase args) n true true w2) as [w3 ->].
  rewrite (proj2 (Z.leb_le rc 0)) by done. rewrite (jp_journal _ Hjp). unfold journalReleaseIO. cbn [mbind option_bind].
  eexists _, _, j1. split; [reflexivity|]. cbn -[loadBlockGen]. split; [done|]. split; [|split; [|split; [exact Hrel|done]]].
  - apply Forall_seqZ. intros i Hi. destruct (io_blocks_in_journal j _ n Hj Hr) as (Hb0 & _ & _ & _).
    rewrite Hcells by lia. rewrite decide_True; [done|]. apply elem_of_seqZ. lia.
  - intros k Hk Hnk. rewrite Hcells by done. by rewrite decide_False.
Qed.

(** ** Concrete journaled runs *)

Definition journal_pa : PhaseArgs :=
  mkPhaseArgs 1 false false false false false false 0 false false false 0 0 0 0 0 0 true.

Definition journal_rwargs (phase : BenchPhase) (size base : Z) : RWArgs (R := xoshiro_state) :=
  mkRWArgs 0 phase phase 0 0 size base true true 0 (initPhaseFunctionPointers phase phase journal_pa)
    (fun _ r => ([], r)) (fun _ => true) 4096.

Definition journal_state {W} (size : Z) (w : W) (j : Journal)
    : RWState (R := xoshiro_state) (D := xoshiro_state) (G := OffsetGenSequential) (W := W) :=
  mkRWState (OffsetGenSequential_new size 0 (mix_finish [(size, 1)])) demo_env w [] (mkXoshiro 1 2 3 4) 0
    LatencyHistogram_new LatencyHistogram_new LiveOps_zero LiveOps_zero JournalBlockIO_new 0 [j] ∅ None.

(** Storage that rejects every access. *)
Definition broken_device : Device unit := {|
  dev_pread _ _ _ w := (-1, [], w);
  dev_pwrite _ _ _ w := (-1, w);
  dev_flock _ _ _ _ _ w := Ok w;
  dev_ratelimit _ _ w := Ok w;
  dev_elapsed _ := 0;
  dev_interrupted _ := false;
|}.

Lemma failed_write_stays_uninitialized_witness :
  exists rc st' j', rwBlockSized broken_device 1 (journal_rwargs BenchPhase_CREATEFILES 8192 4096) (journal_state 8192 tt ex_journal)
                    = Some (Ok rc, st')
    /\ rw_journals st' = [j'] /\ Forall (fun i => loadBlockGen j' i = 0) (io_blocks 1 2) /\ rw_locks st' = ∅.
Proof.
  destruct (failed_write_stays_uninitialized broken_device 0 (journal_rwargs BenchPhase_CREATEFILES 8192 4096)
    (journal_state 8192 tt ex_journal) 0 (OffsetGenSequential_new 8192 0 (mix_finish [(8192, 1)])) demo_env demo_env 8192 ex_journal)
    as (rc & st' & j' & Hrun & Hj' & Hz & _ & Hl & _).
  - split; reflexivity.
  - reflexivity.
  - reflexivity.
  - exact ex_journal_wf.
  - discriminate.
  - reflexivity.
  - vm_compute. reflexivity.
  - lia.
  - cbn. lia.
  - exists 2. reflexivity.
  - cbn. lia.
  - exact ex_range_ok.
  - intros Hc. apply Exists_exists in Hc as (s & _ & [x Hx]). revert Hx. change (rw_locks _) with (∅ : lock_table). rewrite lookup_empty. discriminate.
  - intros. exists w. reflexivity.
  - intros. exists w. reflexivity.
  - intros. cbn. lia.
  - exists rc, st', j'. split; [exact Hrun|]. split; [exact Hj'|]. split; [exact Hz|exact Hl].
Defined.

(** Storage whose [pwrite()] transfers at most 24 bytes. *)
Definition short_device : Device disk := {|
  dev_pread := dev_pread (plain_device (fun _ => 0));
  dev_pwrite f bytes := dev_pwrite (plain_device (fun _ => 0)) f (take 24 bytes);
  dev_flock _ _ _ _ _ w := Ok w;
  dev_ratelimit _ _ w := Ok w;
  dev_elapsed _ := 0;
  dev_interrupted _ := false;
|}.

Definition small_journal : Journal := mkJournal [0] [0] 16 0 32 2 7 false 1 7.

Definition short_run : option (result Z * RWState) :=
  rwBlockSized short_device 32 (journal_rwargs BenchPhase_CREATEFILES 32 0)
    (journal_state 32 (mkDisk [replicate 32 0] []) small_journal).

(** After a short write the engine commits the generations of all blocks of the access, although
    the second block was only written in part; the remainder is then written as if it started a
    block of its own.  The write phase succeeds, but the journal claims content that the file
    does not hold, and a read phase on intact storage reports a verification failure. *)
Lemma short_write_commits_unwritten_blocks :
  exists wst' j' w' rst' msg,
    short_run = Some (Ok 32, wst') /\ rw_journals wst' = [j'] /\ rw_world wst' = w'
    /\ loadBlockGen j' 0 <> 0 /\ loadBlockGen j' 1 <> 0
    /\ rwBlockSized (plain_device (fun _ => 0)) 32 (journal_rwargs BenchPhase_READFILES 32 0) (journal_state 32 w' j')
       = Some (Throw (WorkerException msg), rst').
Proof.
  destruct short_run as [[[rc|e] wst']|] eqn:Hrun; [|vm_compute in Hrun; discriminate..].
  assert (rc = 32 /\ rw_journals wst' = [mkJournal [0x09] [0] 16 0 32 2 7 false 1 7]) as [-> Hj].
  { vm_compute in Hrun. injection Hrun as <- <-. split; reflexivity. }
  destruct (rwBlockSized (plain_device (fun _ => 0)) 32 (journal_rwargs BenchPhase_READFILES 32 0)
    (journal_state 32 (rw_world wst') (mkJournal [0x09] [0] 16 0 32 2 7 false 1 7))) as [[[rc|[]] rst']|] eqn:Hread.
  all: vm_compute in Hrun; injection Hrun as <-; vm_compute in Hread; try discriminate.
  eexists _, _, _, _, _. split; [reflexivity|]. split; [reflexivity|]. split; [reflexivity|].
  split; [vm_compute; discriminate|]. split; [vm_compute; discriminate|]. vm_compute. reflexivity.
Qed.
