(* ===== verification/Effects.v ===== *)
(** State, exceptions and partiality in one monad, for the code that threads a state through many
    fallible calls, with the proof rules for its programs.

    [eff S A] is a C++ function on a state [S]: it returns a value or throws, and the state at
    that point is kept in both cases.  [None] stands for a call that does not come back: it waits
    for another thread, accesses memory out of range, or exceeds the given fuel. *)

From S2P Require Import Prelude.

Definition eff (S A : Type) : Type := S -> option (result A * S).

#[global] Instance eff_ret {S} : MRet (eff S) := fun A a s => Some (Ok a, s).
#[global] Instance eff_bind {S} : MBind (eff S) := fun A B f m s =>
  match m s with
  | None => None
  | Some (Throw e, s) => Some (Throw e, s)
  | Some (Ok a, s) => f a s
  end.

Section operations.
Context {S : Type}.

Definition eff_get {A} (f : S -> A) : eff S A := fun s => Some (Ok (f s), s).
Definition eff_modify (f : S -> S) : eff S unit := fun s => Some (Ok tt, f s).
Definition eff_throw {A} (e : exn) : eff S A := fun s => Some (Throw e, s).
Definition eff_some {A} (o : option A) : eff S A := fun s => (fun a => (Ok a, s)) <$> o.
Definition eff_stuck {A} : eff S A := fun _ => None.
Definition eff_result {A} (r : result A) : eff S A := fun s => Some (r, s).
Definition eff_when (b : bool) (m : eff S unit) : eff S unit := if b then m else mret tt.

(** A destructor: [f] runs at every exit of [m]. *)
Definition eff_finally {A} (m : eff S A) (f : S -> S) : eff S A := fun s =>
  match m s with Some (r, s) => Some (r, f s) | None => None end.

(** [try { m } catch(...) { h e }]. *)
Definition eff_catch {A} (m : eff S A) (h : exn -> eff S A) : eff S A := fun s =>
  match m s with Some (Throw e, s) => h e s | r => r end.

(** [for(x : l) f(x)]. *)
Fixpoint eff_for {A} (l : list A) (f : A -> eff S unit) : eff S unit :=
  match l with [] => mret tt | x :: l => f x ≫= fun _ => eff_for l f end.

(** ** Proof rules

    [wpp m s Q]: if [m] comes back from [s], its result and state satisfy [Q].
    [wpt m s Q]: [m] comes back from [s], and its result and state satisfy [Q]. *)

Definition wpp {A} (m : eff S A) (s : S) (Q : result A -> S -> Prop) : Prop :=
  forall r s', m s = Some (r, s') -> Q r s'.

Definition wpt {A} (m : eff S A) (s : S) (Q : result A -> S -> Prop) : Prop :=
  exists r s', m s = Some (r, s') /\ Q r s'.

(** A postcondition for the values and one for the exceptions. *)
Definition post {A} (Q : A -> S -> Prop) (E : exn -> S -> Prop) : result A -> S -> Prop := fun r s =>
  match r with Ok a => Q a s | Throw e => E e s end.

Lemma wpp_mono {A} (m : eff S A) s (Q Q' : result A -> S -> Prop) :
  wpp m s Q -> (forall r s', Q r s' -> Q' r s') -> wpp m s Q'.
Proof. intros H HQ r s' Hm. apply HQ, H, Hm. Qed.

Lemma wpt_mono {A} (m : eff S A) s (Q Q' : result A -> S -> Prop) :
  wpt m s Q -> (forall r s', Q r s' -> Q' r s') -> wpt m s Q'.
Proof. intros (r & s' & Hm & H) HQ. exists r, s'. auto. Qed.

Lemma wpp_ret {A} (a : A) s Q : Q (Ok a) s -> wpp (mret a) s Q.
Proof. intros H r s' Hm. cbv in Hm. by injection Hm as <- <-. Qed.

Lemma wpt_ret {A} (a : A) s Q : Q (Ok a) s -> wpt (mret a) s Q.
Proof. intros H. by eexists _, _. Qed.

Lemma wpp_bind {A B} (m : eff S A) (f : A -> eff S B) s Q :
  wpp m s (post (fun a s' => wpp (f a) s' Q) (fun e s' => Q (Throw e) s')) -> wpp (m ≫= f) s Q.
Proof.
  intros H r s' Hm. unfold mbind, eff_bind in Hm. destruct (m s) as [[[a|e] s1]|] eqn:Hms; [|injection Hm as <- <-|done].
  - apply (H _ _ Hms _ _ Hm).
  - apply (H _ _ Hms).
Qed.

Lemma wpt_bind {A B} (m : eff S A) (f : A -> eff S B) s Q :
  wpt m s (post (fun a s' => wpt (f a) s' Q) (fun e s' => Q (Throw e) s')) -> wpt (m ≫= f) s Q.
Proof.
  intros ([a|e] & s1 & Hms & H).
  - destruct H as (r & s2 & Hf & HQ). exists r, s2. unfold mbind, eff_bind. by rewrite Hms.
  - exists (Throw e), s1. unfold mbind, eff_bind. by rewrite Hms.
Qed.

(** What is known of every run holds of the run that exists. *)
Lemma wpt_and {A} (m : eff S A) s (Q P : result A -> S -> Prop) :
  wpt m s Q -> wpp m s P -> wpt m s (fun r s' => Q r s' /\ P r s').
Proof. intros (r & s' & Hm & HQ) HP. exists r, s'. split; [done|]. split; [done|]. by apply HP. Qed.

(** The first two calls of a sequence as one. *)
Lemma wpp_assoc {A B C} (m : eff S A) (f : A -> eff S B) (h : B -> eff S C) s Q :
  wpp (m ≫= f) s (post (fun b s' => wpp (h b) s' Q) (fun e s' => Q (Throw e) s')) ->
  wpp (m ≫= fun a => f a ≫= h) s Q.
Proof.
  intros H. apply wpp_bind. intros [a|e] s1 Hm; cbn.
  - apply wpp_bind. intros r s2 Hf. apply (H r s2). unfold mbind, eff_bind. by rewrite Hm.
  - apply (H (Throw e) s1). unfold mbind, eff_bind. by rewrite Hm.
Qed.

Lemma wpp_get {A} (f : S -> A) s Q : Q (Ok (f s)) s -> wpp (eff_get f) s Q.
Proof. intros H r s' [= <- <-]. done. Qed.

Lemma wpt_get {A} (f : S -> A) s Q : Q (Ok (f s)) s -> wpt (eff_get f) s Q.
Proof. intros H. by eexists _, _. Qed.

Lemma wpp_modify f s Q : Q (Ok tt) (f s) -> wpp (eff_modify f) s Q.
Proof. intros H r s' [= <- <-]. done. Qed.

Lemma wpt_modify f s Q : Q (Ok tt) (f s) -> wpt (eff_modify f) s Q.
Proof. intros H. by eexists _, _. Qed.

Lemma wpp_throw {A} e s (Q : result A -> S -> Prop) : Q (Throw e) s -> wpp (eff_throw e) s Q.
Proof. intros H r s' [= <- <-]. done. Qed.

Lemma wpt_throw {A} e s (Q : result A -> S -> Prop) : Q (Throw e) s -> wpt (eff_throw e) s Q.
Proof. intros H. by eexists _, _. Qed.

Lemma wpp_some {A} (o : option A) s Q : (forall a, o = Some a -> Q (Ok a) s) -> wpp (eff_some o) s Q.
Proof. intros H r s' Hm. unfold eff_some in Hm. destruct o as [a|]; [|done]. cbn in Hm. injection Hm as <- <-. auto. Qed.

Lemma wpt_some {A} (o : option A) a s Q : o = Some a -> Q (Ok a) s -> wpt (eff_some o) s Q.
Proof. intros -> H. by eexists _, _. Qed.

Lemma wpp_result {A} (r : result A) s Q : Q r s -> wpp (eff_result r) s Q.
Proof. intros H r' s' [= <- <-]. done. Qed.

Lemma wpt_result {A} (r : result A) s Q : Q r s -> wpt (eff_result r) s Q.
Proof. intros H. by eexists _, _. Qed.

Lemma wpp_when b m s Q : (b = true -> wpp m s Q) -> (b = false -> Q (Ok tt) s) -> wpp (eff_when b m) s Q.
Proof. destruct b; intros H1 H2; [by apply H1|by apply wpp_ret, H2]. Qed.

Lemma wpt_when b m s Q : (b = true -> wpt m s Q) -> (b = false -> Q (Ok tt) s) -> wpt (eff_when b m) s Q.
Proof. destruct b; intros H1 H2; [by apply H1|by apply wpt_ret, H2]. Qed.

Lemma wpp_finally {A} (m : eff S A) f s Q : wpp m s (fun r s' => Q r (f s')) -> wpp (eff_finally m f) s Q.
Proof. intros H r s' Hm. unfold eff_finally in Hm. destruct (m s) as [[r1 s1]|] eqn:E; [|done]. injection Hm as <- <-. by apply H. Qed.

Lemma wpt_finally {A} (m : eff S A) f s Q : wpt m s (fun r s' => Q r (f s')) -> wpt (eff_finally m f) s Q.
Proof. intros (r & s' & Hm & HQ). exists r, (f s'). unfold eff_finally. by rewrite Hm. Qed.

Lemma wpp_catch {A} (m : eff S A) h s Q :
  wpp m s (post (fun a s' => Q (Ok a) s') (fun e s' => wpp (h e) s' Q)) -> wpp (eff_catch m h) s Q.
Proof.
  intros H r s' Hm. unfold eff_catch in Hm. destruct (m s) as [[[a|e] s1]|] eqn:E; [injection Hm as <- <-| |done].
  - apply (H _ _ E).
  - apply (H _ _ E _ _ Hm).
Qed.

Lemma wpt_catch {A} (m : eff S A) h s Q :
  wpt m s (post (fun a s' => Q (Ok a) s') (fun e s' => wpt (h e) s' Q)) -> wpt (eff_catch m h) s Q.
Proof.
  intros ([a|e] & s1 & Hm & H).
  - exists (Ok a), s1. unfold eff_catch. by rewrite Hm.
  - destruct H as (r & s2 & Hh & HQ). exists r, s2. unfold eff_catch. by rewrite Hm.
Qed.

(** A loop keeps an invariant that its body keeps, at normal and at exceptional exits. *)
Lemma wpp_for {A} (I : S -> Prop) (l : list A) f s Q :
  I s -> (forall x s, x ∈ l -> I s -> wpp (f x) s (post (fun _ s' => I s') (fun e s' => Q (Throw e) s'))) ->
  (forall s, I s -> Q (Ok tt) s) -> wpp (eff_for l f) s Q.
Proof.
  intros Hs Hf HQ. revert s Hs. induction l as [|x l IH]; intros s Hs; [by apply wpp_ret, HQ|].
  cbn. apply wpp_bind. eapply wpp_mono; [apply Hf; [by left|done]|].
  intros [[]|e] s' H; cbn in *; [|done]. apply IH; [|done]. intros y s1 Hy. apply Hf. by right.
Qed.

Lemma wpt_for {A} (I : S -> Prop) (l : list A) f s Q :
  I s -> (forall x s, x ∈ l -> I s -> wpt (f x) s (post (fun _ s' => I s') (fun e s' => Q (Throw e) s'))) ->
  (forall s, I s -> Q (Ok tt) s) -> wpt (eff_for l f) s Q.
Proof.
  intros Hs Hf HQ. revert s Hs. induction l as [|x l IH]; intros s Hs; [by apply wpt_ret, HQ|].
  cbn. apply wpt_bind. eapply wpt_mono; [apply Hf; [by left|done]|].
  intros [[]|e] s' H; cbn in *; [|done]. apply IH; [|done]. intros y s1 Hy. apply Hf. by right.
Qed.
End operations.

(** ** Frame conditions

    [within Rl m]: [m] relates the states before and after by the preorder [Rl], at every exit. *)
Section within.
Context {S : Type} {Rl : S -> S -> Prop} `{!PreOrder Rl}.

Definition within {A} (m : eff S A) : Prop := forall s, wpp m s (fun _ s' => Rl s s').

Lemma within_bind {A B} (m : eff S A) (f : A -> eff S B) : within m -> (forall a, within (f a)) -> within (m ≫= f).
Proof.
  intros Hm Hf s. apply wpp_bind. eapply wpp_mono; [apply Hm|]. intros [a|e] s1 H1; cbn [post]; [|done].
  eapply wpp_mono; [apply Hf|]. intros r s2 H2. by transitivity s1.
Qed.

Lemma within_ret {A} (x : A) : within (mret x).
Proof. intros s. by apply wpp_ret. Qed.

Lemma within_throw {A} e : within (A := A) (eff_throw e).
Proof. intros s. by apply wpp_throw. Qed.

Lemma within_stuck {A} : within (A := A) eff_stuck.
Proof. by intros s r s'. Qed.

Lemma within_get {A} (f : S -> A) : within (eff_get f).
Proof. intros s. by apply wpp_get. Qed.

Lemma within_some {A} (o : option A) : within (eff_some o).
Proof. intros s. by apply wpp_some. Qed.

Lemma within_result {A} (r : result A) : within (eff_result r).
Proof. intros s. by apply wpp_result. Qed.

Lemma within_when b m : within m -> within (eff_when b m).
Proof. intros H s. apply wpp_when; intros _; [apply H|done]. Qed.

Lemma within_for {A} (l : list A) f : (forall x, within (f x)) -> within (eff_for l f).
Proof. intros H. induction l; cbn; [apply within_ret|by apply within_bind]. Qed.

Lemma within_if {A} (b : bool) (m1 m2 : eff S A) : within m1 -> within m2 -> within (if b then m1 else m2).
Proof. by destruct b. Qed.

Lemma within_modify f : (forall s, Rl s (f s)) -> within (eff_modify f).
Proof. intros H s. by apply wpp_modify. Qed.

Lemma within_catch {A} (m : eff S A) h : within m -> (forall e, within (h e)) -> within (eff_catch m h).
Proof.
  intros Hm Hh s. apply wpp_catch. eapply wpp_mono; [apply Hm|]. intros [a|e] s1 H1; cbn [post]; [done|].
  eapply wpp_mono; [apply Hh|]. intros r s2 H2. by transitivity s1.
Qed.

Lemma within_finally {A} (m : eff S A) f : within m -> (forall s, Rl s (f s)) -> within (eff_finally m f).
Proof. intros Hm Hf s. apply wpp_finally. eapply wpp_mono; [apply Hm|]. intros r s1 H1. by transitivity s1. Qed.
End within.
Arguments within {S} Rl {A} m.

Create HintDb within.
#[export] Hint Resolve within_bind within_ret within_throw within_stuck within_get within_some within_result within_when
  within_for within_if within_catch within_finally : within.

(** A program inside a component of the state. *)
Definition eff_zoom {S T A} (get : S -> T) (set : T -> S -> S) (m : eff T A) : eff S A := fun s =>
  match m (get s) with Some (r, t) => Some (r, set t s) | None => None end.

Create HintDb eff.
#[export] Hint Resolve wpp_ret wpt_ret wpp_get wpt_get wpp_modify wpt_modify wpp_throw wpt_throw
  wpp_result wpt_result : eff.

(** One symbolic step of a program. *)
Ltac eff_step :=
  match goal with
  | |- wpp (mbind _ _) _ _ => apply wpp_bind
  | |- wpt (mbind _ _) _ _ => apply wpt_bind
  | |- wpp (mret _) _ _ => apply wpp_ret
  | |- wpt (mret _) _ _ => apply wpt_ret
  | |- wpp (eff_get _) _ _ => apply wpp_get
  | |- wpt (eff_get _) _ _ => apply wpt_get
  | |- wpp (eff_modify _) _ _ => apply wpp_modify
  | |- wpt (eff_modify _) _ _ => apply wpt_modify
  | |- wpp (eff_throw _) _ _ => apply wpp_throw
  | |- wpt (eff_throw _) _ _ => apply wpt_throw
  | |- wpp (eff_result _) _ _ => apply wpp_result
  | |- wpt (eff_result _) _ _ => apply wpt_result
  | |- wpp (eff_some _) _ _ => let Hsome := fresh "Hsome" in apply wpp_some; intros ? Hsome
  | |- wpp (eff_when _ _) _ _ => apply wpp_when; intros ?
  | |- wpt (eff_when _ _) _ _ => apply wpt_when; intros ?
  end; cbn [post].

Ltac eff_steps := repeat eff_step.

(** Frame conditions by the structure of the program; [tac] proves those of the calls. *)
Ltac within_steps tac :=
  repeat lazymatch goal with
  | |- forall _, _ => intros ?
  | |- within _ (match ?x with _ => _ end) => destruct x
  | |- within _ _ =>
      first [ solve [tac] | apply within_bind | apply within_ret | apply within_throw | apply within_stuck | apply within_get
            | apply within_some | apply within_result | apply within_when | apply within_for
            | apply within_catch ]
  end.
