(* ===== verification/RemoteStats.v ===== *)
(** What the master takes from the answers of a service (workers/RemoteWorker.{h,cpp}): the state of a
    phase while it runs, and its results.  Each worker of the master stands for one service.

    An answer of the service is a value of [http_response]; waiting and the connection itself are those of
    the HTTP library.  Messages are kept without the values in them.  Values that are read one after the
    other into members of the same group are assigned together. *)

From S2P Require Import Prelude Common CppStrings TranslatorTk PropertyTree CppFloats CPUUtil LiveOps LatencyHistogram Statistics Effects.
From Stdlib Require String.

#[local] Open Scope list_scope.
#[local] Open Scope Z_scope.

(** ** Definitions *)

(** *** State *)

Record RemoteWorker : Type := mkRemote {
  re_stats : WorkerStats;
  re_phaseFinished : bool;
  re_pingMicroSecs : Z;
  re_numWorkersDone : Z;
  re_numWorkersDoneWithError : Z;
  re_cpuLive : Z;
  re_cpuStoneWall : Z;
  re_cpuLastDone : Z;
  re_liveLatency : LiveLatency;
  re_errLog : list string;      (** lines on [std::cerr] *)
  re_signals : list bool;       (** [incNumWorkersDone()], or [false] for [incNumWorkersDoneWithError()] *)
}.

Definition Remote_getAndAddLiveLatency (out : LiveLatency) (w : RemoteWorker) : LiveLatency * RemoteWorker :=
  (LiveLatency_getAndAddOps (re_liveLatency w) out, w).

#[global] Instance remote_StatsWorker : StatsWorker RemoteWorker := {|
  base_stats := re_stats;
  getAndAddLiveLatency := Remote_getAndAddLiveLatency;
|}.

(** [resetStats()]; the CPU utilization keeps its values. *)
Definition Remote_resetStats (w : RemoteWorker) : RemoteWorker :=
  mkRemote (Stats_resetStats (re_stats w)) false 0 0 0 (re_cpuLive w) (re_cpuStoneWall w) (re_cpuLastDone w) LiveLatency_zero
    (re_errLog w) (re_signals w).

Definition on_stats (f : WorkerStats -> WorkerStats) (w : RemoteWorker) : RemoteWorker :=
  mkRemote (f (re_stats w)) (re_phaseFinished w) (re_pingMicroSecs w) (re_numWorkersDone w) (re_numWorkersDoneWithError w)
    (re_cpuLive w) (re_cpuStoneWall w) (re_cpuLastDone w) (re_liveLatency w) (re_errLog w) (re_signals w).
Definition set_done (done err : Z) (w : RemoteWorker) : RemoteWorker :=
  mkRemote (re_stats w) (re_phaseFinished w) (re_pingMicroSecs w) done err
    (re_cpuLive w) (re_cpuStoneWall w) (re_cpuLastDone w) (re_liveLatency w) (re_errLog w) (re_signals w).
Definition set_cpu (live stoneWall lastDone : Z) (w : RemoteWorker) : RemoteWorker :=
  mkRemote (re_stats w) (re_phaseFinished w) (re_pingMicroSecs w) (re_numWorkersDone w) (re_numWorkersDoneWithError w)
    live stoneWall lastDone (re_liveLatency w) (re_errLog w) (re_signals w).
Definition set_latency (f : LiveLatency -> LiveLatency) (w : RemoteWorker) : RemoteWorker :=
  mkRemote (re_stats w) (re_phaseFinished w) (re_pingMicroSecs w) (re_numWorkersDone w) (re_numWorkersDoneWithError w)
    (re_cpuLive w) (re_cpuStoneWall w) (re_cpuLastDone w) (f (re_liveLatency w)) (re_errLog w) (re_signals w).
Definition set_ping (ping : Z) (w : RemoteWorker) : RemoteWorker :=
  mkRemote (re_stats w) (re_phaseFinished w) ping (re_numWorkersDone w) (re_numWorkersDoneWithError w)
    (re_cpuLive w) (re_cpuStoneWall w) (re_cpuLastDone w) (re_liveLatency w) (re_errLog w) (re_signals w).
Definition add_err (msg : string) (w : RemoteWorker) : RemoteWorker :=
  mkRemote (re_stats w) (re_phaseFinished w) (re_pingMicroSecs w) (re_numWorkersDone w) (re_numWorkersDoneWithError w)
    (re_cpuLive w) (re_cpuStoneWall w) (re_cpuLastDone w) (re_liveLatency w) (re_errLog w ++ [msg]) (re_signals w).
(** [phaseFinished = true] and the signal to the coordinator. *)
Definition finish_signal (ok : bool) (w : RemoteWorker) : RemoteWorker :=
  mkRemote (re_stats w) true (re_pingMicroSecs w) (re_numWorkersDone w) (re_numWorkersDoneWithError w)
    (re_cpuLive w) (re_cpuStoneWall w) (re_cpuLastDone w) (re_liveLatency w) (re_errLog w) (re_signals w ++ [ok]).

Definition st_set_ops (ops : LiveOps) (w : WorkerStats) : WorkerStats :=
  mkStats (st_elapsedUSecVec w) ops (st_opsReadMix w) (st_oldOps w) (st_oldOpsReadMix w) (st_stoneWallTriggered w)
    (st_gotPhaseWork w) (st_stoneWallOps w) (st_stoneWallOpsReadMix w)
    (st_iopsLatHisto w) (st_iopsLatHistoReadMix w) (st_entriesLatHisto w) (st_entriesLatHistoReadMix w).
Definition st_set_opsReadMix (ops : LiveOps) (w : WorkerStats) : WorkerStats :=
  mkStats (st_elapsedUSecVec w) (st_ops w) ops (st_oldOps w) (st_oldOpsReadMix w) (st_stoneWallTriggered w)
    (st_gotPhaseWork w) (st_stoneWallOps w) (st_stoneWallOpsReadMix w)
    (st_iopsLatHisto w) (st_iopsLatHistoReadMix w) (st_entriesLatHisto w) (st_entriesLatHistoReadMix w).
Definition st_set_elapsed (elapsed : list Z) (w : WorkerStats) : WorkerStats :=
  mkStats elapsed (st_ops w) (st_opsReadMix w) (st_oldOps w) (st_oldOpsReadMix w) (st_stoneWallTriggered w)
    (st_gotPhaseWork w) (st_stoneWallOps w) (st_stoneWallOpsReadMix w)
    (st_iopsLatHisto w) (st_iopsLatHistoReadMix w) (st_entriesLatHisto w) (st_entriesLatHistoReadMix w).
Definition st_set_gotWork (gotWork : bool) (w : WorkerStats) : WorkerStats :=
  mkStats (st_elapsedUSecVec w) (st_ops w) (st_opsReadMix w) (st_oldOps w) (st_oldOpsReadMix w) (st_stoneWallTriggered w)
    gotWork (st_stoneWallOps w) (st_stoneWallOpsReadMix w)
    (st_iopsLatHisto w) (st_iopsLatHistoReadMix w) (st_entriesLatHisto w) (st_entriesLatHistoReadMix w).
Definition st_set_histos (iops entries : LatencyHistogram) (w : WorkerStats) : WorkerStats :=
  mkStats (st_elapsedUSecVec w) (st_ops w) (st_opsReadMix w) (st_oldOps w) (st_oldOpsReadMix w) (st_stoneWallTriggered w)
    (st_gotPhaseWork w) (st_stoneWallOps w) (st_stoneWallOpsReadMix w)
    iops (st_iopsLatHistoReadMix w) entries (st_entriesLatHistoReadMix w).
Definition st_set_histosReadMix (iops entries : LatencyHistogram) (w : WorkerStats) : WorkerStats :=
  mkStats (st_elapsedUSecVec w) (st_ops w) (st_opsReadMix w) (st_oldOps w) (st_oldOpsReadMix w) (st_stoneWallTriggered w)
    (st_gotPhaseWork w) (st_stoneWallOps w) (st_stoneWallOpsReadMix w)
    (st_iopsLatHisto w) iops (st_entriesLatHisto w) entries.

(** *** Answers *)

(** No answer ([Web::system_error]), or a status, which is 200 or not, and the content, if it is
    JSON. *)
Inductive http_response (T : Type) : Type :=
  | NoConnection
  | HttpResponse (status_ok : bool) (content : option T).
Arguments NoConnection {_}.
Arguments HttpResponse {_} _ _.

(** What the master knows of the phase. *)
Record MasterPhase : Type := mkMaster {
  ma_benchID : string;
  ma_benchPhase : BenchPhase;
  ma_names : NameArgs;
  ma_numThreads : Z;
}.

Section answers.
Context (m : MasterPhase).

Definition throw_or_log (allowExceptionThrow : bool) (msg : string) : eff RemoteWorker unit :=
  if allowExceptionThrow then eff_throw (WorkerException msg) else eff_modify (add_err msg).

Definition read_json {T S} (content : option T) : eff S T :=
  match content with Some tree => mret tree | None => eff_throw (StdException "json_parser_error") end.

Definition get_ops {S} (suffix : string) (tree : arg_tree) : eff S LiveOps :=
  entries ← eff_result (get_uint 64 tree ("NumEntriesDone" +:+ suffix));
  bytes ← eff_result (get_uint 64 tree ("NumBytesDone" +:+ suffix));
  iops ← eff_result (get_uint 64 tree ("NumIOPSDone" +:+ suffix));
  mret (mkLiveOps entries bytes iops).

Fixpoint get_latency (prefix : string) (l : list (string * ptree_latency)) : result ptree_latency :=
  match l with
  | [] => Throw (PtreeError prefix)
  | (p, t) :: l => if String.eqb p prefix then Ok t else get_latency prefix l
  end.

(** An item of the list of times. *)
Definition get_elapsed (item : string) : result Z :=
  match parse_uint 64 item with Some v => Ok v | None => Throw (PtreeError "ElapsedUSecList") end.

Definition ma_readMix : bool := has_read_mix (ma_benchPhase m) (ma_names m).

(** The rest of [finishPhase()] once there is a result. *)
Definition take_results (allowExceptionThrow : bool) (tree : ResultTree) : eff RemoteWorker unit :=
  let v := rt_values tree in
  benchID ← eff_result (get_str v "BenchID");
  eff_when (negb (String.eqb (ma_benchID m) benchID))
    (throw_or_log allowExceptionThrow "Service instance got hijacked for a different benchmark. ");;
  numWorkersDone ← eff_result (get_uint 64 v "NumWorkersDone");
  numWorkersDoneWithError ← eff_result (get_uint 64 v "NumWorkersDoneWithError");
  eff_modify (set_done numWorkersDone numWorkersDoneWithError);;
  eff_when (truthy numWorkersDoneWithError)
    (msg ← eff_result (get_str v "ErrorHistory"); throw_or_log allowExceptionThrow msg);;
  eff_when (numWorkersDone <? ma_numThreads m)
    (throw_or_log allowExceptionThrow "Phase finish handler was called before all workers of service instance completed. ");;
  gotWork ← eff_result (get_bool v "TriggerStoneWall");
  eff_modify (on_stats (st_set_gotWork gotWork));;
  ops ← get_ops "" v;
  eff_modify (on_stats (st_set_ops ops));;
  stoneWall ← eff_result (get_uint 32 v "CPUUtilStoneWall");
  lastDone ← eff_result (get_uint 32 v "CPUUtil");
  eff_modify (set_cpu 0 stoneWall lastDone);;
  elapsed ← eff_result (mapM get_elapsed (rt_elapsed tree));
  eff_modify (on_stats (st_set_elapsed elapsed));;
  iops ← eff_result (get_latency "IOPS_" (rt_latencies tree));
  entries ← eff_result (get_latency "Entries_" (rt_latencies tree));
  eff_modify (on_stats (fun w => st_set_histos (setFromPropertyTreeForService iops (st_iopsLatHisto w))
    (setFromPropertyTreeForService entries (st_entriesLatHisto w)) w));;
  eff_modify (set_latency LiveLatency_setToZero);;
  eff_when ma_readMix (
    opsReadMix ← get_ops "RWMixRead" v;
    eff_modify (on_stats (st_set_opsReadMix opsReadMix));;
    iops ← eff_result (get_latency "IOPSRWMixRead_" (rt_latencies tree));
    entries ← eff_result (get_latency "EntriesRWMixRead_" (rt_latencies tree));
    eff_modify (on_stats (fun w => st_set_histosReadMix (setFromPropertyTreeForService iops (st_iopsLatHistoReadMix w))
      (setFromPropertyTreeForService entries (st_entriesLatHistoReadMix w)) w)));;
  eff_modify (finish_signal true).

Definition Remote_finishPhase (allowExceptionThrow : bool) (response : http_response ResultTree) : eff RemoteWorker unit :=
  match response with
  | NoConnection =>
      throw_or_log allowExceptionThrow "HTTP client error in finish benchmark phase: ";;
      eff_modify (finish_signal false)
  | HttpResponse status_ok content =>
      eff_when (negb status_ok) (throw_or_log allowExceptionThrow "Service instance encountered an error. ");;
      tree ← read_json content;
      take_results allowExceptionThrow tree
  end.

(** *** Status during a phase *)

(** A number of latencies and their sum; if there are none, the last ones are kept. *)
Definition get_pair {S} (tree : arg_tree) (numKey sumKey : string) : eff S (option (Z * Z)) :=
  num ← eff_result (get_uint 64 tree numKey);
  if truthy num then sum ← eff_result (get_uint 64 tree sumKey); mret (Some (num, sum)) else mret None.

Definition put_io (p : option (Z * Z)) (l : LiveLatency) : LiveLatency :=
  match p with
  | None => l
  | Some (n, s) => mkLiveLatency n s (numAvgIOLatReadMixValues l) (avgIOLatReadMixMicroSecsSum l)
      (numAvgEntriesLatValues l) (avgEntriesLatMicroSecsSum l) (numAvgEntriesLatReadMixValues l) (avgEntriesLatReadMixMicrosSecsSum l)
  end.
Definition put_entries (p : option (Z * Z)) (l : LiveLatency) : LiveLatency :=
  match p with
  | None => l
  | Some (n, s) => mkLiveLatency (numAvgIOLatValues l) (avgIOLatMicroSecsSum l) (numAvgIOLatReadMixValues l)
      (avgIOLatReadMixMicroSecsSum l) n s (numAvgEntriesLatReadMixValues l) (avgEntriesLatReadMixMicrosSecsSum l)
  end.
Definition put_ioReadMix (p : option (Z * Z)) (l : LiveLatency) : LiveLatency :=
  match p with
  | None => l
  | Some (n, s) => mkLiveLatency (numAvgIOLatValues l) (avgIOLatMicroSecsSum l) n s
      (numAvgEntriesLatValues l) (avgEntriesLatMicroSecsSum l) (numAvgEntriesLatReadMixValues l) (avgEntriesLatReadMixMicrosSecsSum l)
  end.
Definition put_entriesReadMix (p : option (Z * Z)) (l : LiveLatency) : LiveLatency :=
  match p with
  | None => l
  | Some (n, s) => mkLiveLatency (numAvgIOLatValues l) (avgIOLatMicroSecsSum l) (numAvgIOLatReadMixValues l)
      (avgIOLatReadMixMicroSecsSum l) (numAvgEntriesLatValues l) (avgEntriesLatMicroSecsSum l) n s
  end.

(** One answer to the request of the status: does it trigger the stonewall? *)
Definition take_status (pingMicroSecs : Z) (response : http_response arg_tree) : eff RemoteWorker bool :=
  match response with
  | NoConnection => eff_throw (WorkerException "HTTP client error in benchmark phase: ")
  | HttpResponse false _ => eff_throw (WorkerException "Service encountered an error. ")
  | HttpResponse true content =>
      eff_modify (set_ping pingMicroSecs);;
      v ← read_json content;
      benchID ← eff_result (get_str v "BenchID");
      eff_when (negb (String.eqb (ma_benchID m) benchID)) (eff_throw (WorkerException "Service got hijacked for a different benchmark. "));;
      numWorkersDone ← eff_result (get_uint 64 v "NumWorkersDone");
      numWorkersDoneWithError ← eff_result (get_uint 64 v "NumWorkersDoneWithError");
      eff_modify (set_done numWorkersDone numWorkersDoneWithError);;
      ops ← get_ops "" v;
      eff_modify (on_stats (st_set_ops ops));;
      cpu ← eff_result (get_uint 32 v "CPUUtil");
      eff_modify (fun w => set_cpu cpu (re_cpuStoneWall w) (re_cpuLastDone w) w);;
      io ← get_pair v "NumIOLatUSec" "SumIOLatUSec";
      eff_modify (set_latency (put_io io));;
      entries ← get_pair v "NumEntLatUSec" "SumEntLatUSec";
      eff_modify (set_latency (put_entries entries));;
      eff_when ma_readMix (
        opsReadMix ← get_ops "RWMixRead" v;
        eff_modify (on_stats (st_set_opsReadMix opsReadMix));;
        io ← get_pair v "NumIOLatUSecRWMixRead" "SumIOLatUSecRWMixRead";
        eff_modify (set_latency (put_ioReadMix io));;
        entries ← get_pair v "NumEntLatUSecRWMixRead" "SumEntLatUSecRWMixRead";
        eff_modify (set_latency (put_entriesReadMix entries)));;
      eff_when (truthy numWorkersDoneWithError)
        (msg ← eff_result (get_str v "ErrorHistory"); eff_throw (WorkerRemoteException msg));;
      triggered ← eff_result (get_bool v "TriggerStoneWall");
      stats ← eff_get re_stats;
      mret (truthy numWorkersDone && triggered && st_gotPhaseWork stats && negb (st_stoneWallTriggered stats))
  end.

(** An operation of the [i]-th of the workers. *)
Definition on_worker {A} (i : nat) (f : eff RemoteWorker A) : eff (list RemoteWorker) A := fun ws =>
  match ws !! i with
  | None => None
  | Some w => match f w with Some (r, w) => Some (r, <[i := w]> ws) | None => None end
  end.

(** The loop over the answers: each comes with the question whether an interruption was requested,
    and with the time that it took.  [None]: still waiting for the next one. *)
Fixpoint waitForBenchPhaseCompletion (i : nat) (checkInterruption : bool) (rounds : list (bool * Z * http_response arg_tree))
    : eff (list RemoteWorker) unit :=
  numWorkersDone ← on_worker i (eff_get re_numWorkersDone);
  if ma_numThreads m <=? numWorkersDone then mret tt
  else
    match rounds with
    | [] => eff_stuck
    | (interrupted, pingMicroSecs, response) :: rounds =>
        eff_when (checkInterruption && interrupted) (eff_throw (WorkerInterruptedException "Received friendly request to interrupt execution."));;
        triggers ← on_worker i (take_status pingMicroSecs response);
        eff_when triggers (eff_modify (fmap (on_stats Stats_createStoneWallStats)));;
        waitForBenchPhaseCompletion i checkInterruption rounds
    end.
End answers.

(** *** Intervals *)

(** [calcNextRefreshTime()]: times are in nanoseconds. *)
Definition calcNextRefreshTime (phaseStartT svcUpdateIntervalMS liveStatsSleepMS lastRefreshT : Z) : Z :=
  let elapsedMS := Z.quot (lastRefreshT - phaseStartT) 1000000 in
  let interval := u32 (Z.quot elapsedMS 100) in
  let interval := if interval <? 25 then 25 else interval in
  let maxInterval := Z.min svcUpdateIntervalMS (liveStatsSleepMS / 2) in
  let interval := if maxInterval <? interval then maxInterval else interval in
  lastRefreshT + interval * 1000000.
