(* ===== verification/StatsTheory.v ===== *)
(** The results of a distributed run are those of the same workers in one process: the service sums up
    what its workers contribute, the master reads it from the answer and sums up the services.

    What a worker contributes to the results is a monoid ([contribution], [combine]), and both ways of
    summing up are folds of it. *)

From S2P Require Import Prelude Common CppStrings TranslatorTk PropertyTree CppFloats CPUUtil LiveOps LatencyHistogram Statistics Effects RemoteStats.
From Stdlib Require String.

#[local] Open Scope list_scope.
#[local] Open Scope Z_scope.

(** ** Contributions *)

Definition histo_values : Type := (Z * Z * Z * Z) * list Z.

Definition merge_values (a b : histo_values) : histo_values :=
  let '((n, t, mn, mx), bs) := a in
  let '((n', t', mn', mx'), bs') := b in
  ((n +₆₄ n', t +₆₄ t', if mn' <? mn then mn' else mn, if mx <? mx' then mx' else mx), zip_with (fun x y => x +₆₄ y) bs bs').

Definition is_u64 (z : Z) : Prop := 0 <= z < TWO64.

Definition values_ok (a : histo_values) : Prop :=
  let '((n, t, mn, mx), bs) := a in
  is_u64 n /\ is_u64 t /\ is_u64 mn /\ is_u64 mx /\ Z.of_nat (length bs) = LATHISTO_NUMBUCKETS /\ Forall is_u64 bs.

Record contribution : Type := mkContribution {
  co_elapsed : list Z;
  co_ops : LiveOps;
  co_opsReadMix : LiveOps;
  co_iops : histo_values;
  co_iopsReadMix : histo_values;
  co_entries : histo_values;
  co_entriesReadMix : histo_values;
}.

Definition contributes (w : WorkerStats) : contribution :=
  mkContribution (st_elapsedUSecVec w) (st_ops w) (st_opsReadMix w) (histo_data (st_iopsLatHisto w))
    (histo_data (st_iopsLatHistoReadMix w)) (histo_data (st_entriesLatHisto w)) (histo_data (st_entriesLatHistoReadMix w)).

Definition nothing : contribution := contributes Stats_new.

Definition combine (a b : contribution) : contribution :=
  mkContribution (co_elapsed a ++ co_elapsed b) (LiveOps_getAndAddOps (co_ops b) (co_ops a))
    (LiveOps_getAndAddOps (co_opsReadMix b) (co_opsReadMix a))
    (merge_values (co_iops a) (co_iops b)) (merge_values (co_iopsReadMix a) (co_iopsReadMix b))
    (merge_values (co_entries a) (co_entries b)) (merge_values (co_entriesReadMix a) (co_entriesReadMix b)).

Definition total (l : list contribution) : contribution := foldl combine nothing l.

Record contribution_ok (c : contribution) : Prop := {
  ok_elapsed : Forall is_u64 (co_elapsed c);
  ok_ops : ops_ok (co_ops c);
  ok_opsReadMix : ops_ok (co_opsReadMix c);
  ok_iops : values_ok (co_iops c);
  ok_iopsReadMix : values_ok (co_iopsReadMix c);
  ok_entries : values_ok (co_entries c);
  ok_entriesReadMix : values_ok (co_entriesReadMix c);
}.

(** *** Laws *)

Lemma u64_add_assoc a b c : (a +₆₄ b) +₆₄ c = a +₆₄ (b +₆₄ c).
Proof. rewrite u64_add_mod_l, u64_add_mod_r. f_equal. lia. Qed.

Lemma LiveOps_add_assoc a b c :
  LiveOps_getAndAddOps c (LiveOps_getAndAddOps b a) = LiveOps_getAndAddOps (LiveOps_getAndAddOps c b) a.
Proof. unfold LiveOps_getAndAddOps. cbn. by rewrite !u64_add_assoc. Qed.

Lemma LiveOps_add_zero_l a : ops_ok a -> LiveOps_getAndAddOps a LiveOps_zero = a.
Proof. destruct a. intros (H1 & H2 & H3). unfold LiveOps_getAndAddOps. cbn in *. by rewrite !u64_small by done. Qed.

Lemma LiveOps_add_zero_r a : ops_ok a -> LiveOps_getAndAddOps LiveOps_zero a = a.
Proof. destruct a. intros (H1 & H2 & H3). unfold LiveOps_getAndAddOps. cbn in *. by rewrite !Z.add_0_r, !u64_small by done. Qed.

Lemma zip_with_assoc (l1 l2 l3 : list Z) :
  zip_with (fun x y => x +₆₄ y) (zip_with (fun x y => x +₆₄ y) l1 l2) l3
  = zip_with (fun x y => x +₆₄ y) l1 (zip_with (fun x y => x +₆₄ y) l2 l3).
Proof.
  revert l2 l3. induction l1 as [|x l1 IH]; intros [|y l2] [|z l3]; try done. cbn. by rewrite u64_add_assoc, IH.
Qed.

Lemma if_min a b : (if b <? a then b else a) = Z.min a b.
Proof. destruct (Z.ltb_spec b a); lia. Qed.

Lemma if_max a b : (if a <? b then b else a) = Z.max a b.
Proof. destruct (Z.ltb_spec a b); lia. Qed.

Lemma merge_values_assoc a b c : merge_values (merge_values a b) c = merge_values a (merge_values b c).
Proof.
  destruct a as [[[[n t] mn] mx] bs], b as [[[[n' t'] mn'] mx'] bs'], c as [[[[n2 t2] mn2] mx2] bs2]. cbn -[u64 Z.ltb zip_with].
  by rewrite !u64_add_assoc, zip_with_assoc, !if_min, !if_max, Z.min_assoc, Z.max_assoc.
Qed.

Lemma zero_buckets_add bs : Forall is_u64 bs -> length bs = length zero_buckets ->
  zip_with (fun x y => x +₆₄ y) zero_buckets bs = bs /\ zip_with (fun x y => x +₆₄ y) bs zero_buckets = bs.
Proof.
  unfold zero_buckets. rewrite length_replicate. intros Hbs <-. clear -Hbs. induction Hbs as [|b bs Hb Hbs [IH1 IH2]]; [done|].
  cbn [length replicate zip_with]. rewrite IH1, IH2, Z.add_0_l, Z.add_0_r, u64_small by exact Hb. done.
Qed.

Definition no_values : histo_values := histo_data LatencyHistogram_new.

Lemma merge_no_values a : values_ok a -> merge_values no_values a = a /\ merge_values a no_values = a.
Proof.
  destruct a as [[[[n t] mn] mx] bs]. intros (Hn & Ht & Hmn & Hmx & Hl & Hbs). unfold is_u64 in *.
  destruct (zero_buckets_add bs Hbs) as [H1 H2]; [rewrite <- (Nat2Z.id (length bs)), Hl; by vm_compute|].
  unfold merge_values, no_values, histo_data. cbn -[zero_buckets zip_with u64 Z.ltb].
  rewrite H1, H2, !Z.add_0_r, !u64_small by lia.
  rewrite !if_min, !if_max. split; repeat f_equal; lia.
Qed.

Lemma combine_assoc a b c : combine (combine a b) c = combine a (combine b c).
Proof. unfold combine. cbn. by rewrite !merge_values_assoc, !LiveOps_add_assoc, app_assoc. Qed.

Lemma combine_nothing a : contribution_ok a -> combine nothing a = a /\ combine a nothing = a.
Proof.
  intros [He Ho Hr H1 H2 H3 H4]. destruct a as [e o r i ir en enr]. unfold combine, nothing, contributes.
  cbn -[merge_values histo_data LatencyHistogram_new] in *. fold no_values.
  destruct (merge_no_values i H1) as [-> ->], (merge_no_values ir H2) as [-> ->], (merge_no_values en H3) as [-> ->],
    (merge_no_values enr H4) as [-> ->].
  rewrite !LiveOps_add_zero_l, !LiveOps_add_zero_r, app_nil_r by done. done.
Qed.

Lemma u64_is_u64 z : is_u64 (u64 z).
Proof. apply u64_range. Qed.

Lemma LiveOps_add_ok a b : ops_ok (LiveOps_getAndAddOps a b).
Proof. split_and!; apply u64_is_u64. Qed.

Lemma merge_values_ok a b : values_ok a -> values_ok b -> values_ok (merge_values a b).
Proof.
  destruct a as [[[[n t] mn] mx] bs], b as [[[[n' t'] mn'] mx'] bs']. intros (_ & _ & Hmn & Hmx & Hl & Hbs) (_ & _ & Hmn' & Hmx' & Hl' & Hbs').
  split_and!; [apply u64_is_u64|apply u64_is_u64|by destruct (mn' <? mn)|by destruct (mx <? mx')|rewrite length_zip_with; lia|].
  clear. revert bs'. induction bs as [|x bs IH]; intros [|y bs']; cbn; constructor; [apply u64_is_u64|apply IH].
Qed.

Lemma combine_ok a b : contribution_ok a -> contribution_ok b -> contribution_ok (combine a b).
Proof.
  intros [] []. split; cbn -[merge_values]; [by apply Forall_app|apply LiveOps_add_ok|apply LiveOps_add_ok|by apply merge_values_ok..].
Qed.

Lemma no_values_ok : values_ok no_values.
Proof.
  unfold no_values, histo_data, values_ok, is_u64. cbn -[zero_buckets]. split_and!; try lia; [by vm_compute|].
  apply Forall_replicate. lia.
Qed.

Lemma nothing_ok : contribution_ok nothing.
Proof. split; [constructor|by vm_compute|by vm_compute|apply no_values_ok..]. Qed.

Lemma foldl_combine acc l : contribution_ok acc -> Forall contribution_ok l ->
  foldl combine acc l = combine acc (total l) /\ contribution_ok (total l).
Proof.
  intros Ha Hl. induction l as [|x l IH] using rev_ind.
  { split; [|apply nothing_ok]. symmetry. exact (proj2 (combine_nothing acc Ha)). }
  apply Forall_app in Hl as [Hl Hx]. rewrite Forall_singleton in Hx. destruct (IH Hl) as [IH1 IH2]. unfold total in *. rewrite !foldl_app. cbn [foldl].
  rewrite IH1. split; [apply combine_assoc|]. apply combine_ok; [exact IH2|exact Hx].
Qed.

(** Summing up in groups gives the same. *)
Lemma total_concat ll : Forall (Forall contribution_ok) ll -> total (concat ll) = total (total <$> ll).
Proof.
  intros Hll. assert (forall acc, contribution_ok acc -> foldl combine acc (concat ll) = foldl combine acc (total <$> ll)) as H.
  { induction Hll as [|l ll Hl Hll IH]; intros acc Ha; [done|].
    rewrite fmap_cons. cbn [concat foldl]. rewrite foldl_app. destruct (foldl_combine acc l Ha Hl) as [-> Ht]. apply IH. by apply combine_ok. }
  apply H, nothing_ok.
Qed.

(** ** Results of a list of workers *)

(** A worker at the end of a successful phase: with a time, or without work and without anything to
    contribute; and without reads of a mix if there is none. *)
Record worker_done (readMix : bool) (w : WorkerStats) : Prop := {
  wd_ok : contribution_ok (contributes w);
  wd_work : if st_gotPhaseWork w then st_elapsedUSecVec w <> [] else contributes w = nothing;
  wd_readMix : readMix = false ->
    st_opsReadMix w = LiveOps_zero /\ histo_data (st_iopsLatHistoReadMix w) = no_values /\ histo_data (st_entriesLatHistoReadMix w) = no_values;
}.

Definition sums_of (c : contribution) (r : PhaseSums) : Prop :=
  ps_finish r = foldl add_elapsed None (co_elapsed c) /\ ps_opsTotal r = co_ops c /\ ps_opsTotalReadMix r = co_opsReadMix c
  /\ histo_data (ps_iopsLatHisto r) = co_iops c /\ histo_data (ps_iopsLatHistoReadMix r) = co_iopsReadMix c
  /\ histo_data (ps_entriesLatHisto r) = co_entries c /\ histo_data (ps_entriesLatHistoReadMix r) = co_entriesReadMix c.

Lemma merge_data h k : histo_data (LatencyHistogram_merge h k) = merge_values (histo_data h) (histo_data k).
Proof. done. Qed.

Lemma add_worker_sums c r w : sums_of c r -> sums_of (combine c (contributes w)) (add_worker r w).
Proof.
  intros (Hf & H1 & H2 & H3 & H4 & H5 & H6). unfold sums_of, combine, add_worker, contributes.
  cbn -[LatencyHistogram_merge histo_data merge_values LiveOps_getAndAddOps].
  by rewrite !merge_data, Hf, H1, H2, H3, H4, H5, H6, foldl_app.
Qed.

Lemma sum_workers_spec readMix ws c r :
  sums_of c r -> contribution_ok c -> Forall (worker_done readMix) ws ->
  exists r', sum_workers ws r = Some r' /\ sums_of (foldl combine c (contributes <$> ws)) r'.
Proof.
  intros Hs Hc Hws. revert c r Hs Hc. induction Hws as [|w ws [Hok Hwork _] Hws IH]; intros c r Hs Hc; [by exists r|].
  cbn [sum_workers]. rewrite fmap_cons. cbn [foldl].
  assert (exists r', sum_workers ws (add_worker r w) = Some r'
    /\ sums_of (foldl combine (combine c (contributes w)) (contributes <$> ws)) r') as Hadd.
  { apply IH; [by apply add_worker_sums|by apply combine_ok]. }
  destruct (st_gotPhaseWork w).
  - by destruct (st_elapsedUSecVec w).
  - assert (st_elapsedUSecVec w = []) as -> by (change (co_elapsed (contributes w) = []); by rewrite Hwork).
    rewrite Hwork, (proj2 (combine_nothing c Hc)). by apply IH.
Qed.

Lemma sums_of_nothing : sums_of nothing PhaseSums_zero.
Proof. done. Qed.

(** What the results have from the sum of the contributions. *)
Definition results_of (c : contribution) (r : PhaseResults) : Prop :=
  sums_of c (pr_sums r) /\ foldl add_elapsed None (co_elapsed c) = Some (pr_firstFinishUSec r, pr_lastFinishUSec r)
  /\ pr_opsPerSec r = per_sec_if (truthy (pr_lastFinishUSec r)) (co_ops c) (pr_lastFinishUSec r)
  /\ pr_opsPerSecReadMix r = per_sec_if (truthy (pr_lastFinishUSec r) && truthy (numIOPSDone (co_opsReadMix c)))
       (co_opsReadMix c) (pr_lastFinishUSec r).

Lemma results_spec readMix cpu ws :
  Forall (worker_done readMix) ws ->
  let c := total (contributes <$> ws) in
  match generatePhaseResults cpu ws with
  | Some r => co_elapsed c <> [] /\ results_of c r
  | None => co_elapsed c = []
  end.
Proof.
  intros Hws c. destruct (sum_workers_spec readMix ws _ _ sums_of_nothing nothing_ok Hws) as (r & Hr & Hs). fold (total (contributes <$> ws)) in Hs. fold c in Hs.
  unfold generatePhaseResults. case_bool_decide as Hnil; [by subst ws|]. rewrite Hr. cbn [mbind option_bind].
  pose proof Hs as (Hf & Ho & Hrm & _). rewrite Hf.
  assert (forall p l, exists p', foldl add_elapsed (Some p) l = Some p') as Hsome.
  { intros p l. revert p. induction l as [|e l IH]; intros p; [by exists p|]. cbn. destruct p. apply IH. }
  destruct (co_elapsed c) as [|e es] eqn:He; [done|]. cbn [foldl add_elapsed]. destruct (Hsome (e, e) es) as ([first last] & Hfl). rewrite Hfl.
  split; [done|]. unfold results_of. cbn [pr_sums pr_firstFinishUSec pr_lastFinishUSec pr_opsPerSec pr_opsPerSecReadMix].
  rewrite He. cbn [foldl add_elapsed]. by rewrite Hfl, Ho, Hrm.
Qed.

(** ** The way of the results to the master *)

Lemma getLiveOps_local ws : exists lat ws',
  getLiveOps ws = ((foldl (fun o w => LiveOps_getAndAddOps (st_ops w) o) LiveOps_zero ws,
                    foldl (fun o w => LiveOps_getAndAddOps (st_opsReadMix w) o) LiveOps_zero ws, lat), ws')
  /\ Forall2 (fun w' w => contributes w' = contributes w /\ st_gotPhaseWork w' = st_gotPhaseWork w) ws' ws.
Proof.
  unfold getLiveOps. induction ws as [|w ws (lat & ws' & IH & Hws)] using rev_ind; [by eexists _, _|].
  rewrite !foldl_app, IH. cbn [foldl]. destruct (Stats_getAndAddLiveLatency lat w) as [lat' w'] eqn:Hl.
  exists lat', (ws' ++ [w']). cbn [getAndAddLiveLatency local_StatsWorker]. rewrite Hl. split; [done|].
  unfold Stats_getAndAddLiveLatency in Hl. cbn -[u64] in Hl. injection Hl as _ <-. apply Forall2_app; [done|]. by constructor.
Qed.

Section total_fields.
Context (a : contribution) (l : list contribution).

Lemma total_elapsed : co_elapsed (foldl combine a l) = co_elapsed a ++ concat (co_elapsed <$> l).
Proof. revert a. induction l as [|x l' IH]; intros a'; cbn; [by rewrite app_nil_r|]. rewrite IH. cbn. by rewrite <- app_assoc. Qed.

Lemma total_ops : co_ops (foldl combine a l) = foldl (fun o c => LiveOps_getAndAddOps (co_ops c) o) (co_ops a) l.
Proof. revert a. induction l as [|x l' IH]; intros a'; cbn; [done|]. by rewrite IH. Qed.

Lemma total_opsReadMix : co_opsReadMix (foldl combine a l) = foldl (fun o c => LiveOps_getAndAddOps (co_opsReadMix c) o) (co_opsReadMix a) l.
Proof. revert a. induction l as [|x l' IH]; intros a'; cbn; [done|]. by rewrite IH. Qed.

(** One of the histograms. *)
Lemma total_values (f : contribution -> histo_values) :
  (forall c d, f (combine c d) = merge_values (f c) (f d)) ->
  f (foldl combine a l) = foldl (fun v c => merge_values v (f c)) (f a) l.
Proof. intros Hf. revert a. induction l as [|x l' IH]; intros a'; cbn -[merge_values]; [done|]. by rewrite IH, Hf. Qed.
End total_fields.

Lemma merge_all_data (histo : WorkerStats -> LatencyHistogram) ws :
  histo_data (merge_all histo ws) = foldl (fun v w => merge_values v (histo_data (histo w))) no_values ws.
Proof.
  unfold merge_all, no_values. generalize LatencyHistogram_new. induction ws as [|w ws IH]; intros h; [done|].
  cbn [foldl]. by rewrite IH.
Qed.

(** The sums that a service sends are the sums of the contributions. *)
Lemma service_sums (f : contribution -> histo_values) (histo : WorkerStats -> LatencyHistogram) ws :
  (forall c d, f (combine c d) = merge_values (f c) (f d)) -> (forall w, f (contributes w) = histo_data (histo w)) ->
  histo Stats_new = LatencyHistogram_new ->
  histo_data (merge_all histo ws) = f (total (contributes <$> ws)).
Proof.
  intros Hf Hh Hnew. rewrite merge_all_data. unfold total. rewrite (total_values _ _ f Hf), foldl_fmap.
  assert (f nothing = no_values) as -> by (unfold nothing; by rewrite Hh, Hnew).
  generalize no_values. induction ws as [|w ws IH]; intros v; [done|]. cbn [foldl]. by rewrite Hh, IH.
Qed.

(** What master and service agree on for a phase without errors. *)
Record phase_agreed (m : MasterPhase) (ph : ServicePhase) : Prop := {
  pa_benchID : ph_benchID ph = ma_benchID m;
  pa_benchPhase : ph_benchPhase ph = ma_benchPhase m;
  pa_names : ph_names ph = ma_names m;
  pa_done : ph_numWorkersDone ph = ma_numThreads m;
  pa_noErrors : ph_numWorkersDoneWithError ph = 0;
  pa_numThreads : is_u64 (ma_numThreads m);
}.

Lemma result_keys_distinct ph readMix ops opsReadMix c1 c2 trigger : NoDup (result_values ph readMix ops opsReadMix c1 c2 trigger).*1.
Proof. eapply bool_decide_unpack. destruct readMix; vm_compute; exact I. Qed.

Lemma eff_bind_ok {S A B} (e : eff S A) (f : A -> eff S B) s a s' : e s = Some (Ok a, s') -> (e ≫= f) s = f a s'.
Proof. unfold mbind, eff_bind. by intros ->. Qed.

Lemma eff_result_ok {S A} (r : result A) (s : S) a : r = Ok a -> eff_result r s = Some (Ok a, s).
Proof. by intros ->. Qed.

Lemma get_ops_ok {S} tree suffix ops (s : S) : ops_ok ops ->
  ptree_get tree ("NumEntriesDone" +:+ suffix) = Some (to_string (numEntriesDone ops)) ->
  ptree_get tree ("NumBytesDone" +:+ suffix) = Some (to_string (numBytesDone ops)) ->
  ptree_get tree ("NumIOPSDone" +:+ suffix) = Some (to_string (numIOPSDone ops)) -> get_ops suffix tree s = Some (Ok ops, s).
Proof.
  intros (H1 & H2 & H3) Hg1 Hg2 Hg3. unfold get_ops.
  erewrite eff_bind_ok; [|apply eff_result_ok, get_uint_ok; [exact Hg1|lia|exact H1]].
  erewrite eff_bind_ok; [|apply eff_result_ok, get_uint_ok; [exact Hg2|lia|exact H2]].
  erewrite eff_bind_ok; [|apply eff_result_ok, get_uint_ok; [exact Hg3|lia|exact H3]].
  by destruct ops.
Qed.

Lemma get_elapsed_ok l : Forall is_u64 l -> mapM get_elapsed (to_string <$> l) = Ok l.
Proof.
  induction 1 as [|e l He Hl IH]; [done|]. rewrite fmap_cons. cbn [mapM].
  assert (get_elapsed (to_string e) = Ok e) as -> by (unfold get_elapsed; by rewrite parse_uint_to_string by (done || lia)).
  cbn. by rewrite IH.
Qed.

Lemma reset_data h : histo_data (LatencyHistogram_reset h) = no_values.
Proof. done. Qed.

(** The tree has what the service put into it. *)
Lemma result_tree_get ph readMix ops opsReadMix c1 c2 trigger k v :
  ptree_get (result_values ph readMix ops opsReadMix c1 c2 trigger) k = Some v ->
  ptree_get (ptree_puts (result_values ph readMix ops opsReadMix c1 c2 trigger)) k = Some v.
Proof. by rewrite ptree_puts_distinct by apply result_keys_distinct. Qed.

(** The state of the worker after the result of a service. *)
Definition taken (readMix gotWork : bool) (numDone c1 c2 : Z) (ops opsReadMix : LiveOps) (elapsed : list Z)
    (iops entries iopsReadMix entriesReadMix : LatencyHistogram) (r : RemoteWorker) : RemoteWorker :=
  let set tree := setFromPropertyTreeForService (getAsPropertyTreeForService tree) in
  let r := on_stats (st_set_ops ops) (on_stats (st_set_gotWork gotWork) (set_done numDone 0 r)) in
  let r := on_stats (st_set_elapsed elapsed) (set_cpu 0 c1 c2 r) in
  let r := on_stats (fun w => st_set_histos (set iops (st_iopsLatHisto w)) (set entries (st_entriesLatHisto w)) w) r in
  let r := set_latency LiveLatency_setToZero r in
  let r := if readMix
    then on_stats (fun w => st_set_histosReadMix (set iopsReadMix (st_iopsLatHistoReadMix w))
           (set entriesReadMix (st_entriesLatHistoReadMix w)) w) (on_stats (st_set_opsReadMix opsReadMix) r)
    else r in
  finish_signal true r.

Lemma take_results_ok m ph ops opsReadMix c1 c2 trigger elapsed iops entries iopsReadMix entriesReadMix r :
  phase_agreed m ph -> ops_ok ops -> ops_ok opsReadMix -> Forall is_u64 elapsed -> 0 <= c1 < 2 ^ 32 -> 0 <= c2 < 2 ^ 32 ->
  take_results m true
    (mkTree (ptree_puts (result_values ph (ma_readMix m) ops opsReadMix c1 c2 trigger)) (to_string <$> elapsed)
       ([("IOPS_", getAsPropertyTreeForService iops); ("Entries_", getAsPropertyTreeForService entries)]
        ++ (if ma_readMix m
            then [("IOPSRWMixRead_", getAsPropertyTreeForService iopsReadMix); ("EntriesRWMixRead_", getAsPropertyTreeForService entriesReadMix)]
            else []))) r
  = Some (Ok tt, taken (ma_readMix m) trigger (ma_numThreads m) c1 c2 ops opsReadMix elapsed iops entries iopsReadMix entriesReadMix r).
Proof.
  intros [Hid _ _ Hdone Herr Hnum] Hops Hrm Hel Hc1 Hc2. unfold take_results. cbn [rt_values rt_elapsed rt_latencies].
  pose proof (fun k v => result_tree_get ph (ma_readMix m) ops opsReadMix c1 c2 trigger k v) as Hget.
  set (v := ptree_puts _) in *. clearbody v.
  erewrite eff_bind_ok; [|apply eff_result_ok, get_str_ok, Hget; reflexivity].
  rewrite Hid, String.eqb_refl. cbn [negb eff_when].
  erewrite eff_bind_ok; [|reflexivity].
  erewrite eff_bind_ok; [|apply eff_result_ok, get_uint_ok; [apply Hget; reflexivity|lia|rewrite Hdone; exact Hnum]].
  erewrite eff_bind_ok; [|apply eff_result_ok, get_uint_ok; [apply Hget; reflexivity|lia|rewrite Herr; lia]].
  erewrite eff_bind_ok; [|reflexivity]. rewrite Hdone, Herr, Z.ltb_irrefl. change (truthy 0) with false. cbn [eff_when].
  do 2 (erewrite eff_bind_ok; [|reflexivity]).
  erewrite eff_bind_ok; [|apply eff_result_ok, get_bool_ok, Hget; reflexivity]. erewrite eff_bind_ok; [|reflexivity].
  erewrite eff_bind_ok; [|apply get_ops_ok; [exact Hops|apply Hget; reflexivity..]]. erewrite eff_bind_ok; [|reflexivity].
  erewrite eff_bind_ok; [|apply eff_result_ok, get_uint_ok; [apply Hget; reflexivity|lia|exact Hc1]].
  erewrite eff_bind_ok; [|apply eff_result_ok, get_uint_ok; [apply Hget; reflexivity|lia|exact Hc2]]. erewrite eff_bind_ok; [|reflexivity].
  erewrite eff_bind_ok; [|by apply eff_result_ok, get_elapsed_ok]. erewrite eff_bind_ok; [|reflexivity].
  do 4 (erewrite eff_bind_ok; [|reflexivity]). unfold taken. destruct (ma_readMix m); cbn [eff_when]; [|done].
  erewrite eff_bind_ok; [reflexivity|].
  erewrite eff_bind_ok; [|apply get_ops_ok; [exact Hrm|apply Hget; reflexivity..]].
  reflexivity.
Qed.

Lemma worker_done_same readMix w w' :
  contributes w' = contributes w -> st_gotPhaseWork w' = st_gotPhaseWork w -> worker_done readMix w -> worker_done readMix w'.
Proof.
  intros Hc Hg [H1 H2 H3]. split; rewrite ?Hc, ?Hg; [done| |].
  - change (st_elapsedUSecVec w') with (co_elapsed (contributes w')). by rewrite Hc.
  - intros Hr. change (co_opsReadMix (contributes w') = LiveOps_zero /\ co_iopsReadMix (contributes w') = no_values
      /\ co_entriesReadMix (contributes w') = no_values). rewrite Hc. by apply H3.
Qed.

Lemma sent_elapsed readMix ws : Forall (worker_done readMix) ws ->
  concat ((fun w => if st_gotPhaseWork w then st_elapsedUSecVec w else []) <$> ws) = co_elapsed (total (contributes <$> ws)).
Proof.
  intros Hws. unfold total. rewrite total_elapsed. cbn [app nothing contributes co_elapsed Stats_new st_elapsedUSecVec].
  induction Hws as [|w ws [_ Hw _] Hws IH]; [done|]. rewrite !fmap_cons. cbn [concat]. rewrite IH. f_equal.
  destruct (st_gotPhaseWork w); [done|]. by rewrite Hw.
Qed.

Lemma set_data tree h : Z.of_nat (length (buckets tree)) = LATHISTO_NUMBUCKETS ->
  histo_data (setFromPropertyTreeForService (getAsPropertyTreeForService tree) h) = histo_data tree.
Proof. apply histogram_service_roundtrip. Qed.

Lemma merge_all_length (f : WorkerStats -> LatencyHistogram) ws :
  Forall (fun w => values_ok (histo_data (f w))) ws -> Z.of_nat (length (buckets (merge_all f ws))) = LATHISTO_NUMBUCKETS.
Proof.
  intros Hws. unfold merge_all. assert (Z.of_nat (length (buckets LatencyHistogram_new)) = LATHISTO_NUMBUCKETS) as H0 by by vm_compute.
  revert H0. generalize LatencyHistogram_new. induction Hws as [|w ws (_ & _ & _ & _ & Hl & _) Hws IH]; intros h Hh; [done|].
  cbn [foldl]. apply IH. unfold LatencyHistogram_merge. cbn [buckets]. rewrite length_zip_with. cbn in Hl. lia.
Qed.

Lemma total_no_readMix ws : Forall (worker_done false) ws ->
  let c := total (contributes <$> ws) in
  co_opsReadMix c = LiveOps_zero /\ co_iopsReadMix c = no_values /\ co_entriesReadMix c = no_values.
Proof.
  intros Hws. cbv zeta. unfold total. rewrite total_opsReadMix, (total_values _ _ co_iopsReadMix), (total_values _ _ co_entriesReadMix) by done.
  change (co_opsReadMix nothing) with LiveOps_zero. change (co_iopsReadMix nothing) with no_values. change (co_entriesReadMix nothing) with no_values.
  rewrite !foldl_fmap. pose proof (proj1 (merge_no_values no_values no_values_ok)) as Hno.
  induction Hws as [|w ws [_ _ Hr] Hws IH]; [done|]. destruct (Hr eq_refl) as (H1 & H2 & H3). cbn [foldl].
  change (co_opsReadMix (contributes w)) with (st_opsReadMix w). change (co_iopsReadMix (contributes w)) with (histo_data (st_iopsLatHistoReadMix w)).
  change (co_entriesReadMix (contributes w)) with (histo_data (st_entriesLatHistoReadMix w)). by rewrite H1, H2, H3, Hno.
Qed.

(** [finishPhase()] takes over what all workers of the service contribute. *)
Lemma finish_takes_total m ph ws tree ws' r0 :
  phase_agreed m ph -> Forall (worker_done (ma_readMix m)) ws ->
  getBenchResultAsPropertyTreeForService ph ws = Some (tree, ws') ->
  exists r, Remote_finishPhase m true (HttpResponse true (Some tree)) (Remote_resetStats r0) = Some (Ok tt, r)
    /\ contributes (re_stats r) = total (contributes <$> ws) /\ st_gotPhaseWork (re_stats r) = existsb st_gotPhaseWork ws
    /\ re_signals r = re_signals r0 ++ [true].
Proof.
  intros Hm Hws. destruct (getLiveOps_local ws) as (lat & ws1 & Hlive & Hsame).
  assert (contributes <$> ws1 = contributes <$> ws) as Hcon by (clear -Hsame; induction Hsame as [|?? ?? [] ? IH]; cbn; congruence).
  assert (existsb st_gotPhaseWork ws1 = existsb st_gotPhaseWork ws) as Hgot by (clear -Hsame; induction Hsame as [|?? ?? [] ? IH]; cbn; congruence).
  assert (Forall (worker_done (ma_readMix m)) ws1) as Hws1.
  { clear -Hsame Hws. induction Hsame as [|?? ?? [] ? IH]; [constructor|]. inversion_clear Hws. constructor; [by eapply worker_done_same|by apply IH]. }
  unfold getBenchResultAsPropertyTreeForService. rewrite Hlive.
  destruct (cpu_value (ph_cpuUtilFirstDone ph)) as [c1|] eqn:Hc1; [|done]. destruct (cpu_value (ph_cpuUtilLastDone ph)) as [c2|] eqn:Hc2; [|done].
  apply fl_to_uint_range in Hc1, Hc2; [|lia..].
  cbn [mbind option_bind]. intros [= <- <-]. rewrite (sent_elapsed _ _ Hws1), Hcon, Hgot.
  assert (has_read_mix (ph_benchPhase ph) (ph_names ph) = ma_readMix m) as -> by (destruct Hm as [_ -> -> _ _ _]; done).
  set (c := total (contributes <$> ws)).
  assert (contribution_ok c) as Hc.
  { apply (foldl_combine nothing); [apply nothing_ok|]. apply Forall_fmap. eapply Forall_impl; [exact Hws|]. by intros w []. }
  assert (foldl (fun o w => LiveOps_getAndAddOps (st_ops w) o) LiveOps_zero ws = co_ops c) as ->.
  { unfold c, total. by rewrite total_ops, foldl_fmap. }
  assert (foldl (fun o w => LiveOps_getAndAddOps (st_opsReadMix w) o) LiveOps_zero ws = co_opsReadMix c) as ->.
  { unfold c, total. by rewrite total_opsReadMix, foldl_fmap. }
  eexists. split; [|split; [|split]].
  - unfold Remote_finishPhase. cbn [negb eff_when read_json]. do 2 (erewrite eff_bind_ok; [|reflexivity]).
    apply (take_results_ok m ph); try done; apply Hc.
  - assert (forall f histo, (forall a b, f (combine a b) = merge_values (f a) (f b)) -> (forall w, f (contributes w) = histo_data (histo w)) ->
      histo Stats_new = LatencyHistogram_new -> (forall c, contribution_ok c -> values_ok (f c)) ->
      forall h, histo_data (setFromPropertyTreeForService (getAsPropertyTreeForService (merge_all histo ws1)) h) = f c) as Hh.
    { intros f histo Hf Hfh Hnew Hok h. rewrite set_data.
      - unfold c. by rewrite (service_sums f), Hcon by done.
      - apply merge_all_length. eapply Forall_impl; [exact Hws1|]. intros w [Hw _ _]. rewrite <- Hfh. by apply Hok. }
    pose proof (total_no_readMix ws) as Hno. fold c in Hno. unfold taken. destruct (ma_readMix m) eqn:Hrm.
    + unfold contributes. cbn -[setFromPropertyTreeForService getAsPropertyTreeForService merge_all histo_data].
      rewrite (Hh co_iops), (Hh co_iopsReadMix), (Hh co_entries), (Hh co_entriesReadMix); try done; try (by intros ? []). by destruct c.
    + destruct (Hno Hws) as (Hn1 & Hn2 & Hn3). unfold contributes. cbn -[setFromPropertyTreeForService getAsPropertyTreeForService merge_all histo_data LatencyHistogram_reset].
      rewrite (Hh co_iops), (Hh co_entries), !reset_data; try done; try (by intros ? []). rewrite <- Hn1, <- Hn2, <- Hn3 at 1. by destruct c; cbn in *; subst.
  - by destruct (ma_readMix m).
  - by destruct (ma_readMix m).
Qed.

(** All services together count as one worker that is done. *)
Lemma total_done readMix ws w : Forall (worker_done readMix) ws ->
  contributes w = total (contributes <$> ws) -> st_gotPhaseWork w = existsb st_gotPhaseWork ws -> worker_done readMix w.
Proof.
  intros Hws Hc Hg. assert (Forall contribution_ok (contributes <$> ws)) as Hok.
  { apply Forall_fmap. eapply Forall_impl; [exact Hws|]. by intros x []. }
  split; rewrite ?Hc.
  - by apply (foldl_combine nothing _ nothing_ok).
  - rewrite Hg. destruct (existsb st_gotPhaseWork ws) eqn:He.
    + change (co_elapsed (contributes w) <> []). rewrite Hc. unfold total. rewrite total_elapsed.
      apply existsb_exists in He as (x & Hin%list_elem_of_In & Hx). rewrite Forall_forall in Hws. destruct (Hws x Hin) as [_ Hw _]. rewrite Hx in Hw.
      intros Hnil. apply Hw. apply list_elem_of_lookup_1 in Hin as [i Hi]. cbn [app nothing contributes co_elapsed Stats_new st_elapsedUSecVec] in Hnil.
      apply concat_nil_Forall in Hnil. rewrite Forall_forall in Hnil. apply Hnil. apply list_elem_of_lookup_2 with i.
      by rewrite !list_lookup_fmap, Hi.
    + clear -Hws He. unfold total. induction Hws as [|x ws [_ Hw _] Hws IH]; [done|]. cbn in He. apply orb_false_iff in He as [Hx He].
      rewrite Hx in Hw. rewrite fmap_cons. cbn [foldl]. rewrite Hw, (proj1 (combine_nothing nothing nothing_ok)). by apply IH.
  - intros ->. change (co_opsReadMix (contributes w) = LiveOps_zero /\ co_iopsReadMix (contributes w) = no_values
      /\ co_entriesReadMix (contributes w) = no_values). rewrite Hc. by apply total_no_readMix.
Qed.

(** ** Theorems *)

(** The end of a phase on a service and its result on the master, whose worker had the state [old]
    before the phase. *)
Definition collect_results (m : MasterPhase) (service : ServicePhase * list WorkerStats * RemoteWorker) : option RemoteWorker :=
  let '(ph, ws, old) := service in
  '(tree, _) ← getBenchResultAsPropertyTreeForService ph ws;
  match Remote_finishPhase m true (HttpResponse true (Some tree)) (Remote_resetStats old) with
  | Some (Ok _, r) => Some r
  | _ => None
  end.

(** Two results with the same times, numbers, rates and latencies (but not those at the stonewall and
    of the CPUs). *)
Definition same_results (r r' : option PhaseResults) : Prop :=
  match r, r' with
  | None, None => True
  | Some r, Some r' =>
      pr_firstFinishUSec r = pr_firstFinishUSec r' /\ pr_lastFinishUSec r = pr_lastFinishUSec r'
      /\ ps_opsTotal (pr_sums r) = ps_opsTotal (pr_sums r') /\ ps_opsTotalReadMix (pr_sums r) = ps_opsTotalReadMix (pr_sums r')
      /\ pr_opsPerSec r = pr_opsPerSec r' /\ pr_opsPerSecReadMix r = pr_opsPerSecReadMix r'
      /\ histo_data (ps_iopsLatHisto (pr_sums r)) = histo_data (ps_iopsLatHisto (pr_sums r'))
      /\ histo_data (ps_iopsLatHistoReadMix (pr_sums r)) = histo_data (ps_iopsLatHistoReadMix (pr_sums r'))
      /\ histo_data (ps_entriesLatHisto (pr_sums r)) = histo_data (ps_entriesLatHisto (pr_sums r'))
      /\ histo_data (ps_entriesLatHistoReadMix (pr_sums r)) = histo_data (ps_entriesLatHistoReadMix (pr_sums r'))
  | _, _ => False
  end.

Lemma same_total_results readMix cpu cpu' ws ws' :
  Forall (worker_done readMix) ws -> Forall (worker_done readMix) ws' -> total (contributes <$> ws) = total (contributes <$> ws') ->
  same_results (generatePhaseResults cpu ws) (generatePhaseResults cpu' ws').
Proof.
  intros Hws Hws' Ht. pose proof (results_spec readMix cpu ws Hws) as H. pose proof (results_spec readMix cpu' ws' Hws') as H'. cbv zeta in H, H'.
  rewrite <- Ht in H'. set (c := total (contributes <$> ws)) in *. clearbody c.
  destruct (generatePhaseResults cpu ws) as [r|], (generatePhaseResults cpu' ws') as [r'|]; cbn.
  - destruct H as (_ & (_ & A1 & A2 & A3 & A4 & A5 & A6) & A7 & A8 & A9), H' as (_ & (_ & B1 & B2 & B3 & B4 & B5 & B6) & B7 & B8 & B9).
    rewrite A7 in B7. injection B7 as Hf Hl. rewrite A8, A9, B8, B9, Hl. split_and!; congruence.
  - by destruct H.
  - by destruct H'.
  - done.
Qed.

Lemma collect_results_done m ph ws old : phase_agreed m ph -> Forall (worker_done (ma_readMix m)) ws ->
  cpu_value (ph_cpuUtilFirstDone ph) <> None -> cpu_value (ph_cpuUtilLastDone ph) <> None ->
  exists r, collect_results m (ph, ws, old) = Some r /\ worker_done (ma_readMix m) (re_stats r)
    /\ contributes (re_stats r) = total (contributes <$> ws).
Proof.
  intros Hm Hws Hc1 Hc2. destruct (getBenchResultAsPropertyTreeForService ph ws) as [[tree ws']|] eqn:Htree.
  - destruct (finish_takes_total m ph ws tree ws' old Hm Hws Htree) as (r & Hr & Hc & Hg & _). exists r.
    unfold collect_results. rewrite Htree. cbn [mbind option_bind]. rewrite Hr. split; [done|]. split; [by eapply total_done|done].
  - exfalso. revert Htree. unfold getBenchResultAsPropertyTreeForService. destruct (getLiveOps ws) as [[[??]?]?].
    destruct (cpu_value (ph_cpuUtilFirstDone ph)); [|done]. by destruct (cpu_value (ph_cpuUtilLastDone ph)).
Qed.

(** C5: A distributed run reports what one process with the same workers would report.  When every service has
    finished its phase without errors, the master gets all results, and what it computes from them
    (first and last finish, total numbers and rates, also of the reads in a mix, and the four
    latency histograms) is what the statistics compute from all workers of all services at once;
    also when some workers or whole services had no work. *)
Theorem distributed_results_equal_local m services cpu cpu' :
  Forall (fun '(ph, ws, _) => phase_agreed m ph /\ Forall (worker_done (ma_readMix m)) ws
    /\ cpu_value (ph_cpuUtilFirstDone ph) <> None /\ cpu_value (ph_cpuUtilLastDone ph) <> None) services ->
  exists remotes, mapM (collect_results m) services = Some remotes
    /\ same_results (generatePhaseResults cpu (re_stats <$> remotes)) (generatePhaseResults cpu' (concat ((fun '(_, ws, _) => ws) <$> services))).
Proof.
  intros Hs. assert (exists remotes, mapM (collect_results m) services = Some remotes
    /\ Forall (worker_done (ma_readMix m)) (re_stats <$> remotes) /\ Forall (Forall (worker_done (ma_readMix m))) ((fun '(_, ws, _) => ws) <$> services)
    /\ contributes <$> (re_stats <$> remotes) = (fun ws => total (contributes <$> ws)) <$> ((fun '(_, ws, _) => ws) <$> services))
    as (remotes & Hr & Hd & Hw & Hc).
  { induction Hs as [|[[ph ws] old] services (Hm & Hws & Hc1 & Hc2) Hs (remotes & Hr & Hd & Hw & Hc)]; [by exists []|].
    destruct (collect_results_done m ph ws old Hm Hws Hc1 Hc2) as (r & Hcol & Hdone & Hcon). exists (r :: remotes).
    cbn [mapM]. rewrite Hcol, Hr. split; [done|]. rewrite !fmap_cons. split; [by constructor|]. split; [by constructor|]. by rewrite Hcon, Hc. }
  exists remotes. split; [done|]. apply (same_total_results (ma_readMix m)); [done| |].
  - clear -Hw. induction Hw; cbn; [constructor|]. by apply Forall_app.
  - rewrite Hc. set (wss := (fun '(_, ws, _) => ws) <$> services) in *. clearbody wss.
    assert (contributes <$> concat wss = concat ((fun ws : list WorkerStats => contributes <$> ws) <$> wss)) as ->.
    { clear. induction wss as [|ws wss IH]; [done|]. cbn. by rewrite fmap_app, IH. }
    rewrite total_concat, <- list_fmap_compose; [done|]. apply Forall_fmap. eapply Forall_impl; [exact Hw|]. intros ws Hws. cbn. apply Forall_fmap.
    eapply Forall_impl; [exact Hws|]. by intros x [].
Qed.

(** Two services: the first with a worker that wrote and one without work, the second with one worker. *)
Definition demo_worker (gotWork : bool) (elapsed : list Z) (ops : LiveOps) (lats : list Z) : WorkerStats :=
  mkStats elapsed ops LiveOps_zero LiveOps_zero LiveOps_zero false gotWork LiveOps_zero LiveOps_zero
    (histo_of lats) LatencyHistogram_new LatencyHistogram_new LatencyHistogram_new.

Definition demo_names : NameArgs := mkNameArgs BenchMode_POSIX BenchPathType_FILE false 0 false 0 false false.
Definition demo_phase (n : Z) : ServicePhase := mkPhase "id1" BenchPhase_CREATEFILES demo_names n 0 CPUUtil_new CPUUtil_new CPUUtil_new 1 "".
Definition demo_master (n : Z) : MasterPhase := mkMaster "id1" BenchPhase_CREATEFILES demo_names n.
Definition demo_remote : RemoteWorker := mkRemote Stats_new false 0 0 0 0 0 0 LiveLatency_zero [] [].

Definition demo_services : list (ServicePhase * list WorkerStats * RemoteWorker) :=
  [(demo_phase 2, [demo_worker true [2000] (mkLiveOps 0 8192 2) [5; 900]; demo_worker false [] LiveOps_zero []], demo_remote);
   (demo_phase 2, [demo_worker true [1500] (mkLiveOps 0 4096 1) [7]; demo_worker true [1000] (mkLiveOps 0 4096 1) [8]], demo_remote)].

Lemma histo_of_ok lats : Forall lat_ok lats -> values_ok (histo_data (histo_of lats)).
Proof.
  intros Hl. destruct (histo_of_fields lats Hl) as [H1 H2 H3 H4 H5]. unfold values_ok, histo_data, is_u64. rewrite H1, H2, H3, H4, H5.
  clear -Hl. assert (0 <= foldr Z.min (TWO64 - 1) lats < TWO64 /\ 0 <= foldr Z.max 0 lats < TWO64) as [Hmin Hmax].
  { unfold lat_ok in Hl. induction Hl; cbn [foldr]; lia. }
  split_and!; try apply u64_range; try lia.
  - by rewrite length_fmap, length_seqZ.
  - apply Forall_fmap, Forall_true. intros i. apply u64_range.
Qed.

Lemma demo_worker_done gotWork elapsed ops lats :
  Forall is_u64 elapsed -> ops_ok ops -> Forall lat_ok lats ->
  (if gotWork : bool then elapsed <> [] else elapsed = [] /\ ops = LiveOps_zero /\ lats = []) ->
  worker_done false (demo_worker gotWork elapsed ops lats).
Proof.
  intros He Ho Hl Hw. split; [split; [done|done| |by apply histo_of_ok|apply no_values_ok..]| |done].
  - by vm_compute.
  - cbn [st_gotPhaseWork demo_worker]. destruct gotWork; [done|]. by destruct Hw as (-> & -> & ->).
Qed.

Lemma demo_agreed : phase_agreed (demo_master 2) (demo_phase 2).
Proof. by split. Qed.

Lemma distributed_results_equal_local_witness :
  exists remotes, mapM (collect_results (demo_master 2)) demo_services = Some remotes
    /\ same_results (generatePhaseResults (RemoteCPU [(0, 0); (0, 0)]) (re_stats <$> remotes))
         (generatePhaseResults (LocalCPU CPUUtil_new CPUUtil_new) (concat ((fun '(_, ws, _) => ws) <$> demo_services))).
Proof.
  apply (distributed_results_equal_local (demo_master 2) demo_services).
  assert (cpu_value CPUUtil_new <> None) as Hcpu by (vm_compute; discriminate).
  assert (forall t, 0 <= t < 1000000 -> is_u64 t /\ lat_ok t) as Hsmall by (unfold is_u64, lat_ok; lia).
  repeat apply Forall_cons_2; try apply Forall_nil_2; (split; [exact demo_agreed|]; split; [|by split]);
    repeat apply Forall_cons_2; try apply Forall_nil_2; apply demo_worker_done.
  all: try done; repeat apply Forall_cons_2; try apply Forall_nil_2; try (apply Hsmall; lia); try (split_and!; cbn; lia).
Defined.

Example demo_results :
  (fun r => (pr_firstFinishUSec r, pr_lastFinishUSec r, ps_opsTotal (pr_sums r), pr_opsPerSec r))
    <$> generatePhaseResults (LocalCPU CPUUtil_new CPUUtil_new) (concat ((fun '(_, ws, _) => ws) <$> demo_services))
  = Some (1000, 2000, mkLiveOps 0 16384 4, Some (mkLiveOps 0 8192000 2000)).
Proof. vm_compute. reflexivity. Qed.

(** ** Further properties *)

(** Each round waits at least as long as the arguments allow at all, and never longer than that. *)
Lemma refresh_interval start svcUpdate liveSleep last :
  0 <= start <= last -> 0 <= svcUpdate -> 0 <= liveSleep ->
  let maxInterval := Z.min svcUpdate (liveSleep / 2) in
  last + Z.min 25 maxInterval * 1000000 <= calcNextRefreshTime start svcUpdate liveSleep last <= last + maxInterval * 1000000.
Proof.
  intros Hs Hu Hl. unfold calcNextRefreshTime. cbv zeta. set (mx := Z.min svcUpdate (liveSleep / 2)). set (i := u32 _). clearbody mx i.
  destruct (Z.ltb_spec i 25); [destruct (Z.ltb_spec mx 25)|destruct (Z.ltb_spec mx i)]; lia.
Qed.

(** The differences that are shown of a worker add up to what it has done. *)
Lemma diff_stats_exact w delta :
  ops_ok delta -> st_ops w = LiveOps_getAndAddOps delta (st_oldOps w) ->
  (getAndResetDiffStats w).1.1 = delta /\ st_oldOps (getAndResetDiffStats w).2 = st_ops w.
Proof. intros Hd Hw. unfold getAndResetDiffStats. cbn. rewrite Hw. by rewrite live_ops_interval_exact. Qed.
