(* ===== verification/AsyncEngine.v ===== *)
(** The asynchronous read/write engines of a worker (workers/LocalWorker.cpp): [aioBlockSized()] on
    libaio and [spdkAioBlockSized()] on SPDK.

    Both keep up to [ioDepth] requests in flight.  They share the stack of free slots, the single
    deferred draw of journaled I/O and the two loops; they differ in how a request is issued and
    its completion is checked.  The common part is written once, over the interface
    [AsyncEngine]; [aio_engine] and [spdk_engine] are its two instances.  The kernel and the SPDK
    client are parameters ([AioKernel], [SpdkClient]).

    The state [AsyncState] extends the state of the synchronous engine by the vectors that are
    indexed by slot.  The buffer and the journal context of the slot at hand are loaded into the
    fields [rw_buf] and [rw_slot] of that state (the code points [activeJournalIO] at the slot). *)

From S2P Require Import Prelude Common Effects CppStrings RandAlgo BlockSizeMix OffsetGen Journal Integrity.
From S2P Require Import LatencyHistogram LiveOps RWLoop.

#[local] Open Scope list_scope.
#[local] Open Scope Z_scope.

(** ** Definitions *)

(** Conversion of a 64-bit number to [int] and to [int64_t]. *)
Definition s32 (z : Z) : Z := let m := u32 z in if m <? 2147483648 then m else m - 4294967296.
Definition s64 (z : Z) : Z := let m := u64 z in if m <? 9223372036854775808 then m else m - 18446744073709551616.

Inductive SubmitRes : Type := SubmitRes_SUBMITTED | SubmitRes_SKIPPED | SubmitRes_DEFERRED.

Section engine.
Context {R D G W Q : Type} `{!RandAlgo R, !RandAlgo D, !OffsetGenerator R D G}.
#[local] Abbreviation rwst := (RWState (R := R) (D := D) (G := G) (W := W)).
#[local] Abbreviation args_t := (RWArgs (R := R)).

(** [as_free] is [asyncFreeSlots] with its back as the head.  [as_slots] are the journal contexts
    with the index of their journal; there are none without journaling. *)
Record AsyncState : Type := mkAsync {
  as_rw : rwst;
  as_bufs : list (list Z);
  as_slots : list (JournalBlockIO * Z);
  as_reqs : list Q;
  as_startT : list (option Z);
  as_free : list nat;
  as_pendingDraw : option (Z * Z);
  as_numPending : nat;
  as_numBytesDone : Z;
}.

Definition upd_rw (f : rwst -> rwst) (s : AsyncState) : AsyncState :=
  mkAsync (f (as_rw s)) (as_bufs s) (as_slots s) (as_reqs s) (as_startT s) (as_free s) (as_pendingDraw s)
    (as_numPending s) (as_numBytesDone s).
Definition set_request (i : nat) (q : Q) (s : AsyncState) : AsyncState :=
  mkAsync (as_rw s) (as_bufs s) (as_slots s) (<[i := q]> (as_reqs s)) (as_startT s) (as_free s) (as_pendingDraw s)
    (as_numPending s) (as_numBytesDone s).
Definition set_startT (v : list (option Z)) (s : AsyncState) : AsyncState :=
  mkAsync (as_rw s) (as_bufs s) (as_slots s) (as_reqs s) v (as_free s) (as_pendingDraw s) (as_numPending s)
    (as_numBytesDone s).
Definition set_pendingDraw (d : option (Z * Z)) (s : AsyncState) : AsyncState :=
  mkAsync (as_rw s) (as_bufs s) (as_slots s) (as_reqs s) (as_startT s) (as_free s) d (as_numPending s)
    (as_numBytesDone s).
Definition set_free (free : list nat) (numPending : nat) (s : AsyncState) : AsyncState :=
  mkAsync (as_rw s) (as_bufs s) (as_slots s) (as_reqs s) (as_startT s) free (as_pendingDraw s) numPending
    (as_numBytesDone s).
Definition add_bytesDone (n : Z) (s : AsyncState) : AsyncState :=
  mkAsync (as_rw s) (as_bufs s) (as_slots s) (as_reqs s) (as_startT s) (as_free s) (as_pendingDraw s) (as_numPending s)
    (as_numBytesDone s +₆₄ n).
Definition set_slot_buf (i : nat) (bytes : list Z) (s : AsyncState) : AsyncState :=
  mkAsync (as_rw s) (alter (overwrite bytes) i (as_bufs s)) (as_slots s) (as_reqs s) (as_startT s) (as_free s)
    (as_pendingDraw s) (as_numPending s) (as_numBytesDone s).
Definition set_slot_journal (i : nat) (fileIdx : Z) (s : AsyncState) : AsyncState :=
  mkAsync (as_rw s) (as_bufs s) (alter (fun p => (p.1, fileIdx)) i (as_slots s)) (as_reqs s) (as_startT s) (as_free s)
    (as_pendingDraw s) (as_numPending s) (as_numBytesDone s).

Definition as_world (s : AsyncState) : W := rw_world (as_rw s).
Definition put_world (w : W) (s : AsyncState) : AsyncState := upd_rw (fun rw => set_world rw w) s.

#[local] Abbreviation act := (eff AsyncState).

(** *** Work on one slot *)

Definition load_slot (i : nat) (buf : list Z) (s : AsyncState) : rwst :=
  let rw := set_buf (as_rw s) buf (rw_blockVar (as_rw s)) in
  match as_slots s !! i with
  | Some (slot, _) => set_journal rw slot (rw_guardsHeld rw) (rw_journals rw) (rw_locks rw)
  | None => rw
  end.

Definition store_slot (i : nat) (s : AsyncState) (rw : rwst) : AsyncState :=
  mkAsync rw (<[i := rw_buf rw]> (as_bufs s)) (alter (fun p => (rw_slot rw, p.2)) i (as_slots s)) (as_reqs s)
    (as_startT s) (as_free s) (as_pendingDraw s) (as_numPending s) (as_numBytesDone s).

(** Runs [m] with the buffer and the journal context of slot [i]. *)
Definition with_slot {A} (i : nat) (m : rwst -> option (result A * rwst)) : act A := fun s =>
  buf ← as_bufs s !! i;
  '(r, rw) ← m (load_slot i buf s);
  Some (r, store_slot i s rw).

Definition slot_journal (i : nat) (s : AsyncState) : Z := default 0 (snd <$> as_slots s !! i).

(** [journalBeginIO(slotIdx, ...)]. *)
Definition slot_beginIO (args : args_t) (i : nat) (fileIdx off len : Z) (intent : Intent) : act Action :=
  a ← with_slot i (fun rw =>
        r ← journalBeginIO args fileIdx off len intent rw;
        Some (match r with Ok (a, rw') => (Ok a, rw') | Throw e => (Throw e, rw) end));
  eff_modify (set_slot_journal i fileIdx);; mret a.

(** [journalCommitIO(slotIdx)]. *)
Definition slot_commitIO (args : args_t) (i : nat) : act unit :=
  fileIdx ← eff_get (slot_journal i);
  with_slot i (fun rw =>
    r ← journalCommitIO args fileIdx rw;
    Some (match r with Ok rw' => (Ok tt, rw') | Throw e => (Throw e, rw) end)).

(** [funcPreWriteBlockModifier] and [funcPostReadBlockChecker] on the buffer of a slot. *)
Definition slot_modify (args : args_t) (i : nat) (fileIdx len off : Z) : act unit :=
  with_slot i (fun rw => rw' ← pre_write_modify args fileIdx len off rw; Some (Ok tt, rw')).

Definition slot_verify (args : args_t) (i : nat) (len off : Z) : act unit :=
  fileIdx ← eff_get (slot_journal i);
  with_slot i (fun rw => r ← post_read_check args fileIdx len off rw; Some (r, rw)).

(** The destructor of [JournalSlotsReleaser]. *)
Fixpoint release_slots (slots : list (JournalBlockIO * Z)) (t : lock_table) : list (JournalBlockIO * Z) * lock_table :=
  match slots with
  | [] => ([], t)
  | (io, f) :: slots =>
      let '(io, t) := JournalBlockIO_release io t in
      let '(slots, t) := release_slots slots t in
      ((io, f) :: slots, t)
  end.

Definition async_slots_release (s : AsyncState) : AsyncState :=
  let '(slots, t) := release_slots (as_slots s) (rw_locks (as_rw s)) in
  let rw := as_rw s in
  mkAsync (set_journal rw (rw_slot rw) 0 (rw_journals rw) t) (as_bufs s) slots (as_reqs s) (as_startT s) (as_free s)
    (as_pendingDraw s) (as_numPending s) (as_numBytesDone s).

(** [initAsyncIOSlots()]: the number of slots. *)
Definition initAsyncIOSlots (ioDepth : Z) : nat := Z.to_nat (Z.max ioDepth 1).

(** [resetAsyncIOSlots()] for [numSlots = asyncFreeSlots.size()]: slot 0 is at the back. *)
Definition resetAsyncIOSlots (numSlots : nat) (s : AsyncState) : AsyncState :=
  set_pendingDraw None (set_free (seq 0 numSlots) (as_numPending s) s).

(** The start of a call: the local counters are zero. *)
Definition async_call_start (numSlots : nat) (s : AsyncState) : AsyncState :=
  let s := resetAsyncIOSlots numSlots s in
  mkAsync (as_rw s) (as_bufs s) (as_slots s) (as_reqs s) (as_startT s) (as_free s) (as_pendingDraw s) 0 0.

(** *** The interface of an engine

    [eng_issue args slot file offset size action] issues the request that the journal (if any)
    has decided on.  [eng_wait] gives the completions, none after a timeout.  [eng_check] looks at
    the result of a completion, [Some] value is returned at once.  [eng_account] does the statistics. *)
Class AsyncEngine (C : Type) : Type := {
  eng_issue : args_t -> nat -> Z -> Z -> Z -> option Action -> act unit;
  eng_wait : act (list C);
  eng_slot : C -> nat;
  eng_check : args_t -> C -> act (option Z);
  eng_account : args_t -> C -> act unit;
  eng_interrupted : W -> bool;
}.

(** *** The loops *)

Section loops.
Context {C : Type} `{!AsyncEngine C}.

Definition checkInterruptionRequest : act unit :=
  w ← eff_get as_world;
  if eng_interrupted w
  then eff_throw (WorkerInterruptedException "Received friendly request to interrupt execution.") else mret tt.

(** The next offset and block size of the generator. *)
Definition draw_next : act (Z * Z) := fun s =>
  '(off, (g, e)) ← getNextOffset (rw_gen (as_rw s)) (rw_env (as_rw s));
  '(size, e) ← getNextBlockSizeToSubmit g e;
  Some (Ok (off, size), upd_rw (fun rw => set_gen rw g e) s).

(** With a journal, a deferred draw is used before a new one is made. *)
Definition next_draw (args : args_t) : act (Z * Z) :=
  if negb (ra_journalEnabled args) then draw_next
  else
    pending ← eff_get as_pendingDraw;
    match pending with
    | Some d => mret d
    | None => d ← draw_next; eff_modify (set_pendingDraw (Some d));; mret d
    end.

(** [numIOPSSubmitted++; rwOffsetGen->addBytesSubmitted(blockSize);] *)
Definition count_submitted (blockSize : Z) : act unit :=
  eff_modify (upd_rw (fun rw =>
    set_gen (set_iops rw (numIOPSSubmitted rw +₆₄ 1)) (addBytesSubmitted blockSize (rw_gen rw)) (rw_env rw))).

Definition submit_decided (args : args_t) (i : nat) (fileIdx off blockSize : Z) (action : option Action)
    : act SubmitRes :=
  eng_issue args i fileIdx off blockSize action;;
  count_submitted blockSize;; mret SubmitRes_SUBMITTED.

Definition trySubmitSlot (args : args_t) (i : nat) : act SubmitRes :=
  '(next, blockSize) ← next_draw args;
  let '(fileIdx, off) :=
    calcFileIdxAndOffsetStriped next (ra_fileSize args) (ra_fileOffsetBase args) (ra_isSingleFile args) in
  if ra_journalEnabled args then
    iops ← eff_get (fun s => numIOPSSubmitted (as_rw s));
    action ← slot_beginIO args i fileIdx off blockSize
      (journalGetIntent (ra_benchPhase args) (ra_globalBenchPhase args) (ra_workerRank args) iops (ra_rwMixReadPercent args));
    match action with
    | ACTION_DEFER => mret SubmitRes_DEFERRED
    | ACTION_SKIP => eff_modify (set_pendingDraw None);; count_submitted blockSize;; mret SubmitRes_SKIPPED
    | _ => eff_modify (set_pendingDraw None);; submit_decided args i fileIdx off blockSize (Some action)
    end
  else submit_decided args i fileIdx off blockSize None.

Fixpoint fillIdleSlots (fuel : nat) (args : args_t) : act unit := fun s =>
  match as_free s with
  | [] => Some (Ok tt, s)
  | i :: _ =>
      if getNumBytesLeftToSubmit (rw_gen (as_rw s)) =? 0 then Some (Ok tt, s)
      else
        match fuel with
        | O => None
        | S fuel =>
            (res ← trySubmitSlot args i;
             match res with
             | SubmitRes_SKIPPED => fillIdleSlots fuel args
             | SubmitRes_DEFERRED => mret tt
             | SubmitRes_SUBMITTED =>
                 eff_modify (fun s => set_free (tail (as_free s)) (S (as_numPending s)) s);; fillIdleSlots fuel args
             end) s
        end
  end.

(** One completion; [Some rc]: the function returns [rc]. *)
Definition process_completion (args : args_t) (c : C) : act (option Z) :=
  early ← eng_check args c;
  match early with
  | Some rc => mret (Some rc)
  | None =>
      eff_modify (fun s => set_free (eng_slot c :: as_free s) (pred (as_numPending s)) s);;
      eff_when (ra_journalEnabled args) (slot_commitIO args (eng_slot c));;
      eng_account args c;;
      checkInterruptionRequest;;
      mret None
  end.

Fixpoint process_completions (args : args_t) (cs : list C) : act (option Z) :=
  match cs with
  | [] => mret None
  | c :: cs =>
      early ← process_completion args c;
      match early with Some rc => mret (Some rc) | None => process_completions args cs end
  end.

(** The loop until no request is pending; [fillFuel] bounds each [fillIdleSlots()]. *)
Fixpoint completion_loop (fuel fillFuel : nat) (args : args_t) : act Z := fun s =>
  match as_numPending s with
  | O => Some (Ok (getNumBytesTotal (rw_gen (as_rw s))), s)
  | S _ =>
      match fuel with
      | O => None
      | S fuel =>
          (cs ← eng_wait;
           match cs with
           | [] => checkInterruptionRequest;; completion_loop fuel fillFuel args
           | _ =>
               early ← process_completions args cs;
               match early with
               | Some rc => mret rc
               | None => fillIdleSlots fillFuel args;; completion_loop fuel fillFuel args
               end
           end) s
      end
  end.

(** The whole engine. *)
Definition asyncBlockSized (fuel fillFuel numSlots : nat) (args : args_t) : act Z :=
  eff_finally
    (eff_modify (async_call_start numSlots);;
     fillIdleSlots fillFuel args;;
     completion_loop fuel fillFuel args)
    async_slots_release.
End loops.

(** *** Statistics of a completed request *)

(** Without a valid start time (the rate limiter had to wait) the latency is not counted. *)
Definition account_async (isRWMixRead : bool) (bytes now : Z) (start : option Z) (rw : rwst) : rwst :=
  match start with
  | Some t => account_io isRWMixRead bytes (u64 (now - t)) rw
  | None =>
      if isRWMixRead then
        set_stats rw (iopsLatHisto rw) (iopsLatHistoReadMix rw) (atomicLiveOps rw)
          (LiveOps_add_io bytes (atomicLiveOpsReadMix rw))
      else
        set_stats rw (iopsLatHisto rw) (iopsLatHistoReadMix rw) (LiveOps_add_io bytes (atomicLiveOps rw))
          (atomicLiveOpsReadMix rw)
  end.
End engine.
Arguments AsyncState : clear implicits.
Arguments AsyncEngine R D G W Q C : clear implicits.

(** ** libaio *)

(** A request: the fields of the [iocb] that are used (the buffer is the one of its slot). *)
Record iocb : Type := mkIocb { cb_isRead : bool; cb_fileIdx : Z; cb_nbytes : Z; cb_offset : Z }.

(** An event: the slot ([data]), the two results, and the bytes that a read has put in the buffer. *)
Record io_event : Type := mkEvent { ev_slot : nat; ev_res : Z; ev_res2 : Z; ev_bytes : list Z }.

Record AioKernel (W : Type) : Type := mkKernel {
  k_now : W -> Z * W;
  k_ratelimit : RWRateLimiter -> Z -> W -> result (bool * W);
  k_flock : Z -> Z -> Z -> bool -> bool -> W -> result W;
  k_submit : nat -> iocb -> list Z -> W -> Z * W;
  k_getevents : W -> Z * list io_event * W;
  k_interrupted : W -> bool;
}.
Arguments k_now {_} _ _.
Arguments k_ratelimit {_} _ _ _ _.
Arguments k_flock {_} _ _ _ _ _ _ _.
Arguments k_submit {_} _ _ _ _ _.
Arguments k_getevents {_} _ _.
Arguments k_interrupted {_} _ _.

(** The condition of [aioRWMixPrepper()] for a read. *)
Definition aioRWMixPrepper_isRead (workerRank numIOPSSubmitted rwMixReadPercent : Z) : bool :=
  negb (rwMixReadPercent <=? (workerRank +₆₄ numIOPSSubmitted) `mod` 100).

Section libaio.
Context {R D G W : Type} `{!RandAlgo R, !RandAlgo D, !OffsetGenerator R D G} (K : AioKernel W).
#[local] Abbreviation args_t := (RWArgs (R := R)).
#[local] Abbreviation act := (eff (AsyncState R D G W iocb)).

(** The preppers choose the operation of a request. *)
Definition prepper_isRead (args : args_t) (i : nat) (s : AsyncState R D G W iocb) : option bool :=
  match funcAioRwPrepper (ra_funcs args) with
  | Some aioWritePrepper => Some false
  | Some aioReadPrepper => Some true
  | Some aioRWMixPrepper =>
      Some (aioRWMixPrepper_isRead (ra_workerRank args) (numIOPSSubmitted (as_rw s)) (ra_rwMixReadPercent args))
  | Some aioJournalPrepper =>
      '(slot, _) ← as_slots s !! i;
      Some (match io_action slot with ACTION_WRITE => false | _ => true end)
  | None => None
  end.

Definition aio_flock (fileIdx off len : Z) (isWrite isUnlock : bool) : act unit :=
  w ← eff_get as_world;
  w ← eff_result (k_flock K fileIdx off len isWrite isUnlock w);
  eff_modify (put_world w).

Definition aio_now : act Z :=
  w ← eff_get as_world;
  let '(t, w) := k_now K w in
  eff_modify (put_world w);; mret t.

(** The rate limiter; a wait invalidates the start times of all requests. *)
Definition aio_ratelimit (args : args_t) (blockSize : Z) : act unit :=
  w ← eff_get as_world;
  '(hadToWait, w) ← eff_result (k_ratelimit K (funcRWRateLimiter (ra_funcs args)) blockSize w);
  eff_modify (put_world w);;
  eff_when hadToWait (eff_modify (fun s => set_startT (const None <$> as_startT s) s)).

Definition aio_submit (i : nat) (q : iocb) : act Z :=
  s ← eff_get id;
  buf ← eff_some (as_bufs s !! i);
  let '(rc, w) := k_submit K i q (take (Z.to_nat (cb_nbytes q)) buf) (as_world s) in
  eff_modify (put_world w);; mret rc.

Definition aio_issue (args : args_t) (i : nat) (fileIdx off blockSize : Z) (action : option Action) : act unit :=
  s ← eff_get id;
  isRead ← eff_some (prepper_isRead args i s);
  let q := mkIocb isRead fileIdx blockSize off in
  eff_modify (set_request i q);;
  t ← aio_now;
  eff_modify (fun s => set_startT (<[i := Some t]> (as_startT s)) s);;
  aio_ratelimit args blockSize;;
  slot_modify args i fileIdx blockSize off;;
  aio_flock fileIdx off blockSize (negb isRead) false;;
  rc ← aio_submit i q;
  if negb (rc =? 1) then
    aio_flock fileIdx off blockSize true true;;
    eff_throw (WorkerException "Async IO submission (io_submit) failed. ")
  else mret tt.

Definition aio_wait : act (list io_event) :=
  w ← eff_get as_world;
  let '(n, evs, w) := k_getevents K w in
  eff_modify (put_world w);;
  if n =? 0 then mret []
  else if n <? 0 then eff_throw (WorkerException "Getting async IO events (io_getevents) failed. ")
  else mret (take (Z.to_nat n) evs).

Definition aio_check (args : args_t) (ev : io_event) : act (option Z) :=
  s ← eff_get id;
  q ← eff_some (as_reqs s !! ev_slot ev);
  eff_when (cb_isRead q) (eff_modify (set_slot_buf (ev_slot ev) (ev_bytes ev)));;
  if truthy (ev_res2 ev) || negb (ev_res ev =? cb_nbytes q) then
    if truthy (ev_res2 ev) then eff_throw (WorkerException "Async IO framework error. ")
    else
      aio_flock (cb_fileIdx q) (cb_offset q) (cb_nbytes q) true true;;
      if s32 (ev_res ev) <? 0 then mret (Some (-1))
      else done ← eff_get as_numBytesDone; mret (Some (s64 (done + ev_res ev)))
  else
    aio_flock (cb_fileIdx q) (cb_offset q) (cb_nbytes q) true true;;
    slot_verify args (ev_slot ev) (cb_nbytes q) (cb_offset q);;
    mret None.

Definition aio_account (args : args_t) (ev : io_event) : act unit :=
  s ← eff_get id;
  q ← eff_some (as_reqs s !! ev_slot ev);
  start ← eff_some (as_startT s !! ev_slot ev);
  t ← aio_now;
  eff_modify (add_bytesDone (ev_res ev));;
  eff_modify (upd_rw (account_async
    (cb_isRead q && bool_decide (ra_globalBenchPhase args = BenchPhase_CREATEFILES)) (ev_res ev) t start)).

#[global] Instance aio_engine : AsyncEngine R D G W iocb io_event := {|
  eng_issue := aio_issue;
  eng_wait := aio_wait;
  eng_slot := ev_slot;
  eng_check := aio_check;
  eng_account := aio_account;
  eng_interrupted := k_interrupted K;
|}.

Definition aioBlockSized (fuel fillFuel numSlots : nat) (args : args_t) : act Z :=
  asyncBlockSized (C := io_event) fuel fillFuel numSlots args.
End libaio.

(** ** SPDK *)

(** The context of a request with the two per-slot flags of the engine. *)
Record spdk_request : Type := mkSpdkReq {
  sq_isRead : bool; sq_isRWMixRead : bool; sq_fileIdx : Z; sq_lba : Z; sq_lbaCount : Z;
}.

(** A completed context: its slot, [ioSuccess], and what a read has put in the buffer. *)
Record spdk_completion : Type := mkSpdkDone { sd_slot : nat; sd_success : bool; sd_bytes : list Z }.

Record SpdkClient (W : Type) : Type := mkSpdkClient {
  sp_sectorSize : Z;
  sp_now : W -> Z * W;
  sp_ratelimit : RWRateLimiter -> Z -> W -> result (bool * W);
  sp_submit : nat -> spdk_request -> list Z -> W -> Z * W;
  sp_waitForCompletions : W -> list spdk_completion * W;
  sp_interrupted : W -> bool;
}.
Arguments sp_sectorSize {_} _.
Arguments sp_now {_} _ _.
Arguments sp_ratelimit {_} _ _ _ _.
Arguments sp_submit {_} _ _ _ _ _.
Arguments sp_waitForCompletions {_} _ _.
Arguments sp_interrupted {_} _ _.

Section spdk.
Context {R D G W : Type} `{!RandAlgo R, !RandAlgo D, !OffsetGenerator R D G} (P : SpdkClient W).
#[local] Abbreviation args_t := (RWArgs (R := R)).
#[local] Abbreviation act := (eff (AsyncState R D G W spdk_request)).

Definition isNextOpARead (args : args_t) (numIOPSSubmitted : Z) : bool :=
  if decide (ra_benchPhase args = BenchPhase_READFILES) then true
  else is_rwmix_read (ra_workerRank args) numIOPSSubmitted (ra_rwMixReadPercent args).

Definition spdk_now : act Z :=
  w ← eff_get as_world;
  let '(t, w) := sp_now P w in
  eff_modify (put_world w);; mret t.

Definition spdk_ratelimit (args : args_t) (blockSize : Z) : act unit :=
  w ← eff_get as_world;
  '(hadToWait, w) ← eff_result (sp_ratelimit P (funcRWRateLimiter (ra_funcs args)) blockSize w);
  eff_modify (put_world w);;
  eff_when hadToWait (eff_modify (fun s => set_startT (const None <$> as_startT s) s)).

Definition spdk_submit (i : nat) (q : spdk_request) : act Z :=
  s ← eff_get id;
  buf ← eff_some (as_bufs s !! i);
  let '(rc, w) := sp_submit P i q buf (as_world s) in
  eff_modify (put_world w);; mret rc.

Definition spdk_issue (args : args_t) (i : nat) (fileIdx off blockSize : Z) (action : option Action) : act unit :=
  iops ← eff_get (fun s => numIOPSSubmitted (as_rw s));
  let isRead := match action with
                | None => isNextOpARead args iops
                | Some ACTION_READ => true
                | Some _ => false
                end in
  let q := mkSpdkReq isRead (isRead && bool_decide (ra_globalBenchPhase args = BenchPhase_CREATEFILES)) fileIdx
             (off / sp_sectorSize P) (u32 (blockSize / sp_sectorSize P)) in
  eff_modify (set_request i q);;
  t ← spdk_now;
  eff_modify (fun s => set_startT (<[i := Some t]> (as_startT s)) s);;
  spdk_ratelimit args blockSize;;
  eff_when (negb isRead) (slot_modify args i fileIdx blockSize off);;
  rc ← spdk_submit i q;
  if negb (rc =? 0) then eff_throw (WorkerException "Async SPDK IO submission failed. ") else mret tt.

Definition spdk_wait : act (list spdk_completion) :=
  w ← eff_get as_world;
  let '(cs, w) := sp_waitForCompletions P w in
  eff_modify (put_world w);; mret cs.

(** [ioCtx->lbaCount * sectorSize] is a product of 32-bit numbers. *)
Definition spdk_blockSize (q : spdk_request) : Z := u32 (sq_lbaCount q * sp_sectorSize P).

Definition spdk_check (args : args_t) (c : spdk_completion) : act (option Z) :=
  s ← eff_get id;
  q ← eff_some (as_reqs s !! sd_slot c);
  eff_when (sq_isRead q) (eff_modify (set_slot_buf (sd_slot c) (sd_bytes c)));;
  if negb (sd_success c) then
    mret (Some (if truthy (as_numBytesDone s) then s64 (as_numBytesDone s) else -1))
  else
    eff_when (sq_isRead q) (slot_verify args (sd_slot c) (spdk_blockSize q) (sq_lba q *₆₄ sp_sectorSize P));;
    mret None.

Definition spdk_account (args : args_t) (c : spdk_completion) : act unit :=
  s ← eff_get id;
  q ← eff_some (as_reqs s !! sd_slot c);
  start ← eff_some (as_startT s !! sd_slot c);
  t ← spdk_now;
  eff_modify (upd_rw (account_async (sq_isRWMixRead q) (spdk_blockSize q) t start));;
  eff_modify (add_bytesDone (spdk_blockSize q)).

#[global] Instance spdk_engine : AsyncEngine R D G W spdk_request spdk_completion := {|
  eng_issue := spdk_issue;
  eng_wait := spdk_wait;
  eng_slot := sd_slot;
  eng_check := spdk_check;
  eng_account := spdk_account;
  eng_interrupted := sp_interrupted P;
|}.

Definition spdkAioBlockSized (fuel fillFuel numSlots : nat) (args : args_t) : act Z :=
  asyncBlockSized (C := spdk_completion) fuel fillFuel numSlots args.
End spdk.
