(* ===== verification/AsyncTheory.v ===== *)
(** What the asynchronous engines of AsyncEngine.v do with the draws of the offset generator, for
    every engine that keeps [EngineLaws]: slots are never shared, no draw is lost or submitted
    twice (also when the journal defers it), and a call that returns normally has submitted all
    bytes.  Both engines keep the laws when the kernel and the SPDK client report each request once. *)

From S2P Require Import Prelude Common Effects CppStrings RandAlgo BlockSizeMix OffsetGen Journal Integrity.
From S2P Require Import LatencyHistogram LiveOps RWLoop AsyncEngine.

#[local] Open Scope list_scope.
#[local] Open Scope Z_scope.

(** ** Laws of an engine *)

Section laws.
Context {R D G W Q C : Type} {HR : RandAlgo R} {HD : RandAlgo D} {HG : OffsetGenerator R D G}.
#[local] Abbreviation state := (AsyncState R D G W Q).

(** What the loops decide on; an engine does not touch it. *)
Definition control (s : state) :=
  (rw_gen (as_rw s), rw_env (as_rw s), numIOPSSubmitted (as_rw s), rw_guardsHeld (as_rw s), as_free s, as_pendingDraw s,
   as_numPending s).

(** The statistics: bytes and I/Os of the write and of the read counter together. *)
Definition counted_bytes (s : state) : Z :=
  numBytesDone (atomicLiveOps (as_rw s)) + numBytesDone (atomicLiveOpsReadMix (as_rw s)).
Definition counted_ios (s : state) : Z :=
  numIOPSDone (atomicLiveOps (as_rw s)) + numIOPSDone (atomicLiveOpsReadMix (as_rw s)).

Definition stats (s : state) : Z * Z := (counted_bytes s, counted_ios s).

(** Requests, log and decisions stay. *)
Definition quiet (inflight log : W -> list (nat * Q)) (s s' : state) : Prop :=
  control s' = control s /\ as_reqs s' = as_reqs s
  /\ inflight (as_world s') = inflight (as_world s) /\ log (as_world s') = log (as_world s).

(** [eng_inflight]: the slots with a request in flight.  [eng_log]: all requests issued so far.
    [eng_describes file offset size q]: [q] is a request for that access.  [eng_bytes q]: the bytes
    that are counted for it.  [eng_verified c q]: the completion [c] has passed the check. *)
Class EngineLaws {HE : AsyncEngine R D G W Q C} : Type := {
  eng_inflight : W -> list (nat * Q);
  eng_log : W -> list (nat * Q);
  eng_describes : Z -> Z -> Z -> Q -> Prop;
  eng_bytes : Q -> Z;
  eng_verified : C -> Q -> Prop;
  eng_issue_law args i f off n a s :
    (i ∉ (eng_inflight (as_world s)).*1) ->
    wpp (eng_issue args i f off n a) s
      (post (fun _ s' => control s' = control s /\ stats s' = stats s
               /\ exists q, eng_describes f off n q /\ as_reqs s' = <[i := q]> (as_reqs s)
                    /\ eng_inflight (as_world s') ≡ₚ (i, q) :: eng_inflight (as_world s)
                    /\ eng_log (as_world s') = eng_log (as_world s) ++ [(i, q)])
            (fun _ _ => True));
  eng_wait_law s :
    wpp eng_wait s
      (post (fun cs s' => control s' = control s /\ stats s' = stats s /\ as_reqs s' = as_reqs s
               /\ eng_log (as_world s') = eng_log (as_world s)
               /\ exists rs, Forall2 (fun c r => r.1 = eng_slot c) cs rs
                    /\ eng_inflight (as_world s) ≡ₚ rs ++ eng_inflight (as_world s'))
            (fun _ _ => True));
  eng_check_law args c q s :
    as_reqs s !! eng_slot c = Some q ->
    wpp (eng_check args c) s
      (post (fun early s' => quiet eng_inflight eng_log s s' /\ stats s' = stats s /\ (early = None -> eng_verified c q)) (fun _ _ => True));
  eng_account_law args c q s :
    as_reqs s !! eng_slot c = Some q -> eng_verified c q ->
    wpp (eng_account args c) s
      (post (fun _ s' => quiet eng_inflight eng_log s s' /\ u64 (counted_bytes s') = u64 (counted_bytes s + eng_bytes q)
                         /\ u64 (counted_ios s') = u64 (counted_ios s + 1)) (fun _ _ => True));
}.
End laws.

(** ** The loops *)

Section theory.
Context {R D G W Q C : Type} {HR : RandAlgo R} {HD : RandAlgo D} {HG : OffsetGenerator R D G}.
Context {HE : AsyncEngine R D G W Q C} {HL : EngineLaws (C := C)}.
#[local] Abbreviation state := (AsyncState R D G W Q).
#[local] Abbreviation args_t := (RWArgs (R := R)).

#[local] Abbreviation inflight s := (eng_inflight (as_world s)).
#[local] Abbreviation log s := (eng_log (as_world s)).

(** One round of a client of the generator. *)
Definition draw (g : G) (e : Env R D) (off n : Z) (g' : G) (e' : Env R D) : Prop :=
  getNumBytesLeftToSubmit g <> 0 /\ exists g1 e1,
    getNextOffset g e = Some (off, (g1, e1)) /\ getNextBlockSizeToSubmit g1 e1 = Some (n, e')
    /\ g' = addBytesSubmitted n g1.

(** The generator is at [g], [e], apart from a draw that is kept for later. *)
Definition drawn (args : args_t) (s : state) (g : G) (e : Env R D) : Prop :=
  match as_pendingDraw s with
  | None => rw_gen (as_rw s) = g /\ rw_env (as_rw s) = e
  | Some (off, n) =>
      ra_journalEnabled args = true /\ getNumBytesLeftToSubmit g <> 0
      /\ exists e1, getNextOffset g e = Some (off, (rw_gen (as_rw s), e1))
                    /\ getNextBlockSizeToSubmit (rw_gen (as_rw s)) e1 = Some (n, rw_env (as_rw s))
  end.

(** The request [q] is for the access [io] of the generator. *)
Definition request_for (args : args_t) (io : Z * Z) (r : nat * Q) : Prop :=
  let '(f, off) := calcFileIdxAndOffsetStriped io.1 (ra_fileSize args) (ra_fileOffsetBase args) (ra_isSingleFile args) in
  eng_describes f off io.2 r.2.

(** A journal that may wait does not defer. *)
Lemma acquireRange_wait j first num ex t ok g t' : acquireRange j first num ex true t = Some (ok, g, t') -> ok = true.
Proof.
  unfold acquireRange. destruct (try_locks _ _ _ _) as [[ok' g'] t1]. destruct ok'; cbn; [|done]. by intros [= <- <- <-].
Qed.

Lemma claim_wait sys ps io j t a io' j' t' :
  claim_action (claimForWrite sys ps true io j t) = Some (Ok (a, io', j', t')) -> a = ACTION_WRITE.
Proof.
  unfold claim_action, claimForWrite. destruct (acquireRange _ _ _ _ _ _) as [[[ok g] t1]|] eqn:Ha; cbn; [|done].
  apply acquireRange_wait in Ha as ->. cbn [negb]. destruct (claim_cells _ _) as [[gens any] j1]. cbn.
  destruct (if any then _ else _) as [j2|]; cbn; [|done]. by intros [= <- <- <- <-].
Qed.

Lemma begin_defer sys ps off len intent mayBlock io j t io' j' t' :
  JournalBlockIO_begin sys ps off len intent mayBlock io j t = Some (Ok (ACTION_DEFER, io', j', t')) -> mayBlock = false.
Proof.
  destruct mayBlock; [|done]. unfold JournalBlockIO_begin. intros H. destruct intent; [by apply claim_wait in H|..].
  all: destruct (acquireRange _ _ _ _ _ _) as [[[ok g] t1]|] eqn:Ha; cbn [mbind option_bind] in H; [|done].
  all: apply acquireRange_wait in Ha as ->; cbn [negb] in H; destruct (existsb _ _); cbn [negb] in H; [|done].
  - destruct (forallb _ _), (guard_release g t1); done.
  - destruct (guard_release g t1). by apply claim_wait in H.
Qed.

Lemma journalBeginIO_spec (args : args_t) f off len intent (rw rw' : RWState (R := R) (D := D) (G := G) (W := W)) a :
  journalBeginIO args f off len intent rw = Some (Ok (a, rw')) ->
  rw_gen rw' = rw_gen rw /\ rw_env rw' = rw_env rw /\ numIOPSSubmitted rw' = numIOPSSubmitted rw
  /\ rw_world rw' = rw_world rw /\ atomicLiveOps rw' = atomicLiveOps rw /\ atomicLiveOpsReadMix rw' = atomicLiveOpsReadMix rw
  /\ rw_guardsHeld rw' = rw_guardsHeld rw + (match a with ACTION_READ | ACTION_WRITE => 1 | _ => 0 end)
  /\ (a = ACTION_DEFER -> rw_guardsHeld rw <> 0).
Proof.
  unfold journalBeginIO. intros H. destruct (rw_journals rw !! Z.to_nat f) as [j|]; [|done]. cbn in H.
  destruct (JournalBlockIO_begin _ _ _ _ _ _ _ _ _) as [[[[[a' io'] j'] t']|e]|] eqn:Hb; cbn in H; [|done..].
  injection H as <- <-. cbn. split_and!; try done.
  - destruct a'; lia.
  - intros ->. apply begin_defer in Hb. by apply Z.eqb_neq.
Qed.

Lemma wpp_with_slot {A} i (m : _ -> option (result A * _)) (s : state) (P : result A -> state -> Prop) :
  (forall buf r rw, as_bufs s !! i = Some buf -> m (load_slot i buf s) = Some (r, rw) -> P r (store_slot i s rw)) ->
  wpp (with_slot i m) s P.
Proof.
  intros H r s' Hm. unfold with_slot in Hm. destruct (as_bufs s !! i) as [buf|] eqn:Hb; [|done]. cbn in Hm.
  destruct (m _) as [[r1 rw]|] eqn:Em; [|done]. cbn in Hm. injection Hm as <- <-. by eapply H.
Qed.

Lemma load_slot_fields i buf (s : state) :
  let rw := load_slot i buf s in
  rw_gen rw = rw_gen (as_rw s) /\ rw_env rw = rw_env (as_rw s) /\ numIOPSSubmitted rw = numIOPSSubmitted (as_rw s)
  /\ rw_world rw = as_world s /\ rw_guardsHeld rw = rw_guardsHeld (as_rw s)
  /\ atomicLiveOps rw = atomicLiveOps (as_rw s) /\ atomicLiveOpsReadMix rw = atomicLiveOpsReadMix (as_rw s).
Proof. unfold load_slot. by destruct (as_slots s !! i) as [[]|]. Qed.

(** What [journalBeginIO()] on a slot changes. *)
Lemma slot_beginIO_spec (args : args_t) i f off len intent (s : state) :
  wpp (slot_beginIO args i f off len intent) s
    (post (fun a s' =>
       rw_gen (as_rw s') = rw_gen (as_rw s) /\ rw_env (as_rw s') = rw_env (as_rw s) /\ as_world s' = as_world s
       /\ as_free s' = as_free s /\ as_pendingDraw s' = as_pendingDraw s /\ as_numPending s' = as_numPending s
       /\ as_reqs s' = as_reqs s /\ stats s' = stats s
       /\ rw_guardsHeld (as_rw s') = rw_guardsHeld (as_rw s) + (match a with ACTION_READ | ACTION_WRITE => 1 | _ => 0 end)
       /\ (a = ACTION_DEFER -> rw_guardsHeld (as_rw s) <> 0)) (fun _ _ => True)).
Proof.
  unfold slot_beginIO. eff_step. apply wpp_with_slot. intros buf r rw _ Hm.
  pose proof (load_slot_fields i buf s) as (L1 & L2 & L3 & L4 & L5 & L6 & L7).
  destruct (journalBeginIO _ _ _ _ _ _) as [[[a rw']|e]|] eqn:Hb; cbn in Hm; [|by injection Hm as <- <-|done].
  injection Hm as <- <-. apply journalBeginIO_spec in Hb as (B1 & B2 & B3 & B4 & B8 & B9 & B5 & B6). cbn [post].
  eff_steps. unfold stats, counted_bytes, counted_ios. cbn. unfold as_world in *. cbn.
  rewrite B1, B2, B4, B5, B8, B9, L1, L2, L4, L5, L6, L7. split_and!; try done.
  intros Ha. rewrite <- L5. auto.
Qed.

(** The draw that a submission uses: a kept one or a new one. *)
Lemma next_draw_spec (args : args_t) (s : state) g e :
  drawn args s g e -> getNumBytesLeftToSubmit (rw_gen (as_rw s)) <> 0 ->
  wpp (next_draw args) s
    (post (fun d s' => exists e1, getNumBytesLeftToSubmit g <> 0
       /\ getNextOffset g e = Some (d.1, (rw_gen (as_rw s'), e1))
       /\ getNextBlockSizeToSubmit (rw_gen (as_rw s')) e1 = Some (d.2, rw_env (as_rw s'))
       /\ as_pendingDraw s' = (if ra_journalEnabled args then Some d else None)
       /\ as_world s' = as_world s /\ as_free s' = as_free s /\ as_numPending s' = as_numPending s
       /\ as_reqs s' = as_reqs s /\ stats s' = stats s
       /\ rw_guardsHeld (as_rw s') = rw_guardsHeld (as_rw s)) (fun _ _ => True)).
Proof.
  intros Hd Hl. unfold next_draw.
  assert (as_pendingDraw s = None -> wpp draw_next s (post (fun d s' => exists e1, getNumBytesLeftToSubmit g <> 0
       /\ getNextOffset g e = Some (d.1, (rw_gen (as_rw s'), e1))
       /\ getNextBlockSizeToSubmit (rw_gen (as_rw s')) e1 = Some (d.2, rw_env (as_rw s'))
       /\ as_pendingDraw s' = None
       /\ as_world s' = as_world s /\ as_free s' = as_free s /\ as_numPending s' = as_numPending s
       /\ as_reqs s' = as_reqs s /\ stats s' = stats s
       /\ rw_guardsHeld (as_rw s') = rw_guardsHeld (as_rw s)) (fun _ _ => True))) as Hnew.
  { intros Hp. unfold drawn in Hd. rewrite Hp in Hd. destruct Hd as [<- <-]. intros r s' Hm. unfold draw_next in Hm.
    destruct (getNextOffset _ _) as [[off [g1 e1]]|] eqn:Ho; [|done]. cbn in Hm.
    destruct (getNextBlockSizeToSubmit _ _) as [[n e2]|] eqn:Hn; [|done]. cbn in Hm. injection Hm as <- <-. cbn.
    exists e1. split_and!; done. }
  destruct (ra_journalEnabled args) eqn:Hj; cbn [negb].
  - eff_step. eff_step. destruct (as_pendingDraw s) as [[off n]|] eqn:Hp.
    + eff_step. unfold drawn in Hd. rewrite Hp in Hd. destruct Hd as (_ & Hlg & e1 & Ho & Hn). exists e1. by rewrite Hp.
    + eff_step. eapply wpp_mono; [by apply Hnew|]. intros [[off n]|] s1 H; cbn [post] in *; [|done].
      destruct H as (e1 & H). eff_steps. exists e1. cbn. tauto.
  - apply Hnew. unfold drawn in Hd. destruct (as_pendingDraw s) as [[]|]; [|done]. destruct Hd. congruence.
Qed.

(** The three results of a submission attempt. *)
Lemma trySubmitSlot_spec (args : args_t) i (s : state) g e :
  drawn args s g e -> getNumBytesLeftToSubmit (rw_gen (as_rw s)) <> 0 -> (i ∉ (inflight s).*1) ->
  wpp (trySubmitSlot args i) s
    (post (fun res s' => as_free s' = as_free s /\ as_numPending s' = as_numPending s /\ stats s' = stats s
       /\ match res with
          | SubmitRes_DEFERRED =>
              ra_journalEnabled args = true /\ rw_guardsHeld (as_rw s) <> 0
              /\ rw_guardsHeld (as_rw s') = rw_guardsHeld (as_rw s)
              /\ as_world s' = as_world s /\ as_reqs s' = as_reqs s /\ drawn args s' g e
          | SubmitRes_SKIPPED =>
              ra_journalEnabled args = true /\ rw_guardsHeld (as_rw s') = rw_guardsHeld (as_rw s)
              /\ as_world s' = as_world s /\ as_reqs s' = as_reqs s
              /\ exists off n g' e', draw g e off n g' e' /\ drawn args s' g' e'
          | SubmitRes_SUBMITTED =>
              rw_guardsHeld (as_rw s') = rw_guardsHeld (as_rw s) + (if ra_journalEnabled args then 1 else 0)
              /\ exists off n g' e' q, draw g e off n g' e' /\ drawn args s' g' e'
                   /\ inflight s' ≡ₚ (i, q) :: inflight s /\ as_reqs s' = <[i := q]> (as_reqs s)
                   /\ log s' = log s ++ [(i, q)] /\ request_for args (off, n) (i, q)
          end) (fun _ _ => True)).
Proof.
  intros Hd Hl Hi. unfold trySubmitSlot. eff_step. eapply wpp_mono; [by apply next_draw_spec|].
  intros [[next n]|] s1 H; cbn [post] in *; [|done]. destruct H as (e1 & Hlg & Ho & Hn & Hp & Hw & Hf & Hnp & Hrq & Hst & Hg).
  cbn [fst snd] in Ho, Hn. destruct (calcFileIdxAndOffsetStriped next _ _ _) as [f off] eqn:Hc.
  assert (draw g e next n (addBytesSubmitted n (rw_gen (as_rw s1))) (rw_env (as_rw s1))) as Hdraw.
  { split; [done|]. by exists (rw_gen (as_rw s1)), e1. }
  assert (forall s2 a, rw_gen (as_rw s2) = rw_gen (as_rw s1) -> rw_env (as_rw s2) = rw_env (as_rw s1) ->
    as_world s2 = as_world s -> as_pendingDraw s2 = None -> as_free s2 = as_free s -> as_numPending s2 = as_numPending s ->
    as_reqs s2 = as_reqs s -> stats s2 = stats s ->
    rw_guardsHeld (as_rw s2) = rw_guardsHeld (as_rw s) + (if ra_journalEnabled args then 1 else 0) ->
    wpp (submit_decided args i f off n a) s2
      (post (fun res s' => as_free s' = as_free s /\ as_numPending s' = as_numPending s /\ stats s' = stats s
        /\ res = SubmitRes_SUBMITTED
        /\ rw_guardsHeld (as_rw s') = rw_guardsHeld (as_rw s) + (if ra_journalEnabled args then 1 else 0)
        /\ exists off n g' e' q, draw g e off n g' e' /\ drawn args s' g' e'
             /\ inflight s' ≡ₚ (i, q) :: inflight s /\ as_reqs s' = <[i := q]> (as_reqs s)
             /\ log s' = log s ++ [(i, q)] /\ request_for args (off, n) (i, q)) (fun _ _ => True))) as Hsub.
  { intros s2 a E1 E2 E3 E4 E5 E6 E8 E9 E7. unfold submit_decided. eff_step.
    eapply wpp_mono; [apply eng_issue_law; by rewrite E3|]. intros [[]|] s3 H; cbn [post] in *; [|done].
    destruct H as (Hctl & Hst3 & q & Hq & Hrq3 & Hin & Hlog). rewrite E3 in Hin, Hlog. rewrite E8 in Hrq3. unfold control in Hctl. injection Hctl as C1 C2 C3 C4 C5 C6 C7.
    unfold count_submitted. eff_steps. cbn. rewrite C4, C5, C7, E5, E6, E7. split_and!; try done; [by rewrite <- E9, <- Hst3|].
    exists next, n, (addBytesSubmitted n (rw_gen (as_rw s1))), (rw_env (as_rw s1)), q.
    split; [done|]. split; [|split_and!; try done].
    - unfold drawn. cbn. rewrite C6, E4, C1, C2, E1, E2. done.
    - unfold request_for. cbn. by rewrite Hc. }
  destruct (ra_journalEnabled args) eqn:Hj.
  - eff_step. eff_step. eff_step. eapply wpp_mono; [apply slot_beginIO_spec|]. intros [a|] s2 H; cbn [post] in *; [|done].
    destruct H as (B1 & B2 & B3 & B4 & B5 & B6 & B9 & B10 & B7 & B8).
    destruct a.
    1, 2: eff_step; eff_step; eapply wpp_mono; [unfold as_world, stats, counted_bytes, counted_ios in *; apply Hsub; cbn; (congruence || lia)|]; intros [res|] s3 H; cbn [post] in *;
      [|done]; destruct H as (? & ? & ? & -> & ?); done.
    + eff_steps. unfold count_submitted. eff_steps. unfold as_world, stats, counted_bytes, counted_ios in *. cbn. split_and!; try (congruence || lia).
      exists next, n, (addBytesSubmitted n (rw_gen (as_rw s1))), (rw_env (as_rw s1)). split; [done|].
      unfold drawn. cbn. by rewrite B1, B2.
    + eff_step. cbn. unfold as_world in *. split_and!; try (congruence || lia || (rewrite <- Hg; by auto)). unfold drawn. rewrite B5, Hp. split; [done|].
      split; [done|]. exists e1. by rewrite B1, B2.
  - eapply wpp_mono; [apply Hsub; (done || congruence || lia)|]. intros [res|] s3 H; cbn [post] in *; [|done].
    destruct H as (? & ? & ? & -> & ?). done.
Qed.

(** *** The invariant of a call

    [s0]: the state at its start; [busy]: the requests that are not completed yet, with their slots. *)
Record async_inv (n : nat) (s0 : state) (args : args_t) (busy : list (nat * Q)) (s : state) : Prop := {
  ai_slots : as_free s ++ busy.*1 ≡ₚ seq 0 n;
  ai_pending : as_numPending s = length busy;
  ai_guards : ra_journalEnabled args = true -> rw_guardsHeld (as_rw s) = Z.of_nat (length busy);
  ai_reqs : Forall (fun r => as_reqs s !! r.1 = Some r.2) busy;
  ai_depth : (n <= length (as_reqs s))%nat;
  ai_draws : exists ios g e sel reqs,
    og_steps (rw_gen (as_rw s0)) (rw_env (as_rw s0)) ios g e /\ drawn args s g e /\ log s = log s0 ++ reqs
    /\ Forall2 (request_for args) sel reqs /\ sel `sublist_of` ios /\ (ra_journalEnabled args = false -> sel = ios)
    /\ u64 (counted_bytes s + Zsum (eng_bytes <$> busy.*2)) = u64 (counted_bytes s0 + Zsum (eng_bytes <$> reqs.*2))
    /\ u64 (counted_ios s + Z.of_nat (length busy)) = u64 (counted_ios s0 + Z.of_nat (length reqs));
}.

Section call.
Context (n : nat) (s0 : state) (args : args_t) (Hn : (0 < n)%nat).
#[local] Abbreviation inv := (async_inv n s0 args).

(** The invariant depends only on what the loops decide on, on the requests and the statistics. *)
Lemma async_inv_ext busy busy' s s' :
  inv busy s -> control s' = control s -> as_reqs s' = as_reqs s -> stats s' = stats s -> log s' = log s ->
  busy ≡ₚ busy' -> inv busy' s'.
Proof.
  intros [H1 H2 H3 H4 H5 (ios & g & e & sel & reqs & H6 & H7 & H8 & H9 & H10 & H11 & H12 & H13)] Hc Hr Hs Hl Hb.
  unfold control in Hc. injection Hc as C1 C2 C3 C4 C5 C6 C7. unfold stats in Hs. injection Hs as S1 S2. split.
  - by rewrite C5, <- Hb.
  - by rewrite C7, H2, Hb.
  - intros Hj. by rewrite C4, H3, Hb.
  - rewrite Hr. by rewrite <- Hb.
  - by rewrite Hr.
  - exists ios, g, e, sel, reqs. rewrite S1, S2, Hl. split_and!; try done.
    + unfold drawn in *. by rewrite C6, C1, C2.
    + rewrite <- H12. f_equal. f_equal. apply Zsum_perm. by rewrite Hb.
    + rewrite <- H13. by rewrite Hb.
Qed.

Lemma draw_steps ios g0 e0 g e off k g' e' :
  og_steps g0 e0 ios g e -> draw g e off k g' e' -> og_steps g0 e0 (ios ++ [(off, k)]) g' e'.
Proof. intros Hs (Hl & g1 & e1 & Ho & Hk & ->). by eapply og_steps_snoc. Qed.

(** A slot of the stack is neither busy nor out of range. *)
Lemma inv_free_slot busy s i free : inv busy s -> as_free s = i :: free -> (i ∉ busy.*1) /\ (i < n)%nat.
Proof.
  intros Hinv Hfree. pose proof (ai_slots _ _ _ _ _ Hinv) as Hp. rewrite Hfree in Hp. cbn in Hp.
  pose proof (NoDup_seq 0 n) as Hnd. rewrite <- Hp in Hnd. apply NoDup_cons in Hnd as [Hni _]. split.
  - intros Hi. apply Hni, elem_of_app. by right.
  - assert (i ∈ seq 0 n) as Hi by (rewrite <- Hp; left). apply elem_of_seq in Hi. lia.
Qed.

(** A submitted request is busy. *)
Lemma inv_submitted s s1 i free off k g' e' q g e ios sel reqs :
  as_free s = i :: free -> inv (inflight s) s ->
  og_steps (rw_gen (as_rw s0)) (rw_env (as_rw s0)) ios g e -> log s = log s0 ++ reqs ->
  Forall2 (request_for args) sel reqs -> sel `sublist_of` ios -> (ra_journalEnabled args = false -> sel = ios) ->
  u64 (counted_bytes s + Zsum (eng_bytes <$> (inflight s).*2)) = u64 (counted_bytes s0 + Zsum (eng_bytes <$> reqs.*2)) ->
  u64 (counted_ios s + Z.of_nat (length (inflight s))) = u64 (counted_ios s0 + Z.of_nat (length reqs)) ->
  as_free s1 = as_free s -> as_numPending s1 = as_numPending s -> stats s1 = stats s ->
  rw_guardsHeld (as_rw s1) = rw_guardsHeld (as_rw s) + (if ra_journalEnabled args then 1 else 0) ->
  draw g e off k g' e' -> drawn args s1 g' e' -> inflight s1 ≡ₚ (i, q) :: inflight s ->
  as_reqs s1 = <[i := q]> (as_reqs s) -> log s1 = log s ++ [(i, q)] -> request_for args (off, k) (i, q) ->
  inv (inflight s1) (set_free (tail (as_free s1)) (S (as_numPending s1)) s1).
Proof.
  intros Hfree Hinv Hsteps Hlog Hreqs Hsub Hsel Hcb Hci Hf Hnp Hst Hg Hdraw Hd Hin Hrq Hlog1 Hreq.
  destruct (inv_free_slot _ _ _ _ Hinv Hfree) as [Hni Hlt]. destruct Hinv as [H1 H2 H3 H4 H5 _].
  unfold stats in Hst. injection Hst as S1 S2. split; cbn.
  - rewrite Hf, Hfree, Hin. cbn. rewrite <- H1, Hfree. cbn. by rewrite <- Permutation_middle.
  - by rewrite Hin, Hnp, H2.
  - intros Hj. rewrite Hj in Hg. rewrite Hg, H3, Hin by done. cbn. lia.
  - rewrite Hin, Hrq. constructor; cbn; [apply list_lookup_insert_eq; lia|]. eapply Forall_impl; [apply Forall_and, (conj H4)|].
    { apply Forall_forall. intros r Hr. exact Hr. }
    intros [j q'] [Hj Hin']. cbn in *. rewrite list_lookup_insert_ne; [done|]. intros ->. apply Hni, list_elem_of_fmap. by exists (j, q').
  - by rewrite Hrq, length_insert.
  - exists (ios ++ [(off, k)]), g', e', (sel ++ [(off, k)]), (reqs ++ [(i, q)]). split_and!.
    + by eapply draw_steps.
    + done.
    + change (as_world (set_free _ _ s1)) with (as_world s1). by rewrite Hlog1, Hlog, app_assoc.
    + apply Forall2_app; [done|by constructor].
    + by apply sublist_app.
    + intros Hj. by rewrite Hsel.
    + change (counted_bytes (set_free _ _ s1)) with (counted_bytes s1). rewrite S1.
      rewrite (Zsum_perm _ (eng_bytes <$> ((i, q) :: inflight s).*2)) by by rewrite Hin.
      rewrite !fmap_app, Zsum_app, !fmap_cons, Zsum_cons. cbn. rewrite !Z.add_0_r.
      rewrite (Z.add_comm (eng_bytes q)), !Z.add_assoc, <- u64_add_mod_l, Hcb, u64_add_mod_l. done.
    + change (counted_ios (set_free _ _ s1)) with (counted_ios s1). rewrite S2, Hin, length_app. cbn.
      rewrite Nat2Z.inj_succ, Nat2Z.inj_add, <- Z.add_1_r, !Z.add_assoc, <- u64_add_mod_l, Hci, u64_add_mod_l. done.
Qed.

Lemma fillIdleSlots_inv fuel s :
  inv (inflight s) s ->
  wpp (fillIdleSlots fuel args) s
    (post (fun _ s' => inv (inflight s') s' /\ (getNumBytesLeftToSubmit (rw_gen (as_rw s')) <> 0 -> as_numPending s' <> O))
          (fun _ _ => True)).
Proof.
  revert s. induction fuel as [|fuel IH]; intros s Hinv r s' Hm; cbn [fillIdleSlots] in Hm;
    destruct (as_free s) as [|i free] eqn:Hfree.
  1, 3: injection Hm as <- <-; split; [done|]; intros _; pose proof (ai_slots _ _ _ _ _ Hinv) as Hp; rewrite Hfree in Hp;
    cbn in Hp; apply Permutation_length in Hp; rewrite length_fmap, length_seq in Hp; rewrite (ai_pending _ _ _ _ _ Hinv); lia.
  1, 2: destruct (Z.eqb_spec (getNumBytesLeftToSubmit (rw_gen (as_rw s))) 0) as [Hz|Hz].
  1, 3: injection Hm as <- <-; by split.
  { done. }
  destruct (inv_free_slot _ _ _ _ Hinv Hfree) as [Hni _]. pose proof Hinv as Hinv0.
  destruct Hinv as [H1 H2 H3 H4 H5 (ios & g & e & sel & reqs & H6 & H7 & H8 & H9 & H10 & H11 & H12 & H13)].
  revert r s' Hm. apply wpp_bind. eapply wpp_mono; [by apply trySubmitSlot_spec|]. intros [res|] s1 H; cbn [post] in *; [|done].
  destruct H as (Hf & Hnp & Hst & H). destruct res.
  - destruct H as (Hg & off & k & g' & e' & q & Hdraw & Hd & Hin & Hrq & Hlog & Hreq). eff_step. eff_step. apply IH.
    by eapply (inv_submitted s s1 i free off k).
  - destruct H as (Hj & Hg & Hw & Hrq & off & k & g' & e' & Hdraw & Hd). injection Hst as S1 S2. apply IH. split.
    + by rewrite Hw, Hf.
    + by rewrite Hw, Hnp.
    + intros _. by rewrite Hw, Hg, H3.
    + by rewrite Hw, Hrq.
    + by rewrite Hrq.
    + exists (ios ++ [(off, k)]), g', e', sel, reqs. rewrite Hw, S1, S2. split_and!; try done; [by eapply draw_steps| |congruence].
      by apply sublist_inserts_r.
  - destruct H as (Hj & Hne & Hg & Hw & Hrq & Hd). injection Hst as S1 S2. eff_step. split; [split|].
    + by rewrite Hw, Hf.
    + by rewrite Hw, Hnp.
    + intros _. by rewrite Hw, Hg, H3.
    + by rewrite Hw, Hrq.
    + by rewrite Hrq.
    + exists ios, g, e, sel, reqs. rewrite Hw, S1, S2. done.
    + intros _. rewrite H3 in Hne by done. rewrite Hnp, H2. lia.
Qed.

(** What [journalCommitIO()] on a slot changes. *)
Lemma slot_commitIO_spec i (s : state) :
  wpp (slot_commitIO args i) s
    (post (fun _ s' =>
       rw_gen (as_rw s') = rw_gen (as_rw s) /\ rw_env (as_rw s') = rw_env (as_rw s) /\ as_world s' = as_world s
       /\ as_free s' = as_free s /\ as_pendingDraw s' = as_pendingDraw s /\ as_numPending s' = as_numPending s
       /\ as_reqs s' = as_reqs s /\ stats s' = stats s
       /\ rw_guardsHeld (as_rw s') = rw_guardsHeld (as_rw s) - 1) (fun _ _ => True)).
Proof.
  unfold slot_commitIO. eff_step. eff_step. apply wpp_with_slot. intros buf r rw _ Hm.
  pose proof (load_slot_fields i buf s) as (L1 & L2 & L3 & L4 & L5 & L6 & L7). unfold journalCommitIO in Hm.
  destruct (rw_journals _ !! _) as [j|]; cbn in Hm; [|done].
  destruct (JournalBlockIO_commit _ _ _ _ _) as [[[slot' j'] t']|e]; cbn in Hm; injection Hm as <- <-; cbn; [|done].
  unfold as_world, stats, counted_bytes, counted_ios in *. cbn. by rewrite L1, L2, L4, L5, L6, L7.
Qed.

Lemma checkInterruptionRequest_spec (s : state) :
  wpp checkInterruptionRequest s (post (fun _ s' => s' = s) (fun _ _ => True)).
Proof. unfold checkInterruptionRequest. eff_step. eff_step. case_match; by eff_step. Qed.

(** The slot of a completion is pushed and, with a journal, its guard released; the request is
    no longer busy but not counted yet. *)
Record freed (r : nat * Q) (busy : list (nat * Q)) (s : state) : Prop := {
  fr_slots : as_free s ++ busy.*1 ≡ₚ seq 0 n;
  fr_pending : as_numPending s = length busy;
  fr_guards : ra_journalEnabled args = true -> rw_guardsHeld (as_rw s) = Z.of_nat (length busy);
  fr_reqs : Forall (fun r => as_reqs s !! r.1 = Some r.2) (r :: busy);
  fr_depth : (n <= length (as_reqs s))%nat;
  fr_draws : exists ios g e sel reqs,
    og_steps (rw_gen (as_rw s0)) (rw_env (as_rw s0)) ios g e /\ drawn args s g e /\ log s = log s0 ++ reqs
    /\ Forall2 (request_for args) sel reqs /\ sel `sublist_of` ios /\ (ra_journalEnabled args = false -> sel = ios)
    /\ u64 (counted_bytes s + Zsum (eng_bytes <$> (r :: busy).*2)) = u64 (counted_bytes s0 + Zsum (eng_bytes <$> reqs.*2))
    /\ u64 (counted_ios s + Z.of_nat (length (r :: busy))) = u64 (counted_ios s0 + Z.of_nat (length reqs));
}.

Lemma free_slot_spec r busy s :
  inv (r :: busy) s ->
  wpp (eff_modify (fun s => set_free (r.1 :: as_free s) (pred (as_numPending s)) s);;
       eff_when (ra_journalEnabled args) (slot_commitIO args r.1)) s
    (post (fun _ s' => freed r busy s' /\ inflight s' = inflight s) (fun _ _ => True)).
Proof.
  intros [H1 H2 H3 H4 H5 (ios & g & e & sel & reqs & H6 & H7 & H8)]. eff_step. eff_step. set (s2 := set_free _ _ s).
  cbn [length fmap list_fmap] in *. apply wpp_when; intros Hj.
  - eapply wpp_mono; [apply slot_commitIO_spec|]. intros [[]|] s3 H; cbn [post] in *; [|done].
    destruct H as (B1 & B2 & B3 & B4 & B5 & B6 & B7 & B8 & B9). split; [|by rewrite B3].
    injection B8 as S1 S2. split.
    + rewrite B4. cbn. rewrite <- H1. cbn. by rewrite Permutation_middle.
    + rewrite B6. cbn. by rewrite H2.
    + intros _. rewrite B9. cbn. rewrite H3 by done. cbn. lia.
    + by rewrite B7.
    + by rewrite B7.
    + exists ios, g, e, sel, reqs. rewrite S1, S2, B3. split; [done|]. split; [|done]. unfold drawn in *. by rewrite B5, B1, B2.
  - split; [|done]. split; cbn.
    + rewrite <- H1. cbn. by rewrite Permutation_middle.
    + by rewrite H2.
    + congruence.
    + done.
    + done.
    + exists ios, g, e, sel, reqs. done.
Qed.

(** The request is counted. *)
Lemma account_spec c r busy s :
  r.1 = eng_slot c -> eng_verified c r.2 -> freed r busy s ->
  wpp (eng_account args c) s (post (fun _ s' => inv busy s' /\ inflight s' = inflight s) (fun _ _ => True)).
Proof.
  intros Hr Hv [H1 H2 H3 H4 H5 (ios & g & e & sel & reqs & H6 & H7 & H8 & H9 & H10 & H11 & H12 & H13)].
  apply Forall_cons in H4 as [Hq H4]. rewrite Hr in Hq. eapply wpp_mono; [by eapply eng_account_law|].
  intros [[]|] s' H; cbn [post] in *; [|done]. destruct H as ((Hc & Hrq & Hin & Hl) & Hb & Hi). split; [|done].
  unfold control in Hc. injection Hc as C1 C2 C3 C4 C5 C6 C7. split.
  - by rewrite C5.
  - by rewrite C7.
  - intros Hj. by rewrite C4, H3.
  - by rewrite Hrq.
  - by rewrite Hrq.
  - exists ios, g, e, sel, reqs. rewrite Hl. split_and!; try done.
    + unfold drawn in *. by rewrite C6, C1, C2.
    + rewrite <- H12, <- u64_add_mod_l, Hb, u64_add_mod_l. rewrite !fmap_cons, Zsum_cons. f_equal. lia.
    + rewrite <- H13, <- u64_add_mod_l, Hi, u64_add_mod_l. cbn [length]. f_equal. lia.
Qed.

(** A completion frees its slot and its journal guard, and is counted. *)
Lemma process_completion_inv c r busy s :
  r.1 = eng_slot c -> inv (r :: busy) s ->
  wpp (process_completion args c) s
    (post (fun early s' =>
       inflight s' = inflight s /\ match early with
                                   | None => inv busy s'
                                   | Some _ => inv (r :: busy) s'
                                   end) (fun _ _ => True)).
Proof.
  intros Hr Hinv. pose proof (ai_reqs _ _ _ _ _ Hinv) as [Hq _]%Forall_cons. rewrite Hr in Hq.
  unfold process_completion. eff_step. eapply wpp_mono; [by apply eng_check_law|].
  intros [[rc|]|] s1 H; cbn [post] in *; [| |done]; destruct H as ((Hc & Hrq & Hin & Hl) & Hst & Hv).
  { eff_step. split; [done|]. by eapply async_inv_ext. }
  assert (inv (r :: busy) s1) as Hinv1 by by eapply async_inv_ext. specialize (Hv eq_refl). rewrite <- Hr.
  apply (wpp_assoc _ _ (fun _ => eng_account args c;; checkInterruptionRequest;; mret None)).
  eapply wpp_mono; [by apply free_slot_spec|]. intros [[]|] s2 H; cbn [post] in *; [|done]. destruct H as [Hfr Hin2].
  eff_step. eapply wpp_mono; [by eapply account_spec|]. intros [[]|] s3 H; cbn [post] in *; [|done]. destruct H as [Hinv3 Hin3].
  eff_step. eapply wpp_mono; [apply checkInterruptionRequest_spec|]. intros [[]|] s4 H; cbn [post] in *; [|done]. subst s4.
  eff_step. split; [congruence|done].
Qed.

Lemma process_completions_inv cs rs busy s :
  Forall2 (fun c r => r.1 = eng_slot c) cs rs -> inv (rs ++ busy) s ->
  wpp (process_completions args cs) s
    (post (fun early s' =>
       inflight s' = inflight s /\ match early with
                                   | None => inv busy s'
                                   | Some _ => exists b busy', inv (b :: busy') s'
                                   end) (fun _ _ => True)).
Proof.
  intros H2. revert s. induction H2 as [|c r cs rs Hr H2 IH]; intros s Hinv; cbn [process_completions]; [by eff_step|].
  eff_step. eapply wpp_mono; [by apply (process_completion_inv c r (rs ++ busy))|].
  intros [[rc|]|] s1 H; cbn [post] in *; [| |done]; destruct H as [Hin H].
  { eff_step. split; [done|]. by eexists _, _. }
  eapply wpp_mono; [by apply IH|]. intros [early|] s2 H'; cbn [post] in *; [|done]. destruct H'. split; [congruence|done].
Qed.

(** How the loop ends: with all bytes submitted, or early with a request in flight. *)
Lemma completion_loop_inv fuel fillFuel s :
  inv (inflight s) s -> (getNumBytesLeftToSubmit (rw_gen (as_rw s)) <> 0 -> as_numPending s <> O) ->
  wpp (completion_loop fuel fillFuel args) s
    (post (fun rc s' => exists busy, inv busy s'
       /\ (as_numPending s' = O -> getNumBytesLeftToSubmit (rw_gen (as_rw s')) = 0 /\ rc = getNumBytesTotal (rw_gen (as_rw s'))
                                   /\ inflight s' = []))
      (fun _ _ => True)).
Proof.
  revert s. induction fuel as [|fuel IH]; intros s Hinv Hleft r s' Hm; cbn [completion_loop] in Hm;
    destruct (as_numPending s) as [|np] eqn:Hnp; [|done| |].
  1, 2: injection Hm as <- <-; exists (inflight s); split; [done|]; intros _; split; [|split; [done|]];
    [destruct (decide (getNumBytesLeftToSubmit (rw_gen (as_rw s)) = 0)) as [|Hne]; [done|by destruct (Hleft Hne)]
    |apply nil_length_inv; rewrite <- (ai_pending _ _ _ _ _ Hinv); done].
  revert r s' Hm. apply wpp_bind. eapply wpp_mono; [apply eng_wait_law|]. intros [cs|] s1 H; cbn [post] in *; [|done].
  destruct H as (Hc & Hst & Hrq & Hl & rs & H2 & Hin).
  assert (inv (rs ++ inflight s1) s1) as Hinv1 by by eapply async_inv_ext.
  destruct cs as [|c cs].
  - apply Forall2_nil_inv_l in H2 as ->. eff_step. eapply wpp_mono; [apply checkInterruptionRequest_spec|].
    intros [[]|] s2 H; cbn [post] in *; [|done]. subst s2.
    apply IH; [done|]. unfold control in Hc. injection Hc as -> _ _ _ _ _ ->. by rewrite Hnp.
  - eff_step. eapply wpp_mono; [by eapply process_completions_inv|]. intros [[rc|]|] s2 H; cbn [post] in *; [| |done].
    + destruct H as (_ & b & busy & Hb). eff_step. exists (b :: busy). split; [done|]. intros Hz.
      pose proof (ai_pending _ _ _ _ _ Hb). rewrite Hz in *. done.
    + destruct H as (Hin2 & Hinv2). rewrite <- Hin2 in Hinv2. eff_step. eapply wpp_mono; [by apply fillIdleSlots_inv|].
      intros [[]|] s3 H; cbn [post] in *; [|done]. destruct H. by apply IH.
Qed.
End call.

(** The invariant holds when a call starts. *)
Lemma async_inv_start n (args : args_t) (s : state) :
  (n <= length (as_reqs s))%nat -> inflight s = [] -> rw_guardsHeld (as_rw s) = 0 ->
  async_inv n s args (inflight s) (async_call_start n s).
Proof.
  intros Hlen Hin0 Hheld. rewrite Hin0. split; cbn; [by rewrite app_nil_r|done|intros _; done|constructor|done|].
  exists [], (rw_gen (as_rw s)), (rw_env (as_rw s)), [], []. rewrite app_nil_r. split_and!; try done. constructor.
Qed.

(** What a call that returns has done. *)
Lemma async_call_spec {HDL : OffsetGenDrawLaws R D G} fuel fillFuel n (args : args_t) (s s' : state) rc :
  (0 < n <= length (as_reqs s))%nat -> inflight s = [] -> rw_guardsHeld (as_rw s) = 0 ->
  asyncBlockSized fuel fillFuel n args s = Some (Ok rc, s') ->
  exists ios sel reqs,
    log s' = log s ++ reqs /\ Forall2 (request_for args) sel reqs /\ sel `sublist_of` ios
    /\ (ra_journalEnabled args = false -> sel = ios) /\ rw_guardsHeld (as_rw s') = 0
    /\ (exists g e, og_steps (rw_gen (as_rw s)) (rw_env (as_rw s)) ios g e /\ drawn args s' g e)
    /\ (as_numPending s' = O ->
          rc = getNumBytesTotal (rw_gen (as_rw s')) /\ inflight s' = [] /\ as_pendingDraw s' = None
          /\ og_drain (length ios) (rw_gen (as_rw s)) (rw_env (as_rw s)) = Some (ios, (rw_gen (as_rw s'), rw_env (as_rw s')))
          /\ u64 (counted_bytes s') = u64 (counted_bytes s + Zsum (eng_bytes <$> reqs.*2))
          /\ u64 (counted_ios s') = u64 (counted_ios s + Z.of_nat (length reqs))).
Proof.
  intros [Hn Hlen] Hin0 Hheld Hrun.
  pose proof (async_inv_start n args s Hlen Hin0 Hheld) as Hinv0.
  assert (wpp (eff_modify (async_call_start n);; fillIdleSlots fillFuel args;; completion_loop fuel fillFuel args) s
    (post (fun rc s' => exists busy, async_inv n s args busy s'
       /\ (as_numPending s' = O -> getNumBytesLeftToSubmit (rw_gen (as_rw s')) = 0 /\ rc = getNumBytesTotal (rw_gen (as_rw s'))
                                   /\ inflight s' = [])) (fun _ _ => True))) as Hbody.
  { eff_step. eff_step. eff_step. eapply wpp_mono; [by apply fillIdleSlots_inv|]. intros [[]|] s1 H; cbn [post] in *; [|done].
    destruct H. by apply completion_loop_inv. }
  unfold asyncBlockSized, eff_finally in Hrun.
  destruct ((eff_modify (async_call_start n);; fillIdleSlots fillFuel args;; completion_loop fuel fillFuel args) s)
    as [[r s1]|] eqn:Hm; [|done]. injection Hrun as -> <-.
  destruct (Hbody _ _ Hm) as (busy & Hinv & Hend). clear Hbody Hm.
  destruct Hinv as [H1 H2 H3 H4 H5 (ios & g & e & sel & reqs & H6 & H7 & H8 & H9 & H10 & H11 & H12 & H13)].
  exists ios, sel, reqs. unfold async_slots_release. destruct (release_slots _ _) as [slots t]. cbn.
  split_and!; try done; [by exists g, e|]. intros Hz. destruct (Hend Hz) as (Hl & -> & Hin).
  assert (busy = []) as -> by (apply nil_length_inv; by rewrite <- H2). cbn in H12, H13. rewrite Z.add_0_r in H12, H13.
  assert (as_pendingDraw s1 = None /\ rw_gen (as_rw s1) = g /\ rw_env (as_rw s1) = e) as (Hp & <- & <-).
  { unfold drawn in H7. destruct (as_pendingDraw s1) as [[off k]|]; [|done]. destruct H7 as (_ & Hg & e1 & Ho & _).
    apply og_draw_stable in Ho as [Ho _]. congruence. }
  split_and!; try done. by apply og_steps_drained.
Qed.

End theory.
