(* ===== verification/AsyncKernels.v ===== *)
(** The engines of AsyncEngine.v keep [EngineLaws], for every kernel and SPDK client that reports each
    request in flight once.  With an example kernel that completes requests out of order. *)

From S2P Require Import Prelude Common Effects CppStrings RandAlgo BlockSizeMix OffsetGen Journal Integrity.
From S2P Require Import LatencyHistogram LiveOps RWLoop AsyncEngine AsyncTheory.

#[local] Open Scope list_scope.
#[local] Open Scope Z_scope.

(** ** Frames *)

Section frames.
Context {R D G W Q : Type} {HR : RandAlgo R} {HD : RandAlgo D} {HG : OffsetGenerator R D G}.
Context (infl lg : W -> list (nat * Q)).
#[local] Abbreviation state := (AsyncState R D G W Q).
#[local] Abbreviation args_t := (RWArgs (R := R)).

(** Neither the loops nor the log nor the statistics see a difference. *)
Definition unseen (s s' : state) : Prop := quiet infl lg s s' /\ stats s' = stats s.

Lemma unseen_refl s : unseen s s.
Proof. done. Qed.

Lemma unseen_trans s1 s2 s3 : unseen s1 s2 -> unseen s2 s3 -> unseen s1 s3.
Proof. intros ((?&?&?&?) & ?) ((?&?&?&?) & ?). split; [split_and!|]; congruence. Qed.

Lemma unseen_world w s : infl w = infl (as_world s) -> lg w = lg (as_world s) -> unseen s (put_world w s).
Proof. intros H1 H2. by split. Qed.

Lemma unseen_startT v s : unseen s (set_startT v s).
Proof. done. Qed.

Lemma unseen_slot_buf i b s : unseen s (set_slot_buf i b s).
Proof. done. Qed.

Lemma pre_write_modify_frame (args : args_t) f len off (rw rw' : RWState (R := R) (D := D) (G := G) (W := W)) :
  pre_write_modify args f len off rw = Some rw' -> exists buf r, rw' = set_buf rw buf r.
Proof.
  unfold pre_write_modify. destruct (funcPreWriteBlockModifier _); intros H; simplify_eq.
  - exists (rw_buf rw'), (rw_blockVar rw'). by destruct rw'.
  - by eexists _, _.
  - case_match. simplify_eq. by eexists _, _.
  - destruct (rw_journals rw !! _) as [j|]; cbn in H; [|done]. destruct (preWriteJournalFillBuf _ _ _ _ _); cbn in H; [|done].
    simplify_eq. by eexists _, _.
Qed.

Lemma slot_modify_unseen (args : args_t) i f len off (s : state) :
  wpp (slot_modify args i f len off) s (post (fun _ s' => unseen s s') (fun _ _ => True)).
Proof.
  unfold slot_modify. apply wpp_with_slot. intros buf r rw _ Hm.
  destruct (pre_write_modify _ _ _ _ _) as [rw'|] eqn:Hp; cbn in Hm; [|done]. injection Hm as <- <-. cbn.
  apply pre_write_modify_frame in Hp as (b & r & ->).
  pose proof (load_slot_fields i buf s) as (L1 & L2 & L3 & L4 & L5 & L6 & L7). unfold as_world in L4.
  unfold unseen, quiet, control, stats, counted_bytes, counted_ios, as_world. cbn. by rewrite L1, L2, L3, L4, L5, L6, L7.
Qed.

Lemma slot_verify_unseen (args : args_t) i len off (s : state) :
  wpp (slot_verify args i len off) s (post (fun _ s' => unseen s s') (fun _ _ => True)).
Proof.
  unfold slot_verify. eff_step. eff_step. apply wpp_with_slot. intros buf r rw _ Hm.
  destruct (post_read_check _ _ _ _ _) as [r'|] eqn:Hp; cbn in Hm; [|done]. injection Hm as <- <-.
  pose proof (load_slot_fields i buf s) as (L1 & L2 & L3 & L4 & L5 & L6 & L7). unfold as_world in L4. destruct r'; cbn; [|done].
  unfold unseen, quiet, control, stats, counted_bytes, counted_ios, as_world. cbn. by rewrite L1, L2, L3, L4, L5, L6, L7.
Qed.

(** The statistics grow by one request. *)
Lemma account_async_stats (mix : bool) bytes now start (s : state) :
  let s' := upd_rw (account_async mix bytes now start) s in
  quiet infl lg s s' /\ u64 (counted_bytes s') = u64 (counted_bytes s + bytes) /\ u64 (counted_ios s') = u64 (counted_ios s + 1).
Proof.
  unfold account_async, account_io, counted_bytes, counted_ios. destruct start, mix; (split; [done|]); cbn;
    rewrite ?u64_add_mod_r, ?u64_add_mod_l; split; f_equal; lia.
Qed.
End frames.

(** ** libaio *)

(** What [io_submit] and [io_getevents] promise: a request in flight stays so until it is reported,
    once, by an event with the slot of the request. *)
Class AioKernelLaws {W : Type} (K : AioKernel W) : Type := {
  k_inflight : W -> list (nat * iocb);
  k_log : W -> list (nat * iocb);
  k_now_law w : k_inflight (k_now K w).2 = k_inflight w /\ k_log (k_now K w).2 = k_log w;
  k_flock_law f off len isWrite isUnlock w w' :
    k_flock K f off len isWrite isUnlock w = Ok w' -> k_inflight w' = k_inflight w /\ k_log w' = k_log w;
  k_ratelimit_law l n w b w' :
    k_ratelimit K l n w = Ok (b, w') -> k_inflight w' = k_inflight w /\ k_log w' = k_log w;
  k_submit_law i q buf w :
    (i ∉ (k_inflight w).*1) -> (k_submit K i q buf w).1 = 1 ->
    k_inflight (k_submit K i q buf w).2 ≡ₚ (i, q) :: k_inflight w
    /\ k_log (k_submit K i q buf w).2 = k_log w ++ [(i, q)];
  k_getevents_law w n evs w' :
    k_getevents K w = (n, evs, w') -> 0 <= n ->
    k_log w' = k_log w /\ Z.of_nat (length evs) = n
    /\ exists rs, Forall2 (fun ev r => r.1 = ev_slot ev) evs rs /\ k_inflight w ≡ₚ rs ++ k_inflight w';
}.

Section libaio.
Context {R D G W : Type} {HR : RandAlgo R} {HD : RandAlgo D} {HG : OffsetGenerator R D G} (K : AioKernel W) {HK : AioKernelLaws K}.
#[local] Abbreviation state := (AsyncState R D G W iocb).
#[local] Abbreviation unseen := (unseen (R := R) (D := D) (G := G) k_inflight k_log).

Lemma aio_now_unseen (s : state) : wpp (aio_now K) s (post (fun _ s' => unseen s s') (fun _ _ => True)).
Proof.
  unfold aio_now. eff_step. eff_step. pose proof (k_now_law (as_world s)) as [H1 H2]. destruct (k_now K _). eff_steps.
  by apply unseen_world.
Qed.

Lemma aio_flock_unseen f off len w u (s : state) :
  wpp (aio_flock K f off len w u) s (post (fun _ s' => unseen s s') (fun _ _ => True)).
Proof.
  unfold aio_flock. eff_step. eff_step. eff_step. eff_step. destruct (k_flock K _ _ _ _ _ _) as [w'|] eqn:E; cbn [post]; [|done].
  apply k_flock_law in E as []. eff_step. by apply unseen_world.
Qed.

Lemma aio_ratelimit_unseen args n (s : state) :
  wpp (aio_ratelimit K args n) s (post (fun _ s' => unseen s s') (fun _ _ => True)).
Proof.
  unfold aio_ratelimit. eff_step. eff_step. eff_step. eff_step.
  destruct (k_ratelimit K _ _ _) as [[b w']|] eqn:E; cbn [post]; [|done]. apply k_ratelimit_law in E as [].
  eff_step. eff_step. eff_step; eff_steps; by apply unseen_world.
Qed.

(** Steps over a call that nobody sees. *)
#[local] Ltac unseen_call lem H :=
  eff_step; (eapply wpp_mono; [apply lem|]); intros [[]|] ? H; cbn [post] in *; [|done].

Lemma aio_issue_spec args i f off n a (s : state) :
  (i ∉ (k_inflight (as_world s)).*1) ->
  wpp (aio_issue K args i f off n a) s
    (post (fun _ s' => control s' = control s /\ stats s' = stats s
             /\ exists q, (cb_fileIdx q = f /\ cb_offset q = off /\ cb_nbytes q = n) /\ as_reqs s' = <[i := q]> (as_reqs s)
                  /\ k_inflight (as_world s') ≡ₚ (i, q) :: k_inflight (as_world s)
                  /\ k_log (as_world s') = k_log (as_world s) ++ [(i, q)])
          (fun _ _ => True)).
Proof.
  intros Hi. unfold aio_issue. eff_step. eff_step. eff_step. eff_step. rename a0 into isRead. set (q := mkIocb isRead f n off).
  eff_step. eff_step. eff_step. eapply wpp_mono; [apply aio_now_unseen|]. intros [t|] s2 H2; cbn [post] in *; [|done].
  eff_step. eff_step. unseen_call aio_ratelimit_unseen H3. unseen_call (slot_modify_unseen (R := R) (D := D) (G := G) k_inflight k_log) H4.
  unseen_call aio_flock_unseen H5.
  match goal with |- wpp _ ?sn _ => set (s5 := sn) in * end.
  assert (unseen (set_request i q s) s5) as ((Hc & Hr & Hin & Hl) & Hst).
  { eapply unseen_trans; [exact H2|]. eapply unseen_trans; [apply unseen_startT|]. eapply unseen_trans; [exact H3|].
    eapply unseen_trans; [exact H4|exact H5]. }
  change (as_world (set_request i q s)) with (as_world s) in Hin, Hl.
  eff_step. unfold aio_submit. eff_step. eff_step. eff_step. eff_step. unfold id in *.
  pose proof (k_submit_law i q (take (Z.to_nat (cb_nbytes q)) a0) (as_world s5)) as Hs. rewrite Hin in Hs. specialize (Hs Hi).
  destruct (k_submit K i q _ (as_world s5)) as [rc w']. cbn [fst snd] in Hs. eff_step. eff_step. eff_step.
  destruct (Z.eqb_spec rc 1) as [->|Hne]; cbn [negb].
  - destruct (Hs eq_refl) as [Hs1 Hs2]. eff_step. split; [exact Hc|]. split; [exact Hst|]. exists q. split; [done|].
    split; [exact Hr|]. split; [exact Hs1|]. rewrite <- Hl. exact Hs2.
  - eff_step. eapply wpp_mono; [apply aio_flock_unseen|]. intros [[]|] ? _; cbn [post]; [|done]. by eff_step.
Qed.

Lemma aio_wait_spec (s : state) :
  wpp (aio_wait K) s
    (post (fun cs s' => control s' = control s /\ stats s' = stats s /\ as_reqs s' = as_reqs s
             /\ k_log (as_world s') = k_log (as_world s)
             /\ exists rs, Forall2 (fun c r => r.1 = ev_slot c) cs rs
                  /\ k_inflight (as_world s) ≡ₚ rs ++ k_inflight (as_world s')) (fun _ _ => True)).
Proof.
  unfold aio_wait. eff_step. eff_step. pose proof (k_getevents_law (as_world s)) as Hlaw.
  destruct (k_getevents K _) as [[n evs] w']. specialize (Hlaw n evs w' eq_refl). eff_step. eff_step.
  destruct (Z.eqb_spec n 0) as [->|Hne].
  - destruct (Hlaw ltac:(lia)) as (Hl & Hlen & rs & H2 & Hin). eff_step. split_and!; try done. exists rs. split; [|done].
    destruct evs; [|done]. exact H2.
  - destruct (Z.ltb_spec n 0); eff_step; [done|]. destruct (Hlaw ltac:(lia)) as (Hl & Hlen & rs & H2 & Hin).
    split_and!; try done. exists rs. rewrite take_ge by lia. done.
Qed.

#[global] Program Instance aio_laws : EngineLaws (HE := aio_engine (R := R) (D := D) (G := G) K) := {|
  eng_inflight := k_inflight;
  eng_log := k_log;
  eng_describes f off n q := cb_fileIdx q = f /\ cb_offset q = off /\ cb_nbytes q = n;
  eng_bytes := cb_nbytes;
  eng_verified ev q := ev_res ev = cb_nbytes q;
|}.
Next Obligation. intros. by apply aio_issue_spec. Qed.
Next Obligation. intros. apply aio_wait_spec. Qed.
Next Obligation.
  intros args ev q s Hq. cbn. unfold aio_check. eff_step. eff_step. eff_step. eff_step. unfold id in Hsome. cbn in Hq.
  assert (a = q) as -> by congruence. eff_step.
  assert (wpp (eff_when (cb_isRead q) (eff_modify (set_slot_buf (ev_slot ev) (ev_bytes ev)))) s
    (post (fun _ s' => unseen s s') (fun _ _ => True))) as Hbuf by (apply wpp_when; intros _; [by eff_step|done]).
  eapply wpp_mono; [exact Hbuf|]. intros [[]|] s1 H1; cbn [post] in *; [|done].
  destruct (truthy (ev_res2 ev)); cbn [orb]; [by eff_step|].
  destruct (Z.eqb_spec (ev_res ev) (cb_nbytes q)) as [He|He]; cbn [negb].
  - unseen_call aio_flock_unseen H2. unseen_call (slot_verify_unseen (R := R) (D := D) (G := G) k_inflight k_log) H3. eff_step.
    destruct (unseen_trans _ _ _ _ _ (unseen_trans _ _ _ _ _ H1 H2) H3). done.
  - unseen_call aio_flock_unseen H2. destruct (unseen_trans _ _ _ _ _ H1 H2). destruct (_ <? 0); eff_steps; done.
Qed.
Next Obligation.
  intros args ev q s Hq Hv. cbn in *. unfold aio_account. eff_step. eff_step. eff_step. eff_step. unfold id in *.
  assert (a = q) as -> by congruence. eff_step. eff_step. eff_step. eapply wpp_mono; [apply aio_now_unseen|].
  intros [t|] s1 H1; cbn [post] in *; [|done]. eff_steps. rewrite Hv.
  set (mix := _ && _). destruct (account_async_stats k_inflight k_log mix (cb_nbytes q) t a (add_bytesDone (cb_nbytes q) s1)) as (H2 & H3 & H4).
  destruct H1 as ((Q1 & Q2 & Q3 & Q4) & S1). injection S1 as S1 S2. rewrite H3, H4.
  change (counted_bytes (add_bytesDone (cb_nbytes q) s1)) with (counted_bytes s1).
  change (counted_ios (add_bytesDone (cb_nbytes q) s1)) with (counted_ios s1). rewrite S1, S2. split; [|done].
  destruct H2 as (Q5 & Q6 & Q7 & Q8). split_and!; [exact (eq_trans Q5 Q1)|exact (eq_trans Q6 Q2)|exact (eq_trans Q7 Q3)|exact (eq_trans Q8 Q4)].
Qed.
End libaio.

(** ** SPDK *)

(** What [SpdkNvmeClient] promises: a submitted context is handed out once by [waitForCompletions()]. *)
Class SpdkClientLaws {W : Type} (P : SpdkClient W) : Type := {
  sp_inflight : W -> list (nat * spdk_request);
  sp_log : W -> list (nat * spdk_request);
  sp_now_law w : sp_inflight (sp_now P w).2 = sp_inflight w /\ sp_log (sp_now P w).2 = sp_log w;
  sp_ratelimit_law l n w b w' :
    sp_ratelimit P l n w = Ok (b, w') -> sp_inflight w' = sp_inflight w /\ sp_log w' = sp_log w;
  sp_submit_law i q buf w :
    (i ∉ (sp_inflight w).*1) -> (sp_submit P i q buf w).1 = 0 ->
    sp_inflight (sp_submit P i q buf w).2 ≡ₚ (i, q) :: sp_inflight w
    /\ sp_log (sp_submit P i q buf w).2 = sp_log w ++ [(i, q)];
  sp_wait_law w cs w' :
    sp_waitForCompletions P w = (cs, w') ->
    sp_log w' = sp_log w
    /\ exists rs, Forall2 (fun c r => r.1 = sd_slot c) cs rs /\ sp_inflight w ≡ₚ rs ++ sp_inflight w';
}.

Section spdk.
Context {R D G W : Type} {HR : RandAlgo R} {HD : RandAlgo D} {HG : OffsetGenerator R D G} (P : SpdkClient W)
  {HP : SpdkClientLaws P}.
#[local] Abbreviation state := (AsyncState R D G W spdk_request).
#[local] Abbreviation unseen := (unseen (R := R) (D := D) (G := G) sp_inflight sp_log).

Lemma spdk_now_unseen (s : state) : wpp (spdk_now P) s (post (fun _ s' => unseen s s') (fun _ _ => True)).
Proof.
  unfold spdk_now. eff_step. eff_step. pose proof (sp_now_law (as_world s)) as [H1 H2]. destruct (sp_now P _). eff_steps.
  by apply unseen_world.
Qed.

Lemma spdk_ratelimit_unseen args n (s : state) :
  wpp (spdk_ratelimit P args n) s (post (fun _ s' => unseen s s') (fun _ _ => True)).
Proof.
  unfold spdk_ratelimit. eff_step. eff_step. eff_step. eff_step.
  destruct (sp_ratelimit P _ _ _) as [[b w']|] eqn:E; cbn [post]; [|done]. apply sp_ratelimit_law in E as [].
  eff_step. eff_step. eff_step; eff_steps; by apply unseen_world.
Qed.

Lemma spdk_issue_spec args i f off n a (s : state) :
  (i ∉ (sp_inflight (as_world s)).*1) ->
  wpp (spdk_issue P args i f off n a) s
    (post (fun _ s' => control s' = control s /\ stats s' = stats s
             /\ exists q, (sq_fileIdx q = f /\ sq_lba q = off / sp_sectorSize P /\ sq_lbaCount q = u32 (n / sp_sectorSize P))
                  /\ as_reqs s' = <[i := q]> (as_reqs s)
                  /\ sp_inflight (as_world s') ≡ₚ (i, q) :: sp_inflight (as_world s)
                  /\ sp_log (as_world s') = sp_log (as_world s) ++ [(i, q)])
          (fun _ _ => True)).
Proof.
  intros Hi. unfold spdk_issue. eff_step. eff_step.
  match goal with |- context [set_request i ?r] => set (q := r) end. set (isRead := match a with None => _ | Some _ => _ end) in *.
  eff_step. eff_step. eff_step. eapply wpp_mono; [apply spdk_now_unseen|]. intros [t|] s2 H2; cbn [post] in *; [|done].
  eff_step. eff_step. eff_step. eapply wpp_mono; [apply spdk_ratelimit_unseen|]. intros [[]|] s3 H3; cbn [post] in *; [|done].
  eff_step.
  assert (wpp (eff_when (negb isRead) (slot_modify args i f n off)) s3 (post (fun _ s' => unseen s3 s') (fun _ _ => True))) as Hmod
    by (apply wpp_when; intros _; [apply slot_modify_unseen|done]).
  eapply wpp_mono; [exact Hmod|]. intros [[]|] s5 H4; cbn [post] in *; [|done].
  assert (unseen (set_request i q s) s5) as ((Hc & Hr & Hin & Hl) & Hst).
  { eapply unseen_trans; [exact H2|]. eapply unseen_trans; [apply unseen_startT|]. by eapply unseen_trans. }
  change (as_world (set_request i q s)) with (as_world s) in Hin, Hl.
  eff_step. unfold spdk_submit. eff_step. eff_step. eff_step. eff_step. unfold id in *.
  pose proof (sp_submit_law i q a0 (as_world s5)) as Hs. rewrite Hin in Hs. specialize (Hs Hi).
  destruct (sp_submit P i q _ (as_world s5)) as [rc w']. cbn [fst snd] in Hs. eff_step. eff_step. eff_step.
  destruct (Z.eqb_spec rc 0) as [->|Hne]; cbn [negb]; [|by eff_step].
  destruct (Hs eq_refl) as [Hs1 Hs2]. eff_step. split; [exact Hc|]. split; [exact Hst|]. exists q. split; [done|].
  split; [exact Hr|]. split; [exact Hs1|]. rewrite <- Hl. exact Hs2.
Qed.

#[global] Program Instance spdk_laws : EngineLaws (HE := spdk_engine (R := R) (D := D) (G := G) P) := {|
  eng_inflight := sp_inflight;
  eng_log := sp_log;
  eng_describes f off n q := sq_fileIdx q = f /\ sq_lba q = off / sp_sectorSize P /\ sq_lbaCount q = u32 (n / sp_sectorSize P);
  eng_bytes := spdk_blockSize P;
  eng_verified _ _ := True;
|}.
Next Obligation. intros. by apply spdk_issue_spec. Qed.
Next Obligation.
  intros s. cbn. unfold spdk_wait. eff_step. eff_step. pose proof (sp_wait_law (as_world s)) as Hlaw.
  destruct (sp_waitForCompletions P _) as [cs w']. destruct (Hlaw cs w' eq_refl) as (Hl & rs & H2 & Hin). eff_steps.
  split_and!; try done. by exists rs.
Qed.
Next Obligation.
  intros args c q s Hq. cbn. unfold spdk_check. eff_step. eff_step. eff_step. eff_step. unfold id in *. cbn in Hq.
  assert (a = q) as -> by congruence. eff_step.
  assert (wpp (eff_when (sq_isRead q) (eff_modify (set_slot_buf (sd_slot c) (sd_bytes c)))) s
    (post (fun _ s' => unseen s s') (fun _ _ => True))) as Hbuf by (apply wpp_when; intros _; [by eff_step|done]).
  eapply wpp_mono; [exact Hbuf|]. intros [[]|] s1 H1; cbn [post] in *; [|done].
  destruct (sd_success c); cbn [negb]; [|by eff_step; destruct H1]. eff_step.
  set (m := slot_verify _ _ _ _).
  assert (wpp (eff_when (sq_isRead q) m) s1 (post (fun _ s' => unseen s1 s') (fun _ _ => True))) as Hver
    by (apply wpp_when; intros _; [apply slot_verify_unseen|done]).
  eapply wpp_mono; [exact Hver|]. intros [[]|] s2 H2; cbn [post] in *; [|done]. eff_step.
  destruct (unseen_trans _ _ _ _ _ H1 H2). done.
Qed.
Next Obligation.
  intros args c q s Hq _. cbn in *. unfold spdk_account. eff_step. eff_step. eff_step. eff_step. unfold id in *.
  assert (a = q) as -> by congruence. eff_step. eff_step. eff_step. eapply wpp_mono; [apply spdk_now_unseen|].
  intros [t|] s1 H1; cbn [post] in *; [|done]. eff_steps.
  destruct (account_async_stats sp_inflight sp_log (sq_isRWMixRead q) (spdk_blockSize P q) t a s1) as (H2 & H3 & H4).
  destruct H1 as ((Q1 & Q2 & Q3 & Q4) & S1). injection S1 as S1 S2. unfold counted_bytes, counted_ios in *. cbn in *.
  rewrite H3, H4, S1, S2. split; [|done].
  destruct H2 as (Q5 & Q6 & Q7 & Q8). split_and!; [exact (eq_trans Q5 Q1)|exact (eq_trans Q6 Q2)|exact (eq_trans Q7 Q3)|exact (eq_trans Q8 Q4)].
Qed.
End spdk.
