(* ===== verification/AsyncProgress.v ===== *)
(** Termination of the asynchronous engines: on storage that completes every request, in any order
    and in batches of any size, a call without a journal returns the requested amount after at
    most one round per byte. *)

From S2P Require Import Prelude Common Effects CppStrings RandAlgo BlockSizeMix OffsetGen Journal Integrity.
From S2P Require Import LatencyHistogram LiveOps RWLoop AsyncEngine AsyncTheory AsyncKernels.

#[local] Open Scope list_scope.
#[local] Open Scope Z_scope.

(** ** Engines that make progress *)

Section progress.
Context {R D G W Q C : Type} {HR : RandAlgo R} {HD : RandAlgo D} {HG : OffsetGenerator R D G}.
Context {HE : AsyncEngine R D G W Q C} {HL : EngineLaws (C := C)} {HGL : OffsetGenLaws R D G}.
#[local] Abbreviation state := (AsyncState R D G W Q).
#[local] Abbreviation args_t := (RWArgs (R := R)).
#[local] Abbreviation inflight s := (eng_inflight (as_world s)).

(** The part of the state that an engine works on. *)
Definition vectors (s : state) := (as_bufs s, as_reqs s, as_startT s, as_world s).

(** [er_ok]: the engine can issue requests for [n] slots.  [er_good c q]: [c] reports success of [q]. *)
Class EngineReliable (args : args_t) (n : nat) : Type := {
  er_ok : state -> Prop;
  er_good : C -> Q -> Prop;
  er_ok_ext s s' : vectors s' = vectors s -> er_ok s -> er_ok s';
  er_issue i f off k s :
    er_ok s -> (i < n)%nat -> (i ∉ (inflight s).*1) ->
    wpt (eng_issue args i f off k None) s (post (fun _ s' => er_ok s') (fun _ _ => False));
  er_wait s :
    er_ok s -> inflight s <> [] -> Forall (fun r => as_reqs s !! r.1 = Some r.2) (inflight s) ->
    wpt eng_wait s
      (post (fun cs s' => cs <> [] /\ er_ok s'
               /\ exists rs, Forall2 (fun c r => r.1 = eng_slot c /\ er_good c r.2) cs rs
                    /\ inflight s ≡ₚ rs ++ inflight s') (fun _ _ => False));
  er_check c q s :
    er_ok s -> as_reqs s !! eng_slot c = Some q -> er_good c q -> (eng_slot c < n)%nat ->
    wpt (eng_check args c) s (post (fun early s' => early = None /\ er_ok s') (fun _ _ => False));
  er_account c q s :
    er_ok s -> as_reqs s !! eng_slot c = Some q -> (eng_slot c < n)%nat ->
    wpt (eng_account args c) s (post (fun _ s' => er_ok s') (fun _ _ => False));
  er_running s : er_ok s -> eng_interrupted (as_world s) = false;
}.

Context (args : args_t) (n : nat) (Hn : (0 < n)%nat) {HER : EngineReliable args n} (Hj : ra_journalEnabled args = false).
Context (s0 : state).
#[local] Abbreviation inv := (async_inv n s0 args).
#[local] Abbreviation left s := (getNumBytesLeftToSubmit (rw_gen (as_rw s))).

(** The invariant of a call that makes progress. *)
Record live (busy : list (nat * Q)) (s : state) : Prop := {
  lv_inv : inv busy s;
  lv_gen : og_inv (rw_gen (as_rw s));
  lv_env : env_ok (rw_env (as_rw s));
  lv_ok : er_ok s;
  lv_total : getNumBytesTotal (rw_gen (as_rw s)) = getNumBytesTotal (rw_gen (as_rw s0));
}.

Lemma live_left busy s : live busy s -> 0 <= left s.
Proof. intros H. apply og_left_range, H. Qed.

(** No draw is pending without a journal. *)
Lemma live_no_draw busy s : live busy s -> as_pendingDraw s = None.
Proof.
  intros [[_ _ _ _ _ (ios & g & e & sel & reqs & _ & Hd & _)] _ _ _ _]. unfold drawn in Hd.
  destruct (as_pendingDraw s) as [[]|]; [|done]. destruct Hd. congruence.
Qed.

Lemma live_slot r busy s : live (r :: busy) s -> (r.1 < n)%nat.
Proof.
  intros [[Hs _ _ _ _ _] _ _ _ _]. assert (r.1 ∈ seq 0 n) as Hi.
  { rewrite <- Hs. apply elem_of_app. right. cbn. left. }
  apply elem_of_seq in Hi. lia.
Qed.

(** A submission succeeds and takes at least a byte. *)
Lemma trySubmitSlot_live i free s :
  live (inflight s) s -> as_free s = i :: free -> left s <> 0 ->
  wpt (trySubmitSlot args i) s
    (post (fun res s' => res = SubmitRes_SUBMITTED /\ og_inv (rw_gen (as_rw s')) /\ env_ok (rw_env (as_rw s')) /\ er_ok s'
             /\ getNumBytesTotal (rw_gen (as_rw s')) = getNumBytesTotal (rw_gen (as_rw s)) /\ left s' < left s)
          (fun _ _ => False)).
Proof.
  intros Hlv Hfree Hl. pose proof (live_no_draw _ _ Hlv) as Hp. destruct Hlv as [Hinv Hg He Hok _].
  destruct (inv_free_slot n s0 args Hn _ _ _ _ Hinv Hfree) as [Hni Hlt].
  destruct (og_step _ _ Hg He Hl) as (off & g1 & e1 & k & e2 & Ho & Hk & He2 & Hk0 & _ & _ & Hg' & Hl' & _ & Ht & _).
  unfold trySubmitSlot, next_draw. rewrite Hj. cbn [negb]. eff_step.
  exists (Ok (off, k)), (upd_rw (fun rw => set_gen rw g1 e2) s). split; [unfold draw_next; rewrite Ho; cbn; by rewrite Hk|].
  cbn [post]. destruct (calcFileIdxAndOffsetStriped off _ _ _) as [f o]. unfold submit_decided. set (s1 := upd_rw _ s).
  eff_step.
  assert (er_ok s1) as Hok1 by by apply (er_ok_ext s). change (inflight s) with (inflight s1) in Hni.
  eapply wpt_mono; [apply wpt_and; [by apply (er_issue i f o k s1)|by apply eng_issue_law]|].
  intros [[]|] s2 [H1 H2]; cbn [post] in *; [|done]. destruct H2 as (Hc & _). unfold control in Hc.
  injection Hc as C1 C2 C3 C4 C5 C6 C7. unfold count_submitted. eff_steps. cbn.
  rewrite C1, C2. cbn. split_and!; try done; [by apply (er_ok_ext s2)|lia].
Qed.

Lemma fillIdleSlots_live fuel s :
  live (inflight s) s -> left s <= Z.of_nat fuel ->
  wpt (fillIdleSlots fuel args) s
    (post (fun _ s' => live (inflight s') s' /\ left s' <= left s
             /\ Z.of_nat (as_numPending s') + left s' <= Z.of_nat (as_numPending s) + left s)
          (fun _ _ => False)).
Proof.
  revert s. induction fuel as [|fuel IH]; intros s Hlv Hf; unfold wpt; cbn [fillIdleSlots];
    destruct (as_free s) as [|i free] eqn:Hfree; [by eexists _, _| |by eexists _, _|];
    destruct (Z.eqb_spec (left s) 0) as [Hz|Hz]; try by eexists _, _.
  { pose proof (live_left _ _ Hlv). lia. }
  fold (wpt (res ← trySubmitSlot args i; match res with
             | SubmitRes_SKIPPED => fillIdleSlots fuel args
             | SubmitRes_DEFERRED => mret tt
             | SubmitRes_SUBMITTED =>
                 eff_modify (fun s => set_free (tail (as_free s)) (S (as_numPending s)) s);; fillIdleSlots fuel args
             end) s (post (fun _ s' => live (inflight s') s' /\ left s' <= left s
             /\ Z.of_nat (as_numPending s') + left s' <= Z.of_nat (as_numPending s) + left s)
          (fun _ _ => False))).
  pose proof Hlv as [Hinv Hg He Hok Ht].
  destruct (inv_free_slot n s0 args Hn _ _ _ _ Hinv Hfree) as [Hni Hlt]. pose proof Hinv as [_ _ _ _ _
    (ios & g & e & sel & reqs & H6 & H7 & H8 & H9 & H10 & H11 & H12 & H13)].
  eff_step. eapply wpt_mono; [apply wpt_and; [by eapply trySubmitSlot_live|by apply (trySubmitSlot_spec _ i _ g e)]|].
  intros [res|] s1 [H1 H2]; cbn [post] in *; [|done].
  destruct H1 as (-> & Hg1 & He1 & Hok1 & Ht1 & Hl1). destruct H2 as (Hfr & Hnp & Hst & Hgd & off & k & g' & e' & q & Hdraw & Hd & Hin & Hrq & Hlog & Hreq).
  eff_step. eff_step. set (s2 := set_free _ _ s1).
  assert (live (inflight s2) s2) as Hlv2.
  { split; [|done|done|by apply (er_ok_ext s1)|by rewrite <- Ht].
    by eapply (inv_submitted n s0 args Hn s s1 i free off k). }
  eapply wpt_mono; [apply IH; [done|]|].
  { change (left s2) with (left s1). lia. }
  intros [[]|] s3 H; cbn [post] in *; [|done]. destruct H as (H3 & H4 & H5). split; [done|].
  change (left s2) with (left s1) in H4, H5. change (as_numPending s2) with (S (as_numPending s1)) in H5. lia.
Qed.

Lemma checkInterruptionRequest_live s : er_ok s -> wpt checkInterruptionRequest s (post (fun _ s' => s' = s) (fun _ _ => False)).
Proof. intros H. unfold checkInterruptionRequest. eff_step. eff_step. rewrite er_running by done. by eff_step. Qed.

Lemma process_completion_live c r busy s :
  r.1 = eng_slot c -> er_good c r.2 -> live (r :: busy) s ->
  wpt (process_completion args c) s
    (post (fun early s' => early = None /\ live busy s' /\ inflight s' = inflight s /\ left s' = left s) (fun _ _ => False)).
Proof.
  intros Hr Hgood Hlv. pose proof (live_slot _ _ _ Hlv) as Hlt. rewrite Hr in Hlt. destruct Hlv as [Hinv Hg He Hok Ht].
  pose proof (ai_reqs _ _ _ _ _ Hinv) as [Hq _]%Forall_cons. rewrite Hr in Hq.
  assert (wpt (process_completion args c) s (post (fun early s' => early = None /\ er_ok s'
    /\ rw_gen (as_rw s') = rw_gen (as_rw s) /\ rw_env (as_rw s') = rw_env (as_rw s)) (fun _ _ => False))) as Hrun.
  { unfold process_completion. eff_step. eapply wpt_mono; [apply wpt_and; [by eapply er_check|by apply eng_check_law]|].
    intros [early|] s1 [H1 H2]; cbn [post] in *; [|done]. destruct H1 as [-> Hok1]. destruct H2 as ((Hc & Hrq & _ & _) & _ & Hv).
    specialize (Hv eq_refl). unfold control in Hc. injection Hc as C1 C2 _ _ _ _ _. rewrite Hj.
    eff_step. eff_step. eff_step. cbn [eff_when]. eff_step. eff_step. set (s2 := set_free _ _ s1).
    assert (as_reqs s2 !! eng_slot c = Some r.2) as Hq2 by (change (as_reqs s2) with (as_reqs s1); by rewrite Hrq).
    eapply wpt_mono; [apply wpt_and; [eapply (er_account c r.2 s2); [by apply (er_ok_ext s1)|done|done]|by eapply eng_account_law]|].
    intros [[]|] s3 [H3 H4]; cbn [post] in *; [|done]. destruct H4 as ((Hc3 & _) & _). unfold control in Hc3.
    injection Hc3 as D1 D2 _ _ _ _ _.
    eff_step. eapply wpt_mono; [by apply checkInterruptionRequest_live|]. intros [[]|] s4 H; cbn [post] in *; [|done]. subst s4.
    eff_step. split_and!; try done; congruence. }
  eapply wpt_mono; [apply wpt_and; [exact Hrun|by apply (process_completion_inv n s0 args Hn c r busy)]|].
  intros [early|] s' [H1 H2]; cbn [post] in *; [|done]. destruct H1 as (-> & Hok' & Hgen & Henv). destruct H2 as [Hin Hinv'].
  split; [done|]. split; [split; [done|congruence..]|]. split; [done|congruence].
Qed.

Lemma process_completions_live cs rs busy s :
  Forall2 (fun c r => r.1 = eng_slot c /\ er_good c r.2) cs rs -> live (rs ++ busy) s ->
  wpt (process_completions args cs) s
    (post (fun early s' => early = None /\ live busy s' /\ inflight s' = inflight s /\ left s' = left s) (fun _ _ => False)).
Proof.
  intros H2. revert s. induction H2 as [|c r cs rs [Hr Hgood] H2 IH]; intros s Hlv; cbn [process_completions]; [by eff_step|].
  eff_step. eapply wpt_mono; [by apply (process_completion_live c r (rs ++ busy))|].
  intros [early|] s1 H; cbn [post] in *; [|done]. destruct H as (-> & Hlv1 & Hin & Hl).
  eapply wpt_mono; [by apply IH|]. intros [early|] s2 H'; cbn [post] in *; [|done].
  destruct H' as (-> & Hlv2 & Hin2 & Hl2). split_and!; (done || congruence).
Qed.

(** Each round completes at least one request. *)
Lemma completion_loop_live fuel fillFuel s :
  live (inflight s) s -> left s <= Z.of_nat fillFuel -> Z.of_nat (as_numPending s) + left s <= Z.of_nat fuel ->
  wpt (completion_loop fuel fillFuel args) s
    (post (fun rc s' => rc = getNumBytesTotal (rw_gen (as_rw s0)) /\ as_numPending s' = O) (fun _ _ => False)).
Proof.
  revert s. induction fuel as [|fuel IH]; intros s Hlv Hff Hf; pose proof (live_left _ _ Hlv) as Hl0; unfold wpt; cbn [completion_loop];
    destruct (as_numPending s) as [|np] eqn:Hnp; [| |eexists _, _; split; [done|]; split; [apply Hlv|done]|].
  { eexists _, _. split; [done|]. split; [apply Hlv|done]. }
  { lia. }
  fold (wpt (cs ← eng_wait;
           match cs with
           | [] => checkInterruptionRequest;; completion_loop fuel fillFuel args
           | _ =>
               early ← process_completions args cs;
               match early with
               | Some rc => mret rc
               | None => fillIdleSlots fillFuel args;; completion_loop fuel fillFuel args
               end
           end) s (post (fun rc s' => rc = getNumBytesTotal (rw_gen (as_rw s0)) /\ as_numPending s' = O) (fun _ _ => False))).
  pose proof Hlv as [Hinv Hg He Hok Ht].
  assert (inflight s <> []) as Hne.
  { intros Hnil. pose proof (ai_pending _ _ _ _ _ Hinv) as Hpd. rewrite Hnp, Hnil in Hpd. done. }
  eff_step. eapply wpt_mono; [apply wpt_and; [apply er_wait; [done|done|apply Hinv]|apply eng_wait_law]|].
  intros [cs|] s1 [H1 H2]; cbn [post] in *; [|done]. destruct H1 as (Hcs & Hok1 & rs & Hrs & Hin1).
  destruct H2 as (Hc & Hst & Hrq & Hlog & _).
  assert (inv (rs ++ inflight s1) s1) as Hinv1 by by eapply async_inv_ext.
  unfold control in Hc. injection Hc as C1 C2 C3 C4 C5 C6 C7.
  assert (live (rs ++ inflight s1) s1) as Hlv1 by (split; [done|by rewrite C1|by rewrite C2|done|by rewrite C1]).
  destruct cs as [|c cs]; [done|]. eff_step. eapply wpt_mono; [by eapply process_completions_live|].
  intros [early|] s2 H; cbn [post] in *; [|done]. destruct H as (-> & Hlv2 & Hin2 & Hl2). rewrite <- Hin2 in Hlv2.
  assert (as_numPending s2 < as_numPending s)%nat as Hdec.
  { rewrite (ai_pending _ _ _ _ _ (lv_inv _ _ Hlv2)), (ai_pending _ _ _ _ _ Hinv), Hin1, Hin2, length_app.
    destruct rs; [by apply Forall2_cons_nil_inv in Hrs|cbn; lia]. }
  eff_step. eapply wpt_mono; [apply fillIdleSlots_live; [done|rewrite Hl2, C1; lia]|].
  intros [[]|] s3 H; cbn [post] in *; [|done]. destruct H as (Hlv3 & Hl3 & Hm3).
  pose proof (live_left _ _ Hlv3). rewrite Hl2, C1 in Hl3, Hm3. apply IH; [done|lia|]. rewrite Hnp in Hdec. lia.
Qed.
End progress.

(** ** libaio on storage that works *)

(** Every request is accepted and eventually reported with all its bytes; nobody interrupts. *)
Class AioKernelReliable {W : Type} (K : AioKernel W) {HK : AioKernelLaws K} : Type := {
  k_fine : W -> Prop;
  k_fine_now w : k_fine w -> k_fine (k_now K w).2;
  k_fine_flock f off len isWrite isUnlock w :
    k_fine w -> exists w', k_flock K f off len isWrite isUnlock w = Ok w' /\ k_fine w';
  k_fine_ratelimit l n w : k_fine w -> exists b w', k_ratelimit K l n w = Ok (b, w') /\ k_fine w';
  k_fine_submit i q buf w : k_fine w -> (k_submit K i q buf w).1 = 1 /\ k_fine (k_submit K i q buf w).2;
  k_fine_events w :
    k_fine w -> k_inflight w <> [] ->
    exists evs rs w', k_getevents K w = (Z.of_nat (length evs), evs, w') /\ evs <> [] /\ k_fine w'
      /\ Forall2 (fun ev r => r.1 = ev_slot ev /\ ev_res2 ev = 0 /\ ev_res ev = cb_nbytes r.2) evs rs
      /\ k_inflight w ≡ₚ rs ++ k_inflight w';
  k_fine_running w : k_fine w -> k_interrupted K w = false;
}.

(** The functions of a phase without journal, GPU and verification of what is read. *)
Record plain_aio_funcs (f : PhaseFuncs) : Prop := {
  pf_prepper : funcAioRwPrepper f = Some aioWritePrepper \/ funcAioRwPrepper f = Some aioReadPrepper
               \/ funcAioRwPrepper f = Some aioRWMixPrepper;
  pf_modifier : funcPreWriteBlockModifier f = Mod_noOp \/ funcPreWriteBlockModifier f = Mod_integrityFill
                \/ funcPreWriteBlockModifier f = Mod_randRefill;
  pf_checker : funcPostReadBlockChecker f = Check_noOp;
}.

Section aio_progress.
Context {R D G W : Type} {HR : RandAlgo R} {HD : RandAlgo D} {HG : OffsetGenerator R D G}.
Context (K : AioKernel W) {HK : AioKernelLaws K} {HKR : AioKernelReliable K}.
Context (args : RWArgs (R := R)) (n : nat) (Hpf : plain_aio_funcs (ra_funcs args)).
#[local] Abbreviation state := (AsyncState R D G W iocb).

Definition aio_ok (s : state) : Prop :=
  (n <= length (as_bufs s))%nat /\ (n <= length (as_startT s))%nat /\ (n <= length (as_reqs s))%nat /\ k_fine (as_world s).

#[local] Abbreviation fine m s := (wpt m s (post (fun _ s' => aio_ok s' /\ as_reqs s' = as_reqs s) (fun _ _ => False))).

Lemma aio_now_fine (s : state) : aio_ok s -> fine (aio_now K) s.
Proof.
  intros (H1 & H2 & H3 & H4). unfold aio_now. eff_step. eff_step. pose proof (k_fine_now _ H4). destruct (k_now K _).
  by eff_steps.
Qed.

Lemma aio_flock_fine f off len w u (s : state) : aio_ok s -> fine (aio_flock K f off len w u) s.
Proof.
  intros (H1 & H2 & H3 & H4). unfold aio_flock. eff_step. eff_step. eff_step. eff_step.
  destruct (k_fine_flock f off len w u _ H4) as (w' & -> & Hw'). cbn [post]. by eff_step.
Qed.

Lemma aio_ratelimit_fine k (s : state) : aio_ok s -> fine (aio_ratelimit K args k) s.
Proof.
  intros (H1 & H2 & H3 & H4). unfold aio_ratelimit. eff_step. eff_step. eff_step. eff_step.
  destruct (k_fine_ratelimit (funcRWRateLimiter (ra_funcs args)) k _ H4) as (b & w' & -> & Hw'). cbn [post].
  eff_step. eff_step. eff_step; eff_steps; (split; [|done]); split_and!; try done. cbn. by rewrite length_fmap.
Qed.

(** A call on the buffer of a slot that keeps the world. *)
Lemma with_slot_fine {A} i (m : _ -> option (result A * _)) (s : state) :
  aio_ok s -> (i < n)%nat ->
  (forall rw, rw_world rw = as_world s -> exists a rw', m rw = Some (Ok a, rw') /\ rw_world rw' = as_world s) ->
  fine (with_slot i m) s.
Proof.
  intros (H1 & H2 & H3 & H4) Hi Hm. destruct (lookup_lt_is_Some_2 (as_bufs s) i) as [buf Hb]; [lia|].
  destruct (Hm (load_slot i buf s)) as (a & rw' & Hm' & Hw); [apply load_slot_fields|].
  eexists _, _. split; [unfold with_slot; rewrite Hb; cbn; by rewrite Hm'|]. cbn. split; [|done].
  split_and!; cbn; [by rewrite length_insert|done|done|]. unfold as_world in *. cbn. by rewrite Hw.
Qed.

Lemma slot_modify_fine i f len off (s : state) : aio_ok s -> (i < n)%nat -> fine (slot_modify args i f len off) s.
Proof.
  intros Hs Hi. apply with_slot_fine; [done|done|]. intros rw Hw. unfold pre_write_modify.
  destruct (pf_modifier _ Hpf) as [-> |[-> | ->]]; cbn; [by eexists _, _..|]. case_match. by eexists _, _.
Qed.

Lemma slot_verify_fine i len off (s : state) : aio_ok s -> (i < n)%nat -> fine (slot_verify args i len off) s.
Proof.
  intros Hs Hi. unfold slot_verify. eff_step. eff_step. apply with_slot_fine; [done|done|]. intros rw Hw. unfold post_read_check.
  rewrite (pf_checker _ Hpf). cbn. by eexists _, _.
Qed.

#[local] Ltac fine_call lem s H :=
  eff_step; (eapply wpt_mono; [by apply lem|]); intros [[]|] s H; cbn [post] in *; [destruct H as [H _]|done].

#[global] Program Instance aio_reliable : EngineReliable (HE := aio_engine (D := D) (G := G) K) args n := {|
  er_ok := aio_ok;
  er_good ev q := ev_res2 ev = 0 /\ ev_res ev = cb_nbytes q;
|}.
Next Obligation. intros s s' Hv (H1 & H2 & H3 & H4). unfold vectors in Hv. injection Hv as V1 V2 V3 V4. unfold aio_ok. by rewrite V1, V2, V3, V4. Qed.
Next Obligation.
  intros i f off k s Hok Hi _. cbn. unfold aio_issue. eff_step. eff_step. eff_step.
  destruct (prepper_isRead args i (id s)) as [isRead|] eqn:Hpr.
  2: { exfalso. unfold prepper_isRead in Hpr. by destruct (pf_prepper _ Hpf) as [E|[E|E]]; rewrite E in Hpr. }
  eapply wpt_some; [done|]. cbn [post]. set (q := mkIocb isRead f k off). eff_step. eff_step. eff_step.
  assert (aio_ok (set_request i q s)) as Hok1.
  { destruct Hok as (H1 & H2 & H3 & H4). split_and!; try done. cbn. by rewrite length_insert. }
  eapply wpt_mono; [by apply aio_now_fine|]. intros [t|] s2 Hok2; cbn [post] in *; [destruct Hok2 as [Hok2 _]|done]. eff_step. eff_step.
  assert (aio_ok (set_startT (<[i := Some t]> (as_startT s2)) s2)) as Hok3.
  { destruct Hok2 as (H1 & H2 & H3 & H4). split_and!; try done. cbn. by rewrite length_insert. }
  fine_call aio_ratelimit_fine s3 Hok4. fine_call slot_modify_fine s4 Hok5. fine_call aio_flock_fine s5 Hok6.
  destruct Hok6 as (H1 & H2 & H3 & H4).
  destruct (lookup_lt_is_Some_2 (as_bufs s5) i) as [buf Hb]; [lia|].
  eff_step. unfold aio_submit. eff_step. eff_step. eff_step. eapply wpt_some; [exact Hb|]. cbn [post]. unfold id.
  destruct (k_fine_submit i q (take (Z.to_nat (cb_nbytes q)) buf) _ H4) as [Hrc Hw].
  destruct (k_submit K i q _ (as_world s5)) as [rc w']. cbn in Hrc, Hw. subst rc. eff_step. eff_step. eff_step.
  change (negb (1 =? 1)) with false. cbv iota. by eff_step.
Qed.
Next Obligation.
  intros s Hok Hne Hrq. cbn in *. destruct Hok as (H1 & H2 & H3 & H4). unfold aio_wait. eff_step. eff_step.
  destruct (k_fine_events _ H4 Hne) as (evs & rs & w' & -> & Hev & Hw & Hrs & Hin). eff_step. eff_step.
  assert (0 < Z.of_nat (length evs)) as Hpos by (destruct evs; [done|cbn; lia]).
  rewrite (proj2 (Z.eqb_neq _ _)), (proj2 (Z.ltb_ge _ _)) by lia. eff_step. rewrite take_ge by lia. split_and!; try done.
  by exists rs.
Qed.
Next Obligation.
  intros ev q s Hok Hq [Hr2 Hr] Hi. cbn in *. unfold aio_check. eff_step. eff_step. eff_step. eapply wpt_some; [exact Hq|]. cbn [post].
  eff_step.
  assert (wpt (eff_when (cb_isRead q) (eff_modify (set_slot_buf (ev_slot ev) (ev_bytes ev)))) s
    (post (fun _ s' => aio_ok s') (fun _ _ => False))) as Hbuf.
  { apply wpt_when; intros _; [eff_step|done]. destruct Hok as (H1 & H2 & H3 & H4). split_and!; try done. cbn. by rewrite length_alter. }
  eapply wpt_mono; [exact Hbuf|]. intros [[]|] s1 H1; cbn [post] in *; [|done].
  rewrite Hr2, Hr, Z.eqb_refl. cbn [truthy Z.eqb negb orb]. fine_call aio_flock_fine s2 Hok2. fine_call slot_verify_fine s3 Hok3. by eff_step.
Qed.
Next Obligation.
  intros ev q s Hok Hq Hi. cbn in *. unfold aio_account. eff_step. eff_step. eff_step. eapply wpt_some; [exact Hq|]. cbn [post].
  destruct (lookup_lt_is_Some_2 (as_startT s) (ev_slot ev)) as [t0 Ht0]; [destruct Hok as (_ & ? & _); lia|].
  eff_step. eapply wpt_some; [exact Ht0|]. cbn [post]. eff_step. eapply wpt_mono; [by apply aio_now_fine|].
  intros [t|] s1 H1; cbn [post] in *; [destruct H1 as [H1 _]|done]. eff_steps. destruct H1 as (? & ? & ? & Hw). split_and!; try done.
  unfold as_world in *. cbn. unfold account_async, account_io. by destruct t0, (_ && _).
Qed.
Next Obligation. intros s (_ & _ & _ & H). by apply k_fine_running. Qed.
End aio_progress.

(** ** An example kernel: the newest request completes first *)

Record stack_world : Type := mkStack { sk_inflight : list (nat * iocb); sk_log : list (nat * iocb); sk_clock : Z }.

Definition stack_kernel : AioKernel stack_world := {|
  k_now w := (sk_clock w, mkStack (sk_inflight w) (sk_log w) (sk_clock w + 1));
  k_ratelimit _ _ w := Ok (false, w);
  k_flock _ _ _ _ _ w := Ok w;
  k_submit i q _ w := (1, mkStack ((i, q) :: sk_inflight w) (sk_log w ++ [(i, q)]) (sk_clock w));
  k_getevents w :=
    match sk_inflight w with
    | [] => (0, [], w)
    | (i, q) :: rest =>
        (1, [mkEvent i (cb_nbytes q) 0 (replicate (Z.to_nat (cb_nbytes q)) 0)], mkStack rest (sk_log w) (sk_clock w))
    end;
  k_interrupted _ := false;
|}.

#[global] Program Instance stack_kernel_laws : AioKernelLaws stack_kernel := {|
  k_inflight := sk_inflight;
  k_log := sk_log;
|}.
Next Obligation. done. Qed.
Next Obligation. intros f off len b1 b2 w w' [= <-]. done. Qed.
Next Obligation. intros l n w b w' [= <- <-]. done. Qed.
Next Obligation. intros i q buf w Hi _. done. Qed.
Next Obligation.
  intros w n evs w' Hg Hn. cbn in Hg. destruct (sk_inflight w) as [|[i q] rest] eqn:Hi; injection Hg as <- <- <-; cbn.
  - split_and!; try done. exists []. by rewrite Hi.
  - split_and!; try done. exists [(i, q)]. split; [by repeat constructor|done].
Qed.

#[global] Program Instance stack_kernel_reliable : AioKernelReliable stack_kernel := {| k_fine _ := True |}.
Next Obligation. done. Qed.
Next Obligation. intros f off len b1 b2 w _. by exists w. Qed.
Next Obligation. intros l n w _. by exists false, w. Qed.
Next Obligation. done. Qed.
Next Obligation.
  intros w _ Hne. cbn in *. destruct (sk_inflight w) as [|[i q] rest]; [done|].
  exists [mkEvent i (cb_nbytes q) 0 (replicate (Z.to_nat (cb_nbytes q)) 0)], [(i, q)], (mkStack rest (sk_log w) (sk_clock w)).
  split_and!; try done. by repeat constructor.
Qed.
Next Obligation. done. Qed.

(** ** Theorems *)

(** The destructor of the journal slots does not change the pending requests. *)
Lemma async_release_pending {R D G W Q : Type} (total : Z) (r : result Z) (s : AsyncState R D G W Q) :
  post (fun rc s' => rc = total /\ as_numPending s' = O) (fun _ _ => False) r s ->
  post (fun rc s' => rc = total /\ as_numPending s' = O) (fun _ _ => False) r (async_slots_release s).
Proof. unfold async_slots_release. by destruct (release_slots _ _). Qed.

(** C6: an asynchronous engine on storage that completes every request terminates.  Without a journal, for
    any queue depth, any order and batching of the completions and any generator that keeps its
    laws, a call returns the amount of the generator after at most one round per byte; the
    requests are exactly the accesses of the drained generator, in its order and at the right file
    and offset, each is completed, and the counters grow by exactly their bytes and number. *)
Theorem async_phase_completes {R D G W Q C : Type} {HR : RandAlgo R} {HD : RandAlgo D} {HG : OffsetGenerator R D G}
    {HE : AsyncEngine R D G W Q C} {HL : EngineLaws (C := C)} {HGL : OffsetGenLaws R D G} {HDL : OffsetGenDrawLaws R D G}
    (args : RWArgs (R := R)) (n : nat) {HER : EngineReliable (HE := HE) args n} (s : AsyncState R D G W Q) :
  (0 < n <= length (as_reqs s))%nat -> ra_journalEnabled args = false -> er_ok s -> eng_inflight (as_world s) = [] ->
  rw_guardsHeld (as_rw s) = 0 -> og_inv (rw_gen (as_rw s)) -> env_ok (rw_env (as_rw s)) ->
  let amount := getNumBytesLeftToSubmit (rw_gen (as_rw s)) in
  exists s' ios reqs,
    asyncBlockSized (Z.to_nat amount) (Z.to_nat amount) n args s = Some (Ok (getNumBytesTotal (rw_gen (as_rw s))), s')
    /\ og_drain (length ios) (rw_gen (as_rw s)) (rw_env (as_rw s)) = Some (ios, (rw_gen (as_rw s'), rw_env (as_rw s')))
    /\ eng_log (as_world s') = eng_log (as_world s) ++ reqs /\ Forall2 (request_for args) ios reqs
    /\ eng_inflight (as_world s') = [] /\ as_numPending s' = O
    /\ u64 (counted_bytes s') = u64 (counted_bytes s + Zsum (eng_bytes <$> reqs.*2))
    /\ u64 (counted_ios s') = u64 (counted_ios s + Z.of_nat (length reqs)).
Proof.
  intros Hn Hj Hok Hin Hheld Hg He amount. pose proof (og_left_range _ Hg) as Hl0.
  assert (live args n s (eng_inflight (as_world s)) (async_call_start n s)) as Hlv.
  { split; [apply async_inv_start; (done || lia)|done|done|by apply (er_ok_ext s)|done]. }
  assert (wpt (eff_modify (async_call_start n);; fillIdleSlots (Z.to_nat amount) args;;
               completion_loop (Z.to_nat amount) (Z.to_nat amount) args) s
    (post (fun rc s' => rc = getNumBytesTotal (rw_gen (as_rw s)) /\ as_numPending s' = O) (fun _ _ => False))) as Hbody.
  { eff_step. eff_step. eff_step. change (eng_inflight (as_world s)) with (eng_inflight (as_world (async_call_start n s))) in Hlv.
    eapply wpt_mono; [apply (fillIdleSlots_live args n (proj1 Hn) Hj s); [exact Hlv|cbn; lia]|]. intros [[]|] s1 H; cbn [post] in *; [|done].
    destruct H as (Hlv1 & Hl1 & Hm1). cbn in Hl1, Hm1. apply (completion_loop_live args n (proj1 Hn) Hj s); (done || lia). }
  destruct (wpt_finally _ async_slots_release _ (post (fun rc s' => rc = getNumBytesTotal (rw_gen (as_rw s)) /\ as_numPending s' = O)
    (fun _ _ => False)) (wpt_mono _ _ _ _ Hbody (async_release_pending _))) as ([rc|] & s' & Hrun & Hp); cbn [post] in Hp; [|done].
  destruct Hp as [-> Hz]. destruct (async_call_spec _ _ n args s s' _ Hn Hin Hheld Hrun) as
    (ios & sel & reqs & Hlog & Hreq & _ & Hsel & _ & _ & Hend). rewrite (Hsel Hj) in Hreq.
  destruct (Hend Hz) as (_ & Hin' & _ & Hd & Hb & Hi). by exists s', ios, reqs.
Qed.

#[local] Abbreviation stack_engine :=
  (aio_engine (R := xoshiro_state) (D := xoshiro_state) (G := OffsetGenSequential) stack_kernel).

(** 20 bytes with block sizes 4 and 6 mixed, three requests in flight, newest completed first. *)
Definition aio_pa : PhaseArgs :=
  mkPhaseArgs 3 false false false false false false 77 false false false 0 0 0 0 0 0 false.

Definition aio_rwargs : RWArgs (R := xoshiro_state) :=
  mkRWArgs 0 BenchPhase_CREATEFILES BenchPhase_CREATEFILES 0 0 20 3 true false 77
    (initPhaseFunctionPointers BenchPhase_CREATEFILES BenchPhase_CREATEFILES aio_pa) (fun _ r => ([], r)) (fun _ => true) 4096.

Definition aio_state {G} (g : G) (depth : nat) (slots : list (JournalBlockIO * Z)) (journals : list Journal)
    : AsyncState xoshiro_state xoshiro_state G stack_world iocb :=
  mkAsync
    (mkRWState g demo_env (mkStack [] [] 0) [] (mkXoshiro 1 2 3 4) 0 LatencyHistogram_new LatencyHistogram_new
       LiveOps_zero LiveOps_zero JournalBlockIO_new 0 journals ∅ None)
    (replicate depth []) slots (replicate depth (mkIocb true 0 0 0)) (replicate depth None) [] None 0 0.

Lemma aio_plain_funcs : plain_aio_funcs (ra_funcs aio_rwargs).
Proof. split; cbn; auto. Qed.

Lemma async_phase_completes_witness :
  exists s' ios reqs,
    aioBlockSized stack_kernel 20 20 3 aio_rwargs (aio_state (OffsetGenSequential_new 20 0 demo_mix) 3 [] []) = Some (Ok 20, s')
    /\ Forall2 (request_for (HE := stack_engine) aio_rwargs) ios reqs /\ as_numPending s' = O
    /\ k_log (as_world s') = reqs.
Proof.
  destruct (async_phase_completes (HE := stack_engine) (HL := aio_laws stack_kernel) aio_rwargs 3
    (HER := aio_reliable stack_kernel aio_rwargs 3 aio_plain_funcs)
    (aio_state (OffsetGenSequential_new 20 0 demo_mix) 3 [] [])) as (s' & ios & reqs & Hrun & _ & Hlog & Hreq & _ & Hz & _).
  - cbn. lia.
  - reflexivity.
  - cbn. unfold aio_ok. cbn. repeat split; lia.
  - reflexivity.
  - reflexivity.
  - split; [exact demo_mix_ok|]. vm_compute. repeat split; discriminate.
  - exact demo_env_ok.
  - exists s', ios, reqs. split; [exact Hrun|]. split; [exact Hreq|]. split; [exact Hz|exact Hlog].
Defined.

(** A journaled write phase of two blocks in the same lock region, two requests allowed in flight:
    the second draw is deferred until the first request completes. *)
Definition deferring_rwargs : RWArgs (R := xoshiro_state) :=
  mkRWArgs 0 BenchPhase_CREATEFILES BenchPhase_CREATEFILES 0 0 32 0 true true 0
    (initPhaseFunctionPointers BenchPhase_CREATEFILES BenchPhase_CREATEFILES
       (mkPhaseArgs 2 false false false false false false 0 false false false 0 0 0 0 0 0 true))
    (fun _ r => ([], r)) (fun _ => true) 4096.

Definition deferring_start : AsyncState xoshiro_state xoshiro_state OffsetGenSequential stack_world iocb :=
  aio_state (OffsetGenSequential_new 32 0 (mix_finish [(16, 1)])) 2 (replicate 2 (JournalBlockIO_new, 0)) [small_journal].

Lemma deferring_defers :
  exists s1 s2, trySubmitSlot (C := io_event) (AsyncEngine0 := stack_engine) deferring_rwargs 0
                  (async_call_start 2 deferring_start) = Some (Ok SubmitRes_SUBMITTED, s1)
    /\ trySubmitSlot (C := io_event) (AsyncEngine0 := stack_engine) deferring_rwargs 1 s1 = Some (Ok SubmitRes_DEFERRED, s2)
    /\ as_pendingDraw s2 = Some (16, 16).
Proof. eexists _, _. split; [vm_compute; reflexivity|]. split; [vm_compute; reflexivity|]. reflexivity. Qed.

Lemma deferring_returns :
  exists s', asyncBlockSized (AsyncEngine0 := stack_engine) 32 32 2 deferring_rwargs deferring_start = Some (Ok 32, s').
Proof. eexists. vm_compute. reflexivity. Qed.

