(* ===== verification/AnyGen.v ===== *)
(** The offset generator of a worker: [std::unique_ptr<OffsetGenerator> rwOffsetGen] holds one of the
    generators of OffsetGen.v, chosen from the arguments at the start of a phase
    ([LocalWorker::initPhaseRWOffsetGen()]) and again for the random access to files and block
    devices ([LocalWorker::fileModeIterateFilesRand()]).  Its calls are dispatched to the object,
    and it keeps what the clients rely on because each generator does. *)

From S2P Require Import Prelude Common CoveringRandom RandAlgo UnitTk BlockSizeMix OffsetGen.

#[local] Open Scope Z_scope.

(** ** Definitions *)

Inductive AnyGen : Type :=
  | GenSequential (g : OffsetGenSequential)
  | GenReverseSeq (g : OffsetGenReverseSeq)
  | GenRandom (g : OffsetGenRandom)
  | GenRandomAligned (g : OffsetGenRandomAligned)
  | GenStrided (g : OffsetGenStrided)
  | GenFullCov (g : OffsetGenFullCov).

(** A call whose result holds the object. *)
Definition wrap_fst {G E : Type} (c : G -> AnyGen) (ge : G * E) : AnyGen * E := (c ge.1, ge.2).

(** The virtual calls. *)
#[export] Instance any_generator {R D} `{!RandAlgo R, !RandAlgo D} : OffsetGenerator R D AnyGen := {
  og_reset g e :=
    match g with
    | GenSequential g => wrap_fst GenSequential (og_reset g e)
    | GenReverseSeq g => wrap_fst GenReverseSeq (og_reset g e)
    | GenRandom g => wrap_fst GenRandom (og_reset g e)
    | GenRandomAligned g => wrap_fst GenRandomAligned (og_reset g e)
    | GenStrided g => wrap_fst GenStrided (og_reset g e)
    | GenFullCov g => wrap_fst GenFullCov (og_reset g e)
    end;
  og_reset_to len offset g e :=
    match g with
    | GenSequential g => ge ← og_reset_to len offset g e; Ok (wrap_fst GenSequential ge)
    | GenReverseSeq g => ge ← og_reset_to len offset g e; Ok (wrap_fst GenReverseSeq ge)
    | GenRandom g => ge ← og_reset_to len offset g e; Ok (wrap_fst GenRandom ge)
    | GenRandomAligned g => ge ← og_reset_to len offset g e; Ok (wrap_fst GenRandomAligned ge)
    | GenStrided g => ge ← og_reset_to len offset g e; Ok (wrap_fst GenStrided ge)
    | GenFullCov g => ge ← og_reset_to len offset g e; Ok (wrap_fst GenFullCov ge)
    end;
  getNextOffset g e :=
    match g with
    | GenSequential g => '(off, ge) ← getNextOffset g e; Some (off, wrap_fst GenSequential ge)
    | GenReverseSeq g => '(off, ge) ← getNextOffset g e; Some (off, wrap_fst GenReverseSeq ge)
    | GenRandom g => '(off, ge) ← getNextOffset g e; Some (off, wrap_fst GenRandom ge)
    | GenRandomAligned g => '(off, ge) ← getNextOffset g e; Some (off, wrap_fst GenRandomAligned ge)
    | GenStrided g => '(off, ge) ← getNextOffset g e; Some (off, wrap_fst GenStrided ge)
    | GenFullCov g => '(off, ge) ← getNextOffset g e; Some (off, wrap_fst GenFullCov ge)
    end;
  getBlockSize g :=
    match g with
    | GenSequential g => getBlockSize (R := R) (D := D) g
    | GenReverseSeq g => getBlockSize (R := R) (D := D) g
    | GenRandom g => getBlockSize (R := R) (D := D) g
    | GenRandomAligned g => getBlockSize (R := R) (D := D) g
    | GenStrided g => getBlockSize (R := R) (D := D) g
    | GenFullCov g => getBlockSize (R := R) (D := D) g
    end;
  getNextBlockSizeToSubmit g e :=
    match g with
    | GenSequential g => getNextBlockSizeToSubmit g e
    | GenReverseSeq g => getNextBlockSizeToSubmit g e
    | GenRandom g => getNextBlockSizeToSubmit g e
    | GenRandomAligned g => getNextBlockSizeToSubmit g e
    | GenStrided g => getNextBlockSizeToSubmit g e
    | GenFullCov g => getNextBlockSizeToSubmit g e
    end;
  getNumBytesTotal g :=
    match g with
    | GenSequential g => getNumBytesTotal (R := R) (D := D) g
    | GenReverseSeq g => getNumBytesTotal (R := R) (D := D) g
    | GenRandom g => getNumBytesTotal (R := R) (D := D) g
    | GenRandomAligned g => getNumBytesTotal (R := R) (D := D) g
    | GenStrided g => getNumBytesTotal (R := R) (D := D) g
    | GenFullCov g => getNumBytesTotal (R := R) (D := D) g
    end;
  getNumBytesLeftToSubmit g :=
    match g with
    | GenSequential g => getNumBytesLeftToSubmit (R := R) (D := D) g
    | GenReverseSeq g => getNumBytesLeftToSubmit (R := R) (D := D) g
    | GenRandom g => getNumBytesLeftToSubmit (R := R) (D := D) g
    | GenRandomAligned g => getNumBytesLeftToSubmit (R := R) (D := D) g
    | GenStrided g => getNumBytesLeftToSubmit (R := R) (D := D) g
    | GenFullCov g => getNumBytesLeftToSubmit (R := R) (D := D) g
    end;
  addBytesSubmitted n g :=
    match g with
    | GenSequential g => GenSequential (addBytesSubmitted (R := R) (D := D) n g)
    | GenReverseSeq g => GenReverseSeq (addBytesSubmitted (R := R) (D := D) n g)
    | GenRandom g => GenRandom (addBytesSubmitted (R := R) (D := D) n g)
    | GenRandomAligned g => GenRandomAligned (addBytesSubmitted (R := R) (D := D) n g)
    | GenStrided g => GenStrided (addBytesSubmitted (R := R) (D := D) n g)
    | GenFullCov g => GenFullCov (addBytesSubmitted (R := R) (D := D) n g)
    end;
}.

(** What the choice depends on. *)
Record GenArgs : Type := mkGenArgs {
  ga_benchPathType : BenchPathType;
  ga_benchMode : BenchMode;
  ga_globalBenchPhase : BenchPhase;
  ga_benchPhase : BenchPhase;
  ga_blockSize : Z;
  ga_blockSizeMix : BlockSizeMix;
  ga_isBlockSizeMixDefined : bool;
  ga_fileSize : Z;
  ga_randomAmount : Z;
  ga_numDataSetThreads : Z;
  ga_workerRank : Z;
  ga_doReverseSeqOffsets : bool;
  ga_useRandomOffsets : bool;
  ga_useStridedAccess : bool;
  ga_useRandomUnaligned : bool;
  ga_randOffsetAlgo : string;
}.

(** Random uploads of S3 objects go backwards. *)
Definition getS3ModeDoReverseSeqFallback (a : GenArgs) : bool :=
  ga_useRandomOffsets a && bool_decide (ga_benchMode a = BenchMode_S3) && bool_decide (ga_benchPhase a = BenchPhase_CREATEFILES).

(** Full coverage only for writes without an explicit algorithm and without a block size mix. *)
Definition no_full_coverage (a : GenArgs) : bool :=
  negb (bool_decide (ga_randOffsetAlgo a = "")) || negb (bool_decide (ga_globalBenchPhase a = BenchPhase_CREATEFILES))
  || ga_isBlockSizeMixDefined a.

Section choice.
Context {R D : Type} `{!RandAlgo R, !RandAlgo D}.

(** Random access to a range of the files; [e] holds the random sources of the worker. *)
Definition random_gen (a : GenArgs) (randomAmount rangeLen rangeOffset : Z) (e : Env R D) : result (AnyGen * Env R D) :=
  if ga_useRandomUnaligned a then
    g ← OffsetGenRandom_new randomAmount rangeLen rangeOffset (ga_blockSizeMix a); Ok (GenRandom g, e)
  else if no_full_coverage a then
    g ← OffsetGenRandomAligned_new randomAmount rangeLen rangeOffset (ga_blockSizeMix a); Ok (GenRandomAligned g, e)
  else
    let '(seed, e) := env_seed e in
    g ← OffsetGenFullCov_new randomAmount rangeLen rangeOffset (ga_blockSize a) seed; Ok (GenFullCov g, e).

Definition initPhaseRWOffsetGen (a : GenArgs) (e : Env R D) : result (AnyGen * Env R D) :=
  let randomAmount :=
    if bool_decide (ga_benchPathType a = BenchPathType_DIR) then ga_fileSize a
    else ga_randomAmount a / ga_numDataSetThreads a in
  if ga_doReverseSeqOffsets a || getS3ModeDoReverseSeqFallback a then
    Ok (GenReverseSeq (OffsetGenReverseSeq_new (ga_fileSize a) 0 (ga_blockSize a)), e)
  else if negb (ga_useRandomOffsets a) && negb (ga_useStridedAccess a) then
    Ok (GenSequential (OffsetGenSequential_new (ga_fileSize a) 0 (ga_blockSizeMix a)), e)
  else random_gen a randomAmount (ga_fileSize a) 0 e.

(** The length of each worker's range in the files behind one another, in bytes. *)
Definition rand_range_len (a : GenArgs) (numFiles : Z) : Z :=
  let numBlocksTotal := (ga_fileSize a / ga_blockSize a) *₆₄ numFiles in
  ga_blockSize a *₆₄ (numBlocksTotal / ga_numDataSetThreads a).

(** The generator of [fileModeIterateFilesRand()]. *)
Definition fileModeRandGen (a : GenArgs) (numFiles : Z) (e : Env R D) : result (AnyGen * Env R D) :=
  let randomAmount := ga_randomAmount a / ga_numDataSetThreads a in
  let numBlocksTotal := (ga_fileSize a / ga_blockSize a) *₆₄ numFiles in
  let rangeLen := rand_range_len a numFiles in
  let rangeOffset := (ga_workerRank a *₆₄ ga_blockSize a) *₆₄ (numBlocksTotal / ga_numDataSetThreads a) in
  if ga_useStridedAccess a then
    Ok (GenStrided (OffsetGenStrided_new rangeLen (ga_blockSize a *₆₄ ga_workerRank a) (ga_blockSize a)
          (ga_numDataSetThreads a)), e)
  else random_gen a randomAmount rangeLen rangeOffset e.
End choice.

(** ** The object keeps what the clients rely on *)

Section laws.
Context {R D : Type} `{!RandAlgo R, !RandAlgo D}.

#[local] Ltac any_step c g e Hg :=
  change (og_inv (R := R) (D := D) g) in Hg; intros He Hne; destruct (og_step (R := R) (D := D) g e Hg He Hne) as (off & g1 & e1 & n & e2 & Ho & Hn & H);
  exists off, (c g1), e1, n, e2; cbn [getNextOffset any_generator]; rewrite Ho; exact (conj eq_refl (conj Hn H)).

#[local] Ltac any_reset g e :=
  intros Hg He; change (og_inv (R := R) (D := D) g) in Hg; pose proof (og_reset_law (R := R) (D := D) g e Hg He) as H; destruct (og_reset g e); exact H.

Definition any_inv (g : AnyGen) : Prop :=
  match g with
  | GenSequential g => seq_inv g
  | GenReverseSeq g => rev_inv g
  | GenRandom g => rnd_inv g
  | GenRandomAligned g => ali_inv g
  | GenStrided g => str_inv g
  | GenFullCov g => cov_inv g
  end.

Definition any_lo (g : AnyGen) : Z :=
  match g with
  | GenSequential g => og_lo (R := R) (D := D) g
  | GenReverseSeq g => og_lo (R := R) (D := D) g
  | GenRandom g => og_lo (R := R) (D := D) g
  | GenRandomAligned g => og_lo (R := R) (D := D) g
  | GenStrided g => og_lo (R := R) (D := D) g
  | GenFullCov g => og_lo (R := R) (D := D) g
  end.

Definition any_hi (g : AnyGen) : Z :=
  match g with
  | GenSequential g => og_hi (R := R) (D := D) g
  | GenReverseSeq g => og_hi (R := R) (D := D) g
  | GenRandom g => og_hi (R := R) (D := D) g
  | GenRandomAligned g => og_hi (R := R) (D := D) g
  | GenStrided g => og_hi (R := R) (D := D) g
  | GenFullCov g => og_hi (R := R) (D := D) g
  end.

#[global] Program Instance any_laws : OffsetGenLaws R D AnyGen := { og_inv := any_inv; og_lo := any_lo; og_hi := any_hi }.
Next Obligation. intros [g|g|g|g|g|g] Hg; change (og_inv (R := R) (D := D) g) in Hg; exact (og_left_range (R := R) (D := D) g Hg). Qed.
Next Obligation.
  intros [g|g|g|g|g|g] e Hg.
  - any_step GenSequential g e Hg.
  - any_step GenReverseSeq g e Hg.
  - any_step GenRandom g e Hg.
  - any_step GenRandomAligned g e Hg.
  - any_step GenStrided g e Hg.
  - any_step GenFullCov g e Hg.
Qed.
Next Obligation. intros [g|g|g|g|g|g] e; cbn [og_reset any_generator]; any_reset g e. Qed.

#[global] Instance any_draw_laws : OffsetGenDrawLaws R D AnyGen.
Proof.
  intros [g|g|g|g|g|g] e off g1 e1; cbn [getNextOffset any_generator];
    (destruct (getNextOffset g e) as [[off' [g' e']]|] eqn:Hd; [|done]); intros [= <- <- <-]; exact (og_draw_stable g e _ _ _ Hd).
Qed.
End laws.

(** ** Random access to files and block devices *)

Section random_access.
Context {R D : Type} `{!RandAlgo R, !RandAlgo D}.

(** A block size, sizes that fit into 63 bits, and at least one block for each worker. *)
Definition rand_args_ok (a : GenArgs) (numFiles : Z) : Prop :=
  mix_ok (ga_blockSizeMix a) /\ maxSize (ga_blockSizeMix a) = ga_blockSize a
  /\ 0 < ga_numDataSetThreads a /\ 0 <= ga_workerRank a < ga_numDataSetThreads a
  /\ 0 <= ga_fileSize a /\ 0 < numFiles /\ ga_fileSize a * numFiles < 2 ^ 63
  /\ 0 <= ga_randomAmount a < TWO64
  /\ ga_numDataSetThreads a <= ga_fileSize a / ga_blockSize a * numFiles.

(** The bytes of one worker's share. *)
Definition rand_share (a : GenArgs) (numFiles : Z) : Z :=
  ga_blockSize a * (ga_fileSize a / ga_blockSize a * numFiles / ga_numDataSetThreads a).

Lemma rand_share_bounds a numFiles : rand_args_ok a numFiles ->
  0 < ga_blockSize a <= rand_share a numFiles /\ rand_share a numFiles * ga_numDataSetThreads a <= ga_fileSize a * numFiles
  /\ 0 <= ga_fileSize a / ga_blockSize a * numFiles <= ga_fileSize a * numFiles.
Proof.
  intros (Hmix & Hmax & Ht & Hr & Hf & Hn & Hb & _ & Hblocks). unfold rand_share.
  pose proof (mix_ok_sizes _ Hmix). set (bs := ga_blockSize a) in *. set (per := ga_fileSize a / bs) in *.
  set (share := per * numFiles / ga_numDataSetThreads a).
  assert (bs * per <= ga_fileSize a) by (apply Z.mul_div_le; lia).
  assert (0 <= per) by (apply Z.div_pos; lia).
  assert (ga_numDataSetThreads a * share <= per * numFiles) by (apply Z.mul_div_le; lia).
  assert (1 <= share) by (apply Z.div_le_lower_bound; lia).
  split; [nia|]. split; [|nia]. transitivity (bs * (per * numFiles)); nia.
Qed.

(** A random generator for a range of whole blocks stays in it. *)
Lemma random_gen_confined a amount len offset (e : Env R D) :
  mix_ok (ga_blockSizeMix a) -> maxSize (ga_blockSizeMix a) = ga_blockSize a ->
  env_ok e -> 0 <= amount < TWO64 -> ga_blockSize a <= len -> 0 <= offset -> offset + len < 2 ^ 63 ->
  offset `mod` ga_blockSize a = 0 ->
  exists g e', random_gen a amount len offset e = Ok (g, e') /\ og_inv (R := R) (D := D) g /\ env_ok e'
    /\ getBlockSize (R := R) (D := D) g = ga_blockSize a /\ getNumBytesTotal (R := R) (D := D) g = amount
    /\ getNumBytesLeftToSubmit (R := R) (D := D) g = amount
    /\ offset <= any_lo (R := R) (D := D) g /\ any_hi (R := R) (D := D) g <= offset + len.
Proof.
  intros Hmix Hmax He Ha Hlen Ho Hsum Hal. pose proof (mix_ok_sizes _ Hmix) as Hsz. unfold random_gen.
  destruct (ga_useRandomUnaligned a); [|destruct (no_full_coverage a)].
  - unfold OffsetGenRandom_new, RandAlgoRange_new. u64_elim. rewrite Z.min_l by lia.
    rewrite (proj2 (Z.ltb_ge _ _)) by lia. eexists _, _. split; [done|]. cbn. unfold rnd_inv. cbn. u64_elim.
    split_and!; (done || lia).
  - unfold OffsetGenRandomAligned_new, RandAlgoRange_new.
    destruct (ali_max_index_spec (minSize (ga_blockSizeMix a)) (maxSize (ga_blockSizeMix a)) len) as [Hi Hi']; [lia..|].
    rewrite (proj2 (Z.ltb_ge _ _)) by lia. eexists _, _. split; [done|]. cbn. unfold ali_inv. cbn. u64_elim.
    rewrite Z.sub_0_r, Z.add_simpl_r. split_and!; (done || lia).
  - pose proof (env_seed_ok e He) as [He1 _]. destruct (env_seed e) as [seed e1]. unfold OffsetGenFullCov_new.
    destruct (cov_range_new len offset (ga_blockSize a) seed) as (gen & -> & Hwf & _ & Hmin & Hr); [lia..|].
    eexists _, _. split; [done|]. cbn. unfold cov_inv. cbn.
    pose proof (Z.mul_div_le len (ga_blockSize a) ltac:(lia)).
    assert (1 <= len / ga_blockSize a) by (apply Z.div_le_lower_bound; lia).
    rewrite Hr, Z.max_r by lia. split_and!; (done || nia).
Qed.

(** The generator of a phase in directory mode, for files of at least one block when offsets are
    random. *)
Lemma initPhaseRWOffsetGen_ok a (e : Env R D) :
  mix_ok (ga_blockSizeMix a) -> maxSize (ga_blockSizeMix a) = ga_blockSize a -> env_ok e ->
  ga_benchPathType a = BenchPathType_DIR -> 0 <= ga_fileSize a < 2 ^ 63 ->
  (ga_useRandomOffsets a || ga_useStridedAccess a = true -> ga_blockSize a <= ga_fileSize a) ->
  exists g e', initPhaseRWOffsetGen a e = Ok (g, e') /\ og_inv (R := R) (D := D) g /\ env_ok e'
    /\ getNumBytesTotal (R := R) (D := D) g = ga_fileSize a.
Proof.
  intros Hmix Hmax He Hdir Hsz Hrnd. pose proof (mix_ok_sizes _ Hmix) as Hms. unfold initPhaseRWOffsetGen.
  destruct (ga_doReverseSeqOffsets a || getS3ModeDoReverseSeqFallback a); [|destruct (negb _ && negb _) eqn:Hseq].
  - eexists _, _. split; [done|]. split; [|split; [done|]].
    + apply rev_reset_inv; lia.
    + cbn. unfold OffsetGenReverseSeq_new, rev_reset. cbn. by repeat case_match.
  - eexists _, _. split; [done|]. split; [|done]. cbn. unfold seq_inv. cbn. split_and!; (done || lia).
  - rewrite bool_decide_true by done. apply andb_false_iff in Hseq.
    destruct (random_gen_confined a (ga_fileSize a) (ga_fileSize a) 0 e) as (g & e' & Hg & Hi & He' & _ & Ht & _);
      try (done || lia).
    + apply Hrnd. destruct Hseq as [H|H]; apply negb_false_iff in H; rewrite H; [done|apply orb_true_r].
    + by exists g, e'.
Qed.
End random_access.

(** Random access to files and block devices: whichever generator the arguments select, each
    worker's accesses lie within its own share of the files' bytes (so the workers never touch a
    common byte), all shares together lie within the files, the loop over the generator ends, no
    access is larger than the block size, and the worker transfers exactly its part of the
    amount. *)
Lemma rand_workers_stay_apart {R D} `{!RandAlgo R, !RandAlgo D} a numFiles (e : Env R D) :
  rand_args_ok a numFiles -> env_ok e -> ga_useStridedAccess a = false ->
  let share := rand_share a numFiles in
  let amount := ga_randomAmount a / ga_numDataSetThreads a in
  (ga_workerRank a + 1) * share <= ga_fileSize a * numFiles
  /\ exists g e1 ios g2 e2, fileModeRandGen a numFiles e = Ok (g, e1)
    /\ og_drain (Z.to_nat amount) g e1 = Some (ios, (g2, e2)) /\ Zsum (snd <$> ios) = amount
    /\ Forall (fun '(off, n) =>
         0 < n <= ga_blockSize a /\ ga_workerRank a * share <= off /\ off + n <= (ga_workerRank a + 1) * share) ios.
Proof.
  intros Hok He Hstr share amount. pose proof (rand_share_bounds _ _ Hok) as (Hbs & Hshare & Hper). fold share in Hbs, Hshare.
  destruct Hok as (Hmix & Hmax & Ht & Hr & Hf & Hn & Hb & Ham & Hblocks).
  set (bs := ga_blockSize a) in *. set (rank := ga_workerRank a) in *. set (nt := ga_numDataSetThreads a) in *.
  split; [nia|]. unfold fileModeRandGen, rand_range_len. rewrite Hstr. fold bs rank nt.
  assert (0 <= amount < TWO64) as Hamt.
  { unfold amount. fold nt. split; [apply Z.div_pos; lia|]. apply Z.le_lt_trans with (ga_randomAmount a); [|lia].
    apply Z.div_le_upper_bound; nia. }
  set (q := ga_fileSize a / bs * numFiles / nt). assert (share = bs * q) as Hq by done.
  assert (0 <= q /\ rank * share <= (nt - 1) * share) as [Hq0 Hrk] by (split; [apply Z.div_pos|]; nia).
  assert (rank * bs <= rank * share) by nia. assert (rank * share + share < 2 ^ 63) by nia.
  rewrite (u64_small (_ * numFiles)), (u64_small (rank * bs)) by nia. fold q.
  rewrite (u64_small (bs * q)), (u64_small (rank * bs * q)), <- Z.mul_assoc, <- Hq by nia.
  destruct (random_gen_confined a amount share (rank * share) e) as (g & e1 & Hg & Hinv & He1 & Hbsz & _ & Hl & Hlo & Hhi);
    [done|done|done|done|apply Hbs|nia|lia|fold bs|].
  { rewrite Hq, (Z.mul_comm bs), Z.mul_assoc. apply Z.mod_mul. lia. }
  destruct (og_drain_spec (Z.to_nat amount) g e1 Hinv He1) as (ios & g2 & e2 & Hd & Hs & Hall & _); [lia|].
  exists g, e1, ios, g2, e2. rewrite Hl, Hbsz in *. fold amount. rewrite Hg. split_and!; [done..|].
  eapply Forall_impl; [exact Hall|]. intros [off n] (? & ? & ?). cbn [og_lo og_hi any_laws] in *. lia.
Qed.
