(* ===== verification/FileTk.v ===== *)
(** The operating system interface of the file and directory phases, and the wrappers around it of
    toolkits/FileTk.{h,cpp}.

    The system is a parameter: a record [Os] of calls on a world [W] that return an [errno] on
    failure.  What callers rely on to release their resources is [OsLaws]: which descriptors are
    open and which mappings exist changes only through the calls that are meant to change it. *)

From S2P Require Import Prelude Effects CppStrings.
From Stdlib Require String.

#[local] Open Scope list_scope.

(** ** Definitions *)

(** The error codes that the code looks at. *)
Inductive errno : Type := EEXIST | ENOENT | ENOTEMPTY | EINVAL | E_other (code : Z).

#[global] Instance errno_eq_dec : EqDecision errno.
Proof. solve_decision. Defined.

Record OpenFlags : Type := mkOpenFlags { o_creat : bool; o_rdwr : bool; o_trunc : bool; o_direct : bool }.

Inductive Fadvice : Type := FADV_SEQUENTIAL | FADV_RANDOM | FADV_WILLNEED | FADV_DONTNEED | FADV_NOREUSE.
Inductive Madvice : Type :=
  MADV_SEQUENTIAL | MADV_RANDOM | MADV_WILLNEED | MADV_DONTNEED | MADV_HUGEPAGE | MADV_NOHUGEPAGE.
Inductive LockType : Type := F_RDLCK | F_WRLCK | F_UNLCK.

(** Calls that only succeed or fail give [None] on success. *)
Record Os (W : Type) : Type := mkOs {
  os_mkdirat : Z -> string -> W -> option errno * W;
  os_unlinkat : Z -> string -> bool -> W -> option errno * W;
  os_unlink : string -> W -> option errno * W;
  os_openat : Z -> string -> OpenFlags -> W -> (errno + Z) * W;
  os_close : Z -> W -> option errno * W;
  os_stat : string -> W -> (errno + Z) * W;
  os_fstat : Z -> W -> option errno * W;
  os_fstatat : Z -> string -> W -> option errno * W;
  os_ftruncate : Z -> Z -> W -> option errno * W;
  os_fallocate : Z -> Z -> Z -> W -> option errno * W;
  os_fadvise : Z -> Fadvice -> W -> option errno * W;
  os_mmap : Z -> bool -> Z -> W -> (errno + Z) * W;
  os_madvise : Z -> Z -> Madvice -> W -> option errno * W;
  os_munmap : option Z -> Z -> W -> option errno * W;
  os_fcntl_lock : Z -> LockType -> Z -> Z -> W -> option errno * W;
  os_syncfs : Z -> W -> option errno * W;
  os_open : string -> W -> (errno + Z) * W;
  os_write : Z -> string -> W -> option errno * W;
  os_cuFileReg : Z -> W -> result unit * W;
  os_cuFileDereg : W -> W;
  os_now : W -> Z * W;
  os_interrupted : W -> bool;
}.
Arguments os_mkdirat {_} _ _ _ _.
Arguments os_unlinkat {_} _ _ _ _ _.
Arguments os_unlink {_} _ _ _.
Arguments os_openat {_} _ _ _ _ _.
Arguments os_close {_} _ _ _.
Arguments os_stat {_} _ _ _.
Arguments os_fstat {_} _ _ _.
Arguments os_fstatat {_} _ _ _ _.
Arguments os_ftruncate {_} _ _ _ _.
Arguments os_fallocate {_} _ _ _ _ _.
Arguments os_fadvise {_} _ _ _ _.
Arguments os_mmap {_} _ _ _ _ _.
Arguments os_madvise {_} _ _ _ _ _.
Arguments os_munmap {_} _ _ _ _.
Arguments os_fcntl_lock {_} _ _ _ _ _ _.
Arguments os_syncfs {_} _ _ _.
Arguments os_open {_} _ _ _.
Arguments os_write {_} _ _ _ _.
Arguments os_cuFileReg {_} _ _ _.
Arguments os_cuFileDereg {_} _ _.
Arguments os_now {_} _ _.
Arguments os_interrupted {_} _ _.

(** A call as a program. *)
Definition sys {W A} (f : W -> A * W) : eff W A := fun w => let '(a, w) := f w in Some (Ok a, w).

(** *** Paths *)

Definition is_slash (c : Ascii.ascii) : bool := Ascii.eqb c "/".

Fixpoint drop_while {A} (p : A -> bool) (l : list A) : list A :=
  match l with [] => [] | x :: l' => if p x then drop_while p l' else l end.

(** [fs::path::parent_path()] of a path: without its last component and the slashes before it. *)
Definition parent_path (path : string) : string :=
  let l := rev (String.list_ascii_of_string path) in
  let dirPart := drop_while (fun c => negb (is_slash c)) l in
  match drop_while is_slash dirPart, dirPart with
  | [], [] => ""
  | [], _ => "/"
  | p, _ => String.string_of_list_ascii (rev p)
  end.

(** ** [FileTk] *)

Section file_tk.
Context {W : Type} (os : Os W).

(** [mkdiratBottomUp()]: the result of [mkdirat], after the parents were created when needed.
    [fuel] bounds the depth of the recursion over parents. *)
Fixpoint mkdiratBottomUp (fuel : nat) (dirFD : Z) (path : string) {struct fuel} : eff W (option errno) :=
  mkdirRes ← sys (os_mkdirat os dirFD path);
  match mkdirRes with
  | None | Some EEXIST => mret mkdirRes
  | Some ENOENT =>
      if bool_decide (parent_path path = path) || bool_decide (path = "") then mret (Some ENOENT)
      else
        match fuel with
        | O => eff_stuck
        | S fuel =>
            mkdirParentRes ← mkdiratBottomUp fuel dirFD (parent_path path);
            match mkdirParentRes with
            | None | Some EEXIST => sys (os_mkdirat os dirFD path)
            | Some e => mret (Some e)
            end
        end
  | Some e => mret (Some e)
  end.

Definition advise_error : exn := WorkerException "Unable to set POSIX fadvise. ".

(** The advices in the order in which they are given, by their flag. *)
Definition fadvise_order : list (Z * Fadvice) :=
  [(8, FADV_DONTNEED); (16, FADV_NOREUSE); (1, FADV_SEQUENTIAL); (2, FADV_RANDOM); (4, FADV_WILLNEED)].

Definition madvise_order : list (Z * Madvice) :=
  [(8, MADV_DONTNEED); (1, MADV_SEQUENTIAL); (2, MADV_RANDOM); (4, MADV_WILLNEED); (16, MADV_HUGEPAGE); (32, MADV_NOHUGEPAGE)].

Definition fadvise (fd flags : Z) : eff W unit :=
  eff_for fadvise_order (fun '(flag, advice) =>
    eff_when (truthy (Z.land flags flag))
      (res ← sys (os_fadvise os fd advice);
       match res with None => mret tt | Some _ => eff_throw advise_error end)).

(** [mmapAndMadvise()]; [writable] is the protection. *)
Definition mmapAndMadvise (length : Z) (writable : bool) (fd flags : Z) : eff W Z :=
  mmapRes ← sys (os_mmap os length writable fd);
  match mmapRes with
  | inl _ => eff_throw (WorkerException "Unable to create file memory mapping. ")
  | inr addr =>
      if flags =? 0 then mret addr
      else
        eff_catch
          (eff_for madvise_order (fun '(flag, advice) =>
             eff_when (truthy (Z.land flags flag))
               (res ← sys (os_madvise os addr length advice);
                match res with None => mret tt | Some _ => eff_throw (WorkerException "Unable to set madvise. ") end));;
           mret addr)
          (fun e => sys (os_munmap os (Some addr) length);; eff_throw e)
  end.

(** [ARG_FLOCK_NONE], [ARG_FLOCK_RANGE] and [ARG_FLOCK_FULL] are 0, 1 and 2. *)
Definition flock (fd lockType offset len : Z) (isWrite isUnlock : bool) : eff W unit :=
  let l_type := if isUnlock then F_UNLCK else if isWrite then F_WRLCK else F_RDLCK in
  let lock start length msg :=
    res ← sys (os_fcntl_lock os fd l_type start length);
    match res with None => mret tt | Some _ => eff_throw (WorkerException msg) end in
  if lockType =? 1 then lock offset len "File range lock operation failed. "
  else if lockType =? 2 then lock 0 0 "Full file lock operation failed. "
  else mret tt.

Definition checkFileEmpty (path : string) : eff W bool :=
  res ← sys (os_stat os path);
  match res with
  | inl ENOENT => mret true
  | inl _ => eff_throw (ProgException "Getting file size failed. ")
  | inr size => mret (size =? 0)
  end.
End file_tk.

(** The allocated size, and whether the file seems sparse or compressed; blocks have 512 bytes. *)
Definition checkFileSparseOrCompressed (st_blocks st_size : Z) : bool * Z :=
  let allocated := st_blocks * 512 in
  (allocated <? st_size, allocated).

(** ** Laws *)

(** Descriptors and mappings stay. *)
Definition os_same {W : Type} (fds maps : W -> list Z) (w w' : W) : Prop := fds w' = fds w /\ maps w' = maps w.

(** [os_fds w]: the open descriptors; [os_maps w]: the mappings, by their address. *)
Class OsLaws {W : Type} (os : Os W) : Type := {
  os_fds : W -> list Z;
  os_maps : W -> list Z;
  os_mkdirat_keeps d p w : os_same os_fds os_maps w (os_mkdirat os d p w).2;
  os_unlinkat_keeps d p b w : os_same os_fds os_maps w (os_unlinkat os d p b w).2;
  os_unlink_keeps p w : os_same os_fds os_maps w (os_unlink os p w).2;
  os_stat_keeps p w : os_same os_fds os_maps w (os_stat os p w).2;
  os_fstat_keeps fd w : os_same os_fds os_maps w (os_fstat os fd w).2;
  os_fstatat_keeps d p w : os_same os_fds os_maps w (os_fstatat os d p w).2;
  os_ftruncate_keeps fd n w : os_same os_fds os_maps w (os_ftruncate os fd n w).2;
  os_fallocate_keeps fd o n w : os_same os_fds os_maps w (os_fallocate os fd o n w).2;
  os_fadvise_keeps fd a w : os_same os_fds os_maps w (os_fadvise os fd a w).2;
  os_madvise_keeps a n d w : os_same os_fds os_maps w (os_madvise os a n d w).2;
  os_fcntl_keeps fd t o n w : os_same os_fds os_maps w (os_fcntl_lock os fd t o n w).2;
  os_syncfs_keeps fd w : os_same os_fds os_maps w (os_syncfs os fd w).2;
  os_write_keeps fd b w : os_same os_fds os_maps w (os_write os fd b w).2;
  os_open_law p w :
    match os_open os p w with
    | (inl _, w') => os_same os_fds os_maps w w'
    | (inr fd, w') => os_fds w' ≡ₚ fd :: os_fds w /\ os_maps w' = os_maps w
    end;
  os_cuFileReg_keeps fd w : os_same os_fds os_maps w (os_cuFileReg os fd w).2;
  os_cuFileDereg_keeps w : os_same os_fds os_maps w (os_cuFileDereg os w);
  os_now_keeps w : os_same os_fds os_maps w (os_now os w).2;
  os_openat_law d p f w :
    match os_openat os d p f w with
    | (inl _, w') => os_same os_fds os_maps w w'
    | (inr fd, w') => os_fds w' ≡ₚ fd :: os_fds w /\ os_maps w' = os_maps w
    end;
  (** The descriptor is gone also when [close] reports an error. *)
  os_close_law fd w : forall fds, os_fds w ≡ₚ fd :: fds ->
    os_fds (os_close os fd w).2 ≡ₚ fds /\ os_maps (os_close os fd w).2 = os_maps w;
  os_mmap_law n b fd w :
    match os_mmap os n b fd w with
    | (inl _, w') => os_same os_fds os_maps w w'
    | (inr addr, w') => os_fds w' = os_fds w /\ os_maps w' ≡ₚ addr :: os_maps w
    end;
  os_munmap_law addr n w : forall maps, os_maps w ≡ₚ addr :: maps ->
    os_fds (os_munmap os (Some addr) n w).2 = os_fds w /\ os_maps (os_munmap os (Some addr) n w).2 ≡ₚ maps;
  (** [MAP_FAILED] is not an address of a mapping. *)
  os_munmap_failed n w : os_same os_fds os_maps w (os_munmap os None n w).2;
}.
