(* ===== verification/FileIter.v ===== *)
(** The iteration of a local worker over directories and files (workers/LocalWorker.cpp): the phases
    that create, write, read, stat and delete entries in directory mode, with generated names or a
    custom tree, and in file and block device mode.

    The system calls are those of [Os] (FileTk.v).  The engine that transfers the data of a file
    ([funcRWBlockSized]) is a parameter: a program on the worker's [RWState] that is given the
    vector of file descriptors. *)

From S2P Require Import Prelude Common Effects CppStrings RandAlgo BlockSizeMix OffsetGen PathStore.
From S2P Require Import LatencyHistogram LiveOps Journal RWLoop FileTk.
From Stdlib Require String.

#[local] Open Scope list_scope.
#[local] Open Scope Z_scope.

(** ** Definitions *)

(** What the iteration takes from [ProgArgs] and from the worker. *)
Record IterArgs : Type := mkIterArgs {
  fa_workerRank : Z;
  fa_rankOffset : Z;
  fa_benchPhase : BenchPhase;
  fa_globalBenchPhase : BenchPhase;
  fa_numDirs : Z;
  fa_numFiles : Z;
  fa_fileSize : Z;
  fa_fileOffset : Z;
  fa_blockSize : Z;
  fa_numDataSetThreads : Z;
  fa_pathFDs : list Z;
  fa_benchPaths : list string;
  fa_doDirSharing : bool;
  fa_ignoreDelErrors : bool;
  fa_numRWMixReadThreads : Z;
  fa_useMmap : bool;
  fa_doStatInline : bool;
  fa_doTruncate : bool;
  fa_useDirectIO : bool;
  fa_doTruncToSize : bool;
  fa_doPreallocFile : bool;
  fa_fadviseFlags : Z;
  fa_madviseFlags : Z;
  fa_runCreateDirsPhase : bool;
  fa_isServicePathShared : bool;
  fa_journalEnabled : bool;
  fa_customTreeDirs : PathStore;
  fa_workerTreeDirs : PathStore;
  fa_workerTreeFiles : PathStore;
}.

Definition PATH_BUF_LEN : nat := 64.
Definition INTERRUPTION_CHECK_INTERVAL : Z := 128.

(** *** Names *)

Definition rank_dir (dirRank : Z) : string := "r" +:+ to_string dirRank.
Definition sub_dir (dirRank dirIndex : Z) : string := rank_dir dirRank +:+ "/d" +:+ to_string dirIndex.
Definition file_name (workerRank fileIndex : Z) : string := "r" +:+ to_string workerRank +:+ "-f" +:+ to_string fileIndex.

(** All workers share the directories of rank 0 with [doDirSharing]. *)
Definition workerDirRank (a : IterArgs) : Z := if fa_doDirSharing a then 0 else fa_workerRank a.
Definition haveSubdirs (a : IterArgs) : bool := 0 <? fa_numDirs a.

Definition file_path (a : IterArgs) (dirIndex fileIndex : Z) : string :=
  if haveSubdirs a then sub_dir (workerDirRank a) dirIndex +:+ "/" +:+ file_name (fa_workerRank a) fileIndex
  else file_name (fa_workerRank a) fileIndex.

(** The benchmark path of a directory, round-robin. *)
Definition path_index (a : IterArgs) (dirIndex : Z) : Z :=
  u32 ((fa_workerRank a +₆₄ dirIndex) `mod` Z.of_nat (length (fa_pathFDs a))).

(** *** Phases of a thread *)

Definition localWorkerRank (a : IterArgs) : Z := fa_workerRank a -₆₄ fa_rankOffset a.

Definition isRWMixedReader (a : IterArgs) : bool :=
  bool_decide (fa_globalBenchPhase a = BenchPhase_CREATEFILES) && (localWorkerRank a <? fa_numRWMixReadThreads a).

(** [initThreadPhaseVars()]: the phase of this thread. *)
Definition initThreadPhaseVars (a : IterArgs) : BenchPhase :=
  if isRWMixedReader a then BenchPhase_READFILES else fa_globalBenchPhase a.

Definition getDirModeOpenFlags (a : IterArgs) (benchPhase : BenchPhase) : OpenFlags :=
  let isCreate := bool_decide (benchPhase = BenchPhase_CREATEFILES) in
  mkOpenFlags isCreate isCreate (isCreate && fa_doTruncate a) (fa_useDirectIO a).

Section iteration.
Context {R D G W : Type} `{!RandAlgo R, !RandAlgo D, !OffsetGenerator R D G} (os : Os W).
#[local] Abbreviation rwst := (RWState (R := R) (D := D) (G := G) (W := W)).
Context (engine : list Z -> eff rwst Z).

(** [it_fd] and [it_mmap] are [fileHandles.fdVec[0]] and [fileHandles.mmapVec[0]] ([None] is
    [MAP_FAILED]); [it_journals] are the journals of all targets. *)
Record IterState : Type := mkIter {
  it_rw : rwst;
  it_fd : Z;
  it_mmap : option Z;
  entriesLatHisto : LatencyHistogram;
  entriesLatHistoReadMix : LatencyHistogram;
  it_gotPhaseWork : bool;
  it_journals : list Journal;
}.

#[local] Abbreviation act := (eff IterState).

Definition upd_it_rw (f : rwst -> rwst) (s : IterState) : IterState :=
  mkIter (f (it_rw s)) (it_fd s) (it_mmap s) (entriesLatHisto s) (entriesLatHistoReadMix s) (it_gotPhaseWork s) (it_journals s).
Definition set_fd (fd : Z) (s : IterState) : IterState :=
  mkIter (it_rw s) fd (it_mmap s) (entriesLatHisto s) (entriesLatHistoReadMix s) (it_gotPhaseWork s) (it_journals s).
Definition set_mmap (m : option Z) (s : IterState) : IterState :=
  mkIter (it_rw s) (it_fd s) m (entriesLatHisto s) (entriesLatHistoReadMix s) (it_gotPhaseWork s) (it_journals s).
Definition set_noPhaseWork (s : IterState) : IterState :=
  mkIter (it_rw s) (it_fd s) (it_mmap s) (entriesLatHisto s) (entriesLatHistoReadMix s) false (it_journals s).
Definition set_it_journals (js : list Journal) (s : IterState) : IterState :=
  mkIter (it_rw s) (it_fd s) (it_mmap s) (entriesLatHisto s) (entriesLatHistoReadMix s) (it_gotPhaseWork s) js.

Definition it_world (s : IterState) : W := rw_world (it_rw s).
Definition put_it_world (w : W) (s : IterState) : IterState := upd_it_rw (fun rw => set_world rw w) s.

(** A program on the world. *)
Definition on_os {A} (m : eff W A) : act A := eff_zoom it_world put_it_world m.

Definition iter_checkInterruption : act unit :=
  w ← eff_get it_world;
  if os_interrupted os w
  then eff_throw (WorkerInterruptedException "Received friendly request to interrupt execution.") else mret tt.

(** [snprintf] to the path buffer, then [IF_UNLIKELY(printRes >= PATH_BUF_LEN) throw]. *)
Definition print_path (path : string) (msg : string) : act string :=
  if (PATH_BUF_LEN <=? String.length path)%nat then eff_throw (WorkerException msg) else mret path.

(** Entry latency and count; [mix]: the counters of the readers of a mixed phase. *)
Definition LiveOps_add_entry (ops : LiveOps) : LiveOps :=
  mkLiveOps (numEntriesDone ops +₆₄ 1) (numBytesDone ops) (numIOPSDone ops).

Definition count_entry (mix : bool) (s : IterState) : IterState :=
  upd_it_rw (fun rw =>
    if mix then set_stats rw (iopsLatHisto rw) (iopsLatHistoReadMix rw) (atomicLiveOps rw) (LiveOps_add_entry (atomicLiveOpsReadMix rw))
    else set_stats rw (iopsLatHisto rw) (iopsLatHistoReadMix rw) (LiveOps_add_entry (atomicLiveOps rw)) (atomicLiveOpsReadMix rw)) s.

Definition account_entry (mix : bool) (elapsed : Z) (s : IterState) : IterState :=
  let s := count_entry mix s in
  if mix then
    mkIter (it_rw s) (it_fd s) (it_mmap s) (entriesLatHisto s) (addLatency elapsed (entriesLatHistoReadMix s)) (it_gotPhaseWork s)
      (it_journals s)
  else
    mkIter (it_rw s) (it_fd s) (it_mmap s) (addLatency elapsed (entriesLatHisto s)) (entriesLatHistoReadMix s) (it_gotPhaseWork s)
      (it_journals s).

(** Runs [m] between two readings of the clock and accounts the entry. *)
Definition timed_entry (mix : bool) (m : act unit) : act unit :=
  ioStartT ← on_os (sys (os_now os));
  m;;
  ioEndT ← on_os (sys (os_now os));
  eff_modify (account_entry mix (u64 (ioEndT - ioStartT))).

Definition path_fd (a : IterArgs) (i : Z) : act Z := eff_some (fa_pathFDs a !! Z.to_nat i).

(** *** Directories *)

Definition mkdir_checked (a : IterArgs) (pathIdx : Z) (path msg : string) : act unit :=
  fd ← path_fd a pathIdx;
  res ← on_os (sys (os_mkdirat os fd path));
  match res with None | Some EEXIST => mret tt | Some _ => eff_throw (WorkerException msg) end.

Definition rmdir_checked (a : IterArgs) (ignoreDelErrors : bool) (pathIdx : Z) (path : string) : act unit :=
  fd ← path_fd a pathIdx;
  res ← on_os (sys (os_unlinkat os fd path true));
  match res with
  | None => mret tt
  | Some e =>
      if negb (bool_decide (e = ENOENT)) || negb ignoreDelErrors
      then eff_throw (WorkerException "Directory deletion failed. ") else mret tt
  end.

(** The rank directory in each benchmark path. *)
Definition rank_dirs (a : IterArgs) (m : Z -> string -> act unit) : act unit :=
  eff_for (seqZ 0 (Z.of_nat (length (fa_pathFDs a)))) (fun pathFDsIndex =>
    iter_checkInterruption;;
    path ← print_path (rank_dir (workerDirRank a)) "mkdir path too long for static buffer. ";
    m pathFDsIndex path).

Definition dirModeIterateDirs (a : IterArgs) : act unit :=
  if fa_numDirs a =? 0 then mret tt
  else
    let ignoreDelErrors := if fa_doDirSharing a then true else fa_ignoreDelErrors a in
    let isCreate := bool_decide (fa_benchPhase a = BenchPhase_CREATEDIRS) in
    let isDelete := bool_decide (fa_benchPhase a = BenchPhase_DELETEDIRS) in
    eff_when isCreate (rank_dirs a (fun i path => mkdir_checked a i path "Rank directory creation failed. "));;
    eff_for (seqZ 0 (fa_numDirs a)) (fun dirIndex =>
      iter_checkInterruption;;
      path ← print_path (sub_dir (workerDirRank a) dirIndex) "mkdir path too long for static buffer. ";
      timed_entry false
        (eff_when isCreate (mkdir_checked a (path_index a dirIndex) path "Directory creation failed. ");;
         eff_when isDelete (rmdir_checked a ignoreDelErrors (path_index a dirIndex) path)));;
    eff_when isDelete (rank_dirs a (rmdir_checked a ignoreDelErrors)).

(** Creation goes over the share of this worker, deletion over all directories, subdirectories
    first, and only on the first worker. *)
Definition dirModeIterateCustomDirs (a : IterArgs) : act unit :=
  let isCreate := bool_decide (fa_benchPhase a = BenchPhase_CREATEDIRS) in
  let isDelete := bool_decide (fa_benchPhase a = BenchPhase_DELETEDIRS) in
  let customTreePaths := PathStore.paths (if isDelete then fa_customTreeDirs a else fa_workerTreeDirs a) in
  let thisWorkerDoesDelDirs :=
    if fa_isServicePathShared a then fa_workerRank a =? 0 else localWorkerRank a =? 0 in
  match customTreePaths with
  | [] => mret tt
  | _ =>
      if isDelete && negb thisWorkerDoesDelDirs then eff_modify set_noPhaseWork
      else
        eff_for (if isDelete then rev customTreePaths else customTreePaths) (fun elem =>
          iter_checkInterruption;;
          timed_entry false
            (eff_when isCreate
               (fd ← path_fd a 0;
                res ← on_os (mkdiratBottomUp os (S (String.length (path elem))) fd (path elem));
                match res with
                | None | Some EEXIST => mret tt
                | Some _ => eff_throw (WorkerException "Directory creation failed. ")
                end);;
             eff_when isDelete (rmdir_checked a true 0 (path elem))))
  end.

(** *** Opening a file *)

(** The handler of [dirModeOpenAndPrepFile()]. *)
Definition close_unprepared (a : IterArgs) (fd fileLen : Z) : act unit :=
  eff_when (fa_useMmap a)
    (m ← eff_get it_mmap;
     on_os (sys (os_munmap os m fileLen));;
     eff_modify (set_mmap None));;
  on_os (sys (os_close os fd));;
  mret tt.

Definition open_error (a : IterArgs) (flags : OpenFlags) (e : errno) : exn :=
  WorkerException
    (if bool_decide (e = ENOENT) && o_creat flags && negb (fa_runCreateDirsPhase a)
        && (truthy (fa_numDirs a) || bool_decide (PathStore.paths (fa_customTreeDirs a) = []))
     then "File create/open failed. Did you forget to enable directory creation" else "File open failed. ").

Definition dirModeOpenAndPrepFile (a : IterArgs) (pathIdx : Z) (path : string) (flags : OpenFlags)
    (fileLen preallocOffset : Z) : act Z :=
  dirFD ← path_fd a pathIdx;
  res ← on_os (sys (os_openat os dirFD path flags));
  match res with
  | inl e => eff_throw (open_error a flags e)
  | inr fd =>
      eff_catch
        (eff_when (bool_decide (fa_benchPhase a = BenchPhase_CREATEFILES))
           (eff_when (fa_doTruncToSize a)
              (r ← on_os (sys (os_ftruncate os fd fileLen));
               match r with
               | None => mret tt
               | Some _ => eff_throw (WorkerException "Unable to set file size through ftruncate. ")
               end);;
            eff_when (fa_doPreallocFile a)
              (r ← on_os (sys (os_fallocate os fd preallocOffset (fileLen -₆₄ preallocOffset)));
               match r with
               | None => mret tt
               | Some _ => eff_throw (WorkerException "Unable to preallocate file size through posix_fallocate. ")
               end));;
         on_os (fadvise os fd (fa_fadviseFlags a));;
         eff_when (fa_useMmap a)
           (addr ← on_os (mmapAndMadvise os fileLen (negb (bool_decide (fa_benchPhase a = BenchPhase_READFILES))) fd
                            (fa_madviseFlags a));
            eff_modify (set_mmap (Some addr)));;
         mret fd)
        (fun e => close_unprepared a fd fileLen;; eff_throw e)
  end.

(** *** Transfer of one file *)

(** Runs the engine on the current descriptors. *)
Definition run_engine (fds : list Z) : act Z := eff_zoom it_rw (fun rw => upd_it_rw (const rw)) (engine fds).

(** [expected] is evaluated after the transfer. *)
Definition rw_checked (fds : list Z) (isWrite : bool) (expected : IterState -> Z) : act unit :=
  res ← run_engine fds;
  expected ← eff_get expected;
  if res =? -1 then eff_throw (WorkerException (if isWrite then "File write failed. " else "File read failed. "))
  else if negb (u64 res =? expected)
  then eff_throw (WorkerException (if isWrite then "Unexpected short file write. " else "Unexpected short file read. "))
  else mret tt.

Definition rw_current_file (isWrite : bool) (expected : Z) : act unit :=
  fd ← eff_get it_fd;
  rw_checked [fd] isWrite (const expected).

(** The body of the try-block. *)
Definition use_file (a : IterArgs) (expected : Z) : act unit :=
  fd ← eff_get it_fd;
  reg ← on_os (sys (os_cuFileReg os fd));
  eff_result reg;;
  eff_when (fa_doStatInline a)
    (r ← on_os (sys (os_fstat os fd));
     match r with None => mret tt | Some _ => eff_throw (WorkerException "Inline file stat failed. ") end);;
  eff_when (bool_decide (fa_benchPhase a = BenchPhase_CREATEFILES)) (rw_current_file true expected);;
  eff_when (bool_decide (fa_benchPhase a = BenchPhase_READFILES)) (rw_current_file false expected).

(** The handler of the try-block. *)
Definition close_after_error (a : IterArgs) (fileLen : Z) : act unit :=
  m ← eff_get it_mmap;
  eff_when (fa_useMmap a && bool_decide (is_Some m))
    (on_os (sys (os_munmap os m fileLen));; eff_modify (set_mmap None));;
  on_os (fun w => Some (Ok tt, os_cuFileDereg os w));;
  fd ← eff_get it_fd;
  on_os (sys (os_close os fd));;
  mret tt.

(** The normal end of the use of a file. *)
Definition close_used (a : IterArgs) (fileLen : Z) : act unit :=
  eff_when (fa_useMmap a)
    (m ← eff_get it_mmap;
     on_os (sys (os_munmap os m fileLen));;
     eff_modify (set_mmap None));;
  on_os (fun w => Some (Ok tt, os_cuFileDereg os w));;
  fd ← eff_get it_fd;
  res ← on_os (sys (os_close os fd));
  match res with None => mret tt | Some _ => eff_throw (WorkerException "File close failed. ") end.

(** Opens, uses and closes a file. *)
Definition rw_file (a : IterArgs) (pathIdx : Z) (path : string) (fileLen preallocOffset expected : Z) : act unit :=
  fd ← dirModeOpenAndPrepFile a pathIdx path (getDirModeOpenFlags a (fa_benchPhase a)) fileLen preallocOffset;
  eff_modify (set_fd fd);;
  eff_catch (use_file a expected) (fun e => close_after_error a fileLen;; eff_throw e);;
  close_used a fileLen.

Definition stat_file (a : IterArgs) (pathIdx : Z) (path : string) : act unit :=
  fd ← path_fd a pathIdx;
  r ← on_os (sys (os_fstatat os fd path));
  match r with None => mret tt | Some _ => eff_throw (WorkerException "File stat failed. ") end.

Definition unlink_file (a : IterArgs) (ignoreDelErrors : bool) (pathIdx : Z) (path : string) : act unit :=
  fd ← path_fd a pathIdx;
  res ← on_os (sys (os_unlinkat os fd path false));
  match res with
  | None => mret tt
  | Some e =>
      if negb ignoreDelErrors || negb (bool_decide (e = ENOENT))
      then eff_throw (WorkerException "File delete failed. ") else mret tt
  end.

Definition is_rw_phase (p : BenchPhase) : bool :=
  bool_decide (p = BenchPhase_CREATEFILES) || bool_decide (p = BenchPhase_READFILES).

(** *** Directory mode *)

Definition reset_gen : act unit :=
  eff_modify (upd_it_rw (fun rw => let '(g, e) := og_reset (rw_gen rw) (rw_env rw) in set_gen rw g e)).

(** [rwOffsetGen->reset(len, offset)]. *)
Definition reset_gen_to (len offset : Z) : act unit := fun s =>
  match og_reset_to len offset (rw_gen (it_rw s)) (rw_env (it_rw s)) with
  | Ok (g, e) => Some (Ok tt, upd_it_rw (fun rw => set_gen rw g e) s)
  | Throw e => Some (Throw e, s)
  end.

Definition dir_mode_file (a : IterArgs) (dirIndex fileIndex : Z) : act unit :=
  eff_when (fileIndex `mod` INTERRUPTION_CHECK_INTERVAL =? 0) iter_checkInterruption;;
  path ← print_path (file_path a dirIndex fileIndex) "file path too long for static buffer. ";
  let pathIdx := path_index a dirIndex in
  reset_gen;;
  timed_entry (isRWMixedReader a)
    (eff_when (is_rw_phase (fa_benchPhase a))
       (rw_file a pathIdx path (fa_fileOffset a +₆₄ fa_fileSize a) (fa_fileOffset a) (fa_fileSize a));;
     eff_when (bool_decide (fa_benchPhase a = BenchPhase_STATFILES)) (stat_file a pathIdx path);;
     eff_when (bool_decide (fa_benchPhase a = BenchPhase_DELETEFILES))
       (unlink_file a (fa_ignoreDelErrors a) pathIdx path)).

Definition dirModeIterateFiles (a : IterArgs) : act unit :=
  let numDirs := if haveSubdirs a then fa_numDirs a else 1 in
  eff_for (seqZ 0 numDirs) (fun dirIndex =>
    eff_when (dirIndex `mod` INTERRUPTION_CHECK_INTERVAL =? 0) iter_checkInterruption;;
    eff_for (seqZ 0 (fa_numFiles a)) (dir_mode_file a dirIndex)).

(** One element of the custom tree; [numFilesDone] is an [unsigned short]. *)
Definition custom_tree_file (a : IterArgs) (numFilesDone : Z) (elem : PathStoreElem) : act unit :=
  eff_when ((numFilesDone `mod` 65536) `mod` INTERRUPTION_CHECK_INTERVAL =? 0) iter_checkInterruption;;
  ioStartT ← on_os (sys (os_now os));
  eff_when (is_rw_phase (fa_benchPhase a))
    (reset_gen_to (rangeLen elem) (rangeStart elem);;
     rw_file a 0 (path elem) (totalLen elem +₆₄ fa_fileOffset a) (fa_fileOffset a) (rangeLen elem));;
  eff_when (bool_decide (fa_benchPhase a = BenchPhase_STATFILES)) (stat_file a 0 (path elem));;
  eff_when (bool_decide (fa_benchPhase a = BenchPhase_DELETEFILES)) (unlink_file a true 0 (path elem));;
  ioEndT ← on_os (sys (os_now os));
  eff_when (totalLen elem =? rangeLen elem) (eff_modify (account_entry (isRWMixedReader a) (u64 (ioEndT - ioStartT)))).

Definition dirModeIterateCustomFiles (a : IterArgs) : act unit :=
  match PathStore.paths (fa_workerTreeFiles a) with
  | [] => eff_modify set_noPhaseWork
  | l => eff_for (zip (seqZ 0 (Z.of_nat (length l))) l) (fun '(numFilesDone, elem) => custom_tree_file a numFilesDone elem)
  end.

(** *** File and block device mode *)

Definition num_blocks_per_file (a : IterArgs) : Z := num_blocks (fa_fileSize a) (fa_blockSize a).

Definition num_blocks_total (a : IterArgs) : Z := num_blocks_per_file a *₆₄ Z.of_nat (length (fa_pathFDs a)).

(** The blocks of this worker; the last one takes the remainder. *)
Definition seq_worker_blocks (total workerRank numThreads : Z) : Z :=
  let standard := total / numThreads in
  if (workerRank =? u64 (numThreads - 1)) && truthy (total `mod` numThreads)
  then total -₆₄ (standard *₆₄ u64 (numThreads - 1)) else standard.

(** The file, start and length of the access that begins at a block of the common range. *)
Definition seq_slice (a : IterArgs) (endBlock currentBlockIdx : Z) : Z * Z * Z :=
  let perFile := num_blocks_per_file a in
  let currentBlockInFile := currentBlockIdx `mod` perFile in
  let remainingWorkerLen := (endBlock -₆₄ currentBlockIdx) *₆₄ fa_blockSize a in
  let remainingFileLen := fa_fileSize a -₆₄ (currentBlockInFile *₆₄ fa_blockSize a) in
  (currentBlockIdx / perFile, currentBlockInFile *₆₄ fa_blockSize a, Z.min remainingWorkerLen remainingFileLen).

(** The journal of the current file is the only entry of the worker's journal vector. *)
Definition with_journal {A} (a : IterArgs) (fileIdx : Z) (m : act A) : act A :=
  if fa_journalEnabled a then
    s ← eff_get id;
    j ← eff_some (it_journals s !! Z.to_nat fileIdx);
    eff_modify (upd_it_rw (fun rw => set_journal rw (rw_slot rw) (rw_guardsHeld rw) [j] (rw_locks rw)));;
    eff_finally m (fun s =>
      match rw_journals (it_rw s) with
      | [j] => set_it_journals (<[Z.to_nat fileIdx := j]> (it_journals s)) s
      | _ => s
      end)
  else m.

Definition rw_slice (a : IterArgs) (fileIdx start len : Z) : act unit :=
  fd ← path_fd a fileIdx;
  eff_modify (set_fd fd);;
  reset_gen_to len start;;
  on_os (fadvise os fd (fa_fadviseFlags a));;
  eff_when (fa_useMmap a)
    (addr ← on_os (mmapAndMadvise os (fa_fileOffset a +₆₄ fa_fileSize a)
                     (negb (bool_decide (fa_benchPhase a = BenchPhase_READFILES))) fd (fa_madviseFlags a));
     eff_modify (set_mmap (Some addr)));;
  let unmap :=
    eff_when (fa_useMmap a)
      (m ← eff_get it_mmap;
       on_os (sys (os_munmap os m (fa_fileOffset a +₆₄ fa_fileSize a)));;
       eff_modify (set_mmap None)) in
  eff_catch
    (eff_when (bool_decide (fa_benchPhase a = BenchPhase_CREATEFILES)) (rw_current_file true len);;
     eff_when (bool_decide (fa_benchPhase a = BenchPhase_READFILES)) (rw_current_file false len))
    (fun e => unmap;; eff_throw e);;
  unmap.

Fixpoint seq_loop (fuel : nat) (a : IterArgs) (endBlock currentBlockIdx : Z) : act unit :=
  if endBlock <=? currentBlockIdx then mret tt
  else
    match fuel with
    | O => eff_stuck
    | S fuel =>
        let '(fileIdx, start, len) := seq_slice a endBlock currentBlockIdx in
        with_journal a fileIdx (rw_slice a fileIdx start len);;
        seq_loop fuel a endBlock (currentBlockIdx +₆₄ num_blocks len (fa_blockSize a))
    end.

(** [fuel] bounds the number of slices. *)
Definition fileModeIterateFilesSeq (fuel : nat) (a : IterArgs) : act unit :=
  let total := num_blocks_total a in
  let startBlock := worker_start_block total (fa_workerRank a) (fa_numDataSetThreads a) in
  let endBlock := startBlock +₆₄ seq_worker_blocks total (fa_workerRank a) (fa_numDataSetThreads a) in
  if endBlock <=? startBlock then eff_modify set_noPhaseWork
  else seq_loop fuel a endBlock startBlock.

(** Each worker tries to delete all files and starts at its own. *)
Definition fileModeDeleteFiles (a : IterArgs) : act unit :=
  let numFiles := Z.of_nat (length (fa_benchPaths a)) in
  eff_for (seqZ 0 numFiles) (fun fileIndex =>
    eff_when (fileIndex `mod` INTERRUPTION_CHECK_INTERVAL =? 0) iter_checkInterruption;;
    path ← eff_some (fa_benchPaths a !! Z.to_nat ((fa_workerRank a +₆₄ fileIndex) `mod` numFiles));
    res ← on_os (sys (os_unlink os path));
    (match res with
     | None | Some ENOENT => mret tt
     | Some _ => eff_throw (WorkerException "File delete failed. ")
     end) ≫= fun _ => eff_modify (count_entry false)).

Definition fileModeLogPathFromFileHandlesErr (a : IterArgs) (s : IterState) : string :=
  match errorFDVecIdx (it_rw s) with
  | None => "Path: unavailable; "
  | Some i => "Path: " +:+ default "" (fa_benchPaths a !! Z.to_nat i) +:+ "; "
  end.
End iteration.
Arguments IterState : clear implicits.
