(* ===== verification/FileIterSafety.v ===== *)
(** Every iteration of FileIter.v releases what it takes: descriptors and memory mappings are, at a
    normal return as well as after any exception, exactly those of the start, whatever the system
    calls answer.  *)

From S2P Require Import Prelude Common Effects CppStrings RandAlgo BlockSizeMix OffsetGen PathStore.
From S2P Require Import LatencyHistogram LiveOps Journal RWLoop FileTk FileIter.

#[local] Open Scope list_scope.
#[local] Open Scope Z_scope.

Create HintDb balanced.

(** ** Programs on the world *)

Section world.
Context {W : Type} (os : Os W) {HO : OsLaws os}.

Definition same_res (w w' : W) : Prop := os_fds w' ≡ₚ os_fds w /\ os_maps w' ≡ₚ os_maps w.

#[global] Instance same_res_equiv : Equivalence same_res.
Proof.
  split; unfold same_res.
  - by intros w.
  - intros w w' [H1 H2]. by rewrite H1, H2.
  - intros w1 w2 w3 [H1 H2] [H3 H4]. by rewrite H3, H4.
Qed.

#[global] Instance same_res_preorder : PreOrder same_res.
Proof. apply Equivalence_PreOrder, same_res_equiv. Qed.

Lemma os_same_res w w' : os_same os_fds os_maps w w' -> same_res w w'.
Proof. intros [H1 H2]. unfold same_res. by rewrite H1, H2. Qed.

Lemma wpp_sys {A} (f : W -> A * W) w (Q : result A -> W -> Prop) : Q (Ok (f w).1) (f w).2 -> wpp (sys f) w Q.
Proof. intros H r w' Hm. unfold sys in Hm. destruct (f w). by injection Hm as <- <-. Qed.

(** Keeps the resources, at every exit. *)
#[local] Abbreviation keeps := (within same_res).

Lemma keeps_sys {A} (f : W -> A * W) : (forall w, os_same os_fds os_maps w (f w).2) -> keeps (sys f).
Proof. intros H w. apply wpp_sys, os_same_res, H. Qed.

Lemma fadvise_keeps fd flags : keeps (fadvise os fd flags).
Proof.
  apply within_for. intros [flag advice]. apply within_when, within_bind; [apply keeps_sys; intros; apply os_fadvise_keeps|].
  intros [e|]; [apply within_throw|apply within_ret].
Qed.

Lemma mkdiratBottomUp_keeps fuel d p : keeps (mkdiratBottomUp os fuel d p).
Proof.
  assert (forall q, keeps (sys (os_mkdirat os d q))) as Hmk by (intros q; apply keeps_sys; intros; apply os_mkdirat_keeps).
  revert p. induction fuel as [|fuel IH]; intros p; cbn; (apply within_bind; [apply Hmk|]); intros [[]|];
    try apply within_ret; destruct (_ || _); try apply within_ret; [by intros w r w'|].
  apply within_bind; [apply IH|]. intros [[]|]; (apply within_ret || apply Hmk).
Qed.

(** A mapping is created on success only. *)
Lemma mmapAndMadvise_spec len b fd flags w :
  wpp (mmapAndMadvise os len b fd flags) w
    (post (fun addr w' => os_fds w' ≡ₚ os_fds w /\ os_maps w' ≡ₚ addr :: os_maps w) (fun _ w' => same_res w w')).
Proof.
  unfold mmapAndMadvise. apply wpp_bind, wpp_sys. cbn [post]. pose proof (os_mmap_law len b fd w) as Hm.
  destruct (os_mmap os len b fd w) as [[e|addr] w1]; cbn [fst snd].
  { apply wpp_throw. cbn. by apply os_same_res. }
  destruct Hm as [Hf Hm]. destruct (flags =? 0); [apply wpp_ret; cbn; by rewrite Hf, Hm|].
  apply wpp_catch, wpp_bind. set (body := eff_for _ _).
  assert (keeps body) as Hbody.
  { apply within_for. intros [flag advice]. apply within_when, within_bind; [apply keeps_sys; intros; apply os_madvise_keeps|].
    intros [e|]; [apply within_throw|apply within_ret]. }
  eapply wpp_mono; [apply Hbody|]. intros [[]|e] w2 [H1 H2]; cbn [post].
  - apply wpp_ret. cbn. by rewrite H1, H2, Hf, Hm.
  - apply wpp_bind, wpp_sys. cbn [post]. apply wpp_throw. cbn.
    destruct (os_munmap_law addr len w2 (os_maps w)) as [H3 H4]; [by rewrite H2|]. split; [by rewrite H3, H1, Hf|done].
Qed.
End world.

(** ** Programs of the worker *)

Section worker.
Context {R D G W : Type} {HR : RandAlgo R} {HD : RandAlgo D} {HG : OffsetGenerator R D G} (os : Os W) {HO : OsLaws os}.
#[local] Abbreviation state := (IterState R D G W).
#[local] Abbreviation rwst := (RWState (R := R) (D := D) (G := G) (W := W)).
Context (engine : list Z -> eff rwst Z).

(** The engine opens and maps nothing. *)
Definition engine_keeps : Prop := forall fds rw, wpp (engine fds) rw (fun _ rw' => same_res os (rw_world rw) (rw_world rw')).
Context (Hengine : engine_keeps).

(** Same resources; no file is mapped between two files. *)
Definition bal (s s' : state) : Prop := same_res os (it_world s) (it_world s') /\ it_mmap s' = it_mmap s.

#[global] Instance bal_preorder : PreOrder bal.
Proof.
  split; [done|]. intros s1 s2 s3 [H1 H2] [H3 H4]. split; [by transitivity (it_world s2)|congruence].
Qed.

(** Started without a mapping. *)
Definition bal_unmapped (s s' : state) : Prop := it_mmap s = None -> bal s s'.

#[global] Instance bal_unmapped_preorder : PreOrder bal_unmapped.
Proof.
  split; [done|]. intros s1 s2 s3 H1 H2 Hs. specialize (H1 Hs). transitivity s2; [done|]. apply H2. by rewrite (proj2 H1).
Qed.

(** The descriptor of the current file stays too. *)
Definition bal_file (s s' : state) : Prop := bal s s' /\ it_fd s' = it_fd s.

#[global] Instance bal_file_preorder : PreOrder bal_file.
Proof. split; [done|]. intros s1 s2 s3 [H1 H2] [H3 H4]. split; [by transitivity s2|congruence]. Qed.

#[local] Abbreviation framed := (within bal_file).
#[local] Abbreviation balanced := (within bal_unmapped).

Lemma framed_balanced {A} (m : eff state A) : framed m -> balanced m.
Proof. intros H s. eapply wpp_mono; [apply H|]. by intros r s' [Hb _] _. Qed.

(** A change that concerns neither the world nor the handles. *)
Lemma framed_modify f :
  (forall s, it_world (f s) = it_world s /\ it_mmap (f s) = it_mmap s /\ it_fd (f s) = it_fd s) -> framed (eff_modify f).
Proof. intros H. apply within_modify. intros s. destruct (H s) as (H1 & H2 & H3). repeat split; by rewrite ?H1. Qed.

Lemma wpp_on_os {A} (m : eff W A) (s : state) (Q : result A -> state -> Prop) :
  wpp m (it_world s) (fun r w' => Q r (put_it_world w' s)) -> wpp (on_os m) s Q.
Proof.
  intros H r s' Hm. unfold on_os, eff_zoom in Hm. destruct (m (it_world s)) as [[r1 w1]|] eqn:E; [|done].
  injection Hm as <- <-. by apply H.
Qed.

Lemma framed_on_os {A} (m : eff W A) : within (same_res os) m -> framed (on_os m).
Proof. intros H s. apply wpp_on_os. eapply wpp_mono; [apply H|]. intros r w' Hw. by split. Qed.

Lemma framed_sys {A} (f : W -> A * W) : (forall w, os_same os_fds os_maps w (f w).2) -> framed (on_os (sys f)).
Proof. intros H. by apply framed_on_os, keeps_sys. Qed.

#[local] Hint Resolve os_mkdirat_keeps os_unlinkat_keeps os_unlink_keeps os_stat_keeps os_fstat_keeps os_fstatat_keeps
  os_ftruncate_keeps os_fallocate_keeps os_fadvise_keeps os_madvise_keeps os_fcntl_keeps os_cuFileReg_keeps os_now_keeps
  os_syncfs_keeps os_write_keeps  framed_sys framed_on_os fadvise_keeps mkdiratBottomUp_keeps : balanced.

Lemma framed_count mix : framed (eff_modify (count_entry mix)).
Proof. apply framed_modify. intros s. unfold count_entry. by destruct mix. Qed.

Lemma framed_account mix t : framed (eff_modify (account_entry mix t)).
Proof. apply framed_modify. intros s. unfold account_entry, count_entry. by destruct mix. Qed.

Lemma framed_no_work : framed (eff_modify set_noPhaseWork).
Proof. apply framed_modify. by intros s. Qed.

Lemma framed_print p msg : framed (print_path p msg).
Proof. unfold print_path. apply within_if; [apply within_throw|apply within_ret]. Qed.

Lemma framed_reset : framed reset_gen.
Proof. apply framed_modify. intros s. unfold it_world, upd_it_rw. cbn. by case_match. Qed.

Lemma framed_reset_to len off : framed (reset_gen_to len off).
Proof. intros s r s' Hm. unfold reset_gen_to in Hm. repeat case_match; by injection Hm as <- <-. Qed.

Lemma framed_engine fds : framed (run_engine engine fds).
Proof.
  intros s r s' Hm. unfold run_engine, eff_zoom in Hm. destruct (engine fds (it_rw s)) as [[r1 rw1]|] eqn:E; [|done].
  injection Hm as <- <-. split; [split; [|done]|done]. apply (Hengine _ _ _ _ E).
Qed.

#[local] Hint Resolve framed_count framed_account framed_no_work framed_print framed_reset framed_reset_to framed_engine
  framed_balanced : balanced.

Ltac framed := within_steps ltac:(auto 5 with balanced).

Lemma framed_dirModeIterateDirs a : framed (dirModeIterateDirs os a).
Proof. unfold dirModeIterateDirs, timed_entry. framed. Qed.

Lemma framed_dirModeIterateCustomDirs a : framed (dirModeIterateCustomDirs os a).
Proof. unfold dirModeIterateCustomDirs, timed_entry. framed. Qed.

Lemma framed_fileModeDeleteFiles a : framed (fileModeDeleteFiles os a).
Proof. unfold fileModeDeleteFiles. framed. Qed.

Lemma framed_stat a i p : framed (stat_file os a i p).
Proof. unfold stat_file. framed. Qed.

Lemma framed_unlink a b i p : framed (unlink_file os a b i p).
Proof. unfold unlink_file. framed. Qed.

Lemma framed_use_file a n : framed (use_file os engine a n).
Proof. unfold use_file, rw_current_file, rw_checked. framed. Qed.

(** *** Open files *)

(** Since [s], a mapping was added, when the arguments ask for it. *)
Definition mapped (a : IterArgs) (s s' : state) : Prop :=
  if fa_useMmap a then exists addr, it_mmap s' = Some addr /\ os_maps (it_world s') ≡ₚ addr :: os_maps (it_world s)
  else it_mmap s' = None /\ os_maps (it_world s') ≡ₚ os_maps (it_world s).

Lemma mapped_framed a s s1 s2 : mapped a s s1 -> bal_file s1 s2 -> mapped a s s2.
Proof.
  unfold mapped. intros H2 [[[H3 H4] H5] H6]. rewrite H5. destruct (fa_useMmap a); [|by rewrite H4].
  destruct H2 as (addr & -> & H2). exists addr. by rewrite H4.
Qed.

(** Since [s], descriptor [fd] was opened too. *)
Definition opened (a : IterArgs) (fd : Z) (s s' : state) : Prop :=
  os_fds (it_world s') ≡ₚ fd :: os_fds (it_world s) /\ mapped a s s'.

Lemma opened_framed a fd s s1 s2 : opened a fd s s1 -> bal_file s1 s2 -> opened a fd s s2.
Proof. intros [H1 H2] H. split; [|by eapply mapped_framed]. destruct H as [[[-> _] _] _]. done. Qed.

Lemma dereg_spec s1 :
  wpp (on_os (fun w => Some (Ok tt, os_cuFileDereg os w))) s1 (post (fun _ s2 => bal_file s1 s2) (fun _ _ => False)).
Proof. apply wpp_on_os. intros r w' [= <- <-]. split; [split|]; try done. apply os_same_res, os_cuFileDereg_keeps. Qed.

(** The mapping is gone, the descriptor is still open. *)
Definition unmapped (fd : Z) (s s' : state) : Prop :=
  os_fds (it_world s') ≡ₚ fd :: os_fds (it_world s) /\ os_maps (it_world s') ≡ₚ os_maps (it_world s) /\ it_mmap s' = None.

Lemma unmapped_framed fd s s1 s2 : unmapped fd s s1 -> bal_file s1 s2 -> unmapped fd s s2.
Proof. intros (H1 & H2 & H3) [[[H4 H5] H6] H7]. split; [by rewrite H4|]. by rewrite H5, H6. Qed.

Lemma close_fd_bal fd s s1 : it_mmap s = None -> unmapped fd s s1 ->
  wpp (on_os (sys (os_close os fd))) s1 (post (fun _ s' => bal s s') (fun _ _ => False)).
Proof.
  intros Hs (Hf & Hm & Hmm). apply wpp_on_os, wpp_sys. cbn [post]. destruct (os_close_law fd (it_world s1) _ Hf) as [H1 H2].
  split; [split|by rewrite Hs]; cbn; [done|]. by rewrite H2.
Qed.

(** Unmapping restores the mappings. *)
Definition unmaps (s s1 s2 : state) : Prop :=
  os_fds (it_world s2) = os_fds (it_world s1) /\ os_maps (it_world s2) ≡ₚ os_maps (it_world s) /\
  it_mmap s2 = None /\ it_fd s2 = it_fd s1.

Lemma munmap_spec len addr (s s1 : state) : os_maps (it_world s1) ≡ₚ addr :: os_maps (it_world s) ->
  wpp (on_os (sys (os_munmap os (Some addr) len));; eff_modify (set_mmap None)) s1
    (post (fun _ s2 => unmaps s s1 s2) (fun _ _ => False)).
Proof.
  intros Hmaps. apply wpp_bind, wpp_on_os, wpp_sys. cbn [post]. apply wpp_modify. cbn.
  by destruct (os_munmap_law addr len (it_world s1) _ Hmaps) as [H1 H2].
Qed.

Lemma unmap_spec a len (s s1 : state) : mapped a s s1 ->
  wpp (eff_when (fa_useMmap a) (m ← eff_get it_mmap; on_os (sys (os_munmap os m len));; eff_modify (set_mmap None))) s1
    (post (fun _ s2 => unmaps s s1 s2) (fun _ _ => False)).
Proof.
  unfold mapped. destruct (fa_useMmap a); cbn [eff_when].
  - intros (addr & Hmm & Hm). apply wpp_bind, wpp_get. cbn [post]. rewrite Hmm. by apply munmap_spec.
  - intros [Hmm Hm]. by apply wpp_ret.
Qed.

Lemma unmaps_unmapped a s s1 s2 : opened a (it_fd s1) s s1 -> unmaps s s1 s2 -> unmapped (it_fd s2) s s2.
Proof. intros [Hf _] (H1 & H2 & H3 & ->). split; [by rewrite H1|done]. Qed.

(** The descriptor of the handles is closed last. *)
Lemma close_spec {A} (s s1 : state) (k : option errno -> eff state A) :
  it_mmap s = None -> unmapped (it_fd s1) s s1 -> (forall r, framed (k r)) ->
  wpp (on_os (fun w => Some (Ok tt, os_cuFileDereg os w));; fd ← eff_get it_fd; r ← on_os (sys (os_close os fd)); k r) s1
    (fun _ s' => bal s s').
Proof.
  intros Hs Hun Hk. apply wpp_bind. eapply wpp_mono; [apply dereg_spec|]. intros [[]|e] s2 H2; [|done]. cbn [post].
  apply wpp_bind, wpp_get. cbn [post]. rewrite (proj2 H2). apply wpp_bind.
  eapply wpp_mono; [apply (close_fd_bal _ s); [done|by eapply unmapped_framed]|]. intros [r|e] s3 H3; [|done]. cbn [post].
  eapply wpp_mono; [apply Hk|]. intros r' s4 [H4 _]. by transitivity s3.
Qed.

Lemma close_used_spec a len (s s1 : state) : it_mmap s = None -> opened a (it_fd s1) s s1 ->
  wpp (close_used os a len) s1 (fun _ s' => bal s s').
Proof.
  intros Hs Ho. unfold close_used. apply wpp_bind. eapply wpp_mono; [apply unmap_spec, Ho|].
  intros [[]|e] s2 H2; [|done]. cbn [post] in *. apply close_spec; [done|by eapply unmaps_unmapped|framed].
Qed.

Lemma close_after_error_spec a len (s s1 : state) : it_mmap s = None -> opened a (it_fd s1) s s1 ->
  wpp (close_after_error os a len) s1 (fun _ s' => bal s s').
Proof.
  intros Hs Ho. unfold close_after_error. apply wpp_bind, wpp_get. cbn [post]. apply wpp_bind.
  apply wpp_mono with (post (fun _ s2 => unmaps s s1 s2) (fun _ _ => False)).
  - destruct Ho as [_ Hm]. unfold mapped in Hm. destruct (fa_useMmap a); cbn [andb].
    2: { apply wpp_ret. by destruct Hm. }
    destruct Hm as (addr & Hmm & Hm). rewrite Hmm, bool_decide_true by done. by apply munmap_spec.
  - intros [[]|e] s2 H2; [|done]. cbn [post] in *. apply close_spec; [done|by eapply unmaps_unmapped|framed].
Qed.

Lemma close_unprepared_spec a fd len (s s1 : state) : it_mmap s = None -> unmapped fd s s1 ->
  wpp (close_unprepared os a fd len) s1 (post (fun _ s' => bal s s') (fun _ _ => False)).
Proof.
  intros Hs Hun. unfold close_unprepared. apply wpp_bind.
  apply wpp_mono with (post (fun _ s2 => unmapped fd s s2) (fun _ _ => False)).
  - apply wpp_when; intros _; [|done]. apply wpp_bind, wpp_get. cbn [post]. destruct Hun as (Hf & Hm & ->).
    apply wpp_bind, wpp_on_os, wpp_sys. cbn [post]. apply wpp_modify. cbn.
    destruct (os_munmap_failed len (it_world s1)) as [H1 H2]. split; cbn; [by rewrite H1|by rewrite H2].
  - intros [[]|e] s2 H2; [|done]. cbn [post]. apply wpp_bind. eapply wpp_mono; [by apply close_fd_bal|].
    intros [r|e] s3 H3; [|done]. cbn [post]. by apply wpp_ret.
Qed.

(** A framed call first. *)
Lemma wpp_framed_bind {A B} (m : eff state A) (k : A -> eff state B) s (Q : result B -> state -> Prop) :
  framed m -> (forall a s', bal_file s s' -> wpp (k a) s' Q) -> (forall e s', bal_file s s' -> Q (Throw e) s') -> wpp (m ≫= k) s Q.
Proof. intros Hm Hk HQ. apply wpp_bind. eapply wpp_mono; [apply Hm|]. intros [x|e] s1 H1; cbn [post]; auto. Qed.

Lemma dirModeOpenAndPrepFile_spec a i p flags len pre s : it_mmap s = None ->
  wpp (dirModeOpenAndPrepFile os a i p flags len pre) s (post (fun fd s' => opened a fd s s') (fun _ s' => bal s s')).
Proof.
  intros Hs. unfold dirModeOpenAndPrepFile. apply wpp_framed_bind; [framed|intros dirFD s0 [H0 _]|by intros e s0 [H0 _]].
  assert (it_mmap s0 = None) as Hs0 by (by rewrite (proj2 H0)).
  apply wpp_mono with (post (fun fd s' => opened a fd s0 s') (fun _ s' => bal s0 s')).
  2: { destruct H0 as [[Hf0 Hm0] Hmm0].
       intros [fd|e] s' H; cbn [post] in *; [|by transitivity s0]. destruct H as [H1 H2]. split; [by rewrite H1, Hf0|].
       unfold mapped in *. destruct (fa_useMmap a); [|by rewrite <-Hm0]. destruct H2 as (addr & H2 & H3). exists addr. by rewrite <-Hm0. }
  apply wpp_bind, wpp_on_os, wpp_sys. cbn [post]. pose proof (os_openat_law dirFD p flags (it_world s0)) as Ho.
  destruct (os_openat os dirFD p flags (it_world s0)) as [[e|fd] w1]; cbn [fst snd].
  { apply wpp_throw. cbn. split; [by apply os_same_res|done]. }
  destruct Ho as [Hf Hm]. set (s1 := put_it_world w1 s0). assert (unmapped fd s0 s1) as Hun.
  { split; [done|]. split; [by cbn; rewrite Hm|done]. }
  clearbody s1. clear Hf Hm w1. apply wpp_catch.
  apply wpp_mono with (post (fun fd' s' => opened a fd' s0 s') (fun _ s' => unmapped fd s0 s')).
  2: { intros [fd'|e] s2 H2; [done|]. cbn [post] in *. apply wpp_bind. eapply wpp_mono; [by apply close_unprepared_spec|].
       intros [[]|e'] s3 H3; [|done]. by apply wpp_throw. }
  apply wpp_framed_bind; [framed|intros _ s2 H2|intros e s2 H2; by eapply unmapped_framed].
  eapply unmapped_framed in Hun; [clear H2 s1|exact H2].
  apply wpp_framed_bind; [framed|intros _ s3 H3|intros e s3 H3; by eapply unmapped_framed].
  eapply unmapped_framed in Hun; [clear H3 s2|exact H3]. destruct Hun as (Hf & Hm & Hmm).
  unfold opened, mapped. destruct (fa_useMmap a); cbn [eff_when].
  2: { apply wpp_bind, wpp_ret. cbn [post]. by apply wpp_ret. }
  apply wpp_bind, wpp_bind, wpp_on_os. eapply wpp_mono; [apply mmapAndMadvise_spec|].
  intros [addr|e] w4 H4; cbn [post] in *; destruct H4 as [H4 H5].
  - apply wpp_modify. cbn [post]. apply wpp_ret. cbn. split; [by rewrite H4|]. exists addr. by rewrite H5, Hm.
  - split; [cbn; by rewrite H4|]. cbn. by rewrite H5.
Qed.

Lemma balanced_unmapped {A} (m : eff state A) : (forall s, it_mmap s = None -> wpp m s (fun _ s' => bal s s')) -> balanced m.
Proof. intros H s r s' Hm Hs. by apply (H s Hs r s'). Qed.

Lemma balanced_rw_file a i p len pre n : balanced (rw_file os engine a i p len pre n).
Proof.
  apply balanced_unmapped. intros s Hs. unfold rw_file. apply wpp_bind.
  eapply wpp_mono; [by apply dirModeOpenAndPrepFile_spec|]. intros [fd|e] s1 H1; cbn [post] in *; [|done].
  apply wpp_bind, wpp_modify. cbn [post]. set (s2 := set_fd fd s1).
  assert (opened a (it_fd s2) s s2) as H2 by done. clearbody s2. clear H1 fd s1. apply wpp_bind, wpp_catch.
  eapply wpp_mono; [apply framed_use_file|]. intros [[]|e] s3 H3; cbn [post].
  - apply close_used_spec; [done|]. rewrite (proj2 H3). by eapply opened_framed.
  - apply wpp_bind. eapply wpp_mono; [apply close_after_error_spec; [exact Hs|]|].
    { rewrite (proj2 H3). by eapply opened_framed. }
    intros [[]|e'] s4 H4; cbn [post]; [by apply wpp_throw|done].
Qed.

#[local] Hint Resolve balanced_rw_file framed_stat framed_unlink : balanced.

Lemma balanced_dirModeIterateFiles a : balanced (dirModeIterateFiles os engine a).
Proof. unfold dirModeIterateFiles, dir_mode_file, timed_entry. framed. Qed.

Lemma balanced_dirModeIterateCustomFiles a : balanced (dirModeIterateCustomFiles os engine a).
Proof. unfold dirModeIterateCustomFiles, custom_tree_file. framed. Qed.

(** *** Slices of the files of file and block device mode *)

Lemma rw_slice_tail a len n (s s1 : state) : it_mmap s = None -> os_fds (it_world s1) ≡ₚ os_fds (it_world s) -> mapped a s s1 ->
  let unmap := eff_when (fa_useMmap a) (m ← eff_get it_mmap; on_os (sys (os_munmap os m n));; eff_modify (set_mmap None)) in
  wpp (eff_catch
         (eff_when (bool_decide (fa_benchPhase a = BenchPhase_CREATEFILES)) (rw_current_file engine true len);;
          eff_when (bool_decide (fa_benchPhase a = BenchPhase_READFILES)) (rw_current_file engine false len))
         (fun e => unmap;; eff_throw e);; unmap) s1 (fun _ s' => bal s s').
Proof.
  intros Hs Hf Hm unmap. apply wpp_bind, wpp_catch.
  assert (forall s2, bal_file s1 s2 -> wpp unmap s2 (post (fun _ s' => bal s s') (fun _ _ => False))) as Hunmap.
  { intros s2 H2. eapply wpp_mono; [apply unmap_spec, (mapped_framed _ _ _ _ Hm H2)|].
    intros [[]|e] s3 H3; [|done]. destruct H3 as (H4 & H5 & H6 & _), H2 as [[[H2 _] _] _].
    split; [split|congruence]; [by rewrite H4, H2|done]. }
  apply wpp_mono with (fun _ s2 => bal_file s1 s2).
  { unfold rw_current_file, rw_checked. match goal with |- wpp ?m _ _ => assert (framed m) as H by framed; apply H end. }
  intros [[]|e] s2 H2; cbn [post].
  - eapply wpp_mono; [by apply Hunmap|]. by intros [[]|e] s3 H3.
  - apply wpp_bind. eapply wpp_mono; [by apply Hunmap|]. intros [[]|e'] s3 H3; [|done]. by apply wpp_throw.
Qed.

Lemma balanced_rw_slice a i start len : balanced (rw_slice os engine a i start len).
Proof.
  apply balanced_unmapped. intros s Hs. unfold rw_slice.
  apply wpp_framed_bind; [framed|intros fd s1 [H1 _]|by intros e s1 [H1 _]].
  apply wpp_bind, wpp_modify. cbn [post]. assert (bal s (set_fd fd s1)) as H2 by done. revert H2. generalize (set_fd fd s1).
  clear H1. intros s2 H2. apply wpp_framed_bind; [framed|intros _ s3 [H3 _]|intros e s3 [H3 _]; by transitivity s2].
  apply wpp_framed_bind; [framed|intros _ s4 [H4 _]|intros e s4 [H4 _]; transitivity s2; [done|by transitivity s3]].
  assert (bal s s4) as [[Hf Hm] Hmm] by (transitivity s2; [done|by transitivity s3]). clear H2 H3 H4.
  destruct (fa_useMmap a) eqn:Hu; cbn [eff_when].
  - apply wpp_bind, wpp_bind, wpp_on_os. eapply wpp_mono; [apply mmapAndMadvise_spec|].
    intros [addr|e] w5 H5; cbn [post] in *; destruct H5 as [H5 H6].
    + apply wpp_modify. cbn [post].
      pose proof (rw_slice_tail a len (fa_fileOffset a +₆₄ fa_fileSize a) s (set_mmap (Some addr) (put_it_world w5 s4))) as Ht.
      rewrite Hu in Ht. apply Ht; [done|cbn; by rewrite H5|]. unfold mapped. rewrite Hu. exists addr. cbn. by rewrite H6, Hm.
    + split; [split|]; cbn; [by rewrite H5|by rewrite H6|done].
  - apply wpp_bind, wpp_ret. cbn [post].
    pose proof (rw_slice_tail a len (fa_fileOffset a +₆₄ fa_fileSize a) s s4) as Ht. rewrite Hu in Ht.
    apply Ht; [done..|]. unfold mapped. rewrite Hu. split; [congruence|done].
Qed.

Lemma balanced_with_journal {A} a i (m : eff state A) : balanced m -> balanced (with_journal a i m).
Proof.
  intros Hm. unfold with_journal. destruct (fa_journalEnabled a); [|done].
  apply within_bind; [apply within_get|]. intros s0. apply within_bind; [apply within_some|]. intros j.
  apply within_bind; [apply framed_balanced, framed_modify; by intros s|]. intros _.
  apply within_finally; [done|]. intros s _. repeat case_match; done.
Qed.

Lemma balanced_seq_loop fuel a e b : balanced (seq_loop os engine fuel a e b).
Proof.
  revert b. induction fuel as [|fuel IH]; intros b; cbn [seq_loop]; (apply within_if; [apply within_ret|]); [apply within_stuck|].
  destruct (seq_slice a e b) as [[i start] len]. apply within_bind; [apply balanced_with_journal, balanced_rw_slice|auto].
Qed.

Lemma balanced_fileModeIterateFilesSeq fuel a : balanced (fileModeIterateFilesSeq os engine fuel a).
Proof. apply within_if; [auto with balanced|apply balanced_seq_loop]. Qed.
End worker.

#[export] Hint Resolve framed_sys framed_on_os os_syncfs_keeps os_write_keeps framed_engine framed_no_work framed_balanced
  framed_dirModeIterateDirs framed_dirModeIterateCustomDirs framed_fileModeDeleteFiles balanced_dirModeIterateFiles
  balanced_dirModeIterateCustomFiles balanced_fileModeIterateFilesSeq : balanced.
