(* ===== verification/PhaseWork.v ===== *)
(** The work of a local worker in one phase: the dispatch of [LocalWorker::run()] to the iteration
    methods, the remaining methods of the POSIX modes ([fileModeIterateFilesRand()],
    [anyModeSync()], [anyModeDropCaches()]), the preparation before each pass and the loop of the
    infinite mode (workers/LocalWorker.cpp).

    The iteration methods of S3, HDFS and network mode are only named: a pass that would call one of
    them does not come back in the model. *)

From S2P Require Import Prelude Common Effects CppStrings RandAlgo BlockSizeMix OffsetGen AnyGen PathStore.
From S2P Require Import LatencyHistogram LiveOps Journal RWLoop FileTk FileIter.

#[local] Open Scope list_scope.
#[local] Open Scope Z_scope.

(** ** Definitions *)

(** What the switch over the phases calls. *)
Inductive Routine : Type :=
  | Call_terminate
  | Call_dirModeIterateDirs | Call_dirModeIterateCustomDirs | Call_hdfsDirModeIterateDirs | Call_s3ModeIterateBuckets
  | Call_netbenchDoTransfer | Call_hdfsDirModeIterateFiles | Call_s3ModeIterateObjects | Call_s3ModeIterateCustomObjects
  | Call_dirModeIterateFiles | Call_dirModeIterateCustomFiles | Call_fileModeIterateFilesRand | Call_fileModeIterateFilesSeq
  | Call_s3ModeIterateAndCompleteMpuIDs | Call_s3ModeListObjects | Call_s3ModeListObjParallel
  | Call_s3ModeListAndMultiDeleteObjects | Call_fileModeDeleteFiles | Call_anyModeSync | Call_anyModeDropCaches
  | Call_throw (msg : string).

Record WorkArgs : Type := mkWorkArgs {
  wa_iter : IterArgs;
  wa_gen : GenArgs;
  wa_pathType : BenchPathType;
  wa_mode : BenchMode;
  wa_treeFilePath : string;
  wa_doInfiniteIOLoop : bool;
}.

Definition s3_objects (treeEmpty : bool) : Routine :=
  if treeEmpty then Call_s3ModeIterateObjects else Call_s3ModeIterateCustomObjects.

(** Files in directory mode. *)
Definition dir_files (mode : BenchMode) (treeEmpty : bool) : Routine :=
  if bool_decide (mode = BenchMode_HDFS) then Call_hdfsDirModeIterateFiles
  else if bool_decide (mode = BenchMode_S3) then s3_objects treeEmpty
  else if treeEmpty then Call_dirModeIterateFiles else Call_dirModeIterateCustomFiles.

Definition phase_routine (w : WorkArgs) (phase : BenchPhase) : Routine :=
  let isDir := bool_decide (wa_pathType w = BenchPathType_DIR) in
  let mode := wa_mode w in
  let treeEmpty := bool_decide (wa_treeFilePath w = "") in
  match phase with
  | BenchPhase_TERMINATE => Call_terminate
  | BenchPhase_CREATEDIRS | BenchPhase_DELETEDIRS | BenchPhase_STATDIRS =>
      if negb isDir
      then Call_throw "Directory creation and deletion are not available in file and block device mode."
      else if bool_decide (mode = BenchMode_HDFS) then Call_hdfsDirModeIterateDirs
      else if bool_decide (mode = BenchMode_S3) then Call_s3ModeIterateBuckets
      else if treeEmpty then Call_dirModeIterateDirs else Call_dirModeIterateCustomDirs
  | BenchPhase_GET_S3_BUCKET_MD | BenchPhase_PUT_S3_BUCKET_MD | BenchPhase_DEL_S3_BUCKET_MD => Call_s3ModeIterateBuckets
  | BenchPhase_CREATEFILES | BenchPhase_READFILES =>
      if isDir then
        if bool_decide (mode = BenchMode_NETBENCH) then Call_netbenchDoTransfer else dir_files mode treeEmpty
      else if ga_useRandomOffsets (wa_gen w) || ga_useStridedAccess (wa_gen w)
      then Call_fileModeIterateFilesRand else Call_fileModeIterateFilesSeq
  | BenchPhase_S3MPUCOMPLETE => Call_s3ModeIterateAndCompleteMpuIDs
  | BenchPhase_GET_S3_OBJECT_MD | BenchPhase_PUT_S3_OBJECT_MD | BenchPhase_DEL_S3_OBJECT_MD => s3_objects treeEmpty
  | BenchPhase_STATFILES =>
      if negb isDir then Call_throw "File stat operation not available in file and block device mode."
      else dir_files mode treeEmpty
  | BenchPhase_PUTBUCKETACL | BenchPhase_GETBUCKETACL => Call_s3ModeIterateBuckets
  | BenchPhase_PUTOBJACL | BenchPhase_GETOBJACL => s3_objects treeEmpty
  | BenchPhase_LISTOBJECTS => Call_s3ModeListObjects
  | BenchPhase_LISTOBJPARALLEL =>
      if negb treeEmpty then Call_throw "Parallel object listing is not available in custom tree mode."
      else Call_s3ModeListObjParallel
  | BenchPhase_MULTIDELOBJ => Call_s3ModeListAndMultiDeleteObjects
  | BenchPhase_DELETEFILES => if isDir then dir_files mode treeEmpty else Call_fileModeDeleteFiles
  | BenchPhase_SYNC => Call_anyModeSync
  | BenchPhase_DROPCACHES => Call_anyModeDropCaches
  | BenchPhase_IDLE => Call_throw "Unknown/invalid next phase type: "
  end.

(** The arguments with the phase of this thread. *)
Definition set_benchPhase (p : BenchPhase) (a : IterArgs) : IterArgs :=
  mkIterArgs (fa_workerRank a) (fa_rankOffset a) p (fa_globalBenchPhase a) (fa_numDirs a) (fa_numFiles a) (fa_fileSize a)
    (fa_fileOffset a) (fa_blockSize a) (fa_numDataSetThreads a) (fa_pathFDs a) (fa_benchPaths a) (fa_doDirSharing a)
    (fa_ignoreDelErrors a) (fa_numRWMixReadThreads a) (fa_useMmap a) (fa_doStatInline a) (fa_doTruncate a) (fa_useDirectIO a)
    (fa_doTruncToSize a) (fa_doPreallocFile a) (fa_fadviseFlags a) (fa_madviseFlags a) (fa_runCreateDirsPhase a)
    (fa_isServicePathShared a) (fa_journalEnabled a) (fa_customTreeDirs a) (fa_workerTreeDirs a) (fa_workerTreeFiles a).

Section phase_work.
Context {R D W : Type} `{!RandAlgo R, !RandAlgo D} (os : Os W).
#[local] Abbreviation state := (IterState R D AnyGen W).
#[local] Abbreviation rwst := (RWState (R := R) (D := D) (G := AnyGen) (W := W)).
#[local] Abbreviation act := (eff state).
Context (engine : list Z -> eff rwst Z).

(** A generator that may refuse its arguments. *)
Definition choose_gen (choice : Env R D -> result (AnyGen * Env R D)) : act unit := fun s =>
  match choice (rw_env (it_rw s)) with
  | Ok (g, e) => Some (Ok tt, upd_it_rw (fun rw => set_gen rw g e) s)
  | Throw e => Some (Throw e, s)
  end.

(** The journals of the worker are those of the targets, by pointer. *)
Definition with_journals {A} (a : IterArgs) (m : act A) : act A :=
  eff_finally m (fun s => if fa_journalEnabled a then set_it_journals (rw_journals (it_rw s)) s else s).

(** The phase that the code compares is the one of all workers, also in a reader of a mixed phase. *)
Definition fileModeIterateFilesRand (w : WorkArgs) : act unit :=
  let a := wa_iter w in
  choose_gen (fileModeRandGen (wa_gen w) (Z.of_nat (length (fa_pathFDs a))));;
  let total (s : state) := getNumBytesTotal (R := R) (D := D) (rw_gen (it_rw s)) in
  eff_when (bool_decide (fa_globalBenchPhase a = BenchPhase_CREATEFILES))
    (with_journals a (rw_checked engine (fa_pathFDs a) true total));;
  eff_when (bool_decide (fa_globalBenchPhase a = BenchPhase_READFILES))
    (with_journals a (rw_checked engine (fa_pathFDs a) false total)).

(** Only the first worker of an instance works; with [SYNCFS_SUPPORT]. *)
Definition anyModeSync (a : IterArgs) : act unit :=
  if negb (fa_workerRank a =? fa_rankOffset a) then eff_modify set_noPhaseWork
  else
    let n := Z.of_nat (length (fa_pathFDs a)) in
    eff_for (seqZ 0 n) (fun i =>
      fd ← path_fd a ((i +₆₄ fa_workerRank a) `mod` n);
      res ← on_os (sys (os_syncfs os fd));
      match res with None => mret tt | Some _ => eff_throw (WorkerException "Cache sync failed. ") end).

Definition anyModeDropCaches (a : IterArgs) : act unit :=
  if negb (fa_workerRank a =? fa_rankOffset a) then eff_modify set_noPhaseWork
  else
    res ← on_os (sys (os_open os "/proc/sys/vm/drop_caches"));
    match res with
    | inl _ => eff_throw (WorkerException "Opening virtual drop_caches file failed. ")
    | inr fd =>
        wres ← on_os (sys (os_write os fd "3"));
        on_os (sys (os_close os fd));;
        match wres with
        | None => mret tt
        | Some _ => eff_throw (WorkerException "Writing to cache drop command file failed. ")
        end
    end.

(** [fuel] bounds the slices of a sequential pass. *)
Definition run_routine (fuel : nat) (w : WorkArgs) (a : IterArgs) (r : Routine) : act unit :=
  match r with
  | Call_dirModeIterateDirs => dirModeIterateDirs os a
  | Call_dirModeIterateCustomDirs => dirModeIterateCustomDirs os a
  | Call_dirModeIterateFiles => dirModeIterateFiles os engine a
  | Call_dirModeIterateCustomFiles => dirModeIterateCustomFiles os engine a
  | Call_fileModeIterateFilesRand => fileModeIterateFilesRand w
  | Call_fileModeIterateFilesSeq => fileModeIterateFilesSeq os engine fuel a
  | Call_fileModeDeleteFiles => fileModeDeleteFiles os a
  | Call_anyModeSync => anyModeSync a
  | Call_anyModeDropCaches => anyModeDropCaches a
  | Call_throw msg => eff_throw (WorkerException msg)
  | _ => eff_stuck
  end.

Definition clear_error (rw : rwst) : rwst :=
  mkRWState (rw_gen rw) (rw_env rw) (rw_world rw) (rw_buf rw) (rw_blockVar rw) (numIOPSSubmitted rw) (iopsLatHisto rw)
    (iopsLatHistoReadMix rw) (atomicLiveOps rw) (atomicLiveOpsReadMix rw) (rw_slot rw) (rw_guardsHeld rw) (rw_journals rw)
    (rw_locks rw) None.

Definition set_rw_journals (js : list Journal) (rw : rwst) : rwst :=
  set_journal rw (rw_slot rw) (rw_guardsHeld rw) js (rw_locks rw).

(** [mmapVec.resize(1, MAP_FAILED)] keeps an entry that is there.  Random access selects among the
    journals of all targets, sequential access sets the one of its file, directories have none. *)
Definition initPhaseFileHandleVecs (w : WorkArgs) (s : state) : state :=
  let s := upd_it_rw clear_error s in
  if bool_decide (wa_pathType w = BenchPathType_DIR)
     || (negb (ga_useRandomOffsets (wa_gen w)) && negb (ga_useStridedAccess (wa_gen w)))
  then set_fd (-1) (upd_it_rw (set_rw_journals []) s)
  else upd_it_rw (set_rw_journals (if fa_journalEnabled (wa_iter w) then it_journals s else [])) s.

(** One pass of the loop in [run()]. *)
Definition worker_pass (fuel : nat) (w : WorkArgs) : act unit :=
  let phase := fa_globalBenchPhase (wa_iter w) in
  let a := set_benchPhase (initThreadPhaseVars (wa_iter w)) (wa_iter w) in
  eff_modify (initPhaseFileHandleVecs w);;
  choose_gen (initPhaseRWOffsetGen (wa_gen w));;
  run_routine fuel w a (phase_routine w phase);;
  iter_checkInterruption os.

(** [passes] bounds the passes of the infinite mode. *)
Fixpoint worker_phase (passes fuel : nat) (w : WorkArgs) : act unit :=
  worker_pass fuel w;;
  got ← eff_get it_gotPhaseWork;
  let phase := fa_globalBenchPhase (wa_iter w) in
  let repeats := wa_doInfiniteIOLoop w && negb (bool_decide (phase = BenchPhase_SYNC))
                 && negb (bool_decide (phase = BenchPhase_DROPCACHES)) in
  if repeats && got then match passes with O => eff_stuck | S passes => worker_phase passes fuel w end else mret tt.
End phase_work.
