(* ===== verification/PosixFs.v ===== *)
(** What the directory phases rely on of a POSIX file system: a tree of directories and files below
    the benchmark paths, named by the descriptor of the benchmark path and the path relative to it,
    and calls that succeed when the tree allows them to.  [mem_os] is such a system. *)

From S2P Require Import Prelude Effects CppStrings FileTk.
From Stdlib Require String.
From stdpp Require Import gmap.

#[local] Open Scope list_scope.
#[local] Open Scope Z_scope.

(** ** Definitions *)

Inductive FsKind : Type := FS_dir | FS_file.

#[global] Instance FsKind_eq_dec : EqDecision FsKind.
Proof. solve_decision. Defined.

Abbreviation fs_key := (Z * string)%type.
Abbreviation fs_map := (@gmap fs_key (@prod_eq_dec Z Z.eq_dec string String.eq_dec)
  (@prod_countable Z Z.eq_dec Z_countable string String.eq_dec String.countable) FsKind).

(** The directory that holds an entry exists; the benchmark path itself does. *)
Definition parent_dir (t : fs_map) (k : fs_key) : Prop :=
  parent_path k.2 = "" \/ t !! (k.1, parent_path k.2) = Some FS_dir.

(** Nothing is in the directory. *)
Definition dir_empty (t : fs_map) (k : fs_key) : Prop := forall q, parent_path q = k.2 -> q <> "" -> t !! (k.1, q) = None.

(** Entries of a list of keys, added or removed. *)
Definition fs_mark (v : FsKind) (ks : list fs_key) (t : fs_map) : fs_map := foldl (fun t k => <[k := v]> t) t ks.
Definition fs_unmark (ks : list fs_key) (t : fs_map) : fs_map := foldl (fun t k => delete k t) t ks.

(** The calls of a file system with enough space, permissions and no failing medium, and a worker
    that nobody interrupts. *)
Class FsLaws {W : Type} (os : Os W) `{!OsLaws os} : Type := {
  fs_tree : W -> fs_map;
  fs_uninterrupted w : os_interrupted os w = false;
  fs_mkdirat_new d p w : fs_tree w !! (d, p) = None -> parent_dir (fs_tree w) (d, p) ->
    (os_mkdirat os d p w).1 = None /\ fs_tree (os_mkdirat os d p w).2 = <[(d, p) := FS_dir]> (fs_tree w);
  fs_mkdirat_exists d p w k : fs_tree w !! (d, p) = Some k ->
    (os_mkdirat os d p w).1 = Some EEXIST /\ fs_tree (os_mkdirat os d p w).2 = fs_tree w;
  fs_rmdir d p w : fs_tree w !! (d, p) = Some FS_dir -> dir_empty (fs_tree w) (d, p) ->
    (os_unlinkat os d p true w).1 = None /\ fs_tree (os_unlinkat os d p true w).2 = delete (d, p) (fs_tree w);
  fs_unlink_file d p w : fs_tree w !! (d, p) = Some FS_file ->
    (os_unlinkat os d p false w).1 = None /\ fs_tree (os_unlinkat os d p false w).2 = delete (d, p) (fs_tree w);
  fs_unlink_missing d p b w : fs_tree w !! (d, p) = None ->
    (os_unlinkat os d p b w).1 = Some ENOENT /\ fs_tree (os_unlinkat os d p b w).2 = fs_tree w;
  fs_rmdir_nonempty d p q k w : fs_tree w !! (d, p) = Some FS_dir -> parent_path q = p -> q <> "" -> fs_tree w !! (d, q) = Some k ->
    (os_unlinkat os d p true w).1 = Some ENOTEMPTY /\ fs_tree (os_unlinkat os d p true w).2 = fs_tree w;
  fs_open_create d p fl w : o_creat fl = true -> parent_dir (fs_tree w) (d, p) -> fs_tree w !! (d, p) <> Some FS_dir ->
    exists fd w', os_openat os d p fl w = (inr fd, w') /\ fs_tree w' = <[(d, p) := FS_file]> (fs_tree w);
  fs_open_existing d p fl w : fs_tree w !! (d, p) = Some FS_file ->
    exists fd w', os_openat os d p fl w = (inr fd, w') /\ fs_tree w' = fs_tree w;
  fs_fstatat d p w k : fs_tree w !! (d, p) = Some k ->
    (os_fstatat os d p w).1 = None /\ fs_tree (os_fstatat os d p w).2 = fs_tree w;
  fs_close fd w : fd ∈ os_fds w -> (os_close os fd w).1 = None /\ fs_tree (os_close os fd w).2 = fs_tree w;
  fs_fstat fd w : fd ∈ os_fds w -> (os_fstat os fd w).1 = None /\ fs_tree (os_fstat os fd w).2 = fs_tree w;
  fs_ftruncate fd n w : fd ∈ os_fds w -> (os_ftruncate os fd n w).1 = None /\ fs_tree (os_ftruncate os fd n w).2 = fs_tree w;
  fs_fallocate fd o n w : fd ∈ os_fds w -> 0 < n ->
    (os_fallocate os fd o n w).1 = None /\ fs_tree (os_fallocate os fd o n w).2 = fs_tree w;
  fs_fadvise fd a w : fd ∈ os_fds w -> (os_fadvise os fd a w).1 = None /\ fs_tree (os_fadvise os fd a w).2 = fs_tree w;
  fs_cuFileReg fd w : fd ∈ os_fds w ->
    (os_cuFileReg os fd w).1 = Ok tt /\ fs_tree (os_cuFileReg os fd w).2 = fs_tree w;
  fs_cuFileDereg w : fs_tree (os_cuFileDereg os w) = fs_tree w;
  fs_now w : fs_tree (os_now os w).2 = fs_tree w;
}.

(** ** Lemmas on paths *)

Lemma list_of_string_app s t :
  String.list_ascii_of_string (s +:+ t) = String.list_ascii_of_string s ++ String.list_ascii_of_string t.
Proof. induction s; cbn; congruence. Qed.

Lemma drop_while_free c s l : str_free c s ->
  drop_while (fun x => negb (Ascii.eqb x c)) (rev (String.list_ascii_of_string s) ++ l) = drop_while (fun x => negb (Ascii.eqb x c)) l.
Proof.
  unfold str_free. revert l. induction s as [|x s IH]; intros l Hf; [done|]. cbn in *. apply orb_false_iff in Hf as [Hx Hf].
  rewrite <- app_assoc, IH by done. cbn. rewrite Ascii.eqb_sym in Hx. by rewrite Hx.
Qed.

(** A path that ends in a name, not in a slash. *)
Definition ends_in_name (s : string) : Prop := exists p c, s = p +:+ String c "" /\ is_slash c = false.

Lemma string_of_list_app l1 l2 :
  String.string_of_list_ascii (l1 ++ l2) = String.string_of_list_ascii l1 +:+ String.string_of_list_ascii l2.
Proof. induction l1; cbn; congruence. Qed.

Lemma parent_path_join p q : ends_in_name p -> str_free "/" q -> parent_path (p +:+ "/" +:+ q) = p.
Proof.
  intros (p0 & c & -> & Hc) Hq. unfold parent_path.
  assert (rev (String.list_ascii_of_string ((p0 +:+ String c "") +:+ "/" +:+ q))
    = rev (String.list_ascii_of_string q) ++ "/"%char :: c :: rev (String.list_ascii_of_string p0)) as ->.
  { rewrite !list_of_string_app, !rev_app_distr. cbn. by rewrite <- app_assoc. }
  unfold is_slash in *. rewrite drop_while_free by done. cbn. rewrite Hc. cbn.
  rewrite rev_involutive, string_of_list_app, String.string_of_list_ascii_of_string. done.
Qed.

Lemma parent_path_name q : str_free "/" q -> parent_path q = "".
Proof.
  intros Hq. unfold parent_path, is_slash. rewrite <- (app_nil_r (rev _)), drop_while_free by done. done.
Qed.

(** ** Lemmas on trees *)

Lemma lookup_fs_mark v ks t k : fs_mark v ks t !! k = if decide (k ∈ ks) then Some v else t !! k.
Proof.
  unfold fs_mark. revert t. induction ks as [|k0 ks IH]; intros t; cbn [foldl]; [by rewrite decide_False by apply not_elem_of_nil|].
  rewrite IH. destruct (decide (k ∈ ks)) as [Hin|Hin]; [by rewrite decide_True by by right|].
  destruct (decide (k = k0)) as [->|Hne]; [by rewrite lookup_insert_eq, decide_True by by left|].
  by rewrite lookup_insert_ne, decide_False by (rewrite ?elem_of_cons; by intuition).
Qed.

Lemma lookup_fs_unmark ks t k : fs_unmark ks t !! k = if decide (k ∈ ks) then None else t !! k.
Proof.
  unfold fs_unmark. revert t. induction ks as [|k0 ks IH]; intros t; cbn [foldl]; [by rewrite decide_False by apply not_elem_of_nil|].
  rewrite IH. destruct (decide (k ∈ ks)) as [Hin|Hin]; [by rewrite decide_True by by right|].
  destruct (decide (k = k0)) as [->|Hne]; [by rewrite lookup_delete_eq, decide_True by by left|].
  by rewrite lookup_delete_ne, decide_False by (rewrite ?elem_of_cons; by intuition).
Qed.

Lemma fs_mark_app v ks1 ks2 t : fs_mark v (ks1 ++ ks2) t = fs_mark v ks2 (fs_mark v ks1 t).
Proof. unfold fs_mark. by rewrite foldl_app. Qed.

Lemma fs_unmark_app ks1 ks2 t : fs_unmark (ks1 ++ ks2) t = fs_unmark ks2 (fs_unmark ks1 t).
Proof. unfold fs_unmark. by rewrite foldl_app. Qed.

(** ** A system in memory *)

Record mem_world : Type := mkMem { mw_tree : fs_map; mw_fds : list Z; mw_maps : list Z; mw_clock : Z }.

Definition mem_set_tree (t : fs_map) (w : mem_world) : mem_world := mkMem t (mw_fds w) (mw_maps w) (mw_clock w).
Definition mem_set_fds (l : list Z) (w : mem_world) : mem_world := mkMem (mw_tree w) l (mw_maps w) (mw_clock w).
Definition mem_set_maps (l : list Z) (w : mem_world) : mem_world := mkMem (mw_tree w) (mw_fds w) l (mw_clock w).

Definition child_of (k : fs_key) (k' : fs_key) : Prop := k'.1 = k.1 /\ parent_path k'.2 = k.2 /\ k'.2 <> "".

Definition fresh_id (l : list Z) : Z := 1 + foldr Z.max 2 l.

Definition mem_open (w : mem_world) : (errno + Z) * mem_world :=
  (inr (fresh_id (mw_fds w)), mem_set_fds (fresh_id (mw_fds w) :: mw_fds w) w).

Fixpoint remove_one (x : Z) (l : list Z) : option (list Z) :=
  match l with [] => None | y :: l => if x =? y then Some l else cons y <$> remove_one x l end.

(** A call on an open descriptor. *)
Definition mem_fd_call (fd : Z) (w : mem_world) : option errno * mem_world :=
  (if bool_decide (fd ∈ mw_fds w) then None else Some (E_other 9), w).

Definition mem_os : Os mem_world := {|
  os_mkdirat d p w :=
    match mw_tree w !! (d, p) with
    | Some _ => (Some EEXIST, w)
    | None =>
        if bool_decide (parent_path p = "" \/ mw_tree w !! (d, parent_path p) = Some FS_dir)
        then (None, mem_set_tree (<[(d, p) := FS_dir]> (mw_tree w)) w) else (Some ENOENT, w)
    end;
  os_unlinkat d p isDir w :=
    match mw_tree w !! (d, p), isDir with
    | None, _ => (Some ENOENT, w)
    | Some FS_dir, true =>
        if decide (map_Forall (fun k _ => ~ child_of (d, p) k) (mw_tree w))
        then (None, mem_set_tree (delete (d, p) (mw_tree w)) w) else (Some ENOTEMPTY, w)
    | Some FS_file, false => (None, mem_set_tree (delete (d, p) (mw_tree w)) w)
    | Some _, _ => (Some (E_other 20), w)
    end;
  os_unlink p w := (Some ENOENT, w);
  os_openat d p fl w :=
    match mw_tree w !! (d, p) with
    | Some FS_file => mem_open w
    | Some FS_dir => (inl (E_other 21), w)
    | None =>
        if o_creat fl && bool_decide (parent_path p = "" \/ mw_tree w !! (d, parent_path p) = Some FS_dir)
        then mem_open (mem_set_tree (<[(d, p) := FS_file]> (mw_tree w)) w) else (inl ENOENT, w)
    end;
  os_close fd w :=
    match remove_one fd (mw_fds w) with Some l => (None, mem_set_fds l w) | None => (Some (E_other 9), w) end;
  os_stat p w := (inl ENOENT, w);
  os_fstat := mem_fd_call;
  os_fstatat d p w := (match mw_tree w !! (d, p) with Some _ => None | None => Some ENOENT end, w);
  os_ftruncate fd n := mem_fd_call fd;
  os_fallocate fd o n w := if 0 <? n then mem_fd_call fd w else (Some EINVAL, w);
  os_fadvise fd a := mem_fd_call fd;
  os_mmap n b fd w :=
    if 0 <? n then (inr (fresh_id (mw_maps w)), mem_set_maps (fresh_id (mw_maps w) :: mw_maps w) w) else (inl EINVAL, w);
  os_madvise a n d w := (None, w);
  os_munmap m n w :=
    match m ≫= fun addr => remove_one addr (mw_maps w) with Some l => (None, mem_set_maps l w) | None => (Some EINVAL, w) end;
  os_fcntl_lock fd t o n := mem_fd_call fd;
  os_syncfs fd := mem_fd_call fd;
  os_open p := mem_open;
  os_write fd b := mem_fd_call fd;
  os_cuFileReg fd w := (Ok tt, w);
  os_cuFileDereg w := w;
  os_now w := (mw_clock w, mkMem (mw_tree w) (mw_fds w) (mw_maps w) (mw_clock w + 5));
  os_interrupted w := false;
|}.

(** What is left after a removal. *)
Lemma remove_one_perm (x : Z) l k : l ≡ₚ x :: k -> exists l', remove_one x l = Some l' /\ l' ≡ₚ k.
Proof.
  intros H. assert (exists l', remove_one x l = Some l' /\ l ≡ₚ x :: l') as (l' & Hl & Hp).
  { assert (x ∈ l) as Hx by (rewrite H; by left). clear H k. induction l as [|y l IH]; [by apply not_elem_of_nil in Hx|].
    cbn. destruct (Z.eqb_spec x y) as [->|Hne]; [by exists l|].
    destruct IH as (l' & -> & Hp); [by apply elem_of_cons in Hx as [|]|].
    exists (y :: l'). split; [done|]. rewrite Hp. apply Permutation_swap. }
  exists l'. split; [done|]. apply (Permutation_cons_inv (a := x)). by rewrite <- Hp, H.
Qed.

#[local] Ltac mem_calls := intros; cbn; repeat case_match; cbn; done.

#[global] Program Instance mem_os_laws : OsLaws mem_os := { os_fds := mw_fds; os_maps := mw_maps }.
Solve All Obligations with try (unfold os_same, mem_fd_call; mem_calls).
Next Obligation. intros d p f w. cbn. unfold mem_open. repeat case_match; simplify_eq/=; done. Qed.
Next Obligation.
  intros fd w fds H. cbn. destruct (remove_one_perm _ _ _ H) as (l & -> & Hl). done.
Qed.
Next Obligation. intros n b fd w. cbn. by destruct (0 <? n). Qed.
Next Obligation.
  intros addr n w maps H. cbn. destruct (remove_one_perm _ _ _ H) as (l & -> & Hl). done.
Qed.

#[local] Ltac mem_fd := intros; cbn in *; unfold mem_fd_call; rewrite bool_decide_true by done; done.

#[global] Program Instance mem_fs_laws : FsLaws mem_os := { fs_tree := mw_tree }.
Solve All Obligations with try (first [done | mem_fd]).
Next Obligation. intros d p w H Hp. cbn. rewrite H. by rewrite bool_decide_true by exact Hp. Qed.
Next Obligation. intros d p w k H. cbn. by rewrite H. Qed.
Next Obligation.
  intros d p w H He. cbn. rewrite H. rewrite decide_True; [done|]. intros [d' q] v Hq (H1 & H2 & H3). cbn in *. subst d'.
  pose proof (He q H2 H3) as Hn. cbn in Hn. by rewrite Hn in Hq.
Qed.
Next Obligation. intros d p w H. cbn. by rewrite H. Qed.
Next Obligation. intros d p b w H. cbn. by rewrite H. Qed.
Next Obligation.
  intros d p q k w H H1 H2 Hq. cbn. rewrite H. rewrite decide_False; [done|]. intros Hall. by apply (Hall (d, q) k Hq).
Qed.
Next Obligation.
  intros d p fl w Hc Hp H. cbn. rewrite Hc. destruct (mw_tree w !! (d, p)) as [[]|] eqn:E; [done| |].
  - eexists _, _. split; [done|]. by rewrite insert_id.
  - rewrite bool_decide_true by exact Hp. by eexists _, _.
Qed.
Next Obligation. intros d p fl w H. cbn. rewrite H. by eexists _, _. Qed.
Next Obligation. intros d p w k H. cbn. by rewrite H. Qed.
Next Obligation.
  intros fd w H. cbn in *. apply elem_of_Permutation in H as [l H]. destruct (remove_one_perm _ _ _ H) as (l' & -> & _). done.
Qed.
Next Obligation. intros fd o n w H Hn. cbn. rewrite (proj2 (Z.ltb_lt 0 n)) by done. mem_fd. Qed.
