(* ===== verification/PhaseWorkSafety.v ===== *)
(** A worker's phase releases what it takes (PhaseWork.v), and a concrete system on which it runs. *)

From S2P Require Import Prelude Common Effects CppStrings RandAlgo BlockSizeMix OffsetGen AnyGen PathStore.
From S2P Require Import LatencyHistogram LiveOps Journal RWLoop FileTk FileIter FileIterSafety PhaseWork.
From S2P Require Import PosixFs.

#[local] Open Scope list_scope.
#[local] Open Scope Z_scope.

Section worker.
Context {R D W : Type} {HR : RandAlgo R} {HD : RandAlgo D} (os : Os W) {HO : OsLaws os}.
#[local] Abbreviation state := (IterState R D AnyGen W).
#[local] Abbreviation rwst := (RWState (R := R) (D := D) (G := AnyGen) (W := W)).
Context (engine : list Z -> eff rwst Z) (Hengine : engine_keeps os engine).
#[local] Abbreviation framed := (within (bal_file (R := R) (D := D) (G := AnyGen) os)).
#[local] Abbreviation balanced := (within (bal_unmapped (R := R) (D := D) (G := AnyGen) os)).

Lemma framed_choose choice : framed (choose_gen choice).
Proof. intros s r s' Hm. unfold choose_gen in Hm. repeat case_match; by injection Hm as <- <-. Qed.

Lemma framed_with_journals {A} a (m : eff state A) : framed m -> framed (with_journals a m).
Proof. intros Hm. apply within_finally; [done|]. intros s. by destruct (fa_journalEnabled a). Qed.

Lemma framed_rand w : framed (fileModeIterateFilesRand engine w).
Proof.
  unfold fileModeIterateFilesRand, rw_checked.
  within_steps ltac:(auto using framed_choose with balanced);
    apply framed_with_journals; within_steps ltac:(auto with balanced).
Qed.

Lemma framed_sync a : framed (anyModeSync os a).
Proof. unfold anyModeSync. within_steps ltac:(auto with balanced). Qed.
Lemma framed_dropCaches a : framed (anyModeDropCaches os a).
Proof.
  unfold anyModeDropCaches. destruct (negb _); [apply framed_no_work|]. intros s.
  apply wpp_bind, wpp_on_os, wpp_sys. cbn [post]. pose proof (os_open_law "/proc/sys/vm/drop_caches" (it_world s)) as Ho.
  destruct (os_open os _ (it_world s)) as [[e|fd] w1]; cbn [fst snd].
  { apply wpp_throw. by repeat split; apply os_same_res. }
  destruct Ho as [Hf Hm]. apply wpp_bind, wpp_on_os, wpp_sys. cbn [post].
  destruct (os_write_keeps fd "3" w1) as [Hf1 Hm1]. apply wpp_bind, wpp_on_os, wpp_sys. cbn [post].
  set (w2 := (os_write os fd "3" w1).2) in *. destruct (os_close_law fd w2 (os_fds (it_world s))) as [Hf2 Hm2]; [by rewrite Hf1|].
  match goal with |- wpp (match ?r with _ => _ end) ?s' _ => assert (bal_file os s s') as Hb; [|by destruct r; [apply wpp_throw|apply wpp_ret]] end.
  split; [split; [split|done]|done]; [exact Hf2|]. by apply reflexive_eq, (eq_trans Hm2), (eq_trans Hm1).
Qed.

Lemma balanced_run_routine fuel w a r : balanced (run_routine os engine fuel w a r).
Proof.
  destruct r; cbn [run_routine]; try apply within_stuck; try apply within_throw; auto with balanced;
    apply framed_balanced; auto using framed_rand, framed_sync, framed_dropCaches.
Qed.

Lemma balanced_worker_pass fuel w : balanced (worker_pass os engine fuel w).
Proof.
  apply within_bind; [apply within_modify; intros s _; unfold initPhaseFileHandleVecs; by destruct (_ || _)|]. intros _.
  apply within_bind; [apply framed_balanced, framed_choose|]. intros _.
  apply within_bind; [apply balanced_run_routine|]. intros _. unfold iter_checkInterruption. within_steps idtac.
Qed.

Lemma balanced_worker_phase passes fuel w : balanced (worker_phase os engine passes fuel w).
Proof.
  induction passes as [|passes IH]; cbn [worker_phase]; (apply within_bind; [apply balanced_worker_pass|]; intros _);
    (apply within_bind; [apply within_get|]; intros got); (apply within_if; [|apply within_ret]); [apply within_stuck|done].
Qed.
End worker.

(** C13: A worker releases what it takes: in every phase of the POSIX and SPDK modes, for every set of
    arguments and whatever the system calls and the I/O engine answer, after a normal end as well
    as after an exception at any point, exactly the file descriptors and memory mappings of the
    start of the phase exist, and no file is left mapped in the worker's handles. *)
Theorem phase_releases_handles {R D W : Type} `{!RandAlgo R, !RandAlgo D} (os : Os W) `{!OsLaws os}
    (engine : list Z -> eff (RWState (R := R) (D := D) (G := AnyGen) (W := W)) Z) passes fuel w
    (s s' : IterState R D AnyGen W) r :
  engine_keeps os engine -> it_mmap s = None ->
  worker_phase os engine passes fuel w s = Some (r, s') ->
  os_fds (it_world s') ≡ₚ os_fds (it_world s) /\ os_maps (it_world s') ≡ₚ os_maps (it_world s) /\ it_mmap s' = None.
Proof.
  intros He Hs Hm. destruct (balanced_worker_phase os engine He passes fuel w s r s' Hm Hs) as [[H1 H2] H3]. by rewrite H3.
Qed.

(** Worker 1 of two with two directories of two files in two benchmark paths, files of [size] bytes. *)
Definition demo_iter_args (rank : Z) (phase : BenchPhase) (size : Z) (useMmap : bool) : IterArgs :=
  mkIterArgs rank 0 phase phase 2 2 size 0 4 2 [3; 4] [] false false 0 useMmap true false false true true 2 1 true false false
    PathStore_empty PathStore_empty PathStore_empty.

Definition demo_gen_args (rank : Z) (phase : BenchPhase) (size : Z) : GenArgs :=
  mkGenArgs BenchPathType_DIR BenchMode_POSIX phase phase 4 (mix_finish [(4, 1)]) false size size 2 rank false false false false "".

Definition demo_work (rank : Z) (phase : BenchPhase) (size : Z) (useMmap : bool) : WorkArgs :=
  mkWorkArgs (demo_iter_args rank phase size useMmap) (demo_gen_args rank phase size) BenchPathType_DIR BenchMode_POSIX "" false.

Definition demo_worker (size : Z) (w : mem_world) : IterState xoshiro_state xoshiro_state AnyGen mem_world :=
  mkIter (mkRWState (GenSequential (OffsetGenSequential_new size 0 (mix_finish [(4, 1)]))) demo_env w [] (mkXoshiro 1 2 3 4) 0
    LatencyHistogram_new LatencyHistogram_new LiveOps_zero LiveOps_zero JournalBlockIO_new 0 [] ∅ None)
    (-1) None LatencyHistogram_new LatencyHistogram_new true [].

(** The device breaks while the first file is open and mapped. *)
Lemma phase_releases_handles_witness :
  exists s', worker_phase mem_os (fun _ => eff_throw (WorkerException "")) 0 0
      (demo_work 1 BenchPhase_CREATEFILES 8 true)
      (demo_worker 8 (mkMem (fs_mark FS_dir [(3, "r1"); (4, "r1"); (3, "r1/d0"); (4, "r1/d0")] ∅) [3; 4] [] 0))
    = Some (Throw (WorkerException ""), s')
    /\ mw_fds (it_world s') ≡ₚ [3; 4] /\ mw_maps (it_world s') ≡ₚ [] /\ it_mmap s' = None.
Proof.
  assert (exists s', worker_phase mem_os (fun _ => eff_throw (WorkerException "")) 0 0
      (demo_work 1 BenchPhase_CREATEFILES 8 true)
      (demo_worker 8 (mkMem (fs_mark FS_dir [(3, "r1"); (4, "r1"); (3, "r1/d0"); (4, "r1/d0")] ∅) [3; 4] [] 0))
    = Some (Throw (WorkerException ""), s')) as [s' Hrun] by (eexists; vm_compute; reflexivity).
  exists s'. split; [exact Hrun|].
  refine (phase_releases_handles mem_os _ 0 0 _ _ s' _ _ _ Hrun); [|reflexivity].
  intros fds rw. by apply wpp_throw.
Defined.
