(* ===== verification/DirNames.v ===== *)
(** The names of the directories and files of directory mode (FileIter.v): which directory holds
    which entry, and that different numbers give different names. *)

From S2P Require Import Prelude Common CppStrings PathStore FileTk FileIter PosixFs.
From Stdlib Require String.

#[local] Open Scope list_scope.
#[local] Open Scope Z_scope.

(** Does not begin with a digit. *)
Definition no_digit (s : string) : Prop := match s with String c _ => isdigit c = false | "" => True end.

Lemma str_app_inj (s t t' : string) : s +:+ t = s +:+ t' -> t = t'.
Proof. induction s as [|c s IH]; cbn; [done|]. intros [= H]. auto. Qed.

(** A printed number ends where the digits end. *)
Lemma to_string_inj z z' s s' : 0 <= z < TWO64 -> 0 <= z' < TWO64 -> no_digit s -> no_digit s' ->
  to_string z +:+ s = to_string z' +:+ s' -> z = z' /\ s = s'.
Proof.
  intros Hz Hz' Hs Hs' Heq. assert (z = z') as <-.
  { pose proof (scan_to_string z s Hz Hs) as H1. rewrite Heq in H1. rewrite (scan_to_string z' s' Hz' Hs') in H1. congruence. }
  split; [done|]. by eapply str_app_inj.
Qed.

Lemma str_free_app c s t : str_free c s -> str_free c t -> str_free c (s +:+ t).
Proof. unfold str_free. intros H1 H2. by rewrite str_contains_app, H1, H2. Qed.

Lemma name_ends s : str_free "/" s -> s <> "" -> ends_in_name s.
Proof.
  intros Hf Hs. assert (exists p c, s = p +:+ String c "") as (p & c & ->).
  { clear Hf. induction s as [|c s IH]; [done|]. destruct s as [|c' s]; [by exists "", c|].
    destruct IH as (p & c0 & ->); [done|]. by exists (String c p), c0. }
  exists p, c. split; [done|]. unfold str_free in Hf. rewrite str_contains_app in Hf. apply orb_false_iff in Hf as [_ Hc].
  cbn in Hc. rewrite orb_false_r in Hc. unfold is_slash. by rewrite Ascii.eqb_sym.
Qed.

Lemma ends_in_name_app p q : ends_in_name q -> ends_in_name (p +:+ q).
Proof. intros (r & c & -> & Hc). exists (p +:+ r), c. by rewrite str_app_assoc. Qed.

Lemma rank_dir_free r : 0 <= r -> str_free "/" (rank_dir r).
Proof. intros Hr. unfold rank_dir. apply (str_free_app _ "r"); [done|]. by apply to_string_free. Qed.

Lemma file_name_free r f : 0 <= r -> 0 <= f -> str_free "/" (file_name r f).
Proof.
  intros Hr Hf. unfold file_name. apply (str_free_app _ "r"); [done|]. apply str_free_app; [by apply to_string_free|].
  apply (str_free_app _ "-f"); [done|]. by apply to_string_free.
Qed.

Lemma dir_part_free d : 0 <= d -> str_free "/" ("d" +:+ to_string d).
Proof. intros Hd. apply (str_free_app _ "d"); [done|]. by apply to_string_free. Qed.

Lemma sub_dir_join r d : sub_dir r d = rank_dir r +:+ "/" +:+ ("d" +:+ to_string d).
Proof. done. Qed.

Lemma rank_dir_ends r : 0 <= r -> ends_in_name (rank_dir r).
Proof. intros Hr. apply name_ends; [by apply rank_dir_free|done]. Qed.

Lemma sub_dir_ends r d : 0 <= d -> ends_in_name (sub_dir r d).
Proof.
  intros Hd. rewrite sub_dir_join. apply ends_in_name_app, (ends_in_name_app "/"), name_ends; [by apply dir_part_free|done].
Qed.

(** *** Parents *)

Lemma parent_rank_dir r : 0 <= r -> parent_path (rank_dir r) = "".
Proof. intros Hr. by apply parent_path_name, rank_dir_free. Qed.

Lemma parent_sub_dir r d : 0 <= r -> 0 <= d -> parent_path (sub_dir r d) = rank_dir r.
Proof. intros Hr Hd. rewrite sub_dir_join. apply parent_path_join; [by apply rank_dir_ends|by apply dir_part_free]. Qed.

Lemma parent_sub_file r d w f : 0 <= d -> 0 <= w -> 0 <= f -> parent_path (sub_dir r d +:+ "/" +:+ file_name w f) = sub_dir r d.
Proof. intros Hd Hw Hf. apply parent_path_join; [by apply sub_dir_ends|by apply file_name_free]. Qed.

Lemma parent_file_name w f : 0 <= w -> 0 <= f -> parent_path (file_name w f) = "".
Proof. intros Hw Hf. by apply parent_path_name, file_name_free. Qed.

(** *** Different numbers, different names *)

Lemma to_string_inj' z z' : 0 <= z < TWO64 -> 0 <= z' < TWO64 -> to_string z = to_string z' -> z = z'.
Proof.
  intros Hz Hz' H. apply (to_string_inj z z' "" ""); [done..|]. by rewrite !str_app_nil_r.
Qed.

Lemma rank_dir_inj r r' : 0 <= r < TWO64 -> 0 <= r' < TWO64 -> rank_dir r = rank_dir r' -> r = r'.
Proof. unfold rank_dir. intros Hr Hr' H. apply (str_app_inj "r") in H. by apply to_string_inj'. Qed.

Lemma sub_dir_inj r d r' d' : 0 <= r < TWO64 -> 0 <= r' < TWO64 -> 0 <= d < TWO64 -> 0 <= d' < TWO64 ->
  sub_dir r d = sub_dir r' d' -> r = r' /\ d = d'.
Proof.
  unfold sub_dir, rank_dir. intros Hr Hr' Hd Hd' H. rewrite !str_app_assoc in H. apply (str_app_inj "r") in H.
  apply to_string_inj in H as [-> H]; [|done..]. apply (str_app_inj "/d") in H. by apply to_string_inj' in H as ->.
Qed.

Lemma file_name_inj w f w' f' : 0 <= w < TWO64 -> 0 <= w' < TWO64 -> 0 <= f < TWO64 -> 0 <= f' < TWO64 ->
  file_name w f = file_name w' f' -> w = w' /\ f = f'.
Proof.
  unfold file_name. intros Hw Hw' Hf Hf' H. apply (str_app_inj "r") in H.
  apply to_string_inj in H as [-> H]; [|done..]. apply (str_app_inj "-f") in H. by apply to_string_inj' in H as ->.
Qed.

(** The kinds of entries never share a name. *)
Lemma rank_dir_not_file r w f : 0 <= r < TWO64 -> 0 <= w < TWO64 -> rank_dir r <> file_name w f.
Proof.
  unfold rank_dir, file_name. intros Hr Hw H. apply (str_app_inj "r") in H. rewrite <- (str_app_nil_r (to_string r)) in H.
  by apply to_string_inj in H as [-> H].
Qed.

(** Entries of subdirectories of the worker's directories. *)
Lemma sub_file_inj r d w f r' d' w' f' : 0 <= d < TWO64 -> 0 <= d' < TWO64 -> 0 <= r < TWO64 -> 0 <= r' < TWO64 ->
  0 <= w < TWO64 -> 0 <= w' < TWO64 -> 0 <= f < TWO64 -> 0 <= f' < TWO64 ->
  sub_dir r d +:+ "/" +:+ file_name w f = sub_dir r' d' +:+ "/" +:+ file_name w' f' -> (r = r' /\ d = d') /\ w = w' /\ f = f'.
Proof.
  intros Hd Hd' Hr Hr' Hw Hw' Hf Hf' H. assert (sub_dir r d = sub_dir r' d') as Hs.
  { rewrite <- (parent_sub_file r d w f), <- (parent_sub_file r' d' w' f') by lia. by f_equal. }
  rewrite Hs in H. apply str_app_inj, (str_app_inj "/") in H. split; [by apply sub_dir_inj|by apply file_name_inj].
Qed.
