(* ===== verification/DirLifecycle.v ===== *)
(** Directory mode on a POSIX file system (PosixFs.v): the phases that create the directories and the
    files, stat the files and delete the files and the directories again.  Each phase of a worker
    changes the tree by exactly the worker's own entries and counts each of them once. *)

From S2P Require Import Prelude Common Effects CppStrings RandAlgo BlockSizeMix OffsetGen AnyGen PathStore.
From S2P Require Import LatencyHistogram LiveOps Journal RWLoop FileTk FileIter FileIterSafety PhaseWork.
From S2P Require Import PosixFs DirNames.
From Stdlib Require String.
From stdpp Require Import gmap.

#[local] Open Scope list_scope.
#[local] Open Scope Z_scope.

(** ** The entries of a worker *)

(** The descriptor of the benchmark path of a directory. *)
Definition dir_fd (a : IterArgs) (d : Z) : Z := default 0 (fa_pathFDs a !! Z.to_nat (path_index a d)).

Definition rank_keys (a : IterArgs) : list fs_key := (fun fd => (fd, rank_dir (workerDirRank a))) <$> fa_pathFDs a.

Definition dir_key (a : IterArgs) (d : Z) : fs_key := (dir_fd a d, sub_dir (workerDirRank a) d).
Definition dir_keys (a : IterArgs) : list fs_key := dir_key a <$> seqZ 0 (fa_numDirs a).

Definition num_file_dirs (a : IterArgs) : Z := if haveSubdirs a then fa_numDirs a else 1.
Definition file_key (a : IterArgs) (d f : Z) : fs_key := (dir_fd a d, file_path a d f).
Definition file_keys (a : IterArgs) : list fs_key :=
  d ← seqZ 0 (num_file_dirs a); file_key a d <$> seqZ 0 (fa_numFiles a).

(** Arguments in range, and names that fit into the path buffer. *)
Record iter_ok (a : IterArgs) : Prop := {
  io_rank : 0 <= fa_workerRank a < 2 ^ 32;
  io_dirs : 0 <= fa_numDirs a < 2 ^ 32;
  io_files : 0 <= fa_numFiles a < 2 ^ 32;
  io_paths : 0 < Z.of_nat (length (fa_pathFDs a)) < 2 ^ 32;
  io_nodup : NoDup (fa_pathFDs a);
  io_size : 0 <= fa_fileSize a < 2 ^ 62;
  io_offset : 0 <= fa_fileOffset a < 2 ^ 62;
  io_prealloc : fa_doPreallocFile a = true -> 0 < fa_fileSize a;
  io_mmap : fa_useMmap a = false;
  io_rwmix : fa_numRWMixReadThreads a = 0;
  io_fit_rank : (String.length (rank_dir (workerDirRank a)) < PATH_BUF_LEN)%nat;
  io_fit_dir d : 0 <= d < fa_numDirs a -> (String.length (sub_dir (workerDirRank a) d) < PATH_BUF_LEN)%nat;
  io_fit_file d f : 0 <= d < num_file_dirs a -> 0 <= f < fa_numFiles a -> (String.length (file_path a d f) < PATH_BUF_LEN)%nat;
}.

Lemma dir_rank_range a : iter_ok a -> 0 <= workerDirRank a < TWO64.
Proof. intros []. unfold workerDirRank. destruct (fa_doDirSharing a); lia. Qed.

Lemma path_index_range a d : iter_ok a -> 0 <= d < 2 ^ 32 ->
  path_index a d = (fa_workerRank a + d) `mod` Z.of_nat (length (fa_pathFDs a)) /\ 0 <= path_index a d < Z.of_nat (length (fa_pathFDs a)).
Proof.
  intros [] Hd. unfold path_index. pose proof (Z.mod_pos_bound (fa_workerRank a + d) (Z.of_nat (length (fa_pathFDs a)))).
  rewrite u64_small by lia. unfold u32. rewrite Z.mod_small by lia. lia.
Qed.

Lemma dir_fd_lookup a d : iter_ok a -> 0 <= d < 2 ^ 32 -> fa_pathFDs a !! Z.to_nat (path_index a d) = Some (dir_fd a d).
Proof.
  intros Hok Hd. pose proof (path_index_range a d Hok Hd) as [_ Hr]. unfold dir_fd.
  destruct (lookup_lt_is_Some_2 (fa_pathFDs a) (Z.to_nat (path_index a d))) as [fd ->]; [lia|]. done.
Qed.

Lemma dir_fd_elem a d : iter_ok a -> 0 <= d < 2 ^ 32 -> dir_fd a d ∈ fa_pathFDs a.
Proof. intros Hok Hd. eapply list_elem_of_lookup_2, dir_fd_lookup; done. Qed.

Lemma num_file_dirs_range a : iter_ok a -> 0 <= num_file_dirs a < 2 ^ 32.
Proof. intros []. unfold num_file_dirs. destruct (haveSubdirs a); lia. Qed.

Lemma elem_of_dir_keys a k : k ∈ dir_keys a <-> exists d, k = dir_key a d /\ 0 <= d < fa_numDirs a.
Proof.
  unfold dir_keys. rewrite list_elem_of_fmap. split; intros (d & -> & Hd); exists d; (split; [done|]);
    apply elem_of_seqZ in Hd || apply elem_of_seqZ; lia.
Qed.

Lemma elem_of_rank_keys a k : k ∈ rank_keys a <-> k.1 ∈ fa_pathFDs a /\ k.2 = rank_dir (workerDirRank a).
Proof.
  unfold rank_keys. rewrite list_elem_of_fmap. split; [by intros (fd & -> & Hfd)|]. intros [H1 H2]. exists k.1.
  by rewrite <- H2, <- surjective_pairing.
Qed.

Lemma elem_of_file_keys a k :
  k ∈ file_keys a <-> exists d f, k = file_key a d f /\ 0 <= d < num_file_dirs a /\ 0 <= f < fa_numFiles a.
Proof.
  unfold file_keys. rewrite list_elem_of_bind. split.
  - intros (d & Hk & Hd). apply list_elem_of_fmap in Hk as (f & -> & Hf). apply elem_of_seqZ in Hd, Hf.
    exists d, f. split; [done|]. lia.
  - intros (d & f & -> & Hd & Hf). exists d. rewrite list_elem_of_fmap, elem_of_seqZ. split; [|lia].
    exists f. rewrite elem_of_seqZ. split; [done|lia].
Qed.

Section keys.
Context (a : IterArgs) (Hok : iter_ok a).

#[local] Lemma dir_index_range d : 0 <= d < fa_numDirs a -> 0 <= d < 2 ^ 32.
Proof. destruct Hok. lia. Qed.

#[local] Lemma file_index_range d : 0 <= d < num_file_dirs a -> 0 <= d < 2 ^ 32.
Proof. pose proof (num_file_dirs_range a Hok). lia. Qed.

Lemma rank_keys_nodup : NoDup (rank_keys a).
Proof. apply NoDup_fmap_2; [intros x y [= ->]; done|apply Hok]. Qed.

Lemma dir_key_inj d d' : 0 <= d < fa_numDirs a -> 0 <= d' < fa_numDirs a -> dir_key a d = dir_key a d' -> d = d'.
Proof.
  intros Hd Hd' H%(f_equal snd). cbn [snd dir_key] in H. pose proof (dir_rank_range a Hok). pose proof (dir_index_range d Hd). pose proof (dir_index_range d' Hd').
  by apply sub_dir_inj in H as [_ ->]; [|lia..].
Qed.

Lemma file_key_inj d f d' f' : 0 <= d < num_file_dirs a -> 0 <= d' < num_file_dirs a ->
  0 <= f < fa_numFiles a -> 0 <= f' < fa_numFiles a -> file_key a d f = file_key a d' f' -> d = d' /\ f = f'.
Proof.
  intros Hd Hd' Hf Hf' H%(f_equal snd). cbn [snd file_key] in H. pose proof (dir_rank_range a Hok). pose proof (file_index_range d Hd).
  pose proof (file_index_range d' Hd'). destruct Hok. unfold file_path, num_file_dirs in *. destruct (haveSubdirs a).
  - apply sub_file_inj in H as [[_ ->] [_ ->]]; [done|lia..].
  - apply file_name_inj in H as [_ ->]; [|lia..]. split; [lia|done].
Qed.

(** Lists of keys without repetition. *)
Lemma NoDup_fmap_seqZ {A} (g : Z -> A) n :
  (forall x y, 0 <= x < n -> 0 <= y < n -> g x = g y -> x = y) -> NoDup (g <$> seqZ 0 n).
Proof.
  intros Hg. apply NoDup_fmap_2_strong; [|apply NoDup_seqZ]. intros x y Hx Hy. apply elem_of_seqZ in Hx, Hy. apply Hg; lia.
Qed.

Lemma dir_keys_nodup : NoDup (dir_keys a).
Proof. apply NoDup_fmap_seqZ, dir_key_inj. Qed.

Lemma file_keys_nodup : NoDup (file_keys a).
Proof.
  apply NoDup_bind; [| |apply NoDup_seqZ].
  - intros d d' k Hd Hd' Hk Hk'. apply list_elem_of_fmap in Hk as (f & -> & Hf), Hk' as (f' & Heq & Hf').
    apply elem_of_seqZ in Hd, Hd', Hf, Hf'. apply file_key_inj in Heq as [? _]; [done|lia..].
  - intros d Hd. apply elem_of_seqZ in Hd. apply NoDup_fmap_seqZ. intros f f' Hf Hf' Heq.
    apply file_key_inj in Heq as [_ ?]; [done|lia..].
Qed.

(** *** Where the entries are *)

Lemma rank_key_parent k : k ∈ rank_keys a -> parent_path k.2 = "".
Proof. intros [_ ->]%elem_of_rank_keys. apply parent_rank_dir. pose proof (dir_rank_range a Hok). lia. Qed.

Lemma dir_key_parent d : 0 <= d < fa_numDirs a -> parent_path (dir_key a d).2 = rank_dir (workerDirRank a)
  /\ ((dir_key a d).1, rank_dir (workerDirRank a)) ∈ rank_keys a.
Proof.
  intros Hd. pose proof (dir_rank_range a Hok). split; [apply parent_sub_dir; lia|].
  apply elem_of_rank_keys. split; [|done]. by apply dir_fd_elem, dir_index_range.
Qed.

Lemma file_key_parent d f : 0 <= d < num_file_dirs a -> 0 <= f ->
  if haveSubdirs a then ((file_key a d f).1, parent_path (file_key a d f).2) = dir_key a d /\ dir_key a d ∈ dir_keys a
  else parent_path (file_key a d f).2 = "".
Proof.
  intros Hd Hf. pose proof (io_rank a Hok). cbn. unfold file_path, num_file_dirs, dir_key in *. destruct (haveSubdirs a).
  - rewrite parent_sub_file by lia. split; [done|]. apply elem_of_dir_keys. by exists d.
  - apply parent_file_name; lia.
Qed.
End keys.

(** ** The phases of a worker *)

Section phases.
Context {R D W : Type} {HR : RandAlgo R} {HD : RandAlgo D} (os : Os W) {HO : OsLaws os} {HF : FsLaws os}.
#[local] Abbreviation state := (IterState R D AnyGen W).
#[local] Abbreviation rwst := (RWState (R := R) (D := D) (G := AnyGen) (W := W)).
#[local] Abbreviation act := (eff state).
Context (total : Z).

Definition it_tree (s : state) : fs_map := fs_tree (it_world s).
Definition entries (s : state) : Z := numEntriesDone (atomicLiveOps (it_rw s)).

(** A generator for files of [total] bytes, nothing mapped. *)
Definition gen_ready (rw : rwst) : Prop :=
  og_inv (R := R) (D := D) (rw_gen rw) /\ env_ok (rw_env rw) /\ getNumBytesTotal (R := R) (D := D) (rw_gen rw) = total.

Definition ready (s : state) : Prop := gen_ready (it_rw s) /\ it_mmap s = None /\ 0 <= entries s < TWO64.

(** [m] comes back from [s] without an exception, with tree [t] and [n] more entries. *)
Definition does {A} (m : act A) (s : state) (t : fs_map) (n : Z) (P : A -> state -> Prop) : Prop :=
  wpt m s (post (fun x s' => P x s' /\ it_tree s' = t /\ entries s' = u64 (entries s + n) /\ ready s') (fun _ _ => False)).

#[local] Abbreviation any := (fun _ _ => True).
#[local] Abbreviation gives v := (fun x _ => v = x).

Lemma does_bind {A B} (m : act A) (k : A -> act B) s t1 n1 t2 n2 P Q :
  does m s t1 n1 P -> (forall x s1, P x s1 -> it_tree s1 = t1 -> ready s1 -> does (k x) s1 t2 n2 Q) ->
  does (m ≫= k) s t2 (n1 + n2) Q.
Proof.
  intros Hm Hk. apply wpt_bind. eapply wpt_mono; [exact Hm|]. intros [x|e] s1 H; [|done]. cbn [post] in *.
  destruct H as (HP & Ht & Hn & Hr). eapply wpt_mono; [by apply Hk|]. intros [y|e] s2 H2; [|done]. cbn [post] in *.
  destruct H2 as (HQ & Ht2 & Hn2 & Hr2). split_and!; [done..| |done]. rewrite Hn2, Hn. autorewrite with machine. f_equal. lia.
Qed.

Lemma entries_0 s : ready s -> u64 (entries s + 0) = entries s.
Proof. intros (_ & _ & H). rewrite Z.add_0_r. by apply u64_small. Qed.

Lemma does_ret {A} (x : A) s (P : A -> state -> Prop) : P x s -> ready s -> does (mret x) s (it_tree s) 0 P.
Proof. intros HP Hr. apply wpt_ret. cbn. by rewrite entries_0. Qed.

Lemma does_sys {A} (f : W -> A * W) s t (P : A -> state -> Prop) :
  ready s -> P (f (it_world s)).1 (put_it_world (f (it_world s)).2 s) -> fs_tree (f (it_world s)).2 = t -> does (on_os (sys f)) s t 0 P.
Proof.
  intros Hr HP Ht. unfold does, wpt, on_os, eff_zoom, sys. destruct (f (it_world s)) as [x w]. eexists _, _. split; [done|].
  cbn in *. split_and!; [done|done| |done]. rewrite entries_0 by done. done.
Qed.

(** A step that counts nothing before another one. *)
Lemma does_bind0 {A B} (m : act A) (k : A -> act B) s t1 t2 n2 P Q :
  does m s t1 0 P -> (forall x s1, P x s1 -> it_tree s1 = t1 -> ready s1 -> does (k x) s1 t2 n2 Q) ->
  does (m ≫= k) s t2 n2 Q.
Proof. intros Hm Hk. replace n2 with (0 + n2) by lia. by eapply does_bind. Qed.

Lemma does_bind_last {A B} (m : act A) (k : A -> act B) s t1 t2 n P Q :
  does m s t1 n P -> (forall x s1, P x s1 -> it_tree s1 = t1 -> ready s1 -> does (k x) s1 t2 0 Q) ->
  does (m ≫= k) s t2 n Q.
Proof. intros Hm Hk. replace n with (n + 0) by lia. by eapply does_bind. Qed.

Lemma does_when b (m : act unit) s t n :
  (b = true -> does m s t n any) -> (b = false -> t = it_tree s /\ n = 0 /\ ready s) -> does (eff_when b m) s t n any.
Proof. destruct b; cbn; intros H1 H2; [by apply H1|]. destruct H2 as (-> & -> & Hr); [done|]. by apply does_ret. Qed.

Lemma does_pathfd a i fd s : fa_pathFDs a !! Z.to_nat i = Some fd -> ready s -> does (path_fd a i) s (it_tree s) 0 (gives fd).
Proof. intros Hi Hr. eapply wpt_some; [exact Hi|]. cbn. by rewrite entries_0. Qed.

Lemma does_check s : ready s -> does (iter_checkInterruption os) s (it_tree s) 0 any.
Proof.
  intros Hr. unfold iter_checkInterruption. apply wpt_bind, wpt_get. cbn [post]. rewrite fs_uninterrupted.
  by apply (does_ret tt s any).
Qed.

Lemma does_print p msg s : (String.length p < PATH_BUF_LEN)%nat -> ready s -> does (print_path p msg) s (it_tree s) 0 (gives p).
Proof.
  intros Hp Hr. unfold print_path. rewrite (proj2 (Nat.leb_gt _ _)) by done. by apply does_ret.
Qed.

(** [K] does not depend on the world. *)
Lemma does_timed_keep (K : state -> Prop) (m : act unit) s t :
  (forall w s, K s -> K (put_it_world w s)) -> K s -> ready s ->
  (forall s1, K s1 -> it_tree s1 = it_tree s -> ready s1 -> does m s1 t 0 any) ->
  does (timed_entry os false m) s t 1 any.
Proof.
  intros HK Hs Hr Hm. unfold timed_entry.
  eapply does_bind0; [apply (does_sys _ _ _ (fun _ => K)); [done|by apply HK|apply fs_now]|].
  intros t0 s1 Hs1 Ht1 Hr1. eapply does_bind0; [by apply Hm|]. intros [] s2 _ Ht2 Hr2.
  eapply does_bind0; [apply (does_sys _ _ _ any); [done|done|apply fs_now]|]. intros t1 s3 _ Ht3 Hr3.
  apply wpt_modify. cbn. split_and!; [done|exact (eq_trans Ht3 Ht2)| |]; unfold entries, ready in *; cbn; [done|].
  split_and!; [apply Hr3|apply Hr3|..]; apply Z.mod_pos_bound; lia.
Qed.

Lemma does_timed (m : act unit) s t :
  ready s -> (forall s1, it_tree s1 = it_tree s -> ready s1 -> does m s1 t 0 any) ->
  does (timed_entry os false m) s t 1 any.
Proof. intros Hr Hm. by apply (does_timed_keep (const True)); [..|intros s1 _; apply Hm]. Qed.

(** A loop whose body changes the tree by [f]. *)
Lemma does_for {A} (f : fs_map -> A -> fs_map) (c : Z) (body : A -> act unit) t0 (l : list A) s :
  it_tree s = t0 -> ready s ->
  (forall pre x suf s1, l = pre ++ x :: suf -> it_tree s1 = foldl f t0 pre -> ready s1 ->
     does (body x) s1 (f (it_tree s1) x) c any) ->
  does (eff_for l body) s (foldl f t0 l) (c * Z.of_nat (length l)) any.
Proof.
  revert s t0. induction l as [|x l IH]; intros s t0 Ht Hr Hb.
  - rewrite Z.mul_0_r. cbn. rewrite <- Ht. by apply does_ret.
  - cbn [eff_for foldl length]. replace (c * Z.of_nat (S (length l))) with (c + c * Z.of_nat (length l)) by lia.
    eapply does_bind; [by apply (Hb [] x l)|]. intros [] s1 _ Ht1 Hr1. apply IH; [by rewrite Ht1, Ht|done|].
    intros pre y suf s2 Hl Ht2 Hr2. apply (Hb (x :: pre) y suf); [by rewrite Hl|done|done].
Qed.

(** Loops that add or remove one entry per round. *)
Lemma does_marks v c {A} (key : A -> fs_key) (body : A -> act unit) l s :
  ready s ->
  (forall pre x suf s1, l = pre ++ x :: suf -> it_tree s1 = fs_mark v (key <$> pre) (it_tree s) -> ready s1 ->
     does (body x) s1 (<[key x := v]> (it_tree s1)) c any) ->
  does (eff_for l body) s (fs_mark v (key <$> l) (it_tree s)) (c * Z.of_nat (length l)) any.
Proof.
  intros Hr Hb. assert (forall l t, fs_mark v (key <$> l) t = foldl (fun t x => <[key x := v]> t) t l) as Hf.
  { intros l' t. unfold fs_mark. by rewrite foldl_fmap. }
  rewrite Hf. apply does_for; [done|done|]. intros pre x suf s1 Hl Ht. apply (Hb pre x suf); [done|]. by rewrite Hf.
Qed.

Lemma does_unmarks c {A} (key : A -> fs_key) (body : A -> act unit) l s :
  ready s ->
  (forall pre x suf s1, l = pre ++ x :: suf -> it_tree s1 = fs_unmark (key <$> pre) (it_tree s) -> ready s1 ->
     does (body x) s1 (delete (key x) (it_tree s1)) c any) ->
  does (eff_for l body) s (fs_unmark (key <$> l) (it_tree s)) (c * Z.of_nat (length l)) any.
Proof.
  intros Hr Hb. assert (forall l t, fs_unmark (key <$> l) t = foldl (fun t x => delete (key x) t) t l) as Hf.
  { intros l' t. unfold fs_unmark. by rewrite foldl_fmap. }
  rewrite Hf. apply does_for; [done|done|]. intros pre x suf s1 Hl Ht. apply (Hb pre x suf); [done|]. by rewrite Hf.
Qed.

(** *** Directories *)

Lemma does_mkdir a i fd p msg s :
  fa_pathFDs a !! Z.to_nat i = Some fd -> ready s -> parent_dir (it_tree s) (fd, p) -> it_tree s !! (fd, p) <> Some FS_file ->
  does (mkdir_checked os a i p msg) s (<[(fd, p) := FS_dir]> (it_tree s)) 0 any.
Proof.
  intros Hi Hr Hp Hk. unfold mkdir_checked. eapply does_bind0; [by apply does_pathfd|]. intros fd' s1 <- Ht1 Hr1.
  rewrite <- Ht1 in Hp, Hk |- *. destruct (it_tree s1 !! (fd, p)) as [[]|] eqn:E; [|done|].
  - destruct (fs_mkdirat_exists fd p (it_world s1) FS_dir E) as [H1 H2].
    eapply does_bind0; [by apply (does_sys _ _ (it_tree s1) (gives (Some EEXIST)))|]. intros r s2 <- Ht2 Hr2. rewrite insert_id by done.
    rewrite <- Ht2. by apply does_ret.
  - destruct (fs_mkdirat_new fd p (it_world s1) E Hp) as [H1 H2].
    eapply does_bind0; [by apply (does_sys _ _ (<[(fd, p) := FS_dir]> (it_tree s1)) (gives None))|]. intros r s2 <- Ht2 Hr2.
    rewrite <- Ht2. by apply does_ret.
Qed.

Lemma does_rmdir a ign i fd p s :
  fa_pathFDs a !! Z.to_nat i = Some fd -> ready s -> it_tree s !! (fd, p) = Some FS_dir -> dir_empty (it_tree s) (fd, p) ->
  does (rmdir_checked os a ign i p) s (delete (fd, p) (it_tree s)) 0 any.
Proof.
  intros Hi Hr Hk He. unfold rmdir_checked. eapply does_bind0; [by apply does_pathfd|]. intros fd' s1 <- Ht1 Hr1.
  rewrite <- Ht1 in Hk, He |- *. destruct (fs_rmdir fd p (it_world s1) Hk He) as [H1 H2].
  eapply does_bind0; [by apply (does_sys _ _ (delete (fd, p) (it_tree s1)) (gives None))|]. intros r s2 <- Ht2 Hr2.
  rewrite <- Ht2. by apply does_ret.
Qed.

(** The rank directories, by the index of their benchmark path. *)
Definition rank_key (a : IterArgs) (i : Z) : fs_key := (default 0 (fa_pathFDs a !! Z.to_nat i), rank_dir (workerDirRank a)).

Lemma rank_keys_seqZ a : rank_keys a = rank_key a <$> seqZ 0 (Z.of_nat (length (fa_pathFDs a))).
Proof.
  apply list_eq. intros i. unfold rank_keys. rewrite !list_lookup_fmap. destruct (fa_pathFDs a !! i) as [fd|] eqn:E.
  - pose proof (lookup_lt_Some _ _ _ E). rewrite (proj2 (lookup_seqZ 0 _ i (Z.of_nat i))) by lia. cbn. unfold rank_key.
    by rewrite Nat2Z.id, E.
  - apply lookup_ge_None in E. rewrite lookup_seqZ_ge by lia. done.
Qed.

Lemma rank_key_fd a i : 0 <= i < Z.of_nat (length (fa_pathFDs a)) -> fa_pathFDs a !! Z.to_nat i = Some (rank_key a i).1.
Proof.
  intros Hi. cbn. destruct (lookup_lt_is_Some_2 (fa_pathFDs a) (Z.to_nat i)) as [fd ->]; [lia|done].
Qed.

(** A member of a prefix of a list of indices. *)
Lemma seqZ_mem n pre x suf : seqZ 0 n = pre ++ x :: suf -> 0 <= x < n.
Proof. intros H. assert (x ∈ seqZ 0 n) as Hx by (rewrite H; set_solver). apply elem_of_seqZ in Hx. lia. Qed.

(** Creating the worker's directories: they exist afterwards, also when some were there before. *)
Lemma does_create_dirs a s :
  iter_ok a -> fa_benchPhase a = BenchPhase_CREATEDIRS -> 0 < fa_numDirs a -> ready s ->
  (forall k, k ∈ rank_keys a ++ dir_keys a -> it_tree s !! k <> Some FS_file) ->
  does (dirModeIterateDirs os a) s (fs_mark FS_dir (rank_keys a ++ dir_keys a) (it_tree s)) (fa_numDirs a) any.
Proof.
  intros Hok Hph Hn Hr Hfree. unfold dirModeIterateDirs. rewrite (proj2 (Z.eqb_neq _ _)), Hph by lia.
  change (bool_decide (BenchPhase_CREATEDIRS = BenchPhase_CREATEDIRS)) with true.
  change (bool_decide (BenchPhase_CREATEDIRS = BenchPhase_DELETEDIRS)) with false. cbn [eff_when]. rewrite fs_mark_app.
  eapply does_bind0.
  { unfold rank_dirs. rewrite <- (Z.mul_0_l (Z.of_nat (length (seqZ 0 (Z.of_nat (length (fa_pathFDs a))))))).
    apply (does_marks FS_dir 0 (rank_key a)); [done|]. intros pre i suf s1 Hl Ht1 Hr1. pose proof (seqZ_mem _ _ _ _ Hl) as Hi.
    assert (rank_key a i ∈ rank_keys a) as Hin.
    { rewrite rank_keys_seqZ, Hl, fmap_app. apply elem_of_app. right. by left. }
    eapply does_bind0; [by apply does_check|]. intros [] s2 _ Ht2 Hr2.
    eapply does_bind0; [by apply does_print; [apply Hok|]|]. intros p s3 <- Ht3 Hr3. rewrite <- Ht2, <- Ht3.
    apply (does_mkdir a i (rank_key a i).1); [by apply rank_key_fd|done|left; by apply (rank_key_parent a Hok _ Hin)|].
    rewrite Ht3, Ht2, Ht1, lookup_fs_mark. case_decide; [done|]. apply Hfree, elem_of_app. by left. }
  intros [] s1 _ Ht1 Hr1. rewrite <- rank_keys_seqZ in Ht1. rewrite <- Ht1. eapply does_bind_last.
  2: { intros [] s2 _ Ht2 Hr2. rewrite <- Ht2. by apply does_ret. }
  replace (fa_numDirs a) with (1 * Z.of_nat (length (seqZ 0 (fa_numDirs a)))) at 2 by (rewrite length_seqZ; lia).
  apply (does_marks FS_dir 1 (dir_key a)); [done|]. intros pre d suf s2 Hl Ht2 Hr2. pose proof (seqZ_mem _ _ _ _ Hl) as Hd.
  eapply does_bind0; [by apply does_check|]. intros [] s3 _ Ht3 Hr3.
  eapply does_bind0; [by apply does_print; [apply Hok|]|]. intros p s4 <- Ht4 Hr4. rewrite <- Ht3, <- Ht4.
  apply does_timed; [done|]. intros s5 Ht5 Hr5. rewrite <- Ht5. eapply does_bind0.
  2: { intros [] s6 _ Ht6 Hr6. rewrite <- Ht6. by apply does_ret. }
  destruct (dir_key_parent a Hok d Hd) as [Hp1 Hp2]. assert (0 <= d < 2 ^ 32) by (destruct Hok; lia).
  apply (does_mkdir a (path_index a d) (dir_fd a d)); [by apply dir_fd_lookup|done| |];
    rewrite Ht5, Ht4, Ht3, Ht2, ?lookup_fs_mark.
  - right. cbn in Hp1, Hp2 |- *. rewrite Hp1, Ht1, !lookup_fs_mark. repeat case_decide; done.
  - rewrite Ht1, lookup_fs_mark. repeat case_decide; try done. apply Hfree, elem_of_app. right. apply elem_of_dir_keys. by exists d.
Qed.

Lemma nodup_prefix {A} (key : A -> fs_key) l pre x suf : NoDup (key <$> l) -> l = pre ++ x :: suf -> key x ∉ key <$> pre.
Proof.
  intros Hnd ->. rewrite fmap_app in Hnd. apply NoDup_app in Hnd as (_ & Hd & _). intros Hin. apply (Hd _ Hin). cbn. by left.
Qed.

Lemma dir_empty_unmark ks t k : dir_empty t k -> dir_empty (fs_unmark ks t) k.
Proof. intros H q H1 H2. rewrite lookup_fs_unmark. case_decide; [done|]. by apply H. Qed.

Lemma rank_key_not_dir a k : iter_ok a -> k ∈ rank_keys a -> k ∉ dir_keys a.
Proof.
  intros Hok Hk (d & -> & Hd)%elem_of_dir_keys. apply (rank_key_parent a Hok) in Hk.
  by rewrite (proj1 (dir_key_parent a Hok d Hd)) in Hk.
Qed.

(** The two loops of the deletion. *)
Lemma does_rmdir_dirs a ign s :
  iter_ok a -> ready s -> (forall k, k ∈ dir_keys a -> it_tree s !! k = Some FS_dir /\ dir_empty (it_tree s) k) ->
  does (eff_for (seqZ 0 (fa_numDirs a)) (fun dirIndex =>
      iter_checkInterruption os;;
      path ← print_path (sub_dir (workerDirRank a) dirIndex) "mkdir path too long for static buffer. ";
      timed_entry os false (mret tt;; rmdir_checked os a ign (path_index a dirIndex) path)))
    s (fs_unmark (dir_keys a) (it_tree s)) (fa_numDirs a) any.
Proof.
  intros Hok Hr Hin. replace (fa_numDirs a) with (1 * Z.of_nat (length (seqZ 0 (fa_numDirs a)))) at 2
    by (rewrite length_seqZ; destruct Hok; lia).
  apply (does_unmarks 1 (dir_key a)); [done|]. intros pre d suf s2 Hl Ht2 Hr2. pose proof (seqZ_mem _ _ _ _ Hl) as Hd.
  eapply does_bind0; [by apply does_check|]. intros [] s3 _ Ht3 Hr3.
  eapply does_bind0; [by apply does_print; [apply Hok|]|]. intros p s4 <- Ht4 Hr4. rewrite <- Ht3, <- Ht4.
  apply does_timed; [done|]. intros s5 Ht5 Hr5. rewrite <- Ht5.
  eapply does_bind0; [by apply (does_ret tt s5 any)|]. intros [] s6 _ Ht6 Hr6. rewrite <- Ht6.
  destruct (Hin (dir_key a d)) as [Hk He]; [apply elem_of_dir_keys; by exists d|].
  assert (0 <= d < 2 ^ 32) by (destruct Hok; lia).
  assert (it_tree s6 = fs_unmark (dir_key a <$> pre) (it_tree s)) as Ht by congruence.
  apply (does_rmdir a ign (path_index a d) (dir_fd a d)); [by apply dir_fd_lookup|done| |]; rewrite Ht.
  - rewrite lookup_fs_unmark, decide_False; [done|]. apply (nodup_prefix (dir_key a) _ _ _ _ (dir_keys_nodup a Hok) Hl).
  - by apply dir_empty_unmark.
Qed.

Lemma does_rmdir_ranks a ign s :
  iter_ok a -> ready s -> (forall k, k ∈ rank_keys a -> it_tree s !! k = Some FS_dir /\ dir_empty (it_tree s) k) ->
  does (rank_dirs os a (rmdir_checked os a ign)) s (fs_unmark (rank_keys a) (it_tree s)) 0 any.
Proof.
  intros Hok Hr Hin. rewrite rank_keys_seqZ. unfold rank_dirs.
  rewrite <- (Z.mul_0_l (Z.of_nat (length (seqZ 0 (Z.of_nat (length (fa_pathFDs a))))))).
  apply (does_unmarks 0 (rank_key a)); [done|]. intros pre i suf s2 Hl Ht2 Hr2. pose proof (seqZ_mem _ _ _ _ Hl) as Hi.
  destruct (Hin (rank_key a i)) as [Hk He].
  { rewrite rank_keys_seqZ, Hl, fmap_app. apply elem_of_app. right. by left. }
  eapply does_bind0; [by apply does_check|]. intros [] s3 _ Ht3 Hr3.
  eapply does_bind0; [by apply does_print; [apply Hok|]|]. intros p s4 <- Ht4 Hr4. rewrite <- Ht3, <- Ht4.
  assert (it_tree s4 = fs_unmark (rank_key a <$> pre) (it_tree s)) as Ht by congruence.
  apply (does_rmdir a ign i (rank_key a i).1); [by apply rank_key_fd|done| |]; rewrite Ht.
  - rewrite lookup_fs_unmark, decide_False; [done|]. pose proof (rank_keys_nodup a Hok) as Hnd. rewrite rank_keys_seqZ in Hnd.
    apply (nodup_prefix (rank_key a) _ _ _ _ Hnd Hl).
  - by apply dir_empty_unmark.
Qed.

(** Deleting the worker's directories, which are there and empty. *)
Lemma does_delete_dirs a s :
  iter_ok a -> fa_benchPhase a = BenchPhase_DELETEDIRS -> 0 < fa_numDirs a -> ready s ->
  (forall k, k ∈ rank_keys a ++ dir_keys a -> it_tree s !! k = Some FS_dir) ->
  (forall k, k ∈ dir_keys a -> dir_empty (it_tree s) k) ->
  (forall k, k ∈ rank_keys a -> dir_empty (fs_unmark (dir_keys a) (it_tree s)) k) ->
  does (dirModeIterateDirs os a) s (fs_unmark (dir_keys a ++ rank_keys a) (it_tree s)) (fa_numDirs a) any.
Proof.
  intros Hok Hph Hn Hr Hin Hed Her. unfold dirModeIterateDirs. rewrite (proj2 (Z.eqb_neq _ _)), Hph by lia.
  change (bool_decide (BenchPhase_DELETEDIRS = BenchPhase_CREATEDIRS)) with false.
  change (bool_decide (BenchPhase_DELETEDIRS = BenchPhase_DELETEDIRS)) with true. cbn [eff_when]. rewrite fs_unmark_app.
  eapply does_bind0; [by apply (does_ret tt s any)|]. intros [] s0 _ Ht0 Hr0. rewrite <- Ht0 in Hin, Hed, Her |- *.
  eapply does_bind_last; [apply does_rmdir_dirs; [done|done|]|].
  { intros k Hk. split; [apply Hin, elem_of_app; by right|by apply Hed]. }
  intros [] s1 _ Ht1 Hr1. rewrite <- Ht1 in Her |- *. apply does_rmdir_ranks; [done|done|]. intros k Hk.
  split; [|by apply Her]. rewrite Ht1, lookup_fs_unmark, decide_False by by apply rank_key_not_dir.
  apply Hin, elem_of_app. by left.
Qed.

(** *** Files *)

Lemma does_on_os {A} (m : eff W A) s t (P : A -> state -> Prop) :
  ready s -> wpt m (it_world s) (post (fun x w' => P x (put_it_world w' s) /\ fs_tree w' = t) (fun _ _ => False)) ->
  does (on_os m) s t 0 P.
Proof.
  intros Hr ([x|e] & w' & Hm & H); [|done]. exists (Ok x), (put_it_world w' s). unfold on_os, eff_zoom. rewrite Hm.
  split; [done|]. destruct H as [HP Ht]. cbn. rewrite entries_0 by done. split_and!; done.
Qed.

Lemma does_catch {A} (m : act A) h s t n P : does m s t n P -> does (eff_catch m h) s t n P.
Proof. intros H. apply wpt_catch. eapply wpt_mono; [exact H|]. by intros [x|e] s' H'. Qed.

(** All bytes of the file are still to be transferred. *)
Definition fresh (s : state) : Prop := getNumBytesLeftToSubmit (R := R) (D := D) (rw_gen (it_rw s)) = total.

(** Open, not transferred yet. *)
Definition avail (fd : Z) (s : state) : Prop := fd ∈ os_fds (it_world s) /\ fresh s.
(** The file of the handles is open. *)
Definition holds (fd : Z) (s : state) : Prop := fd ∈ os_fds (it_world s) /\ it_fd s = fd.

(** A call on an open descriptor that succeeds; [K] does not depend on the world. *)
Lemma does_fd_call {A} (K : state -> Prop) (f : W -> A * W) (r : A) fd s :
  (forall w s, K s -> K (put_it_world w s)) ->
  ready s -> fd ∈ os_fds (it_world s) -> K s -> (forall w, os_same os_fds os_maps w (f w).2) ->
  (forall w, fd ∈ os_fds w -> (f w).1 = r /\ fs_tree (f w).2 = fs_tree w) ->
  does (on_os (sys f)) s (it_tree s) 0 (fun x s' => r = x /\ fd ∈ os_fds (it_world s') /\ K s').
Proof.
  intros HK Hr Hfd Hs Hk Hf. destruct (Hf _ Hfd) as [H1 H2]. apply does_sys; [done| |done]. split; [done|].
  split; [cbn; by rewrite (proj1 (Hk (it_world s)))|by apply HK].
Qed.

Lemma does_fadvise fd flags s : ready s -> avail fd s -> does (on_os (fadvise os fd flags)) s (it_tree s) 0 (fun _ s' => avail fd s').
Proof.
  intros Hr [Hfd Hfr]. apply does_on_os; [done|]. unfold fadvise.
  apply (wpt_for (fun w => fd ∈ os_fds w /\ fs_tree w = it_tree s)); [done| |by intros w [H1 H2]].
  intros [flag advice] w _ [Hw Ht]. apply wpt_when; intros _; [|done]. apply wpt_bind.
  destruct (fs_fadvise fd advice w Hw) as [H1 H2]. destruct (os_fadvise_keeps fd advice w) as [H3 _].
  unfold wpt, sys. destruct (os_fadvise os fd advice w) as [r w']. cbn in H1, H2, H3. subst r. eexists _, _. split; [done|].
  cbn. apply wpt_ret. cbn. by rewrite H3, H2.
Qed.

(** The entry can be opened: it is a file, or a file is to be created where there is room. *)
Definition openable (fl : OpenFlags) (t : fs_map) (k : fs_key) : Prop :=
  t !! k = Some FS_file \/ (o_creat fl = true /\ parent_dir t k /\ t !! k <> Some FS_dir).

Lemma does_openat dirFD p fl s : ready s -> fresh s -> openable fl (it_tree s) (dirFD, p) ->
  does (on_os (sys (os_openat os dirFD p fl))) s (<[(dirFD, p) := FS_file]> (it_tree s)) 0
    (fun r s' => exists fd, r = inr fd /\ avail fd s').
Proof.
  intros Hr Hfr Ho. assert (exists fd w', os_openat os dirFD p fl (it_world s) = (inr fd, w')
    /\ fs_tree w' = <[(dirFD, p) := FS_file]> (it_tree s)) as (fd & w' & Hop & Ht).
  { destruct Ho as [H|(H1 & H2 & H3)]; [|by apply fs_open_create]. destruct (fs_open_existing dirFD p fl _ H) as (fd & w' & Hop & Ht).
    exists fd, w'. split; [done|]. by rewrite insert_id. }
  pose proof (os_openat_law dirFD p fl (it_world s)) as Hl. rewrite Hop in Hl. destruct Hl as [Hl _].
  apply does_sys; rewrite ?Hop; cbn; [done| |done]. exists fd. split; [done|]. split; [|done]. cbn. rewrite Hl. by left.
Qed.

Lemma does_open a i dirFD p fl len pre s :
  fa_pathFDs a !! Z.to_nat i = Some dirFD -> fa_useMmap a = false -> (fa_doPreallocFile a = true -> 0 < len -₆₄ pre) ->
  ready s -> fresh s -> openable fl (it_tree s) (dirFD, p) ->
  does (dirModeOpenAndPrepFile os a i p fl len pre) s (<[(dirFD, p) := FS_file]> (it_tree s)) 0 avail.
Proof.
  intros Hi Hmm Hpre Hr Hfr Ho. unfold dirModeOpenAndPrepFile.
  eapply does_bind0 with (P := fun x s' => dirFD = x /\ fresh s') (t1 := it_tree s).
  { eapply wpt_some; [exact Hi|]. cbn. by rewrite entries_0. }
  intros fd' s1 [<- Hfr1] Ht1 Hr1. rewrite <- Ht1 in Ho |- *.
  eapply does_bind0; [by apply does_openat|]. intros r s2 (fd & -> & Hav) Ht2 Hr2. rewrite <- Ht2. apply does_catch.
  assert (forall w s, fresh s -> fresh (put_it_world w s)) as HK by done.
  eapply does_bind0 with (P := fun _ s' => avail fd s') (t1 := it_tree s2).
  { destruct (bool_decide _); cbn [eff_when]; [|by apply does_ret].
    eapply does_bind0 with (P := fun _ s' => avail fd s') (t1 := it_tree s2).
    - destruct (fa_doTruncToSize a); cbn [eff_when]; [|by apply does_ret]. destruct Hav as [Hfd Hf2].
      eapply does_bind0; [apply (does_fd_call fresh _ None fd); try done; intros; [apply os_ftruncate_keeps|by apply fs_ftruncate]|].
      intros x s3 (<- & Hfd3 & Hf3) Ht3 Hr3. rewrite <- Ht3. by apply does_ret.
    - intros [] s3 [Hfd3 Hf3] Ht3 Hr3. rewrite <- Ht3. destruct (fa_doPreallocFile a) eqn:Hp; cbn [eff_when]; [|by apply does_ret].
      eapply does_bind0; [apply (does_fd_call fresh _ None fd); try done; intros; [apply os_fallocate_keeps|apply fs_fallocate; auto]|].
      intros x s4 (<- & Hfd4 & Hf4) Ht4 Hr4. rewrite <- Ht4. by apply does_ret. }
  intros [] s3 Hav3 Ht3 Hr3. rewrite <- Ht3. eapply does_bind0; [by apply does_fadvise|]. intros [] s4 Hav4 Ht4 Hr4.
  rewrite <- Ht4, Hmm. cbn [eff_when]. eapply does_bind0; [by apply (does_ret tt s4 (fun _ s => avail fd s))|].
  intros [] s5 Hav5 Ht5 Hr5. rewrite <- Ht5. by apply does_ret.
Qed.

Context (engine : list Z -> eff rwst Z).

(** The engine transfers the bytes of an open file and changes neither the tree nor what is open or
    counted as an entry. *)
Definition engine_transfers : Prop := forall fd rw,
  gen_ready rw -> getNumBytesLeftToSubmit (R := R) (D := D) (rw_gen rw) = total -> fd ∈ os_fds (rw_world rw) ->
  exists rw', engine [fd] rw = Some (Ok total, rw') /\ gen_ready rw' /\ fs_tree (rw_world rw') = fs_tree (rw_world rw)
    /\ same_res os (rw_world rw) (rw_world rw') /\ numEntriesDone (atomicLiveOps rw') = numEntriesDone (atomicLiveOps rw).

Lemma does_engine b fd s :
  engine_transfers -> 0 <= total < 2 ^ 63 -> ready s -> fresh s -> holds fd s ->
  does (rw_current_file engine b total) s (it_tree s) 0 (fun _ => holds fd).
Proof.
  intros He Htot Hr Hfr [Hfd Hit]. destruct (He fd (it_rw s)) as (rw' & Hrun & Hg & Ht & [Hf _] & Hent); [apply Hr|done|done|].
  unfold rw_current_file. apply wpt_bind, wpt_get. cbn [post]. rewrite Hit.
  apply wpt_bind. exists (Ok total), (upd_it_rw (const rw') s). unfold run_engine, eff_zoom. rewrite Hrun. split; [done|].
  cbn [post]. apply wpt_bind, wpt_get. cbn [post const]. rewrite (proj2 (Z.eqb_neq _ _)), u64_small, Z.eqb_refl by lia. apply wpt_ret.
  assert (ready (upd_it_rw (const rw') s)) as Hr'.
  { destruct Hr as (Hr1 & Hr2 & Hr3). split_and!; [done|done|..]; unfold entries in *; cbn; lia. }
  split_and!; [|done| |done].
  - split; [|done]. cbn. unfold it_world in *. cbn. by rewrite Hf.
  - cbn. rewrite entries_0 by done. exact Hent.
Qed.

Lemma does_use a fd s :
  engine_transfers -> 0 <= total < 2 ^ 63 -> is_rw_phase (fa_benchPhase a) = true -> ready s -> fresh s -> holds fd s ->
  does (use_file os engine a total) s (it_tree s) 0 (fun _ => holds fd).
Proof.
  intros He Htot Hph Hr Hfr [Hfd Hit]. unfold use_file. apply wpt_bind, wpt_get. cbn [post]. rewrite Hit.
  set (K := fun s : state => fresh s /\ it_fd s = fd). assert (forall w s, K s -> K (put_it_world w s)) as HK by done.
  eapply does_bind0; [apply (does_fd_call K _ (Ok tt) fd); try done; intros; [apply os_cuFileReg_keeps|by apply fs_cuFileReg]|].
  intros x s1 (<- & Hfd1 & HK1) Ht1 Hr1. rewrite <- Ht1.
  eapply does_bind0 with (P := fun _ s' => fd ∈ os_fds (it_world s') /\ K s') (t1 := it_tree s1); [by apply (does_ret tt)|].
  intros [] s2 [Hfd2 HK2] Ht2 Hr2. rewrite <- Ht2.
  eapply does_bind0 with (P := fun _ s' => fd ∈ os_fds (it_world s') /\ K s') (t1 := it_tree s2).
  { destruct (fa_doStatInline a); cbn [eff_when]; [|by apply does_ret].
    eapply does_bind0; [apply (does_fd_call K _ None fd); try done; intros; [apply os_fstat_keeps|by apply fs_fstat]|].
    intros x s3 (<- & Hfd3 & HK3) Ht3 Hr3. rewrite <- Ht3. by apply does_ret. }
  intros [] s3 [Hfd3 [Hfr3 Hit3]] Ht3 Hr3. rewrite <- Ht3. unfold is_rw_phase in Hph.
  destruct (fa_benchPhase a); try discriminate Hph; cbn [eff_when bool_decide decide_rel].
  - eapply does_bind0; [by apply does_engine|]. intros [] s4 H4 Ht4 Hr4. rewrite <- Ht4. by apply does_ret.
  - eapply does_bind0; [by apply (does_ret tt s3 (fun _ s => holds fd s /\ fresh s))|]. intros [] s4 [H4 Hf4] Ht4 Hr4.
    rewrite <- Ht4. by apply does_engine.
Qed.

Lemma does_close a fd len s : fa_useMmap a = false -> ready s -> holds fd s ->
  does (close_used os a len) s (it_tree s) 0 any.
Proof.
  intros Hmm Hr [Hfd Hit]. unfold close_used. rewrite Hmm. cbn [eff_when].
  eapply does_bind0; [by apply (does_ret tt s (fun _ => holds fd))|]. intros [] s1 [Hfd1 Hit1] Ht1 Hr1. rewrite <- Ht1.
  eapply does_bind0 with (P := fun _ => holds fd) (t1 := it_tree s1).
  { apply does_on_os; [done|]. eexists _, _. split; [done|]. cbn. split; [|apply fs_cuFileDereg]. split; [|done]. cbn.
    by rewrite (proj1 (os_cuFileDereg_keeps (it_world s1))). }
  intros [] s2 [Hfd2 Hit2] Ht2 Hr2. rewrite <- Ht2. apply wpt_bind, wpt_get. cbn [post]. rewrite Hit2.
  destruct (fs_close fd (it_world s2) Hfd2) as [Hc1 Hc2].
  eapply does_bind0; [by apply (does_sys _ _ (it_tree s2) (gives None))|]. intros r s3 <- Ht3 Hr3. rewrite <- Ht3. by apply does_ret.
Qed.

(** A file that is opened, transferred and closed is there afterwards. *)
Lemma does_rw_file a i dirFD p len pre s :
  fa_pathFDs a !! Z.to_nat i = Some dirFD -> fa_useMmap a = false -> (fa_doPreallocFile a = true -> 0 < len -₆₄ pre) ->
  engine_transfers -> 0 <= total < 2 ^ 63 -> is_rw_phase (fa_benchPhase a) = true -> ready s -> fresh s ->
  openable (getDirModeOpenFlags a (fa_benchPhase a)) (it_tree s) (dirFD, p) ->
  does (rw_file os engine a i p len pre total) s (<[(dirFD, p) := FS_file]> (it_tree s)) 0 any.
Proof.
  intros Hi Hmm Hpre He Htot Hph Hr Hfr Ho. unfold rw_file.
  eapply does_bind0; [by apply does_open|]. intros fd s1 [Hfd Hf1] Ht1 Hr1. rewrite <- Ht1.
  eapply does_bind0 with (P := fun _ s => holds fd s /\ fresh s) (t1 := it_tree s1).
  { apply wpt_modify. cbn. split_and!; try done. by rewrite entries_0. }
  intros [] s2 [Hh2 Hf2] Ht2 Hr2. rewrite <- Ht2. eapply does_bind0; [by apply does_catch, does_use|].
  intros [] s3 Hh3 Ht3 Hr3. rewrite <- Ht3. by eapply does_close.
Qed.

Lemma does_reset s : ready s -> does reset_gen s (it_tree s) 0 (fun _ => fresh).
Proof.
  intros Hr. destruct Hr as ((Hg1 & Hg2 & Hg3) & Hm & Hent). apply wpt_modify. cbn [post].
  pose proof (og_reset_law (R := R) (D := D) (rw_gen (it_rw s)) (rw_env (it_rw s)) Hg1 Hg2) as Hl.
  unfold upd_it_rw, it_tree, entries, fresh, ready, gen_ready, it_world in *. cbn [it_rw it_mmap].
  destruct (og_reset (rw_gen (it_rw s)) (rw_env (it_rw s))) as [g e]. destruct Hl as (H1 & H2 & H3 & H4 & _).
  cbn [set_gen rw_gen rw_env rw_world atomicLiveOps].
  rewrite Z.add_0_r, u64_small by lia. rewrite H3, H4. split_and!; try done; apply Hent.
Qed.

Lemma no_rwmix_reader a : fa_numRWMixReadThreads a = 0 -> isRWMixedReader a = false.
Proof.
  intros H. unfold isRWMixedReader. rewrite H. rewrite (proj2 (Z.ltb_ge _ _)); [by rewrite andb_false_r|].
  apply Z.mod_pos_bound. lia.
Qed.

(** What a phase does to the entry of one file. *)
Definition file_effect (p : BenchPhase) (k : fs_key) (t : fs_map) : fs_map :=
  match p with
  | BenchPhase_CREATEFILES | BenchPhase_READFILES => <[k := FS_file]> t
  | BenchPhase_DELETEFILES => delete k t
  | _ => t
  end.

Definition file_phase (p : BenchPhase) : Prop :=
  p = BenchPhase_CREATEFILES \/ p = BenchPhase_READFILES \/ p = BenchPhase_STATFILES \/ p = BenchPhase_DELETEFILES.

(** When a phase finds the file as it needs it. *)
Definition file_pre (p : BenchPhase) (k : fs_key) (t : fs_map) : Prop :=
  match p with
  | BenchPhase_CREATEFILES => parent_dir t k /\ t !! k <> Some FS_dir
  | _ => t !! k = Some FS_file
  end.

(** Comparisons of given phases. *)
#[local] Ltac phases :=
  repeat match goal with |- context [bool_decide (?x = ?y)] =>
    let b := eval vm_compute in (bool_decide (x = y)) in change (bool_decide (x = y)) with b end;
  repeat match goal with |- context [is_rw_phase ?x] =>
    let b := eval vm_compute in (is_rw_phase x) in change (is_rw_phase x) with b end; cbn [eff_when].

Lemma does_skip p a i path s : p = BenchPhase_CREATEFILES \/ p = BenchPhase_READFILES -> ready s ->
  does (eff_when (bool_decide (p = BenchPhase_STATFILES)) (stat_file os a i path);;
        eff_when (bool_decide (p = BenchPhase_DELETEFILES)) (unlink_file os a (fa_ignoreDelErrors a) i path)) s (it_tree s) 0 any.
Proof.
  intros [->| ->] Hr; phases; (eapply does_bind0; [by apply (does_ret tt s any)|]; intros [] s1 _ <- Hr1; by apply does_ret).
Qed.

Lemma prealloc_len a : iter_ok a -> fa_doPreallocFile a = true -> 0 < (fa_fileOffset a +₆₄ fa_fileSize a) -₆₄ fa_fileOffset a.
Proof. intros Hok Hp. destruct Hok. specialize (io_prealloc0 Hp). rewrite (u64_small (_ + _)), u64_small by lia. lia. Qed.

Lemma does_file a d f s :
  iter_ok a -> fa_fileSize a = total -> engine_transfers -> file_phase (fa_benchPhase a) ->
  0 <= d < num_file_dirs a -> 0 <= f < fa_numFiles a -> ready s -> file_pre (fa_benchPhase a) (file_key a d f) (it_tree s) ->
  does (dir_mode_file os engine a d f) s (file_effect (fa_benchPhase a) (file_key a d f) (it_tree s)) 1 any.
Proof.
  intros Hok Hsz He Hph Hd Hf Hr Hpre. assert (0 <= d < 2 ^ 32) as Hd32 by (pose proof (num_file_dirs_range a Hok); lia).
  pose proof (dir_fd_lookup a d Hok Hd32) as Hlook. pose proof (io_size a Hok). pose proof (io_offset a Hok).
  unfold dir_mode_file. rewrite (no_rwmix_reader a) by apply Hok.
  eapply does_bind0 with (P := any) (t1 := it_tree s).
  { destruct (_ =? 0); cbn [eff_when]; [by apply does_check|by apply does_ret]. }
  intros [] s1 _ Ht1 Hr1. eapply does_bind0; [by apply does_print; [apply Hok|]|]. intros p s2 <- Ht2 Hr2.
  eapply does_bind0; [by apply does_reset|]. intros [] s3 Hf3 Ht3 Hr3. rewrite <- Ht1, <- Ht2, <- Ht3 in Hpre |- *.
  apply (does_timed_keep fresh); [done|done|done|]. intros s4 Hf4 Ht4 Hr4. rewrite <- Ht4 in Hpre |- *.
  destruct Hph as [Hp|[Hp|[Hp|Hp]]]; rewrite Hp in Hpre |- *; cbn [file_effect file_pre] in Hpre |- *.
  - eapply does_bind_last; [|intros [] s5 _ Ht5 Hr5; rewrite <- Ht5; apply does_skip; [by left|done]].
    cbn [is_rw_phase]. phases. rewrite Hsz. apply does_rw_file; try (done || lia); [apply Hok|rewrite <- Hsz; by apply prealloc_len|by rewrite Hp|].
    rewrite Hp. right. destruct Hpre. by split_and!.
  - eapply does_bind_last; [|intros [] s5 _ Ht5 Hr5; rewrite <- Ht5; apply does_skip; [by right|done]].
    phases. rewrite Hsz. apply does_rw_file; try (done || lia); [apply Hok|rewrite <- Hsz; by apply prealloc_len|by rewrite Hp|by left].
  - eapply does_bind0; [by apply (does_ret tt s4 any)|]. intros [] s5 _ Ht5 Hr5. rewrite <- Ht5 in Hpre |- *.
    eapply does_bind_last with (P := any) (t1 := it_tree s5); [phases|intros [] s6 _ Ht6 Hr6; rewrite <- Ht6; by apply does_ret].
    unfold stat_file. eapply does_bind0; [by apply does_pathfd|]. intros fd s6 <- Ht6 Hr6. rewrite <- Ht6 in Hpre |- *.
    destruct (fs_fstatat _ _ (it_world s6) _ Hpre) as [H1 H2].
    eapply does_bind0; [by apply (does_sys _ _ (it_tree s6) (gives None))|]. intros r s7 <- Ht7 Hr7. rewrite <- Ht7. by apply does_ret.
  - eapply does_bind0; [by apply (does_ret tt s4 any)|]. intros [] s5 _ Ht5 Hr5. rewrite <- Ht5 in Hpre |- *.
    eapply does_bind0; [by apply (does_ret tt s5 any)|]. intros [] s6' _ Ht6' Hr6'. rewrite <- Ht6' in Hpre |- *.
    phases. unfold unlink_file. eapply does_bind0; [by apply does_pathfd|]. intros fd s6 <- Ht6 Hr6. rewrite <- Ht6 in Hpre |- *.
    destruct (fs_unlink_file _ _ (it_world s6) Hpre) as [H1 H2].
    eapply does_bind0; [by apply (does_sys _ _ (delete (file_key a d f) (it_tree s6)) (gives None))|].
    intros r s7 <- Ht7 Hr7. rewrite <- Ht7. by apply does_ret.
Qed.

(** The effect of a phase on the entries of a list of files. *)
Definition files_effect (p : BenchPhase) (ks : list fs_key) (t : fs_map) : fs_map := foldl (fun t k => file_effect p k t) t ks.

Lemma files_effect_app p l1 l2 t : files_effect p (l1 ++ l2) t = files_effect p l2 (files_effect p l1 t).
Proof. unfold files_effect. by rewrite foldl_app. Qed.

Lemma files_effect_bind p (key : Z -> Z -> fs_key) l1 l2 t :
  files_effect p (d ← l1; key d <$> l2) t = foldl (fun t d => files_effect p (key d <$> l2) t) t l1.
Proof.
  unfold files_effect. revert t. induction l1 as [|d l1 IH]; intros t; [done|]. rewrite bind_cons, foldl_app. apply IH.
Qed.

(** A phase over the worker's files. *)
Lemma does_files a s :
  iter_ok a -> fa_fileSize a = total -> engine_transfers -> file_phase (fa_benchPhase a) -> ready s ->
  (forall pre k suf, file_keys a = pre ++ k :: suf -> file_pre (fa_benchPhase a) k (files_effect (fa_benchPhase a) pre (it_tree s))) ->
  does (dirModeIterateFiles os engine a) s (files_effect (fa_benchPhase a) (file_keys a) (it_tree s))
    (num_file_dirs a * fa_numFiles a) any.
Proof.
  intros Hok Hsz He Hph Hr Hpre. unfold dirModeIterateFiles. change (if haveSubdirs a then fa_numDirs a else 1) with (num_file_dirs a).
  pose proof (num_file_dirs_range a Hok) as Hnd. pose proof (io_files a Hok) as Hnf.
  unfold file_keys. rewrite files_effect_bind.
  replace (num_file_dirs a * fa_numFiles a) with (fa_numFiles a * Z.of_nat (length (seqZ 0 (num_file_dirs a))))
    by (rewrite length_seqZ; lia).
  apply does_for; [done|done|]. intros dpre d dsuf s1 Hdl Ht1 Hr1. pose proof (seqZ_mem _ _ _ _ Hdl) as Hd.
  eapply does_bind0 with (P := any) (t1 := it_tree s1).
  { destruct (_ =? 0); cbn [eff_when]; [by apply does_check|by apply does_ret]. }
  intros [] s2 _ Ht2 Hr2. rewrite <- Ht2. unfold files_effect. rewrite foldl_fmap.
  replace (fa_numFiles a) with (1 * Z.of_nat (length (seqZ 0 (fa_numFiles a)))) at 3 by (rewrite length_seqZ; lia).
  apply does_for; [done|done|]. intros fpre f fsuf s3 Hfl Ht3 Hr3. pose proof (seqZ_mem _ _ _ _ Hfl) as Hf.
  apply does_file; [done..|]. rewrite Ht3, Ht2, Ht1, <- files_effect_bind.
  rewrite <- (foldl_fmap (fun t k => file_effect (fa_benchPhase a) k t)).
  match goal with |- file_pre ?p ?k (foldl _ ?t ?l) => change (file_pre p k (files_effect p l t)) end.
  rewrite <- files_effect_app.
  eapply Hpre with (suf := (file_key a d <$> fsuf) ++ (d ← dsuf; file_key a d <$> seqZ 0 (fa_numFiles a))).
  unfold file_keys. rewrite Hdl, bind_app, bind_cons, Hfl at 1. rewrite fmap_app, fmap_cons. by rewrite <- !app_assoc.
Qed.
End phases.
