(* ===== verification/DirRun.v ===== *)
(** A run of several workers in directory mode on one POSIX file system: create directories, create,
    read and stat files, delete files and directories.  Each worker runs [worker_phase]
    (PhaseWork.v) for each phase; within a phase the workers run one after the other. *)

From S2P Require Import Prelude Common Effects CppStrings RandAlgo BlockSizeMix OffsetGen AnyGen PathStore.
From S2P Require Import LatencyHistogram LiveOps Journal RWLoop FileTk FileIter FileIterSafety PhaseWork.
From S2P Require Import PosixFs DirNames DirLifecycle PhaseWorkSafety.
From Stdlib Require String.
From stdpp Require Import gmap.

#[local] Open Scope list_scope.
#[local] Open Scope Z_scope.

(** ** Definitions *)

(** The arguments in a given phase: [workersSharedData->currentBenchPhase] is the phase of all
    workers. *)
Definition at_phase (p : BenchPhase) (w : WorkArgs) : WorkArgs :=
  let a := wa_iter w in
  let g := wa_gen w in
  mkWorkArgs
    (mkIterArgs (fa_workerRank a) (fa_rankOffset a) p p (fa_numDirs a) (fa_numFiles a) (fa_fileSize a)
      (fa_fileOffset a) (fa_blockSize a) (fa_numDataSetThreads a) (fa_pathFDs a) (fa_benchPaths a) (fa_doDirSharing a)
      (fa_ignoreDelErrors a) (fa_numRWMixReadThreads a) (fa_useMmap a) (fa_doStatInline a) (fa_doTruncate a) (fa_useDirectIO a)
      (fa_doTruncToSize a) (fa_doPreallocFile a) (fa_fadviseFlags a) (fa_madviseFlags a) (fa_runCreateDirsPhase a)
      (fa_isServicePathShared a) (fa_journalEnabled a) (fa_customTreeDirs a) (fa_workerTreeDirs a) (fa_workerTreeFiles a))
    (mkGenArgs (ga_benchPathType g) (ga_benchMode g) p p (ga_blockSize g) (ga_blockSizeMix g) (ga_isBlockSizeMixDefined g)
      (ga_fileSize g) (ga_randomAmount g) (ga_numDataSetThreads g) (ga_workerRank g) (ga_doReverseSeqOffsets g)
      (ga_useRandomOffsets g) (ga_useStridedAccess g) (ga_useRandomUnaligned g) (ga_randOffsetAlgo g))
    (wa_pathType w) (wa_mode w) (wa_treeFilePath w) (wa_doInfiniteIOLoop w).

(** The directories of a worker; without subdirectories it creates none. *)
Definition own_dirs (a : IterArgs) : list fs_key := if fa_numDirs a =? 0 then [] else rank_keys a ++ dir_keys a.

(** ** Entries of different workers *)

Lemma at_phase_ok p w : iter_ok (wa_iter w) -> iter_ok (wa_iter (at_phase p w)).
Proof. intros []. by constructor. Qed.

Lemma elem_of_own_dirs a k : k ∈ own_dirs a <-> fa_numDirs a <> 0 /\ (k ∈ rank_keys a \/ k ∈ dir_keys a).
Proof.
  unfold own_dirs. destruct (Z.eqb_spec (fa_numDirs a) 0) as [H|H]; [|rewrite elem_of_app; tauto].
  split; [by intros ?%elem_of_nil|by intros [? _]].
Qed.

(** A directory of a worker is a rank directory, or it is in one. *)
Lemma own_dir_parent a k : iter_ok a -> k ∈ own_dirs a ->
  parent_path k.2 = "" \/ (parent_path k.2 = rank_dir (workerDirRank a) /\ (k.1, rank_dir (workerDirRank a)) ∈ rank_keys a).
Proof.
  intros Hok [_ [Hk|(d & -> & Hd)%elem_of_dir_keys]]%elem_of_own_dirs; [left; by apply (rank_key_parent a Hok)|right].
  by apply dir_key_parent.
Qed.

(** A file of a worker is in one of its directories, or in the benchmark path. *)
Lemma own_file_parent a k : iter_ok a -> k ∈ file_keys a ->
  if haveSubdirs a then (k.1, parent_path k.2) ∈ dir_keys a /\ exists d f, k = file_key a d f /\ 0 <= d < fa_numDirs a /\ 0 <= f < fa_numFiles a
  else parent_path k.2 = "" /\ exists f, k.2 = file_name (fa_workerRank a) f /\ 0 <= f < fa_numFiles a.
Proof.
  intros Hok (d & f & -> & Hd & Hf)%elem_of_file_keys. pose proof (file_key_parent a Hok d f Hd ltac:(lia)) as Hp.
  unfold num_file_dirs in Hd. destruct (haveSubdirs a) eqn:Hs.
  - destruct Hp as [-> Hp]. split; [done|]. by exists d, f.
  - split; [done|]. exists f. unfold file_key, file_path. by rewrite Hs.
Qed.

Lemma sub_dir_nonempty r d : sub_dir r d <> "".
Proof. done. Qed.

Lemma dirs_files_disjoint a b k : iter_ok a -> iter_ok b -> k ∈ own_dirs a -> k ∉ file_keys b.
Proof.
  intros Ha Hb Hk Hf. pose proof (own_file_parent b k Hb Hf) as Hp. pose proof (own_dir_parent a k Ha Hk) as Hd.
  pose proof (dir_rank_range a Ha) as Hra. pose proof (io_rank b Hb) as Hrb. destruct (haveSubdirs b).
  - destruct Hp as [(d & [= _ Hp] & Hd0)%elem_of_dir_keys _]. destruct Hd as [Hd|[Hd _]]; rewrite Hd in Hp; [done|].
    apply (f_equal parent_path) in Hp. rewrite parent_rank_dir, parent_sub_dir in Hp; [done|..]; pose proof (dir_rank_range b Hb); lia.
  - destruct Hp as [Hp (f & Hf' & _)]. apply elem_of_own_dirs in Hk as [_ [[_ Hk]%elem_of_rank_keys|(d & -> & Hd0)%elem_of_dir_keys]].
    + rewrite Hf' in Hk. apply (rank_dir_not_file (workerDirRank a) (fa_workerRank b) f); [lia|lia|done].
    + by rewrite (proj1 (dir_key_parent a Ha d Hd0)) in Hp.
Qed.

Lemma files_of_ranks_disjoint a b k : iter_ok a -> iter_ok b -> fa_workerRank a <> fa_workerRank b -> k ∈ file_keys a -> k ∉ file_keys b.
Proof.
  intros Ha Hb Hne Hka Hkb. pose proof (own_file_parent a k Ha Hka) as Hpa. pose proof (own_file_parent b k Hb Hkb) as Hpb.
  pose proof (dir_rank_range a Ha). pose proof (dir_rank_range b Hb). destruct Ha, Hb.
  destruct (haveSubdirs a) eqn:Hsa, (haveSubdirs b) eqn:Hsb.
  - destruct Hpa as (_ & d & f & -> & Hd & Hf), Hpb as (_ & d' & f' & Heq%(f_equal snd) & Hd' & Hf').
    cbn [snd file_key] in Heq. unfold file_path in Heq. rewrite Hsa, Hsb in Heq. apply sub_file_inj in Heq as [_ [? _]]; [done|lia..].
  - destruct Hpa as [(d & [= _ Hp] & _)%elem_of_dir_keys _], Hpb as [Hpb _]. by rewrite Hpb in Hp.
  - destruct Hpb as [(d & [= _ Hp] & _)%elem_of_dir_keys _], Hpa as [Hpa _]. by rewrite Hpa in Hp.
  - destruct Hpa as (_ & f & Hfa & Hf), Hpb as (_ & f' & Hfb & Hf'). rewrite Hfa in Hfb. apply file_name_inj in Hfb as [? _]; [done|lia..].
Qed.

Lemma dirs_of_ranks_disjoint a b k : iter_ok a -> iter_ok b -> workerDirRank a <> workerDirRank b -> k ∈ own_dirs a -> k ∉ own_dirs b.
Proof.
  intros Ha Hb Hne Hka Hkb. pose proof (dir_rank_range a Ha) as Hra. pose proof (dir_rank_range b Hb) as Hrb.
  apply elem_of_own_dirs in Hka as [_ [Hka|(d & -> & Hd)%elem_of_dir_keys]],
    Hkb as [_ [Hkb|(d' & Heq & Hd')%elem_of_dir_keys]].
  - apply elem_of_rank_keys in Hka as [_ Hka], Hkb as [_ Hkb]. rewrite Hka in Hkb. by apply rank_dir_inj in Hkb.
  - subst k. apply (rank_key_parent a Ha) in Hka. by rewrite (proj1 (dir_key_parent b Hb d' Hd')) in Hka.
  - apply (rank_key_parent b Hb) in Hkb. by rewrite (proj1 (dir_key_parent a Ha d Hd)) in Hkb.
  - apply (f_equal snd) in Heq. cbn [snd dir_key] in Heq. destruct Ha, Hb. apply sub_dir_inj in Heq as [? _]; [done|lia..].
Qed.

Section run.
Context {R D W : Type} {HR : RandAlgo R} {HD : RandAlgo D} (os : Os W) {HO : OsLaws os} {HF : FsLaws os}.
#[local] Abbreviation state := (IterState R D AnyGen W).
#[local] Abbreviation rwst := (RWState (R := R) (D := D) (G := AnyGen) (W := W)).
Context (engine : list Z -> eff rwst Z).

(** A phase: the workers share the file system [w]. *)
Fixpoint run_workers (p : BenchPhase) (ws : list (WorkArgs * state)) (w : W) : option (list (WorkArgs * state) * W) :=
  match ws with
  | [] => Some ([], w)
  | (x, s) :: ws =>
      match worker_phase os engine 0 0 (at_phase p x) (put_it_world w s) with
      | Some (Ok _, s') => '(ws', w') ← run_workers p ws (it_world s'); Some ((x, s') :: ws', w')
      | _ => None
      end
  end.

(** A worker in directory mode on POSIX, with generated names, its own directories and no infinite
    loop. *)
Record work_ok (total : Z) (w : WorkArgs) : Prop := {
  wo_iter : iter_ok (wa_iter w);
  wo_type : wa_pathType w = BenchPathType_DIR;
  wo_mode : wa_mode w = BenchMode_POSIX;
  wo_tree : wa_treeFilePath w = "";
  wo_loop : wa_doInfiniteIOLoop w = false;
  wo_own : fa_doDirSharing (wa_iter w) = false;
  wo_size : fa_fileSize (wa_iter w) = total;
  wo_gsize : ga_fileSize (wa_gen w) = total;
  wo_gtype : ga_benchPathType (wa_gen w) = BenchPathType_DIR;
  wo_mix : mix_ok (ga_blockSizeMix (wa_gen w));
  wo_max : maxSize (ga_blockSizeMix (wa_gen w)) = ga_blockSize (wa_gen w);
  wo_random : ga_useRandomOffsets (wa_gen w) || ga_useStridedAccess (wa_gen w) = true -> ga_blockSize (wa_gen w) <= total;
}.

(** Between phases. *)
Definition idle (s : state) : Prop := env_ok (rw_env (it_rw s)) /\ it_mmap s = None /\ 0 <= entries s < TWO64.

Lemma ready_idle total s : ready total s -> idle s.
Proof. intros ((_ & He & _) & Hm & Hn). done. Qed.

#[local] Abbreviation any := (fun _ _ => True).

(** Everything of a pass but the routine of the phase. *)
Lemma does_phase total p w s t n :
  work_ok total w -> 0 <= total < 2 ^ 63 -> idle s ->
  (forall s1, it_tree os s1 = it_tree os s -> ready total s1 ->
     does os total (run_routine os engine 0 (at_phase p w) (wa_iter (at_phase p w)) (phase_routine (at_phase p w) p)) s1 t n any) ->
  does os total (worker_phase os engine 0 0 (at_phase p w)) s t n any.
Proof.
  intros Hw Htot (He & Hm & Hn) Hrun. unfold worker_phase. rewrite (wo_loop _ _ Hw : wa_doInfiniteIOLoop (at_phase p w) = false).
  cbn [andb]. eapply does_bind_last with (t1 := t) (P := any).
  2: { intros [] s1 _ <- Hr1. apply wpt_bind, wpt_get. cbn [post]. by apply does_ret. }
  unfold worker_pass. apply wpt_bind, wpt_modify. cbn [post].
  assert (initThreadPhaseVars (wa_iter (at_phase p w)) = p) as Hph.
  { unfold initThreadPhaseVars. by rewrite no_rwmix_reader by apply (io_rwmix _ (wo_iter _ _ Hw)). }
  rewrite Hph. change (set_benchPhase p (wa_iter (at_phase p w))) with (wa_iter (at_phase p w)).
  change (fa_globalBenchPhase (wa_iter (at_phase p w))) with p.
  set (s0 := initPhaseFileHandleVecs (at_phase p w) s).
  assert (rw_env (it_rw s0) = rw_env (it_rw s) /\ it_mmap s0 = None /\ entries s0 = entries s /\ it_tree os s0 = it_tree os s) as (He0 & Hm0 & Hn0 & Ht0).
  { unfold s0, initPhaseFileHandleVecs. by destruct (_ || _). }
  clearbody s0. rewrite <- He0 in He.
  destruct (initPhaseRWOffsetGen_ok (wa_gen (at_phase p w)) (rw_env (it_rw s0))) as (g & e & Hg & Hi & He' & Ht);
    [apply Hw|apply Hw|done|apply Hw|cbn; by rewrite (wo_gsize _ _ Hw)|cbn; rewrite (wo_gsize _ _ Hw); apply Hw|].
  set (s1 := upd_it_rw (fun rw => set_gen rw g e) s0).
  apply wpt_bind. exists (Ok tt), s1. unfold choose_gen. rewrite Hg. split; [done|]. cbn [post].
  assert (ready total s1) as Hr1.
  { split; [|split; [done|]]; [split; [done|split; [done|]]|].
    - transitivity (ga_fileSize (wa_gen (at_phase p w))); [exact Ht|apply Hw].
    - change (entries s1) with (entries s0). by rewrite Hn0. }
  assert (it_tree os s1 = it_tree os s) as Ht1 by done. assert (entries s1 = entries s) as Hn1 by done.
  rewrite <- Hn1. clearbody s1. eapply does_bind_last; [by apply Hrun|]. intros [] s2 _ <- Hr2. by apply does_check.
Qed.
(** *** All workers in one phase *)

(** The workers after a phase in which each counted [n] entries. *)
Definition workers_after (n : WorkArgs -> Z) (ws ws' : list (WorkArgs * state)) : Prop :=
  Forall2 (fun x x' => x'.1 = x.1 /\ idle x'.2 /\ entries x'.2 = u64 (entries x.2 + n x.1)) ws ws'.

Lemma run_workers_spec (total : Z) (p : BenchPhase) (f : IterArgs -> fs_map -> fs_map) (n : WorkArgs -> Z)
    (ws : list (WorkArgs * state)) (w : W) t0 :
  fs_tree w = t0 -> Forall (fun x => idle x.2) ws ->
  (forall pre x suf s, ws = pre ++ x :: suf -> idle s -> it_tree os s = foldl (fun t y => f (wa_iter y.1) t) t0 pre ->
     does os total (worker_phase os engine 0 0 (at_phase p x.1)) s (f (wa_iter x.1) (it_tree os s)) (n x.1) any) ->
  exists ws' w', run_workers p ws w = Some (ws', w') /\ fs_tree w' = foldl (fun t y => f (wa_iter y.1) t) t0 ws
    /\ workers_after n ws ws'.
Proof.
  revert w t0. induction ws as [|[x s] ws IH]; intros w t0 Hw Hidle Hd; [exists [], w; split; [done|]; split; [done|constructor]|].
  apply Forall_cons in Hidle as [Hs Hidle]. cbn [fst snd] in Hs.
  destruct (Hd [] (x, s) ws (put_it_world w s)) as ([[]|e] & s' & Hrun & H); [done|done|exact Hw| |done].
  cbn [post fst] in *. destruct H as (_ & Ht & Hn & Hr).
  destruct (IH (it_world s') (f (wa_iter x) t0)) as (ws' & w' & Hws & Htw & Haft).
  { rewrite <- Hw. exact Ht. } { done. }
  { intros pre y suf s1 Hl Hi1 Ht1. apply (Hd ((x, s) :: pre) y suf); [by rewrite Hl|done|done]. }
  exists ((x, s') :: ws'), w'. cbn [run_workers]. rewrite Hrun, Hws. split; [done|]. split; [done|].
  constructor; [|done]. cbn. split; [done|]. split; [by eapply ready_idle|done].
Qed.

(** Keys of all workers. *)
Definition all_keys (own : IterArgs -> list fs_key) (xs : list WorkArgs) : list fs_key := x ← xs; own (wa_iter x).

Lemma elem_of_all_keys own xs k : k ∈ all_keys own xs <-> exists x, x ∈ xs /\ k ∈ own (wa_iter x).
Proof. unfold all_keys. rewrite list_elem_of_bind. split; intros (x & H1 & H2); by exists x. Qed.

Lemma foldl_mark v own (ws : list (WorkArgs * state)) (t : fs_map) :
  foldl (fun t y => fs_mark v (own (wa_iter y.1)) t) t ws = fs_mark v (all_keys own ws.*1) t.
Proof.
  revert t. induction ws as [|x ws IH]; intros t; [done|]. cbn [foldl]. rewrite IH. unfold all_keys.
  by rewrite fmap_cons, bind_cons, fs_mark_app.
Qed.

Lemma foldl_unmark own (ws : list (WorkArgs * state)) (t : fs_map) :
  foldl (fun t y => fs_unmark (own (wa_iter y.1)) t) t ws = fs_unmark (all_keys own ws.*1) t.
Proof.
  revert t. induction ws as [|x ws IH]; intros t; [done|]. cbn [foldl]. rewrite IH. unfold all_keys.
  by rewrite fmap_cons, bind_cons, fs_unmark_app.
Qed.

(** Workers of different ranks. *)
Definition workers_ok (total : Z) (xs : list WorkArgs) : Prop :=
  0 <= total < 2 ^ 63 /\ Forall (work_ok total) xs /\ NoDup ((fun x => fa_workerRank (wa_iter x)) <$> xs).

Lemma workers_ok_elem total xs x : workers_ok total xs -> x ∈ xs -> work_ok total x /\ iter_ok (wa_iter x).
Proof. intros (_ & Hall & _) Hx. rewrite Forall_forall in Hall. specialize (Hall x Hx). split; [done|apply Hall]. Qed.

Lemma workers_ok_split total pre x suf : workers_ok total (pre ++ x :: suf) ->
  work_ok total x /\ (forall y, y ∈ pre -> work_ok total y /\ fa_workerRank (wa_iter y) <> fa_workerRank (wa_iter x)).
Proof.
  intros H. pose proof H as (_ & _ & Hnd). split; [apply (workers_ok_elem _ _ _ H), elem_of_app; right; by left|].
  intros y Hy. split; [apply (workers_ok_elem _ _ _ H), elem_of_app; by left|].
  rewrite fmap_app, fmap_cons in Hnd. apply NoDup_app in Hnd as (_ & Hd & _). intros Heq.
  apply (Hd (fa_workerRank (wa_iter y))); [apply list_elem_of_fmap; by exists y|]. rewrite Heq. by left.
Qed.

Lemma fst_split (ws pre suf : list (WorkArgs * state)) x : ws = pre ++ x :: suf -> ws.*1 = pre.*1 ++ x.1 :: suf.*1.
Proof. intros ->. by rewrite fmap_app. Qed.

Lemma own_dir_rank total x : work_ok total x -> workerDirRank (wa_iter x) = fa_workerRank (wa_iter x).
Proof. intros H. unfold workerDirRank. by rewrite (wo_own _ _ H). Qed.

(** The routine of a phase. *)
Lemma routine_dirs total p x : work_ok total x -> p = BenchPhase_CREATEDIRS \/ p = BenchPhase_DELETEDIRS ->
  phase_routine (at_phase p x) p = Call_dirModeIterateDirs.
Proof.
  intros [] Hp. unfold phase_routine. cbn [at_phase wa_pathType wa_mode wa_treeFilePath]. rewrite wo_type0, wo_mode0, wo_tree0.
  by destruct Hp as [->| ->].
Qed.

Lemma routine_files total p x : work_ok total x -> file_phase p -> phase_routine (at_phase p x) p = Call_dirModeIterateFiles.
Proof.
  intros [] Hp. unfold phase_routine, dir_files. cbn [at_phase wa_pathType wa_mode wa_treeFilePath].
  rewrite wo_type0, wo_mode0, wo_tree0. by destruct Hp as [->|[->|[->| ->]]].
Qed.

(** *** The phases *)

(** Entries that count for a directory phase and for a file phase. *)
Definition dirs_count (x : WorkArgs) : Z := fa_numDirs (wa_iter x).
Definition files_count (x : WorkArgs) : Z := num_file_dirs (wa_iter x) * fa_numFiles (wa_iter x).

Lemma phase_mkdirs total ws w :
  workers_ok total ws.*1 -> Forall (fun x => idle x.2) ws ->
  (forall k, k ∈ all_keys own_dirs ws.*1 -> fs_tree w !! k = None) ->
  exists ws' w', run_workers BenchPhase_CREATEDIRS ws w = Some (ws', w')
    /\ fs_tree w' = fs_mark FS_dir (all_keys own_dirs ws.*1) (fs_tree w) /\ workers_after dirs_count ws ws'.
Proof.
  intros Hok Hidle Hfree. rewrite <- foldl_mark.
  apply (run_workers_spec total _ (fun a => fs_mark FS_dir (own_dirs a)) dirs_count); [done|done|].
  intros pre x suf s Hl Hs Ht. rewrite foldl_mark in Ht. apply fst_split in Hl. rewrite Hl in Hok.
  destruct (workers_ok_split _ _ _ _ Hok) as [Hx Hpre]. pose proof Hok as (Htot & _).
  apply does_phase; [done|done|done|]. intros s1 Ht1 Hr1. rewrite <- Ht1 in Ht |- *. rewrite (routine_dirs total) by auto.
  cbn [run_routine]. unfold own_dirs, dirs_count. destruct (Z.eqb_spec (fa_numDirs (wa_iter x.1)) 0) as [H0|H0].
  { unfold dirModeIterateDirs. rewrite (proj2 (Z.eqb_eq _ _)) by done. cbn [fs_mark foldl]. rewrite H0. by apply does_ret. }
  pose proof (io_dirs _ (wo_iter _ _ Hx)).
  apply (does_create_dirs os total (wa_iter (at_phase BenchPhase_CREATEDIRS x.1))); [apply at_phase_ok, Hx|done|cbn; lia|done|].
  intros k Hk. rewrite Ht, lookup_fs_mark. case_decide; [done|]. rewrite Hfree; [done|]. apply elem_of_all_keys. exists x.1.
  rewrite Hl. split; [apply elem_of_app; right; by left|]. apply elem_of_own_dirs. split; [done|]. by apply elem_of_app.
Qed.

Lemma foldl_files p (ws : list (WorkArgs * state)) (t : fs_map) :
  foldl (fun t y => files_effect p (file_keys (wa_iter y.1)) t) t ws = files_effect p (all_keys file_keys ws.*1) t.
Proof.
  revert t. induction ws as [|x ws IH]; intros t; [done|]. cbn [foldl]. rewrite IH. unfold all_keys.
  by rewrite fmap_cons, bind_cons, files_effect_app.
Qed.

(** A phase over the files of all workers that finds each file as it needs it. *)
Lemma phase_files total p ws w :
  engine_transfers os total engine -> workers_ok total ws.*1 -> Forall (fun x => idle x.2) ws -> file_phase p ->
  (forall pre k suf, all_keys file_keys ws.*1 = pre ++ k :: suf -> file_pre p k (files_effect p pre (fs_tree w))) ->
  exists ws' w', run_workers p ws w = Some (ws', w')
    /\ fs_tree w' = files_effect p (all_keys file_keys ws.*1) (fs_tree w) /\ workers_after files_count ws ws'.
Proof.
  intros He Hok Hidle Hp Hpre. rewrite <- foldl_files.
  apply (run_workers_spec total _ (fun a => files_effect p (file_keys a)) files_count); [done|done|].
  intros pre x suf s Hl Hs Ht. rewrite foldl_files in Ht. apply fst_split in Hl.
  assert (work_ok total x.1) as Hx by (rewrite Hl in Hok; by apply workers_ok_split in Hok as [Hx _]). pose proof Hok as (Htot & _).
  apply does_phase; [done|done|done|]. intros s1 Ht1 Hr1. rewrite <- Ht1 in Ht |- *. rewrite (routine_files total) by done.
  cbn [run_routine]. apply (does_files os total engine (wa_iter (at_phase p x.1))); [apply at_phase_ok, Hx|apply Hx|done|done|done|].
  intros fpre k fsuf Hk. rewrite Ht, <- files_effect_app. cbn [at_phase wa_iter fa_benchPhase].
  apply Hpre with (suf := fsuf ++ all_keys file_keys suf.*1). rewrite Hl. unfold all_keys at 1. rewrite bind_app, bind_cons.
  change (file_keys (wa_iter (at_phase p x.1))) with (file_keys (wa_iter x.1)) in Hk. rewrite Hk. unfold all_keys.
  by rewrite <- !app_assoc.
Qed.

(** *** The whole run *)

Lemma all_files_nodup total xs : workers_ok total xs -> NoDup (all_keys file_keys xs).
Proof.
  intros (_ & Hall & Hnd). unfold all_keys. induction xs as [|x xs IH]; [constructor|].
  rewrite fmap_cons in Hnd. apply NoDup_cons in Hnd as [Hx Hnd]. apply Forall_cons in Hall as [Hok Hall]. rewrite bind_cons.
  apply NoDup_app. split; [apply file_keys_nodup, Hok|]. split; [|by apply IH].
  intros k Hk (y & Hky & Hy)%list_elem_of_bind. rewrite Forall_forall in Hall.
  apply (files_of_ranks_disjoint (wa_iter x) (wa_iter y) k); [apply Hok|apply Hall, Hy| |done|done].
  intros Heq. apply Hx. rewrite Heq. apply list_elem_of_fmap. by exists y.
Qed.

Lemma dir_not_file total xs k : workers_ok total xs -> k ∈ all_keys own_dirs xs -> k ∉ all_keys file_keys xs.
Proof.
  intros Hok (x & Hx & Hk)%elem_of_all_keys (y & Hy & Hky)%elem_of_all_keys.
  apply (dirs_files_disjoint (wa_iter x) (wa_iter y) k); try done; by apply (workers_ok_elem total xs).
Qed.

(** Every entry is in a directory. *)
Definition fs_wf (t : fs_map) : Prop := forall k v, t !! k = Some v -> k.2 <> "" -> parent_dir t k.

(** What is not in the tree has no entries below. *)
Lemma fs_wf_empty t k : fs_wf t -> k.2 <> "" -> t !! k = None -> dir_empty t k.
Proof.
  intros Hwf Hk Hn q Hq Hne. destruct (t !! (k.1, q)) as [v|] eqn:E; [|done]. exfalso.
  destruct (Hwf _ _ E) as [H|H]; cbn in *; [done|congruence|]. rewrite Hq, <- surjective_pairing in H. congruence.
Qed.

(** Where the files of the workers are to be created. *)
Lemma file_parent_marked total xs t k : workers_ok total xs -> k ∈ all_keys file_keys xs ->
  parent_dir (fs_mark FS_dir (all_keys own_dirs xs) t) k.
Proof.
  intros Hok (x & Hx & Hk)%elem_of_all_keys. destruct (workers_ok_elem _ _ _ Hok Hx) as [Hw Hi].
  pose proof (own_file_parent _ _ Hi Hk) as Hp. destruct (haveSubdirs (wa_iter x)) eqn:Hs; [right|left; apply Hp].
  destruct Hp as [Hp _]. rewrite lookup_fs_mark, decide_True; [done|]. apply elem_of_all_keys. exists x. split; [done|].
  apply elem_of_own_dirs. split; [|by right]. unfold haveSubdirs in Hs. lia.
Qed.

(** Deleted in the other order. *)
Definition own_dirs_rev (a : IterArgs) : list fs_key := if fa_numDirs a =? 0 then [] else dir_keys a ++ rank_keys a.

Lemma elem_of_own_dirs_rev a k : k ∈ own_dirs_rev a <-> k ∈ own_dirs a.
Proof. unfold own_dirs_rev, own_dirs. destruct (_ =? 0); [done|]. rewrite !elem_of_app. tauto. Qed.

Lemma elem_of_all_rev xs k : k ∈ all_keys own_dirs_rev xs <-> k ∈ all_keys own_dirs xs.
Proof. rewrite !elem_of_all_keys. by setoid_rewrite elem_of_own_dirs_rev. Qed.

Lemma same_rank_same total xs x y : workers_ok total xs -> x ∈ xs -> y ∈ xs ->
  fa_workerRank (wa_iter x) = fa_workerRank (wa_iter y) -> x = y.
Proof.
  intros (_ & _ & Hnd) [i Hi]%list_elem_of_lookup [j Hj]%list_elem_of_lookup Heq.
  assert (i = j) as ->; [|congruence].
  apply (NoDup_lookup _ i j (fa_workerRank (wa_iter x)) Hnd); rewrite list_lookup_fmap; [by rewrite Hi|rewrite Hj; cbn; congruence].
Qed.

Section rmdirs.
Context (total : Z) (xs : list WorkArgs) (Hok : workers_ok total xs) (t : fs_map) (Hwf : fs_wf t).
Context (Hfree : forall k, k ∈ all_keys own_dirs xs -> t !! k = None).
#[local] Abbreviation marked := (fs_mark FS_dir (all_keys own_dirs xs) t).

(** A directory of a worker holds no directories. *)
Lemma marked_dir_empty x k : x ∈ xs -> fa_numDirs (wa_iter x) <> 0 -> k ∈ dir_keys (wa_iter x) -> dir_empty marked k.
Proof.
  intros Hx Hn Hk q Hq Hne. destruct (workers_ok_elem _ _ _ Hok Hx) as [Hw Hi]. rewrite lookup_fs_mark. case_decide as Hin.
  - exfalso. apply elem_of_all_keys in Hin as (y & Hy & Hky). destruct (workers_ok_elem _ _ _ Hok Hy) as [_ Hiy].
    apply elem_of_dir_keys in Hk as (d & -> & Hd). pose proof (dir_key_parent _ Hi d Hd) as [Hp _].
    pose proof (dir_rank_range _ Hiy) as Hry. destruct (own_dir_parent _ _ Hiy Hky) as [H|[H _]]; cbn [snd] in H; rewrite Hq in H; [done|].
    apply (f_equal parent_path) in H. rewrite Hp, parent_rank_dir in H; [done|lia].
  - apply (fs_wf_empty t k); try done; [by apply elem_of_dir_keys in Hk as (d & -> & _)|].
    apply Hfree, elem_of_all_keys. exists x. split; [done|]. apply elem_of_own_dirs. split; [done|]. by right.
Qed.

(** A rank directory holds the directories of its worker only. *)
Lemma marked_rank_empty x k : x ∈ xs -> fa_numDirs (wa_iter x) <> 0 -> k ∈ rank_keys (wa_iter x) ->
  dir_empty (fs_unmark (dir_keys (wa_iter x)) marked) k.
Proof.
  intros Hx Hn Hk q Hq Hne. destruct (workers_ok_elem _ _ _ Hok Hx) as [Hw Hi].
  rewrite lookup_fs_unmark. case_decide as Hind; [done|]. rewrite lookup_fs_mark. case_decide as Hin.
  - exfalso. apply elem_of_all_keys in Hin as (y & Hy & Hky). destruct (workers_ok_elem _ _ _ Hok Hy) as [Hwy Hiy].
    pose proof (dir_rank_range _ Hiy) as Hry. pose proof (dir_rank_range _ Hi) as Hrx.
    pose proof (proj2 (proj1 (elem_of_rank_keys _ _) Hk)) as Hk2. destruct (own_dir_parent _ _ Hiy Hky) as [H|[H _]]; cbn [snd] in H;
      rewrite Hq, Hk2 in H; [done|]. apply rank_dir_inj in H; [|lia..]. rewrite (own_dir_rank total x), (own_dir_rank total y) in H by done.
    rewrite (same_rank_same _ _ _ _ Hok Hx Hy H) in Hind, Hk2. apply elem_of_own_dirs in Hky as [_ [Hky|Hky]]; [|done].
    apply (rank_key_parent _ Hiy) in Hky. cbn [snd] in Hky. by rewrite Hq, Hk2 in Hky.
  - apply (fs_wf_empty t k); try done; [by apply elem_of_rank_keys in Hk as [_ ->]|].
    apply Hfree, elem_of_all_keys. exists x. split; [done|]. apply elem_of_own_dirs. split; [done|]. by left.
Qed.
End rmdirs.

Lemma phase_rmdirs total ws w t :
  workers_ok total ws.*1 -> Forall (fun x => idle x.2) ws -> fs_wf t ->
  (forall k, k ∈ all_keys own_dirs ws.*1 -> t !! k = None) -> fs_tree w = fs_mark FS_dir (all_keys own_dirs ws.*1) t ->
  exists ws' w', run_workers BenchPhase_DELETEDIRS ws w = Some (ws', w') /\ fs_tree w' = t /\ workers_after dirs_count ws ws'.
Proof.
  intros Hok Hidle Hwf Hfree Hw. assert (fs_unmark (all_keys own_dirs_rev ws.*1) (fs_tree w) = t) as Hend.
  { apply map_eq. intros k. rewrite Hw, lookup_fs_unmark, lookup_fs_mark. case_decide as H; rewrite elem_of_all_rev in H; [by rewrite Hfree|].
    by rewrite decide_False. }
  destruct (run_workers_spec total BenchPhase_DELETEDIRS (fun a => fs_unmark (own_dirs_rev a)) dirs_count ws w (fs_tree w))
    as (ws' & w' & H1 & H2 & H3); [done|done| |exists ws', w'; rewrite foldl_unmark, Hend in H2; done].
  intros pre x suf s Hl Hs Ht. rewrite foldl_unmark in Ht. apply fst_split in Hl.
  assert (x.1 ∈ ws.*1) as Hin by (rewrite Hl; apply elem_of_app; right; by left).
  destruct (workers_ok_elem _ _ _ Hok Hin) as [Hx Hi]. pose proof Hok as (Htot & _).
  apply does_phase; [done|done|done|]. intros s1 Ht1 Hr1. rewrite <- Ht1 in Ht |- *. rewrite (routine_dirs total) by auto.
  cbn [run_routine]. unfold own_dirs_rev at 1, dirs_count. destruct (Z.eqb_spec (fa_numDirs (wa_iter x.1)) 0) as [H0|H0].
  { unfold dirModeIterateDirs. rewrite (proj2 (Z.eqb_eq _ _)) by done. cbn [fs_unmark foldl]. rewrite H0. by apply does_ret. }
  pose proof (io_dirs _ Hi). rewrite Hw in Ht.
  apply (does_delete_dirs os total (wa_iter (at_phase BenchPhase_DELETEDIRS x.1))); [by apply at_phase_ok|done|cbn; lia|done|..]; rewrite Ht.
  - intros k Hk. assert (k ∈ own_dirs (wa_iter x.1)) as Hko by (apply elem_of_own_dirs; split; [done|by apply elem_of_app]).
    rewrite lookup_fs_unmark, decide_False, lookup_fs_mark, decide_True; [done|apply elem_of_all_keys; by exists x.1|].
    intros (y & Hy & Hky)%elem_of_all_rev%elem_of_all_keys. rewrite Hl in Hok. destruct (workers_ok_split _ _ _ _ Hok) as [_ Hpre].
    destruct (Hpre y Hy) as [Hwy Hne]. apply (dirs_of_ranks_disjoint (wa_iter y) (wa_iter x.1) k); [apply Hwy|done| |done|done].
    rewrite (own_dir_rank total y), (own_dir_rank total x.1) by done. done.
  - intros k Hk. apply dir_empty_unmark. by apply (marked_dir_empty total _ Hok t Hwf Hfree x.1).
  - intros k Hk q Hq Hne. pose proof (marked_rank_empty total _ Hok t Hwf Hfree x.1 k Hin H0 Hk q Hq Hne) as Hm.
    change (dir_keys (wa_iter (at_phase BenchPhase_DELETEDIRS x.1))) with (dir_keys (wa_iter x.1)). revert Hm.
    rewrite !(lookup_fs_unmark (dir_keys _)). case_decide; [done|]. intros Hm. rewrite lookup_fs_unmark. by case_decide.
Qed.

(** Consecutive phases; the workers and the system after each of them. *)
Fixpoint run_phases (ps : list BenchPhase) (ws : list (WorkArgs * state)) (w : W) : option (list (list (WorkArgs * state) * W)) :=
  match ps with
  | [] => Some []
  | p :: ps => '(ws', w') ← run_workers p ws w; tr ← run_phases ps ws' w'; Some ((ws', w') :: tr)
  end.

Lemma workers_after_fst n ws ws' : workers_after n ws ws' -> ws'.*1 = ws.*1 /\ Forall (fun x => idle x.2) ws'.
Proof.
  induction 1 as [|x x' ws ws' (H1 & H2 & _) Hall [IH1 IH2]]; [done|]. split; [by rewrite !fmap_cons, H1, IH1|by constructor].
Qed.

Lemma workers_after_trans n m ws ws1 ws2 : workers_after n ws ws1 -> workers_after m ws1 ws2 ->
  workers_after (fun x => n x + m x) ws ws2.
Proof.
  intros H. revert ws2. induction H as [|x x1 ws ws1 (H1 & H2 & H3) Hall IH]; intros ws2 Hm; inversion Hm as [|? x2 ? ws2' (H4 & H5 & H6) Hall2];
    subst; constructor; [|by apply IH]. split; [congruence|]. split; [done|]. rewrite H6, H3, H1. autorewrite with machine. f_equal. lia.
Qed.

(** Files that are there stay when they are written, read or looked at. *)
Lemma mark_present v ks t : (forall k, k ∈ ks -> t !! k = Some v) -> fs_mark v ks t = t.
Proof.
  intros H. apply map_eq. intros k. rewrite lookup_fs_mark. case_decide; [by rewrite H|done].
Qed.

Lemma stat_effect ks t : files_effect BenchPhase_STATFILES ks t = t.
Proof. unfold files_effect. induction ks; [done|]. by cbn. Qed.

Lemma unmark_mark v ks t : (forall k, k ∈ ks -> t !! k = None) -> fs_unmark ks (fs_mark v ks t) = t.
Proof.
  intros H. apply map_eq. intros k. rewrite lookup_fs_unmark. case_decide; [by rewrite H|]. by rewrite lookup_fs_mark, decide_False.
Qed.

Section file_phases.
Context (total : Z) (xs : list WorkArgs) (Hok : workers_ok total xs) (t : fs_map).
#[local] Abbreviation t1 := (fs_mark FS_dir (all_keys own_dirs xs) t).
#[local] Abbreviation t2 := (fs_mark FS_file (all_keys file_keys xs) t1).
Context (Hnew : forall k, k ∈ all_keys file_keys xs -> t1 !! k = None).

(** The directory of each file is there, and nothing else has its name. *)
Lemma create_pre pre k suf : all_keys file_keys xs = pre ++ k :: suf ->
  file_pre BenchPhase_CREATEFILES k (files_effect BenchPhase_CREATEFILES pre t1).
Proof.
  intros Hl. assert (k ∈ all_keys file_keys xs) as Hk by (rewrite Hl; apply elem_of_app; right; by left).
  change (files_effect _ pre t1) with (fs_mark FS_file pre t1). split.
  - destruct (file_parent_marked total xs t k Hok Hk) as [H|H]; [by left|right]. rewrite lookup_fs_mark, decide_False; [done|].
    intros Hin. rewrite Hnew in H; [done|]. rewrite Hl. apply elem_of_app. by left.
  - rewrite lookup_fs_mark. case_decide; [done|]. by rewrite Hnew.
Qed.

Lemma present_pre p pre k suf : p = BenchPhase_READFILES \/ p = BenchPhase_STATFILES -> all_keys file_keys xs = pre ++ k :: suf ->
  file_pre p k (files_effect p pre t2).
Proof.
  intros Hp Hl. assert (t2 !! k = Some FS_file) as Hk.
  { rewrite lookup_fs_mark, decide_True; [done|]. rewrite Hl. apply elem_of_app. right. by left. }
  destruct Hp as [->| ->]; [|by rewrite stat_effect].
  change (fs_mark FS_file pre t2 !! k = Some FS_file). rewrite lookup_fs_mark. by case_decide.
Qed.

Lemma delete_pre pre k suf : all_keys file_keys xs = pre ++ k :: suf ->
  file_pre BenchPhase_DELETEFILES k (files_effect BenchPhase_DELETEFILES pre t2).
Proof.
  intros Hl. change (fs_unmark pre t2 !! k = Some FS_file). rewrite lookup_fs_unmark, decide_False.
  - rewrite lookup_fs_mark, decide_True; [done|]. rewrite Hl. apply elem_of_app. right. by left.
  - pose proof (all_files_nodup total xs Hok) as Hnd. rewrite Hl in Hnd. apply NoDup_app in Hnd as (_ & Hd & _).
    intros Hin. apply (Hd k Hin). by left.
Qed.

(** The effect on the whole tree. *)
Lemma all_files_effect :
  files_effect BenchPhase_CREATEFILES (all_keys file_keys xs) t1 = t2
  /\ files_effect BenchPhase_READFILES (all_keys file_keys xs) t2 = t2
  /\ files_effect BenchPhase_DELETEFILES (all_keys file_keys xs) t2 = t1.
Proof.
  split; [done|]. split; [|by apply unmark_mark]. apply mark_present. intros k Hk. by rewrite lookup_fs_mark, decide_True.
Qed.
End file_phases.
End run.


(** Two workers, two benchmark paths, two directories with two files of 8 bytes each. *)
Definition demo_workers : list (WorkArgs * IterState xoshiro_state xoshiro_state AnyGen mem_world) :=
  (fun r => (demo_work r BenchPhase_IDLE 8 false, demo_worker 8 (mkMem ∅ [3; 4] [] 0))) <$> [0; 1].

(** An engine that reports all bytes. *)
Definition demo_engine (fds : list Z) : eff (RWState (R := xoshiro_state) (D := xoshiro_state) (G := AnyGen) (W := mem_world)) Z :=
  mret 8.

Lemma demo_iter_ok r : r = 0 \/ r = 1 -> iter_ok (demo_iter_args r BenchPhase_IDLE 8 false).
Proof.
  intros Hr. constructor; cbn [demo_iter_args fa_workerRank fa_numDirs fa_numFiles fa_pathFDs fa_fileSize fa_fileOffset
    fa_doPreallocFile fa_useMmap fa_numRWMixReadThreads length]; [lia|lia|lia|lia| |lia|lia|lia|reflexivity|reflexivity|..].
  - apply (bool_decide_unpack _). reflexivity.
  - destruct Hr as [->| ->]; vm_compute; lia.
  - intros d Hd. cbn in Hd. assert (d = 0 \/ d = 1) as [->| ->] by lia; destruct Hr as [->| ->]; vm_compute; lia.
  - intros d f Hd Hf. cbn in Hd, Hf. assert (d = 0 \/ d = 1) as Hd' by lia. assert (f = 0 \/ f = 1) as Hf' by lia.
    destruct Hd' as [->| ->], Hf' as [->| ->], Hr as [->| ->]; vm_compute; lia.
Qed.

Lemma demo_mix4_ok : mix_ok (mix_finish [(4, 1)]).
Proof.
  split; [|split; [done|vm_compute; done]]. split; [done|]. split.
  - repeat constructor; vm_compute; done.
  - apply (bool_decide_unpack _). vm_compute. done.
Qed.

Lemma demo_work_ok r : r = 0 \/ r = 1 -> work_ok 8 (demo_work r BenchPhase_IDLE 8 false).
Proof. intros Hr. constructor; try reflexivity; [by apply demo_iter_ok|apply demo_mix4_ok|discriminate]. Qed.

Lemma demo_workers_ok : workers_ok 8 demo_workers.*1.
Proof.
  split; [lia|]. split; [apply Forall_cons; split; [apply demo_work_ok; by left|]; apply Forall_singleton, demo_work_ok; by right|].
  apply (bool_decide_unpack _). reflexivity.
Qed.

Lemma demo_own_dirs : all_keys own_dirs demo_workers.*1
  = [(3, "r0"); (4, "r0"); (3, "r0/d0"); (4, "r0/d1"); (3, "r1"); (4, "r1"); (4, "r1/d0"); (3, "r1/d1")].
Proof. vm_compute. reflexivity. Qed.

Lemma demo_own_files : all_keys file_keys demo_workers.*1
  = [(3, "r0/d0/r0-f0"); (3, "r0/d0/r0-f1"); (4, "r0/d1/r0-f0"); (4, "r0/d1/r0-f1");
     (4, "r1/d0/r1-f0"); (4, "r1/d0/r1-f1"); (3, "r1/d1/r1-f0"); (3, "r1/d1/r1-f1")].
Proof. vm_compute. reflexivity. Qed.


(** ** Shared directories in several benchmark paths *)

(** The two workers above, with directory sharing. *)
Definition shared_work (r : Z) : WorkArgs :=
  let w := demo_work r BenchPhase_IDLE 8 false in
  let a := wa_iter w in
  mkWorkArgs
    (mkIterArgs (fa_workerRank a) (fa_rankOffset a) (fa_benchPhase a) (fa_globalBenchPhase a) (fa_numDirs a) (fa_numFiles a)
      (fa_fileSize a) (fa_fileOffset a) (fa_blockSize a) (fa_numDataSetThreads a) (fa_pathFDs a) (fa_benchPaths a) true
      (fa_ignoreDelErrors a) (fa_numRWMixReadThreads a) (fa_useMmap a) (fa_doStatInline a) (fa_doTruncate a) (fa_useDirectIO a)
      (fa_doTruncToSize a) (fa_doPreallocFile a) (fa_fadviseFlags a) (fa_madviseFlags a) (fa_runCreateDirsPhase a)
      (fa_isServicePathShared a) (fa_journalEnabled a) (fa_customTreeDirs a) (fa_workerTreeDirs a) (fa_workerTreeFiles a))
    (wa_gen w) (wa_pathType w) (wa_mode w) (wa_treeFilePath w) (wa_doInfiniteIOLoop w).

Definition shared_workers : list (WorkArgs * IterState xoshiro_state xoshiro_state AnyGen mem_world) :=
  (fun r => (shared_work r, demo_worker 8 (mkMem ∅ [3; 4] [] 0))) <$> [0; 1].

(** How the first worker's deletion ends after both workers created their directories. *)
Definition shared_deletion : option (result unit) :=
  '(_, w) ← run_workers mem_os demo_engine BenchPhase_CREATEDIRS shared_workers (mkMem ∅ [3; 4] [] 0);
  '(r, _) ← worker_phase mem_os demo_engine 0 0 (at_phase BenchPhase_DELETEDIRS (shared_work 0)) (demo_worker 8 w);
  Some r.

(** The first worker removes its own subdirectories and then the common rank directory of every
    benchmark path.  In the other path that directory still holds the subdirectory of the second
    worker, and [ENOTEMPTY] is not ignored: the deletion phase fails. *)
Lemma shared_dirs_deletion_fails : shared_deletion = Some (Throw (WorkerException "Directory deletion failed. ")).
Proof. vm_compute. reflexivity. Qed.
