(* ===== verification/ProgArgs.v ===== *)
(** The checks of the program arguments that depend on the benchmark paths (ProgArgs.{h,cpp}):
    opening the paths, the detection and the check of their sizes, and
    [checkPathDependentArgs()], which adjusts block size, file size and random amount to one
    another and refuses what the workers could not handle.

    [PathArgs] holds what these functions only read, [SizeArgs] what they also change. *)

From S2P Require Import Prelude Common Effects CppStrings UnitTk RandAlgo BlockSizeMix OffsetGen AnyGen PathStore.
From S2P Require Import Journal JournalStore FileTk.
From Stdlib Require String.

#[local] Open Scope list_scope.
#[local] Open Scope Z_scope.

(** ** Definitions *)

Definition DIRECTIO_MINSIZE : Z := 512.

Record PathArgs : Type := mkPathArgs {
  pa_benchMode : BenchMode;
  pa_benchPathsVec : list string;
  pa_treeFilePath : string;
  pa_runCreateDirsPhase : bool;
  pa_runDeleteDirsPhase : bool;
  pa_runCreateFilesPhase : bool;
  pa_runReadPhase : bool;
  pa_runStatFilesPhase : bool;
  pa_runDeleteFilesPhase : bool;
  pa_runS3ListObjNum : Z;
  pa_runS3Acl : bool;
  pa_s3EndpointsVec : list string;
  pa_s3MpuSizeVariance : Z;
  pa_useS3RandObjSelect : bool;
  pa_doReverseSeqOffsets : bool;
  pa_useRandomOffsets : bool;
  pa_useStridedAccess : bool;
  pa_randOffsetAlgo : string;
  pa_useRWMixPercent : bool;
  pa_useRWMixReadThreads : bool;
  pa_doInfiniteIOLoop : bool;
  pa_useDirectIO : bool;
  pa_noDirectIOCheck : bool;
  pa_doTruncate : bool;
  pa_doTruncToSize : bool;
  pa_doPreallocFile : bool;
  pa_numDirs : Z;
  pa_numFiles : Z;
  pa_numDataSetThreads : Z;
  pa_journalDirStr : string;
  pa_journalBlockSize : Z;
  pa_journalSyncEnabled : bool;
}.

Record SizeArgs : Type := mkSizeArgs {
  sa_benchPathType : BenchPathType;
  sa_fileOffset : Z;
  sa_fileSize : Z;
  sa_blockSize : Z;
  sa_blockSizeMix : BlockSizeMix;
  sa_randomAmount : Z;
  sa_useRandomUnaligned : bool;
  sa_ignoreDelErrors : bool;
  sa_journalStore : JournalStore;
}.

Definition set_benchPathType (t : BenchPathType) (s : SizeArgs) : SizeArgs :=
  mkSizeArgs t (sa_fileOffset s) (sa_fileSize s) (sa_blockSize s) (sa_blockSizeMix s) (sa_randomAmount s)
    (sa_useRandomUnaligned s) (sa_ignoreDelErrors s) (sa_journalStore s).
Definition set_fileSize (n : Z) (s : SizeArgs) : SizeArgs :=
  mkSizeArgs (sa_benchPathType s) (sa_fileOffset s) n (sa_blockSize s) (sa_blockSizeMix s) (sa_randomAmount s)
    (sa_useRandomUnaligned s) (sa_ignoreDelErrors s) (sa_journalStore s).
Definition set_blockSize (n : Z) (s : SizeArgs) : SizeArgs :=
  mkSizeArgs (sa_benchPathType s) (sa_fileOffset s) (sa_fileSize s) n (sa_blockSizeMix s) (sa_randomAmount s)
    (sa_useRandomUnaligned s) (sa_ignoreDelErrors s) (sa_journalStore s).
Definition set_blockSizeMix (m : BlockSizeMix) (s : SizeArgs) : SizeArgs :=
  mkSizeArgs (sa_benchPathType s) (sa_fileOffset s) (sa_fileSize s) (sa_blockSize s) m (sa_randomAmount s)
    (sa_useRandomUnaligned s) (sa_ignoreDelErrors s) (sa_journalStore s).
Definition set_randomAmount (n : Z) (s : SizeArgs) : SizeArgs :=
  mkSizeArgs (sa_benchPathType s) (sa_fileOffset s) (sa_fileSize s) (sa_blockSize s) (sa_blockSizeMix s) n
    (sa_useRandomUnaligned s) (sa_ignoreDelErrors s) (sa_journalStore s).
Definition set_randomAligned (s : SizeArgs) : SizeArgs :=
  mkSizeArgs (sa_benchPathType s) (sa_fileOffset s) (sa_fileSize s) (sa_blockSize s) (sa_blockSizeMix s) (sa_randomAmount s)
    false (sa_ignoreDelErrors s) (sa_journalStore s).
Definition set_ignoreDelErrors (s : SizeArgs) : SizeArgs :=
  mkSizeArgs (sa_benchPathType s) (sa_fileOffset s) (sa_fileSize s) (sa_blockSize s) (sa_blockSizeMix s) (sa_randomAmount s)
    (sa_useRandomUnaligned s) true (sa_journalStore s).
Definition set_journalStore (j : JournalStore) (s : SizeArgs) : SizeArgs :=
  mkSizeArgs (sa_benchPathType s) (sa_fileOffset s) (sa_fileSize s) (sa_blockSize s) (sa_blockSizeMix s) (sa_randomAmount s)
    (sa_useRandomUnaligned s) (sa_ignoreDelErrors s) j.

Definition getFileEndOffset (s : SizeArgs) : Z := sa_fileOffset s +₆₄ sa_fileSize s.
Definition is_dir (s : SizeArgs) : bool := bool_decide (sa_benchPathType s = BenchPathType_DIR).
Definition have_tree (c : PathArgs) : bool := negb (bool_decide (pa_treeFilePath c = "")).
Definition have_journal (c : PathArgs) : bool := negb (bool_decide (pa_journalDirStr c = "")).
(** [runCreateFilesPhase || runReadPhase] *)
Definition runs_io (c : PathArgs) : bool := pa_runCreateFilesPhase c || pa_runReadPhase c.

(** [if(cond) throw ProgException(msg);] *)
Definition refuse {S} (cond : bool) (msg : string) : eff S unit := eff_when cond (eff_throw (ProgException msg)).

(** Division and remainder of unsigned integers; by zero the program does not go on. *)
Definition udiv (a b : Z) : option Z := if b =? 0 then None else Some (a / b).
Definition umod (a b : Z) : option Z := if b =? 0 then None else Some (a `mod` b).

(** *** [checkPathDependentArgs()] *)

Section checks.
Context (c : PathArgs).
#[local] Abbreviation act := (eff SizeArgs).

Definition check_mode_args : act unit :=
  s ← eff_get id;
  refuse (negb (is_dir s) && pa_runStatFilesPhase c) "File stat phase can only be used when benchmark path is a directory.";;
  refuse (negb (is_dir s) && have_tree c) "Custom tree mode requires benchmark path to be a directory.";;
  refuse (truthy (pa_runS3ListObjNum c) && negb (is_dir s)) "Object listing requires a bucket name as benchmark path.";;
  let noEndpoints := bool_decide (pa_s3EndpointsVec c = []) in
  refuse (truthy (pa_runS3ListObjNum c) && noEndpoints) "Object listing requires S3 endpoints definition.";;
  refuse (pa_runS3Acl c && noEndpoints) "Putting/getting bucket or object ACLs requires S3 endpoints definition.";;
  refuse (negb noEndpoints && truthy (pa_s3MpuSizeVariance c) && (pa_doReverseSeqOffsets c || pa_useRandomOffsets c)
          && pa_runCreateFilesPhase c) "S3 MPU size variance can only be used with sequential upload.";;
  refuse ((pa_useRWMixPercent c || pa_useRWMixReadThreads c) && bool_decide (pa_benchMode c = BenchMode_S3) && have_tree c)
    "Read/write mix options cannot be used with S3 custom tree.";;
  refuse (have_tree c && (1 <? length (pa_benchPathsVec c))%nat)
    "Custom tree mode can only be used with a single benchmark path.";;
  refuse (truthy (sa_fileSize s) && (sa_blockSize s =? 0) && runs_io c) "Block size must not be 0 when file size is given.".

(** The file size becomes a multiple of the journal's block size. *)
Definition round_to_journal : act unit :=
  refuse (have_journal c && (pa_journalBlockSize c =? 0)) "Journal block size must not be 0.";;
  s ← eff_get id;
  eff_when (have_journal c && truthy (sa_fileSize s))
    (rest ← eff_some (umod (sa_fileSize s) (pa_journalBlockSize c));
     eff_when (truthy rest)
       (let newFileSize := sa_fileSize s -₆₄ rest in
        refuse (newFileSize =? 0) "Size is smaller than the write journal's block size.";;
        eff_modify (set_fileSize newFileSize))).

(** The block size does not exceed the file size; a mix becomes a single size then. *)
Definition reduce_block_size : act unit :=
  s ← eff_get id;
  eff_when ((sa_fileSize s <? sa_blockSize s) && negb (have_tree c))
    (eff_modify (set_blockSize (sa_fileSize s));;
     eff_when (truthy (sa_fileSize s))
       (mix ← eff_result (BlockSizeMix_parse (to_string (sa_fileSize s)));
        eff_modify (set_blockSizeMix mix))).

(** [useDirectIO || useRandomOffsets || useStridedAccess] *)
Definition needs_alignment : bool := pa_useDirectIO c || pa_useRandomOffsets c || pa_useStridedAccess c.

Definition reduce_file_size : act unit :=
  s ← eff_get id;
  eff_when (needs_alignment && truthy (sa_fileSize s) && runs_io c)
    (rest ← eff_some (umod (sa_fileSize s) (minSize (sa_blockSizeMix s)));
     eff_when (truthy rest) (eff_modify (set_fileSize (sa_fileSize s -₆₄ rest)))).

Definition check_offset : act unit :=
  s ← eff_get id;
  refuse (truthy (sa_fileOffset s) && (sa_fileSize s =? 0) && negb (have_tree c) && runs_io c)
    "File size must not be 0 when using an offset.";;
  eff_when (truthy (sa_fileOffset s) && truthy (sa_blockSize s) && needs_alignment && runs_io c)
    (rest ← eff_some (umod (sa_fileOffset s) (minSize (sa_blockSizeMix s)));
     refuse (truthy rest) "Offset has to be a multiple of block size for direct IO, random IO and strided IO. ").

Definition auto_randomAmount : act unit :=
  s ← eff_get id;
  eff_when (sa_randomAmount s =? 0)
    (if negb (is_dir s) && pa_useRandomOffsets c
     then eff_modify (set_randomAmount (sa_fileSize s *₆₄ Z.of_nat (length (pa_benchPathsVec c))))
     else
       eff_when (is_dir s && negb (bool_decide (pa_s3EndpointsVec c = [])) && pa_useS3RandObjSelect c)
         (let numDirs := if truthy (pa_numDirs c) then pa_numDirs c else 1 in
          eff_modify (set_randomAmount (((sa_fileSize s *₆₄ numDirs) *₆₄ pa_numFiles c) *₆₄ pa_numDataSetThreads c)))).

(** Every block size of the mix is a multiple of [n]. *)
Definition check_mix_multiple (n : Z) (msg : string) : act unit :=
  s ← eff_get id;
  eff_for (sizesAndWeights (sa_blockSizeMix s)) (fun sizeAndWeight =>
    rest ← eff_some (umod sizeAndWeight.1 n);
    refuse (truthy rest) msg).

Definition check_direct_io : act unit :=
  s ← eff_get id;
  eff_when (pa_useDirectIO c && truthy (sa_fileSize s) && runs_io c)
    (eff_when (negb (pa_noDirectIOCheck c) && pa_useRandomOffsets c && sa_useRandomUnaligned s) (eff_modify set_randomAligned);;
     eff_when (negb (pa_noDirectIOCheck c))
       (check_mix_multiple DIRECTIO_MINSIZE "Block size for direct IO is not a multiple of required size. ");;
     refuse (negb (pa_noDirectIOCheck c) && truthy (sa_fileOffset s `mod` DIRECTIO_MINSIZE))
       "Offset for direct IO is not a multiple of required size. ").

(** The amount for aligned random I/O becomes a multiple of the smallest block size. *)
Definition align_randomAmount : act unit :=
  s ← eff_get id;
  eff_when (pa_useRandomOffsets c && negb (sa_useRandomUnaligned s) && truthy (sa_blockSize s))
    (rest ← eff_some (umod (sa_randomAmount s) (minSize (sa_blockSizeMix s)));
     eff_when (truthy rest && negb (is_dir s)) (eff_modify (set_randomAmount (sa_randomAmount s -₆₄ rest)))).

Definition check_dir_mode : act unit :=
  s ← eff_get id;
  refuse (is_dir s && pa_useRandomOffsets c && (sa_fileSize s <? sa_blockSize s) && negb (have_tree c))
    "For random offsets, file size must not be smaller than block size.";;
  refuse (is_dir s && pa_useStridedAccess c)
    "Strided access mode is only available if given benchmark paths are files or block devices.".

(** Files and block devices that all threads share. *)
Definition check_shared_files : act unit :=
  s ← eff_get id;
  eff_when (negb (is_dir s))
    (let numFiles := Z.of_nat (length (pa_benchPathsVec c)) in
     let numThreads := pa_numDataSetThreads c in
     let randomAligned := pa_useRandomOffsets c && negb (sa_useRandomUnaligned s) in
     fullBlocks ← eff_some (udiv (sa_fileSize s) (sa_blockSize s));
     rest ← eff_some (umod (sa_fileSize s) (sa_blockSize s));
     let numBlocksPerFile := fullBlocks +₆₄ (if truthy rest then 1 else 0) in
     let numBlocksTotal := numBlocksPerFile *₆₄ numFiles in
     let blockSetSize := sa_blockSize s *₆₄ numThreads in
     refuse (pa_useRandomOffsets c && (sa_randomAmount s <? blockSetSize) && negb (pa_doInfiniteIOLoop c))
       "Random I/O amount must be large enough so that each I/O thread can at least read/write one block. ";;
     eff_when randomAligned
       (rest ← eff_some (umod (sa_randomAmount s) blockSetSize);
        eff_when (truthy rest) (eff_modify (set_randomAmount (sa_randomAmount s -₆₄ rest))));;
     refuse (truthy (sa_blockSize s) && (numBlocksTotal <? numThreads) && runs_io c)
       "Aggregate usable file size must be large enough so that each I/O thread can at least read/write one block. ";;
     refuse (pa_useRandomOffsets c && (sa_fileSize s <? sa_blockSize s) && runs_io c)
       "File size must not be smaller than block size when random I/O with alignment is selected.";;
     s ← eff_get id;
     eff_when (pa_useRandomOffsets c) (rest ← eff_some (umod (sa_randomAmount s) blockSetSize); mret tt);;
     eff_when (negb (pa_useRandomOffsets c)) (rest ← eff_some (umod numBlocksTotal numThreads); mret tt);;
     refuse (pa_useRandomOffsets c && (sa_randomAmount s =? 0) && truthy (sa_fileSize s) && runs_io c)
       "File size must not be smaller than block size when random I/O with alignment is selected.").

(** What [JournalStore::init()] reads from the arguments. *)
Definition journal_args (s : SizeArgs) : JournalArgs :=
  mkArgs (pa_journalDirStr c) (pa_benchPathsVec c) (pa_journalBlockSize c) (sa_fileOffset s) (sa_fileSize s) (sa_blockSize s)
    (pa_journalSyncEnabled c).

(** [init] is [journalStore.init()] on the journal directory. *)
Definition prepareJournals (init : JournalArgs -> JournalStore -> option (result JournalStore)) : act unit :=
  s ← eff_get id;
  res ← eff_some (init (journal_args s) (sa_journalStore s));
  store ← eff_result res;
  eff_modify (set_journalStore store).

Definition check_journal (init : JournalArgs -> JournalStore -> option (result JournalStore)) : act unit :=
  eff_when (have_journal c)
    (s ← eff_get id;
     refuse (is_dir s) "Journaled data verification requires benchmark paths to be files or block devices.";;
     refuse (pa_useRandomOffsets c && sa_useRandomUnaligned s)
       "Journaled data verification requires block-aligned random I/O. ";;
     check_mix_multiple (pa_journalBlockSize c) "Block size is not a multiple of the write journal's block size. ";;
     rest ← eff_some (umod (sa_fileOffset s) (pa_journalBlockSize c));
     refuse (truthy rest) "Offset is not a multiple of the write journal's block size. ";;
     prepareJournals init).

Definition checkPathDependentArgs (init : JournalArgs -> JournalStore -> option (result JournalStore)) : act unit :=
  check_mode_args;;
  round_to_journal;;
  reduce_block_size;;
  reduce_file_size;;
  check_offset;;
  auto_randomAmount;;
  check_direct_io;;
  align_randomAmount;;
  check_dir_mode;;
  check_shared_files;;
  s ← eff_get id;
  eff_when (bool_decide (sa_benchPathType s = BenchPathType_FILE)) (eff_modify set_ignoreDelErrors);;
  check_journal init.
End checks.

(** *** Opening the benchmark paths *)

(** [statBuf.st_mode & S_IFMT] *)
Inductive FileMode : Type := S_IFBLK | S_IFDIR | S_IFREG | S_IFCHR | S_IFother.

#[global] Instance FileMode_eq_dec : EqDecision FileMode.
Proof. solve_decision. Defined.

Record StatBuf : Type := mkStat { st_mode : FileMode; st_size : Z; st_blocks : Z }.

(** The flags of [open()] that the benchmark paths use. *)
Record PathFlags : Type := mkPathFlags { po_directory : bool; po_rdwr : bool; po_direct : bool; po_creat : bool }.

(** Further system calls. *)
Record PathOs (W : Type) : Type := mkPathOs {
  po_stat : string -> W -> (errno + StatBuf) * W;
  po_fstat : Z -> W -> (errno + StatBuf) * W;
  po_open : string -> PathFlags -> W -> (errno + Z) * W;
  po_lseek_end : Z -> W -> (errno + Z) * W;
  po_lseek_start : Z -> W -> W;
}.
Arguments po_stat {_} _ _ _.
Arguments po_fstat {_} _ _ _.
Arguments po_open {_} _ _ _ _.
Arguments po_lseek_end {_} _ _ _.
Arguments po_lseek_start {_} _ _ _.

Section paths.
Context {W : Type} (os : Os W) (po : PathOs W) (c : PathArgs).

Record PrepState : Type := mkPrep { pr_args : SizeArgs; pr_fds : list Z; pr_world : W }.

#[local] Abbreviation act := (eff PrepState).

Definition upd_pr_args (f : SizeArgs -> SizeArgs) (p : PrepState) : PrepState := mkPrep (f (pr_args p)) (pr_fds p) (pr_world p).
Definition set_pr_fds (fds : list Z) (p : PrepState) : PrepState := mkPrep (pr_args p) fds (pr_world p).
Definition pr_os {A} (m : eff W A) : act A := eff_zoom pr_world (fun w p => mkPrep (pr_args p) (pr_fds p) w) m.

Definition findBenchPathType (path : string) : act BenchPathType :=
  res ← pr_os (sys (po_stat po path));
  match res with
  | inl ENOENT => mret BenchPathType_FILE
  | inl _ => eff_throw (ProgException "Unable to check type of benchmark path: ")
  | inr statBuf =>
      match st_mode statBuf with
      | S_IFBLK => mret BenchPathType_BLOCKDEV
      | S_IFDIR => mret BenchPathType_DIR
      | S_IFREG | S_IFCHR => mret BenchPathType_FILE
      | S_IFother => eff_throw (ProgException "Invalid path type: ")
      end
  end.

Definition checkPathExists (path : string) : act bool :=
  res ← pr_os (sys (po_stat po path));
  mret (match res with inl ENOENT => false | _ => true end).

Definition prepareFileSize_file (fd : Z) : act unit :=
  res ← pr_os (sys (po_fstat po fd));
  match res with
  | inl _ => eff_throw (ProgException "Unable to check size of file through fstat: ")
  | inr statBuf =>
      let currentFileSize := st_size statBuf in
      s ← eff_get pr_args;
      refuse ((sa_fileSize s =? 0) && (currentFileSize =? 0) && runs_io c) "File size must not be 0 when benchmark path is a file. ";;
      eff_when (sa_fileSize s =? 0)
        (refuse (u64 currentFileSize <=? sa_fileOffset s)
           "Given offset is not smaller than detected file size, so the usable size would be zero. ";;
         eff_modify (upd_pr_args (set_fileSize (u64 (currentFileSize - sa_fileOffset s)))));;
      s ← eff_get pr_args;
      refuse (negb (pa_runCreateFilesPhase c) && (u64 currentFileSize <? getFileEndOffset s)
              && bool_decide (st_mode statBuf = S_IFREG)) "Given offset plus size to use is larger than detected size. ";;
      eff_when (pa_runCreateFilesPhase c)
        (eff_when (pa_doTruncate c)
           (r ← pr_os (sys (os_ftruncate os fd 0));
            match r with None => mret tt | Some _ => eff_throw (ProgException "Unable to ftruncate file. ") end);;
         eff_when (pa_doTruncToSize c || (pa_useRandomOffsets c && (u64 currentFileSize <? getFileEndOffset s)))
           (r ← pr_os (sys (os_ftruncate os fd (getFileEndOffset s)));
            match r with
            | None => mret tt
            | Some _ => eff_throw (ProgException "Unable to set file size through ftruncate. ")
            end);;
         eff_when (pa_doPreallocFile c)
           (r ← pr_os (sys (os_fallocate os fd (sa_fileOffset s) (sa_fileSize s)));
            match r with
            | None => mret tt
            | Some _ => eff_throw (ProgException "Unable to preallocate file disk space through posix_fallocate. ")
            end))
  end.

Definition prepareFileSize_blockdev (fd : Z) : act unit :=
  res ← pr_os (sys (po_lseek_end po fd));
  match res with
  | inl _ => eff_throw (ProgException "Unable to check size of blockdevice through lseek: ")
  | inr blockdevSize =>
      refuse (blockdevSize =? 0) "Block device size seems to be 0: ";;
      s ← eff_get pr_args;
      refuse (u64 blockdevSize <=? sa_fileOffset s)
        "Given offset is not smaller than detected blockdevice size, so the usable size would be zero. ";;
      eff_when (sa_fileSize s =? 0) (eff_modify (upd_pr_args (set_fileSize (u64 (blockdevSize - sa_fileOffset s)))));;
      s ← eff_get pr_args;
      refuse (u64 blockdevSize <? getFileEndOffset s)
        "Given offset plus size to use is larger than detected blockdevice size. ";;
      pr_os (fun w => Some (Ok tt, po_lseek_start po fd w))
  end.

Definition prepareFileSize (fd : Z) : act unit :=
  s ← eff_get pr_args;
  eff_when (bool_decide (sa_benchPathType s = BenchPathType_FILE)) (prepareFileSize_file fd);;
  eff_when (bool_decide (sa_benchPathType s = BenchPathType_BLOCKDEV)) (prepareFileSize_blockdev fd).

(** [!path.rfind("/dev/", 0)]: the path starts with "/dev/". *)
Definition in_dev (path : string) : bool := String.prefix "/dev/" path.

Definition path_open_flags (pathType : BenchPathType) : PathFlags :=
  if bool_decide (pathType = BenchPathType_DIR) then mkPathFlags true false false false
  else
    mkPathFlags false (pa_runCreateFilesPhase c || pa_runDeleteFilesPhase c) (pa_useDirectIO c)
      (bool_decide (pathType = BenchPathType_FILE) && pa_runCreateFilesPhase c).

Definition prepare_path (path : string) : act unit :=
  pathType ← findBenchPathType path;
  fds ← eff_get pr_fds;
  (if bool_decide (fds = []) then eff_modify (upd_pr_args (set_benchPathType pathType))
   else
     s ← eff_get pr_args;
     refuse (negb (bool_decide (sa_benchPathType s = pathType)))
       "Conflicting path type found. All benchmark paths need to have the same type. ");;
  s ← eff_get pr_args;
  eff_when (negb (is_dir s) && in_dev path)
    (ex ← checkPathExists path; refuse (negb ex) "Refusing to work with not existing entry in /dev: ");;
  refuse (is_dir s && (in_dev path || bool_decide (path = "/dev"))) "Refusing to work with directories in /dev: ";;
  refuse (negb (is_dir s) && (pa_runCreateDirsPhase c || pa_runDeleteDirsPhase c))
    "Directory create and delete options are only allowed if benchmark path is a directory.";;
  refuse (bool_decide (sa_benchPathType s = BenchPathType_BLOCKDEV) && pa_runDeleteFilesPhase c)
    "File delete option is not allowed if benchmark path is a block device.";;
  res ← pr_os (sys (po_open po path (path_open_flags pathType)));
  match res with
  | inl _ => eff_throw (ProgException "Unable to open benchmark path: ")
  | inr fd =>
      eff_modify (fun p => set_pr_fds (pr_fds p ++ [fd]) p);;
      prepareFileSize fd
  end.

Definition prepareBenchPathFDsVec : act unit :=
  fds ← eff_get pr_fds;
  eff_for fds (fun fd => pr_os (sys (os_close os fd));; mret tt);;
  eff_modify (set_pr_fds []);;
  eff_for (pa_benchPathsVec c) prepare_path.
End paths.
Arguments PrepState : clear implicits.

(** What a local worker takes from the arguments for its offset generator. *)
Definition gen_args (c : PathArgs) (s : SizeArgs) (globalPhase phase : BenchPhase) (workerRank : Z) : GenArgs :=
  mkGenArgs (sa_benchPathType s) (pa_benchMode c) globalPhase phase (sa_blockSize s) (sa_blockSizeMix s)
    (isMix (sa_blockSizeMix s)) (sa_fileSize s) (sa_randomAmount s) (pa_numDataSetThreads c) workerRank
    (pa_doReverseSeqOffsets c) (pa_useRandomOffsets c) (pa_useStridedAccess c) (sa_useRandomUnaligned s) (pa_randOffsetAlgo c).
