(* ===== verification/ProgArgsTheory.v ===== *)
(** What accepted arguments guarantee to the workers (ProgArgs.v): [checkPathDependentArgs()] always
    comes back, without a division by zero, and when it does not refuse the arguments they are
    well-formed: sizes that fit to one another, a block for each thread, aligned offsets and
    amounts, and journals for every target. *)

From S2P Require Import Prelude Common Effects CppStrings UnitTk RandAlgo BlockSizeMix OffsetGen AnyGen PathStore.
From S2P Require Import Journal JournalStore FileTk PosixFs ProgArgs.
From Stdlib Require Import ZifyBool.

#[local] Open Scope list_scope.
#[local] Open Scope Z_scope.

(** ** Programs that end *)

(** [m] comes back, and unless it throws its result satisfies [Q]. *)
Definition ends {S A} (m : eff S A) (s : S) (Q : A -> S -> Prop) : Prop := wpt m s (post Q (fun _ _ => True)).

Section ends.
Context {S : Type}.
Implicit Types s : S.

Lemma ends_mono {A} (m : eff S A) s (Q Q' : A -> S -> Prop) : ends m s Q -> (forall a s', Q a s' -> Q' a s') -> ends m s Q'.
Proof. intros H HQ. eapply wpt_mono; [exact H|]. intros [a|e] s'; cbn; auto. Qed.

Lemma ends_bind {A B} (m : eff S A) (f : A -> eff S B) s Q : ends m s (fun a s' => ends (f a) s' Q) -> ends (m ≫= f) s Q.
Proof. intros H. apply wpt_bind. eapply wpt_mono; [exact H|]. by intros [a|e] s'. Qed.

(** The first part of a sequence ends with [P], from which the rest ends. *)
Lemma ends_seq {A B} (m : eff S A) (f : A -> eff S B) s (P : A -> S -> Prop) Q :
  ends m s P -> (forall a s', P a s' -> ends (f a) s' Q) -> ends (m ≫= f) s Q.
Proof. intros H HP. apply ends_bind. by eapply ends_mono. Qed.

Lemma ends_ret {A} (a : A) s (Q : A -> S -> Prop) : Q a s -> ends (mret a) s Q.
Proof. intros H. by apply wpt_ret. Qed.

Lemma ends_get {A} (f : S -> A) s (Q : A -> S -> Prop) : Q (f s) s -> ends (eff_get f) s Q.
Proof. intros H. by apply wpt_get. Qed.

Lemma ends_modify f s (Q : unit -> S -> Prop) : Q tt (f s) -> ends (eff_modify f) s Q.
Proof. intros H. by apply wpt_modify. Qed.

Lemma ends_throw {A} e s (Q : A -> S -> Prop) : ends (eff_throw e) s Q.
Proof. by apply wpt_throw. Qed.

Lemma ends_when b m s (Q : unit -> S -> Prop) : (b = true -> ends m s Q) -> (b = false -> Q tt s) -> ends (eff_when b m) s Q.
Proof. intros H1 H2. by apply wpt_when. Qed.

Lemma ends_refuse b msg s (Q : unit -> S -> Prop) : (b = false -> Q tt s) -> ends (refuse b msg) s Q.
Proof. intros H. apply ends_when; [|done]. intros _. apply ends_throw. Qed.

Lemma ends_umod a b s (Q : Z -> S -> Prop) : b <> 0 -> Q (a `mod` b) s -> ends (eff_some (umod a b)) s Q.
Proof. intros Hb H. eapply wpt_some; [|exact H]. unfold umod. by rewrite (proj2 (Z.eqb_neq _ _)). Qed.

Lemma ends_udiv a b s (Q : Z -> S -> Prop) : b <> 0 -> Q (a / b) s -> ends (eff_some (udiv a b)) s Q.
Proof. intros Hb H. eapply wpt_some; [|exact H]. unfold udiv. by rewrite (proj2 (Z.eqb_neq _ _)). Qed.

Lemma ends_result {A} (r : result A) s (Q : A -> S -> Prop) : (forall a, r = Ok a -> Q a s) -> ends (eff_result r) s Q.
Proof. intros H. apply wpt_result. destruct r; cbn; auto. Qed.

(** A loop of checks. *)
Lemma ends_checks {A} (P : A -> Prop) (l : list A) f s :
  (forall x, x ∈ l -> ends (f x) s (fun _ s' => s' = s /\ P x)) -> ends (eff_for l f) s (fun _ s' => s' = s /\ Forall P l).
Proof.
  induction l as [|x l IH]; intros Hf; [by apply ends_ret|]. cbn. eapply ends_seq; [apply Hf; by left|].
  intros [] s' [-> Hx]. eapply ends_mono; [apply IH; intros y Hy; apply Hf; by right|]. intros [] s' [-> Hl]. auto.
Qed.
End ends.

Ltac ends_step :=
  lazymatch goal with
  | |- ends (mbind _ _) _ _ => apply ends_bind
  | |- ends (mret _) _ _ => apply ends_ret
  | |- ends (eff_get _) _ _ => apply ends_get; unfold id
  | |- ends (eff_modify _) _ _ => apply ends_modify
  | |- ends (eff_throw _) _ _ => apply ends_throw
  | |- ends (refuse _ _) _ _ => apply ends_refuse; intros ?
  | |- ends (eff_when _ _) _ _ => apply ends_when; intros ?
  | |- ends (eff_some (umod _ _)) _ _ => apply ends_umod
  | |- ends (eff_some (udiv _ _)) _ _ => apply ends_udiv
  | |- ends (eff_result _) _ _ => apply ends_result; intros ? ?
  end.
Ltac ends_steps := repeat ends_step.

(** ** Well-formed arguments *)

Definition num_paths (c : PathArgs) : Z := Z.of_nat (length (pa_benchPathsVec c)).

(** What parsing the units and preparing the paths leaves behind; the bounds keep the sums and
    products of the code within 64 bits. *)
Record args_parsed (c : PathArgs) (s : SizeArgs) : Prop := {
  ap_mix : mix_ok (sa_blockSizeMix s);
  ap_block : sa_blockSize s = maxSize (sa_blockSizeMix s);
  ap_threads : 0 < pa_numDataSetThreads c;
  ap_set : sa_blockSize s * pa_numDataSetThreads c < TWO64;
  ap_journal : 0 <= pa_journalBlockSize c;
  ap_size : 0 <= sa_fileSize s;
  ap_off : 0 <= sa_fileOffset s;
  ap_bound : sa_fileOffset s + sa_fileSize s + pa_journalBlockSize c <= 2 ^ 62;
  ap_total : 0 < num_paths c /\ sa_fileSize s * num_paths c < 2 ^ 63;
  ap_amount : 0 <= sa_randomAmount s < TWO64;
  ap_file : is_dir s = false -> 0 < sa_fileSize s;
}.

(** Sizes that fit to one another. *)
Record geometry_ok (c : PathArgs) (s : SizeArgs) : Prop := {
  ge_mix : mix_ok (sa_blockSizeMix s);
  ge_block : 0 < sa_fileSize s -> sa_blockSize s = maxSize (sa_blockSizeMix s);
  ge_threads : 0 < pa_numDataSetThreads c;
  ge_set : 0 <= sa_blockSize s /\ sa_blockSize s * pa_numDataSetThreads c < TWO64;
  ge_size : 0 <= sa_fileSize s /\ 0 <= sa_fileOffset s /\ 0 <= pa_journalBlockSize c;
  ge_bound : sa_fileOffset s + sa_fileSize s + pa_journalBlockSize c <= 2 ^ 62;
  ge_total : sa_fileSize s * num_paths c < 2 ^ 63;
  ge_min : have_tree c = false -> 0 < sa_fileSize s -> minSize (sa_blockSizeMix s) <= sa_fileSize s;
  ge_single : have_tree c = false -> isMix (sa_blockSizeMix s) = false -> sa_blockSize s <= sa_fileSize s;
  ge_max : have_tree c = false -> sa_blockSize s <= 2 ^ 62;
  ge_empty : have_tree c = false -> sa_fileSize s = 0 -> sa_blockSize s = 0;
  ge_align : needs_alignment c = true -> runs_io c = true -> sa_fileSize s `mod` minSize (sa_blockSizeMix s) = 0;
  ge_journal : have_journal c = true ->
    0 < pa_journalBlockSize c
    /\ (minSize (sa_blockSizeMix s) `mod` pa_journalBlockSize c = 0 -> sa_fileSize s `mod` pa_journalBlockSize c = 0);
  ge_mode : is_dir s = false -> have_tree c = false /\ 0 < sa_fileSize s;
}.

Definition mix_multiple (n : Z) (s : SizeArgs) : Prop := Forall (fun sw => sw.1 `mod` n = 0) (sizesAndWeights (sa_blockSizeMix s)).

Record args_wf (c : PathArgs) (s : SizeArgs) : Prop := {
  aw_geometry : geometry_ok c s;
  aw_offset : needs_alignment c = true -> runs_io c = true -> 0 < sa_blockSize s ->
    sa_fileOffset s `mod` minSize (sa_blockSizeMix s) = 0;
  aw_direct : pa_useDirectIO c = true -> pa_noDirectIOCheck c = false -> runs_io c = true -> 0 < sa_fileSize s ->
    mix_multiple DIRECTIO_MINSIZE s /\ sa_fileOffset s `mod` DIRECTIO_MINSIZE = 0
    /\ (pa_useRandomOffsets c = true -> sa_useRandomUnaligned s = false);
  aw_dir : is_dir s = true -> pa_useStridedAccess c = false
    /\ (pa_useRandomOffsets c = true -> have_tree c = false -> sa_blockSize s <= sa_fileSize s);
  aw_shared : is_dir s = false -> runs_io c = true ->
    pa_numDataSetThreads c <= num_blocks (sa_fileSize s) (sa_blockSize s) * num_paths c;
  aw_amount : 0 <= sa_randomAmount s < TWO64;
  aw_random : is_dir s = false -> runs_io c = true -> pa_useRandomOffsets c = true ->
    sa_blockSize s <= sa_fileSize s /\ 0 < sa_randomAmount s
    /\ (pa_doInfiniteIOLoop c = false -> sa_blockSize s * pa_numDataSetThreads c <= sa_randomAmount s)
    /\ (sa_useRandomUnaligned s = false -> sa_randomAmount s `mod` (sa_blockSize s * pa_numDataSetThreads c) = 0);
  aw_journal : have_journal c = true ->
    is_dir s = false /\ run_ok (journal_args c s) /\ sa_fileSize s `mod` pa_journalBlockSize c = 0
    /\ mix_multiple (pa_journalBlockSize c) s
    /\ (pa_useRandomOffsets c = true -> sa_useRandomUnaligned s = false)
    /\ (forall i, (i < length (pa_benchPathsVec c))%nat ->
          exists j, getJournalForTarget (sa_journalStore s) i = Some j /\ serves_run (journal_args c s) j);
}.

(** ** Block sizes *)

Lemma mix_single_sizes mix : mix_ok mix -> isMix mix = false -> minSize mix = maxSize mix.
Proof.
  intros ((Hne & _) & Hfin & _) Hm. unfold isMix in Hm. apply Nat.ltb_ge in Hm. rewrite Hfin.
  destruct (sizesAndWeights mix) as [|[z w] [|]]; [done| |cbn in Hm; lia].
  unfold mix_finish. destruct (mix_cumulate _ _). cbn. lia.
Qed.

Lemma parse_single n : 0 < n < 2 ^ 63 -> BlockSizeMix_parse (to_string n) = Ok (mix_finish [(n, 1)]).
Proof.
  intros Hn. assert (forall ch, isdigit ch = false -> boost_split ch (to_string n) = [to_string n]) as Hsplit.
  { intros ch Hch. apply split_compress_last, to_string_free; (done || lia). }
  unfold BlockSizeMix_parse. rewrite Hsplit by done. cbn [mix_parse_entries].
  destruct (digits_onto_head 19 n "") as (d & r & Hd & _); [lia|]. fold (to_string n) in Hd.
  replace (String.eqb (to_string n) "") with false by (by rewrite Hd). unfold mix_parse_entry.
  rewrite Hsplit, numHuman_plain by (done || lia). cbn [mbind result_bind].
  by rewrite (proj2 (Z.eqb_neq _ _)) by lia.
Qed.

Lemma single_mix_ok n : 0 < n < 2 ^ 63 ->
  mix_ok (mix_finish [(n, 1)]) /\ isMix (mix_finish [(n, 1)]) = false /\ maxSize (mix_finish [(n, 1)]) = n.
Proof.
  intros Hn. split; [|split; [done|cbn; lia]]. split; [|split; [done|cbn; lia]]. split; [done|].
  split; [|by apply NoDup_singleton]. repeat constructor; cbn; lia.
Qed.

Lemma mix_min_multiple mix n : mix_ok mix -> Forall (fun sw => sw.1 `mod` n = 0) (sizesAndWeights mix) -> minSize mix `mod` n = 0.
Proof.
  intros ((Hne & _) & Hfin & _) Hall. rewrite Hfin.
  assert (Forall (fun z => z `mod` n = 0) (fst <$> sizesAndWeights mix)) as Hf by (by apply Forall_fmap). clear Hall. revert Hf.
  destruct (sizesAndWeights mix) as [|[z w] sw]; [done|]. intros Hf. unfold mix_finish. destruct (mix_cumulate _ _). cbn [minSize].
  apply (foldl_preserves (fun z => z `mod` n = 0)); [|by apply Forall_cons in Hf as [? _]|done].
  intros x y Hx Hy. by destruct (Z.min_spec x y) as [[_ ->]|[_ ->]].
Qed.

(** ** The checks, one after another *)

Section stages.
Context (c : PathArgs).

Lemma check_mode_args_ends s : ends (check_mode_args c) s (fun _ s' => s' = s /\ (is_dir s = false -> have_tree c = false)).
Proof.
  unfold check_mode_args. ends_steps. split; [done|]. intros Hd. by rewrite Hd in *; destruct (have_tree c).
Qed.

Lemma rounded_down n b : 0 <= n < TWO64 -> 0 < b ->
  let n' := n -₆₄ n `mod` b in 0 <= n' <= n /\ n' `mod` b = 0 /\ (b <= n -> b <= n').
Proof.
  intros Hn Hb. pose proof (Z.mod_pos_bound n b Hb). pose proof (Z.mod_le n b ltac:(lia) Hb).
  pose proof (Z.div_mod n b ltac:(lia)). cbv zeta. rewrite u64_small by lia. split; [lia|].
  replace (n - n `mod` b) with (n / b * b) by lia. split; [apply Z.mod_mul; lia|].
  intros Hle. assert (1 <= n / b) by (apply Z.div_le_lower_bound; lia). nia.
Qed.

(** A smaller file is as good as parsed. *)
Lemma parsed_shrink s n : args_parsed c s -> 0 < n <= sa_fileSize s -> args_parsed c (set_fileSize n s).
Proof. intros [] Hn. constructor; cbn; try done; nia. Qed.

Lemma round_to_journal_ends s : args_parsed c s ->
  ends (round_to_journal c) s (fun _ s' => args_parsed c s'
    /\ (have_journal c = true -> 0 < pa_journalBlockSize c /\ sa_fileSize s' `mod` pa_journalBlockSize c = 0)
    /\ sa_benchPathType s' = sa_benchPathType s).
Proof.
  intros Hp. pose proof (ap_journal _ _ Hp). pose proof (ap_size _ _ Hp). pose proof (ap_off _ _ Hp). pose proof (ap_bound _ _ Hp).
  unfold round_to_journal, truthy. ends_steps; [lia| | |].
  - destruct (rounded_down (sa_fileSize s) (pa_journalBlockSize c)) as (Hr1 & Hr2 & _); [lia..|].
    split; [apply parsed_shrink; (done || lia)|]. split; [|done]. intros _. cbn. split; [lia|done].
  - split; [done|]. split; [|done]. lia.
  - split; [done|]. split; [|done]. intros Hj. rewrite Hj in *. assert (sa_fileSize s = 0) as -> by lia.
    split; [lia|]. by rewrite Zmod_0_l.
Qed.

Lemma reduce_block_size_ends s : args_parsed c s ->
  ends (reduce_block_size c) s (fun _ s' => mix_ok (sa_blockSizeMix s') /\ 0 <= sa_blockSize s' <= sa_blockSize s
    /\ sa_fileSize s' = sa_fileSize s /\ sa_fileOffset s' = sa_fileOffset s /\ sa_randomAmount s' = sa_randomAmount s
    /\ sa_benchPathType s' = sa_benchPathType s
    /\ (0 < sa_fileSize s -> sa_blockSize s' = maxSize (sa_blockSizeMix s'))
    /\ (have_tree c = false -> sa_blockSize s' <= sa_fileSize s)).
Proof.
  intros Hp. pose proof (ap_mix _ _ Hp) as Hm. pose proof (mix_ok_sizes _ Hm). pose proof (ap_block _ _ Hp).
  pose proof (ap_bound _ _ Hp). pose proof (ap_off _ _ Hp). pose proof (ap_journal _ _ Hp). pose proof (ap_size _ _ Hp).
  unfold reduce_block_size, truthy. ends_steps.
  - match goal with H : BlockSizeMix_parse _ = Ok _ |- _ => rewrite parse_single in H by lia; injection H as <- end.
    cbn [sa_blockSizeMix sa_blockSize sa_fileSize sa_fileOffset sa_randomAmount sa_benchPathType set_blockSize set_blockSizeMix].
    destruct (single_mix_ok (sa_fileSize s)) as (Hok & _ & Hmax); [lia|]. split_and!; try (done || lia).
  - cbn. split_and!; try (done || lia).
  - split_and!; try (done || lia).
Qed.

(** The state after the reduction of the block size, with a file size [n] that is at most as large. *)
Lemma geometry_intro s n : mix_ok (sa_blockSizeMix s) -> 0 < pa_numDataSetThreads c ->
  0 <= sa_blockSize s /\ sa_blockSize s * pa_numDataSetThreads c < TWO64 ->
  0 <= n <= sa_fileSize s -> 0 <= sa_fileOffset s /\ 0 <= pa_journalBlockSize c -> sa_fileOffset s + sa_fileSize s + pa_journalBlockSize c <= 2 ^ 62 ->
  sa_fileSize s * num_paths c < 2 ^ 63 ->
  (0 < sa_fileSize s -> sa_blockSize s = maxSize (sa_blockSizeMix s)) ->
  (have_tree c = false -> sa_blockSize s <= sa_fileSize s) ->
  (minSize (sa_blockSizeMix s) <= sa_fileSize s -> minSize (sa_blockSizeMix s) <= n) ->
  (needs_alignment c = true -> runs_io c = true -> n `mod` minSize (sa_blockSizeMix s) = 0) ->
  (have_journal c = true -> 0 < pa_journalBlockSize c
    /\ (minSize (sa_blockSizeMix s) `mod` pa_journalBlockSize c = 0 -> n `mod` pa_journalBlockSize c = 0)) ->
  (is_dir s = false -> have_tree c = false /\ 0 < sa_fileSize s) ->
  geometry_ok c (set_fileSize n s).
Proof.
  intros Hm Hth Hset Hn Ho Hb Htot Hmax Hle Hmin Hal Hj Hmode.
  pose proof (mix_ok_sizes _ Hm) as Hsz. pose proof (mix_single_sizes _ Hm) as Hsingle.
  assert (have_tree c = false -> 0 < sa_fileSize s -> minSize (sa_blockSizeMix s) <= n) as Hmin'.
  { intros Ht Hf. apply Hmin. specialize (Hmax Hf). specialize (Hle Ht). lia. }
  constructor; cbn; try done.
  - intros Hf. apply Hmax. lia.
  - lia.
  - lia.
  - apply Z.le_lt_trans with (sa_fileSize s * num_paths c); [|done]. apply Z.mul_le_mono_nonneg_r; unfold num_paths; lia.
  - intros Ht Hf. apply Hmin'; (done || lia).
  - intros Ht Him. destruct (decide (0 < sa_fileSize s)) as [Hf|Hf].
    + rewrite (Hmax Hf), <- (Hsingle Him). by apply Hmin'.
    + specialize (Hle Ht). lia.
  - intros Ht. specialize (Hle Ht). lia.
  - intros Ht ->. destruct (decide (0 < sa_fileSize s)) as [Hf|Hf]; [specialize (Hmin' Ht Hf); lia|]. specialize (Hle Ht). lia.
  - intros Hd. destruct (Hmode Hd) as [Ht Hf]. split; [done|]. specialize (Hmin' Ht Hf). lia.
Qed.

Lemma set_same_fileSize s : set_fileSize (sa_fileSize s) s = s.
Proof. by destruct s. Qed.

Lemma geometry_ends s {A} (k : eff SizeArgs A) Q : args_parsed c s -> (is_dir s = false -> have_tree c = false) ->
  (forall s', geometry_ok c s' -> 0 <= sa_randomAmount s' < TWO64 -> ends k s' Q) ->
  ends (round_to_journal c;; reduce_block_size c;; reduce_file_size c;; k) s Q.
Proof.
  intros Hp Hmode Hk. eapply ends_seq; [by apply round_to_journal_ends|]. intros [] s1 (Hp1 & Hj1 & Ht1).
  eapply ends_seq; [by apply reduce_block_size_ends|]. intros [] s2 (Hm2 & Hb2 & Hf2 & Ho2 & Ha2 & Ht2 & Hmax2 & Hle2).
  destruct Hp1 as [? ? ? ? ? ? ? ? [? ?] ? Hfile].
  assert (is_dir s2 = is_dir s1 /\ is_dir s1 = is_dir s) as [Hd1 Hd2] by (unfold is_dir; by rewrite Ht2, Ht1).
  pose proof (mix_ok_sizes _ Hm2) as Hsz. rewrite <- Hf2 in *. rewrite <- Ho2 in *.
  assert (sa_blockSize s2 * pa_numDataSetThreads c < TWO64).
  { apply Z.le_lt_trans with (sa_blockSize s1 * pa_numDataSetThreads c); [apply Z.mul_le_mono_nonneg_r|]; lia. }
  assert (is_dir s2 = false -> have_tree c = false /\ 0 < sa_fileSize s2) as Hmode2.
  { rewrite Hd1. intros Hd. split; [apply Hmode; congruence|by apply Hfile]. }
  eapply ends_seq with (P := fun _ s' => geometry_ok c s' /\ 0 <= sa_randomAmount s' < TWO64); [|by intros [] s' [Hg Ha]; apply Hk].
  unfold reduce_file_size, truthy. ends_steps; [lia|..].
  - destruct (rounded_down (sa_fileSize s2) (minSize (sa_blockSizeMix s2))) as (Hr1 & Hr2 & Hr3); [lia..|].
    split; [|cbn; lia]. apply geometry_intro; try (done || lia). intros Hj. destruct (Hj1 Hj) as [Hjb _]. split; [done|].
    intros Hmj. apply Z.mod_divide in Hr2; [|lia]. apply Z.mod_divide in Hmj; [|lia]. apply Z.mod_divide; [lia|].
    by transitivity (minSize (sa_blockSizeMix s2)).
  - split; [|lia]. rewrite <- set_same_fileSize. apply geometry_intro; try (done || lia).
  - split; [|lia]. rewrite <- set_same_fileSize. apply geometry_intro; try (done || lia).
    intros Hn Hr. assert (sa_fileSize s2 = 0) as -> by lia. apply Zmod_0_l.
Qed.
(** The sizes stay as they are from here on. *)
Definition same_sizes (s s' : SizeArgs) : Prop :=
  sa_benchPathType s' = sa_benchPathType s /\ sa_fileOffset s' = sa_fileOffset s /\ sa_fileSize s' = sa_fileSize s
  /\ sa_blockSize s' = sa_blockSize s /\ sa_blockSizeMix s' = sa_blockSizeMix s.

Lemma same_sizes_trans s1 s2 s3 : same_sizes s1 s2 -> same_sizes s2 s3 -> same_sizes s1 s3.
Proof. intros (? & ? & ? & ? & ?) (? & ? & ? & ? & ?). unfold same_sizes. split_and!; congruence. Qed.

Lemma same_is_dir s s' : same_sizes s s' -> is_dir s' = is_dir s.
Proof. intros (Ht & _). unfold is_dir. by rewrite Ht. Qed.

Lemma geometry_same s s' : same_sizes s s' -> geometry_ok c s -> geometry_ok c s'.
Proof.
  intros (Ht & Ho & Hf & Hb & Hm) [].
  constructor; rewrite ?Ho, ?Hf, ?Hb, ?Hm; try done. unfold is_dir. by rewrite Ht.
Qed.

Lemma check_offset_ends s : geometry_ok c s ->
  ends (check_offset c) s (fun _ s' => s' = s
    /\ (needs_alignment c = true -> runs_io c = true -> 0 < sa_blockSize s ->
         sa_fileOffset s `mod` minSize (sa_blockSizeMix s) = 0)).
Proof.
  intros Hg. pose proof (mix_ok_sizes _ (ge_mix _ _ Hg)). pose proof (ge_size _ _ Hg).
  unfold check_offset, truthy. ends_steps; [lia| |]; (split; [done|]); intros Hn Hr Hb; [lia|].
  assert (sa_fileOffset s = 0) as -> by lia. apply Zmod_0_l.
Qed.

Lemma auto_randomAmount_ends s : 0 <= sa_randomAmount s < TWO64 ->
  ends (auto_randomAmount c) s (fun _ s' => same_sizes s s' /\ 0 <= sa_randomAmount s' < TWO64).
Proof.
  intros Ha. unfold auto_randomAmount. ends_steps; [|done].
  destruct (negb _ && _); ends_steps; cbn; (split; [done|]); try apply u64_range. done.
Qed.

Lemma check_mix_multiple_ends n msg s : n <> 0 -> ends (check_mix_multiple n msg) s (fun _ s' => s' = s /\ mix_multiple n s).
Proof.
  intros Hn. unfold check_mix_multiple, mix_multiple. ends_steps. apply ends_checks. intros x _. unfold truthy. ends_steps; [done|].
  split; [done|]. lia.
Qed.

Lemma check_direct_io_ends s : 0 <= sa_randomAmount s < TWO64 ->
  ends (check_direct_io c) s (fun _ s' => same_sizes s s' /\ sa_randomAmount s' = sa_randomAmount s
    /\ (pa_useDirectIO c = true -> pa_noDirectIOCheck c = false -> runs_io c = true -> 0 < sa_fileSize s ->
         mix_multiple DIRECTIO_MINSIZE s /\ sa_fileOffset s `mod` DIRECTIO_MINSIZE = 0
         /\ (pa_useRandomOffsets c = true -> sa_useRandomUnaligned s' = false))).
Proof.
  intros Ha. unfold check_direct_io, truthy. ends_step. ends_step. ends_step; [|split; [done|]; split; [done|]; lia].
  eapply ends_seq with (P := fun _ s' => same_sizes s s' /\ sa_randomAmount s' = sa_randomAmount s
    /\ (pa_noDirectIOCheck c = false -> pa_useRandomOffsets c = true -> sa_useRandomUnaligned s' = false)).
  { ends_steps; [split; [done|]; by split|]. split; [done|]. split; [done|]. lia. }
  intros [] s1 (Hs1 & Ha1 & Hr1).
  eapply ends_seq with (P := fun _ s' => s' = s1 /\ (pa_noDirectIOCheck c = false -> mix_multiple DIRECTIO_MINSIZE s1)).
  { ends_steps; [|split; [done|]; lia]. eapply ends_mono; [by apply check_mix_multiple_ends|]. intros [] s' [-> Hm]. by split. }
  intros [] s2 [-> Hm]. ends_steps. split; [done|]. split; [done|]. intros _ Hc _ _. split; [|split; [lia|by apply Hr1]].
  destruct Hs1 as (_ & _ & _ & _ & Hmix). specialize (Hm Hc). unfold mix_multiple in *. by rewrite Hmix in Hm.
Qed.

Lemma align_randomAmount_ends s : geometry_ok c s -> 0 <= sa_randomAmount s < TWO64 ->
  ends (align_randomAmount c) s (fun _ s' => same_sizes s s' /\ 0 <= sa_randomAmount s' < TWO64
    /\ sa_useRandomUnaligned s' = sa_useRandomUnaligned s).
Proof.
  intros Hg Ha. pose proof (mix_ok_sizes _ (ge_mix _ _ Hg)). unfold align_randomAmount. ends_steps; try (split; [done|]; by split); [lia|].
  split; [done|]. split; [cbn; apply u64_range|done].
Qed.

Lemma check_dir_mode_ends s : ends (check_dir_mode c) s (fun _ s' => s' = s
  /\ (is_dir s = true -> pa_useStridedAccess c = false
      /\ (pa_useRandomOffsets c = true -> have_tree c = false -> sa_blockSize s <= sa_fileSize s))).
Proof. unfold check_dir_mode. ends_steps. split; [done|]. lia. Qed.

Lemma num_blocks_bound n b : 0 < b -> 0 <= n < 2 ^ 63 -> 0 <= num_blocks n b <= n.
Proof.
  intros Hb Hn. unfold num_blocks, truthy. pose proof (Z.div_mod n b ltac:(lia)). pose proof (Z.mod_pos_bound n _ Hb).
  assert (0 <= n / b) by (apply Z.div_pos; lia). assert (n / b <= b * (n / b)) by nia.
  destruct (Z.eqb_spec (n `mod` b) 0); cbn [negb]; rewrite u64_small by lia; lia.
Qed.

(** What the check of shared files leaves of the random amount. *)
Definition shared_ok (s : SizeArgs) : Prop :=
  (runs_io c = true -> pa_numDataSetThreads c <= num_blocks (sa_fileSize s) (sa_blockSize s) * num_paths c)
  /\ (runs_io c = true -> pa_useRandomOffsets c = true ->
      sa_blockSize s <= sa_fileSize s /\ 0 < sa_randomAmount s
      /\ (pa_doInfiniteIOLoop c = false -> sa_blockSize s * pa_numDataSetThreads c <= sa_randomAmount s)
      /\ (sa_useRandomUnaligned s = false -> sa_randomAmount s `mod` (sa_blockSize s * pa_numDataSetThreads c) = 0)).

(** The reduction of the random amount to a multiple of one block per thread. *)
Lemma reduce_amount_ends s blockSet : 0 < blockSet < TWO64 -> 0 <= sa_randomAmount s < TWO64 ->
  ends (eff_when (pa_useRandomOffsets c && negb (sa_useRandomUnaligned s))
       (rest ← eff_some (umod (sa_randomAmount s) blockSet);
        eff_when (truthy rest) (eff_modify (set_randomAmount (sa_randomAmount s -₆₄ rest))))) s
    (fun _ s' => same_sizes s s' /\ sa_useRandomUnaligned s' = sa_useRandomUnaligned s /\ 0 <= sa_randomAmount s' < TWO64
      /\ (blockSet <= sa_randomAmount s -> blockSet <= sa_randomAmount s')
      /\ (pa_useRandomOffsets c = true -> sa_useRandomUnaligned s = false -> sa_randomAmount s' `mod` blockSet = 0)).
Proof.
  intros Hb Ha. destruct (rounded_down (sa_randomAmount s) blockSet) as (Hr1 & Hr2 & Hr3); [lia..|].
  unfold truthy. ends_steps; [lia|..]; (split; [done|]); (split; [done|]); cbn; [split_and!; (done || lia)| |]; (split; [lia|]); (split; [done|]); lia.
Qed.

Lemma check_shared_files_ends s : geometry_ok c s -> 0 <= sa_randomAmount s < TWO64 ->
  ends (check_shared_files c) s (fun _ s' => same_sizes s s' /\ sa_useRandomUnaligned s' = sa_useRandomUnaligned s
    /\ 0 <= sa_randomAmount s' < TWO64 /\ (is_dir s = false -> shared_ok s')).
Proof.
  intros Hg Ha. unfold check_shared_files. ends_step. ends_step. ends_step; [|split_and!; (done || lia)].
  destruct (ge_mode _ _ Hg) as [Htree Hf]; [lia|]. pose proof (mix_ok_sizes _ (ge_mix _ _ Hg)). pose proof (ge_block _ _ Hg Hf) as Hblk.
  pose proof (ge_set _ _ Hg) as [_ Hset]. pose proof (ge_bound _ _ Hg). pose proof (ge_size _ _ Hg). pose proof (ge_total _ _ Hg) as Htot.
  pose proof (ge_threads _ _ Hg) as Hth.
  assert (0 < sa_blockSize s) as Hb by lia. assert (0 < sa_blockSize s * pa_numDataSetThreads c) by (apply Z.mul_pos_pos; lia).
  pose proof (num_blocks_bound (sa_fileSize s) (sa_blockSize s) Hb ltac:(lia)) as Hnb.
  assert (0 <= num_blocks (sa_fileSize s) (sa_blockSize s) * num_paths c < 2 ^ 63) as Hnt.
  { assert (0 <= num_paths c) by (unfold num_paths; lia). split; [apply Z.mul_nonneg_nonneg; lia|].
    apply Z.le_lt_trans with (sa_fileSize s * num_paths c); [apply Z.mul_le_mono_nonneg_r; lia|done]. }
  ends_step. ends_step; [lia|]. ends_step. ends_step; [lia|]. cbv beta zeta. fold (num_blocks (sa_fileSize s) (sa_blockSize s)). fold (num_paths c).
  rewrite (u64_small (num_blocks _ _ * num_paths c)), (u64_small (sa_blockSize s * pa_numDataSetThreads c)) by lia. ends_step. ends_step.
  eapply ends_seq; [apply reduce_amount_ends; lia|]. intros [] s1 (Hs1 & Hu1 & Ha1 & Hge1 & Hmod1).
  assert (sa_fileSize s1 = sa_fileSize s /\ sa_blockSize s1 = sa_blockSize s) as [Hf1 Hb1] by (by destruct Hs1 as (_ & _ & ? & ? & _)).
  ends_step. ends_step. ends_step. ends_step. ends_step. ends_step.
  eapply ends_seq with (P := fun _ s' => s' = s1); [ends_steps; (done || lia)|]. intros [] s2 ->.
  eapply ends_seq with (P := fun _ s' => s' = s1); [ends_steps; (done || lia)|]. intros [] s2 ->.
  ends_steps. split; [done|]. split; [done|]. split; [done|]. intros _. unfold shared_ok, truthy in *. rewrite Hf1, Hb1, Hu1.
  split; [lia|]. intros Hr Hrand. split; [lia|]. split; [lia|]. split; [lia|]. by apply Hmod1.
Qed.
Context (sys : string -> journal_syscall -> bool) (rand : string -> Z * Z) (binary : string -> list Z).
Context (isDir : bool) (dir : option (list dirent)).
#[local] Abbreviation init := (fun args store => JournalStore_init sys rand binary args isDir dir store).

Lemma check_journal_ends s : geometry_ok c s -> (forall path, Forall is_byte (binary path)) ->
  (forall sidecars, scanSidecars (pa_journalDirStr c) dir = Ok sidecars -> Forall sidecar_ok sidecars) ->
  ends (check_journal c init) s (fun _ s' => same_sizes s s' /\ sa_randomAmount s' = sa_randomAmount s
    /\ sa_useRandomUnaligned s' = sa_useRandomUnaligned s
    /\ (have_journal c = true ->
        is_dir s = false /\ run_ok (journal_args c s) /\ sa_fileSize s `mod` pa_journalBlockSize c = 0
        /\ mix_multiple (pa_journalBlockSize c) s
        /\ (pa_useRandomOffsets c = true -> sa_useRandomUnaligned s = false)
        /\ (forall i, (i < length (pa_benchPathsVec c))%nat ->
              exists j, getJournalForTarget (sa_journalStore s') i = Some j /\ serves_run (journal_args c s) j))).
Proof.
  intros Hg Hbytes Hsc. unfold check_journal. ends_step; [|split_and!; (done || lia)].
  destruct (ge_journal _ _ Hg) as [Hjb Hfj]; [done|]. do 6 ends_step.
  eapply ends_seq; [apply check_mix_multiple_ends; lia|]. intros [] s1 [-> Hmm]. ends_step. ends_step; [lia|]. ends_step. ends_step.
  destruct (ge_mode _ _ Hg) as [Htree Hf]; [lia|]. pose proof (mix_ok_sizes _ (ge_mix _ _ Hg)) as Hsz. pose proof (ge_block _ _ Hg Hf) as Hb.
  assert (minSize (sa_blockSizeMix s) `mod` pa_journalBlockSize c = 0) as Hminj by (by apply mix_min_multiple; [apply Hg|]).
  assert (run_ok (journal_args c s)) as Hrun.
  { pose proof (ge_size _ _ Hg). pose proof (ge_bound _ _ Hg). pose proof (ge_max _ _ Hg Htree). unfold truthy in *. constructor; cbn; lia. }
  unfold prepareJournals. ends_step. ends_step. pose proof (JournalStore_init_serves sys rand binary (journal_args c s) isDir dir (sa_journalStore s) Hbytes Hrun Hsc) as Hs.
  destruct (JournalStore_init _ _ _ _ _ _ _) as [res|]; [|done]. ends_step. eapply wpt_some; [done|]. cbn [post]. ends_steps. subst res.
  destruct Hs as (_ & Hs & _). cbn. split; [done|]. split; [done|]. split; [done|]. intros _. split_and!; (done || lia).
Qed.

(** [checkPathDependentArgs()] as a whole. *)
Lemma checkPathDependentArgs_ends s : args_parsed c s -> (forall path, Forall is_byte (binary path)) ->
  (forall sidecars, scanSidecars (pa_journalDirStr c) dir = Ok sidecars -> Forall sidecar_ok sidecars) ->
  ends (checkPathDependentArgs c init) s (fun _ s' => args_wf c s').
Proof.
  intros Hp Hbytes Hsc. unfold checkPathDependentArgs. eapply ends_seq; [apply check_mode_args_ends|]. intros [] s0 [-> Hmode].
  apply geometry_ends; [done|done|]. clear Hp Hmode s. intros s Hg Ha.
  eapply ends_seq; [by apply check_offset_ends|]. intros [] s1 [-> Hoff].
  eapply ends_seq; [by apply auto_randomAmount_ends|]. intros [] s1 (Hs1 & Ha1). pose proof (geometry_same _ _ Hs1 Hg) as Hg1.
  eapply ends_seq; [by apply check_direct_io_ends|]. intros [] s2 (Hs2 & Ha2 & Hdio). pose proof (geometry_same _ _ Hs2 Hg1) as Hg2.
  eapply ends_seq; [apply align_randomAmount_ends; [done|by rewrite Ha2]|]. intros [] s3 (Hs3 & Ha3 & Hu3).
  pose proof (geometry_same _ _ Hs3 Hg2) as Hg3.
  eapply ends_seq; [apply check_dir_mode_ends|]. intros [] s4 [-> Hdir].
  eapply ends_seq; [by apply check_shared_files_ends|]. intros [] s4 (Hs4 & Hu4 & Ha4 & Hsh). pose proof (geometry_same _ _ Hs4 Hg3) as Hg4.
  ends_step. ends_step.
  eapply ends_seq with (P := fun _ s' => same_sizes s4 s' /\ sa_randomAmount s' = sa_randomAmount s4
    /\ sa_useRandomUnaligned s' = sa_useRandomUnaligned s4); [by ends_steps|].
  intros [] s5 (Hs5 & Ha5 & Hu5). pose proof (geometry_same _ _ Hs5 Hg4) as Hg5.
  eapply ends_mono; [by apply check_journal_ends|]. intros [] s6 (Hs6 & Ha6 & Hu6 & Hj). pose proof (geometry_same _ _ Hs6 Hg5) as Hg6.
  assert (same_sizes s4 s6) as Hs46 by (by eapply same_sizes_trans). assert (same_sizes s3 s6) as Hs36 by (by eapply same_sizes_trans).
  assert (same_sizes s1 s6) as Hs16 by (by do 2 (eapply same_sizes_trans; [done|])).
  assert (same_sizes s s6) as Hs06 by (by eapply same_sizes_trans).
  constructor; [done|..].
  - destruct Hs06 as (_ & -> & _ & -> & ->). done.
  - destruct Hs16 as (_ & Ho & Hf & _ & Hm). intros Hd Hn Hr. unfold mix_multiple in *. rewrite Ho, Hf, Hm. rewrite Hu6, Hu5, Hu4, Hu3. by apply Hdio.
  - rewrite (same_is_dir _ _ Hs36). destruct Hs36 as (_ & _ & -> & -> & _). done.
  - rewrite (same_is_dir _ _ Hs36). intros Hd. destruct (Hsh Hd) as [Hs _]. destruct Hs46 as (_ & _ & -> & -> & _). done.
  - by rewrite Ha6, Ha5.
  - rewrite (same_is_dir _ _ Hs36). intros Hd. destruct (Hsh Hd) as [_ Hs]. destruct Hs46 as (_ & _ & -> & -> & _).
    by rewrite Ha6, Ha5, Hu6, Hu5.
  - intros Hjo. specialize (Hj Hjo). rewrite (same_is_dir _ _ Hs6), Hu6. unfold mix_multiple, journal_args in *.
    by destruct Hs6 as (_ & -> & -> & -> & ->).
Qed.
End stages.

(** ** Opened paths *)

Section opened.
Context {W : Type} (os : Os W) (po : PathOs W) (c : PathArgs).
(** The size of an open file or device, and whether it is a regular file. *)
Context (size : Z -> Z) (regular : Z -> bool).
Hypothesis size_range : forall fd, 0 <= size fd < 2 ^ 63.
Hypothesis fstat_law : forall fd w st w',
  po_fstat po fd w = (inr st, w') -> st_size st = size fd /\ bool_decide (st_mode st = S_IFREG) = regular fd.
Hypothesis lseek_law : forall fd w n w', po_lseek_end po fd w = (inr n, w') -> n = size fd.

#[local] Abbreviation state := (PrepState W).

(** The target holds the whole range of the run; a file that is written may be shorter. *)
Definition target_holds (s : SizeArgs) (fd : Z) : Prop :=
  match sa_benchPathType s with
  | BenchPathType_DIR => True
  | BenchPathType_FILE => pa_runCreateFilesPhase c = false -> regular fd = true -> sa_fileOffset s + sa_fileSize s <= size fd
  | BenchPathType_BLOCKDEV => sa_fileOffset s + sa_fileSize s <= size fd
  end.

(** The range stays within 64 bits. *)
Definition range_ok (s : SizeArgs) : Prop := 0 <= sa_fileOffset s /\ 0 <= sa_fileSize s /\ sa_fileOffset s + sa_fileSize s < TWO64.

(** What the preparation of the paths keeps; the file size is as it was or up to the end of a target. *)
Definition kept (s s' : SizeArgs) : Prop :=
  sa_fileOffset s' = sa_fileOffset s /\ sa_blockSize s' = sa_blockSize s /\ sa_blockSizeMix s' = sa_blockSizeMix s
  /\ sa_randomAmount s' = sa_randomAmount s
  /\ (sa_fileSize s' = sa_fileSize s \/ exists fd, sa_fileOffset s + sa_fileSize s' = size fd).

Lemma kept_refl s : kept s s.
Proof. unfold kept. split_and!; try done. by left. Qed.

Lemma kept_trans s1 s2 s3 : kept s1 s2 -> kept s2 s3 -> kept s1 s3.
Proof.
  intros (Ho & Hb & Hm & Ha & Hf) (Ho' & Hb' & Hm' & Ha' & Hf'). unfold kept. rewrite Ho', Hb', Hm', Ha'. split_and!; try done.
  destruct Hf' as [->|[fd Hf']]; [done|]. right. exists fd. by rewrite <- Ho.
Qed.

(** What the preparation of a path changes: only a file size of 0. *)
Definition sized (s s' : SizeArgs) : Prop :=
  sa_benchPathType s' = sa_benchPathType s /\ kept s s'
  /\ (0 < sa_fileSize s -> sa_fileSize s' = sa_fileSize s) /\ range_ok s'.

Lemma sized_refl s : range_ok s -> sized s s.
Proof. intros Hr. unfold sized. split_and!; (done || apply kept_refl). Qed.

Lemma sized_auto s fd : range_ok s -> sa_fileSize s = 0 -> 0 <= size fd < 2 ^ 63 -> sa_fileOffset s < size fd ->
  sized s (set_fileSize (u64 (size fd - sa_fileOffset s)) s) /\ 0 < u64 (size fd - sa_fileOffset s)
  /\ sa_fileOffset s + u64 (size fd - sa_fileOffset s) = size fd.
Proof.
  intros (Ho & _ & _) Hz Hn Hlt. rewrite u64_small by lia. split; [|lia]. unfold sized, kept, range_ok. cbn. split_and!; try (done || lia).
  right. exists fd. lia.
Qed.

Lemma wpp_pr_os {A} (m : eff W A) (p : state) Q :
  (forall r w, m (pr_world p) = Some (r, w) -> Q r (mkPrep (pr_args p) (pr_fds p) w)) -> wpp (pr_os m) p Q.
Proof. intros H r s' Hm. unfold pr_os, eff_zoom in Hm. destruct (m _) as [[r1 w1]|] eqn:E; [|done]. injection Hm as <- <-. by apply H. Qed.

Lemma wpp_refuse {S} b msg (s : S) Q : (b = false -> Q (Ok tt) s) -> (forall e, Q (Throw e) s) -> wpp (refuse b msg) s Q.
Proof. intros H1 H2. apply wpp_when; [|done]. intros _. by apply wpp_throw. Qed.

(** A call whose result only decides between going on and an exception. *)
Lemma wpp_checked (f : W -> option errno * W) msg (p : state) (Q : result unit -> state -> Prop) :
  (forall w, Q (Ok tt) (mkPrep (pr_args p) (pr_fds p) w)) -> (forall e w, Q (Throw e) (mkPrep (pr_args p) (pr_fds p) w)) ->
  wpp (r ← pr_os (sys f); match r with None => mret tt | Some _ => eff_throw (ProgException msg) end) p Q.
Proof.
  intros H1 H2. apply wpp_bind, wpp_pr_os. intros r w Hs. unfold sys in Hs. destruct (f (pr_world p)) as [e w']. injection Hs as <- <-.
  destruct e; cbn [post]; [by apply wpp_throw|by apply wpp_ret].
Qed.

Definition prepared (p p' : state) (fd : Z) : Prop :=
  pr_fds p' = pr_fds p /\ sized (pr_args p) (pr_args p') /\ (is_dir (pr_args p) = false -> 0 < sa_fileSize (pr_args p'))
  /\ target_holds (pr_args p') fd.
Lemma prepareFileSize_file_spec fd (p : state) : range_ok (pr_args p) -> sa_benchPathType (pr_args p) = BenchPathType_FILE ->
  wpp (prepareFileSize_file os po c fd) p (post (fun _ p' => prepared p p' fd) (fun _ _ => True)).
Proof.
  intros Hr Ht. unfold prepareFileSize_file. apply wpp_bind, wpp_pr_os. intros r w Hs. unfold sys in Hs.
  destruct (po_fstat po fd (pr_world p)) as [[e|st] w1] eqn:Hst; injection Hs as <- <-; cbn [post]; [by apply wpp_throw|].
  apply fstat_law in Hst as [Hsz Hreg]. pose proof (size_range fd) as Hrange. rewrite Hsz, Hreg. rewrite (u64_small (size fd)) by lia.
  set (p1 := mkPrep (pr_args p) (pr_fds p) w1).
  apply wpp_bind, wpp_get. cbn [post]. apply wpp_bind, wpp_refuse; [|done]. intros _. cbn [post].
  apply wpp_bind. eapply wpp_mono with (Q := post (fun _ p2 => pr_fds p2 = pr_fds p /\ sized (pr_args p) (pr_args p2)
    /\ 0 < sa_fileSize (pr_args p2)) (fun _ _ => True)).
  { apply wpp_when; intros Hz; change (pr_args p1) with (pr_args p) in *.
    - apply wpp_bind, wpp_refuse; [|done]. intros Hlt. cbn [post]. apply wpp_modify. cbn.
      destruct (sized_auto (pr_args p) fd) as (H1 & H2 & H3); [done|lia..|]. done.
    - cbn. split; [done|]. split; [by apply sized_refl|]. destruct Hr as (? & ? & ?). lia. }
  intros [[]|e] p2 H2; cbn [post] in *; [|done]. destruct H2 as (Hf2 & Hs2 & Hpos).
  apply wpp_bind, wpp_get. cbn [post]. apply wpp_bind, wpp_refuse; [|done]. intros Hend. cbn [post].
  assert (target_holds (pr_args p2) fd) as Hth.
  { unfold target_holds. destruct Hs2 as (-> & _ & _ & (? & ? & ?)). rewrite Ht. intros Hc Hre. unfold getFileEndOffset in Hend.
    rewrite Hc, Hre, u64_small in Hend by lia. lia. }
  assert (forall w, prepared p (mkPrep (pr_args p2) (pr_fds p2) w) fd) as Hend' by (intros w'; by split_and!).
  destruct p2 as [a2 f2 w2]. cbn in *.
  repeat first [ by apply Hend' | done | apply wpp_when; intros ? | apply wpp_checked; intros | apply wpp_bind ].
Qed.
Lemma prepareFileSize_blockdev_spec fd (p : state) : range_ok (pr_args p) -> sa_benchPathType (pr_args p) = BenchPathType_BLOCKDEV ->
  wpp (prepareFileSize_blockdev po fd) p (post (fun _ p' => prepared p p' fd) (fun _ _ => True)).
Proof.
  intros Hr Ht. unfold prepareFileSize_blockdev. apply wpp_bind, wpp_pr_os. intros r w Hs. unfold sys in Hs.
  destruct (po_lseek_end po fd (pr_world p)) as [[e|n] w1] eqn:Hst; injection Hs as <- <-; cbn [post]; [by apply wpp_throw|].
  apply lseek_law in Hst as ->. pose proof (size_range fd) as Hrange. rewrite (u64_small (size fd)) by lia.
  set (p1 := mkPrep (pr_args p) (pr_fds p) w1). apply wpp_bind, wpp_refuse; [|done]. intros Hnz. cbn [post].
  apply wpp_bind, wpp_get. cbn [post]. apply wpp_bind, wpp_refuse; [|done]. intros Hlt. cbn [post].
  change (pr_args p1) with (pr_args p) in *.
  apply wpp_bind. eapply wpp_mono with (Q := post (fun _ p2 => pr_fds p2 = pr_fds p /\ sized (pr_args p) (pr_args p2)
    /\ 0 < sa_fileSize (pr_args p2)) (fun _ _ => True)).
  { pose proof Hr as (? & ? & ?). apply wpp_when; intros Hz; [apply wpp_modify|]; cbn.
    - destruct (sized_auto (pr_args p) fd) as (H1' & H2 & H3); [done|lia|lia|lia|]. done.
    - split; [done|]. split; [by apply sized_refl|lia]. }
  intros [[]|e] p2 H2; cbn [post] in *; [|done]. destruct H2 as (Hf2 & Hs2 & Hpos).
  apply wpp_bind, wpp_get. cbn [post]. apply wpp_bind, wpp_refuse; [|done]. intros Hend. cbn [post].
  apply wpp_pr_os. intros r w [= <- <-]. cbn. split; [done|]. split; [done|]. split; [done|]. unfold target_holds. cbn.
  destruct Hs2 as (-> & _ & _ & (? & ? & ?)). rewrite Ht. unfold getFileEndOffset in Hend. rewrite u64_small in Hend by lia. lia.
Qed.

Lemma prepareFileSize_spec fd (p : state) : range_ok (pr_args p) ->
  wpp (prepareFileSize os po c fd) p (post (fun _ p' => prepared p p' fd) (fun _ _ => True)).
Proof.
  intros Hr. unfold prepareFileSize. apply wpp_bind, wpp_get. cbn [post].
  destruct (sa_benchPathType (pr_args p)) eqn:Ht; cbn [eff_when].
  - apply wpp_bind, wpp_ret. cbn [post]. apply wpp_ret. cbn. split; [done|]. split; [by apply sized_refl|].
    unfold target_holds, is_dir. by rewrite Ht.
  - apply wpp_bind. eapply wpp_mono; [by apply prepareFileSize_file_spec|]. intros [[]|e] p' H; cbn [post] in *; [|done]. by apply wpp_ret.
  - apply wpp_bind, wpp_ret. cbn [post]. by apply prepareFileSize_blockdev_spec.
Qed.

(** The paths up to here: one type, a file size, and room for the range. *)
Definition paths_ok (p : state) : Prop :=
  range_ok (pr_args p) /\ Forall (target_holds (pr_args p)) (pr_fds p)
  /\ (pr_fds p <> [] -> is_dir (pr_args p) = false -> 0 < sa_fileSize (pr_args p)).

(** Only the world changes. *)
Lemma wpp_pr_world {A} (f : W -> A * W) (p : state) Q : (forall a w, Q (Ok a) (mkPrep (pr_args p) (pr_fds p) w)) -> wpp (pr_os (sys f)) p Q.
Proof. intros H. apply wpp_pr_os. intros r w Hs. unfold sys in Hs. destruct (f _) as [a w']. injection Hs as <- <-. apply H. Qed.

Lemma findBenchPathType_spec path (p : state) (Q : result BenchPathType -> state -> Prop) :
  (forall t w, Q (Ok t) (mkPrep (pr_args p) (pr_fds p) w)) -> (forall e p', Q (Throw e) p') ->
  wpp (findBenchPathType po path) p Q.
Proof.
  intros H HE. unfold findBenchPathType. apply wpp_bind, wpp_pr_world. intros res w. cbn [post].
  destruct res as [[]|[[] ? ?]]; cbn [st_mode]; first [by apply wpp_throw|by apply wpp_ret].
Qed.
Lemma prepare_path_spec path (p : state) : paths_ok p ->
  wpp (prepare_path os po c path) p (post (fun _ p' => paths_ok p' /\ length (pr_fds p') = S (length (pr_fds p)) /\ kept (pr_args p) (pr_args p')) (fun _ _ => True)).
Proof.
  intros (Hr & Hall & Hpos). unfold prepare_path. apply wpp_bind, findBenchPathType_spec; [|done]. intros t w1. cbn [post].
  apply wpp_bind, wpp_get. cbn [post pr_fds]. apply wpp_bind.
  eapply wpp_mono with (Q := post (fun _ p2 => pr_fds p2 = pr_fds p /\ range_ok (pr_args p2) /\ kept (pr_args p) (pr_args p2)
    /\ (pr_fds p <> [] -> pr_args p2 = pr_args p)) (fun _ _ => True)).
  { case_bool_decide as Hnil; [apply wpp_modify; cbn; unfold kept; cbn; split_and!; (done || by left)|]. apply wpp_bind, wpp_get. cbn [post].
    apply wpp_refuse; [|done]. intros _. cbn. split_and!; (done || apply kept_refl). }
  intros [[]|e] p2 H2; cbn [post] in *; [|done]. destruct H2 as (Hf2 & Hr2 & Hk2 & Hsame).
  apply wpp_bind, wpp_get. cbn [post]. apply wpp_bind.
  eapply wpp_mono with (Q := post (fun _ p3 => pr_args p3 = pr_args p2 /\ pr_fds p3 = pr_fds p) (fun _ _ => True)).
  { apply wpp_when; intros _; [|done]. unfold checkPathExists. apply wpp_bind, wpp_bind, wpp_pr_world. intros a w. cbn [post].
    apply wpp_ret. cbn [post]. by apply wpp_refuse. }
  intros [[]|e] p3 H3; cbn [post] in *; [|done]. destruct H3 as (Ha3 & Hf3).
  do 3 (apply wpp_bind, wpp_refuse; [|done]; intros _; cbn [post]).
  apply wpp_bind, wpp_pr_world. intros [e|fd] w4; cbn [post]; [by apply wpp_throw|]. apply wpp_bind, wpp_modify. cbn [post pr_fds].
  eapply wpp_mono; [apply prepareFileSize_spec; cbn; by rewrite Ha3|]. intros [[]|e] p5 H5; cbn [post] in *; [|done].
  destruct H5 as (Hf5 & (Ht5 & Hk5 & Hs5 & Hr5) & Hpos5 & Hth5). cbn in Hf5, Ht5, Hk5, Hs5, Hpos5. rewrite Hf3 in Hf5. rewrite Ha3 in *.
  pose proof Hk5 as [Ho5 _]. split; [|split; [rewrite Hf5, length_app; cbn; lia|by eapply kept_trans]]. split; [done|]. rewrite Hf5. split.
  - apply Forall_app. split; [|by apply Forall_singleton]. destruct (decide (pr_fds p = [])) as [->|Hne]; [done|].
    rewrite (Hsame Hne) in *. eapply Forall_impl; [exact Hall|]. intros fd' Hth. unfold target_holds in *. rewrite Ht5, Ho5.
    destruct (sa_benchPathType (pr_args p)) eqn:Ht; [done|..]; (rewrite Hs5; [done|]); apply Hpos; (done || unfold is_dir; by rewrite Ht).
  - intros _. unfold is_dir in *. by rewrite Ht5.
Qed.
Lemma prepareBenchPathFDsVec_spec (p : state) : range_ok (pr_args p) ->
  wpp (prepareBenchPathFDsVec os po c) p
    (post (fun _ p' => paths_ok p' /\ length (pr_fds p') = length (pa_benchPathsVec c) /\ kept (pr_args p) (pr_args p')) (fun _ _ => True)).
Proof.
  intros Hr. unfold prepareBenchPathFDsVec. apply wpp_bind, wpp_get. cbn [post]. apply wpp_bind.
  apply (wpp_for (fun p' => pr_args p' = pr_args p)); [done| |].
  { intros fd p1 _ Ha. apply wpp_bind, wpp_pr_world. intros a w. by apply wpp_ret. }
  intros p1 Ha. cbn [post]. apply wpp_bind, wpp_modify. cbn [post].
  assert (forall l p2, paths_ok p2 -> wpp (eff_for l (prepare_path os po c)) p2
    (post (fun _ p' => paths_ok p' /\ length (pr_fds p') = (length (pr_fds p2) + length l)%nat
      /\ kept (pr_args p2) (pr_args p')) (fun _ _ => True))) as Hloop.
  { induction l as [|path l IH]; intros p2 Hp2; [apply wpp_ret; cbn; split_and!; (done || lia || apply kept_refl)|]. cbn. apply wpp_bind.
    eapply wpp_mono; [by apply prepare_path_spec|]. intros [[]|e] p3 H3; cbn [post] in *; [|done]. destruct H3 as (Hp3 & Hl3 & Hk3).
    eapply wpp_mono; [by apply IH|]. intros [[]|e] p4 H4; cbn [post] in *; [|done]. destruct H4 as (Hp4 & Hl4 & Hk4).
    split; [done|]. split; [lia|by eapply kept_trans]. }
  rewrite <- Ha. apply (Hloop _ (set_pr_fds [] p1)). split; [cbn; by rewrite Ha|]. by split.
Qed.
End opened.

(** ** Theorems *)

(** C16: Opening the benchmark paths: when it succeeds there is one descriptor per path, in the mode of
    files and block devices the file size is not 0 (detected if it was not given), and every block
    device, and every regular file unless it is to be written, holds the whole range from the
    offset on. *)
Theorem opened_paths_hold_range {W : Type} (os : Os W) (po : PathOs W) (c : PathArgs) (size : Z -> Z) (regular : Z -> bool)
    (p p' : PrepState W) :
  (forall fd, 0 <= size fd < 2 ^ 63) ->
  (forall fd w st w', po_fstat po fd w = (inr st, w') ->
     st_size st = size fd /\ bool_decide (st_mode st = S_IFREG) = regular fd) ->
  (forall fd w n w', po_lseek_end po fd w = (inr n, w') -> n = size fd) ->
  range_ok (pr_args p) -> pa_benchPathsVec c <> [] -> prepareBenchPathFDsVec os po c p = Some (Ok tt, p') ->
  length (pr_fds p') = length (pa_benchPathsVec c) /\ (is_dir (pr_args p') = false -> 0 < sa_fileSize (pr_args p'))
  /\ Forall (target_holds c size regular (pr_args p')) (pr_fds p').
Proof.
  intros Hs Hf Hl Hr Hne Hrun.
  destruct (prepareBenchPathFDsVec_spec os po c size regular Hs Hf Hl p Hr _ _ Hrun) as ((_ & Hall & Hpos) & Hlen & _).
  split; [done|]. split; [|done]. apply Hpos. intros H0. rewrite H0 in Hlen. by destruct (pa_benchPathsVec c).
Qed.

(** C15: Arguments that are accepted are well-formed.  [checkPathDependentArgs()] comes back for all
    parsed arguments, without a division by zero, and when it does not throw: file size, block
    size and mix fit to one another and to the alignment of direct, random and strided I/O;
    offsets are aligned; every thread has at least one block; the random amount is a positive
    multiple of one block per thread; and with a journal all sizes are multiples of its block
    size and every target has a journal that covers the run. *)
Theorem accepted_args_wf sys rand binary isDir dir c s :
  args_parsed c s -> (forall path, Forall is_byte (binary path)) ->
  (forall sidecars, scanSidecars (pa_journalDirStr c) dir = Ok sidecars -> Forall sidecar_ok sidecars) ->
  exists r s',
    checkPathDependentArgs c (fun args store => JournalStore_init sys rand binary args isDir dir store) s = Some (r, s')
    /\ (r = Ok tt -> args_wf c s').
Proof.
  intros Hp Hb Hsc. destruct (checkPathDependentArgs_ends c sys rand binary isDir dir s Hp Hb Hsc) as (r & s' & Hrun & Hpost).
  exists r, s'. split; [done|]. by intros ->.
Qed.

(** With a single block size accepted arguments leave a share of whole blocks for each worker. *)
Lemma accepted_rand_args c s globalPhase phase rank :
  args_wf c s -> 0 < num_paths c -> is_dir s = false -> runs_io c = true -> pa_useRandomOffsets c = true ->
  isMix (sa_blockSizeMix s) = false -> 0 <= rank < pa_numDataSetThreads c ->
  rand_args_ok (gen_args c s globalPhase phase rank) (num_paths c).
Proof.
  intros Hwf Hn Hd Hr Hrnd Hm Hrank. pose proof (aw_geometry _ _ Hwf) as Hg. destruct (ge_mode _ _ Hg Hd) as [Ht Hf].
  pose proof (ge_mix _ _ Hg) as Hmix. pose proof (mix_ok_sizes _ Hmix) as Hsz. pose proof (ge_block _ _ Hg Hf) as Hb.
  assert (sa_fileSize s `mod` sa_blockSize s = 0) as Hmod.
  { rewrite Hb, <- (mix_single_sizes _ Hmix Hm). apply (ge_align _ _ Hg); [|done]. unfold needs_alignment. rewrite Hrnd. lia. }
  pose proof (aw_shared _ _ Hwf Hd Hr) as Hth. unfold num_blocks, truthy in Hth. rewrite Hmod, Z.add_0_r in Hth. cbn in Hth.
  pose proof (ge_size _ _ Hg) as (? & ? & ?). pose proof (ge_bound _ _ Hg).
  assert (0 <= sa_fileSize s / sa_blockSize s <= sa_fileSize s) by (split; [apply Z.div_pos|apply Z.div_le_upper_bound]; nia).
  rewrite u64_small in Hth by lia. pose proof (aw_amount _ _ Hwf). pose proof (ge_threads _ _ Hg). pose proof (ge_total _ _ Hg).
  unfold rand_args_ok. cbn. split_and!; (done || lia).
Qed.

(** Random access to files and block devices with accepted arguments and a single block size:
    whichever generator the arguments select, each worker's accesses lie within its own share of
    the files' bytes, which is at least one block (so the workers never touch a common byte), all
    shares together lie within the files, the loop over the generator ends, no access is larger
    than the block size, and the worker transfers exactly its part of the amount, of which there
    is at least one block unless the run is an infinite loop of unaligned accesses. *)
Lemma accepted_random_workers {R D} `{!RandAlgo R, !RandAlgo D} sys rand binary isDir dir c s s' globalPhase phase rank (e : Env R D) :
  args_parsed c s -> (forall path, Forall is_byte (binary path)) ->
  (forall sidecars, scanSidecars (pa_journalDirStr c) dir = Ok sidecars -> Forall sidecar_ok sidecars) ->
  checkPathDependentArgs c (fun args store => JournalStore_init sys rand binary args isDir dir store) s = Some (Ok tt, s') ->
  is_dir s' = false -> runs_io c = true -> pa_useRandomOffsets c = true -> pa_useStridedAccess c = false ->
  isMix (sa_blockSizeMix s') = false -> 0 <= rank < pa_numDataSetThreads c -> env_ok e ->
  let a := gen_args c s' globalPhase phase rank in
  let share := rand_share a (num_paths c) in
  let amount := sa_randomAmount s' / pa_numDataSetThreads c in
  sa_blockSize s' <= share /\ (rank + 1) * share <= sa_fileSize s' * num_paths c
  /\ (pa_doInfiniteIOLoop c && sa_useRandomUnaligned s' = false -> sa_blockSize s' <= amount)
  /\ exists g e1 ios g2 e2, fileModeRandGen a (num_paths c) e = Ok (g, e1)
    /\ og_drain (Z.to_nat amount) g e1 = Some (ios, (g2, e2)) /\ Zsum (snd <$> ios) = amount
    /\ Forall (fun '(off, n) => 0 < n <= sa_blockSize s' /\ rank * share <= off /\ off + n <= (rank + 1) * share) ios.
Proof.
  intros Hp Hb Hsc Hrun Hd Hr Hrnd Hstr Hm Hrank He a share amount.
  destruct (checkPathDependentArgs_ends c sys rand binary isDir dir s Hp Hb Hsc) as (r & s1 & Hrun' & Hwf).
  rewrite Hrun in Hrun'. injection Hrun' as <- <-. cbn [post] in Hwf. pose proof (ap_total _ _ Hp) as [Hn _].
  pose proof (accepted_rand_args c s' globalPhase phase rank Hwf Hn Hd Hr Hrnd Hm Hrank) as Hok.
  destruct (rand_share_bounds _ _ Hok) as ([_ Hshare] & _). destruct (rand_workers_stay_apart a (num_paths c) e Hok He Hstr) as [Hin Hdrain].
  split; [done|]. split; [done|]. split; [|done]. intros Hinf.
  destruct (aw_random _ _ Hwf Hd Hr Hrnd) as (_ & Hpos & Hge & Hal). pose proof (ge_threads _ _ (aw_geometry _ _ Hwf)) as Hth.
  apply Z.div_le_lower_bound; [done|]. rewrite Z.mul_comm.
  destruct (pa_doInfiniteIOLoop c); [|by apply Hge]. pose proof (aw_geometry _ _ Hwf) as Hg. destruct (ge_mode _ _ Hg Hd) as [_ Hf].
  pose proof (mix_ok_sizes _ (ge_mix _ _ Hg)) as Hsz. pose proof (ge_block _ _ Hg Hf) as Hblk.
  assert (0 < sa_blockSize s' * pa_numDataSetThreads c) as Hset by (apply Z.mul_pos_pos; lia).
  specialize (Hal Hinf). apply Z.mod_divide in Hal as [k Hk]; [|lia]. assert (1 <= k) by nia. rewrite Hk. nia.
Qed.

(** ** Reading two files whose size is not given *)

Definition demo_file_size (fd : Z) : Z := if fd =? 3 then 8192 else 10000.

Definition demo_path_os : PathOs mem_world := {|
  po_stat _ w := (inr (mkStat S_IFREG 0 0), w);
  po_fstat fd w := (inr (mkStat S_IFREG (demo_file_size fd) 0), w);
  po_open path _ w := (inr (if String.eqb path "/data/f" then 3 else 4), w);
  po_lseek_end fd w := (inr (demo_file_size fd), w);
  po_lseek_start _ w := w;
|}.

Definition demo_read_args : PathArgs :=
  mkPathArgs BenchMode_POSIX ["/data/f"; "/data/g"] "" false false false true false false 0 false [] 0 false false false false ""
    false false false false false false false false 1 1 2 "" 4096 false.

Definition demo_unsized : SizeArgs :=
  mkSizeArgs BenchPathType_DIR 4096 0 4096 (mix_finish [(4096, 1)]) 0 false false JournalStore_new.

(** The size behind the offset in the first file. *)
Definition demo_sized : SizeArgs := set_fileSize 4096 (set_benchPathType BenchPathType_FILE demo_unsized).

Lemma opened_paths_hold_range_witness :
  length [3; 4] = 2%nat /\ (is_dir demo_sized = false -> 0 < 4096)
  /\ Forall (target_holds demo_read_args demo_file_size (fun _ => true) demo_sized) [3; 4].
Proof.
  refine (opened_paths_hold_range mem_os demo_path_os demo_read_args demo_file_size (fun _ => true)
    (mkPrep demo_unsized [] (mkMem ∅ [] [] 0)) (mkPrep demo_sized [3; 4] (mkMem ∅ [] [] 0)) _ _ _ _ _ _).
  - intros fd. unfold demo_file_size. destruct (fd =? 3); lia.
  - intros fd w st w' [= <- <-]. done.
  - intros fd w n w' [= <- <-]. done.
  - unfold range_ok. cbn. lia.
  - discriminate.
  - vm_compute. reflexivity.
Defined.

(** ** Random writes to one file by two workers *)

Definition demo_path_args (numThreads : Z) : PathArgs :=
  mkPathArgs BenchMode_POSIX ["/data/f"] "" false false true false false false 0 false [] 0 false false true false "" false false
    false false false false false false 1 1 numThreads "" 4096 false.

Definition demo_size_args (fileSize randomAmount : Z) (mix : BlockSizeMix) : SizeArgs :=
  mkSizeArgs BenchPathType_FILE 0 fileSize (maxSize mix) mix randomAmount false false JournalStore_new.

Definition demo_single : BlockSizeMix := mix_finish [(4096, 1)].

Lemma demo_args_parsed n : 0 < n <= 10 -> args_parsed (demo_path_args n) (demo_size_args 10000 0 demo_single).
Proof.
  intros Hn. constructor; cbn; try (done || lia). apply (single_mix_ok 4096). lia.
Qed.

Definition demo_check (c : PathArgs) (s : SizeArgs) : option (result unit * SizeArgs) :=
  checkPathDependentArgs c (fun args store => JournalStore_init (fun _ _ => true) (fun _ => (1, 2)) (fun _ => []) args true (Some []) store) s.

(** The file size is reduced to whole blocks and the amount set to it. *)
Lemma demo_accepted : demo_check (demo_path_args 2) (demo_size_args 10000 0 demo_single)
  = Some (Ok tt, set_ignoreDelErrors (demo_size_args 8192 8192 demo_single)).
Proof. vm_compute. reflexivity. Qed.

Lemma demo_no_sidecars c sidecars : scanSidecars (pa_journalDirStr c) (Some []) = Ok sidecars -> Forall sidecar_ok sidecars.
Proof. intros [= <-]. constructor. Qed.

Lemma accepted_args_wf_witness :
  exists s', demo_check (demo_path_args 2) (demo_size_args 10000 0 demo_single) = Some (Ok tt, s') /\ args_wf (demo_path_args 2) s'.
Proof.
  destruct (accepted_args_wf (fun _ _ => true) (fun _ => (1, 2)) (fun _ => []) true (Some []) (demo_path_args 2)
    (demo_size_args 10000 0 demo_single)) as (r & s' & Hrun & Hwf).
  - apply demo_args_parsed. lia.
  - intros path. constructor.
  - intros sidecars. apply demo_no_sidecars.
  - exists s'. change (demo_check (demo_path_args 2) (demo_size_args 10000 0 demo_single) = Some (r, s')) in Hrun.
    pose proof demo_accepted as Hacc. rewrite Hrun in Hacc. injection Hacc as -> Hs'. split; [exact Hrun|]. by apply Hwf.
Defined.

(** With a mix of block sizes the check counts the blocks of the largest size rounded up, the
    generator rounded down: two workers on three small blocks are accepted, get an empty share
    each, and both access the same bytes, at offset 0. *)
Definition demo_pair : BlockSizeMix := mix_finish [(4096, 1); (8192, 1)].

Definition first_access (rank : Z) : option (Z * Z) :=
  s' ← snd <$> demo_check (demo_path_args 2) (demo_size_args 12288 32768 demo_pair);
  match fileModeRandGen (gen_args (demo_path_args 2) s' BenchPhase_CREATEFILES BenchPhase_CREATEFILES rank) 1 demo_env with
  | Ok (g, e) => '(ios, _) ← og_drain 10 g e; head ios
  | Throw _ => None
  end.

Lemma mixed_random_workers_collide :
  fst <$> demo_check (demo_path_args 2) (demo_size_args 12288 32768 demo_pair) = Some (Ok tt)
  /\ (fst <$> first_access 0) = Some 0 /\ (fst <$> first_access 1) = Some 0.
Proof. vm_compute. done. Qed.
