(* ===== verification/Workers.v ===== *)
(** The phase protocol of the worker threads: workers/Worker.{h,cpp}, workers/WorkersSharedData.{h,cpp},
    the [run()] methods of workers/LocalWorker.cpp and workers/RemoteWorker.cpp, and the operations
    of workers/WorkerManager.cpp on all workers.

    A worker thread is a program counter with the flags of its object.  What happens while the
    shared mutex is held is one step; the plain and atomic variables that a worker accesses
    without the mutex are accessed in steps of their own.  Waiting for the condition variable is
    the state [W_sleep], which only [notify_all()] or a spurious wake-up ends. *)

From S2P Require Import Prelude Common.

#[local] Open Scope list_scope.
#[local] Open Scope nat_scope.

(** ** Definitions *)

(** A [LocalWorker] is a thread of this process, a [RemoteWorker] the proxy of a service host. *)
Inductive worker_kind : Type := LocalWorker | RemoteWorker.

(** Where a worker is in [run()].  Bench IDs are numbers; 0 is the nil UUID.

    - [W_prep]: the preparation phase;
    - [W_wait old], [W_sleep old]: in [waitForNextPhase(old)], about to look at the bench ID or
      waiting for the condition;
    - [W_go]: returned from [waitForNextPhase()], the new bench ID is not read yet;
    - [W_work id]: in the phase [id];
    - [W_inc next]: about to call [incNumWorkersDone()], then waits for the next phase after
      [next] or returns;
    - [W_catchInt], [W_errInc]: in the handler of [WorkerInterruptedException], of other exceptions;
    - [W_returned]: the thread has ended. *)
Inductive worker_pc : Type :=
  | W_prep
  | W_wait (oldBenchID : nat)
  | W_sleep (oldBenchID : nat)
  | W_go
  | W_work (benchID : nat)
  | W_inc (next : option nat)
  | W_catchInt
  | W_errInc
  | W_returned.

Record Worker : Type := mkWorker {
  w_kind : worker_kind;
  w_pc : worker_pc;
  phaseFinished : bool;
  isInterruptionRequested : bool;
  stoneWallTriggered : bool;
  workerGotPhaseWork : bool;
}.

(** A new worker object, whose thread starts with the preparations. *)
Definition Worker_new (k : worker_kind) : Worker := mkWorker k W_prep false false false true.

(** The members of [WorkersSharedData] that the mutex protects. *)
Record WorkersSharedData : Type := mkShared {
  currentBenchID : nat;
  currentBenchPhase : BenchPhase;
  numWorkersDone : nat;
  numWorkersDoneWithError : nat;
}.

Definition set_pc (pc : worker_pc) (w : Worker) : Worker :=
  mkWorker (w_kind w) pc (phaseFinished w) (isInterruptionRequested w) (stoneWallTriggered w) (workerGotPhaseWork w).

Definition set_finished (w : Worker) : Worker :=
  mkWorker (w_kind w) (w_pc w) true (isInterruptionRequested w) (stoneWallTriggered w) (workerGotPhaseWork w).

Definition set_gotWork (b : bool) (w : Worker) : Worker :=
  mkWorker (w_kind w) (w_pc w) (phaseFinished w) (isInterruptionRequested w) (stoneWallTriggered w) b.

Definition resetNumWorkersDoneUnlocked (sh : WorkersSharedData) : WorkersSharedData :=
  mkShared (currentBenchID sh) (currentBenchPhase sh) 0 0.

Definition incNumWorkersDoneUnlocked (sh : WorkersSharedData) : WorkersSharedData :=
  mkShared (currentBenchID sh) (currentBenchPhase sh) (S (numWorkersDone sh)) (numWorkersDoneWithError sh).

Definition incNumWorkersDoneWithError (sh : WorkersSharedData) : WorkersSharedData :=
  mkShared (currentBenchID sh) (currentBenchPhase sh) (numWorkersDone sh) (S (numWorkersDoneWithError sh)).

(** [Worker::incNumWorkersDone()]: the new counters and whether this worker creates the
    stonewall statistics of all workers. *)
Definition Worker_incNumWorkersDone (runAsService : bool) (numWorkersTotal : nat) (w : Worker) (sh : WorkersSharedData)
    : WorkersSharedData * bool :=
  let lastFinisherTrigger := if runAsService then false else S (numWorkersDone sh) =? numWorkersTotal in
  let triggerStoneWall := negb (stoneWallTriggered w) && (workerGotPhaseWork w || lastFinisherTrigger) in
  (incNumWorkersDoneUnlocked sh, triggerStoneWall).

(** One look at the bench ID in [waitForNextPhase()], the mutex held. *)
Definition waitForNextPhase_check (oldBenchID : nat) (w : Worker) (sh : WorkersSharedData) : worker_pc :=
  if isInterruptionRequested w then W_catchInt
  else if oldBenchID =? currentBenchID sh then W_sleep oldBenchID
  else W_go.

(** What can happen next in a worker: the next statement of the protocol, the end of its
    preparations or of its work on the phase (with the value of [workerGotPhaseWork]), an
    exception out of them, for a remote worker an error while it collects the results after an
    interruption, or a spurious wake-up. *)
Inductive worker_action : Type :=
  | A_step
  | A_ok (gotWork : bool)
  | A_throw
  | A_interrupted
  | A_interruptedError
  | A_spurious.

(** What other threads may observe. *)
Inductive event : Type :=
  | E_prepare
  | E_start (p : BenchPhase)
  | E_begin (i : nat) (p : BenchPhase)
  | E_done (i : nat)
  | E_error (i : nat)
  | E_exit (success : bool).

(** The effect of a step on the rest of the process. *)
Record effect : Type := mkEffect {
  e_worker : Worker;
  e_shared : WorkersSharedData;
  e_notify : bool;
  e_stonewall : bool;
  e_event : option event;
}.

Definition local_effect (sh : WorkersSharedData) (w : Worker) : option effect := Some (mkEffect w sh false false None).

(** One step of worker [i] of [total] in [run()]. *)
Definition worker_step (runAsService : bool) (total i : nat) (a : worker_action) (w : Worker) (sh : WorkersSharedData)
    : option effect :=
  match w_pc w, a with
  | W_prep, A_ok _ => local_effect sh (set_pc (W_inc (Some 0)) (set_finished w))
  | W_prep, A_throw => local_effect sh (set_pc W_errInc w)
  | W_prep, A_interrupted => if isInterruptionRequested w then local_effect sh (set_pc W_catchInt w) else None
  | W_inc next, A_step =>
      let '(sh', trigger) := Worker_incNumWorkersDone runAsService total w sh in
      Some (mkEffect (set_pc (match next with Some id => W_wait id | None => W_returned end) w) sh' true trigger
              (Some (E_done i)))
  | W_wait old, A_step => local_effect sh (set_pc (waitForNextPhase_check old w sh) w)
  | W_sleep old, A_spurious => local_effect sh (set_pc (W_wait old) w)
  | W_go, A_step =>
      Some (mkEffect (set_pc (W_work (currentBenchID sh)) w) sh false false (Some (E_begin i (currentBenchPhase sh))))
  | W_work id, A_ok gotWork =>
      if decide (currentBenchPhase sh = BenchPhase_TERMINATE) then
        local_effect sh (set_pc (match w_kind w with LocalWorker => W_inc None | RemoteWorker => W_returned end) w)
      else local_effect sh (set_pc (W_inc (Some id)) (set_finished (set_gotWork gotWork w)))
  | W_work _, A_throw => local_effect sh (set_pc W_errInc w)
  | W_work _, A_interrupted =>
      if isInterruptionRequested w && bool_decide (currentBenchPhase sh <> BenchPhase_TERMINATE) then
        match w_kind w with
        | LocalWorker => local_effect sh (set_pc W_catchInt w)
        | RemoteWorker => local_effect sh (set_pc (W_inc None) (set_finished w))
        end
      else None
  | W_work _, A_interruptedError =>
      if isInterruptionRequested w && bool_decide (currentBenchPhase sh <> BenchPhase_TERMINATE) then
        match w_kind w with
        | LocalWorker => None
        | RemoteWorker => local_effect sh (set_pc W_errInc (set_finished w))
        end
      else None
  | W_catchInt, A_step =>
      if phaseFinished w then local_effect sh (set_pc W_returned w)
      else match w_kind w with
           | LocalWorker => local_effect sh (set_pc (W_inc None) (set_finished w))
           | RemoteWorker => local_effect sh (set_pc W_errInc w)
           end
  | W_errInc, A_step =>
      Some (mkEffect (set_pc W_returned w) (incNumWorkersDoneWithError sh) true false (Some (E_error i)))
  | _, _ => None
  end.

(** *** Operations on all workers *)

Definition wake (w : Worker) : Worker :=
  match w_pc w with W_sleep old => set_pc (W_wait old) w | _ => w end.

(** [condition.notify_all()]. *)
Definition notify_all (ws : list Worker) : list Worker := wake <$> ws.

(** The flag that [createStoneWallStats()] sets. *)
Definition createStoneWallStats (w : Worker) : Worker :=
  mkWorker (w_kind w) (w_pc w) (phaseFinished w) (isInterruptionRequested w) true (workerGotPhaseWork w).

Definition resetStats (w : Worker) : Worker :=
  mkWorker (w_kind w) (w_pc w) false (isInterruptionRequested w) false true.

Definition interruptExecution (w : Worker) : Worker :=
  mkWorker (w_kind w) (w_pc w) (phaseFinished w) true (stoneWallTriggered w) (workerGotPhaseWork w).

Definition interruptAndNotifyWorkers (ws : list Worker) : list Worker := notify_all (interruptExecution <$> ws).

(** [startNextPhase()]; [newBenchID] is the new UUID. *)
Definition startNextPhase (newBenchPhase : BenchPhase) (newBenchID : nat) (ws : list Worker) (sh : WorkersSharedData)
    : list Worker * WorkersSharedData :=
  let sh := resetNumWorkersDoneUnlocked sh in
  (notify_all (resetStats <$> ws),
   mkShared newBenchID newBenchPhase (numWorkersDone sh) (numWorkersDoneWithError sh)).

(** [prepareThreads()] up to the start of the threads. *)
Definition prepareThreads (kinds : list worker_kind) (sh : WorkersSharedData) : list Worker * WorkersSharedData :=
  (Worker_new <$> kinds, mkShared 0 (currentBenchPhase sh) 0 0).

(** [checkWorkersDoneUnlocked()]: an error in a worker, or whether all are done; the workers are
    interrupted on an error and after a signal of the user. *)
Definition checkWorkersDoneUnlocked (gotUserInterruptSignal : bool) (ws : list Worker) (sh : WorkersSharedData)
    : result bool * list Worker :=
  let outNumWorkersDone := numWorkersDone sh + numWorkersDoneWithError sh in
  if negb (numWorkersDoneWithError sh =? 0)
  then (Throw (WorkerException "Worker encountered error"), interruptAndNotifyWorkers ws)
  else (Ok (outNumWorkersDone =? length ws),
        if gotUserInterruptSignal then interruptAndNotifyWorkers ws else ws).

(** *** The end of a phase for one worker *)

(** [LocalWorker::finishPhase()]: the elapsed time, if the worker had anything to do. *)
Definition finishPhase_elapsed (gotWork : bool) (phaseStartT now : Z) : list Z :=
  if gotWork then [u64 (Z.quot (now - phaseStartT) 1000)] else [].
