(* ===== verification/Coordinator.v ===== *)
(** The coordinator of a run (Coordinator.cpp): the order of the phases, the loop over them with
    its interruption checks, the rotation of hosts and the end of the program, together with the
    worker threads of Workers.v.

    The coordinator and the workers interleave freely; the signal handler may run at any time.
    The phase protocol is compared with [spec_step], an abstract monitor of the observable events. *)

From S2P Require Import Prelude Common Workers.

#[local] Open Scope list_scope.
#[local] Open Scope nat_scope.

(** ** The order of the phases *)

(** The choices of the user that [runBenchmarks()] looks at. *)
Record PhaseChoice : Type := mkChoice {
  runCreateDirsPhase : bool; runS3BucketAclPut : bool; runS3PutBucketMetadata : bool; runS3StatDirs : bool;
  runS3GetBucketMetadata : bool; runCreateFilesPhase : bool; runS3MPUSharingCompletionPhase : bool; runS3AclPut : bool;
  runS3PutObjectMetadata : bool; runStatFilesPhase : bool; runS3GetObjectMetadata : bool; runS3AclGet : bool;
  runListObjPhase : bool; runListObjParallelPhase : bool; runReadPhase : bool; runS3DelObjectMetadata : bool;
  runMultiDelObjPhase : bool; runDeleteFilesPhase : bool; runS3DelBucketMetadata : bool; runS3BucketAclGet : bool;
  runDeleteDirsPhase : bool; runSyncPhase : bool; runDropCachesPhase : bool;
  iterations : nat;
  doRotateHosts : bool;
}.

Definition allBenchPhasesArray (c : PhaseChoice) : list (BenchPhase * bool) :=
  [ (BenchPhase_CREATEDIRS, runCreateDirsPhase c); (BenchPhase_PUTBUCKETACL, runS3BucketAclPut c);
    (BenchPhase_PUT_S3_BUCKET_MD, runS3PutBucketMetadata c); (BenchPhase_STATDIRS, runS3StatDirs c);
    (BenchPhase_GET_S3_BUCKET_MD, runS3GetBucketMetadata c); (BenchPhase_CREATEFILES, runCreateFilesPhase c);
    (BenchPhase_S3MPUCOMPLETE, runS3MPUSharingCompletionPhase c); (BenchPhase_PUTOBJACL, runS3AclPut c);
    (BenchPhase_PUT_S3_OBJECT_MD, runS3PutObjectMetadata c); (BenchPhase_STATFILES, runStatFilesPhase c);
    (BenchPhase_GET_S3_OBJECT_MD, runS3GetObjectMetadata c); (BenchPhase_GETOBJACL, runS3AclGet c);
    (BenchPhase_LISTOBJECTS, runListObjPhase c); (BenchPhase_LISTOBJPARALLEL, runListObjParallelPhase c);
    (BenchPhase_READFILES, runReadPhase c); (BenchPhase_DEL_S3_OBJECT_MD, runS3DelObjectMetadata c);
    (BenchPhase_MULTIDELOBJ, runMultiDelObjPhase c); (BenchPhase_DELETEFILES, runDeleteFilesPhase c);
    (BenchPhase_DEL_S3_BUCKET_MD, runS3DelBucketMetadata c); (BenchPhase_GETBUCKETACL, runS3BucketAclGet c);
    (BenchPhase_DELETEDIRS, runDeleteDirsPhase c) ].

Definition enabledBenchPhasesVec (c : PhaseChoice) : list BenchPhase :=
  fst <$> filter (fun pc => snd pc = true) (allBenchPhasesArray c).

(** What the coordinator does next: run a phase or restart the workers on rotated hosts. *)
Inductive plan_item : Type := Run (p : BenchPhase) | Rotate.

Definition runSyncAndDropCaches (c : PhaseChoice) : list plan_item :=
  (if runSyncPhase c then [Run BenchPhase_SYNC] else []) ++ (if runDropCachesPhase c then [Run BenchPhase_DROPCACHES] else []).

(** One iteration over the enabled phases; hosts rotate between two of them. *)
Fixpoint iteration_plan (c : PhaseChoice) (phases : list BenchPhase) : list plan_item :=
  match phases with
  | [] => []
  | p :: rest =>
      Run p :: runSyncAndDropCaches c
      ++ (match rest with [] => [] | _ => if doRotateHosts c then [Rotate] else [] end)
      ++ iteration_plan c rest
  end.

Definition runBenchmarks_plan (c : PhaseChoice) : list plan_item :=
  mjoin (replicate (iterations c) (runSyncAndDropCaches c ++ iteration_plan c (enabledBenchPhasesVec c))).

(** ** The coordinator thread *)

(** Where the main thread is; [plan] is what is left to do.

    - [C_prepWait]: [prepareThreads()] waits for the workers;
    - [C_ready]: before [runBenchmarkPhase()] or [rotateHosts()], or at the end of the plan;
    - [C_start]: the check between phases has passed, [startNextPhase()] is next;
    - [C_wait]: in [printLiveStats()] or [waitForWorkersDone()] of the phase [cur];
    - [C_after]: the workers are done, results are printed;
    - [C_rotJoin]: [rotateHosts()] waits for the end of the threads;
    - [C_join], [C_exit]: in [joinAllThreads()] at the end of [main()], and after it. *)
Inductive coord_pc : Type :=
  | C_prepWait (plan : list plan_item)
  | C_ready (plan : list plan_item)
  | C_start (p : BenchPhase) (plan : list plan_item)
  | C_wait (cur : BenchPhase) (plan : list plan_item)
  | C_after (plan : list plan_item)
  | C_rotJoin (plan : list plan_item)
  | C_join (retVal : bool)
  | C_exit (retVal : bool).

Record config : Type := mkConfig {
  cfg_kinds : list worker_kind;
  cfg_runAsService : bool;
  cfg_timeLimit : bool;
}.

Record process : Type := mkSystem {
  s_workers : list Worker;
  s_shared : WorkersSharedData;
  gotUserInterruptSignal : bool;
  isPhaseTimeExpired : bool;
  s_coord : coord_pc;
}.

(** The user's time limit is off in the sync and drop-caches phases. *)
Definition phase_limited (cfg : config) (cur : BenchPhase) : bool :=
  cfg_timeLimit cfg && negb (bool_decide (cur = BenchPhase_SYNC)) && negb (bool_decide (cur = BenchPhase_DROPCACHES)).

(** One round of a waiting loop: the check for finished workers, then (with [timeUp]) the check
    of the time limit.  [next] is where the coordinator goes when all workers are done. *)
Definition poll_workers (limited timeUp : bool) (next : coord_pc) (s : process) : process :=
  match checkWorkersDoneUnlocked (gotUserInterruptSignal s) (s_workers s) (s_shared s) with
  | (Throw _, ws) => mkSystem ws (s_shared s) (gotUserInterruptSignal s) (isPhaseTimeExpired s) (C_join true)
  | (Ok workersDone, ws) =>
      let expired := limited && timeUp in
      mkSystem (if expired then interruptAndNotifyWorkers ws else ws) (s_shared s) (gotUserInterruptSignal s)
        (isPhaseTimeExpired s || expired) (if workersDone then next else s_coord s)
  end.

(** The exception handlers of [main()] that interrupt the workers. *)
Definition abort_run (retVal : bool) (s : process) : process :=
  mkSystem (interruptAndNotifyWorkers (s_workers s)) (s_shared s) (gotUserInterruptSignal s) (isPhaseTimeExpired s) (C_join retVal).

Definition set_coord (c : coord_pc) (s : process) : process :=
  mkSystem (s_workers s) (s_shared s) (gotUserInterruptSignal s) (isPhaseTimeExpired s) c.

(** [checkInterruptionBetweenPhases()], then [next]. *)
Definition checkInterruptionBetweenPhases (next : coord_pc) (s : process) : process :=
  if gotUserInterruptSignal s then abort_run false s
  else if isPhaseTimeExpired s then abort_run true s
  else set_coord next s.

Definition start_phase (p : BenchPhase) (newBenchID : nat) (next : coord_pc) (s : process) : process :=
  let '(ws, sh) := startNextPhase p newBenchID (s_workers s) (s_shared s) in
  mkSystem ws sh (gotUserInterruptSignal s) (isPhaseTimeExpired s) next.

Definition prepare (cfg : config) (next : coord_pc) (s : process) : process :=
  let '(ws, sh) := prepareThreads (cfg_kinds cfg) (s_shared s) in
  mkSystem ws sh (gotUserInterruptSignal s) (isPhaseTimeExpired s) next.

Definition returned (w : Worker) : bool := match w_pc w with W_returned => true | _ => false end.

(** The next statement, a statement that needs a new UUID, a round of a waiting loop, or a
    [ProgException] of the main thread. *)
Inductive coord_action : Type := CA_step | CA_new (newBenchID : nat) | CA_poll (timeUp : bool) | CA_throw.

Definition coord_step (cfg : config) (a : coord_action) (s : process) : option (option event * process) :=
  match s_coord s, a with
  | C_prepWait plan, CA_poll _ => Some (None, poll_workers false false (C_ready plan) s)
  | C_ready (Run p :: plan), CA_step => Some (None, checkInterruptionBetweenPhases (C_start p plan) s)
  | C_ready (Rotate :: plan), CA_step =>
      Some (None, set_coord (C_rotJoin plan)
                    (mkSystem (interruptAndNotifyWorkers (s_workers s)) (s_shared s) (gotUserInterruptSignal s)
                       (isPhaseTimeExpired s) (s_coord s)))
  | C_ready [], CA_new id =>
      if id =? currentBenchID (s_shared s) then None
      else Some (Some (E_start BenchPhase_TERMINATE), start_phase BenchPhase_TERMINATE id (C_join true) s)
  | C_start p plan, CA_new id =>
      if id =? currentBenchID (s_shared s) then None
      else Some (Some (E_start p), start_phase p id (C_wait p plan) s)
  | C_wait cur plan, CA_poll timeUp => Some (None, poll_workers (phase_limited cfg cur) timeUp (C_after plan) s)
  | C_after plan, CA_step => Some (None, checkInterruptionBetweenPhases (C_ready plan) s)
  | C_rotJoin plan, CA_step =>
      if forallb returned (s_workers s) then Some (Some E_prepare, prepare cfg (C_prepWait plan) s) else None
  | C_join retVal, CA_step =>
      if forallb returned (s_workers s) then
        let success := retVal && (numWorkersDoneWithError (s_shared s) =? 0) in
        Some (Some (E_exit success), set_coord (C_exit success) s)
      else None
  | (C_ready _ | C_wait _ _ | C_after _), CA_throw => Some (None, abort_run false s)
  | _, _ => None
  end.

(** A step of worker [i]. *)
Definition sys_worker_step (cfg : config) (i : nat) (a : worker_action) (s : process) : option (option event * process) :=
  w ← s_workers s !! i;
  e ← worker_step (cfg_runAsService cfg) (length (s_workers s)) i a w (s_shared s);
  let ws := <[i := e_worker e]> (s_workers s) in
  let ws := if e_stonewall e then createStoneWallStats <$> ws else ws in
  let ws := if e_notify e then notify_all ws else ws in
  Some (e_event e, mkSystem ws (e_shared e) (gotUserInterruptSignal s) (isPhaseTimeExpired s) (s_coord s)).

Inductive phase_step (cfg : config) : process -> option event -> process -> Prop :=
  | step_worker i a s ev s' : sys_worker_step cfg i a s = Some (ev, s') -> phase_step cfg s ev s'
  | step_coord a s ev s' : coord_step cfg a s = Some (ev, s') -> phase_step cfg s ev s'
  | step_signal s :
      phase_step cfg s None (mkSystem (s_workers s) (s_shared s) true (isPhaseTimeExpired s) (s_coord s)).

Definition initial_shared : WorkersSharedData := mkShared 0 BenchPhase_IDLE 0 0.

(** The state when [main()] has called [prepareThreads()]. *)
Definition main_start (cfg : config) (plan : list plan_item) : process :=
  prepare cfg (C_prepWait plan) (mkSystem [] initial_shared false false (C_prepWait plan)).

(** Reachable states with the events so far. *)
Inductive reach (cfg : config) (plan : list plan_item) : list event -> process -> Prop :=
  | reach_start : reach cfg plan [] (main_start cfg plan)
  | reach_step tr s ev s' : reach cfg plan tr s -> phase_step cfg s ev s' -> reach cfg plan (tr ++ option_list ev) s'.

(** ** The abstract monitor *)

(** A worker has not begun the current phase, works on it, has completed it, or has failed. *)
Inductive worker_status : Type := Idle | Active | Done | Failed.

#[global] Instance worker_status_eq_dec : EqDecision worker_status.
Proof. solve_decision. Defined.

Record spec_state : Type := mkSpec {
  sp_todo : list BenchPhase;
  sp_phase : BenchPhase;
  sp_workers : list worker_status;
}.

Definition all_are (st : worker_status) (l : list worker_status) : bool := forallb (fun x => bool_decide (x = st)) l.

Definition open_status (st : worker_status) : bool := match st with Idle | Active => true | _ => false end.

(** Phases start in the order of the plan, and only when every worker has completed the phase
    before; the last one is the termination.  In a phase, each worker begins at most once, in the
    phase that was started last, and ends once.  The exit code is success only if no worker failed. *)
Definition spec_step (sp : spec_state) (ev : event) : option spec_state :=
  match ev with
  | E_prepare =>
      if all_are Done (sp_workers sp)
      then Some (mkSpec (sp_todo sp) (sp_phase sp) (replicate (length (sp_workers sp)) Idle)) else None
  | E_start p =>
      let fresh todo := Some (mkSpec todo p (replicate (length (sp_workers sp)) Idle)) in
      if negb (all_are Done (sp_workers sp)) then None
      else match sp_todo sp with
           | [] => if decide (p = BenchPhase_TERMINATE) then fresh [] else None
           | q :: todo => if decide (p = q) then fresh todo else None
           end
  | E_begin i p =>
      match sp_workers sp !! i with
      | Some Idle => if decide (p = sp_phase sp) then Some (mkSpec (sp_todo sp) p (<[i := Active]> (sp_workers sp))) else None
      | _ => None
      end
  | E_done i =>
      st ← sp_workers sp !! i;
      if open_status st then Some (mkSpec (sp_todo sp) (sp_phase sp) (<[i := Done]> (sp_workers sp))) else None
  | E_error i =>
      st ← sp_workers sp !! i;
      if open_status st then Some (mkSpec (sp_todo sp) (sp_phase sp) (<[i := Failed]> (sp_workers sp))) else None
  | E_exit success =>
      if success && existsb (fun x => bool_decide (x = Failed)) (sp_workers sp) then None else Some sp
  end.

Fixpoint spec_run (sp : spec_state) (tr : list event) : option spec_state :=
  match tr with
  | [] => Some sp
  | ev :: tr => sp ← spec_step sp ev; spec_run sp tr
  end.

Definition plan_phases (plan : list plan_item) : list BenchPhase :=
  omap (fun it => match it with Run p => Some p | Rotate => None end) plan.

Definition spec_start (cfg : config) (plan : list plan_item) : spec_state :=
  mkSpec (plan_phases plan) BenchPhase_IDLE (replicate (length (cfg_kinds cfg)) Idle).
