(* ===== verification/HttpService.v ===== *)
(** The requests that a service answers (HTTPServiceSWS.cpp) together with its worker threads
    (Workers.v).  The server has one thread: it handles one request after the other, and a handler that
    joins the threads or waits for them blocks the server.  The workers go on at any time.

    The state has what the protocol of a run needs.  The content of answers (statistics, error
    history) is that of Statistics.v and of the log; a bench ID is a number as in Workers.v, 0 is the nil
    UUID. *)

From S2P Require Import Prelude Common Workers Coordinator.

#[local] Open Scope list_scope.
#[local] Open Scope nat_scope.

(** ** Definitions *)

Definition HTTP_PROTOCOLVERSION : string := "3.1.7".

(** What [setFromPropertyTreeForService()] makes of the content of a request: it is no JSON, the
    arguments are not accepted, or there will be that many threads. *)
Inductive prep_content : Type := NotJSON | ArgsRefused | ArgsAccepted (numThreads : nat).

(** The bench ID of a request to start a phase: none (the service makes a random one), the text of
    a UUID, or another text. *)
Inductive start_id : Type := NoID | ValidID (id : nat) | InvalidID.

(** Requests with the fields of the query that matter. *)
Inductive request : Type :=
  | ReqInfo                     (** /info, /protocolversion, /status, /benchresult *)
  | ReqPrepare (protocolVersion authorization : option string) (content : prep_content)
  | ReqStart (benchPhase : option BenchPhase) (benchID : start_id)
  | ReqInterrupt (quit : bool).

(** Success, an empty or non-empty error text with the status of success, the status "bad request",
    an exception that the server library handles, or the server stops. *)
Inductive reply : Type := R_ok | R_refused | R_badRequest | R_exception | R_stop.

(** Where the thread of the server is: between requests, in [joinAllThreads()] (of a new
    preparation, of a failed one, or of an interruption), in [prepareThreads()], or stopped. *)
Inductive handler_pc : Type :=
  | H_idle
  | H_prepJoin (content : prep_content)
  | H_prepWait
  | H_errJoin
  | H_intJoin (quit : bool)
  | H_stopped.

Record service : Type := mkService {
  sv_workers : list Worker;
  sv_shared : WorkersSharedData;
  sv_prepared : bool;      (** [workersSharedData.workerVec] is set *)
  sv_handler : handler_pc;
}.

Definition set_handler (h : handler_pc) (s : service) : service := mkService (sv_workers s) (sv_shared s) (sv_prepared s) h.

(** [interruptAndNotifyWorkers()], with [joinAllThreads()] next. *)
Definition interrupt_and_join (h : handler_pc) (s : service) : service :=
  mkService (interruptAndNotifyWorkers (sv_workers s)) (sv_shared s) (sv_prepared s) h.

(** /preparephase up to the join. *)
Definition handle_prepare (passwordHash : string) (version authorization : option string) (content : prep_content) (s : service)
    : option reply * service :=
  match version with
  | None => (None, interrupt_and_join H_errJoin s)
  | Some version =>
      if negb (String.eqb version HTTP_PROTOCOLVERSION) then (Some R_badRequest, s)
      else match authorization with
        | None => (None, interrupt_and_join H_errJoin s)
        | Some hash =>
            if negb (String.eqb hash passwordHash) then (Some R_badRequest, s)
            else match content with
              | NotJSON => (None, interrupt_and_join H_errJoin s)
              | _ => (None, interrupt_and_join (H_prepJoin content) s)
              end
        end
  end.

(** /startphase; [newBenchID] is a random UUID.  [None] is undefined behaviour: there is no vector of
    workers yet.  What the workers may do between the check and the start makes no difference to both. *)
Definition handle_start (newBenchID : nat) (benchPhase : option BenchPhase) (benchID : start_id) (s : service)
    : option (option event * reply * service) :=
  match benchPhase with
  | None => Some (None, R_badRequest, s)
  | Some p =>
      let sh := sv_shared s in
      if match benchID with ValidID id => id =? currentBenchID sh | _ => false end then Some (None, R_ok, s)
      else if negb (sv_prepared s) then None
      else if negb (numWorkersDone sh + numWorkersDoneWithError sh =? length (sv_workers s)) then Some (None, R_refused, s)
      else
        match benchID with
        | InvalidID =>
            (* the exception of the UUID parser leaves [startNextPhase()] after the counters are reset *)
            Some (None, R_exception,
              mkService (notify_all (resetStats <$> sv_workers s)) (resetNumWorkersDoneUnlocked sh) (sv_prepared s) (sv_handler s))
        | _ =>
            let id := match benchID with ValidID id => id | _ => newBenchID end in
            let '(ws, sh) := startNextPhase p id (sv_workers s) sh in
            Some (Some (E_start p), R_ok, mkService ws sh (sv_prepared s) (sv_handler s))
        end
  end.

(** /preparephase after the join: [deleteThreads()], then the arguments, then [prepareThreads()]. *)
Definition prepare_joined (content : prep_content) (s : service) : option (option event * option reply * service) :=
  if forallb returned (sv_workers s) then
    match content with
    | ArgsAccepted numThreads =>
        let '(ws, sh) := prepareThreads (replicate numThreads LocalWorker) (sv_shared s) in
        Some (Some E_prepare, None, mkService ws sh true H_prepWait)
    | _ => Some (None, None, interrupt_and_join H_errJoin (mkService [] (sv_shared s) (sv_prepared s) H_idle))
    end
  else None.

(** One look at the workers in [waitForWorkersDone()] of the preparation; the answer follows. *)
Definition prepare_poll (s : service) : option (option event * option reply * service) :=
  match checkWorkersDoneUnlocked false (sv_workers s) (sv_shared s) with
  | (Throw _, ws) => Some (None, None, mkService (interruptAndNotifyWorkers ws) (sv_shared s) (sv_prepared s) H_errJoin)
  | (Ok workersDone, ws) =>
      Some (None, if workersDone then Some R_ok else None,
            mkService ws (sv_shared s) (sv_prepared s) (if workersDone then H_idle else H_prepWait))
  end.

(** The handler of exceptions of /preparephase after its join. *)
Definition error_joined (s : service) : option (option event * option reply * service) :=
  if forallb returned (sv_workers s) then Some (None, Some R_badRequest, set_handler H_idle s) else None.

(** /interruptphase after the join. *)
Definition interrupt_joined (quit : bool) (s : service) : option (option event * option reply * service) :=
  if forallb returned (sv_workers s)
  then Some (None, Some (if quit then R_stop else R_ok), set_handler (if quit then H_stopped else H_idle) s) else None.

(** What can happen in the thread of the server: a request arrives, a handler goes on after a join,
    or it looks at the workers.  (A service does not catch the signals of the user.) *)
Inductive server_action : Type :=
  | SA_request (r : request) (newBenchID : nat)
  | SA_joined
  | SA_poll.

Section server.
Context (passwordHash : string).

Definition server_step (a : server_action) (s : service) : option (option event * option reply * service) :=
  match sv_handler s, a with
  | H_idle, SA_request r newBenchID =>
      match r with
      | ReqInfo => Some (None, Some R_ok, s)
      | ReqPrepare version authorization content =>
          let '(rep, s') := handle_prepare passwordHash version authorization content s in Some (None, rep, s')
      | ReqStart benchPhase benchID =>
          if newBenchID =? currentBenchID (sv_shared s) then None
          else '(ev, rep, s') ← handle_start newBenchID benchPhase benchID s; Some (ev, Some rep, s')
      | ReqInterrupt quit => Some (None, None, interrupt_and_join (H_intJoin quit) s)
      end
  | H_prepJoin content, SA_joined => prepare_joined content s
  | H_prepWait, SA_poll => prepare_poll s
  | H_errJoin, SA_joined => error_joined s
  | H_intJoin quit, SA_joined => interrupt_joined quit s
  | _, _ => None
  end.

(** A step of worker [i], as in a process. *)
Definition service_worker_step (i : nat) (a : worker_action) (s : service) : option (option event * service) :=
  w ← sv_workers s !! i;
  e ← worker_step true (length (sv_workers s)) i a w (sv_shared s);
  let ws := <[i := e_worker e]> (sv_workers s) in
  let ws := if e_stonewall e then createStoneWallStats <$> ws else ws in
  let ws := if e_notify e then notify_all ws else ws in
  Some (e_event e, mkService ws (e_shared e) (sv_prepared s) (sv_handler s)).

Inductive service_step : service -> option event -> service -> Prop :=
  | svc_worker i a s ev s' : service_worker_step i a s = Some (ev, s') -> service_step s ev s'
  | svc_server a s ev rep s' : server_step a s = Some (ev, rep, s') -> service_step s ev s'.

(** A service that was just started. *)
Definition service_start : service := mkService [] initial_shared false H_idle.

Inductive service_reach : service -> Prop :=
  | svc_start : service_reach service_start
  | svc_next s ev s' : service_reach s -> service_step s ev s' -> service_reach s'.
End server.

(** ** Lemmas *)

(** *** Invariant *)

(** [counted] is whether the worker has added itself to the counters since they were reset. *)
Definition counted_ok (sh : WorkersSharedData) (w : Worker) (counted : bool) : Prop :=
  w_kind w = LocalWorker /\
  match w_pc w with
  | W_prep => counted = false /\ phaseFinished w = false /\ currentBenchID sh = 0
  | W_wait old | W_sleep old =>
      (isInterruptionRequested w = false \/ w_pc w = W_wait old) /\ counted = phaseFinished w /\ (phaseFinished w = true -> old = currentBenchID sh)
  | W_go => counted = false /\ phaseFinished w = false
  | W_work id => counted = false /\ phaseFinished w = false /\ id = currentBenchID sh
  | W_inc next => counted = false /\ match next with Some id => phaseFinished w = true /\ id = currentBenchID sh | None => True end
  | W_catchInt => counted = phaseFinished w /\ isInterruptionRequested w = true
  | W_errInc => counted = false
  | W_returned => True
  end.

Fixpoint num_true (l : list bool) : nat := match l with [] => 0 | b :: l => Nat.b2n b + num_true l end.

Definition all_interrupted (s : service) : Prop := Forall (fun w => isInterruptionRequested w = true) (sv_workers s).

(** Between requests, nobody is interrupted, or all threads have ended. *)
Definition handler_ok (s : service) : Prop :=
  match sv_handler s with
  | H_idle => Forall (fun w => isInterruptionRequested w = false) (sv_workers s) \/ Forall (fun w => w_pc w = W_returned) (sv_workers s)
  | H_prepWait => Forall (fun w => isInterruptionRequested w = false) (sv_workers s)
  | H_prepJoin _ | H_errJoin | H_intJoin _ => all_interrupted s
  | H_stopped => True
  end.

(** The counters are those of the workers, if there are any. *)
Definition service_inv (s : service) : Prop :=
  (exists counted, Forall2 (counted_ok (sv_shared s)) (sv_workers s) counted
     /\ (sv_workers s <> [] -> numWorkersDone (sv_shared s) + numWorkersDoneWithError (sv_shared s) = num_true counted))
  /\ handler_ok s.

Definition num_done (sh : WorkersSharedData) : nat := numWorkersDone sh + numWorkersDoneWithError sh.

(** A worker step keeps the correspondence: the counters grow when the worker gets counted. *)
Lemma step_counted total i a w sh e counted :
  worker_step true total i a w sh = Some e -> counted_ok sh w counted ->
  exists counted', counted_ok (e_shared e) (e_worker e) counted' /\ currentBenchID (e_shared e) = currentBenchID sh
    /\ isInterruptionRequested (e_worker e) = isInterruptionRequested w
    /\ num_done (e_shared e) + Nat.b2n counted = num_done sh + Nat.b2n counted'.
Proof.
  intros Hs [Hk Hc]. destruct w as [kind pc fin int stone work]. cbn in Hk, Hc. subst kind.
  unfold worker_step, local_effect in Hs. cbn [w_pc w_kind] in Hs.
  destruct pc as [|old|old| |id|[id|]| | |], a; try done; cbn -[Nat.eqb] in Hs; repeat case_match; simplify_eq; cbn -[Nat.eqb];
    unfold counted_ok, num_done, waitForNextPhase_check; cbn -[Nat.eqb].
  all: repeat match goal with H : _ /\ _ |- _ => destruct H end; subst.
  4: { exists fin. destruct int, (Nat.eqb_spec old (currentBenchID sh)), fin; cbn; try tauto; intuition congruence. }
  all: try match goal with H : (_ && _) = true |- _ => apply andb_prop in H as [? ?]; subst end.
  all: first [ exists false; cbn; split_and!; (done || lia || tauto)
             | exists true; cbn; split_and!; (done || lia || tauto) | exists fin; cbn; split_and!; (done || lia || tauto) ].
Qed.

Lemma num_true_insert l i b b' : l !! i = Some b -> num_true (<[i := b']> l) + Nat.b2n b = num_true l + Nat.b2n b'.
Proof.
  revert i. induction l as [|x l IH]; intros [|i] Hi; simplify_eq/=; [lia|]. specialize (IH i Hi). lia.
Qed.

Lemma num_true_le l : num_true l <= length l.
Proof. induction l as [|[] l IH]; cbn; lia. Qed.

Lemma num_true_all l : num_true l = length l -> Forall (fun b => b = true) l.
Proof.
  induction l as [|b l IH]; intros Hl; [constructor|]. pose proof (num_true_le l) as Hle.
  destruct b; cbn in Hl; [|lia]. constructor; [done|]. apply IH. lia.
Qed.

Lemma counted_ok_shared sh sh' w b : currentBenchID sh' = currentBenchID sh -> counted_ok sh w b -> counted_ok sh' w b.
Proof. unfold counted_ok. by intros ->. Qed.

Lemma counted_ok_wake sh w b : counted_ok sh w b -> counted_ok sh (wake w) b.
Proof.
  destruct w as [kind pc fin int stone work]. unfold counted_ok, wake. cbn. destruct pc; cbn; try done.
  intros (? & ? & ? & ?). split_and!; [done|by right|done..].
Qed.

Lemma counted_ok_stonewall sh w b : counted_ok sh w b -> counted_ok sh (createStoneWallStats w) b.
Proof. done. Qed.

Lemma counted_ok_interrupt sh w b : counted_ok sh w b -> counted_ok sh (wake (interruptExecution w)) b.
Proof.
  destruct w as [kind pc fin int stone work]. unfold counted_ok, wake, interruptExecution. cbn. destruct pc; cbn; try tauto.
  all: intros (? & ? & ? & ?); split_and!; try done; by right.
Qed.

Lemma counted_notify sh ws cs : Forall2 (counted_ok sh) ws cs -> Forall2 (counted_ok sh) (notify_all ws) cs.
Proof. intros H. unfold notify_all. apply Forall2_fmap_l. eapply Forall2_impl; [exact H|]. apply counted_ok_wake. Qed.

Lemma counted_interrupt sh ws cs : Forall2 (counted_ok sh) ws cs -> Forall2 (counted_ok sh) (interruptAndNotifyWorkers ws) cs.
Proof.
  intros H. unfold interruptAndNotifyWorkers, notify_all. rewrite <- list_fmap_compose. apply Forall2_fmap_l.
  eapply Forall2_impl; [exact H|]. intros w b. apply counted_ok_interrupt.
Qed.

Lemma interrupted_wake w : isInterruptionRequested (wake w) = isInterruptionRequested w.
Proof. unfold wake. by destruct (w_pc w). Qed.

Lemma all_interrupted_after ws : Forall (fun w => isInterruptionRequested w = true) (interruptAndNotifyWorkers ws).
Proof.
  unfold interruptAndNotifyWorkers, notify_all. rewrite <- list_fmap_compose. apply Forall_fmap, Forall_true. intros w. cbn.
  by rewrite interrupted_wake.
Qed.

(** *** Steps of the workers *)

Lemma Forall_pred_wake (P : Worker -> Prop) ws : (forall w, P w -> P (wake w)) -> Forall P ws -> Forall P (notify_all ws).
Proof. intros HP H. unfold notify_all. apply Forall_fmap. eapply Forall_impl; [exact H|]. exact HP. Qed.

(** The other workers as they are after the step of one. *)
Lemma worker_step_workers i a s ev s' : service_worker_step i a s = Some (ev, s') ->
  exists w e, sv_workers s !! i = Some w /\ worker_step true (length (sv_workers s)) i a w (sv_shared s) = Some e
    /\ sv_shared s' = e_shared e /\ sv_handler s' = sv_handler s /\ sv_prepared s' = sv_prepared s
    /\ forall P : list Worker -> Prop, P (<[i := e_worker e]> (sv_workers s)) ->
         (forall ws, P ws -> P (createStoneWallStats <$> ws)) -> (forall ws, P ws -> P (notify_all ws)) -> P (sv_workers s').
Proof.
  unfold service_worker_step. destruct (sv_workers s !! i) as [w|] eqn:Hw; [|done]. cbn [mbind option_bind].
  destruct (worker_step _ _ _ _ _ _) as [e|] eqn:He; [|done]. cbn [mbind option_bind]. intros [= <- <-]. exists w, e. do 5 (split; [done|]). cbn.
  intros P H0 H1 H2. destruct (e_stonewall e), (e_notify e); auto.
Qed.

Lemma returned_no_step total i a w sh : w_pc w = W_returned -> worker_step true total i a w sh = None.
Proof. intros H. unfold worker_step. by rewrite H. Qed.

Lemma inv_service_worker i a s ev s' : service_inv s -> service_worker_step i a s = Some (ev, s') -> service_inv s'.
Proof.
  intros [(cs & Hcs & Hn) Hh] Hstep. destruct (worker_step_workers _ _ _ _ _ Hstep) as (w & e & Hw & He & Hsh & Hha & _ & HP).
  destruct (Forall2_lookup_l _ _ _ _ _ Hcs Hw) as (b & Hb & Hwb).
  destruct (step_counted _ _ _ _ _ _ _ He Hwb) as (b' & Hwb' & Hid & Hint & Hcount). split.
  - exists (<[i := b']> cs). rewrite Hsh. split.
    + apply HP.
      * apply Forall2_insert; [|done]. eapply Forall2_impl; [exact Hcs|]. intros x y. by apply counted_ok_shared.
      * intros ws H. apply Forall2_fmap_l. eapply Forall2_impl; [exact H|]. apply counted_ok_stonewall.
      * intros ws. apply counted_notify.
    + intros _. assert (sv_workers s <> []) as Hne by (intros Hnil; by rewrite Hnil in Hw). specialize (Hn Hne).
      pose proof (num_true_insert cs i b b' Hb). unfold num_done in Hcount. lia.
  - assert (forall v, Forall (fun w => isInterruptionRequested w = v) (sv_workers s) -> Forall (fun w => isInterruptionRequested w = v) (sv_workers s')) as Hv.
    { intros v Hv. apply HP.
      - apply Forall_insert; [done|]. rewrite Hint. rewrite Forall_lookup in Hv. by apply (Hv i).
      - intros ws H. by apply Forall_fmap.
      - intros ws. apply Forall_pred_wake. intros x. by rewrite interrupted_wake. }
    unfold handler_ok, all_interrupted in *. rewrite Hha. destruct (sv_handler s); auto. destruct Hh as [Hh|Hh]; [auto|].
    rewrite Forall_lookup in Hh. specialize (Hh i w Hw). by rewrite returned_no_step in He.
Qed.

(** *** Steps of the server *)

Lemma all_returned ws : forallb returned ws = true -> Forall (fun w => w_pc w = W_returned) ws.
Proof.
  induction ws as [|w ws IH]; cbn; [constructor|]. intros [Hw Hws]%andb_prop. constructor; [|by apply IH].
  unfold returned in Hw. by destruct (w_pc w).
Qed.

Lemma inv_interrupt h s : service_inv s ->
  match h with H_prepJoin _ | H_errJoin | H_intJoin _ => True | _ => False end -> service_inv (interrupt_and_join h s).
Proof.
  intros [(cs & Hcs & Hn) _] Hh. split.
  - exists cs. split; [by apply counted_interrupt|]. intros Hne. apply Hn. intros Hnil. apply Hne. cbn. by rewrite Hnil.
  - unfold handler_ok, all_interrupted. destruct h; try done; apply all_interrupted_after.
Qed.

(** When the counters are reset, the workers that were counted wait or have ended. *)
Lemma counted_reset sh sh' w : counted_ok sh w true -> isInterruptionRequested w = false \/ w_pc w = W_returned ->
  counted_ok sh' (wake (resetStats w)) false.
Proof.
  destruct w as [kind pc fin int stone work]. unfold counted_ok, wake, resetStats. cbn.
  destruct pc as [|old|old| |id|next| | |]; cbn; intros (Hk & H) Hi; try (by destruct H); (split; [done|]); try done.
  split; [by right|done].
Qed.

Lemma inv_restart s sh : service_inv s -> sv_handler s = H_idle ->
  num_done (sv_shared s) = length (sv_workers s) -> num_done sh = 0 ->
  service_inv (mkService (notify_all (resetStats <$> sv_workers s)) sh (sv_prepared s) (sv_handler s)).
Proof.
  intros [(cs & Hcs & Hn) Hh] Hidle Hall Hzero. unfold handler_ok in Hh. rewrite Hidle in Hh.
  assert (Forall (fun w => isInterruptionRequested w = false \/ w_pc w = W_returned) (sv_workers s)) as Hor.
  { destruct Hh as [Hh|Hh]; (eapply Forall_impl; [exact Hh|]); cbn; auto. }
  pose proof (Forall2_length _ _ _ Hcs) as Hlen. unfold num_done in Hall.
  assert (Forall (fun b => b = true) cs) as Htrue .
  { destruct (sv_workers s) as [|w ws]; [by inversion Hcs|]. specialize (Hn ltac:(done)). apply num_true_all. lia. }
  unfold notify_all. rewrite <- list_fmap_compose. split.
  - exists (replicate (length cs) false). split.
    + apply Forall2_fmap_l. clear -Hcs Hor Htrue. induction Hcs as [|w b ws cs Hw Hcs IH]; [constructor|].
      inversion_clear Hor. inversion_clear Htrue. subst b. constructor; [by eapply counted_reset|by apply IH].
    + intros _. cbn. fold (num_done sh). rewrite Hzero. clear. induction cs; cbn; lia.
  - unfold handler_ok. cbn. rewrite Hidle. destruct Hh as [Hh|Hh]; [left|right]; apply Forall_fmap; (eapply Forall_impl; [exact Hh|]);
      intros w Hw; cbn; [by rewrite interrupted_wake|]. unfold wake, resetStats. cbn. by rewrite Hw.
Qed.

Lemma service_inv_start newBenchID p benchID s ev rep s' : service_inv s -> sv_handler s = H_idle ->
  handle_start newBenchID p benchID s = Some (ev, rep, s') -> service_inv s'.
Proof.
  intros Hinv Hidle. unfold handle_start. destruct p as [p|]; [|by intros [= _ _ <-]].
  destruct (match benchID with ValidID _ => _ | _ => _ end); [by intros [= _ _ <-]|]. destruct (negb (sv_prepared s)); [done|].
  destruct (negb _) eqn:Hall; [by intros [= _ _ <-]|]. apply negb_false_iff, Nat.eqb_eq in Hall.
  destruct benchID; intros [= _ _ <-]; (apply inv_restart; [exact Hinv|exact Hidle|exact Hall|done]).
Qed.

Lemma inv_server passwordHash a s ev rep s' : service_inv s -> server_step passwordHash a s = Some (ev, rep, s') -> service_inv s'.
Proof.
  intros Hinv. unfold server_step, prepare_joined, prepare_poll, error_joined, interrupt_joined. destruct (sv_handler s) eqn:Hh, a as [r newBenchID| |]; try done.
  - destruct r as [|version auth content|p id|quit].
    + by intros [= _ _ <-].
    + destruct (handle_prepare _ _ _ _ _) as [rep' s1] eqn:Hp. intros [= _ _ <-]. revert Hp. unfold handle_prepare.
      destruct version as [version|]; [|intros [= _ <-]; by apply inv_interrupt].
      destruct (negb _); [by intros [= _ <-]|]. destruct auth as [hash|]; [|intros [= _ <-]; by apply inv_interrupt].
      destruct (negb _); [by intros [= _ <-]|]. destruct content; intros [= _ <-]; by apply inv_interrupt.
    + destruct (newBenchID =? _); [done|]. destruct (handle_start _ _ _ _) as [[[ev1 rep1] s1]|] eqn:Hs; [|done].
      cbn. intros [= _ _ <-]. by eapply service_inv_start.
    + intros [= _ _ <-]. by apply inv_interrupt.
  - destruct (forallb returned (sv_workers s)); [|done]. destruct content; intros [= _ _ <-].
    1,2: apply inv_interrupt; [split; [exists []; split; [constructor|done]|left; constructor]|done].
    split.
    + exists (replicate numThreads false). cbn. rewrite fmap_replicate. split.
      * apply Forall2_replicate. by split.
      * intros _. clear. induction numThreads as [|k IH]; [done|]. exact IH.
    + unfold handler_ok. cbn. rewrite fmap_replicate. by apply Forall_replicate.
  - unfold checkWorkersDoneUnlocked. destruct (negb _).
    + intros [= _ _ <-]. apply (inv_interrupt H_errJoin (interrupt_and_join H_errJoin s)); [by apply inv_interrupt|done].
    + intros [= _ _ <-]. destruct Hinv as [Hc Hok]. split; [exact Hc|]. unfold handler_ok in *. rewrite Hh in Hok. cbn.
      destruct (_ =? _); [by left|done].
  - destruct (forallb returned (sv_workers s)) eqn:Hr; [|done]. intros [= _ _ <-]. destruct Hinv as [Hc _]. split; [exact Hc|].
    right. by apply all_returned.
  - destruct (forallb returned (sv_workers s)) eqn:Hr; [|done]. intros [= _ _ <-]. destruct Hinv as [Hc _]. split; [exact Hc|].
    unfold handler_ok. cbn. destruct quit; [done|]. right. by apply all_returned.
Qed.

Lemma service_reach_inv passwordHash s : service_reach passwordHash s -> service_inv s.
Proof.
  induction 1 as [|s ev s' _ IH Hstep].
  - split; [exists []; split; [constructor|done]|left; constructor].
  - destruct Hstep as [i a s ev s' H|a s ev rep s' H]; [by eapply inv_service_worker|by eapply inv_server].
Qed.

(** ** Theorems *)

(** A worker that waits for the next phase after the current one, or whose thread has ended. *)
Definition idle_worker (sh : WorkersSharedData) (w : Worker) : Prop :=
  match w_pc w with W_wait old | W_sleep old => old = currentBenchID sh | W_returned => True | _ => False end.


(** *** Joining the threads *)

(** An upper bound for the steps that an interrupted worker still takes. *)
Definition steps_left (w : Worker) : nat :=
  match w_pc w with
  | W_returned => 0
  | W_errInc | W_inc None => 1
  | W_catchInt => 2
  | W_wait _ => 3
  | W_sleep _ | W_inc (Some _) => 4
  | W_prep | W_work _ => 5
  | W_go => 6
  end.

Definition joining (s : service) : bool :=
  match sv_handler s with H_prepJoin _ | H_errJoin | H_intJoin _ => true | _ => false end.

(** Steps of the workers only. *)
Inductive workers_run : nat -> service -> service -> Prop :=
  | run_none s : workers_run 0 s s
  | run_more n s s1 i a ev s2 : workers_run n s s1 -> service_worker_step i a s1 = Some (ev, s2) -> workers_run (S n) s s2.

Lemma step_steps_left total i a w sh e : worker_step true total i a w sh = Some e -> w_kind w = LocalWorker -> isInterruptionRequested w = true ->
  S (steps_left (e_worker e)) <= steps_left w.
Proof.
  intros Hs Hk Hi. destruct w as [kind pc fin int stone work]. cbn in Hk, Hi. subst. unfold worker_step, local_effect in Hs.
  cbn [w_pc w_kind isInterruptionRequested] in Hs.
  destruct pc as [|old|old| |id|[id|]| | |], a; try done; cbn -[Nat.eqb] in Hs; repeat case_match; simplify_eq; cbn; lia.
Qed.

Definition all_steps_left (ws : list Worker) : nat := sum_list (steps_left <$> ws).

Lemma all_steps_left_insert ws i w w' : ws !! i = Some w -> S (steps_left w') <= steps_left w ->
  S (all_steps_left (<[i := w']> ws)) <= all_steps_left ws.
Proof.
  unfold all_steps_left. revert i. induction ws as [|x ws IH]; intros [|i] Hi Hle; simplify_eq/=; [lia|]. specialize (IH i Hi Hle). lia.
Qed.

Lemma all_steps_left_wake ws : all_steps_left (notify_all ws) <= all_steps_left ws.
Proof.
  unfold all_steps_left, notify_all. induction ws as [|w ws IH]; cbn; [lia|].
  assert (steps_left (wake w) <= steps_left w) by (unfold wake, steps_left; destruct (w_pc w) eqn:H; cbn; rewrite ?H; cbn; lia). lia.
Qed.

Lemma all_steps_left_bound ws : all_steps_left ws <= 6 * length ws.
Proof. unfold all_steps_left. induction ws as [|w ws IH]; cbn; [lia|]. assert (steps_left w <= 6) by (unfold steps_left; repeat case_match; lia). lia. Qed.

Lemma join_step i a s ev s' : service_inv s -> joining s = true -> service_worker_step i a s = Some (ev, s') ->
  S (all_steps_left (sv_workers s')) <= all_steps_left (sv_workers s) /\ joining s' = true /\ length (sv_workers s') = length (sv_workers s).
Proof.
  intros [(cs & Hcs & _) Hh] Hj Hstep. destruct (worker_step_workers _ _ _ _ _ Hstep) as (w & e & Hw & He & _ & Hha & _ & HP).
  assert (all_interrupted s) as Hint by (unfold handler_ok, joining in *; by destruct (sv_handler s)).
  destruct (Forall2_lookup_l _ _ _ _ _ Hcs Hw) as (b & _ & [Hk _]). unfold all_interrupted in Hint. rewrite Forall_lookup in Hint.
  split; [|split; [unfold joining; by rewrite Hha|]].
  - apply (HP (fun ws => S (all_steps_left ws) <= all_steps_left (sv_workers s))).
    + eapply all_steps_left_insert; [exact Hw|]. eapply step_steps_left; [exact He|exact Hk|by apply (Hint i)].
    + intros ws Hws. assert (all_steps_left (createStoneWallStats <$> ws) = all_steps_left ws) as ->; [|done].
      unfold all_steps_left. by rewrite <- list_fmap_compose.
    + intros ws Hws. pose proof (all_steps_left_wake ws). lia.
  - apply (HP (fun ws => length ws = length (sv_workers s))); [apply length_insert|intros ws <-; apply length_fmap|intros ws <-; apply length_fmap].
Qed.

(** As long as the thread of a worker has not ended, it can go on. *)
Lemma join_progress s : service_inv s -> joining s = true ->
  forallb returned (sv_workers s) = true \/ exists i a ev s', service_worker_step i a s = Some (ev, s').
Proof.
  intros [(cs & Hcs & _) Hh] Hj. destruct (forallb returned (sv_workers s)) eqn:Hr; [by left|right].
  assert (all_interrupted s) as Hint by (unfold handler_ok, joining in *; by destruct (sv_handler s)).
  assert (exists i w, sv_workers s !! i = Some w /\ returned w = false) as (i & w & Hw & Hret).
  { clear -Hr. induction (sv_workers s) as [|w ws IH]; [done|]. cbn in Hr. destruct (returned w) eqn:Hw; [|by exists 0, w].
    destruct (IH Hr) as (i & x & Hi & Hx). by exists (S i), x. }
  destruct (Forall2_lookup_l _ _ _ _ _ Hcs Hw) as (b & _ & [Hk Hc]). unfold all_interrupted in Hint. rewrite Forall_lookup in Hint. specialize (Hint i w Hw).
  assert (exists a e, worker_step true (length (sv_workers s)) i a w (sv_shared s) = Some e) as (a & e & He).
  { destruct w as [kind pc fin int stone work]. cbn in Hk, Hint, Hc, Hret. subst. unfold worker_step, local_effect, returned in *. cbn [w_pc] in *.
    destruct pc as [|old|old| |id|next| | |]; try done.
    - exists (A_ok true). by eexists.
    - exists A_step. by eexists.
    - exfalso. destruct Hc as [[?|?] _]; done.
    - exists A_step. by eexists.
    - exists A_throw. by eexists.
    - exists A_step. cbn. by eexists.
    - exists A_step. destruct fin; by eexists.
    - exists A_step. by eexists. }
  exists i, a. unfold service_worker_step. rewrite Hw. cbn [mbind option_bind]. rewrite He. by eexists _, _.
Qed.

(** C11: A request that interrupts the workers is answered: from every reachable state in which the server
    joins the threads (for a new preparation, after a failed one, or for an interruption), the
    workers take at most six steps each, in any order; as long as not all threads have ended, some
    worker can go on, and when they have, the server goes on. *)
Theorem service_join_ends passwordHash s n s' :
  service_reach passwordHash s -> joining s = true -> workers_run n s s' ->
  n <= 6 * length (sv_workers s)
  /\ ((exists i a ev s2, service_worker_step i a s' = Some (ev, s2)) \/ is_Some (server_step passwordHash SA_joined s')).
Proof.
  intros Hreach Hj Hrun. assert (service_inv s' /\ joining s' = true /\ n + all_steps_left (sv_workers s') <= all_steps_left (sv_workers s)) as (Hinv & Hj' & Hn).
  { induction Hrun as [s|n s s1 i a ev s2 Hrun IH Hstep].
    - split; [by eapply service_reach_inv|done].
    - destruct (IH Hreach Hj) as (Hinv & Hj1 & Hn). destruct (join_step _ _ _ _ _ Hinv Hj1 Hstep) as (Hle & Hj2 & _).
      split; [by eapply inv_service_worker|]. split; [done|]. lia. }
  split; [pose proof (all_steps_left_bound (sv_workers s)); lia|]. destruct (join_progress s' Hinv Hj') as [Hr|H]; [right|by left].
  unfold server_step, prepare_joined, prepare_poll, error_joined, interrupt_joined, joining in *. destruct (sv_handler s') as [|cont| | |qt|]; try done; rewrite Hr; [|by eexists..].
  destruct cont; by eexists.
Qed.

(** *** Runs *)

Fixpoint service_exec (passwordHash : string) (schedule : list (nat * worker_action + server_action)) (s : service) : option service :=
  match schedule with
  | [] => Some s
  | inl (i, a) :: rest => '(_, s') ← service_worker_step i a s; service_exec passwordHash rest s'
  | inr a :: rest => '(_, s') ← server_step passwordHash a s; service_exec passwordHash rest s'
  end.

Lemma service_exec_reach passwordHash schedule s s' :
  service_reach passwordHash s -> service_exec passwordHash schedule s = Some s' -> service_reach passwordHash s'.
Proof.
  revert s. induction schedule as [|[[i a]|a] rest IH]; intros s Hs; cbn [service_exec].
  - by intros [= <-].
  - destruct (service_worker_step i a s) as [[ev s1]|] eqn:H1; [|done]. cbn. apply IH. eapply svc_next; [exact Hs|]. by eapply svc_worker.
  - destruct (server_step passwordHash a s) as [[[ev rep] s1]|] eqn:H1; [|done]. cbn. apply IH. eapply svc_next; [exact Hs|]. by eapply svc_server.
Qed.

(** Two workers are prepared. *)
Definition demo_prepare : list (nat * worker_action + server_action) :=
  [inr (SA_request (ReqPrepare (Some "3.1.7") (Some "hash") (ArgsAccepted 2)) 9); inr SA_joined;
   inl (0, A_ok true); inl (1, A_ok true); inl (1, A_step); inl (0, A_step); inr SA_poll].
Definition demo_prepared : service :=
  mkService [mkWorker LocalWorker (W_wait 0) true false true true; mkWorker LocalWorker (W_wait 0) true false true true]
    (mkShared 0 BenchPhase_IDLE 2 0) true H_idle.
(** They are at work on a phase when the master interrupts it. *)
Definition demo_interrupt : list (nat * worker_action + server_action) :=
  demo_prepare ++ [inr (SA_request (ReqStart (Some BenchPhase_READFILES) (ValidID 5)) 9); inl (0, A_step); inl (0, A_step); inl (1, A_step);
   inr (SA_request (ReqInterrupt false) 9)].
Definition demo_interrupted : service :=
  mkService [mkWorker LocalWorker (W_work 5) false true false true; mkWorker LocalWorker W_go false true false true]
    (mkShared 5 BenchPhase_READFILES 0 0) true (H_intJoin false).

Lemma demo_prepared_reach : service_reach "hash" demo_prepared.
Proof. apply (service_exec_reach "hash" demo_prepare service_start); [constructor|by vm_compute]. Qed.

Lemma demo_interrupted_reach : service_reach "hash" demo_interrupted.
Proof. apply (service_exec_reach "hash" demo_interrupt service_start); [constructor|by vm_compute]. Qed.


Lemma service_join_ends_witness : 0 <= 6 * length (sv_workers demo_interrupted)
  /\ ((exists i a ev s2, service_worker_step i a demo_interrupted = Some (ev, s2)) \/ is_Some (server_step "hash" SA_joined demo_interrupted)).
Proof. apply (service_join_ends "hash" demo_interrupted 0 demo_interrupted demo_interrupted_reach); [reflexivity|constructor]. Defined.

(** ** Further properties *)

(** A start request that comes twice is answered and has no effect. *)
Lemma duplicate_start_ignored p id s : id = currentBenchID (sv_shared s) -> forall new, handle_start new (Some p) (ValidID id) s = Some (None, R_ok, s).
Proof. intros -> new. cbn. by rewrite Nat.eqb_refl. Qed.

(** A preparation with a wrong password or of another version is refused without an effect. *)
Lemma wrong_password_refused passwordHash version hash content s : hash <> passwordHash ->
  handle_prepare passwordHash (Some version) (Some hash) content s = (Some R_badRequest, s).
Proof. intros Hne. unfold handle_prepare. destruct (String.eqb_spec version HTTP_PROTOCOLVERSION); [|done]. by destruct (String.eqb_spec hash passwordHash). Qed.

(** But one without a password interrupts the workers, as do the requests for an interruption and a new phase. *)
Lemma missing_password_interrupts passwordHash content s :
  handle_prepare passwordHash (Some HTTP_PROTOCOLVERSION) None content s = (None, interrupt_and_join H_errJoin s).
Proof. done. Qed.

(** A bench ID that is no UUID leaves the counters at zero: then no phase can be started until the
    next preparation, although the workers wait for one. *)
Example invalid_id_blocks_service :
  let s := service_exec "hash" (demo_prepare ++ [inr (SA_request (ReqStart (Some BenchPhase_READFILES) InvalidID) 9)]) service_start in
  (fun s => server_step "hash" (SA_request (ReqStart (Some BenchPhase_READFILES) (ValidID 5)) 9) s) <$> s = Some (Some (None, Some R_refused,
     mkService [mkWorker LocalWorker (W_wait 0) false false false true; mkWorker LocalWorker (W_wait 0) false false false true]
       (mkShared 0 BenchPhase_IDLE 0 0) true H_idle)).
Proof. by vm_compute. Qed.

(** Before the first preparation there are no workers to count. *)
Example start_before_prepare : server_step "hash" (SA_request (ReqStart (Some BenchPhase_READFILES) (ValidID 5)) 9) service_start = None.
Proof. done. Qed.

(** After an interruption the threads have ended, but the counters may say that they are done: then
    a phase starts that no worker will ever begin. *)
Example phase_without_threads :
  service_exec "hash" (demo_prepare ++ [inr (SA_request (ReqInterrupt false) 9); inl (0, A_step); inl (0, A_step); inl (1, A_step); inl (1, A_step);
     inr SA_joined; inr (SA_request (ReqStart (Some BenchPhase_READFILES) (ValidID 5)) 9)]) service_start
  = Some (mkService [mkWorker LocalWorker W_returned false true false true; mkWorker LocalWorker W_returned false true false true]
      (mkShared 5 BenchPhase_READFILES 0 0) true H_idle).
Proof. by vm_compute. Qed.
