(* ===== verification/PhaseProtocol.v ===== *)
(** Correctness of the phase protocol of Coordinator.v and Workers.v: the simulation between the
    system of threads and the abstract monitor, and what follows for the phases of a run. *)

From S2P Require Import Prelude Common Workers Coordinator.

#[local] Open Scope list_scope.
#[local] Open Scope nat_scope.

(** ** The simulation relation *)

(** What the program counter and flags of a worker say about its status in the current phase. *)
Definition status_rel (sh : WorkersSharedData) (w : Worker) (st : worker_status) : Prop :=
  let id := currentBenchID sh in
  let term := currentBenchPhase sh = BenchPhase_TERMINATE in
  match w_pc w with
  | W_prep => st = Idle /\ phaseFinished w = false /\ id = 0 /\ ~ term
  | W_wait old =>
      (old = id /\ phaseFinished w = true /\ st = Done /\ ~ term) \/ (old <> id /\ phaseFinished w = false /\ st = Idle)
  | W_sleep old => old = id /\ phaseFinished w = true /\ st = Done /\ ~ term /\ isInterruptionRequested w = false
  | W_go => phaseFinished w = false /\ st = Idle
  | W_work i => i = id /\ phaseFinished w = false /\ st = Active
  | W_inc next =>
      open_status st = true
      /\ match next with
         | Some i => i = id /\ phaseFinished w = true /\ ~ term
         | None => term \/ isInterruptionRequested w = true
         end
  | W_catchInt => isInterruptionRequested w = true /\ if phaseFinished w then st = Done else open_status st = true
  | W_errInc => open_status st = true
  | W_returned => term \/ (st = Done /\ isInterruptionRequested w = true) \/ st = Failed
  end.

(** How a step of a worker changes its status, counters and the log of events. *)
Definition event_effect (i : nat) (st st' : worker_status) (ev : option event) (sh sh' : WorkersSharedData) : Prop :=
  match ev with
  | None => st' = st /\ sh' = sh
  | Some (E_begin j p) => j = i /\ st = Idle /\ st' = Active /\ p = currentBenchPhase sh /\ sh' = sh
  | Some (E_done j) => j = i /\ open_status st = true /\ st' = Done /\ sh' = incNumWorkersDoneUnlocked sh
  | Some (E_error j) => j = i /\ open_status st = true /\ st' = Failed /\ sh' = incNumWorkersDoneWithError sh
  | _ => False
  end.

Ltac worker_cases w a :=
  destruct w as [k pc pf int sw gw]; destruct pc, a; cbn in *; try done.

Lemma worker_step_sim service total i a w sh st e :
  status_rel sh w st -> worker_step service total i a w sh = Some e ->
  exists st', event_effect i st st' (e_event e) sh (e_shared e) /\ status_rel (e_shared e) (e_worker e) st'.
Proof.
  intros Hrel Hstep.
  unfold worker_step, waitForNextPhase_check, local_effect, Worker_incNumWorkersDone, status_rel in *.
  worker_cases w a; repeat (case_match; simplify_eq/=); try done;
    first [ solve [exists st; cbn; intuition (subst; auto; try congruence)]
          | solve [exists Active; cbn; intuition (subst; auto)]
          | solve [exists Done; cbn; intuition (subst; auto; try congruence)]
          | solve [exists Failed; cbn; intuition (subst; auto)]
          | idtac ].
  all: try (exists st; cbn; rewrite ?andb_true_iff, ?bool_decide_eq_true, ?Nat.eqb_eq, ?Nat.eqb_neq in *; intuition (subst; auto; try congruence)).
Qed.

Lemma status_rel_ext sh sh' w st :
  currentBenchID sh' = currentBenchID sh -> currentBenchPhase sh' = currentBenchPhase sh ->
  status_rel sh w st -> status_rel sh' w st.
Proof. intros Hi Hp. unfold status_rel. by rewrite Hi, Hp. Qed.

Lemma status_rel_wake sh w st : status_rel sh w st -> status_rel sh (wake w) st.
Proof. unfold status_rel, wake. destruct w as [k [] pf int sw gw]; cbn; intuition. Qed.

Lemma status_rel_stonewall sh w st : status_rel sh w st -> status_rel sh (createStoneWallStats w) st.
Proof. done. Qed.

Lemma status_rel_interrupt sh w st : status_rel sh w st -> status_rel sh (wake (interruptExecution w)) st.
Proof. unfold status_rel, wake. destruct w as [k [] pf int sw gw]; cbn; intuition. by destruct next; intuition. Qed.

(** A worker that has completed a phase and gets a new one. *)
Lemma status_rel_start sh w p id :
  status_rel sh w Done -> currentBenchPhase sh <> BenchPhase_TERMINATE -> id <> currentBenchID sh ->
  (p = BenchPhase_TERMINATE \/ isInterruptionRequested w = false) ->
  status_rel (mkShared id p 0 0) (wake (resetStats w)) Idle.
Proof.
  intros Hrel Hterm Hid Hp. unfold status_rel, wake in *. destruct w as [k [] pf int sw gw]; cbn in *;
    intuition (subst; try congruence; auto).
Qed.

Lemma status_rel_new k p : p <> BenchPhase_TERMINATE -> status_rel (mkShared 0 p 0 0) (Worker_new k) Idle.
Proof. done. Qed.

(** *** Counting *)

Definition count_status (st : worker_status) (l : list worker_status) : nat := length (filter (fun x => x = st) l).

Lemma count_status_insert st l i x y :
  l !! i = Some x ->
  count_status st (<[i := y]> l) + (if decide (x = st) then 1 else 0) = count_status st l + (if decide (y = st) then 1 else 0).
Proof.
  intros Hi. pose proof (lookup_lt_Some _ _ _ Hi) as Hlt. unfold count_status.
  rewrite <- (take_drop_middle l i x Hi) at 2. rewrite insert_take_drop by done.
  rewrite !filter_app, !length_app, !filter_cons. repeat case_decide; cbn [length]; lia.
Qed.

Lemma count_status_replicate st n x : x <> st -> count_status st (replicate n x) = 0.
Proof. intros Hne. unfold count_status. induction n; cbn; [done|]. by rewrite decide_False. Qed.

Lemma all_are_Forall st l : all_are st l = true <-> Forall (fun x => x = st) l.
Proof.
  unfold all_are. rewrite forallb_forall, Forall_forall. split; intros H x Hx.
  - apply list_elem_of_In in Hx. by apply H, bool_decide_eq_true in Hx.
  - apply list_elem_of_In in Hx. apply bool_decide_eq_true. auto.
Qed.

Lemma count_status_all st l : count_status st l = length l <-> Forall (fun x => x = st) l.
Proof.
  unfold count_status. induction l as [|x l IH]; [done|]. rewrite filter_cons, Forall_cons. case_decide; cbn [length].
  - rewrite <- IH. intuition.
  - split; [|tauto]. pose proof (length_filter (fun x => x = st) l). lia.
Qed.

Lemma count_status_none st l : count_status st l = 0 <-> Forall (fun x => x <> st) l.
Proof.
  unfold count_status. induction l as [|x l IH]; [by split|]. rewrite filter_cons, Forall_cons. case_decide; cbn [length].
  - split; [lia|tauto].
  - rewrite <- IH. tauto.
Qed.

(** *** The invariant *)

(** Which workers were asked to stop. *)
Definition ints (ws : list Worker) : list bool := isInterruptionRequested <$> ws.

Definition all_done (sp : spec_state) : Prop := Forall (fun x => x = Done) (sp_workers sp).

(** Between the start of the workers and the end of the run, workers are only interrupted after a
    signal or at the time limit. *)
Definition interrupts_explained (s : process) : Prop :=
  Forall (fun b => b = true -> gotUserInterruptSignal s = true \/ isPhaseTimeExpired s = true) (ints (s_workers s)).

Definition coord_ok (s : process) (sp : spec_state) : Prop :=
  let term := currentBenchPhase (s_shared s) = BenchPhase_TERMINATE in
  match s_coord s with
  | C_prepWait plan | C_wait _ plan => ~ term /\ sp_todo sp = plan_phases plan /\ interrupts_explained s
  | C_ready plan | C_after plan =>
      ~ term /\ sp_todo sp = plan_phases plan /\ interrupts_explained s /\ all_done sp
  | C_start p plan =>
      ~ term /\ sp_todo sp = p :: plan_phases plan /\ Forall (fun b => b = false) (ints (s_workers s)) /\ all_done sp
  | C_rotJoin plan =>
      ~ term /\ sp_todo sp = plan_phases plan /\ Forall (fun b => b = true) (ints (s_workers s)) /\ all_done sp
  | C_join retVal =>
      (term \/ Forall (fun b => b = true) (ints (s_workers s)))
      /\ (retVal = true -> isPhaseTimeExpired s = true \/ numWorkersDoneWithError (s_shared s) <> 0 \/ sp_todo sp = [])
  | C_exit retVal =>
      Forall (fun w => w_pc w = W_returned) (s_workers s)
      /\ (retVal = true ->
          numWorkersDoneWithError (s_shared s) = 0 /\ (isPhaseTimeExpired s = true \/ sp_todo sp = []))
  end.

(** All workers agree on whether the stonewall statistics exist, and they do when all are done. *)
Definition stonewall_ok (cfg : config) (s : process) : Prop :=
  exists b, Forall (fun w => stoneWallTriggered w = b) (s_workers s)
    /\ (cfg_runAsService cfg = false -> s_workers s <> [] -> numWorkersDone (s_shared s) = length (s_workers s) -> b = true).

Record inv (cfg : config) (s : process) (sp : spec_state) : Prop := {
  inv_len : length (sp_workers sp) = length (cfg_kinds cfg);
  inv_rel : Forall2 (status_rel (s_shared s)) (s_workers s) (sp_workers sp);
  inv_phase : sp_phase sp = currentBenchPhase (s_shared s);
  inv_numDone : numWorkersDone (s_shared s) = count_status Done (sp_workers sp);
  inv_numErr : numWorkersDoneWithError (s_shared s) = count_status Failed (sp_workers sp);
  inv_todo : Forall (fun p => p <> BenchPhase_TERMINATE) (sp_todo sp);
  inv_coord : coord_ok s sp;
  inv_stone : stonewall_ok cfg s;
}.

Lemma ints_wake ws : ints (notify_all ws) = ints ws.
Proof. unfold ints, notify_all. rewrite <- list_fmap_compose. apply list_fmap_ext. intros i [k [] ? ? ? ?] _; done. Qed.

Lemma ints_interrupt ws : Forall (fun b => b = true) (ints (interruptAndNotifyWorkers ws)).
Proof.
  unfold interruptAndNotifyWorkers. rewrite ints_wake. unfold ints. rewrite <- list_fmap_compose.
  apply Forall_fmap, Forall_true. done.
Qed.

Lemma Forall2_fmap_l' {A B} (R : A -> B -> Prop) f l k :
  (forall a b, R a b -> R (f a) b) -> Forall2 R l k -> Forall2 R (f <$> l) k.
Proof. intros Hf. induction 1; cbn; constructor; auto. Qed.

Lemma rel_interrupt sh ws sts :
  Forall2 (status_rel sh) ws sts -> Forall2 (status_rel sh) (interruptAndNotifyWorkers ws) sts.
Proof.
  intros H. unfold interruptAndNotifyWorkers, notify_all. rewrite <- list_fmap_compose.
  apply Forall2_fmap_l'; [|done]. intros. by apply status_rel_interrupt.
Qed.

Lemma stone_interrupt b ws :
  Forall (fun w => stoneWallTriggered w = b) ws -> Forall (fun w => stoneWallTriggered w = b) (interruptAndNotifyWorkers ws).
Proof.
  intros H. unfold interruptAndNotifyWorkers, notify_all. rewrite <- list_fmap_compose. apply Forall_fmap.
  eapply Forall_impl; [exact H|]. intros [k [] ? ? ? ?]; done.
Qed.

Lemma length_interrupt ws : length (interruptAndNotifyWorkers ws) = length ws.
Proof. unfold interruptAndNotifyWorkers, notify_all. by rewrite !length_fmap. Qed.

Lemma interrupt_nil ws : interruptAndNotifyWorkers ws <> [] -> ws <> [].
Proof. by destruct ws. Qed.

(** *** Steps of a worker *)

Lemma worker_step_flags service total i a w sh e :
  worker_step service total i a w sh = Some e ->
  isInterruptionRequested (e_worker e) = isInterruptionRequested w
  /\ stoneWallTriggered (e_worker e) = stoneWallTriggered w /\ w_pc w <> W_returned.
Proof.
  unfold worker_step, waitForNextPhase_check, local_effect, Worker_incNumWorkersDone. intros H.
  worker_cases w a; repeat first [progress simplify_eq/= | case_match]; done.
Qed.

(** The stonewall is created by the last worker at the latest. *)
Lemma worker_step_stonewall service total i a w sh e :
  worker_step service total i a w sh = Some e ->
  if e_stonewall e then True
  else stoneWallTriggered w = false -> service = false ->
       numWorkersDone (e_shared e) = numWorkersDone sh \/ numWorkersDone (e_shared e) <> total.
Proof.
  unfold worker_step, waitForNextPhase_check, local_effect, Worker_incNumWorkersDone. intros H.
  worker_cases w a; repeat first [progress simplify_eq/= | case_match]; auto; intros; subst; right.
  all: match goal with H : negb _ && _ = false |- _ => cbn in H; rewrite ?orb_false_iff, ?Nat.eqb_neq in H; lia end.
Qed.

Lemma sys_worker_workers cfg i a s ev s' :
  sys_worker_step cfg i a s = Some (ev, s') ->
  exists w e, s_workers s !! i = Some w
    /\ worker_step (cfg_runAsService cfg) (length (s_workers s)) i a w (s_shared s) = Some e
    /\ ev = e_event e /\ s_shared s' = e_shared e /\ s_coord s' = s_coord s
    /\ gotUserInterruptSignal s' = gotUserInterruptSignal s /\ isPhaseTimeExpired s' = isPhaseTimeExpired s
    /\ s_workers s' =
         (let ws := <[i := e_worker e]> (s_workers s) in
          let ws := if e_stonewall e then createStoneWallStats <$> ws else ws in
          if e_notify e then notify_all ws else ws).
Proof.
  unfold sys_worker_step. intros H. apply bind_Some in H as (w & Hw & H). apply bind_Some in H as (e & He & H).
  simplify_eq. exists w, e. done.
Qed.

Lemma ints_worker_step cfg i a s ev s' : sys_worker_step cfg i a s = Some (ev, s') -> ints (s_workers s') = ints (s_workers s).
Proof.
  intros (w & e & Hw & He & _ & _ & _ & _ & _ & ->)%sys_worker_workers. apply worker_step_flags in He as (Hint & _).
  assert (ints (<[i := e_worker e]> (s_workers s)) = ints (s_workers s)) as Heq.
  { unfold ints. rewrite list_fmap_insert, Hint. apply list_insert_id. by rewrite list_lookup_fmap, Hw. }
  cbn zeta. destruct (e_notify e); rewrite ?ints_wake; destruct (e_stonewall e); rewrite <- Heq; try done;
    unfold ints; by rewrite <- list_fmap_compose.
Qed.

Lemma length_worker_step cfg i a s ev s' :
  sys_worker_step cfg i a s = Some (ev, s') -> length (s_workers s') = length (s_workers s).
Proof.
  intros H%ints_worker_step. unfold ints in H. apply (f_equal length) in H. by rewrite !length_fmap in H.
Qed.

Lemma stonewall_worker_step cfg i a s ev s' :
  sys_worker_step cfg i a s = Some (ev, s') -> stonewall_ok cfg s -> stonewall_ok cfg s'.
Proof.
  intros Hs (b & Hb & Hlast). pose proof (length_worker_step _ _ _ _ _ _ Hs) as Hlen.
  apply sys_worker_workers in Hs as (w & e & Hw & He & _ & Hsh & _ & _ & _ & Hws).
  pose proof (worker_step_stonewall _ _ _ _ _ _ _ He) as Htr. apply worker_step_flags in He as (_ & Hst & _).
  assert (Forall (fun w => stoneWallTriggered w = b) (<[i := e_worker e]> (s_workers s))) as Hb'.
  { apply Forall_insert; [done|]. rewrite Hst. exact (Forall_lookup_1 _ _ _ _ Hb Hw). }
  assert (forall b' ws, Forall (fun w => stoneWallTriggered w = b') ws -> Forall (fun w => stoneWallTriggered w = b') (notify_all ws)) as Hwake.
  { intros b' ws H. apply Forall_fmap. eapply Forall_impl; [exact H|]. intros [k [] ? ? ? ?]; done. }
  unfold stonewall_ok. rewrite Hlen, Hsh, Hws. destruct (e_stonewall e).
  - exists true. split; [|done]. destruct (e_notify e); [apply Hwake|]; apply Forall_fmap, Forall_true; done.
  - exists b. split; [destruct (e_notify e); auto|]. intros Hsvc Hne Heq. destruct b; [done|].
    assert (stoneWallTriggered w = false) as Hw' by (exact (Forall_lookup_1 _ _ _ _ Hb Hw)).
    destruct (Htr Hw' Hsvc) as [Hsame|?]; [|done]. apply Hlast; [done| |congruence]. intros Hnil. by rewrite Hnil in Hw.
Qed.

Lemma event_effect_shared i st st' ev sh sh' :
  event_effect i st st' ev sh sh' ->
  currentBenchID sh' = currentBenchID sh /\ currentBenchPhase sh' = currentBenchPhase sh.
Proof. destruct ev as [[]|]; cbn; intuition (subst; done). Qed.

Lemma rel_worker_step cfg i a s ev s' sp :
  sys_worker_step cfg i a s = Some (ev, s') -> Forall2 (status_rel (s_shared s)) (s_workers s) (sp_workers sp) ->
  exists st st', sp_workers sp !! i = Some st /\ event_effect i st st' ev (s_shared s) (s_shared s')
    /\ Forall2 (status_rel (s_shared s')) (s_workers s') (<[i := st']> (sp_workers sp)).
Proof.
  intros (w & e & Hw & He & -> & -> & _ & _ & _ & ->)%sys_worker_workers Hrel.
  destruct (Forall2_lookup_l _ _ _ _ _ Hrel Hw) as (st & Hst & Hwst).
  destruct (worker_step_sim _ _ _ _ _ _ _ _ Hwst He) as (st' & Hev & Hst'). exists st, st'. split; [done|]. split; [done|].
  assert (Forall2 (status_rel (e_shared e)) (<[i := e_worker e]> (s_workers s)) (<[i := st']> (sp_workers sp))) as Hrel'.
  { apply Forall2_insert; [|done]. eapply Forall2_impl; [exact Hrel|]. intros w0 st0.
    apply status_rel_ext; apply event_effect_shared in Hev; tauto. }
  assert (forall ws k, Forall2 (status_rel (e_shared e)) ws k -> Forall2 (status_rel (e_shared e)) (notify_all ws) k) as Hwake.
  { intros ws k. apply Forall2_fmap_l'. intros. by apply status_rel_wake. }
  cbn zeta. destruct (e_notify e); [apply Hwake|]; (destruct (e_stonewall e); [by apply Forall2_fmap_l'|done]).
Qed.

(** The monitor accepts the event of a worker's step. *)
Lemma event_accepted cfg s s' sp i st st' ev :
  inv cfg s sp -> sp_workers sp !! i = Some st -> event_effect i st st' ev (s_shared s) (s_shared s') ->
  spec_run sp (option_list ev) = Some (mkSpec (sp_todo sp) (sp_phase sp) (<[i := st']> (sp_workers sp)))
  /\ numWorkersDone (s_shared s') = count_status Done (<[i := st']> (sp_workers sp))
  /\ numWorkersDoneWithError (s_shared s') = count_status Failed (<[i := st']> (sp_workers sp)).
Proof.
  intros Hinv Hst Hev. pose proof (inv_numDone _ _ _ Hinv) as Hd. pose proof (inv_numErr _ _ _ Hinv) as He.
  pose proof (count_status_insert Done (sp_workers sp) i st st' Hst) as Hc.
  pose proof (count_status_insert Failed (sp_workers sp) i st st' Hst) as Hf. pose proof (inv_phase _ _ _ Hinv) as Hp.
  destruct ev as [[| |j p|j|j|]|]; cbn in Hev; try done.
  - destruct Hev as (-> & -> & -> & -> & ->). repeat case_decide; try done. cbn. rewrite Hst, decide_True by done. cbn.
    rewrite <- Hp. split; [done|lia].
  - destruct Hev as (-> & Hopen & -> & ->). cbn. rewrite Hst. cbn. rewrite Hopen. cbn. split; [done|].
    destruct st; try done; repeat case_decide; try done; lia.
  - destruct Hev as (-> & Hopen & -> & ->). cbn. rewrite Hst. cbn. rewrite Hopen. cbn. split; [done|].
    destruct st; try done; repeat case_decide; try done; lia.
  - destruct Hev as [-> ->]. rewrite list_insert_id by done. cbn. by destruct sp.
Qed.

Lemma coord_ok_worker_step cfg s i a ev s' sp st st' :
  inv cfg s sp -> sys_worker_step cfg i a s = Some (ev, s') -> sp_workers sp !! i = Some st ->
  event_effect i st st' ev (s_shared s) (s_shared s') ->
  coord_ok s' (mkSpec (sp_todo sp) (sp_phase sp) (<[i := st']> (sp_workers sp))).
Proof.
  intros Hinv Hs Hst Hev. pose proof (inv_coord _ _ _ Hinv) as Hc. pose proof (ints_worker_step _ _ _ _ _ _ Hs) as Hints.
  pose proof (event_effect_shared _ _ _ _ _ _ Hev) as [_ Hph].
  assert (all_done sp -> all_done (mkSpec (sp_todo sp) (sp_phase sp) (<[i := st']> (sp_workers sp)))) as Hdone.
  { unfold all_done. cbn. intros Hall. apply Forall_insert; [done|]. eapply Forall_lookup_1 in Hall; [|exact Hst]. subst st.
    destruct ev as [[]|]; cbn in Hev; intuition congruence. }
  assert (numWorkersDoneWithError (s_shared s) <> 0 -> numWorkersDoneWithError (s_shared s') <> 0) as Herr.
  { destruct ev as [[]|]; cbn in Hev; try done; decompose [and] Hev;
      match goal with H : s_shared s' = _ |- _ => rewrite H end; cbn; lia. }
  apply sys_worker_workers in Hs as (w & e & Hw & He & _ & _ & Hco & Hsig & Hexp & _).
  unfold coord_ok, interrupts_explained in *. rewrite Hco, Hsig, Hexp, Hph, Hints. cbn [sp_todo].
  destruct (s_coord s); try tauto.
  exfalso. destruct Hc as [Hret _]. eapply Forall_lookup_1 in Hret; [|exact Hw].
  by apply worker_step_flags in He as (_ & _ & ?).
Qed.

Lemma inv_worker_step cfg s i a ev s' sp :
  inv cfg s sp -> sys_worker_step cfg i a s = Some (ev, s') ->
  exists sp', spec_run sp (option_list ev) = Some sp' /\ inv cfg s' sp'.
Proof.
  intros Hinv Hs. destruct (rel_worker_step _ _ _ _ _ _ sp Hs (inv_rel _ _ _ Hinv)) as (st & st' & Hst & Hev & Hrel).
  destruct (event_accepted cfg s s' sp i st st' ev Hinv Hst Hev) as (Hrun & Hd & He). eexists. split; [exact Hrun|].
  pose proof (event_effect_shared _ _ _ _ _ _ Hev) as [_ Hph]. split; cbn; try done.
  - rewrite length_insert. apply Hinv.
  - rewrite Hph. apply Hinv.
  - apply Hinv.
  - by eapply coord_ok_worker_step.
  - eapply stonewall_worker_step; [done|]. apply Hinv.
Qed.

(** *** Steps of the coordinator *)

Lemma interrupt_idem ws : interruptAndNotifyWorkers (interruptAndNotifyWorkers ws) = interruptAndNotifyWorkers ws.
Proof.
  unfold interruptAndNotifyWorkers, notify_all. rewrite <- !list_fmap_compose. apply list_fmap_ext.
  intros i [k [] ? ? ? ?] _; done.
Qed.

(** Steps that at most interrupt the workers. *)
Lemma inv_change cfg s sp ws sig exp c :
  inv cfg s sp -> ws = s_workers s \/ ws = interruptAndNotifyWorkers (s_workers s) ->
  coord_ok (mkSystem ws (s_shared s) sig exp c) sp -> inv cfg (mkSystem ws (s_shared s) sig exp c) sp.
Proof.
  intros Hinv Hws Hc. destruct Hinv as [Hlen Hrel Hph Hd He Ht _ (b & Hb & Hst)]. split; cbn; try done.
  - destruct Hws as [->| ->]; [done|by apply rel_interrupt].
  - exists b. cbn. destruct Hws as [->| ->]; [done|]. rewrite length_interrupt. split; [by apply stone_interrupt|].
    intros ? ?%interrupt_nil ?. auto.
Qed.

Lemma explained_stay s sig exp c sh :
  interrupts_explained s -> (gotUserInterruptSignal s = true -> sig = true) -> (isPhaseTimeExpired s = true -> exp = true) ->
  interrupts_explained (mkSystem (s_workers s) sh sig exp c).
Proof.
  unfold interrupts_explained. cbn. intros H H1 H2. eapply Forall_impl; [exact H|]. cbn. intros b Hb Hi.
  destruct (Hb Hi); [left|right]; auto.
Qed.

Lemma explained_interrupt ws sig exp c sh :
  sig = true \/ exp = true -> interrupts_explained (mkSystem ws sh sig exp c).
Proof. intros H. apply Forall_true. cbn. auto. Qed.

Lemma inv_abort cfg s sp retVal :
  inv cfg s sp -> (retVal = true -> isPhaseTimeExpired s = true) -> inv cfg (abort_run retVal s) sp.
Proof.
  intros Hinv Hret. apply inv_change; [done|by right|]. cbn. split; [right; apply ints_interrupt|auto].
Qed.

Lemma inv_poll cfg s sp limited timeUp next plan :
  inv cfg s sp -> s_coord s = C_prepWait plan \/ (exists cur, s_coord s = C_wait cur plan) ->
  next = C_ready plan \/ next = C_after plan -> inv cfg (poll_workers limited timeUp next s) sp.
Proof.
  intros Hinv Hco Hnext.
  assert (currentBenchPhase (s_shared s) <> BenchPhase_TERMINATE /\ sp_todo sp = plan_phases plan /\ interrupts_explained s)
    as (Hterm & Htodo & Hexp).
  { pose proof (inv_coord _ _ _ Hinv) as Hc. unfold coord_ok in Hc. by destruct Hco as [Hco|[cur Hco]]; rewrite Hco in Hc. }
  unfold poll_workers, checkWorkersDoneUnlocked. destruct (Nat.eqb_spec (numWorkersDoneWithError (s_shared s)) 0) as [Herr|Herr]; cbn.
  2: { apply inv_change; [done|by right|]. cbn. split; [right; apply ints_interrupt|auto]. }
  set (sig := gotUserInterruptSignal s). set (ex := limited && timeUp).
  set (ws := if ex then interruptAndNotifyWorkers (if sig then interruptAndNotifyWorkers (s_workers s) else s_workers s)
             else if sig then interruptAndNotifyWorkers (s_workers s) else s_workers s).
  assert (ws = s_workers s /\ ex = false \/ ws = interruptAndNotifyWorkers (s_workers s) /\ (sig = true \/ ex = true)) as Hws.
  { subst ws. destruct ex, sig; rewrite ?interrupt_idem; auto. }
  assert (forall c, interrupts_explained (mkSystem ws (s_shared s) sig (isPhaseTimeExpired s || ex) c)) as Hex.
  { intros c. destruct Hws as [[-> ->]|[-> Hse]].
    - rewrite orb_false_r. by apply explained_stay.
    - apply explained_interrupt. destruct Hse as [?| ->]; [by left|right]. apply orb_true_r. }
  apply inv_change; [done|tauto|].
  destruct (Nat.eqb_spec (numWorkersDone (s_shared s) + numWorkersDoneWithError (s_shared s)) (length (s_workers s))) as [Hall|Hall].
  - assert (all_done sp) as Hdone.
    { apply count_status_all. rewrite <- (inv_numDone _ _ _ Hinv), <- (Forall2_length _ _ _ (inv_rel _ _ _ Hinv)). lia. }
    unfold coord_ok. cbn. destruct Hnext as [-> | ->]; cbn; auto.
  - unfold coord_ok. cbn. destruct Hco as [-> |[cur ->]]; cbn; auto.
Qed.

Lemma inv_between cfg s sp next :
  inv cfg s sp -> (gotUserInterruptSignal s = false -> isPhaseTimeExpired s = false -> coord_ok (set_coord next s) sp) ->
  inv cfg (checkInterruptionBetweenPhases next s) sp.
Proof.
  intros Hinv Hnext. unfold checkInterruptionBetweenPhases. destruct (gotUserInterruptSignal s) eqn:Hs; [by apply inv_abort|].
  destruct (isPhaseTimeExpired s) eqn:He; [by apply inv_abort|]. unfold set_coord in *. apply inv_change; auto.
Qed.

Lemma Forall2_replicate_r {A B} (R : A -> B -> Prop) l y n :
  length l = n -> Forall (fun x => R x y) l -> Forall2 R l (replicate n y).
Proof. intros <-. induction 1; cbn; constructor; auto. Qed.

Lemma rel_done_Forall sh ws sts :
  Forall2 (status_rel sh) ws sts -> Forall (fun x => x = Done) sts -> Forall (fun w => status_rel sh w Done) ws.
Proof. induction 1 as [|w st ws sts Hr _ IH]; intros Hall; constructor; apply Forall_cons in Hall as [-> Hall]; auto. Qed.

Lemma inv_start cfg s sp p id next todo :
  inv cfg s sp -> all_done sp -> currentBenchPhase (s_shared s) <> BenchPhase_TERMINATE -> id <> currentBenchID (s_shared s) ->
  (p = BenchPhase_TERMINATE \/ Forall (fun b => b = false) (ints (s_workers s))) ->
  Forall (fun p => p <> BenchPhase_TERMINATE) todo ->
  coord_ok (start_phase p id next s) (mkSpec todo p (replicate (length (sp_workers sp)) Idle)) ->
  inv cfg (start_phase p id next s) (mkSpec todo p (replicate (length (sp_workers sp)) Idle)).
Proof.
  intros Hinv Hdone Hterm Hid Hp Htodo Hc. destruct Hinv as [Hlen Hrel _ _ _ _ _ _].
  pose proof (Forall2_length _ _ _ Hrel) as Hl. split; cbn -[count_status]; try done.
  - by rewrite length_replicate.
  - unfold notify_all. rewrite <- list_fmap_compose. apply Forall2_replicate_r; [by rewrite length_fmap|]. apply Forall_fmap.
    pose proof (rel_done_Forall _ _ _ Hrel Hdone) as Hall. rewrite Forall_lookup in *. intros i w Hw. cbn.
    apply (status_rel_start (s_shared s)); [exact (Hall i w Hw)|done|done|]. destruct Hp as [?|Hp]; [by left|right].
    apply (Forall_lookup_1 _ _ i (isInterruptionRequested w) Hp). unfold ints. by rewrite list_lookup_fmap, Hw.
  - by rewrite count_status_replicate.
  - by rewrite count_status_replicate.
  - exists false. cbn. split; [|intros _ Hne Heq; by destruct (s_workers s)].
    unfold notify_all. rewrite <- list_fmap_compose. apply Forall_fmap, Forall_true. intros [k [] ? ? ? ?]; done.
Qed.

Lemma inv_prepare cfg s sp plan :
  currentBenchPhase (s_shared s) <> BenchPhase_TERMINATE -> Forall (fun p => p <> BenchPhase_TERMINATE) (plan_phases plan) ->
  sp = mkSpec (plan_phases plan) (currentBenchPhase (s_shared s)) (replicate (length (cfg_kinds cfg)) Idle) ->
  inv cfg (prepare cfg (C_prepWait plan) s) sp.
Proof.
  intros Hterm Htodo ->. split; cbn -[count_status]; try done.
  - by rewrite length_replicate.
  - apply Forall2_replicate_r; [by rewrite length_fmap|]. apply Forall_fmap, Forall_true. intros k. by apply status_rel_new.
  - by rewrite count_status_replicate.
  - by rewrite count_status_replicate.
  - split; [done|]. split; [done|]. unfold interrupts_explained, ints. cbn. apply Forall_fmap, Forall_fmap, Forall_true. done.
  - exists false. cbn. split; [apply Forall_fmap, Forall_true; done|]. intros _ Hne Heq. by destruct (cfg_kinds cfg).
Qed.

Lemma no_failed_count l : count_status Failed l = 0 -> existsb (fun x => bool_decide (x = Failed)) l = false.
Proof.
  intros H%count_status_none. apply not_true_iff_false. rewrite existsb_exists. intros (x & Hx & Hf).
  apply bool_decide_eq_true in Hf. rewrite Forall_forall in H. apply (H x); [by apply list_elem_of_In|done].
Qed.

Lemma forallb_returned ws : forallb returned ws = true -> Forall (fun w => w_pc w = W_returned) ws.
Proof.
  rewrite forallb_forall, Forall_forall. intros H w Hw. apply list_elem_of_In in Hw. specialize (H w Hw).
  unfold returned in H. by destruct (w_pc w).
Qed.

Lemma inv_coord_step cfg s a ev s' sp :
  inv cfg s sp -> coord_step cfg a s = Some (ev, s') ->
  exists sp', spec_run sp (option_list ev) = Some sp' /\ inv cfg s' sp'.
Proof.
  intros Hinv Hs. pose proof (inv_coord _ _ _ Hinv) as Hc. pose proof (inv_todo _ _ _ Hinv) as Htodo.
  unfold coord_step in Hs. unfold coord_ok in Hc.
  destruct (s_coord s) as [plan|plan|p plan|cur plan|plan|plan|r|r] eqn:Hco; destruct a as [|nid|tu|]; try done;
    try solve [injection Hs as <- <-; exists sp; split; [done|by apply inv_abort]];
    try solve [destruct plan as [|[]]; first [done | injection Hs as <- <-; exists sp; split; [done|by apply inv_abort]]].
  - (* preparation *) injection Hs as <- <-. exists sp. split; [done|]. eapply inv_poll; eauto.
  - (* ready *) destruct Hc as (Ht & Hp & Hex & Hd). destruct plan as [|[p|] plan]; try done.
    + injection Hs as <- <-. exists sp. split; [done|]. apply inv_between; [done|]. intros Hsig Hexp. cbn.
      split; [done|]. split; [done|]. split; [|done]. eapply Forall_impl; [exact Hex|]. cbn. intros b Hb.
      destruct b; [|done]. destruct (Hb eq_refl); congruence.
    + injection Hs as <- <-. exists sp. split; [done|]. apply (inv_change cfg s); [done|by right|]. cbn. split; [done|].
      split; [done|]. split; [apply ints_interrupt|done].
  - (* ready, nothing left *) destruct Hc as (Ht & Hp & _ & Hd). destruct plan as [|[p|] plan]; try done.
    destruct (Nat.eqb_spec nid (currentBenchID (s_shared s))); [done|]. injection Hs as <- <-.
    eexists. split.
    + cbn. rewrite (proj2 (all_are_Forall _ _) Hd), Hp. reflexivity.
    + apply inv_start; auto. cbn. split; [by left|]. intros _. auto.
  - (* start *) destruct Hc as (Ht & Hp & Hnoint & Hd). destruct (Nat.eqb_spec nid (currentBenchID (s_shared s))); [done|].
    injection Hs as <- <-. rewrite Hp in Htodo. apply Forall_cons in Htodo as [Hpt Htodo]. eexists. split.
    + cbn. rewrite (proj2 (all_are_Forall _ _) Hd), Hp. cbn. rewrite decide_True by done. reflexivity.
    + apply inv_start; auto. cbn. split; [done|]. split; [done|]. unfold interrupts_explained. cbn. rewrite ints_wake.
      unfold ints. rewrite <- list_fmap_compose.
      change (isInterruptionRequested ∘ resetStats) with isInterruptionRequested.
      eapply Forall_impl; [exact Hnoint|]. cbn. by intros b ->.
  - (* wait *) injection Hs as <- <-. exists sp. split; [done|]. eapply inv_poll; eauto.
  - (* after *) injection Hs as <- <-. exists sp. split; [done|]. apply inv_between; [done|]. intros _ _. exact Hc.
  - (* rotation *) destruct Hc as (Ht & Hp & _ & Hd). destruct (forallb returned (s_workers s)); [|done].
    injection Hs as <- <-. eexists. split; [cbn; by rewrite (proj2 (all_are_Forall _ _) Hd)|].
    rewrite (inv_len _ _ _ Hinv), (inv_phase _ _ _ Hinv), Hp in *. by apply inv_prepare.
  - (* exit *) destruct Hc as [Hj Hr]. destruct (forallb returned (s_workers s)) eqn:Hret; [|done].
    injection Hs as <- <-. apply forallb_returned in Hret. exists sp. split.
    + cbn. destruct (Nat.eqb_spec (numWorkersDoneWithError (s_shared s)) 0) as [He|He]; [|by rewrite andb_false_r].
      rewrite no_failed_count by (by rewrite <- (inv_numErr _ _ _ Hinv)). by rewrite andb_false_r.
    + unfold set_coord. apply inv_change; [done|by left|]. cbn. split; [done|]. intros [Hrt He%Nat.eqb_eq]%andb_true_iff.
      split; [done|]. destruct (Hr Hrt) as [?|[?|?]]; auto.
Qed.

Lemma inv_signal cfg s sp :
  inv cfg s sp -> inv cfg (mkSystem (s_workers s) (s_shared s) true (isPhaseTimeExpired s) (s_coord s)) sp.
Proof.
  intros Hinv. apply inv_change; [done|by left|]. pose proof (inv_coord _ _ _ Hinv) as Hc. unfold coord_ok in *. cbn.
  destruct (s_coord s); try tauto; decompose [and] Hc; split_and!; try done; by apply explained_interrupt; left.
Qed.

Lemma spec_run_app sp tr tr' : spec_run sp (tr ++ tr') = spec_run sp tr ≫= fun sp => spec_run sp tr'.
Proof. revert sp. induction tr as [|ev tr IH]; intros sp; [done|]. cbn. destruct (spec_step sp ev); cbn; [apply IH|done]. Qed.

(** The simulation over whole runs. *)
Lemma reach_inv cfg plan tr s :
  Forall (fun p => p <> BenchPhase_TERMINATE) (plan_phases plan) -> reach cfg plan tr s ->
  exists sp, spec_run (spec_start cfg plan) tr = Some sp /\ inv cfg s sp.
Proof.
  intros Hplan. induction 1 as [|tr s ev s' _ (sp & Hrun & Hinv) Hstep].
  { exists (spec_start cfg plan). split; [done|]. by apply inv_prepare. }
  cut (exists sp', spec_run sp (option_list ev) = Some sp' /\ inv cfg s' sp').
  { intros (sp' & Hrun' & Hinv'). exists sp'. split; [|done]. by rewrite spec_run_app, Hrun. }
  destruct Hstep as [i a s ev s' Hs|a s ev s' Hs|s].
  - by eapply inv_worker_step.
  - by eapply inv_coord_step.
  - exists sp. split; [done|]. by apply inv_signal.
Qed.

(** ** Progress *)

(** A worker that is neither waiting for the condition nor at its end can always go on. *)
Lemma worker_can_step cfg s i w :
  s_workers s !! i = Some w -> (forall old, w_pc w <> W_sleep old) -> w_pc w <> W_returned ->
  exists a ev s', a <> A_spurious /\ sys_worker_step cfg i a s = Some (ev, s').
Proof.
  intros Hi Hs Hr. unfold sys_worker_step. rewrite Hi. cbn.
  cut (exists a e, a <> A_spurious /\ worker_step (cfg_runAsService cfg) (length (s_workers s)) i a w (s_shared s) = Some e).
  { intros (a & e & Ha & He). exists a. rewrite He. cbn. eauto. }
  exists (match w_pc w with W_prep | W_work _ => A_ok true | _ => A_step end).
  unfold worker_step, local_effect, Worker_incNumWorkersDone.
  destruct w as [k [] pf int sw gw]; cbn in *; try done; repeat case_match; eauto; naive_solver.
Qed.

Lemma find_unfinished (ws : list Worker) :
  (exists i w, ws !! i = Some w /\ (forall old, w_pc w <> W_sleep old) /\ w_pc w <> W_returned)
  \/ Forall (fun w => (exists old, w_pc w = W_sleep old) \/ w_pc w = W_returned) ws.
Proof.
  induction ws as [|w ws [(i & w' & Hi & H)|IH]]; [by right|left; by exists (S i), w'|].
  destruct (w_pc w) eqn:Hpc; try (left; exists 0, w; split; [done|]; rewrite Hpc; done).
  - right. constructor; [|done]. left. eauto.
  - right. constructor; [|done]. by right.
Qed.

(** Workers that wait for the condition or have ended have been counted. *)
Lemma idle_workers_counted sh ws sts :
  currentBenchPhase sh <> BenchPhase_TERMINATE -> Forall2 (status_rel sh) ws sts ->
  Forall (fun w => (exists old, w_pc w = W_sleep old) \/ w_pc w = W_returned) ws ->
  count_status Done sts + count_status Failed sts = length ws.
Proof.
  intros Ht. induction 1 as [|w st ws sts Hr _ IH]; intros Hall; [done|]. apply Forall_cons in Hall as [Hw Hall].
  specialize (IH Hall). unfold count_status in *. rewrite !filter_cons. unfold status_rel in Hr. cbn [length].
  destruct Hw as [[old Hw]|Hw]; rewrite Hw in Hr.
  - destruct Hr as (_ & _ & -> & _). repeat case_decide; cbn [length]; try done; lia.
  - destruct Hr as [?|[[-> _]| ->]]; [done|..]; repeat case_decide; cbn [length]; try done; lia.
Qed.

(** Nobody waits for the condition once the workers were told to stop. *)
Lemma stopped_workers_awake sh ws sts :
  currentBenchPhase sh = BenchPhase_TERMINATE \/ Forall (fun b => b = true) (ints ws) -> Forall2 (status_rel sh) ws sts ->
  Forall (fun w => (exists old, w_pc w = W_sleep old) \/ w_pc w = W_returned) ws ->
  forallb returned ws = true.
Proof.
  intros Hstop. induction 1 as [|w st ws sts Hr _ IH]; intros Hall; [done|]. apply Forall_cons in Hall as [Hw Hall]. cbn.
  rewrite IH; [|destruct Hstop as [?|Hs]; [by left|right; by apply Forall_cons in Hs as [_ Hs]]|done]. unfold returned, status_rel in *.
  destruct Hw as [[old Hw]|Hw]; rewrite Hw in *; [|done]. destruct Hr as (_ & _ & _ & Ht & Hint).
  destruct Hstop as [?|Hs]; [done|]. apply Forall_cons in Hs as [Hs _]. congruence.
Qed.

(** ** What the monitor implies for a sequence of events *)

Definition started (tr : list event) : list BenchPhase :=
  omap (fun ev => match ev with E_start p => Some p | _ => None end) tr.

Definition benchmark_phases (l : list BenchPhase) : list BenchPhase := filter (fun p => p <> BenchPhase_TERMINATE) l.

Lemma spec_step_started sp ev sp1 :
  Forall (fun p => p <> BenchPhase_TERMINATE) (sp_todo sp) -> spec_step sp ev = Some sp1 ->
  benchmark_phases (started [ev]) ++ sp_todo sp1 = sp_todo sp.
Proof.
  intros Hsp Hstep. destruct ev as [|p|i p|i|i|b]; cbn in Hstep.
  2: { destruct (negb _); [done|]. destruct (sp_todo sp) as [|q todo].
       - destruct (decide (p = BenchPhase_TERMINATE)) as [->|]; [|done]. by injection Hstep as <-.
       - destruct (decide (p = q)) as [->|]; [|done]. injection Hstep as <-. apply Forall_cons in Hsp as [Hq _].
         unfold benchmark_phases. cbn. by rewrite decide_True. }
  all: repeat first [progress simplify_option_eq | case_match]; done.
Qed.

Lemma spec_run_started sp tr sp' :
  Forall (fun p => p <> BenchPhase_TERMINATE) (sp_todo sp) -> spec_run sp tr = Some sp' ->
  benchmark_phases (started tr) ++ sp_todo sp' = sp_todo sp.
Proof.
  revert sp. induction tr as [|ev tr IH]; intros sp Hsp Hrun; [by injection Hrun as ->|].
  cbn in Hrun. destruct (spec_step sp ev) as [sp1|] eqn:Hstep; [|done]. cbn in Hrun.
  pose proof (spec_step_started _ _ _ Hsp Hstep) as Hs1. rewrite <- Hs1 in Hsp. apply Forall_app in Hsp as [_ Hsp].
  change (ev :: tr) with ([ev] ++ tr). unfold started, benchmark_phases in *. rewrite omap_app, filter_app.
  rewrite <- app_assoc, (IH sp1 Hsp Hrun). exact Hs1.
Qed.

(** A failed worker stays failed: no phase starts after it, and the exit code is not success. *)
Lemma spec_run_failed sp tr sp' i :
  sp_workers sp !! i = Some Failed -> spec_run sp tr = Some sp' -> (E_exit true ∉ tr) /\ sp_workers sp' !! i = Some Failed.
Proof.
  revert sp. induction tr as [|ev tr IH]; intros sp Hi Hrun.
  { injection Hrun as <-. split; [apply not_elem_of_nil|done]. }
  cbn in Hrun. destruct (spec_step sp ev) as [sp1|] eqn:Hstep; [|done]. cbn in Hrun.
  cut (sp_workers sp1 !! i = Some Failed /\ ev <> E_exit true).
  { intros [Hi1 Hev]. destruct (IH sp1 Hi1 Hrun) as [Hx Hi']. split; [|done]. rewrite not_elem_of_cons. auto. }
  assert (all_are Done (sp_workers sp) = false) as Hnd.
  { apply not_true_iff_false. intros Hall%all_are_Forall. by apply (Forall_lookup_1 _ _ _ _ Hall) in Hi. }
  unfold spec_step in Hstep. rewrite ?Hnd in Hstep. destruct ev as [|p|j p|j|j|b]; cbn in Hstep; try done.
  - repeat case_match; simplify_option_eq. split; [|done]. rewrite list_lookup_insert_ne; [done|]. by intros ->; simplify_eq.
  - apply bind_Some in Hstep as (st & Hst & Hstep). case_match eqn:Hop; simplify_eq. split; [|done]. cbn.
    rewrite list_lookup_insert_ne; [done|]. by intros ->; simplify_eq.
  - apply bind_Some in Hstep as (st & Hst & Hstep). case_match eqn:Hop; simplify_eq. split; [|done]. cbn.
    rewrite list_lookup_insert_ne; [done|]. by intros ->; simplify_eq.
  - destruct b; cbn in Hstep; [|by simplify_eq]. exfalso. case_match eqn:Hf; [done|]. apply not_true_iff_false in Hf.
    apply Hf. apply existsb_exists. exists Failed. split; [|done]. apply list_elem_of_In. by eapply list_elem_of_lookup_2.
Qed.

Lemma spec_run_error sp tr sp' i :
  spec_run sp tr = Some sp' -> E_error i ∈ tr -> sp_workers sp' !! i = Some Failed.
Proof.
  revert sp. induction tr as [|ev tr IH]; intros sp Hrun Hin; [by apply elem_of_nil in Hin|].
  cbn in Hrun. destruct (spec_step sp ev) as [sp1|] eqn:Hstep; [|done]. cbn in Hrun.
  apply elem_of_cons in Hin as [<-|Hin]; [|by apply (IH sp1)]. cbn in Hstep.
  apply bind_Some in Hstep as (st & Hst & Hstep). case_match; simplify_eq.
  apply (spec_run_failed _ _ _ i) in Hrun as [_ ?]; [done|]. cbn. apply list_lookup_insert_eq. by eapply lookup_lt_Some.
Qed.

(** The plan of [runBenchmarks()] never contains the termination. *)
Lemma plan_phases_app l k : plan_phases (l ++ k) = plan_phases l ++ plan_phases k.
Proof. apply omap_app. Qed.

Lemma enabled_no_terminate c : Forall (fun p => p <> BenchPhase_TERMINATE) (enabledBenchPhasesVec c).
Proof.
  apply Forall_fmap, Forall_forall. intros x [_ Hx]%list_elem_of_filter. revert x Hx. apply Forall_forall.
  unfold allBenchPhasesArray. repeat constructor; done.
Qed.

Lemma sync_no_terminate c : Forall (fun p => p <> BenchPhase_TERMINATE) (plan_phases (runSyncAndDropCaches c)).
Proof. unfold runSyncAndDropCaches. destruct (runSyncPhase c), (runDropCachesPhase c); repeat constructor; done. Qed.

Lemma iteration_no_terminate c l :
  Forall (fun p => p <> BenchPhase_TERMINATE) l -> Forall (fun p => p <> BenchPhase_TERMINATE) (plan_phases (iteration_plan c l)).
Proof.
  induction 1 as [|p l Hp _ IH]; [constructor|]. cbn [iteration_plan].
  change (Run p :: ?k) with ([Run p] ++ k). rewrite !plan_phases_app. apply Forall_app_2; [by constructor|].
  apply Forall_app_2; [apply sync_no_terminate|]. apply Forall_app_2; [|done].
  destruct l; [constructor|]. destruct (doRotateHosts c); constructor.
Qed.

Lemma plan_no_terminate c : Forall (fun p => p <> BenchPhase_TERMINATE) (plan_phases (runBenchmarks_plan c)).
Proof.
  unfold runBenchmarks_plan. induction (iterations c) as [|n IH]; [constructor|]. cbn [replicate mjoin list_join].
  rewrite !plan_phases_app. apply Forall_app_2; [|done]. apply Forall_app_2; [apply sync_no_terminate|].
  apply iteration_no_terminate, enabled_no_terminate.
Qed.

(** ** Theorems *)

(** C3: the threads implement the abstract monitor: whatever the interleaving of coordinator,
    workers and signals, with local or remote workers that succeed, fail or are interrupted, the
    sequence of events is one that the monitor accepts.  Phases start in the planned order; a phase
    starts only after every worker has completed the one before; each worker works on a phase at
    most once, on the phase that was started last, and is counted exactly once. *)
Theorem phases_refine_monitor cfg c tr s :
  reach cfg (runBenchmarks_plan c) tr s -> is_Some (spec_run (spec_start cfg (runBenchmarks_plan c)) tr).
Proof. intros (sp & -> & _)%reach_inv; [done|apply plan_no_terminate]. Qed.

(** C24: the barrier between phases: when the coordinator prints results or is about to start a
    phase, the done counter is the number of workers, the error counter is zero, no worker is
    inside a phase, every worker waits for the next bench ID unless it was interrupted, and the
    stonewall statistics exist (unless this is a service). *)
Theorem phase_barrier cfg c tr s plan :
  reach cfg (runBenchmarks_plan c) tr s ->
  s_coord s = C_after plan \/ s_coord s = C_ready plan \/ (exists p, s_coord s = C_start p plan) ->
  numWorkersDone (s_shared s) = length (s_workers s) /\ numWorkersDoneWithError (s_shared s) = 0
  /\ Forall (fun w => w_pc w = W_wait (currentBenchID (s_shared s)) \/ w_pc w = W_sleep (currentBenchID (s_shared s))
                      \/ isInterruptionRequested w = true /\ (w_pc w = W_catchInt \/ w_pc w = W_returned)) (s_workers s)
  /\ (cfg_runAsService cfg = false -> Forall (fun w => stoneWallTriggered w = true) (s_workers s)).
Proof.
  intros (sp & _ & Hinv)%reach_inv Hco; [|apply plan_no_terminate]. pose proof (inv_coord _ _ _ Hinv) as Hc.
  assert (all_done sp /\ currentBenchPhase (s_shared s) <> BenchPhase_TERMINATE) as [Hd Ht].
  { unfold coord_ok in Hc. destruct Hco as [Hco|[Hco|[p Hco]]]; rewrite Hco in Hc; tauto. }
  destruct Hinv as [_ Hrel _ Hnd Hne _ _ (b & Hb & Hst)]. pose proof (Forall2_length _ _ _ Hrel) as Hl.
  rewrite (proj2 (count_status_all Done _) Hd) in Hnd. rewrite <- Hl in Hnd. split; [done|]. split.
  { rewrite Hne. apply count_status_none. eapply Forall_impl; [exact Hd|]. by intros ? ->. }
  split.
  - pose proof (rel_done_Forall _ _ _ Hrel Hd) as Hall. eapply Forall_impl; [exact Hall|]. intros [k [] pf int sw gw] Hw;
      cbn in *; intuition (subst; try done; auto 6).
  - intros Hsvc. destruct (s_workers s) as [|w ws] eqn:Hws; [constructor|]. rewrite (Hst Hsvc ltac:(done) Hnd) in Hb. exact Hb.
Qed.

(** C4: nobody waits forever for a lost wake-up: in every reachable state before the exit, some
    worker that is not asleep can go on, or the coordinator can leave its current place. *)
Theorem phases_no_deadlock cfg c tr s :
  reach cfg (runBenchmarks_plan c) tr s -> (forall r, s_coord s <> C_exit r) ->
  (exists i a ev s', a <> A_spurious /\ (sys_worker_step cfg i a s = Some (ev, s')))
  \/ (exists a ev s', coord_step cfg a s = Some (ev, s') /\ s_coord s' <> s_coord s).
Proof.
  intros (sp & _ & Hinv)%reach_inv Hexit; [|apply plan_no_terminate]. pose proof (inv_coord _ _ _ Hinv) as Hc.
  destruct (find_unfinished (s_workers s)) as [(i & w & Hi & Hs & Hr)|Hidle].
  { left. exists i. by apply (worker_can_step cfg s i w). }
  right. pose proof (inv_rel _ _ _ Hinv) as Hrel. unfold coord_ok in Hc. unfold coord_step.
  assert ((S (currentBenchID (s_shared s)) =? currentBenchID (s_shared s)) = false) as Hfresh by (apply Nat.eqb_neq; lia).
  assert (currentBenchPhase (s_shared s) <> BenchPhase_TERMINATE -> forall next,
    s_coord s <> next -> s_coord s <> C_join true -> forall l,
    s_coord (poll_workers l false next s) <> s_coord s) as Hpoll.
  { intros Ht next Hn Hj l. unfold poll_workers, checkWorkersDoneUnlocked.
    destruct (Nat.eqb_spec (numWorkersDoneWithError (s_shared s)) 0); cbn; [|done].
    rewrite (inv_numDone _ _ _ Hinv), (inv_numErr _ _ _ Hinv), (idle_workers_counted _ _ _ Ht Hrel Hidle), Nat.eqb_refl. done. }
  destruct (s_coord s) as [plan|plan|p plan|cur plan|plan|plan|r|r] eqn:Hco.
  - exists (CA_poll false), None, (poll_workers false false (C_ready plan) s). split; [done|]. apply Hpoll; [tauto|done..].
  - destruct plan as [|[p|] plan].
    + exists (CA_new (S (currentBenchID (s_shared s)))). rewrite Hfresh. eexists _, _. by split.
    + exists CA_step. eexists _, _. split; [done|]. unfold checkInterruptionBetweenPhases. by repeat case_match.
    + exists CA_step. eexists _, _. by split.
  - exists (CA_new (S (currentBenchID (s_shared s)))). rewrite Hfresh. eexists _, _. by split.
  - exists (CA_poll false). eexists _, _. split; [done|]. apply Hpoll; [tauto|done..].
  - exists CA_step. eexists _, _. split; [done|]. unfold checkInterruptionBetweenPhases. by repeat case_match.
  - destruct Hc as (_ & _ & Hint & _). exists CA_step. rewrite (stopped_workers_awake _ _ _ (or_intror Hint) Hrel Hidle).
    eexists _, _. by split.
  - destruct Hc as [Hstop _]. exists CA_step. rewrite (stopped_workers_awake _ _ _ Hstop Hrel Hidle). eexists _, _. by split.
  - by destruct (Hexit r).
Qed.

(** C23: what the exit code of the program says: all worker threads have ended, and with
    [EXIT_SUCCESS] no worker failed in any phase and, unless the time limit of the user expired,
    exactly the planned phases were run in their order. *)
Theorem exit_code_meaning cfg c tr s retVal :
  reach cfg (runBenchmarks_plan c) tr s -> s_coord s = C_exit retVal ->
  Forall (fun w => w_pc w = W_returned) (s_workers s)
  /\ (retVal = true ->
        (forall i, E_error i ∉ tr)
        /\ (isPhaseTimeExpired s = false -> benchmark_phases (started tr) = plan_phases (runBenchmarks_plan c))).
Proof.
  intros (sp & Hrun & Hinv)%reach_inv Hco; [|apply plan_no_terminate]. pose proof (inv_coord _ _ _ Hinv) as Hc.
  unfold coord_ok in Hc. rewrite Hco in Hc. destruct Hc as [Hret Hr]. split; [done|]. intros Hrt.
  destruct (Hr Hrt) as [Herr Hexp]. split.
  - intros i Hi. pose proof (spec_run_error _ _ _ i Hrun Hi) as Hf. rewrite (inv_numErr _ _ _ Hinv) in Herr.
    apply count_status_none in Herr. by apply (Forall_lookup_1 _ _ _ _ Herr) in Hf.
  - intros Hne. destruct Hexp as [?|Htodo]; [congruence|]. pose proof (spec_run_started _ _ _ (plan_no_terminate c : Forall _ (sp_todo (spec_start cfg _))) Hrun) as Hst.
    rewrite Htodo, app_nil_r in Hst. exact Hst.
Qed.

(** ** A concrete run: two local workers that write *)

Definition write_choice : PhaseChoice :=
  mkChoice false false false false false true false false false false false false false false false false false false false
    false false false false 1 false.

Definition ex_config : config := mkConfig [LocalWorker; LocalWorker] false false.

(** Executes a given schedule. *)
Fixpoint run_schedule (cfg : config) (sched : list (nat * worker_action + coord_action)) (s : process)
    : option (list event * process) :=
  match sched with
  | [] => Some ([], s)
  | a :: sched =>
      '(ev, s) ← match a with inl (i, a) => sys_worker_step cfg i a s | inr a => coord_step cfg a s end;
      '(tr, s) ← run_schedule cfg sched s;
      Some (option_list ev ++ tr, s)
  end.

Lemma run_schedule_reach cfg plan tr sched s tr' s' :
  reach cfg plan tr s -> run_schedule cfg sched s = Some (tr', s') -> reach cfg plan (tr ++ tr') s'.
Proof.
  revert tr s tr'. induction sched as [|a sched IH]; intros tr s tr' Hr Hs.
  { injection Hs as <- <-. by rewrite app_nil_r. }
  cbn in Hs. apply bind_Some in Hs as ([ev s1] & Hstep & Hs). apply bind_Some in Hs as ([tr1 s2] & Hrun & Hs). simplify_eq.
  rewrite app_assoc. eapply (IH _ s1); [|done]. econstructor; [done|]. destruct a as [[i a]|a]; by econstructor.
Qed.

(** The two workers prepare, write, are done, and terminate. *)
Definition ex_schedule_written : list (nat * worker_action + coord_action) :=
  [inl (0, A_ok true); inl (1, A_ok true); inl (1, A_step); inl (1, A_step); inl (0, A_step); inr (CA_poll false);
   inr CA_step; inr (CA_new 7); inl (1, A_step); inl (0, A_step); inl (1, A_step); inl (1, A_ok true); inl (1, A_step);
   inl (0, A_step); inl (0, A_ok true); inl (0, A_step); inr (CA_poll false)].

Definition ex_schedule_exit : list (nat * worker_action + coord_action) :=
  ex_schedule_written
  ++ [inr CA_step; inr (CA_new 9); inl (0, A_step); inl (0, A_step); inl (0, A_ok true); inl (0, A_step);
      inl (1, A_step); inl (1, A_step); inl (1, A_ok true); inl (1, A_step); inr CA_step].

Definition ex_run (sched : list (nat * worker_action + coord_action)) : option (list event * process) :=
  run_schedule ex_config sched (main_start ex_config (runBenchmarks_plan write_choice)).

Lemma ex_run_reach sched tr s : ex_run sched = Some (tr, s) -> reach ex_config (runBenchmarks_plan write_choice) tr s.
Proof. intros H. eapply (run_schedule_reach _ _ []); [constructor|exact H]. Qed.

Definition ex_trace : list event :=
  [E_done 1; E_done 0; E_start BenchPhase_CREATEFILES; E_begin 1 BenchPhase_CREATEFILES; E_done 1;
   E_begin 0 BenchPhase_CREATEFILES; E_done 0].

Lemma phases_refine_monitor_witness :
  is_Some (spec_run (spec_start ex_config (runBenchmarks_plan write_choice)) ex_trace).
Proof.
  eapply (phases_refine_monitor ex_config write_choice). apply (ex_run_reach ex_schedule_written). vm_compute. reflexivity.
Defined.

Lemma phase_barrier_witness :
  exists tr s, ex_run ex_schedule_written = Some (tr, s) /\ s_coord s = C_after [] /\ numWorkersDone (s_shared s) = 2
    /\ Forall (fun w => stoneWallTriggered w = true) (s_workers s).
Proof.
  eexists _, _. split; [vm_compute; reflexivity|]. split; [reflexivity|].
  edestruct (phase_barrier ex_config write_choice) as (Hd & _ & _ & Hst).
  - apply (ex_run_reach ex_schedule_written). vm_compute. reflexivity.
  - left. reflexivity.
  - split; [exact Hd|exact (Hst eq_refl)].
Defined.

Lemma phases_no_deadlock_witness :
  exists tr s, ex_run ex_schedule_written = Some (tr, s)
    /\ ((exists i a ev s', a <> A_spurious /\ sys_worker_step ex_config i a s = Some (ev, s'))
        \/ (exists a ev s', coord_step ex_config a s = Some (ev, s') /\ s_coord s' <> s_coord s)).
Proof.
  eexists _, _. split; [vm_compute; reflexivity|]. eapply (phases_no_deadlock ex_config write_choice).
  - apply (ex_run_reach ex_schedule_written). vm_compute. reflexivity.
  - discriminate.
Defined.

Lemma exit_code_meaning_witness :
  exists tr s, ex_run ex_schedule_exit = Some (tr, s) /\ s_coord s = C_exit true
    /\ benchmark_phases (started tr) = [BenchPhase_CREATEFILES].
Proof.
  eexists _, _. split; [vm_compute; reflexivity|]. split; [reflexivity|].
  edestruct (exit_code_meaning ex_config write_choice) as (_ & H).
  - apply (ex_run_reach ex_schedule_exit). vm_compute. reflexivity.
  - reflexivity.
  - destruct (H eq_refl) as [_ Hp]. exact (Hp eq_refl).
Defined.
