(* ===== verification/BoolArgs.v ===== *)
(** Switches with a value on the command line (ProgArgs.cpp, [interceptBoolArgOverrides()]):
    "--read=0" removes the switch and remembers that a configuration file must not set it,
    "--read=1" becomes "--read".

    The result is a vector of pointers.  Those of the replaced arguments point into the characters
    of strings in a second vector, which grows in the same loop; the model keeps the storage of
    that vector, since growing moves the strings and with them the characters of short ones. *)

From stdpp Require Import gmap.
From S2P Require Import Prelude CppStrings.
From Stdlib Require String.

#[local] Open Scope list_scope.

(** ** Definitions *)

(** [find_nothrow()]: the long name of an option and whether it is a switch; the flag allows
    abbreviations. *)
Definition find_option : Type := string -> bool -> option (string * bool).

Definition disabling_values : list string := ["0"; "false"; "no"; "off"].
Definition enabling_values : list string := ["1"; "true"; "yes"; "on"].

(** The text before the first ['='], and the text behind it. *)
Fixpoint split_equals (s : string) : option (string * string) :=
  match s with
  | "" => None
  | String ch s =>
      if Ascii.eqb ch "=" then Some ("", s) else (fun '(before, behind) => (String ch before, behind)) <$> split_equals s
  end.

(** The option that an argument of the form [key=val] names. *)
Definition find_key (find : find_option) (before : string) : option (string * bool) :=
  if String.prefix "--" before then find (String.substring 2 (String.length before - 2) before) true
  else if (String.length before =? 2)%nat then find before false
  else None.

Inductive arg_action : Type := Keep | Disable (name : string) | Enable (name : string).

Definition classify (find : find_option) (arg : string) : arg_action :=
  match split_equals arg with
  | Some (before, val) =>
      if String.prefix "-" arg then
        match find_key find before with
        | Some (name, true) =>
            if bool_decide (val ∈ disabling_values) then Disable name
            else if bool_decide (val ∈ enabling_values) then Enable name
            else Keep
        | _ => Keep
        end
      else Keep
  | None => Keep
  end.

(** A pointer to the characters of an argument: of [argv[i]], or of element [i] of the vector of
    strings at a time when its storage had been allocated [gen] times. *)
Inductive arg_ptr : Type := ArgvPtr (i : nat) | StrPtr (gen i : nat).

(** The vector of strings, with its capacity and the number of its allocations. *)
Record StrVec : Type := mkStrVec { sv_strings : list string; sv_capacity : nat; sv_gen : nat }.

Record Intercept : Type := mkIntercept { ic_vec : StrVec; ic_argv : list arg_ptr; ic_disabled : gset string }.

Definition intercept_start : Intercept := mkIntercept (mkStrVec [] 0 0) [] ∅.

Section intercept.
(** [grow c]: the next capacity of a full vector with capacity [c]. *)
Context (grow : nat -> nat) (find : find_option).

(** [push_back()] *)
Definition push_string (str : string) (v : StrVec) : StrVec :=
  if (length (sv_strings v) =? sv_capacity v)%nat
  then mkStrVec (sv_strings v ++ [str]) (grow (sv_capacity v)) (S (sv_gen v))
  else mkStrVec (sv_strings v ++ [str]) (sv_capacity v) (sv_gen v).

(** [back().c_str()] *)
Definition back_c_str (v : StrVec) : arg_ptr := StrPtr (sv_gen v) (length (sv_strings v) - 1).

Definition intercept_arg (i : nat) (arg : string) (s : Intercept) : Intercept :=
  match classify find arg with
  | Disable name => mkIntercept (ic_vec s) (ic_argv s) ({[name]} ∪ ic_disabled s)
  | Enable name =>
      let vec := push_string ("--" +:+ name) (ic_vec s) in
      mkIntercept vec (ic_argv s ++ [back_c_str vec]) (ic_disabled s)
  | Keep => mkIntercept (ic_vec s) (ic_argv s ++ [ArgvPtr i]) (ic_disabled s)
  end.

Fixpoint intercept_args (i : nat) (argv : list string) (s : Intercept) : Intercept :=
  match argv with
  | [] => s
  | arg :: argv => intercept_args (S i) argv (intercept_arg i arg s)
  end.

Definition interceptBoolArgOverrides (argv : list string) : Intercept := intercept_args 0 argv intercept_start.
End intercept.

(** The longest string whose characters are stored in the string object itself. *)
Definition SSO_MAX : nat := 15.

(** The text behind a pointer after the loop.  The characters of a short string are gone when the
    storage of the vector has been allocated anew; those of a long one stay where they are. *)
Definition deref (argv : list string) (v : StrVec) (p : arg_ptr) : option string :=
  match p with
  | ArgvPtr i => argv !! i
  | StrPtr gen i =>
      str ← sv_strings v !! i;
      if (gen =? sv_gen v)%nat || (SSO_MAX <? String.length str)%nat then Some str else None
  end.

(** The arguments that the option parser is meant to see. *)
Definition effective_args (find : find_option) (argv : list string) : list string :=
  omap (fun arg => match classify find arg with Keep => Some arg | Enable name => Some ("--" +:+ name) | Disable _ => None end) argv.

Definition enabled_names (find : find_option) (argv : list string) : list string :=
  omap (fun arg => match classify find arg with Enable name => Some name | _ => None end) argv.
Definition disabled_names (find : find_option) (argv : list string) : list string :=
  omap (fun arg => match classify find arg with Disable name => Some name | _ => None end) argv.

(** [std::vector] of the GNU library doubles its capacity. *)
Definition gnu_grow (c : nat) : nat := if (c =? 0)%nat then 1 else 2 * c.

(** ** Lemmas *)

(** A pointer that shows [str] as long as the vector of strings is not allocated again. *)
Definition shows (argv : list string) (v : StrVec) (p : arg_ptr) (str : string) : Prop :=
  match p with
  | ArgvPtr i => argv !! i = Some str
  | StrPtr gen i => sv_strings v !! i = Some str /\ (length (sv_strings v) = 1%nat -> gen = sv_gen v)
  end.

Section theory.
Context (grow : nat -> nat) (find : find_option).

(** The state of the loop after the arguments [pre]. *)
Record intercept_inv (pre : list string) (s : Intercept) : Prop := {
  ii_strings : sv_strings (ic_vec s) = String.append "--" <$> enabled_names find pre;
  ii_argv : Forall2 (shows pre (ic_vec s)) (ic_argv s) (effective_args find pre);
  ii_disabled : ic_disabled s = list_to_set (disabled_names find pre);
}.

Lemma shows_more pre arg v p str : shows pre v p str -> shows (pre ++ [arg]) v p str.
Proof. destruct p; [|done]. cbn. apply lookup_app_l_Some. Qed.

(** Appending a string keeps what the pointers show; a second string ends the special case of one. *)
Lemma shows_push argv v p str x : shows argv v p str -> shows argv (push_string grow x v) p str.
Proof.
  destruct p as [i|gen i]; [done|]. cbn. intros [Hi _]. pose proof (lookup_lt_Some _ _ _ Hi) as Hlt.
  unfold push_string. destruct (_ =? _)%nat; cbn; rewrite length_app; cbn; (split; [by apply lookup_app_l_Some|lia]).
Qed.

Lemma shows_back argv v x : shows argv (push_string grow x v) (back_c_str (push_string grow x v)) x.
Proof.
  unfold back_c_str, push_string. destruct (_ =? _)%nat; cbn; rewrite length_app; cbn;
    (split; [|done]); replace (length (sv_strings v) + 1 - 1)%nat with (length (sv_strings v)) by lia; by apply list_lookup_middle.
Qed.

Lemma intercept_arg_inv pre arg s : intercept_inv pre s -> intercept_inv (pre ++ [arg]) (intercept_arg grow find (length pre) arg s).
Proof.
  intros [Hs Ha Hd]. unfold intercept_arg.
  assert (Forall2 (shows (pre ++ [arg]) (ic_vec s)) (ic_argv s) (effective_args find pre)) as Ha'.
  { eapply Forall2_impl; [exact Ha|]. intros p str. apply shows_more. }
  destruct (classify find arg) as [|name|name] eqn:Hc; constructor; unfold enabled_names, effective_args, disabled_names in *; cbn; rewrite ?omap_app; cbn; rewrite ?Hc, ?app_nil_r; try done.
  - apply Forall2_app; [done|]. constructor; [|done]. by apply list_lookup_middle.
  - rewrite list_to_set_app_L, Hd. cbn. by rewrite (right_id_L ∅ (∪)), (comm_L (∪)).
  - rewrite fmap_app, <- Hs. unfold push_string. by destruct (_ =? _)%nat.
  - apply Forall2_app; [|constructor; [apply shows_back|done]]. eapply Forall2_impl; [exact Ha'|]. intros p str. apply shows_push.
Qed.

Lemma intercept_args_inv argv pre s : intercept_inv pre s -> intercept_inv (pre ++ argv) (intercept_args grow find (length pre) argv s).
Proof.
  revert pre s. induction argv as [|arg argv IH]; intros pre s H; cbn; [by rewrite app_nil_r|].
  specialize (IH (pre ++ [arg]) (intercept_arg grow find (length pre) arg s) (intercept_arg_inv pre arg s H)).
  rewrite length_app in IH. cbn in IH. rewrite Nat.add_1_r in IH. by rewrite <- app_assoc in IH.
Qed.

Lemma intercept_spec argv : intercept_inv argv (interceptBoolArgOverrides grow find argv).
Proof. apply (intercept_args_inv argv [] intercept_start). by constructor. Qed.

(** Characters that stay where they are. *)
Lemma shows_deref argv v p str : shows argv v p str ->
  (length (sv_strings v) <= 1)%nat \/ Forall (fun x => SSO_MAX < String.length x)%nat (sv_strings v) -> deref argv v p = Some str.
Proof.
  destruct p as [i|gen i]; [done|]. unfold shows, deref. intros [Hi Hgen] Hv. rewrite Hi. cbn [mbind option_bind]. pose proof (lookup_lt_Some _ _ _ Hi).
  destruct Hv as [Hlen|Hall].
  - rewrite (proj2 (Nat.eqb_eq gen _)); [done|]. apply Hgen. lia.
  - rewrite (proj2 (Nat.ltb_lt _ _) (Forall_lookup_1 _ _ _ _ Hall Hi)), orb_true_r. done.
Qed.
End theory.

(** ** Theorems *)


(** ** The switches of a write and read benchmark *)

Definition demo_find : find_option := fun key approx =>
  if bool_decide (key ∈ ["read"; "-r"]) then Some ("read", true)
  else if bool_decide (key ∈ ["write"; "-w"]) then Some ("write", true)
  else if String.eqb key "threads" then Some ("threads", false)
  else None.


(** With two enabled switches the first pointer is left behind when the second string arrives. *)
Example two_enabled_switches_dangle :
  let argv := ["elbencho"; "--read=1"; "--write=1"] in
  let s := interceptBoolArgOverrides gnu_grow demo_find argv in
  deref argv (ic_vec s) <$> ic_argv s = [Some "elbencho"; None; Some "--write"]
  /\ effective_args demo_find argv = ["elbencho"; "--read"; "--write"].
Proof. by vm_compute. Qed.
