(* ===== verification/CheckArgs.v ===== *)
(** From the options of the command line to checked arguments (ProgArgs.cpp, the constructor behind the
    option parser): [initBenchMode()], [initImplicitValues()], [convertUnitStrings()] and
    [checkArgs()], which refuses combinations that the workers cannot handle and calls the parsers
    of the lists and the checks of the paths.

    [Options] holds what boost's parser stored, [Implicit] the values that [initImplicitValues()]
    changes, [Units] the converted numbers, and [CheckState] what [checkArgs()] changes.  Options that
    need a library or the system (environment, CUDA, NUMA) come from [HostEnv]. *)

From S2P Require Import Prelude Common Effects CppStrings UnitTk RandAlgo BlockSizeMix StringTk TranslatorTk PathStore ServiceArgs.
From S2P Require Import CustomTree ProgLists Journal JournalStore FileTk ProgArgs.
From Stdlib Require String.

#[local] Open Scope list_scope.
#[local] Open Scope Z_scope.

(** ** Definitions *)

Definition BENCHPATH_PREFIX_POSIX : string := "file://".
Definition BENCHPATH_PREFIX_S3 : string := "s3://".

(** Numbers with units, as given. *)
Record UnitStrings : Type := mkUnitStrings {
  us_blockSize : string;
  us_fileSize : string;
  us_fileOffset : string;
  us_numDirs : string;
  us_numFiles : string;
  us_randomAmount : string;
  us_fileShareSize : string;
  us_treeRoundUpSize : string;
  us_journalBlockSize : string;
  us_limitReadBps : string;
  us_limitWriteBps : string;
  us_netBenchRespSize : string;
  us_s3MpuSizeVariance : string;
  us_s3MpuSplitSize : string;
  us_sockRecvBufSize : string;
  us_sockSendBufSize : string;
  us_fadviseFlags : string;
  us_madviseFlags : string;
  us_flockType : string;
}.

(** Credentials and endpoints; [s3_override] are the endpoints that a service uses in any case. *)
Record S3Access : Type := mkS3Access {
  s3_accessKey : string;
  s3_accessSecret : string;
  s3_sessionToken : string;
  s3_region : string;
  s3_endpoints : string;
  s3_override : string;
}.

Record Options : Type := mkOptions {
  op_runAsService : bool;
  op_benchPaths : list string;           (** argsVariablesMap[ARG_BENCHPATHS_LONG], empty if not given *)
  (* is the option on the command line? *)
  op_givenRWMixPercent : bool;
  op_givenRWMixThreads : bool;
  op_givenGPUDirectStorage : bool;
  op_givenBlockVariance : bool;
  op_givenS3FastPut : bool;
  op_givenS3ChecksumAlgo2 : option string;
  (* modes *)
  op_useHDFS : bool;
  op_useNetBench : bool;
  op_spdkConfFile : string;
  op_spdkConfJSON : string;
  op_treeScanPath : string;
  op_treeFilePath : string;
  op_interruptServices : bool;
  op_quitServices : bool;
  op_noSharedServicePath : bool;
  op_rankOffset : Z;
  op_disablePathBracketsExpansion : bool;
  (* phases *)
  op_runCreateDirsPhase : bool;
  op_runDeleteDirsPhase : bool;
  op_runCreateFilesPhase : bool;
  op_runReadPhase : bool;
  op_runStatFilesPhase : bool;
  op_runDeleteFilesPhase : bool;
  op_runS3ListObjNum : Z;
  op_runS3Acl : bool;
  (* access pattern *)
  op_useRandomOffsets : bool;
  op_useRandomUnaligned : bool;
  op_useStridedAccess : bool;
  op_doReverseSeqOffsets : bool;
  op_doInfiniteIOLoop : bool;
  op_randOffsetAlgo : string;
  op_blockVarianceAlgo : string;
  (* engine *)
  op_numThreads : Z;
  op_iterations : Z;
  op_ioDepth : Z;
  op_useDirectIO : bool;
  op_noDirectIOCheck : bool;
  op_useMmap : bool;
  op_useCuFile : bool;
  op_useCuFileDriverOpen : bool;
  op_useGDSBufReg : bool;
  op_gpuIDsStr : string;
  op_numaZonesStr : string;
  op_cpuCoresStr : string;
  op_netDevsStr : string;
  op_doTruncate : bool;
  op_doTruncToSize : bool;
  op_doPreallocFile : bool;
  (* read/write mix and verification *)
  op_rwMixReadPercent : Z;
  op_rwMixThreadsReadPercent : Z;
  op_numRWMixReadThreads : Z;
  op_blockVariancePercent : Z;
  op_integrityCheckSalt : Z;
  op_doDirectVerify : bool;
  op_doReadInline : bool;
  op_journalDirStr : string;
  op_journalSyncEnabled : bool;
  (* S3 *)
  op_s3 : S3Access;
  op_s3ObjectPrefix : string;
  op_s3ChecksumAlgoStr : string;
  op_s3SignPolicy : Z;
  op_s3NoCompression : bool;
  op_s3NoMpuCompletion : bool;
  op_useS3MPUSharing : bool;
  op_useS3RandObjSelect : bool;
  op_useCustomTreeRoundRobin : bool;
  op_runS3MPUSharingCompletionPhase : bool;
  op_ignoreS3PartNum : bool;
  op_s3CredentialsFile : string;
  op_s3CredentialsList : string;
  (* hosts and output *)
  op_hosts : HostArgs;
  op_benchLabel : string;
  op_useBriefLiveStats : bool;
  op_useBriefLiveStatsNewLine : bool;
  op_units : UnitStrings;
}.

(** What the functions ask the system and the libraries; an operation on them is given by its outcome. *)
Record HostEnv : Type := mkHostEnv {
  he_getenv : string -> option string;
  he_treeScanDefault : string;            (** TREESCAN_OUTFILE_DEFAULT *)
  he_implicitTreeFile : string;           (** S3_IMPLICIT_TREEFILE_PATH, a file that can be written *)
  he_cwd : option string;
  he_readLines : string -> option (list string);
  he_numaAvailable : bool;
  he_allNumaZones : string;
  he_cpuAffinity : string;
  he_bindZones : string -> result unit;
  he_bindCores : list Z -> result unit;
  he_cudaSupport : bool;
  he_cudaDevices : option Z;
  he_cuFileSupport : bool;
  he_cuFileDriverOpens : bool;
  he_spdkSupport : bool;
  he_s3Support : bool;
  he_scanTree : bool -> string -> result unit;  (** scan of a bucket or directory into the tree file *)
  he_precreateMpuIDs : result (list string);
  he_writeMpuIDs : bool;                  (** can the file for the IDs be written? *)
  he_prepareSpdk : result unit;
  he_prepareS3Client : result unit;
  he_prepareCuFile : result unit;
  he_prepareMmap : result unit;
}.

(** *** [initBenchMode()]; before it the mode is undefined. *)

Definition initBenchMode (o : Options) : BenchMode :=
  let benchMode :=
    if checkForPrefix_vec (op_benchPaths o) BENCHPATH_PREFIX_POSIX then BenchMode_POSIX
    else if checkForPrefix_vec (op_benchPaths o) BENCHPATH_PREFIX_S3 || nonempty (s3_endpoints (op_s3 o)) then BenchMode_S3
    else if op_useHDFS o then BenchMode_HDFS
    else if op_useNetBench o then BenchMode_NETBENCH
    else if nonempty (op_spdkConfFile o) || nonempty (op_spdkConfJSON o) then BenchMode_SPDK
    else BenchMode_UNDEFINED in
  if bool_decide (benchMode = BenchMode_UNDEFINED) && negb (op_runAsService o) then BenchMode_POSIX else benchMode.

(** *** [initImplicitValues()] *)

(** The values that it changes.  The number of directories and files and the size of shared files are
    changed as text; [convertUnitStrings()] computes the numbers afterwards. *)
Record Implicit : Type := mkImplicit {
  im_useRWMixPercent : bool;
  im_useRWMixReadThreads : bool;
  im_numRWMixReadThreads : Z;
  im_useDirectIO : bool;
  im_useCuFile : bool;
  im_useGDSBufReg : bool;
  im_useBriefLiveStats : bool;
  im_s3 : S3Access;
  im_s3NoMpuCompletion : bool;
  im_useCustomTreeRoundRobin : bool;
  im_runS3MPUSharingCompletionPhase : bool;
  im_benchLabelNoCommas : string;
  im_runCreateFilesPhase : bool;
  im_blockVariancePercent : Z;
  im_useS3ObjectPrefixRand : bool;
  im_s3SignPolicy : Z;
  im_s3NoCompression : bool;
  im_s3ChecksumAlgoStr : string;
  im_treeFilePath : string;
  im_units : UnitStrings;
}.

(** The first of two environment variables that has a value. *)
Definition env_either (env : string -> option string) (first second : string) (old : string) : string :=
  let value name := match env name with Some v => if nonempty v then Some v else None | None => None end in
  match value first with Some v => v | None => default old (value second) end.

(** A variable counts here also when it is empty. *)
Definition env_if_empty (env : string -> option string) (name old : string) : string :=
  if nonempty old then old else default old (env name).

Definition implicit_s3 (env : string -> option string) (benchMode : BenchMode) (o : Options) : S3Access :=
  let a := op_s3 o in
  let isS3 := bool_decide (benchMode = BenchMode_S3) in
  let a :=
    if (isS3 || checkForPrefix (op_treeScanPath o) BENCHPATH_PREFIX_S3) && negb (op_runAsService o) then
      mkS3Access (env_if_empty env "AWS_ACCESS_KEY_ID" (s3_accessKey a)) (env_if_empty env "AWS_SECRET_ACCESS_KEY" (s3_accessSecret a))
        (env_if_empty env "AWS_SESSION_TOKEN" (s3_sessionToken a))
        (if nonempty (s3_region a) then s3_region a else env_either env "AWS_REGION" "AWS_DEFAULT_REGION" (s3_region a))
        (if nonempty (s3_endpoints a) then s3_endpoints a
         else env_either env "AWS_ENDPOINT_URL_S3" "AWS_ENDPOINT_URL" (s3_endpoints a))
        (s3_override a)
    else a in
  if isS3 && op_runAsService o
  then mkS3Access (s3_accessKey a) (s3_accessSecret a) (s3_sessionToken a) (s3_region a) (s3_endpoints a) (s3_endpoints a)
  else a.

(** [std::replace(.., ',', ' ')] *)
Fixpoint commas_to_spaces (s : string) : string :=
  match s with "" => "" | String ch s => String (if Ascii.eqb ch "," then " "%char else ch) (commas_to_spaces s) end.

(** The block variance: a network benchmark has none unless it is given, and verification has none. *)
Definition implicit_variance (o : Options) : Z :=
  let variance := if op_useNetBench o && negb (op_givenBlockVariance o) then 0 else op_blockVariancePercent o in
  let variance := if truthy (op_integrityCheckSalt o) && truthy variance then 0 else variance in
  if nonempty (op_journalDirStr o) && truthy variance then 0 else variance.

Definition implicit_units (o : Options) : UnitStrings :=
  let u := op_units o in
  mkUnitStrings (us_blockSize u) (us_fileSize u) (us_fileOffset u)
    (if op_useNetBench o then "0" else us_numDirs u) (if op_useNetBench o then "1" else us_numFiles u) (us_randomAmount u)
    (if op_useS3MPUSharing o then "1" else us_fileShareSize u) (us_treeRoundUpSize u) (us_journalBlockSize u) (us_limitReadBps u)
    (us_limitWriteBps u) (us_netBenchRespSize u) (us_s3MpuSizeVariance u) (us_s3MpuSplitSize u) (us_sockRecvBufSize u)
    (us_sockSendBufSize u) (us_fadviseFlags u) (us_madviseFlags u) (us_flockType u).

Definition initImplicitValues (e : HostEnv) (benchMode : BenchMode) (o : Options) : result Implicit :=
  if bool_decide (benchMode = BenchMode_UNDEFINED) && negb (op_runAsService o)
  then Throw (ProgException "Internal error: Cannot initialize implicit values without benchmark mode being set.")
  else
    let useDirectIO := op_useDirectIO o || op_givenGPUDirectStorage o in
    Ok (mkImplicit (op_givenRWMixPercent o) (op_givenRWMixThreads o) (Z.min (op_numRWMixReadThreads o) (op_numThreads o))
      (useDirectIO || op_journalSyncEnabled o) (op_useCuFile o || op_givenGPUDirectStorage o)
      (op_useGDSBufReg o || op_givenGPUDirectStorage o)
      (op_useBriefLiveStats o || op_useBriefLiveStatsNewLine o)
      (implicit_s3 (he_getenv e) benchMode o)
      (op_s3NoMpuCompletion o || op_useS3MPUSharing o) (op_useCustomTreeRoundRobin o || op_useS3MPUSharing o)
      (op_runS3MPUSharingCompletionPhase o || op_useS3MPUSharing o)
      (commas_to_spaces (op_benchLabel o))
      (op_runCreateFilesPhase o || op_useNetBench o) (implicit_variance o)
      (find_rand_marks (op_s3ObjectPrefix o))
      (if op_givenS3FastPut o then 2 else op_s3SignPolicy o) (op_s3NoCompression o || op_givenS3FastPut o)
      (default (op_s3ChecksumAlgoStr o) (op_givenS3ChecksumAlgo2 o))
      (if nonempty (op_treeScanPath o) && negb (nonempty (op_treeFilePath o)) then he_treeScanDefault e else op_treeFilePath o)
      (implicit_units o)).

(** *** [convertUnitStrings()] *)

Record Units : Type := mkUnits {
  un_blockSizeMix : BlockSizeMix;
  un_blockSize : Z;
  un_fileSize : Z;
  un_fileOffset : Z;
  un_numDirs : Z;
  un_numFiles : Z;
  un_randomAmount : Z;
  un_fileShareSize : Z;
  un_treeRoundUpSize : Z;
  un_journalBlockSize : Z;
  un_limitReadBps : Z;
  un_limitWriteBps : Z;
  un_netBenchRespSize : Z;
  un_s3MpuSizeVariance : Z;
  un_s3MpuSplitSize : Z;
  un_sockRecvBufSize : Z;
  un_sockSendBufSize : Z;
  un_fadviseFlags : Z;
  un_madviseFlags : Z;
  un_flockType : Z;
}.

Definition convertUnitStrings (u : UnitStrings) : result Units :=
  let bytes str := numHumanToBytesBinary str false in
  mix ← BlockSizeMix_parse (us_blockSize u);
  fileSize ← bytes (us_fileSize u);
  fileOffset ← bytes (us_fileOffset u);
  numDirs ← bytes (us_numDirs u);
  numFiles ← bytes (us_numFiles u);
  randomAmount ← bytes (us_randomAmount u);
  fileShareSize ← bytes (us_fileShareSize u);
  treeRoundUpSize ← bytes (us_treeRoundUpSize u);
  journalBlockSize ← bytes (us_journalBlockSize u);
  limitReadBps ← bytes (us_limitReadBps u);
  limitWriteBps ← bytes (us_limitWriteBps u);
  netBenchRespSize ← bytes (us_netBenchRespSize u);
  s3MpuSizeVariance ← bytes (us_s3MpuSizeVariance u);
  s3MpuSplitSize ← bytes (us_s3MpuSplitSize u);
  sockRecvBufSize ← bytes (us_sockRecvBufSize u);
  sockSendBufSize ← bytes (us_sockSendBufSize u);
  fadviseFlags ← fadviseArgsStrToFlags (us_fadviseFlags u);
  madviseFlags ← madviseArgsStrToFlags (us_madviseFlags u);
  flockType ← flockArgsStrToType (us_flockType u);
  Ok (mkUnits mix (maxSize mix) fileSize fileOffset numDirs numFiles randomAmount fileShareSize treeRoundUpSize journalBlockSize
        limitReadBps limitWriteBps netBenchRespSize s3MpuSizeVariance s3MpuSplitSize sockRecvBufSize sockSendBufSize fadviseFlags
        madviseFlags flockType).

(** *** The state of [checkArgs()] *)

Record CheckState (W : Type) : Type := mkCheck {
  ck_numThreads : Z;
  ck_numDataSetThreads : Z;
  ck_fileShareSize : Z;
  ck_useDirectIO : bool;
  ck_noDirectIOCheck : bool;
  ck_hosts : Hosts;
  ck_gpuIDs : list Z;
  ck_s3EndpointsVec : list string;
  ck_benchPathsVec : list string;
  ck_benchPathStr : string;
  ck_treeFilePath : string;
  ck_treeLines : option (list string);  (** the implicit tree file for S3 paths, if it was written *)
  ck_tree : CustomTree;  (** customTree *)
  ck_mpuIDs : list string;  (** s3MpuSharingUploadIDs *)
  ck_prep : PrepState W;  (** sizes and open paths *)
  ck_pathsOverride : list string;  (** on a service: its own paths and GPUs *)
  ck_gpuIDsOverride : string;
}.
#[global] Arguments mkCheck {W}.
#[global] Arguments ck_numThreads {W} _.
#[global] Arguments ck_numDataSetThreads {W} _.
#[global] Arguments ck_fileShareSize {W} _.
#[global] Arguments ck_useDirectIO {W} _.
#[global] Arguments ck_noDirectIOCheck {W} _.
#[global] Arguments ck_hosts {W} _.
#[global] Arguments ck_gpuIDs {W} _.
#[global] Arguments ck_s3EndpointsVec {W} _.
#[global] Arguments ck_benchPathsVec {W} _.
#[global] Arguments ck_benchPathStr {W} _.
#[global] Arguments ck_treeFilePath {W} _.
#[global] Arguments ck_treeLines {W} _.
#[global] Arguments ck_tree {W} _.
#[global] Arguments ck_mpuIDs {W} _.
#[global] Arguments ck_prep {W} _.
#[global] Arguments ck_pathsOverride {W} _.
#[global] Arguments ck_gpuIDsOverride {W} _.

Section setters.
Context {W : Type}.
Implicit Types (s : CheckState W).

Definition set_ck_numThreads (x : Z) s : CheckState W :=
  mkCheck x (ck_numDataSetThreads s) (ck_fileShareSize s) (ck_useDirectIO s) (ck_noDirectIOCheck s) (ck_hosts s)
    (ck_gpuIDs s) (ck_s3EndpointsVec s) (ck_benchPathsVec s) (ck_benchPathStr s) (ck_treeFilePath s) (ck_treeLines s)
    (ck_tree s) (ck_mpuIDs s) (ck_prep s) (ck_pathsOverride s) (ck_gpuIDsOverride s).
Definition set_ck_numDataSetThreads (x : Z) s : CheckState W :=
  mkCheck (ck_numThreads s) x (ck_fileShareSize s) (ck_useDirectIO s) (ck_noDirectIOCheck s) (ck_hosts s) (ck_gpuIDs s)
    (ck_s3EndpointsVec s) (ck_benchPathsVec s) (ck_benchPathStr s) (ck_treeFilePath s) (ck_treeLines s) (ck_tree s)
    (ck_mpuIDs s) (ck_prep s) (ck_pathsOverride s) (ck_gpuIDsOverride s).
Definition set_ck_fileShareSize (x : Z) s : CheckState W :=
  mkCheck (ck_numThreads s) (ck_numDataSetThreads s) x (ck_useDirectIO s) (ck_noDirectIOCheck s) (ck_hosts s) (ck_gpuIDs
    s) (ck_s3EndpointsVec s) (ck_benchPathsVec s) (ck_benchPathStr s) (ck_treeFilePath s) (ck_treeLines s) (ck_tree s)
    (ck_mpuIDs s) (ck_prep s) (ck_pathsOverride s) (ck_gpuIDsOverride s).
Definition set_ck_useDirectIO (x : bool) s : CheckState W :=
  mkCheck (ck_numThreads s) (ck_numDataSetThreads s) (ck_fileShareSize s) x (ck_noDirectIOCheck s) (ck_hosts s)
    (ck_gpuIDs s) (ck_s3EndpointsVec s) (ck_benchPathsVec s) (ck_benchPathStr s) (ck_treeFilePath s) (ck_treeLines s)
    (ck_tree s) (ck_mpuIDs s) (ck_prep s) (ck_pathsOverride s) (ck_gpuIDsOverride s).
Definition set_ck_noDirectIOCheck (x : bool) s : CheckState W :=
  mkCheck (ck_numThreads s) (ck_numDataSetThreads s) (ck_fileShareSize s) (ck_useDirectIO s) x (ck_hosts s) (ck_gpuIDs
    s) (ck_s3EndpointsVec s) (ck_benchPathsVec s) (ck_benchPathStr s) (ck_treeFilePath s) (ck_treeLines s) (ck_tree s)
    (ck_mpuIDs s) (ck_prep s) (ck_pathsOverride s) (ck_gpuIDsOverride s).
Definition set_ck_hosts (x : Hosts) s : CheckState W :=
  mkCheck (ck_numThreads s) (ck_numDataSetThreads s) (ck_fileShareSize s) (ck_useDirectIO s) (ck_noDirectIOCheck s) x
    (ck_gpuIDs s) (ck_s3EndpointsVec s) (ck_benchPathsVec s) (ck_benchPathStr s) (ck_treeFilePath s) (ck_treeLines s)
    (ck_tree s) (ck_mpuIDs s) (ck_prep s) (ck_pathsOverride s) (ck_gpuIDsOverride s).
Definition set_ck_gpuIDs (x : list Z) s : CheckState W :=
  mkCheck (ck_numThreads s) (ck_numDataSetThreads s) (ck_fileShareSize s) (ck_useDirectIO s) (ck_noDirectIOCheck s)
    (ck_hosts s) x (ck_s3EndpointsVec s) (ck_benchPathsVec s) (ck_benchPathStr s) (ck_treeFilePath s) (ck_treeLines s)
    (ck_tree s) (ck_mpuIDs s) (ck_prep s) (ck_pathsOverride s) (ck_gpuIDsOverride s).
Definition set_ck_s3EndpointsVec (x : list string) s : CheckState W :=
  mkCheck (ck_numThreads s) (ck_numDataSetThreads s) (ck_fileShareSize s) (ck_useDirectIO s) (ck_noDirectIOCheck s)
    (ck_hosts s) (ck_gpuIDs s) x (ck_benchPathsVec s) (ck_benchPathStr s) (ck_treeFilePath s) (ck_treeLines s) (ck_tree
    s) (ck_mpuIDs s) (ck_prep s) (ck_pathsOverride s) (ck_gpuIDsOverride s).
Definition set_ck_benchPathsVec (x : list string) s : CheckState W :=
  mkCheck (ck_numThreads s) (ck_numDataSetThreads s) (ck_fileShareSize s) (ck_useDirectIO s) (ck_noDirectIOCheck s)
    (ck_hosts s) (ck_gpuIDs s) (ck_s3EndpointsVec s) x (ck_benchPathStr s) (ck_treeFilePath s) (ck_treeLines s) (ck_tree
    s) (ck_mpuIDs s) (ck_prep s) (ck_pathsOverride s) (ck_gpuIDsOverride s).
Definition set_ck_benchPathStr (x : string) s : CheckState W :=
  mkCheck (ck_numThreads s) (ck_numDataSetThreads s) (ck_fileShareSize s) (ck_useDirectIO s) (ck_noDirectIOCheck s)
    (ck_hosts s) (ck_gpuIDs s) (ck_s3EndpointsVec s) (ck_benchPathsVec s) x (ck_treeFilePath s) (ck_treeLines s)
    (ck_tree s) (ck_mpuIDs s) (ck_prep s) (ck_pathsOverride s) (ck_gpuIDsOverride s).
Definition set_ck_treeFilePath (x : string) s : CheckState W :=
  mkCheck (ck_numThreads s) (ck_numDataSetThreads s) (ck_fileShareSize s) (ck_useDirectIO s) (ck_noDirectIOCheck s)
    (ck_hosts s) (ck_gpuIDs s) (ck_s3EndpointsVec s) (ck_benchPathsVec s) (ck_benchPathStr s) x (ck_treeLines s)
    (ck_tree s) (ck_mpuIDs s) (ck_prep s) (ck_pathsOverride s) (ck_gpuIDsOverride s).
Definition set_ck_treeLines (x : option (list string)) s : CheckState W :=
  mkCheck (ck_numThreads s) (ck_numDataSetThreads s) (ck_fileShareSize s) (ck_useDirectIO s) (ck_noDirectIOCheck s)
    (ck_hosts s) (ck_gpuIDs s) (ck_s3EndpointsVec s) (ck_benchPathsVec s) (ck_benchPathStr s) (ck_treeFilePath s) x
    (ck_tree s) (ck_mpuIDs s) (ck_prep s) (ck_pathsOverride s) (ck_gpuIDsOverride s).
Definition set_ck_tree (x : CustomTree) s : CheckState W :=
  mkCheck (ck_numThreads s) (ck_numDataSetThreads s) (ck_fileShareSize s) (ck_useDirectIO s) (ck_noDirectIOCheck s)
    (ck_hosts s) (ck_gpuIDs s) (ck_s3EndpointsVec s) (ck_benchPathsVec s) (ck_benchPathStr s) (ck_treeFilePath s)
    (ck_treeLines s) x (ck_mpuIDs s) (ck_prep s) (ck_pathsOverride s) (ck_gpuIDsOverride s).
Definition set_ck_mpuIDs (x : list string) s : CheckState W :=
  mkCheck (ck_numThreads s) (ck_numDataSetThreads s) (ck_fileShareSize s) (ck_useDirectIO s) (ck_noDirectIOCheck s)
    (ck_hosts s) (ck_gpuIDs s) (ck_s3EndpointsVec s) (ck_benchPathsVec s) (ck_benchPathStr s) (ck_treeFilePath s)
    (ck_treeLines s) (ck_tree s) x (ck_prep s) (ck_pathsOverride s) (ck_gpuIDsOverride s).
Definition set_ck_prep (x : PrepState W) s : CheckState W :=
  mkCheck (ck_numThreads s) (ck_numDataSetThreads s) (ck_fileShareSize s) (ck_useDirectIO s) (ck_noDirectIOCheck s)
    (ck_hosts s) (ck_gpuIDs s) (ck_s3EndpointsVec s) (ck_benchPathsVec s) (ck_benchPathStr s) (ck_treeFilePath s)
    (ck_treeLines s) (ck_tree s) (ck_mpuIDs s) x (ck_pathsOverride s) (ck_gpuIDsOverride s).
Definition set_ck_pathsOverride (x : list string) s : CheckState W :=
  mkCheck (ck_numThreads s) (ck_numDataSetThreads s) (ck_fileShareSize s) (ck_useDirectIO s) (ck_noDirectIOCheck s)
    (ck_hosts s) (ck_gpuIDs s) (ck_s3EndpointsVec s) (ck_benchPathsVec s) (ck_benchPathStr s) (ck_treeFilePath s)
    (ck_treeLines s) (ck_tree s) (ck_mpuIDs s) (ck_prep s) x (ck_gpuIDsOverride s).
Definition set_ck_gpuIDsOverride (x : string) s : CheckState W :=
  mkCheck (ck_numThreads s) (ck_numDataSetThreads s) (ck_fileShareSize s) (ck_useDirectIO s) (ck_noDirectIOCheck s)
    (ck_hosts s) (ck_gpuIDs s) (ck_s3EndpointsVec s) (ck_benchPathsVec s) (ck_benchPathStr s) (ck_treeFilePath s)
    (ck_treeLines s) (ck_tree s) (ck_mpuIDs s) (ck_prep s) (ck_pathsOverride s) x.
End setters.

(** *** Lists of numbers: NUMA zones, CPU cores and GPUs *)

Definition ZONELIST_DELIMITERS : string := String "," (String " " "").

(** The elements between the delimiters, as text and as numbers. *)
Definition parse_ids (fuel : nat) (str delimiters msg : string) : option (result (list string * list Z)) :=
  strs ⇐ parse_list fuel str delimiters;
  match strs with
  | [] => Some (Throw (ProgException msg))
  | _ => ids ⇐ Some (mapM stoi strs); Some (Ok (strs, ids))
  end.

(** [numaZonesStr += (i ? "," : "") + zonesStrVec[i]] *)
Definition join_commas (l : list string) : string :=
  match l with [] => "" | x :: l => foldl (fun acc y => acc +:+ "," +:+ y) x l end.

(** The new text and the numbers. *)
Definition parseNumaZones (e : HostEnv) (fuel : nat) (numaZonesStr : string) : option (result (string * list Z)) :=
  if String.eqb numaZonesStr "" then Some (Ok (numaZonesStr, []))
  else if negb (he_numaAvailable e) then Some (Throw (ProgException "No NUMA zone info available."))
  else
    let numaZonesStr := if String.eqb numaZonesStr "all" then he_allNumaZones e else numaZonesStr in
    ids ⇐ parse_ids fuel numaZonesStr ZONELIST_DELIMITERS "NUMA zones defined, but parsing resulted in an empty list: ";
    let numaZonesStr := join_commas ids.1 in
    _ ⇐ Some (he_bindZones e numaZonesStr);
    Some (Ok (numaZonesStr, ids.2)).

Definition parseCPUCores (e : HostEnv) (fuel : nat) (cpuCoresStr : string) : option (result (string * list Z)) :=
  if String.eqb cpuCoresStr "" then Some (Ok (cpuCoresStr, []))
  else
    let cpuCoresStr := if String.eqb cpuCoresStr "all" then he_cpuAffinity e else cpuCoresStr in
    ids ⇐ parse_ids fuel cpuCoresStr ZONELIST_DELIMITERS "CPU cores defined, but parsing resulted in an empty list: ";
    _ ⇐ Some (he_bindCores e ids.2);
    Some (Ok (join_commas ids.1, ids.2)).

Definition parseGPUIDs (e : HostEnv) (fuel : nat) (useCuFile useCuFileDriverOpen : bool) (gpuIDsStr : string) : option (result (list Z)) :=
  if useCuFile && String.eqb gpuIDsStr "" then Some (Throw (ProgException "cuFile API requested, but no GPU specified."))
  else if String.eqb gpuIDsStr "" then Some (Ok [])
  else if negb (he_cudaSupport e) then Some (Throw (ProgException "GPU IDs defined, but built without CUDA support."))
  else
    gpuIDsStr ⇐ (if String.eqb gpuIDsStr "all" then
                   match he_cudaDevices e with
                   | Some n => Some (Ok (join_commas (to_string <$> seqZ 0 n)))
                   | None => Some (Throw (ProgException "Getting CUDA device count failed. "))
                   end
                 else Some (Ok gpuIDsStr));
    ids ⇐ parse_ids fuel gpuIDsStr LIST_DELIMITERS "GPU IDs defined, but parsing resulted in an empty list: ";
    if useCuFile && negb (he_cuFileSupport e)
    then Some (Throw (ProgException "cuFile API requested, but this executable was not built with cuFile support."))
    else if useCuFile && useCuFileDriverOpen && negb (he_cuFileDriverOpens e)
    then Some (Throw (ProgException "cuFileDriverOpen failed. cuFile Error: "))
    else Some (Ok ids.2).

Definition parseRandAlgos (blockVarianceAlgo randOffsetAlgo : string) : result unit :=
  match RandAlgoSelector_stringToEnum blockVarianceAlgo with
  | RandAlgo_INVALID => Throw (ProgException "Invalid random generator selection for block variance: ")
  | _ =>
      if String.eqb randOffsetAlgo "" then Ok tt
      else
        match RandAlgoSelector_stringToEnum randOffsetAlgo with
        | RandAlgo_INVALID => Throw (ProgException "Invalid random generator selection for random offsets: ")
        | _ => Ok tt
        end
  end.

(** *** [checkArgs()] *)

Definition FILESHAREBLOCKFACTOR : Z := 32.
Definition ARG_FLOCK_FULL : Z := 2.

(** A call that may not come back. *)
Definition eff_call {S A} (m : option (result A)) : eff S A := r ← eff_some m; eff_result r.

Section checkArgs.
Context {W : Type} (os : Os W) (po : PathOs W) (e : HostEnv) (fuel : nat).
Context (journal_init : JournalArgs -> JournalStore -> option (result JournalStore)).
Context (o : Options) (benchMode : BenchMode) (im : Implicit) (u : Units).
#[local] Abbreviation act := (eff (CheckState W)).

Definition isS3 : bool := bool_decide (benchMode = BenchMode_S3).
Definition num_hosts (s : CheckState W) : Z := Z.of_nat (length (hs_hostsVec (ck_hosts s))).

(** What the functions on paths and sizes read. *)
Definition path_args (s : CheckState W) : PathArgs :=
  mkPathArgs benchMode (ck_benchPathsVec s) (ck_treeFilePath s) (op_runCreateDirsPhase o) (op_runDeleteDirsPhase o)
    (im_runCreateFilesPhase im) (op_runReadPhase o) (op_runStatFilesPhase o) (op_runDeleteFilesPhase o) (op_runS3ListObjNum o)
    (op_runS3Acl o) (ck_s3EndpointsVec s) (un_s3MpuSizeVariance u) (op_useS3RandObjSelect o) (op_doReverseSeqOffsets o)
    (op_useRandomOffsets o) (op_useStridedAccess o) (op_randOffsetAlgo o) (im_useRWMixPercent im) (im_useRWMixReadThreads im)
    (op_doInfiniteIOLoop o) (ck_useDirectIO s) (ck_noDirectIOCheck s) (op_doTruncate o) (op_doTruncToSize o) (op_doPreallocFile o)
    (un_numDirs u) (un_numFiles u) (ck_numDataSetThreads s) (op_journalDirStr o) (un_journalBlockSize u) (op_journalSyncEnabled o).

(** The other sizes only change while the paths are opened and checked. *)
Definition ck_sizes (s : CheckState W) : SizeArgs := pr_args (ck_prep s).

Definition zoom_prep {A} (m : eff (PrepState W) A) : act A := eff_zoom ck_prep set_ck_prep m.
Definition zoom_sizes (m : eff SizeArgs unit) : act unit :=
  zoom_prep (eff_zoom pr_args (fun t p => mkPrep t (pr_fds p) (pr_world p)) m).

(** A service takes most arguments from the master later on. *)
Definition check_service : act unit :=
  eff_modify (set_ck_numThreads 0);;
  eff_modify (set_ck_numDataSetThreads 0);;
  refuse (nonempty (ho_hosts (op_hosts o)).1) "Service mode and host list definition are mutually exclusive.";;
  refuse (nonempty (op_journalDirStr o)) "Journaled data verification is not supported in service mode.";;
  eff_modify (set_ck_benchPathsVec (op_benchPaths o));;
  eff_when (negb (bool_decide (op_benchPaths o = []))) (eff_modify (set_ck_pathsOverride (op_benchPaths o)));;
  eff_when (nonempty (op_gpuIDsStr o)) (eff_modify (set_ck_gpuIDsOverride (op_gpuIDsStr o))).

(** The flag for network benchmarks is the one of the other checks. *)
Definition host_args : HostArgs :=
  let h := op_hosts o in mkHostArgs (ho_numHosts h) (op_useNetBench o) (ho_servicePort h) (ho_hosts h) (ho_servers h) (ho_clients h).

Definition parse_hosts : act unit :=
  hosts ← eff_call (parseHosts fuel (he_readLines e) host_args);
  eff_modify (set_ck_hosts hosts).

Definition parse_lists : act unit :=
  gpuIDs ← eff_call (parseGPUIDs e fuel (im_useCuFile im) (op_useCuFileDriverOpen o) (op_gpuIDsStr o));
  eff_modify (set_ck_gpuIDs gpuIDs);;
  eff_result (parseRandAlgos (op_blockVarianceAlgo o) (op_randOffsetAlgo o));;
  refuse (isS3 && negb (he_s3Support e)) "S3 mode selected, but built without S3 support.";;
  endpoints ← eff_call (parseS3Endpoints fuel benchMode (checkForPrefix (op_treeScanPath o) BENCHPATH_PREFIX_S3) (op_runAsService o)
                (s3_override (im_s3 im)) (s3_endpoints (im_s3 im)));
  eff_modify (set_ck_s3EndpointsVec endpoints.2);;
  refuse (he_spdkSupport e && nonempty (op_spdkConfFile o) && negb (bool_decide (is_Some (he_readLines e (op_spdkConfFile o)))))
    "Failed to open SPDK config file: ".

(** [initBenchPathType()] *)
Definition initBenchPathType : act unit :=
  match benchMode with
  | BenchMode_S3 | BenchMode_HDFS | BenchMode_NETBENCH => zoom_sizes (eff_modify (set_benchPathType BenchPathType_DIR))
  | BenchMode_SPDK => zoom_sizes (eff_modify (set_benchPathType BenchPathType_BLOCKDEV))
  | _ => mret tt
  end.

(** The end of [parseAndCheckPaths()]: the type of the paths, and for files and directories their
    descriptors and sizes. *)
Definition open_paths : act unit :=
  initBenchPathType;;
  eff_result (he_prepareS3Client e);;
  eff_when (bool_decide (benchMode = BenchMode_POSIX))
    (c ← eff_get path_args;
     zoom_prep (prepareBenchPathFDsVec os po c);;
     eff_result (he_prepareCuFile e);;
     eff_result (he_prepareMmap e)).

(** [parseAndCheckPaths()] on the master or in a local run; the master of a distributed run does not
    open paths. *)
Definition parseAndCheckPaths : act unit :=
  haveTree ← eff_get (fun s => nonempty (ck_treeFilePath s));
  paths ← eff_call (master_paths fuel benchMode (he_cwd e) (op_disablePathBracketsExpansion o) haveTree (un_fileSize u) (op_benchPaths o));
  eff_modify (set_ck_benchPathsVec paths.1.1);;
  eff_modify (set_ck_benchPathStr paths.1.2);;
  eff_when (bool_decide (is_Some paths.2))
    (eff_modify (set_ck_treeLines paths.2);; eff_modify (set_ck_treeFilePath (he_implicitTreeFile e)));;
  eff_result (he_prepareSpdk e);;
  eff_result (check_paths_given paths.1.1 paths.1.2 (op_useNetBench o));;
  hostsStr ← eff_get (fun s => hs_hostsStr (ck_hosts s));
  eff_when (negb (nonempty hostsStr)) open_paths.

(** The size from which on files are shared. *)
Definition adjust_share_size : act unit :=
  s ← eff_get id;
  eff_when (ck_fileShareSize s =? 0) (eff_modify (set_ck_fileShareSize (FILESHAREBLOCKFACTOR *₆₄ sa_blockSize (ck_sizes s))));;
  s ← eff_get id;
  eff_when (op_doInfiniteIOLoop o && negb (ck_fileShareSize s =? TWO64 - 1) && (1 <? ck_numThreads s) && nonempty (ck_treeFilePath s)
            && isS3 && im_runCreateFilesPhase im)
    (eff_modify (set_ck_fileShareSize (TWO64 - 1))).

Definition check_counts : act unit :=
  s ← eff_get id;
  refuse (ck_numThreads s =? 0) "Number of threads may not be zero.";;
  refuse (op_iterations o =? 0) "Number of iterations may not be zero.";;
  eff_modify (set_ck_numDataSetThreads
    (if (0 <? num_hosts s) && negb (op_noSharedServicePath o) then ck_numThreads s *₆₄ num_hosts s else ck_numThreads s)).

(** The settings of the loaded tree; the last three flags are for the workers. *)
Definition tree_args (s : CheckState W) : TreeArgs :=
  mkTreeArgs benchMode (op_runAsService o) (op_runCreateDirsPhase o) (op_runDeleteDirsPhase o) (im_runCreateFilesPhase im)
    (op_runStatFilesPhase o) (op_runReadPhase o) (op_runDeleteFilesPhase o) (op_runS3Acl o) (sa_blockSize (ck_sizes s))
    (ck_fileShareSize s) (un_treeRoundUpSize u) (ck_numThreads s) (ck_numDataSetThreads s) (op_rankOffset o) (op_useS3MPUSharing o)
    (im_useCustomTreeRoundRobin im) false (ck_useDirectIO s) (ck_noDirectIOCheck s) (op_useRandomOffsets o).

(** [scanCustomTree()] *)
Definition scanCustomTree : act unit :=
  eff_when (nonempty (op_treeScanPath o))
    (refuse (op_runAsService o) "Tree scan cannot be used in service instance startup mode.";;
     if checkForPrefix (op_treeScanPath o) BENCHPATH_PREFIX_S3 then
       refuse (negb (he_s3Support e)) "S3 bucket scan requested, but this build does not include S3 support.";;
       eff_result (he_scanTree e true (checkAndErasePrefix (op_treeScanPath o) BENCHPATH_PREFIX_S3).2)
     else eff_result (he_scanTree e false (checkAndErasePrefix (op_treeScanPath o) BENCHPATH_PREFIX_POSIX).2)).

Definition load_tree : act unit :=
  s ← eff_get id;
  eff_when (nonempty (ck_treeFilePath s))
    (let file := if bool_decide (is_Some (ck_treeLines s)) then ck_treeLines s else he_readLines e (ck_treeFilePath s) in
     tree ← eff_call (loadCustomTreeFile (tree_args s) file (ck_tree s));
     eff_modify (set_ck_tree tree)).

Definition num_shared (s : CheckState W) : Z := numPaths (ct_filesShared (ck_tree s)).

(** [precreateS3MpuSharingUploadIDs()] *)
Definition precreateS3MpuSharingUploadIDs : act unit :=
  eff_when (op_useS3MPUSharing o)
    (s ← eff_get id;
     let fileSize := sa_fileSize (ck_sizes s) in
     let blockSize := sa_blockSize (ck_sizes s) in
     refuse (negb isS3) "S3 MPU sharing mode selected but benchmark mode is not S3.";;
     refuse (negb (im_runCreateFilesPhase im)) "S3 MPU sharing mode selected but write phase not selected.";;
     refuse (num_hosts s =? 0) "S3 MPU sharing mode selected but no service instances given.";;
     refuse (negb (nonempty (ck_treeFilePath s))) "S3 MPU sharing mode selected but no shared objects defined.";;
     refuse (fileSize <=? blockSize) "S3 MPU sharing mode selected but object size is not larger than part block size";;
     refuse (fileSize <? (blockSize *₆₄ num_hosts s) *₆₄ ck_numThreads s)
       "S3 MPU sharing mode selected but object size is less than one part for each thread. ";;
     refuse (truthy (numPaths (ct_filesNonShared (ck_tree s))))
       "Found non-shared objects in custom tree. This is not allowed in MPU sharing mode.";;
     refuse (num_shared s =? 0) "Missing shared objects in custom tree. This is not allowed in MPU sharing mode.";;
     refuse (negb (he_s3Support e)) "S3 MPU sharing mode selected, but built without S3 support.";;
     ids ← eff_result (he_precreateMpuIDs e);
     eff_modify (set_ck_mpuIDs ids);;
     refuse (bool_decide (ids = [])) "S3 MPU IDs list is empty after precreation step.";;
     refuse (negb (he_writeMpuIDs e)) "Opening output MPU IDs file failed: ").

Definition asynchronous : bool := 1 <? op_ioDepth o.

Definition check_cuFile : act unit :=
  refuse (im_useCuFile im && asynchronous) "cuFile API does not support IO depth > 1";;
  s ← eff_get id;
  eff_when (im_useCuFile im && negb (ck_useDirectIO s)) (eff_modify (set_ck_useDirectIO true)).

Definition check_netbench : act unit :=
  s ← eff_get id;
  let servers := hs_numNetBenchServers (ck_hosts s) in
  refuse (op_useNetBench o && (num_hosts s =? 0)) "Missing servers & clients definition for netbench mode.";;
  refuse (op_useNetBench o && (servers =? 0)) "At least one server needs to be defined for netbench mode.";;
  refuse (op_useNetBench o && (num_hosts s <=? servers)) "At least one client needs to be defined for netbench mode.";;
  refuse (op_useNetBench o && ((sa_blockSize (ck_sizes s) =? 0) || (un_netBenchRespSize u =? 0) || (sa_fileSize (ck_sizes s) =? 0)))
    "Blocksize, response size and file size must not be zero in netbench mode.";;
  refuse (op_useNetBench o && (op_runCreateDirsPhase o || op_runDeleteDirsPhase o || op_runStatFilesPhase o || op_runReadPhase o
          || op_runDeleteFilesPhase o)) "Netbench mode only run in write phase.".

(** Access patterns, and what they and a mix of block sizes exclude. *)
Definition check_patterns : act unit :=
  s ← eff_get id;
  let mix := isMix (sa_blockSizeMix (ck_sizes s)) in
  let writes := im_runCreateFilesPhase im in
  refuse (1 <? Z.b2z (op_useRandomOffsets o) + Z.b2z (op_useStridedAccess o) + Z.b2z (op_doReverseSeqOffsets o))
    "Random, strided and reverse sequence offsets cannot be used together.";;
  refuse (op_useStridedAccess o && mix) "Strided access mode cannot be combined with a block size mix.";;
  refuse (op_doReverseSeqOffsets o && mix) "Reverse sequential access cannot be combined with a block size mix.";;
  refuse (mix && op_useRandomOffsets o && isS3 && writes) "A block size mix cannot be combined with random offsets for S3 uploads, ";;
  refuse (mix && isS3 && writes && (op_useS3MPUSharing o || truthy (num_shared s)))
    "A block size mix cannot be combined with S3 shared multipart uploads ".

Definition check_hdfs : act unit :=
  s ← eff_get id;
  refuse ((op_useRandomOffsets o || op_useStridedAccess o || op_doReverseSeqOffsets o) && op_useHDFS o && im_runCreateFilesPhase im)
    "HDFS does not support non-sequential offsets for writes.";;
  refuse (nonempty (ck_treeFilePath s) && op_useHDFS o) "HDFS mode does not support custom tree files.";;
  refuse (nonempty (op_gpuIDsStr o) && op_useHDFS o) "HDFS mode does not support GPUs.";;
  refuse (truthy (op_rwMixReadPercent o) && op_useHDFS o) "HDFS does not support rwmix.";;
  refuse (asynchronous && op_useHDFS o) "HDFS does not support IO depth larger than 1.";;
  eff_when (negb (ck_noDirectIOCheck s) && op_useHDFS o) (eff_modify (set_ck_noDirectIOCheck true)).

Definition check_offset_modes : act unit :=
  s ← eff_get id;
  eff_when (truthy (sa_fileOffset (ck_sizes s)))
    (refuse (op_useNetBench o) "Netbench mode does not support an offset.";;
     refuse (op_useHDFS o && im_runCreateFilesPhase im) "HDFS does not support write offsets.";;
     refuse (isS3 && im_runCreateFilesPhase im) "S3 object upload does not support an offset.");;
  refuse (asynchronous && op_useMmap o) "Memory mapped IO (mmap) does not support IO depth larger than 1.";;
  refuse (nonempty (op_gpuIDsStr o) && op_useMmap o) "Memory mapped IO (mmap) cannot be used with GPUs.".

Definition check_s3 : act unit :=
  s ← eff_get id;
  let z := ck_sizes s in
  refuse (op_doInfiniteIOLoop o && (1 <? ck_numThreads s) && truthy (num_shared s) && isS3 && im_runCreateFilesPhase im)
    "S3 write/upload cannot be used with infinite loop for shared objects.";;
  eff_when (negb (op_ignoreS3PartNum o) && isS3 && truthy (sa_fileSize z) && truthy (sa_blockSize z) && im_runCreateFilesPhase im)
    (numParts ← eff_some (udiv (sa_fileSize z) (minSize (sa_blockSizeMix z)));
     refuse (10000 <? numParts) "The specified multi-part upload would exceed 10,000 parts per object. ");;
  refuse (im_useCuFile im && isS3) "cuFile API cannot be used with S3";;
  refuse (im_useRWMixPercent im && isS3) "Option rwmixpct cannot be used with S3. ";;
  refuse (im_useRWMixPercent im && im_useRWMixReadThreads im) "Option rwmixpct cannot be used together with rwmixthr";;
  refuse (truthy (op_rwMixThreadsReadPercent o) && (truthy (un_limitReadBps u) || truthy (un_limitWriteBps u)))
    "Option rwmixthrpct cannot be used together with limitread or limitwrite".

Definition check_verification : act unit :=
  s ← eff_get id;
  let verify := truthy (op_integrityCheckSalt o) in
  let writes := im_runCreateFilesPhase im in
  refuse (truthy (op_rwMixReadPercent o) && negb (bool_decide (ck_gpuIDs s = [])) && negb (im_useCuFile im))
    "Option rwmixpct cannot be used together with GPU memory copy";;
  refuse (verify && truthy (op_rwMixReadPercent o)) "Option rwmixpct cannot be used together with option verify";;
  refuse (verify && truthy (im_blockVariancePercent im) && writes) "Option verify requires blockvarpct 0";;
  refuse (verify && writes && op_useRandomOffsets o) "Integrity check writes are not supported in combination with random offsets.";;
  refuse (op_doDirectVerify o && (negb verify || negb writes)) "Direct verification requires verify and write";;
  refuse (op_doDirectVerify o && asynchronous) "Direct verification cannot be used together with iodepth";;
  refuse (nonempty (op_journalDirStr o) && verify) "Journaled data verification cannot be used together with verify.";;
  refuse (op_doReadInline o && asynchronous) "Inline read cannot be used together with iodepth";;
  refuse ((un_flockType u =? ARG_FLOCK_FULL) && asynchronous && writes) "Full file write locks cannot be used together with async IO".

Definition check_credentials : act unit :=
  refuse (nonempty (op_s3CredentialsFile o) && nonempty (op_s3CredentialsList o)) "Only one of s3credfile or s3credlist may be specified.";;
  refuse ((nonempty (op_s3CredentialsFile o) || nonempty (op_s3CredentialsList o))
          && (nonempty (s3_accessKey (im_s3 im)) || nonempty (s3_accessSecret (im_s3 im))))
    "Cannot specify both multi-credentials and single credential options.".

(** The custom tree of the run. *)
Definition prepare_tree : act unit :=
  adjust_share_size;;
  scanCustomTree;;
  load_tree;;
  precreateS3MpuSharingUploadIDs.

(** Options that exclude one another. *)
Definition check_exclusions : act unit :=
  check_patterns;;
  check_hdfs;;
  check_offset_modes;;
  check_s3;;
  check_verification.

(** What is checked of a run, before its sizes are. *)
Definition check_run : act unit :=
  check_counts;;
  prepare_tree;;
  check_cuFile;;
  check_netbench;;
  check_exclusions.

Definition checkArgs : act unit :=
  eff_call (parseNumaZones e fuel (op_numaZonesStr o));;
  eff_call (parseCPUCores e fuel (op_cpuCoresStr o));;
  eff_call (parseNetDevs fuel (op_netDevsStr o));;
  if op_runAsService o then check_service
  else
    parse_hosts;;
    parse_lists;;
    s ← eff_get id;
    refuse (nonempty (op_journalDirStr o) && (0 <? num_hosts s)) "Journaled data verification is not supported in distributed mode.";;
    refuse ((op_interruptServices o || op_quitServices o) && (num_hosts s =? 0)) "Service interruption/termination requires a host list.";;
    if op_interruptServices o || op_quitServices o then mret tt
    else
      parseAndCheckPaths;;
      check_run;;
      if 0 <? num_hosts s then mret tt
      else
        c ← eff_get path_args;
        zoom_sizes (checkPathDependentArgs c journal_init);;
        check_credentials.
End checkArgs.

(** *** The constructor behind the option parser *)

(** The state before [checkArgs()]. *)
Definition check_start {W} (o : Options) (im : Implicit) (u : Units) (w : W) : CheckState W :=
  mkCheck (op_numThreads o) (op_numThreads o) (un_fileShareSize u) (im_useDirectIO im) (op_noDirectIOCheck o) (mkHosts [] 0 "" "") []
    [] [] "" (im_treeFilePath im) None CustomTree_empty []
    (mkPrep (mkSizeArgs BenchPathType_DIR (un_fileOffset u) (un_fileSize u) (un_blockSize u) (un_blockSizeMix u) (un_randomAmount u)
       (op_useRandomUnaligned o) false JournalStore_new) [] w)
    [] "".

(** The arguments of a run: what the constructor leaves behind. *)
Record ParsedArgs (W : Type) : Type := mkParsed {
  pg_mode : BenchMode;
  pg_implicit : Implicit;
  pg_units : Units;
  pg_state : CheckState W;
}.
#[global] Arguments mkParsed {W}.
#[global] Arguments pg_mode {W} _.
#[global] Arguments pg_implicit {W} _.
#[global] Arguments pg_units {W} _.
#[global] Arguments pg_state {W} _.

(** [checkCSVFileCompatibility()] comes before [checkArgs()]; it only looks at an existing result file. *)
Definition ProgArgs_init {W} (os : Os W) (po : PathOs W) (e : HostEnv) (fuel : nat)
    (journal_init : JournalArgs -> JournalStore -> option (result JournalStore)) (o : Options) (w : W) : option (result (ParsedArgs W)) :=
  let benchMode := initBenchMode o in
  im ⇐ Some (initImplicitValues e benchMode o);
  u ⇐ Some (convertUnitStrings (im_units im));
  match checkArgs os po e fuel journal_init o benchMode im u (check_start o im u w) with
  | Some (Ok _, s) => Some (Ok (mkParsed benchMode im u s))
  | Some (Throw ex, _) => Some (Throw ex)
  | None => None
  end.
