(* ===== verification/CheckArgsTheory.v ===== *)
(** What the constructor of the arguments accepts (theorems about CheckArgs): a local run on files,
    block devices or directories reaches the checks of the paths with arguments that these can
    handle, so that accepted arguments are well-formed; and an accepted network benchmark has
    servers and clients that fit together. *)

From S2P Require Import Prelude Common Effects CppStrings UnitTk RandAlgo BlockSizeMix StringTk TranslatorTk PathStore ServiceArgs.
From S2P Require Import OffsetGen AnyGen CustomTree NetBench ProgLists Journal JournalStore FileTk ProgArgs ProgArgsTheory CheckArgs FileIter FileIterSafety PosixFs.
From Stdlib Require String.

#[local] Open Scope list_scope.
#[local] Open Scope Z_scope.

(** ** Units *)

(** What [convertUnitStrings()] gives. *)
Record units_ok (u : Units) : Prop := {
  uo_mix : mix_entries_ok (sizesAndWeights (un_blockSizeMix u)) /\ un_blockSizeMix u = mix_finish (sizesAndWeights (un_blockSizeMix u));
  uo_block : un_blockSize u = maxSize (un_blockSizeMix u);
  uo_fileSize : 0 <= un_fileSize u < TWO64;
  uo_fileOffset : 0 <= un_fileOffset u < TWO64;
  uo_randomAmount : 0 <= un_randomAmount u < TWO64;
  uo_journalBlockSize : 0 <= un_journalBlockSize u < TWO64;
  uo_respSize : 0 <= un_netBenchRespSize u < TWO64;
}.

Lemma result_bind_ok {A B} (m : result A) (f : A -> result B) b : (x ← m; f x) = Ok b -> exists a, m = Ok a /\ f a = Ok b.
Proof. destruct m; [|done]. intros H. by eexists. Qed.

Lemma convertUnitStrings_ok str u : convertUnitStrings str = Ok u -> units_ok u.
Proof.
  unfold convertUnitStrings. intros H.
  repeat (apply result_bind_ok in H as (? & ? & H)). injection H as <-.
  constructor; cbn; try done; try (by eapply numHuman_range). by eapply mix_parse_ok.
Qed.

(** ** Frames *)

Section frames.
Context {W : Type}.

(** Hosts, threads, paths and sizes stay as they are. *)
Definition same_run (s s' : CheckState W) : Prop :=
  ck_hosts s' = ck_hosts s /\ ck_numThreads s' = ck_numThreads s /\ ck_benchPathsVec s' = ck_benchPathsVec s
  /\ ck_prep s' = ck_prep s /\ ck_treeFilePath s' = ck_treeFilePath s.

#[global] Instance same_run_preorder : PreOrder same_run.
Proof. unfold same_run. split; [done|]. intros s1 s2 s3 (? & ? & ? & ? & ?) (? & ? & ? & ? & ?). split_and!; congruence. Qed.

(** As does the number of threads on the data set. *)
Definition same_threads (s s' : CheckState W) : Prop := same_run s s' /\ ck_numDataSetThreads s' = ck_numDataSetThreads s.

#[global] Instance same_threads_preorder : PreOrder same_threads.
Proof. split; [done|]. intros s1 s2 s3 [H1 E1] [H2 E2]. split; [by transitivity s2|congruence]. Qed.
End frames.

Lemma within_refuse {S} {Rl : S -> S -> Prop} `{!PreOrder Rl} b msg : within Rl (refuse b msg).
Proof. apply within_when, within_throw. Qed.

Lemma within_call {S} {Rl : S -> S -> Prop} `{!PreOrder Rl} {A} (m : option (result A)) : within Rl (eff_call m).
Proof. apply within_bind; [apply within_some|]. intros r. apply within_result. Qed.

(** Frames of straight-line checks. *)
Ltac solve_within :=
  repeat match goal with
  | |- within _ (let _ := _ in _) => cbv zeta
  | |- within _ (mbind _ _) => apply within_bind; [|intros ?]
  | |- within _ (eff_modify _) => apply within_modify; intros ?; by repeat split
  | |- within _ (eff_when _ _) => apply within_when
  | |- within _ (if _ then _ else _) => apply within_if
  | |- within _ _ => first [apply within_refuse|apply within_call|apply within_get|apply within_result|apply within_some|apply within_ret]
  end.

Section stages.
Context {W : Type} (os : Os W) (po : PathOs W) (e : HostEnv) (fuel : nat).
Context (journal_init : JournalArgs -> JournalStore -> option (result JournalStore)).
Context (o : Options) (mode : BenchMode) (im : Implicit) (u : Units).
#[local] Abbreviation state := (CheckState W).

Lemma prepare_tree_frame : within (same_threads (W := W)) (prepare_tree e o mode im u).
Proof. unfold prepare_tree, adjust_share_size, scanCustomTree, load_tree, precreateS3MpuSharingUploadIDs. solve_within. Qed.

Lemma check_cuFile_frame : within (same_threads (W := W)) (check_cuFile o im).
Proof. unfold check_cuFile. solve_within. Qed.

Lemma check_exclusions_frame : within (same_threads (W := W)) (check_exclusions o mode im u).
Proof. unfold check_exclusions, check_patterns, check_hdfs, check_offset_modes, check_s3, check_verification. solve_within. Qed.

(** The number of threads on the data set. *)
Definition data_set_threads (s : state) : Z :=
  if (0 <? num_hosts s) && negb (op_noSharedServicePath o) then ck_numThreads s *₆₄ num_hosts s else ck_numThreads s.

Lemma check_counts_spec (s : state) :
  wpp (check_counts o) s
    (post (fun _ s' => same_run s s' /\ ck_numThreads s <> 0 /\ ck_numDataSetThreads s' = data_set_threads s) (fun _ _ => True)).
Proof.
  unfold check_counts. apply wpp_bind, wpp_get. cbn [post id]. apply wpp_bind, wpp_refuse; [|done]. intros Ht. cbn [post].
  apply wpp_bind, wpp_refuse; [|done]. intros _. cbn [post]. apply wpp_modify. apply Z.eqb_neq in Ht. by split_and!.
Qed.

(** What is checked of a network benchmark. *)
Definition net_ok (s : state) : Prop :=
  let servers := hs_numNetBenchServers (ck_hosts s) in
  servers <> 0 /\ servers < num_hosts s /\ sa_blockSize (ck_sizes s) <> 0 /\ un_netBenchRespSize u <> 0 /\ sa_fileSize (ck_sizes s) <> 0.

Lemma check_netbench_spec (s : state) :
  wpp (check_netbench o u) s (post (fun _ s' => s' = s /\ (op_useNetBench o = true -> net_ok s)) (fun _ _ => True)).
Proof.
  unfold check_netbench. apply wpp_bind, wpp_get. cbn [post id]. cbv zeta.
  do 4 (apply wpp_bind, wpp_refuse; [|done]; intros ?; cbn [post]). apply wpp_refuse; [|done]. intros _. cbn [post].
  split; [done|]. intros Hn. rewrite Hn in *. cbn [andb] in *. unfold net_ok. lia.
Qed.

(** Random offsets exclude the other patterns. *)
Definition patterns_ok : Prop := op_useRandomOffsets o = true -> op_useStridedAccess o = false /\ op_doReverseSeqOffsets o = false.

Lemma check_exclusions_spec (s : state) :
  wpp (check_exclusions o mode im u) s (post (fun _ s' => same_threads s s' /\ patterns_ok) (fun _ _ => True)).
Proof.
  destruct (op_useRandomOffsets o && (op_useStridedAccess o || op_doReverseSeqOffsets o)) eqn:E.
  - unfold check_exclusions, check_patterns. apply wpp_bind, wpp_bind, wpp_get. cbn [post id]. cbv zeta. apply wpp_bind, wpp_refuse; [|done].
    apply andb_prop in E as [-> E]. destruct (op_useStridedAccess o), (op_doReverseSeqOffsets o); done.
  - eapply wpp_mono; [apply check_exclusions_frame|]. intros [[]|ex] s' Hs; cbn [post]; [|done]. split; [done|]. intros Hr.
    rewrite Hr in E. by destruct (op_useStridedAccess o), (op_doReverseSeqOffsets o).
Qed.

(** All checks of a run before those of its sizes. *)
Lemma check_run_spec (s : state) :
  wpp (check_run e o mode im u) s
    (post (fun _ s' => same_run s s' /\ ck_numThreads s <> 0 /\ ck_numDataSetThreads s' = data_set_threads s
       /\ (op_useNetBench o = true -> net_ok s') /\ patterns_ok) (fun _ _ => True)).
Proof.
  unfold check_run. apply wpp_bind. eapply wpp_mono; [apply check_counts_spec|]. intros [[]|ex] s1 H1; cbn [post] in *; [|done].
  destruct H1 as (Hs1 & Ht & Hd1).
  apply wpp_bind. eapply wpp_mono; [apply prepare_tree_frame|]. intros [[]|ex] s2 [Hs2 Hd2]; cbn [post]; [|done].
  apply wpp_bind. eapply wpp_mono; [apply check_cuFile_frame|]. intros [[]|ex] s3 [Hs3 Hd3]; cbn [post]; [|done].
  apply wpp_bind. eapply wpp_mono; [apply check_netbench_spec|]. intros [[]|ex] s4 H4; cbn [post] in *; [|done]. destruct H4 as [-> Hn].
  eapply wpp_mono; [apply check_exclusions_spec|]. intros [[]|ex] s5 H5; cbn [post] in *; [|done]. destruct H5 as [[Hs5 Hd5] Hpat].
  split; [by do 3 (etransitivity; [done|])|]. split; [done|]. split; [congruence|]. split; [|done]. intros Hnb. specialize (Hn Hnb).
  unfold net_ok, num_hosts, ck_sizes in *. by destruct Hs5 as (-> & _ & _ & -> & _).
Qed.

(** ** Hosts and paths *)

(** Hosts and threads stay as they are. *)
Definition same_hosts (s s' : state) : Prop := ck_hosts s' = ck_hosts s /\ ck_numThreads s' = ck_numThreads s.

#[local] Instance same_hosts_preorder : PreOrder same_hosts.
Proof. split; [done|]. intros s1 s2 s3 [] []. split; congruence. Qed.

(** And also the sizes. *)
Definition same_prep (s s' : state) : Prop := same_hosts s s' /\ ck_prep s' = ck_prep s.

#[local] Instance same_prep_preorder : PreOrder same_prep.
Proof. split; [done|]. intros s1 s2 s3 [? E1] [? E2]. split; [by transitivity s2|congruence]. Qed.

Lemma parse_lists_frame : within same_prep (parse_lists e fuel o mode im).
Proof. unfold parse_lists. solve_within. Qed.

Lemma parse_hosts_spec (s : state) :
  wpp (parse_hosts e fuel o) s
    (post (fun _ s' => parseHosts fuel (he_readLines e) (host_args o) = Some (Ok (ck_hosts s')) /\ ck_numThreads s' = ck_numThreads s
       /\ ck_prep s' = ck_prep s) (fun _ _ => True)).
Proof.
  unfold parse_hosts. apply wpp_bind, wpp_bind, wpp_some. intros res Hres. cbn [post]. apply wpp_result.
  destruct res as [hosts|]; cbn [post]; [|done]. apply wpp_modify. done.
Qed.

Lemma zoom_prep_hosts {A} (m : eff (PrepState W) A) : within same_hosts (zoom_prep m).
Proof.
  intros s r s' Hm. unfold zoom_prep, eff_zoom in Hm. destruct (m _) as [[r1 p1]|]; [|done]. by injection Hm as <- <-.
Qed.

Lemma parseAndCheckPaths_hosts : within same_hosts (parseAndCheckPaths os po e fuel o mode im u).
Proof. unfold parseAndCheckPaths, open_paths, initBenchPathType, zoom_sizes. destruct mode; solve_within; apply zoom_prep_hosts. Qed.

(** A result that is only checked. *)
Lemma wpp_ok {A} (r : result A) (s : state) (Q : result A -> state -> Prop) :
  (forall a, r = Ok a -> Q (Ok a) s) -> (forall ex, Q (Throw ex) s) -> wpp (eff_result r) s Q.
Proof. intros H1 H2. apply wpp_result. destruct r; [by apply H1|apply H2]. Qed.

Lemma open_paths_spec (s : state) :
  wpp (open_paths os po e o mode im u) s
    (post (fun _ s' => ck_benchPathsVec s' = ck_benchPathsVec s
       /\ (mode <> BenchMode_POSIX -> exists t, ck_sizes s' = set_benchPathType t (ck_sizes s))
       /\ (mode = BenchMode_POSIX -> prepareBenchPathFDsVec os po (path_args o mode im u s') (ck_prep s) = Some (Ok tt, ck_prep s')))
      (fun _ _ => True)).
Proof.
  unfold open_paths. destruct (decide (mode = BenchMode_POSIX)) as [Hm|Hm].
  - rewrite (bool_decide_eq_true_2 _ Hm). replace (initBenchPathType mode) with (mret tt : eff state unit) by (by rewrite Hm).
    apply wpp_bind, wpp_ret. cbn [post]. apply wpp_bind, wpp_ok; [|done]. intros [] _. cbn [post eff_when].
    apply wpp_bind, wpp_get. cbn [post]. apply wpp_bind. intros r s' Hz. unfold zoom_prep, eff_zoom in Hz.
    destruct (prepareBenchPathFDsVec _ _ _ _) as [[r1 p1]|] eqn:Hrun; [|done]. injection Hz as <- <-.
    destruct r1 as [[]|ex]; cbn [post]; [|done]. apply wpp_bind, wpp_ok; [|done]. intros [] _. cbn [post]. apply wpp_ok; [|done].
    intros [] _. cbn [post]. split; [done|]. split; [done|]. intros _. exact Hrun.
  - rewrite (bool_decide_eq_false_2 _ Hm). apply wpp_bind.
    eapply wpp_mono with (Q := post (fun _ s1 => ck_benchPathsVec s1 = ck_benchPathsVec s
      /\ exists t, ck_sizes s1 = set_benchPathType t (ck_sizes s)) (fun _ _ => True)).
    { unfold initBenchPathType. destruct mode; try done; try (intros r s' [= <- <-]; by split; [|eexists]).
      apply wpp_ret. split; [done|]. exists (sa_benchPathType (ck_sizes s)). by destruct (ck_sizes s). }
    intros [[]|ex] s1 H1; cbn [post] in *; [|done]. destruct H1 as [Hb Ht]. apply wpp_bind, wpp_ok; [|done]. intros [] _. cbn [post eff_when].
    apply wpp_ret. by split_and!.
Qed.

(** Without a host list the paths of a run on files are opened; other modes only set the type. *)
Lemma parseAndCheckPaths_spec (s : state) :
  wpp (parseAndCheckPaths os po e fuel o mode im u) s
    (post (fun _ s' =>
       (mode <> BenchMode_POSIX -> exists t, ck_sizes s' = set_benchPathType t (ck_sizes s))
       /\ (mode = BenchMode_POSIX -> hs_hostsStr (ck_hosts s) = "" -> op_useNetBench o = false ->
           ck_benchPathsVec s' <> [] /\ prepareBenchPathFDsVec os po (path_args o mode im u s') (ck_prep s) = Some (Ok tt, ck_prep s')))
      (fun _ _ => True)).
Proof.
  unfold parseAndCheckPaths. apply wpp_bind, wpp_get. cbn [post]. apply wpp_bind, wpp_bind, wpp_some. intros res _. cbn [post].
  apply wpp_ok; [|done]. intros [[paths str] lines] _. cbn [post fst snd].
  apply wpp_bind, wpp_modify. cbn [post]. apply wpp_bind, wpp_modify. cbn [post].
  apply wpp_bind. eapply wpp_mono with (Q := post (fun _ s1 => same_prep s s1 /\ ck_benchPathsVec s1 = paths) (fun _ _ => True)).
  { apply wpp_when; intros _; [|by repeat split]. apply wpp_bind, wpp_modify. cbn [post]. apply wpp_modify. by repeat split. }
  intros [[]|ex] s1 H1; cbn [post] in *; [|done]. destruct H1 as [[[Hh _] Hp] Hpaths].
  apply wpp_bind, wpp_ok; [|done]. intros [] _. cbn [post]. apply wpp_bind, wpp_ok; [|done]. intros [] Hgiven. cbn [post].
  assert (op_useNetBench o = false -> paths <> []) as Hne.
  { intros Hn ->. unfold check_paths_given in Hgiven. by rewrite Hn in Hgiven. }
  apply wpp_bind, wpp_get. cbn [post]. rewrite Hh.
  apply wpp_when; intros Hstr.
  - eapply wpp_mono; [apply open_paths_spec|]. intros [[]|ex] s2 H2; cbn [post] in *; [|done].
    destruct H2 as (Hb & Hother & Hposix). rewrite Hb, Hpaths. unfold ck_sizes in *. rewrite Hp in *. auto.
  - cbn [post]. split.
    + intros _. exists (sa_benchPathType (ck_sizes s)). unfold ck_sizes. rewrite Hp. by destruct (pr_args _).
    + intros _ Hs. unfold nonempty in Hstr. by rewrite Hs in Hstr.
Qed.

(** ** The whole check *)

(** Not a service, and not only a message to services. *)
Definition is_run : Prop := op_runAsService o = false /\ op_interruptServices o = false /\ op_quitServices o = false.

(** The states of an accepted run: with the hosts, with the paths, and after the checks of the run. *)
Record run_states (s s' s1 s2 s3 : state) : Prop := {
  rs_hosts : parseHosts fuel (he_readLines e) (host_args o) = Some (Ok (ck_hosts s1));
  rs_start : ck_numThreads s1 = ck_numThreads s /\ ck_prep s1 = ck_prep s;
  rs_same : same_hosts s1 s2;
  rs_other : mode <> BenchMode_POSIX -> exists t, ck_sizes s2 = set_benchPathType t (ck_sizes s1);
  rs_posix : mode = BenchMode_POSIX -> hs_hostsStr (ck_hosts s1) = "" -> op_useNetBench o = false ->
    ck_benchPathsVec s2 <> [] /\ exists c, pa_benchPathsVec c = ck_benchPathsVec s2
      /\ prepareBenchPathFDsVec os po c (ck_prep s1) = Some (Ok tt, ck_prep s2);
  rs_run : same_run s2 s3;
  rs_threads : ck_numThreads s2 <> 0 /\ ck_numDataSetThreads s3 = data_set_threads s2;
  rs_net : op_useNetBench o = true -> net_ok s3;
  rs_patterns : patterns_ok;
  rs_final : if 0 <? num_hosts s3 then s' = s3
    else checkPathDependentArgs (path_args o mode im u s3) journal_init (ck_sizes s3) = Some (Ok tt, ck_sizes s')
         /\ path_args o mode im u s' = path_args o mode im u s3;
}.

Lemma checkArgs_spec (s : state) : is_run ->
  wpp (checkArgs os po e fuel journal_init o mode im u) s
    (post (fun _ s' => exists s1 s2 s3, run_states s s' s1 s2 s3) (fun _ _ => True)).
Proof.
  intros (Hsvc & Hint & Hquit). unfold checkArgs. rewrite Hsvc, Hint, Hquit.
  do 3 (apply wpp_bind; eapply wpp_mono; [apply (within_call (Rl := eq))|]; intros [?|?] ? <-; cbn [post]; [|exact I]).
  apply wpp_bind. eapply wpp_mono; [apply parse_hosts_spec|]. intros [[]|ex] s0 H0; cbn [post] in *; [|done]. destruct H0 as (Hh & Ht & Hp).
  apply wpp_bind. eapply wpp_mono; [apply parse_lists_frame|]. intros [[]|ex] s1 [[Hh1 Ht1] Hp1]; cbn [post]; [|done].
  apply wpp_bind, wpp_get. cbn [post id]. do 2 (apply wpp_bind, wpp_refuse; [|done]; intros _; cbn [post]). cbn [orb].
  apply wpp_bind. eapply wpp_mono.
  { intros r s2 Hrun. exact (conj (parseAndCheckPaths_spec s1 r s2 Hrun) (parseAndCheckPaths_hosts s1 r s2 Hrun)). }
  intros [[]|ex] s2 [H2 Hs2]; cbn [post] in *; [|done]. destruct H2 as [Hother Hposix].
  apply wpp_bind. eapply wpp_mono; [apply check_run_spec|]. intros [[]|ex] s3 H3; cbn [post] in *; [|done].
  destruct H3 as (Hs3 & Ht3 & Hd3 & Hn3 & Hpat). assert (num_hosts s1 = num_hosts s3) as Hnum.
  { unfold num_hosts. destruct Hs2 as [<- _]. by destruct Hs3 as [-> _]. }
  rewrite Hnum.
  assert (forall s', (if 0 <? num_hosts s3 then s' = s3
    else checkPathDependentArgs (path_args o mode im u s3) journal_init (ck_sizes s3) = Some (Ok tt, ck_sizes s')
         /\ path_args o mode im u s' = path_args o mode im u s3) -> run_states s s' s1 s2 s3) as Hbuild.
  { intros s' Hf. constructor; try done.
    - by rewrite Hh1.
    - split; congruence.
    - intros Hm Hs Hnb. destruct (Hposix Hm Hs Hnb) as [Hne Hopen]. split; [done|]. exists (path_args o mode im u s2). by split. }
  destruct (0 <? num_hosts s3) eqn:E.
  - apply wpp_ret. cbn [post]. exists s1, s2, s3. apply Hbuild. done.
  - apply wpp_bind, wpp_get. cbn [post]. apply wpp_bind. intros r s4 Hz. unfold zoom_sizes, zoom_prep, eff_zoom in Hz.
    change (pr_args (ck_prep s3)) with (ck_sizes s3) in Hz.
    destruct (checkPathDependentArgs _ _ _) as [[[[]|ex] z]|] eqn:Hrun; [| |done]; injection Hz as <- <-; cbn [post]; [|done].
    eapply wpp_mono.
    { assert (within (eq (A := state)) (check_credentials o im)) as Hw by (unfold check_credentials; solve_within). apply Hw. }
    intros [[]|ex] s5 <-; cbn [post]; [|done]. exists s1, s2, s3. apply Hbuild. done.
Qed.
End stages.

Lemma and_then_ok {A B} (m : option (result A)) (f : A -> option (result B)) b :
  and_then m f = Some (Ok b) -> exists a, m = Some (Ok a) /\ f a = Some (Ok b).
Proof. destruct m as [[a|]|]; [|done..]. intros H. by exists a. Qed.

(** Without hosts there is no host list. *)
Lemma parse_host_pair_none fuel file port pair str : parse_host_pair fuel file port pair = Some (Ok (str, [])) -> str = "".
Proof.
  unfold parse_host_pair. destruct pair as [hosts path]. destruct (String.eqb hosts "" && String.eqb path "") eqn:E.
  - intros [= <-]. apply andb_prop in E as [E _]. by apply String.eqb_eq.
  - intros H. apply and_then_ok in H as (s1 & _ & H). apply and_then_ok in H as (l & _ & H). by destruct l.
Qed.

Lemma parseHosts_spec fuel file a h : parseHosts fuel file a = Some (Ok h) ->
  0 <= hs_numNetBenchServers h /\ (ho_useNetBench a = false -> hs_hostsVec h = [] -> hs_hostsStr h = "").
Proof.
  unfold parseHosts. destruct (ho_numHosts a =? 0) eqn:Hz; [intros [= <-]; done|]. intros H. apply and_then_ok in H as (all & Hall & H).
  destruct (negb _); [done|]. injection H as <-. cbn [hs_numNetBenchServers hs_hostsVec hs_hostsStr].
  destruct (ho_useNetBench a).
  - apply and_then_ok in Hall as (sv & _ & Hall). apply and_then_ok in Hall as (cl & _ & Hall). injection Hall as <-. cbn. split; [lia|done].
  - apply and_then_ok in Hall as ([str hosts] & Hpair & Hall). injection Hall as <-. cbn. split; [done|]. intros _ Hnil.
    assert (hosts = []) as ->; [|by eapply parse_host_pair_none].
    destruct (ho_numHosts a <? 0) eqn:Hn; [done|]. destruct hosts as [|x hosts]; [done|].
    destruct (Z.to_nat (ho_numHosts a)) eqn:E; [lia|done].
Qed.

Lemma ProgArgs_init_inv {W} (os : Os W) po e fuel ji o w pg :
  ProgArgs_init os po e fuel ji o w = Some (Ok pg) ->
  let im := pg_implicit pg in let u := pg_units pg in
  initImplicitValues e (pg_mode pg) o = Ok im /\ convertUnitStrings (im_units im) = Ok u /\ pg_mode pg = initBenchMode o
  /\ checkArgs os po e fuel ji o (pg_mode pg) im u (check_start o im u w) = Some (Ok tt, pg_state pg).
Proof.
  unfold ProgArgs_init. intros H. apply and_then_ok in H as (im & Him & H). apply and_then_ok in H as (u & Hu & H).
  destruct (checkArgs _ _ _ _ _ _ _ _ _ _) as [[[[]|ex] s]|] eqn:Hrun; [|done..]. injection H as <-. cbn.
  injection Him as Him. injection Hu as Hu. by split_and!.
Qed.

(** ** Accepted runs *)

(** The arguments that the workers of a local run see. *)
Definition run_args {W} (o : Options) (pg : ParsedArgs W) : PathArgs :=
  path_args o (pg_mode pg) (pg_implicit pg) (pg_units pg) (pg_state pg).
Definition run_sizes {W} (pg : ParsedArgs W) : SizeArgs := ck_sizes (pg_state pg).

(** The numbers of the options stay far enough from the limits of 64 bits; [maxSize] is the largest
    end of a target. *)
Record limits_ok (o : Options) (u : Units) (numPaths maxEnd : Z) : Prop := {
  li_threads : 0 <= op_numThreads o;
  li_weights : Zsum (snd <$> sizesAndWeights (un_blockSizeMix u)) < TWO64;
  li_set : un_blockSize u * op_numThreads o < TWO64;
  li_given : un_fileOffset u + un_fileSize u <= maxEnd;
  li_end : maxEnd + un_journalBlockSize u <= 2 ^ 62;
  li_total : maxEnd * numPaths < 2 ^ 63;
}.

Section local_run.
Context {W : Type} (os : Os W) (po : PathOs W) (e : HostEnv) (fuel : nat).
Context (ji : JournalArgs -> JournalStore -> option (result JournalStore)) (o : Options) (w : W).
Context (size : Z -> Z) (regular : Z -> bool) (maxEnd : Z).
Hypothesis size_range : forall fd, 0 <= size fd <= maxEnd.
Hypothesis fstat_law : forall fd w st w',
  po_fstat po fd w = (inr st, w') -> st_size st = size fd /\ bool_decide (st_mode st = S_IFREG) = regular fd.
Hypothesis lseek_law : forall fd w n w', po_lseek_end po fd w = (inr n, w') -> n = size fd.

(** A local run on files, devices or directories comes to the checks of its sizes with arguments that
    these can handle. *)
Lemma accepted_parsed pg :
  ProgArgs_init os po e fuel ji o w = Some (Ok pg) -> is_run o -> op_useNetBench o = false ->
  pg_mode pg = BenchMode_POSIX -> num_hosts (pg_state pg) = 0 ->
  limits_ok o (pg_units pg) (num_paths (run_args o pg)) maxEnd ->
  patterns_ok o /\ exists z, args_parsed (run_args o pg) z /\ checkPathDependentArgs (run_args o pg) ji z = Some (Ok tt, run_sizes pg).
Proof.
  intros Hinit Hrun Hnb Hmode Hnum Hlim. destruct (ProgArgs_init_inv _ _ _ _ _ _ _ _ Hinit) as (_ & Hu & _ & Hcheck).
  pose proof (convertUnitStrings_ok _ _ Hu) as Huo. unfold run_args, run_sizes in *.
  set (im := pg_implicit pg) in *. set (u := pg_units pg) in *. set (s' := pg_state pg) in *. rewrite Hmode in *.
  apply checkArgs_spec in Hcheck; [|done]. cbn [post] in Hcheck. destruct Hcheck as (s1 & s2 & s3 & Hs).
  destruct Hs as [Hhosts [Ht1 Hp1] [Hh2 Ht2] _ Hposix (Hh3 & Ht3 & Hb3 & Hp3 & _) [Hnz Hd3] _ Hpat Hfinal].
  assert (num_hosts s3 = 0) as Hn3.
  { destruct (0 <? num_hosts s3) eqn:E; [by subst s3|]. unfold num_hosts in *. lia. }
  assert (hs_hostsVec (ck_hosts s1) = []) as Hnil.
  { rewrite <- Hh2, <- Hh3. apply length_zero_iff_nil. unfold num_hosts in Hn3. lia. }
  destruct (parseHosts_spec _ _ _ _ Hhosts) as [_ Hstr]. specialize (Hstr Hnb Hnil).
  destruct (Hposix eq_refl Hstr Hnb) as [Hne (c & Hc & Hopen)]. rewrite Hn3 in Hfinal. cbn [Z.ltb Z.compare] in Hfinal.
  destruct Hfinal as [Hchk Hpath]. rewrite Hpath in *. split; [done|]. exists (ck_sizes s3). split; [|done].
  destruct Hlim as [Lt Lw Ls Lg Le Ll]. destruct Huo as [Umix Ublk Ufs Ufo Ura Ujb _].
  assert (forall fd, 0 <= size fd < 2 ^ 63) as Hsr by (intros fd; specialize (size_range fd); lia).
  destruct (prepareBenchPathFDsVec_spec os po c size regular Hsr fstat_law lseek_law (ck_prep s1)) with (r := Ok tt) (s' := ck_prep s2)
    as ((Hr & _ & Hpos) & Hlen & Hk); [rewrite Hp1; unfold range_ok; cbn; lia|done|].
  rewrite Hp1 in Hk. destruct Hk as (Ko & Kb & Km & Ka & Kf). cbn in Ko, Kb, Km, Ka, Kf. unfold ck_sizes in *. rewrite Hp3.
  assert (data_set_threads o s2 = op_numThreads o) as Hds.
  { unfold data_set_threads. replace (num_hosts s2) with 0 by (unfold num_hosts in *; by rewrite Hh3 in Hn3).
    cbn. rewrite Ht2, Ht1. done. }
  assert (0 <= sa_fileSize (pr_args (ck_prep s2)) /\ un_fileOffset u + sa_fileSize (pr_args (ck_prep s2)) <= maxEnd) as [Hf0 Hf1].
  { destruct Hr as (_ & ? & _). split; [done|]. destruct Kf as [->|[fd ->]]; [done|apply size_range]. }
  assert (num_paths (path_args o BenchMode_POSIX im u s3) = Z.of_nat (length (ck_benchPathsVec s2))) as Hnp by (unfold num_paths; cbn; by rewrite Hb3).
  assert (0 < length (ck_benchPathsVec s2))%nat by (by destruct (ck_benchPathsVec s2); [|cbn; lia]).
  rewrite Hnp in *.
  constructor; rewrite ?Hnp; cbn [pa_numDataSetThreads path_args pa_journalBlockSize]; rewrite ?Hd3, ?Hds, ?Km, ?Kb, ?Ko, ?Ka; try done; try lia.
  - destruct Umix as [U1 U2]. split; [done|]. split; [done|]. lia.
  - rewrite Ht2, Ht1 in Hnz. cbn in Hnz. lia.
  - split; [lia|]. nia.
  - intros Hd. apply Hpos; [|done]. intros Hfd. rewrite Hfd in Hlen. rewrite <- Hc in *. cbn in Hlen. lia.
Qed.
End local_run.

(** ** Accepted network benchmarks *)

Lemma filter_same {A} (P Q : A -> Prop) `{!forall x, Decision (P x), !forall x, Decision (Q x)} (l : list A) :
  (forall x, x ∈ l -> P x <-> Q x) -> filter P l = filter Q l.
Proof.
  induction l as [|x l IH]; intros Hl; [done|]. rewrite !filter_cons, IH by (intros y Hy; apply Hl; by right).
  specialize (Hl x ltac:(by left)). destruct (decide (P x)), (decide (Q x)); tauto.
Qed.

(** What the workers of the [h]-th service read: the master sends the numbers of threads and servers and
    the service's rank offset ([remoteRankOffset] of ServiceArgs). *)
Definition service_net_args {W} (o : Options) (s : CheckState W) (h : Z) : NetArgs :=
  mkNetArgs (ck_numThreads s) (ck_numDataSetThreads s) (hs_numNetBenchServers (ck_hosts s))
    (if negb (op_noSharedServicePath o) then op_rankOffset o +₆₄ (h *₆₄ ck_numThreads s) else op_rankOffset o).

Definition net_sizes {W} (pg : ParsedArgs W) : NetSizes :=
  mkNetSizes (sa_fileSize (run_sizes pg)) (sa_blockSize (run_sizes pg)) (un_netBenchRespSize (pg_units pg)).

Section net_run.
Context {W : Type} (os : Os W) (po : PathOs W) (e : HostEnv) (fuel : nat).
Context (ji : JournalArgs -> JournalStore -> option (result JournalStore)) (o : Options) (w : W).

Lemma accepted_net pg :
  ProgArgs_init os po e fuel ji o w = Some (Ok pg) -> is_run o -> op_useNetBench o = true ->
  pg_mode pg = BenchMode_NETBENCH -> 0 <= op_numThreads o ->
  let s := pg_state pg in
  0 < hs_numNetBenchServers (ck_hosts s) < num_hosts s /\ 0 < ck_numThreads s
  /\ ck_numDataSetThreads s = (if op_noSharedServicePath o then ck_numThreads s else ck_numThreads s *₆₄ num_hosts s)
  /\ sizes_ok (net_sizes pg).
Proof.
  intros Hinit Hrun Hnb Hmode Ht0 s. destruct (ProgArgs_init_inv _ _ _ _ _ _ _ _ Hinit) as (_ & Hu & _ & Hcheck).
  pose proof (convertUnitStrings_ok _ _ Hu) as Huo. unfold net_sizes, run_sizes. fold s in Hcheck |- *.
  apply checkArgs_spec in Hcheck; [|done]. cbn [post] in Hcheck. destruct Hcheck as (s1 & s2 & s3 & Hs).
  destruct Hs as [Hhosts [Ht1 Hp1] [Hh2 Ht2] Hother _ (Hh3 & Ht3 & Hb3 & Hp3 & _) [Hnz Hd3] Hnet _ Hfinal].
  destruct (Hnet Hnb) as (Hsv & Hcl & Hb & Hresp & Hf). destruct (parseHosts_spec _ _ _ _ Hhosts) as [Hsv0 _].
  rewrite <- Hh2, <- Hh3 in Hsv0. rewrite (proj2 (Z.ltb_lt 0 (num_hosts s3))) in Hfinal by lia. rewrite Hfinal.
  destruct Hother as [t Hz]; [by rewrite Hmode|]. unfold ck_sizes in *. rewrite <- Hp3, Hp1 in Hz. rewrite Hz in *. cbn in Hb, Hf.
  assert (num_hosts s2 = num_hosts s3) as Hnum by (unfold num_hosts; by rewrite Hh3).
  split; [lia|]. split; [rewrite Ht3, Ht2, Ht1; rewrite Ht2, Ht1 in Hnz; cbn in *; lia|]. split.
  - rewrite Hd3. unfold data_set_threads. rewrite Hnum, Ht3, (proj2 (Z.ltb_lt 0 (num_hosts s3))) by lia. by destruct (op_noSharedServicePath o).
  - destruct Huo as [[Umix Ufin] Ublk Ufs _ _ _ Ursp]. constructor; cbn; [lia| |lia]. rewrite Ublk in *.
    pose proof (mix_sizes_bounds _ Umix Ufin). lia.
Qed.
End net_run.

(** ** Theorems *)



(** ** A local run with random writes and a network benchmark *)

Definition demo_units (blockSize fileSize respSize : string) : UnitStrings :=
  mkUnitStrings blockSize fileSize "0" "1" "1" "0" "0" "0" "4K" "0" "0" respSize "0" "0" "0" "0" "" "" "".

Definition demo_hosts (servers clients : string) : HostArgs := mkHostArgs (-1) false 1611 ("", "") (servers, "") (clients, "").

(** Writes with two threads. *)
Definition demo_options (paths : list string) (netbench notShared : bool) (rankOffset : Z) (random : bool) (hosts : HostArgs) (units : UnitStrings) : Options :=
  mkOptions false paths false false false false false None
    false netbench "" "" "" "" false false notShared rankOffset false
    false false true false false false 0 false
    random false false false false "" "fast"
    2 1 1 false false false false false false "" "" "" "" false false false
    0 0 0 100 0 false false "" false
    (mkS3Access "" "" "" "" "" "") "" "" 0 false false false false false false false "" ""
    hosts "" false false units.

Definition demo_host_env : HostEnv :=
  mkHostEnv (fun _ => None) "/var/tmp/treescan.txt" "/var/tmp/tree.txt" (Some "/root") (fun _ => None) false "" "" (fun _ => Ok tt)
    (fun _ => Ok tt) false None false false false false (fun _ _ => Ok tt) (Ok []) true (Ok tt) (Ok tt) (Ok tt) (Ok tt).

Definition demo_journal_init (args : JournalArgs) (store : JournalStore) : option (result JournalStore) :=
  JournalStore_init (fun _ _ => true) (fun _ => (1, 2)) (fun _ => []) args true (Some []) store.

Definition demo_init (o : Options) : option (result (ParsedArgs mem_world)) :=
  ProgArgs_init mem_os demo_path_os demo_host_env 20 demo_journal_init o (mkMem ∅ [3; 4] [] 0).

Definition demo_local : Options := demo_options ["/data/f"] false false 0 true (demo_hosts "" "") (demo_units "4K" "10000" "1").
Definition demo_net (notShared : bool) (rankOffset : Z) : Options :=
  demo_options [] true notShared rankOffset false (demo_hosts "a,b" "c,d,e") (demo_units "1M" "64M" "100").

(** What is left when the options are accepted. *)
Definition demo_parsed (o : Options) : ParsedArgs mem_world :=
  match demo_init o with
  | Some (Ok pg) => pg
  | _ => mkParsed BenchMode_UNDEFINED (mkImplicit false false 0 false false false false (op_s3 o) false false false "" false 0 false 0 false "" "" (op_units o))
           (mkUnits demo_single 0 0 0 0 0 0 0 0 0 0 0 0 0 0 0 0 0 0 0)
           (mkCheck 0 0 0 false false (mkHosts [] 0 "" "") [] [] [] "" "" None CustomTree_empty [] (mkPrep demo_unsized [] (mkMem ∅ [] [] 0)) [] "")
  end.

Lemma demo_accepts o : (if demo_init o is Some (Ok _) then true else false) = true -> demo_init o = Some (Ok (demo_parsed o)).
Proof. unfold demo_parsed. by destruct (demo_init o) as [[]|]. Qed.

Lemma demo_local_accepted :
  ProgArgs_init mem_os demo_path_os demo_host_env 20
    (fun args store => JournalStore_init (fun _ _ => true) (fun _ => (1, 2)) (fun _ => []) args true (Some []) store)
    demo_local (mkMem ∅ [3; 4] [] 0) = Some (Ok (demo_parsed demo_local)).
Proof. by vm_compute. Qed.

Lemma demo_net_accepted :
  ProgArgs_init mem_os demo_path_os demo_host_env 20 demo_journal_init (demo_net false 0) (mkMem ∅ [3; 4] [] 0)
  = Some (Ok (demo_parsed (demo_net false 0))).
Proof. by vm_compute. Qed.



(** Without shared ranks ("--nosvcshare") the network benchmark is accepted as well, but then every service
    takes itself for a server: there are no clients. *)
Example netbench_without_shared_ranks :
  let o := demo_net true 0 in
  demo_init o = Some (Ok (demo_parsed o))
  /\ forallb (fun h => hostIsServer (service_net_args o (pg_state (demo_parsed o)) h)) [0; 1; 2; 3; 4] = true.
Proof. split; [apply demo_accepts|]; by vm_compute. Qed.

(** With a rank offset of the ranks of the servers no service takes itself for one. *)
Example netbench_with_rank_offset :
  let o := demo_net false 4 in
  demo_init o = Some (Ok (demo_parsed o))
  /\ forallb (fun h => negb (hostIsServer (service_net_args o (pg_state (demo_parsed o)) h))) [0; 1; 2; 3; 4] = true.
Proof. split; [apply demo_accepts|]; by vm_compute. Qed.
