(* ===== verification/S3Upload.v ===== *)
(** Uploads and downloads of S3 objects by one worker (workers/LocalWorker.cpp): single uploads,
    multipart uploads ([s3ModeUploadObjectSinglePart()], [s3ModeUploadObjectMultiPart()]), their
    abort, and downloads ([s3ModeDownloadObject()]), for an I/O depth of 1.  Uploads that several
    workers share are in S3SharedUpload.v.

    The AWS SDK and the server behind it are the record [S3Ops] on a state of its own; [S3Laws] is what
    the service documents of multipart uploads: a completion names the parts in ascending order,
    and the object is the concatenation of these parts.  The worker's buffer is not copied: [block off
    n] are the bytes that the modifier of the phase puts into it for the offset [off]. *)

From S2P Require Import Prelude Common Effects CppStrings RandAlgo BlockSizeMix OffsetGen S3UploadStore.
From Stdlib Require Import ZifyBool Sorted.
From Stdlib Require String.

#[local] Open Scope list_scope.
#[local] Open Scope Z_scope.

(** ** Definitions *)

(** What a completion names of a part: its number and the tag from the server. *)
Definition CompletedPart : Type := Z * string.

(** [CompleteMultipartUpload] *)
Inductive CompleteOutcome : Type := CompleteOk | CompleteNotFound | CompleteError.

(** The calls of the S3 client.  Those that transfer data also give the number of bytes that the event
    handler of the request counts. *)
Record S3Ops (Sv : Type) : Type := mkS3Ops {
  s3_create : S3UploadKey -> Sv -> option string * Sv;
  s3_uploadPart : S3UploadKey -> string -> Z -> list Z -> Sv -> (Z * option string) * Sv;
  s3_complete : S3UploadKey -> string -> list CompletedPart -> Sv -> CompleteOutcome * Sv;
  s3_abort : S3UploadKey -> string -> Sv -> bool * Sv;
  s3_put : S3UploadKey -> list Z -> Sv -> (Z * bool) * Sv;
  s3_get : S3UploadKey -> Z -> Z -> Sv -> (Z * option (list Z)) * Sv;   (** first and last offset *)
  s3_interrupted : Sv -> bool;
}.
#[global] Arguments s3_create {Sv} _.
#[global] Arguments s3_uploadPart {Sv} _.
#[global] Arguments s3_complete {Sv} _.
#[global] Arguments s3_abort {Sv} _.
#[global] Arguments s3_put {Sv} _.
#[global] Arguments s3_get {Sv} _.
#[global] Arguments s3_interrupted {Sv} _.

(** Entries of the operations log: the operation and whether it succeeded. *)
Inductive S3Request : Type := OpCreate | OpUploadPart (partNum : Z) | OpComplete (numParts : Z) | OpAbort | OpPut | OpGet (offset : Z).

Record S3Args : Type := mkS3Args {
  s3a_reverse : bool;               (** [getDoReverseSeqOffsets() || getS3ModeDoReverseSeqFallback()] *)
  s3a_ignoreErrors : bool;
  s3a_noMpuCompletion : bool;
  s3a_mpuSizeVariance : Z;
  s3a_ignoreMultipartUpload404 : bool;
  s3a_fileOffset : Z;
}.

(** The state of the worker that the uploads change.  [ws_rand] is [randBlockVarReseed]. *)
Record S3Worker (R D G V Sv : Type) : Type := mkS3Worker {
  ws_gen : G;
  ws_env : Env R D;
  ws_rand : V;
  ws_server : Sv;
  ws_log : list (S3Request * bool);
  ws_numBytesDone : Z;
  ws_numIOPSDone : Z;
  ws_numIOPSSubmitted : Z;
}.
#[global] Arguments mkS3Worker {R D G V Sv}.
#[global] Arguments ws_gen {R D G V Sv}.
#[global] Arguments ws_env {R D G V Sv}.
#[global] Arguments ws_rand {R D G V Sv}.
#[global] Arguments ws_server {R D G V Sv}.
#[global] Arguments ws_log {R D G V Sv}.
#[global] Arguments ws_numBytesDone {R D G V Sv}.
#[global] Arguments ws_numIOPSDone {R D G V Sv}.
#[global] Arguments ws_numIOPSSubmitted {R D G V Sv}.

Section upload.
Context {R D G V Sv : Type} `{!RandAlgo V, !OffsetGenerator R D G}.
Context (ops : S3Ops Sv) (args : S3Args) (block : Z -> Z -> list Z) (post_check : Z -> Z -> result unit).
#[local] Abbreviation worker := (S3Worker R D G V Sv).
#[local] Abbreviation act := (eff worker).

Definition set_ws_gen (g : G) (e : Env R D) (s : worker) : worker :=
  mkS3Worker g e (ws_rand s) (ws_server s) (ws_log s) (ws_numBytesDone s) (ws_numIOPSDone s) (ws_numIOPSSubmitted s).
Definition set_ws_rand (v : V) (s : worker) : worker :=
  mkS3Worker (ws_gen s) (ws_env s) v (ws_server s) (ws_log s) (ws_numBytesDone s) (ws_numIOPSDone s) (ws_numIOPSSubmitted s).

(** A request: the new state of the server, an entry in the log, and the counted bytes. *)
Definition s3_request {A} (op : S3Request) (numBytes : A -> Z) (success : A -> bool) (call : Sv -> A * Sv) : act A := fun s =>
  let '(a, sv) := call (ws_server s) in
  Some (Ok a, mkS3Worker (ws_gen s) (ws_env s) (ws_rand s) sv (ws_log s ++ [(op, success a)]) (ws_numBytesDone s +₆₄ numBytes a)
    (ws_numIOPSDone s) (ws_numIOPSSubmitted s)).

(** The conversion of a part number to the [int] of a request. *)
Definition part_int (z : Z) : Z := (z + 2 ^ 31) `mod` 2 ^ 32 - 2 ^ 31.

Definition is_ok {A} (o : option A) : bool := match o with Some _ => true | None => false end.
Definition complete_ok (o : CompleteOutcome) : bool := match o with CompleteOk => true | _ => false end.

(** The accounting at the end of a block: [numIOPSSubmitted++], [addBytesSubmitted()], [numIOPSDone++]. *)
Definition count_block (blockSize : Z) (s : worker) : worker :=
  mkS3Worker (addBytesSubmitted blockSize (ws_gen s)) (ws_env s) (ws_rand s) (ws_server s) (ws_log s) (ws_numBytesDone s)
    (ws_numIOPSDone s +₆₄ 1) (ws_numIOPSSubmitted s +₆₄ 1).

Definition next_offset : act Z :=
  s ← eff_get id;
  res ← eff_some (getNextOffset (ws_gen s) (ws_env s));
  eff_modify (set_ws_gen res.2.1 res.2.2);;
  mret res.1.

Definition next_size : act Z :=
  s ← eff_get id;
  res ← eff_some (getNextBlockSizeToSubmit (ws_gen s) (ws_env s));
  eff_modify (set_ws_gen (ws_gen s) res.2);;
  mret res.1.

Definition s3ModeAbortMultipartUpload (k : S3UploadKey) (uploadID : string) : act bool :=
  s3_request OpAbort (fun _ => 0) id (s3_abort ops k uploadID).

(** [checkInterruptionRequest()], with what to do before the exception. *)
Definition s3_checkInterruption (cleanup : act unit) : act unit :=
  s ← eff_get id;
  eff_when (s3_interrupted ops (ws_server s)) (cleanup;; eff_throw (WorkerInterruptedException "Received friendly request to interrupt execution.")).

(** The size of a part that is not the last one, with the size variance. *)
Definition vary_size (blockSize : Z) : act Z :=
  s ← eff_get id;
  if truthy (s3a_mpuSizeVariance args) && (blockSize =? getBlockSize (ws_gen s)) then
    let '(r, v) := rand_next (ws_rand s) in
    eff_modify (set_ws_rand v);;
    let randBlockSizeVar := r `mod` s3a_mpuSizeVariance args in
    mret (if randBlockSizeVar <? blockSize then blockSize -₆₄ randBlockSizeVar else blockSize)
  else mret blockSize.

(** One pass of the loop of [s3ModeUploadObjectMultiPart()]: the number of the part and what the
    completion names of it.  A failed part has no tag. *)
Definition upload_part (k : S3UploadKey) (uploadID : string) (partNum : Z) : act (Z * CompletedPart) :=
  currentOffset ← next_offset;
  blockSize ← next_size;
  g ← eff_get ws_gen;
  let currentPartNum := if s3a_reverse args then 1 +₆₄ (currentOffset / getBlockSize g) else partNum +₆₄ 1 in
  blockSize ← vary_size blockSize;
  outcome ← s3_request (OpUploadPart currentPartNum) fst (fun r => is_ok r.2)
    (s3_uploadPart ops k uploadID (part_int currentPartNum) (block currentOffset blockSize));
  s3_checkInterruption (s3ModeAbortMultipartUpload k uploadID;; mret tt);;
  eff_when (negb (is_ok outcome.2))
    (s3ModeAbortMultipartUpload k uploadID;;
     eff_when (negb (s3a_ignoreErrors args)) (eff_throw (WorkerException "Multipart part upload failed. ")));;
  eff_result (post_check blockSize currentOffset);;
  eff_modify (count_block blockSize);;
  mret (currentPartNum, (part_int currentPartNum, default "" outcome.2)).

(** The loop; [fuel] bounds the number of parts. *)
Fixpoint upload_parts (fuel : nat) (k : S3UploadKey) (uploadID : string) (partNum : Z) (parts : list CompletedPart)
    : act (list CompletedPart) :=
  g ← eff_get ws_gen;
  if getNumBytesLeftToSubmit g =? 0 then mret parts
  else
    match fuel with
    | O => eff_stuck
    | S fuel =>
        part ← upload_part k uploadID partNum;
        upload_parts fuel k uploadID part.1 (parts ++ [part.2])
    end.

(** The end of an upload: the completion. *)
Definition complete_upload (k : S3UploadKey) (uploadID : string) (parts : list CompletedPart) : act unit :=
  outcome ← s3_request (OpComplete (Z.of_nat (length parts))) (fun _ => 0) complete_ok (s3_complete ops k uploadID parts);
  match outcome with
  | CompleteOk => mret tt
  | _ =>
      eff_when (negb (s3a_ignoreMultipartUpload404 args && match outcome with CompleteNotFound => true | _ => false end))
        (s3ModeAbortMultipartUpload k uploadID;;
         eff_when (negb (s3a_ignoreErrors args)) (eff_throw (WorkerException "Multipart upload completion failed. ")))
  end.

Definition s3ModeUploadObjectMultiPart (fuel : nat) (k : S3UploadKey) : act unit :=
  created ← s3_request OpCreate (fun _ => 0) is_ok (s3_create ops k);
  eff_when (negb (is_ok created) && negb (s3a_ignoreErrors args)) (eff_throw (WorkerException "Multipart upload creation failed."));;
  let uploadID := default "" created in
  parts ← upload_parts fuel k uploadID 0 [];
  if s3a_noMpuCompletion args then mret tt
  else complete_upload k uploadID (if s3a_reverse args then reverse parts else parts).

Definition s3ModeUploadObjectSinglePart (k : S3UploadKey) : act unit :=
  currentOffset ← next_offset;
  blockSize ← next_size;
  outcome ← s3_request OpPut fst snd (s3_put ops k (if truthy blockSize then block currentOffset blockSize else []));
  s3_checkInterruption (mret tt);;
  eff_when (negb outcome.2 && negb (s3a_ignoreErrors args)) (eff_throw (WorkerException "Object upload failed."));;
  eff_when (truthy blockSize) (eff_result (post_check blockSize currentOffset));;
  eff_modify (count_block blockSize).

(** One pass of the loop of [s3ModeDownloadObject()]; [read_check] is the check of the buffer, to which
    the bytes of the answer have been written. *)
Definition download_block (read_check : list Z -> Z -> Z -> result unit) (k : S3UploadKey) : act unit :=
  off ← next_offset;
  let currentOffset := off +₆₄ s3a_fileOffset args in
  blockSize ← next_size;
  outcome ← s3_request (OpGet currentOffset) fst (fun r => is_ok r.2)
    (s3_get ops k currentOffset ((currentOffset +₆₄ blockSize) -₆₄ 1));
  s3_checkInterruption (mret tt);;
  eff_when (negb (is_ok outcome.2) && negb (s3a_ignoreErrors args)) (eff_throw (WorkerException "Object download failed."));;
  let data := default [] outcome.2 in
  eff_when ((Z.of_nat (length data) <? blockSize) && negb (s3a_ignoreErrors args)) (eff_throw (WorkerException "Object too small. "));;
  eff_result (read_check data blockSize currentOffset);;
  eff_modify (count_block blockSize).

Fixpoint s3ModeDownloadObject (read_check : list Z -> Z -> Z -> result unit) (fuel : nat) (k : S3UploadKey) : act unit :=
  g ← eff_get ws_gen;
  if getNumBytesLeftToSubmit g =? 0 then mret tt
  else
    match fuel with
    | O => eff_stuck
    | S fuel => download_block read_check k;; s3ModeDownloadObject read_check fuel k
    end.
End upload.

(** ** Every upload is completed or aborted *)

Section cleanup.
Context {R D G V Sv : Type} `{!RandAlgo V, !OffsetGenerator R D G}.
Context (ops : S3Ops Sv) (args : S3Args) (block : Z -> Z -> list Z) (post_check : Z -> Z -> result unit).
Hypothesis post_check_ok : forall n off, post_check n off = Ok tt.
#[local] Abbreviation worker := (S3Worker R D G V Sv).

(** The log only grows. *)
Definition log_grows (s s' : worker) : Prop := exists new, ws_log s' = ws_log s ++ new.

#[local] Instance log_grows_preorder : PreOrder log_grows.
Proof.
  split; [intros s; exists []; by rewrite app_nil_r|]. intros s1 s2 s3 [n1 H1] [n2 H2]. exists (n1 ++ n2). by rewrite H2, H1, app_assoc.
Qed.

(** The last request was the abort of the upload. *)
Definition aborted (s s' : worker) : Prop := exists new b, ws_log s' = ws_log s ++ new ++ [(OpAbort, b)].

Lemma aborted_after s1 s2 s3 : log_grows s1 s2 -> aborted s2 s3 -> aborted s1 s3.
Proof. intros [n1 H1] (n2 & b & H2). exists (n1 ++ n2), b. by rewrite H2, H1, !app_assoc. Qed.

Lemma request_logs {A} op nb success (call : Sv -> A * Sv) (s : worker) :
  wpp (s3_request op nb success call) s (post (fun a s' => ws_log s' = ws_log s ++ [(op, success a)]) (fun _ _ => False)).
Proof. intros r s' H. unfold s3_request in H. destruct (call _) as [a sv]. by injection H as <- <-. Qed.

Lemma abort_aborts k uid (s : worker) :
  wpp (s3ModeAbortMultipartUpload ops k uid) s (post (fun _ s' => aborted s s') (fun _ _ => False)).
Proof. eapply wpp_mono; [apply request_logs|]. intros [a|ex] s' H; cbn [post] in *; [|done]. by exists [], a. Qed.

(** A pass that ends with an exception has aborted the upload. *)
Lemma upload_part_cleanup k uid n (s : worker) :
  wpp (upload_part ops args block post_check k uid n) s (post (fun _ s' => log_grows s s') (fun _ s' => aborted s s')).
Proof.
  unfold upload_part, next_offset, next_size.
  apply wpp_bind, wpp_bind, wpp_get. cbn [post id]. apply wpp_bind, wpp_some. intros r1 _. cbn [post]. apply wpp_bind, wpp_modify. cbn [post].
  apply wpp_ret. cbn [post]. apply wpp_bind, wpp_bind, wpp_get. cbn [post id]. apply wpp_bind, wpp_some. intros r2 _. cbn [post].
  apply wpp_bind, wpp_modify. cbn [post]. apply wpp_ret. cbn [post]. apply wpp_bind, wpp_get. cbn [post]. cbv zeta.
  apply wpp_bind. eapply wpp_mono with (Q := post (fun _ s1 => ws_log s1 = ws_log s) (fun _ _ => False)).
  { unfold vary_size. apply wpp_bind, wpp_get. cbn [post id]. destruct (_ && _); [|by apply wpp_ret]. destruct (rand_next _) as [x v].
    apply wpp_bind, wpp_modify. cbn [post]. cbv zeta. by apply wpp_ret. }
  intros [sz|ex] s1 H1; cbn [post] in *; [|done]. assert (log_grows s s1) as G1 by (exists []; by rewrite app_nil_r).
  apply wpp_bind. eapply wpp_mono; [apply request_logs|]. intros [out|ex] s2 H2; cbn [post] in *; [|done].
  assert (log_grows s s2) as G2 by (etransitivity; [done|by eexists]). clear H1 H2 G1 s1.
  apply wpp_bind. eapply wpp_mono with (Q := post (fun _ s3 => log_grows s s3) (fun _ s3 => aborted s s3)).
  { unfold s3_checkInterruption. apply wpp_bind, wpp_get. cbn [post]. apply wpp_when; [intros _|done].
    apply wpp_bind, wpp_bind. eapply wpp_mono; [apply abort_aborts|]. intros [b|ex] s3 H3; cbn [post] in *; [|done].
    apply wpp_ret. cbn [post]. apply wpp_throw. by eapply aborted_after. }
  intros [[]|ex] s3 H3; cbn [post] in *; [|done].
  apply wpp_bind. eapply wpp_mono with (Q := post (fun _ s4 => log_grows s s4) (fun _ s4 => aborted s s4)).
  { apply wpp_when; [intros _|done]. apply wpp_bind. eapply wpp_mono; [apply abort_aborts|]. intros [b|ex] s4 H4; cbn [post] in *; [|done].
    assert (aborted s s4) as Hab by (by eapply aborted_after). apply wpp_when; intros _; [by apply wpp_throw|]. cbn [post].
    destruct Hab as (new & b' & Hl). by eexists. }
  intros [[]|ex] s4 H4; cbn [post] in *; [|done]. apply wpp_bind, wpp_result. rewrite post_check_ok. cbn [post].
  apply wpp_bind, wpp_modify. cbn [post]. by apply wpp_ret.
Qed.

Lemma upload_parts_cleanup fuel k uid n parts (s : worker) :
  wpp (upload_parts ops args block post_check fuel k uid n parts) s (post (fun _ s' => log_grows s s') (fun _ s' => aborted s s')).
Proof.
  revert n parts s. induction fuel as [|fuel IH]; intros n parts s; cbn [upload_parts]; apply wpp_bind, wpp_get; cbn [post];
    (destruct (_ =? 0); [apply wpp_ret; cbn [post]; reflexivity|]); [by intros r s'|].
  apply wpp_bind. eapply wpp_mono; [apply upload_part_cleanup|]. intros [part|ex] s1 H1; cbn [post] in *; [|done].
  eapply wpp_mono; [apply IH|]. intros [ps|ex] s2 H2; cbn [post] in *; [by transitivity s1|by eapply aborted_after].
Qed.

(** The last request was a completion with this result. *)
Definition completed (result : bool) (s s' : worker) : Prop := exists new n, ws_log s' = ws_log s ++ new ++ [(OpComplete n, result)].

Lemma completed_after b s1 s2 s3 : log_grows s1 s2 -> completed b s2 s3 -> completed b s1 s3.
Proof. intros [n1 H1] (n2 & n & H2). exists (n1 ++ n2), n. by rewrite H2, H1, !app_assoc. Qed.

Lemma complete_upload_cleanup k uid parts (s : worker) :
  wpp (complete_upload ops args k uid parts) s
    (post (fun _ s' => completed true s s' \/ (s3a_ignoreMultipartUpload404 args = true /\ completed false s s')
             \/ (s3a_ignoreErrors args = true /\ aborted s s'))
       (fun _ s' => aborted s s')).
Proof.
  unfold complete_upload. apply wpp_bind. eapply wpp_mono; [apply request_logs|]. intros [out|ex] s1 H1; cbn [post] in *; [|done].
  assert (completed (complete_ok out) s s1) as Hc by (by exists [], (Z.of_nat (length parts))).
  destruct out; cbn [complete_ok] in Hc; [by apply wpp_ret; left|..];
    (apply wpp_when; intros Hb; [|cbn [post]; right; left; split; [by destruct (s3a_ignoreMultipartUpload404 args)|done]]);
    (apply wpp_bind; eapply wpp_mono; [apply abort_aborts|]; intros [b|ex] s2 H2; cbn [post] in *; [|done];
     assert (aborted s s2) as Hab by (eapply aborted_after; [by eexists|done]);
     apply wpp_when; intros He; [by apply wpp_throw|]; cbn [post]; right; right; split; [by destruct (s3a_ignoreErrors args)|done]).
Qed.
End cleanup.

(** ** The service *)

(** The latest upload of a part. *)
Fixpoint part_lookup (num : Z) (ps : list (Z * (string * list Z))) : option (string * list Z) :=
  match ps with
  | [] => None
  | (n, p) :: ps => if n =? num then Some p else part_lookup num ps
  end.

(** A service that answers: parts have the numbers from 1 to 10000, a completion names parts in
    ascending order with their tags, and the object is what these parts are, one after the other.  A
    range of an object is given by its first and last offset. *)
Class S3Laws {Sv : Type} (ops : S3Ops Sv) : Type := {
  sl_parts : Sv -> S3UploadKey -> string -> option (list (Z * (string * list Z)));
  sl_object : Sv -> S3UploadKey -> option (list Z);
  sl_calm : forall sv, s3_interrupted ops sv = false;
  sl_create : forall k sv, exists uid sv', s3_create ops k sv = (Some uid, sv') /\ sl_parts sv' k uid = Some [];
  sl_upload : forall k uid num data sv ps, sl_parts sv k uid = Some ps -> 1 <= num <= 10000 ->
    exists tag sv', s3_uploadPart ops k uid num data sv = ((Z.of_nat (length data), Some tag), sv')
      /\ sl_parts sv' k uid = Some ((num, (tag, data)) :: ps);
  sl_complete : forall k uid cl datas sv ps, sl_parts sv k uid = Some ps -> cl <> [] -> StronglySorted Z.lt (fst <$> cl) ->
    Forall2 (fun c data => part_lookup c.1 ps = Some (c.2, data)) cl datas ->
    exists sv', s3_complete ops k uid cl sv = (CompleteOk, sv') /\ sl_object sv' k = Some (concat datas);
  sl_get : forall k first last sv data, sl_object sv k = Some data -> 0 <= first <= last -> last < Z.of_nat (length data) ->
    exists sv', s3_get ops k first last sv
        = ((last - first + 1, Some (take (Z.to_nat (last - first + 1)) (drop (Z.to_nat first) data))), sv')
      /\ sl_object sv' k = Some data;
}.

(** ** Uploads of whole objects *)

Section reliable.
Context {R D G V Sv : Type} `{!RandAlgo R, !RandAlgo D, !RandAlgo V, !OffsetGenerator R D G}.
Context (ops : S3Ops Sv) `{!S3Laws ops} (args : S3Args) (content : Z -> Z) (post_check : Z -> Z -> result unit).
Hypothesis post_check_ok : forall n off, post_check n off = Ok tt.
#[local] Abbreviation worker := (S3Worker R D G V Sv).

(** The buffer holds the content at its offset. *)
Definition block_of (off n : Z) : list Z := content <$> seqZ off n.

Lemma block_length off n : 0 <= n -> Z.of_nat (length (block_of off n)) = n.
Proof. intros Hn. unfold block_of. rewrite length_fmap, length_seqZ. lia. Qed.

(** The offset and the size of a part, and the sources after it. *)
Definition draw_part (g : G) (e : Env R D) (v : V) : option (Z * Z * (G * Env R D * V)) :=
  '(off, (g, e)) ← getNextOffset g e;
  '(size, e) ← getNextBlockSizeToSubmit g e;
  let '(size, v) :=
    if truthy (s3a_mpuSizeVariance args) && (size =? getBlockSize g) then
      let '(r, v) := rand_next v in
      let var := r `mod` s3a_mpuSizeVariance args in ((if var <? size then size -₆₄ var else size), v)
    else (size, v) in
  Some (off, size, (addBytesSubmitted size g, e, v)).

Fixpoint draw_parts (fuel : nat) (g : G) (e : Env R D) (v : V) : option (list (Z * Z) * (G * Env R D * V)) :=
  if getNumBytesLeftToSubmit g =? 0 then Some ([], (g, e, v))
  else
    match fuel with
    | O => None
    | S fuel =>
        '(off, size, (g, e, v)) ← draw_part g e v;
        '(ios, res) ← draw_parts fuel g e v;
        Some ((off, size) :: ios, res)
    end.

(** The number of a part. *)
Definition part_number (bs partNum off : Z) : Z := if s3a_reverse args then 1 +₆₄ (off / bs) else partNum +₆₄ 1.

Lemma part_int_small n : 0 <= n <= 10000 -> part_int n = n.
Proof. intros Hn. unfold part_int. rewrite Z.mod_small; lia. Qed.

(** One pass on a service that answers. *)
Lemma upload_part_ok k uid n (s : worker) ps off size g e v :
  sl_parts (ws_server s) k uid = Some ps ->
  draw_part (ws_gen s) (ws_env s) (ws_rand s) = Some (off, size, (g, e, v)) -> 0 <= size ->
  (forall g1 e1, getNextOffset (ws_gen s) (ws_env s) = Some (off, (g1, e1)) -> getBlockSize g1 = getBlockSize (ws_gen s)) ->
  let num := part_number (getBlockSize (ws_gen s)) n off in
  1 <= num <= 10000 ->
  exists tag sv lg,
    upload_part ops args block_of post_check k uid n s
    = Some (Ok (num, (num, tag)), mkS3Worker g e v sv lg (ws_numBytesDone s +₆₄ size) (ws_numIOPSDone s +₆₄ 1) (ws_numIOPSSubmitted s +₆₄ 1))
    /\ sl_parts sv k uid = Some ((num, (tag, block_of off size)) :: ps).
Proof.
  intros Hps Hdraw Hsz Hbs num Hnum. unfold draw_part in Hdraw.
  destruct (getNextOffset (ws_gen s) (ws_env s)) as [[off1 [g1 e1]]|] eqn:Ho; [|done]. cbn [mbind option_bind] in Hdraw.
  destruct (getNextBlockSizeToSubmit g1 e1) as [[size1 e2]|] eqn:Hz; [|done]. cbn [mbind option_bind] in Hdraw.
  destruct (if truthy (s3a_mpuSizeVariance args) && (size1 =? getBlockSize g1) then _ else _) as [size2 v2] eqn:Hv.
  injection Hdraw as -> -> <- <- <-. specialize (Hbs g1 e1 eq_refl).
  destruct (sl_upload k uid num (block_of off size) (ws_server s) ps Hps Hnum) as (tag & sv & Hup & Hps').
  exists tag, sv, (ws_log s ++ [(OpUploadPart num, true)]). split; [|done].
  unfold upload_part, next_offset, next_size, vary_size. unfold mbind, eff_bind, eff_get, eff_some, eff_modify, mret, eff_ret. cbn [id].
  rewrite Ho. cbn. rewrite Hz. cbn. rewrite Hbs. fold (part_number (getBlockSize (ws_gen s)) n off). fold num.
  rewrite Hbs in Hv. set (s0 := set_ws_gen g1 e2 (set_ws_gen g1 e1 s)).
  match goal with |- match ?m s0 with _ => _ end = _ => assert (m s0 = Some (Ok size, set_ws_rand v2 s0)) as -> end.
  { destruct (truthy _ && _); [destruct (rand_next (ws_rand s)) as [x v3]|]; injection Hv as <- <-; [done|]. by destruct s. }
  unfold s3_request. cbn [ws_server set_ws_rand set_ws_gen s0]. rewrite part_int_small, Hup by lia.
  unfold s3_checkInterruption, mbind, eff_bind, eff_get. cbn [id ws_server]. rewrite sl_calm. cbn. rewrite post_check_ok. cbn.
  rewrite block_length by done. done.
Qed.

Hypothesis next_keeps_size : forall g e off g1 e1, getNextOffset g e = Some (off, (g1, e1)) -> getBlockSize g1 = getBlockSize g.
Hypothesis add_keeps_size : forall n g, getBlockSize (addBytesSubmitted n g) = getBlockSize g.

Fixpoint part_numbers (bs n : Z) (ios : list (Z * Z)) : list Z :=
  match ios with
  | [] => []
  | io :: ios => let num := part_number bs n io.1 in num :: part_numbers bs num ios
  end.

Lemma part_numbers_length bs n ios : length (part_numbers bs n ios) = length ios.
Proof. revert n. induction ios as [|io ios IH]; intros n; [done|]. cbn. by rewrite IH. Qed.

Lemma draw_part_size g e v off size g' e' v' : draw_part g e v = Some (off, size, (g', e', v')) -> getBlockSize g' = getBlockSize g.
Proof.
  unfold draw_part. destruct (getNextOffset g e) as [[off1 [g1 e1]]|] eqn:Ho; [|done]. cbn [mbind option_bind].
  destruct (getNextBlockSizeToSubmit g1 e1) as [[size1 e2]|]; [|done]. cbn [mbind option_bind].
  destruct (if truthy _ && _ then _ else _) as [size2 v2]. intros [= <- <- <- <- <-]. rewrite add_keeps_size. by eapply next_keeps_size.
Qed.

(** The loop on a service that answers. *)
Lemma upload_parts_ok fuel k uid n cl (s : worker) ps ios g e v :
  sl_parts (ws_server s) k uid = Some ps ->
  draw_parts fuel (ws_gen s) (ws_env s) (ws_rand s) = Some (ios, (g, e, v)) -> Forall (fun io => 0 <= io.2) ios ->
  let nums := part_numbers (getBlockSize (ws_gen s)) n ios in
  Forall (fun num => 1 <= num <= 10000) nums ->
  0 <= ws_numBytesDone s < TWO64 -> 0 <= ws_numIOPSDone s < TWO64 -> 0 <= ws_numIOPSSubmitted s < TWO64 ->
  exists tags sv lg, length tags = length ios
    /\ upload_parts ops args block_of post_check fuel k uid n cl s
       = Some (Ok (cl ++ zip nums tags), mkS3Worker g e v sv lg (ws_numBytesDone s +₆₄ Zsum (snd <$> ios))
           (ws_numIOPSDone s +₆₄ Z.of_nat (length ios)) (ws_numIOPSSubmitted s +₆₄ Z.of_nat (length ios)))
    /\ sl_parts sv k uid = Some (reverse (zip nums (zip tags ((fun io => block_of io.1 io.2) <$> ios))) ++ ps).
Proof.
  revert n cl s ps ios. induction fuel as [|fuel IH]; intros n cl s ps ios Hps Hdraw Hsz nums Hnums Hb Hi Hs; cbn [draw_parts upload_parts] in *;
    unfold mbind, eff_bind, eff_get; destruct (_ =? 0) eqn:Hz.
  1, 3: injection Hdraw as <- <- <- <-; exists [], (ws_server s), (ws_log s); split; [done|]; cbn; rewrite app_nil_r, !Z.add_0_r, !u64_small by lia;
    by destruct s.
  { done. }
  destruct (draw_part _ _ _) as [[[off size] [[g1 e1] v1]]|] eqn:Hd; [|done]. cbn [mbind option_bind] in Hdraw.
  destruct (draw_parts fuel g1 e1 v1) as [[ios1 res]|] eqn:Hds; [|done]. injection Hdraw as <- ->.
  apply Forall_cons in Hsz as [Hsz1 Hsz]. cbn [snd] in Hsz1. cbn [part_numbers fst] in nums. subst nums.
  apply Forall_cons in Hnums as [Hnum Hnums].
  destruct (upload_part_ok k uid n s ps off size g1 e1 v1 Hps Hd Hsz1) as (tag & sv1 & lg1 & -> & Hps1); [by intros; eapply next_keeps_size|done|].
  set (num := part_number (getBlockSize (ws_gen s)) n off) in *. pose proof (draw_part_size _ _ _ _ _ _ _ _ Hd) as Hbs.
  match goal with |- context [upload_parts _ _ _ _ fuel k uid _ _ ?s1'] => set (s1 := s1') end.
  destruct (IH num (cl ++ [(num, tag)]) s1 _ ios1 Hps1 Hds Hsz) as (tags & sv & lg & Hlen & Hrun & Hps2).
  { cbn. by rewrite Hbs. }
  1-3: apply u64_range.
  exists (tag :: tags), sv, lg. split; [cbn; by rewrite Hlen|]. cbn [fst snd]. cbn [ws_gen s1] in *. rewrite Hbs in *. split.
  - etransitivity; [exact Hrun|]. cbn [zip zip_with fmap list_fmap snd length ws_numBytesDone ws_numIOPSDone ws_numIOPSSubmitted s1].
    rewrite <- app_assoc. cbn [app]. rewrite Zsum_cons, Nat2Z.inj_succ. rewrite !u64_add_mod_l. do 3 f_equal; f_equal; lia.
  - rewrite Hps2. cbn [fmap list_fmap zip zip_with fst snd]. by rewrite reverse_cons, <- app_assoc.
Qed.

(** *** Completion *)

Lemma part_lookup_elem num p (l rest : list (Z * (string * list Z))) :
  NoDup (fst <$> l) -> (num, p) ∈ l -> part_lookup num (l ++ rest) = Some p.
Proof.
  induction l as [|[n q] l IH]; intros Hnd Hin; [by apply not_elem_of_nil in Hin|]. cbn [fmap list_fmap fst] in Hnd. apply NoDup_cons in Hnd as [Hn Hnd].
  cbn. apply elem_of_cons in Hin as [[= -> ->]|Hin]; [by rewrite Z.eqb_refl|]. destruct (Z.eqb_spec n num) as [->|_]; [|by apply IH].
  destruct Hn. apply list_elem_of_fmap. by exists (num, p).
Qed.

Lemma sorted_NoDup (l : list Z) : StronglySorted Z.lt l -> NoDup l.
Proof.
  induction 1 as [|x l Hs IH Hall]; [constructor|]. apply NoDup_cons. split; [|done]. intros Hin.
  rewrite Forall_forall in Hall. specialize (Hall x Hin). lia.
Qed.

Lemma contiguous_content off ios : Forall (fun io => 0 <= io.2) ios -> contiguous off ios ->
  concat ((fun io => block_of io.1 io.2) <$> ios) = content <$> seqZ off (Zsum (snd <$> ios)).
Proof.
  intros Hsz. revert off. induction Hsz as [|[o n] ios Hn Hsz IH]; intros off Hc; [done|]. cbn in Hc, Hn. destruct Hc as [-> Hc].
  cbn [fmap list_fmap concat fst snd]. rewrite Zsum_cons, seqZ_app, fmap_app by (first [lia|apply Zsum_nonneg; by apply Forall_fmap]).
  by rewrite <- IH.
Qed.

Lemma zip_matches (nums : list Z) tags datas (ps : list (Z * (string * list Z))) :
  length tags = length nums -> length datas = length nums -> NoDup nums ->
  Forall2 (fun c data => part_lookup c.1 (reverse (zip nums (zip tags datas)) ++ ps) = Some (c.2, data)) (zip nums tags) datas.
Proof.
  intros Ht Hd Hnd. apply Forall2_same_length_lookup_2; [rewrite length_zip_with; lia|]. intros i [num tag] data Hc Hdata.
  apply lookup_zip_with_Some in Hc as (n & t & [= <- <-] & Hn & Htag). cbn [fst snd]. apply part_lookup_elem.
  - rewrite fmap_reverse, fst_zip by (rewrite length_zip_with; lia). by rewrite reverse_Permutation.
  - rewrite reverse_Permutation. apply list_elem_of_lookup. exists i. apply lookup_zip_with_Some. exists num, (tag, data). split; [done|]. split; [done|].
    apply lookup_zip_with_Some. by exists tag, data.
Qed.

(** The order of a completion. *)
Definition ordered {A : Type} (l : list A) : list A := if s3a_reverse args then reverse l else l.

(** A multipart upload on a service that answers, with parts in ascending order. *)
Lemma multipart_ok fuel k (s : worker) ios g e v :
  s3a_noMpuCompletion args = false ->
  draw_parts fuel (ws_gen s) (ws_env s) (ws_rand s) = Some (ios, (g, e, v)) -> ios <> [] -> Forall (fun io => 0 <= io.2) ios ->
  let nums := part_numbers (getBlockSize (ws_gen s)) 0 ios in
  Forall (fun num => 1 <= num <= 10000) nums -> StronglySorted Z.lt (ordered nums) -> contiguous 0 (ordered ios) ->
  0 <= ws_numBytesDone s < TWO64 -> 0 <= ws_numIOPSDone s < TWO64 -> 0 <= ws_numIOPSSubmitted s < TWO64 ->
  exists s', s3ModeUploadObjectMultiPart ops args block_of post_check fuel k s = Some (Ok tt, s')
    /\ sl_object (ws_server s') k = Some (content <$> seqZ 0 (Zsum (snd <$> ios)))
    /\ ws_numBytesDone s' = ws_numBytesDone s +₆₄ Zsum (snd <$> ios)
    /\ ws_numIOPSDone s' = ws_numIOPSDone s +₆₄ Z.of_nat (length ios).
Proof.
  intros Hno Hdraw Hne Hsz nums Hnums Hsort Hcont Hb Hi Hs. unfold s3ModeUploadObjectMultiPart, mbind, eff_bind. unfold s3_request at 1.
  destruct (sl_create k (ws_server s)) as (uid & sv & -> & Hps). cbn -[upload_parts].
  match goal with |- context [upload_parts _ _ _ _ fuel k uid 0 [] ?s1'] => set (s1 := s1') end.
  destruct (upload_parts_ok fuel k uid 0 [] s1 [] ios g e v Hps Hdraw Hsz Hnums (u64_range _) Hi Hs) as (tags & sv2 & lg & Hlen & -> & Hps2).
  rewrite Hno. cbn [app]. cbn [ws_gen s1] in Hps2 |- *. fold nums in Hps2 |- *.
  set (datas := (fun io => block_of io.1 io.2) <$> ios) in *.
  assert (length nums = length ios) as Hln by apply part_numbers_length. assert (length datas = length ios) as Hld by apply length_fmap.
  assert (NoDup nums) as Hnd by (apply sorted_NoDup in Hsort; unfold ordered in Hsort; destruct (s3a_reverse args); [by rewrite reverse_Permutation in Hsort|done]).
  pose proof (zip_matches nums tags datas [] ltac:(lia) ltac:(lia) Hnd) as Hm. rewrite app_nil_r in Hm, Hps2.
  match goal with |- context [complete_upload _ _ _ _ ?l] => set (cl := l) end. assert (cl = ordered (zip nums tags)) as Hcl by done.
  unfold complete_upload, mbind, eff_bind, s3_request. cbn [ws_server].
  destruct (sl_complete k uid cl (ordered datas) sv2 _ Hps2) as (sv3 & -> & Hobj); rewrite ?Hcl; clearbody cl; clear Hcl cl.
  - assert (length ios <> 0%nat) by (intros H1; by apply nil_length_inv in H1). intros H0. apply (f_equal length) in H0. unfold ordered in H0.
    destruct (s3a_reverse args); rewrite ?length_reverse, length_zip_with in H0; cbn in H0; lia.
  - replace (fst <$> ordered (zip nums tags)) with (ordered nums); [done|]. unfold ordered.
    destruct (s3a_reverse args); rewrite ?fmap_reverse, fst_zip by lia; done.
  - unfold ordered. destruct (s3a_reverse args); [by apply Forall2_reverse|done].
  - eexists. split; [done|]. cbn [ws_server ws_numBytesDone ws_numIOPSDone s1]. split; [|split].
    + rewrite Hobj. f_equal. unfold ordered in *. destruct (s3a_reverse args).
      * unfold datas. rewrite <- fmap_reverse. rewrite (contiguous_content 0) by (done || by apply Forall_reverse).
        do 2 f_equal. rewrite fmap_reverse. apply Zsum_perm. by rewrite reverse_Permutation.
      * by apply contiguous_content.
    + rewrite !Z.add_0_r, u64_idemp. by rewrite (u64_small (ws_numBytesDone s)) by lia.
    + done.
Qed.
End reliable.

(** ** The parts of an object *)

(** The smallest size of a part other than the last. *)
Definition min_part (args : S3Args) (mix : BlockSizeMix) : Z :=
  Z.min (minSize mix) (Z.max 1 (maxSize mix - s3a_mpuSizeVariance args + 1)).

Section draws.
Context {R D V : Type} `{!RandAlgo R, !RandAlgo D, !RandAlgo V} (args : S3Args).

(** With the size variance a part becomes smaller, but not empty. *)
Lemma vary_bounds n (v : V) : 0 < n < TWO64 -> 0 < s3a_mpuSizeVariance args -> rand_ok v ->
  let var := (rand_next v).1 `mod` s3a_mpuSizeVariance args in
  let n' := if var <? n then n -₆₄ var else n in
  Z.max 1 (n - s3a_mpuSizeVariance args + 1) <= n' <= n.
Proof.
  intros Hn Hvar Hv var n'. pose proof (Z.mod_pos_bound (rand_next v).1 (s3a_mpuSizeVariance args) Hvar) as Hm. fold var in Hm.
  subst n'. destruct (Z.ltb_spec var n); [rewrite u64_small by lia|]; lia.
Qed.

(** A part of sequential access. *)
Lemma seq_draw_part total left cur mix (e : Env R D) (v : V) :
  mix_ok mix -> env_ok e -> rand_ok v -> 0 <= s3a_mpuSizeVariance args -> 0 < left -> 0 <= cur -> cur + left < TWO64 ->
  exists n e' v', draw_part args (mkSeq total left 0 cur mix (maxSize mix)) e v
      = Some (cur, n, (mkSeq total (left - n) 0 (cur + n) mix (maxSize mix), e', v'))
    /\ env_ok e' /\ rand_ok v' /\ 0 < n <= left /\ (min_part args mix <= n \/ n = left).
Proof.
  intros Hmix He Hv Hvar Hl Hc Hb. unfold draw_part. cbn [getNextOffset seq_generator mbind option_bind getNextBlockSizeToSubmit seq_currentOffset seq_numBytesLeft seq_blockSizeMix getBlockSize seq_maxBlockSize].
  pose proof (mix_ok_sizes _ Hmix) as Hms. destruct He as [Ha Hd]. unfold mix_next_submit.
  destruct (getNextSize_ok mix (env_algo e) Hmix Ha) as (s & r' & -> & Hs & Hs' & Hr'). cbn [mbind option_bind].
  destruct (if truthy (s3a_mpuSizeVariance args) && _ then _ else _) as [n v'] eqn:Hif. cbn [getBlockSize seq_generator seq_maxBlockSize] in Hif.
  assert (rand_ok v' /\ 0 < n <= left /\ (min_part args mix <= n \/ n = left)) as (Hv' & Hn & Hmin).
  { unfold min_part. destruct (truthy (s3a_mpuSizeVariance args) && (Z.min left s =? maxSize mix)) eqn:E.
    - unfold truthy in E. pose proof (vary_bounds (Z.min left s) v ltac:(lia) ltac:(lia) Hv) as Hvb. pose proof (rand_next_ok _ Hv).
      destruct (rand_next v) as [x v1]. cbn [fst snd] in *. injection Hif as <- <-. split; [done|]. lia.
    - injection Hif as <- <-. split; [done|]. lia. }
  exists n, (mkEnv r' (env_device e)), v'. split; [|split; [by split|done]].
  cbn [addBytesSubmitted seq_generator seq_numBytesTotal seq_numBytesLeft seq_startOffset seq_currentOffset seq_blockSizeMix seq_maxBlockSize].
  rewrite !u64_small by lia. done.
Qed.

Lemma seq_draws fuel total left cur mix (e : Env R D) (v : V) :
  mix_ok mix -> env_ok e -> rand_ok v -> 0 <= s3a_mpuSizeVariance args -> 0 <= left -> 0 <= cur -> cur + left < TWO64 -> left <= Z.of_nat fuel ->
  exists ios g e' v', draw_parts args fuel (mkSeq total left 0 cur mix (maxSize mix)) e v = Some (ios, (g, e', v'))
    /\ contiguous cur ios /\ Zsum (snd <$> ios) = left /\ Forall (fun io => 0 <= io.2) ios
    /\ (ios = [] -> left = 0) /\ Z.of_nat (length ios) <= tile_count left (min_part args mix).
Proof.
  intros Hmix He Hv Hvar. assert (0 < min_part args mix) as Hmp by (pose proof (mix_ok_sizes _ Hmix); unfold min_part; lia).
  revert left cur e v He Hv. induction fuel as [|fuel IH]; intros left cur e v He Hv Hl Hc Hb Hf;
    cbn [draw_parts getNumBytesLeftToSubmit seq_generator seq_numBytesLeft]; destruct (Z.eqb_spec left 0) as [->|Hne].
  1, 3: exists []; eexists _, _, _; split; [done|]; split_and!; try done; apply tile_count_spec; lia.
  { lia. }
  destruct (seq_draw_part total left cur mix e v) as (n & e1 & v1 & -> & He1 & Hv1 & Hn & Hmin); [done..|lia|lia|lia|]. cbn [mbind option_bind].
  destruct (IH (left - n) (cur + n) e1 v1) as (ios & g & e2 & v2 & -> & Hcont & Hsum & Hsz & _ & Hlen); [done|done|lia..|]. cbn [mbind option_bind].
  exists ((cur, n) :: ios), g, e2, v2. split; [done|]. split; [done|]. split; [rewrite fmap_cons, Zsum_cons; cbn; lia|].
  split; [constructor; [cbn; lia|done]|]. split; [done|]. cbn [length]. rewrite Nat2Z.inj_succ.
  destruct (tile_count_spec left (min_part args mix)) as (_ & H1 & H2); [lia..|].
  destruct (tile_count_spec (left - n) (min_part args mix)) as (H0 & H3 & H4); [lia..|].
  set (m := min_part args mix) in *. set (t := tile_count left m) in *. set (t' := tile_count (left - n) m) in *.
  destruct Hmin as [Hmin| ->].
  - assert (t' * m < t * m) as Hlt by lia. apply Z.mul_lt_mono_pos_r in Hlt; lia.
  - assert (0 < t * m) as Hlt by lia. apply Z.lt_0_mul in Hlt. lia.
Qed.
End draws.

(** Without variance the parts are the accesses of the generator. *)
Lemma draws_drain {R D V G} `{!RandAlgo V, !OffsetGenerator R D G} args fuel (g : G) (e : Env R D) (v : V) ios g' e' :
  s3a_mpuSizeVariance args = 0 -> og_drain fuel g e = Some (ios, (g', e')) -> draw_parts args fuel g e v = Some (ios, (g', e', v)).
Proof.
  intros Hvar. revert g e ios. induction fuel as [|fuel IH]; intros g e ios; cbn [og_drain draw_parts]; (destruct (_ =? 0); [by intros [= <- <- <-]|]); [done|].
  unfold draw_part. destruct (getNextOffset g e) as [[off [g1 e1]]|]; [|done]. cbn [mbind option_bind].
  destruct (getNextBlockSizeToSubmit g1 e1) as [[size e2]|]; [|done]. cbn [mbind option_bind]. rewrite Hvar. cbn [truthy Z.eqb negb andb].
  destruct (og_drain fuel _ e2) as [[ios1 [g2 e3]]|] eqn:Hd; [|done]. cbn [mbind option_bind]. intros [= <- <- <-]. by rewrite (IH _ _ _ Hd).
Qed.

Lemma seqZ_sorted a n : StronglySorted Z.lt (seqZ a n).
Proof.
  unfold seqZ. assert (forall m b, StronglySorted Z.lt ((fun i => Z.add (Z.of_nat i) b) <$> seq 0 m)) as H; [|apply H].
  intros m. generalize 0%nat. induction m as [|m IH]; intros s b; cbn; [constructor|]. constructor; [apply IH|].
  apply Forall_fmap, Forall_forall. intros i [Hi _]%elem_of_seq. cbn. lia.
Qed.

(** In ascending order of the offsets the numbers count the parts, in the reverse order they count
    them from the first block on. *)
Lemma part_numbers_forward args bs n ios : s3a_reverse args = false -> 0 <= n -> n + Z.of_nat (length ios) < TWO64 ->
  part_numbers args bs n ios = seqZ (n + 1) (Z.of_nat (length ios)).
Proof.
  intros Hr. revert n. induction ios as [|io ios IH]; intros n Hn Hb; [done|]. cbn [part_numbers length] in *. rewrite Nat2Z.inj_succ in *.
  unfold part_number. rewrite Hr, u64_small by lia. rewrite IH by lia. rewrite (seqZ_cons (n + 1)) by lia. do 2 f_equal; lia.
Qed.

Lemma part_numbers_reverse args bs n ios : s3a_reverse args = true ->
  part_numbers args bs n ios = (fun io => 1 +₆₄ (io.1 / bs)) <$> ios.
Proof. intros Hr. revert n. induction ios as [|io ios IH]; intros n; [done|]. cbn [part_numbers]. unfold part_number at 1. by rewrite Hr, IH. Qed.

Lemma tile_numbers total bs : 0 < bs -> 0 <= total < TWO64 - 1 ->
  (fun io : Z * Z => 1 +₆₄ (io.1 / bs)) <$> tile 0 total bs = seqZ 1 (tile_count total bs).
Proof.
  intros Hbs Ht. destruct (tile_count_spec total bs) as (Hc & _); [lia..|]. unfold tile. rewrite <- list_fmap_compose.
  rewrite <- (fmap_add_seqZ 1 0). apply list_fmap_ext. intros i j [-> Hj]%lookup_seqZ. cbn. rewrite Z.add_0_l.
  rewrite Z.div_mul by lia. rewrite u64_small by lia. done.
Qed.

(** The block size of the generators does not change. *)
Lemma seq_next_keeps {R D} `{!RandAlgo R} (g : OffsetGenSequential) (e : Env R D) off g1 e1 :
  getNextOffset g e = Some (off, (g1, e1)) -> getBlockSize (R := R) (D := D) g1 = getBlockSize (R := R) (D := D) g.
Proof. by intros [= <- <- <-]. Qed.

Lemma rev_next_keeps {R D} (g : OffsetGenReverseSeq) (e : Env R D) off g1 e1 :
  getNextOffset g e = Some (off, (g1, e1)) -> getBlockSize (R := R) (D := D) g1 = getBlockSize (R := R) (D := D) g.
Proof. by intros [= <- <- <-]. Qed.

Lemma rev_new_size {R D} len offset bs : getBlockSize (R := R) (D := D) (OffsetGenReverseSeq_new len offset bs) = bs.
Proof. unfold OffsetGenReverseSeq_new, rev_reset. cbn. by destruct (len =? 0), (truthy (len `mod` bs)). Qed.

(** A worker at the start of an object. *)
Definition s3_start {R D G V Sv} (g : G) (e : Env R D) (v : V) (sv : Sv) : S3Worker R D G V Sv := mkS3Worker g e v sv [] 0 0 0.

(** ** Downloads *)

Section download.
Context {R D G V Sv : Type} `{!RandAlgo R, !RandAlgo D, !RandAlgo V, !OffsetGenerator R D G, !OffsetGenLaws R D G}.
Context (ops : S3Ops Sv) `{!S3Laws ops} (args : S3Args) (content : Z -> Z) (read_check : list Z -> Z -> Z -> result unit).
Hypothesis check_accepts : forall off n, read_check (block_of content off n) n off = Ok tt.
#[local] Abbreviation worker := (S3Worker R D G V Sv).

Lemma content_range size off n : 0 <= off -> 0 <= n -> off + n <= size ->
  take (Z.to_nat n) (drop (Z.to_nat off) (content <$> seqZ 0 size)) = block_of content off n.
Proof.
  intros Ho Hn Hs. unfold block_of. rewrite <- fmap_drop, <- fmap_take. f_equal.
  replace size with (off + (n + (size - off - n))) by lia. rewrite !seqZ_app by lia. rewrite drop_app_length' by (rewrite length_seqZ; lia).
  by rewrite take_app_length' by (rewrite length_seqZ; lia).
Qed.

(** One block of an object with the content. *)
Lemma download_block_ok k size (s : worker) off g1 e1 n e2 :
  sl_object (ws_server s) k = Some (content <$> seqZ 0 size) ->
  getNextOffset (ws_gen s) (ws_env s) = Some (off, (g1, e1)) -> getNextBlockSizeToSubmit g1 e1 = Some (n, e2) ->
  0 <= off -> 0 < n -> 0 <= s3a_fileOffset args -> s3a_fileOffset args + off + n <= size -> size < TWO64 ->
  exists sv lg, download_block ops args read_check k s
      = Some (Ok tt, mkS3Worker (addBytesSubmitted n g1) e2 (ws_rand s) sv lg (ws_numBytesDone s +₆₄ n) (ws_numIOPSDone s +₆₄ 1)
          (ws_numIOPSSubmitted s +₆₄ 1))
    /\ sl_object sv k = Some (content <$> seqZ 0 size).
Proof.
  intros Hobj Ho Hz Hoff Hn Hfo Hsz Hmax. set (cur := off + s3a_fileOffset args).
  destruct (sl_get k cur (cur + n - 1) (ws_server s) (content <$> seqZ 0 size) Hobj) as (sv & Hget & Hobj');
    [lia|rewrite length_fmap, length_seqZ; lia|].
  replace (cur + n - 1 - cur + 1) with n in Hget by lia. rewrite content_range in Hget by lia.
  exists sv, (ws_log s ++ [(OpGet cur, true)]). split; [|done].
  unfold download_block, next_offset, next_size. unfold mbind, eff_bind, eff_get, eff_some, eff_modify, mret, eff_ret. cbn [id].
  rewrite Ho. cbn. rewrite Hz. cbn. rewrite (u64_small (off + s3a_fileOffset args)) by lia. fold cur.
  rewrite (u64_small (cur + n)), u64_small by lia. unfold s3_request. cbn [ws_server set_ws_gen]. rewrite Hget.
  unfold s3_checkInterruption, mbind, eff_bind, eff_get. cbn [id ws_server]. rewrite sl_calm. cbn.
  rewrite (proj2 (Z.ltb_ge _ n)) by (rewrite block_length; lia). cbn. by rewrite check_accepts.
Qed.

Lemma download_ok fuel k size (s : worker) :
  sl_object (ws_server s) k = Some (content <$> seqZ 0 size) -> og_inv (ws_gen s) -> env_ok (ws_env s) ->
  0 <= og_lo (ws_gen s) -> 0 <= s3a_fileOffset args -> s3a_fileOffset args + og_hi (ws_gen s) <= size -> size < TWO64 ->
  getNumBytesLeftToSubmit (ws_gen s) <= Z.of_nat fuel -> 0 <= ws_numBytesDone s < TWO64 ->
  exists s', s3ModeDownloadObject ops args read_check fuel k s = Some (Ok tt, s')
    /\ getNumBytesLeftToSubmit (ws_gen s') = 0 /\ ws_numBytesDone s' = ws_numBytesDone s +₆₄ getNumBytesLeftToSubmit (ws_gen s)
    /\ sl_object (ws_server s') k = Some (content <$> seqZ 0 size).
Proof.
  revert s. induction fuel as [|fuel IH]; intros s Hobj Hinv He Hlo Hfo Hhi Hmax Hf Hb; cbn [s3ModeDownloadObject];
    unfold mbind, eff_bind, eff_get; pose proof (og_left_range _ Hinv) as Hl; destruct (Z.eqb_spec (getNumBytesLeftToSubmit (ws_gen s)) 0) as [Hz|Hz].
  1, 3: exists s; rewrite Hz, Z.add_0_r, u64_small by lia; by split_and!.
  { lia. }
  destruct (og_step (ws_gen s) (ws_env s) Hinv He Hz) as (off & g1 & e1 & n & e2 & Ho & Hn & He2 & Hnb & Hlo1 & Hhi1 & Hinv' & Hleft & Hleft0 & _ & _ & Hlo' & Hhi').
  destruct (download_block_ok k size s off g1 e1 n e2) as (sv & lg & -> & Hobj'); try (done || lia).
  match goal with |- context [s3ModeDownloadObject _ _ _ fuel k ?s1'] => set (s1 := s1') end.
  destruct (IH s1) as (s' & Hrun & Hl' & Hb' & Ho'); cbn [s1 ws_server ws_gen ws_env ws_numBytesDone]; rewrite ?Hlo', ?Hhi', ?Hleft; try (done || lia || apply u64_range).
  exists s'. split; [exact Hrun|]. split; [done|]. split; [|done]. rewrite Hb'. cbn [s1 ws_numBytesDone ws_gen]. rewrite Hleft, u64_add_mod_l. f_equal. lia.
Qed.
End download.

(** A multipart upload of one worker assembles the object.  On a service that answers, the upload
    of an object of [total] bytes ends without an exception and the object then holds the content of
    every offset at that offset, with exact counters: for sequential access with any mix of block
    sizes and any size variance, and for reverse access with a single block size, whenever the
    number of parts cannot exceed the 10,000 that the service accepts. *)
Lemma multipart_upload_assembles {R D V Sv} `{!RandAlgo R, !RandAlgo D, !RandAlgo V} (ops : S3Ops Sv) `{!S3Laws ops} args content post_check
    k total mix (e : Env R D) (v : V) (sv : Sv) :
  (forall n off, post_check n off = Ok tt) -> s3a_noMpuCompletion args = false -> 0 <= s3a_mpuSizeVariance args ->
  mix_ok mix -> env_ok e -> rand_ok v -> 0 < total < 2 ^ 63 ->
  (s3a_reverse args = false -> tile_count total (min_part args mix) <= 10000 ->
     exists s', s3ModeUploadObjectMultiPart ops args (block_of content) post_check (Z.to_nat total) k
         (s3_start (OffsetGenSequential_new total 0 mix) e v sv) = Some (Ok tt, s')
       /\ sl_object (ws_server s') k = Some (content <$> seqZ 0 total) /\ ws_numBytesDone s' = total)
  /\ (s3a_reverse args = true -> s3a_mpuSizeVariance args = 0 -> isMix mix = false -> tile_count total (maxSize mix) <= 10000 ->
     exists s', s3ModeUploadObjectMultiPart ops args (block_of content) post_check (Z.to_nat total) k
         (s3_start (OffsetGenReverseSeq_new total 0 (maxSize mix)) e v sv) = Some (Ok tt, s')
       /\ sl_object (ws_server s') k = Some (content <$> seqZ 0 total) /\ ws_numBytesDone s' = total).
Proof.
  intros Hpc Hno Hvar Hmix He Hv Ht. pose proof (mix_ok_sizes _ Hmix) as Hms. split.
  - intros Hr Hmax. destruct (seq_draws args (Z.to_nat total) total total 0 mix e v) as (ios & g & e' & v' & Hd & Hc & Hs & Hz & Hne & Hlen);
      [done..|lia|lia|lia|lia|].
    pose proof (part_numbers_forward args (maxSize mix) 0 ios Hr ltac:(lia) ltac:(lia)) as Hnums.
    destruct (multipart_ok (R := R) (D := D) (V := V) (G := OffsetGenSequential) ops args content post_check Hpc
      seq_next_keeps (fun _ _ => eq_refl) (Z.to_nat total) k
      (s3_start (OffsetGenSequential_new total 0 mix) e v sv) ios g e' v' Hno Hd) as (s' & Hrun & Hobj & Hb & _);
      try done; unfold ordered; rewrite ?Hr; try done.
    + intros ->. specialize (Hne eq_refl). lia.
    + change (getBlockSize _) with (maxSize mix). rewrite Hnums. apply Forall_forall. intros x [? ?]%elem_of_seqZ. lia.
    + change (getBlockSize _) with (maxSize mix). rewrite Hnums. apply seqZ_sorted.
    + exists s'. split; [done|]. rewrite Hs in *. split; [done|]. rewrite Hb. cbn. rewrite u64_small; lia.
  - intros Hr Hv0 Hm Hmax.
    destruct (reverse_is_reversed_sequential total 0 mix e Hm ltac:(lia) ltac:(lia) ltac:(lia) ltac:(lia)) as (ios & g0 & g & Hseq & Hrev & Hios).
    destruct (sequential_mix_contiguous total 0 mix e Hmix He ltac:(lia) ltac:(lia) ltac:(lia)) as (ios' & g0' & e' & Hseq' & Hc & Hs & Hz).
    rewrite Hseq in Hseq'. injection Hseq' as <- <- <-.
    assert (Forall (fun io => 0 <= io.2) ios) as Hz' by (eapply Forall_impl; [exact Hz|]; intros [? ?] ?; cbn; lia).
    pose proof (tile_numbers total (maxSize mix) ltac:(lia) ltac:(lia)) as Hnums. rewrite <- Hios in Hnums.
    pose proof (part_numbers_reverse args (maxSize mix) 0 (reverse ios) Hr) as Hpn. rewrite fmap_reverse, Hnums in Hpn.
    destruct (multipart_ok (R := R) (D := D) (V := V) (G := OffsetGenReverseSeq) ops args content post_check Hpc
      rev_next_keeps (fun _ _ => eq_refl) (Z.to_nat total) k
      (s3_start (OffsetGenReverseSeq_new total 0 (maxSize mix)) e v sv) (reverse ios) g e v Hno (draws_drain _ _ _ _ _ _ _ _ Hv0 Hrev))
      as (s' & Hrun & Hobj & Hb & _); unfold ordered; rewrite ?Hr, ?reverse_involutive; try done.
    + intros H0. apply (f_equal length) in H0. rewrite length_reverse in H0. apply nil_length_inv in H0. rewrite H0 in Hs. cbn in Hs. lia.
    + by apply Forall_reverse.
    + cbn [ws_gen s3_start]. rewrite rev_new_size.
      rewrite Hpn. apply Forall_reverse, Forall_forall. intros x [? ?]%elem_of_seqZ. lia.
    + cbn [ws_gen s3_start]. rewrite rev_new_size.
      rewrite Hpn, reverse_involutive. apply seqZ_sorted.
    + exists s'. split; [done|]. rewrite fmap_reverse in Hobj, Hb. rewrite (Zsum_perm (reverse (snd <$> ios)) (snd <$> ios)) in Hobj, Hb by (by rewrite reverse_Permutation).
      rewrite Hs in *. split; [done|]. rewrite Hb. cbn. rewrite u64_small; lia.
Qed.

(** A run uploaded [total] bytes, and a download of the object through [g] passes the check. *)
Definition uploads_verified {R D V Sv G H} `{!RandAlgo V, !OffsetGenerator R D G} (ops : S3Ops Sv) (args : S3Args)
    (read_check : list Z -> Z -> Z -> result unit) (k : S3UploadKey) (total : Z) (g : G) (e : Env R D) (v : V)
    (r : option (result unit * S3Worker R D H V Sv)) : Prop :=
  exists s' s'', r = Some (Ok tt, s') /\ ws_numBytesDone s' = total
    /\ s3ModeDownloadObject ops args read_check (Z.to_nat (getNumBytesLeftToSubmit g)) k (s3_start g e v (ws_server s')) = Some (Ok tt, s'')
    /\ ws_numBytesDone s'' = getNumBytesLeftToSubmit g.

(** ** Theorems *)



(** ** A service in memory *)

Record mem_s3 : Type := mkMemS3 {
  m3_uploads : list (S3UploadKey * string * list (Z * (string * list Z)));
  m3_objects : list (S3UploadKey * list Z);
}.

(** The latest entry counts. *)
Fixpoint m3_parts (l : list (S3UploadKey * string * list (Z * (string * list Z)))) (k : S3UploadKey) (uid : string)
    : option (list (Z * (string * list Z))) :=
  match l with
  | [] => None
  | (k', uid', ps) :: l => if bool_decide (k = k') && String.eqb uid uid' then Some ps else m3_parts l k uid
  end.

Fixpoint m3_object (l : list (S3UploadKey * list Z)) (k : S3UploadKey) : option (list Z) :=
  match l with [] => None | (k', data) :: l => if decide (k = k') then Some data else m3_object l k end.

Fixpoint ascending (l : list Z) : bool :=
  match l with x :: ((y :: _) as l) => (x <? y) && ascending l | _ => true end.

(** The data of a part with the right tag. *)
Definition tagged_data (ps : list (Z * (string * list Z))) (c : CompletedPart) : option (list Z) :=
  '(tag, data) ← part_lookup c.1 ps;
  if String.eqb tag c.2 then Some data else None.

Definition mem_s3_ops : S3Ops mem_s3 := {|
  s3_create k sv :=
    let uid := to_string (Z.of_nat (length (m3_uploads sv))) in (Some uid, mkMemS3 ((k, uid, []) :: m3_uploads sv) (m3_objects sv));
  s3_uploadPart k uid num data sv :=
    match m3_parts (m3_uploads sv) k uid with
    | Some ps =>
        if (1 <=? num) && (num <=? 10000) then
          let tag := to_string (Z.of_nat (length ps)) in
          ((Z.of_nat (length data), Some tag), mkMemS3 ((k, uid, (num, (tag, data)) :: ps) :: m3_uploads sv) (m3_objects sv))
        else ((0, None), sv)
    | None => ((0, None), sv)
    end;
  s3_complete k uid cl sv :=
    match m3_parts (m3_uploads sv) k uid with
    | Some ps =>
        match mapM (tagged_data ps) cl with
        | Some datas => if ascending (fst <$> cl) && negb (bool_decide (cl = [])) then (CompleteOk, mkMemS3 (m3_uploads sv) ((k, concat datas) :: m3_objects sv))
                        else (CompleteError, sv)
        | None => (CompleteError, sv)
        end
    | None => (CompleteNotFound, sv)
    end;
  s3_abort k uid sv := (bool_decide (is_Some (m3_parts (m3_uploads sv) k uid)), sv);
  s3_put k data sv := ((Z.of_nat (length data), true), mkMemS3 (m3_uploads sv) ((k, data) :: m3_objects sv));
  s3_get k first last sv :=
    match m3_object (m3_objects sv) k with
    | Some data =>
        let part := take (Z.to_nat (last - first + 1)) (drop (Z.to_nat first) data) in ((Z.of_nat (length part), Some part), sv)
    | None => ((0, None), sv)
    end;
  s3_interrupted _ := false;
|}.

Lemma ascending_sorted l : StronglySorted Z.lt l -> ascending l = true.
Proof.
  induction 1 as [|x l Hs IH Hall]; [done|]. destruct l as [|y l]; [done|]. apply Forall_cons in Hall as [Hlt _].
  change ((x <? y) && ascending (y :: l) = true). rewrite IH. lia.
Qed.

Lemma m3_parts_head k uid ps l : m3_parts ((k, uid, ps) :: l) k uid = Some ps.
Proof. cbn [m3_parts]. by rewrite bool_decide_eq_true_2, String.eqb_refl. Qed.

Lemma m3_object_head k data l : m3_object ((k, data) :: l) k = Some data.
Proof. cbn [m3_object]. by rewrite decide_True. Qed.

#[export] Instance mem_s3_laws : S3Laws mem_s3_ops.
Proof.
  refine (Build_S3Laws _ mem_s3_ops (fun sv => m3_parts (m3_uploads sv)) (fun sv => m3_object (m3_objects sv)) _ _ _ _ _).
  - done.
  - intros k sv. eexists _, _. split; [done|]. apply m3_parts_head.
  - intros k uid num data sv ps Hps Hn. eexists _, _. cbn [s3_uploadPart mem_s3_ops]. rewrite Hps.
    rewrite (proj2 (Z.leb_le 1 num)), (proj2 (Z.leb_le num 10000)) by lia. split; [done|]. apply m3_parts_head.
  - intros k uid cl datas sv ps Hps Hne Hs Hm. cbn [s3_complete mem_s3_ops]. rewrite Hps.
    assert (mapM (tagged_data ps) cl = Some datas) as ->.
    { apply mapM_Some. eapply Forall2_impl; [exact Hm|]. intros c data Hc. unfold tagged_data. rewrite Hc. cbn. by rewrite String.eqb_refl. }
    rewrite ascending_sorted, bool_decide_eq_false_2 by done. eexists. split; [done|]. apply m3_object_head.
  - intros k first last sv data Hd Hf Hl. cbn [s3_get mem_s3_ops]. rewrite Hd. exists sv. split; [|done].
    do 3 f_equal. rewrite length_take, length_drop. lia.
Defined.

(** ** An object of ten bytes *)

Definition demo_s3_args (reverse ignore : bool) (variance : Z) : S3Args := mkS3Args reverse ignore false variance false 1.

Definition demo_object : S3UploadKey := mkKey "bucket" "obj".

(** Bytes that are twice their offset. *)
Definition demo_content_check (data : list Z) (n off : Z) : result unit :=
  if bool_decide (data = block_of (Z.mul 2) off n) then Ok tt else Throw (WorkerException "Data verification failed.").


(** A service that refuses the third part. *)
Definition refusing_s3_ops : S3Ops mem_s3 := {|
  s3_create := s3_create mem_s3_ops;
  s3_uploadPart k uid num data sv := if num =? 3 then ((0, None), sv) else s3_uploadPart mem_s3_ops k uid num data sv;
  s3_complete := s3_complete mem_s3_ops; s3_abort := s3_abort mem_s3_ops; s3_put := s3_put mem_s3_ops; s3_get := s3_get mem_s3_ops;
  s3_interrupted _ := false;
|}.

Definition demo_start : S3Worker xoshiro_state xoshiro_state OffsetGenSequential xoshiro_state mem_s3 :=
  s3_start (OffsetGenSequential_new 10 0 (mix_finish [(4, 1)])) demo_env (env_algo demo_env) (mkMemS3 [] []).

#[local] Abbreviation demo_refused :=
  (s3ModeUploadObjectMultiPart refusing_s3_ops (demo_s3_args false false 0) (block_of (Z.mul 2)) (fun _ _ => Ok tt) 10%nat demo_object demo_start).

Lemma demo_refused_log :
  (fun r => (r.1, ws_log r.2)) <$> demo_refused
  = Some (Throw (WorkerException "Multipart part upload failed. "),
      [(OpCreate, true); (OpUploadPart 1, true); (OpUploadPart 2, true); (OpUploadPart 3, false); (OpAbort, true)]).
Proof. by vm_compute. Qed.

Lemma demo_refused_throws r : (fun r => (r.1, ws_log r.2)) <$> r = Some (Throw (WorkerException "Multipart part upload failed. "),
      [(OpCreate, true); (OpUploadPart 1, true); (OpUploadPart 2, true); (OpUploadPart 3, false); (OpAbort, true)]) ->
  exists ex s', r = Some (Throw ex : result unit, s' : S3Worker xoshiro_state xoshiro_state OffsetGenSequential xoshiro_state mem_s3).
Proof. destruct r as [[[u|ex] s']|]; intros H; try discriminate H. by exists ex, s'. Qed.

