(* ===== verification/S3SharedUpload.v ===== *)
(** S3 uploads that several workers share (workers/LocalWorker.cpp): the upload of a worker's elements
    ([s3ModeIterateCustomObjects()] in the create phase, for elements that are a part of an object or
    when services share uploads), [s3ModeUploadObjectMultiPartShared()] at an I/O depth of 1, and
    the cleanup after an error ([s3ModeAbortUnfinishedSharedUploads()]).

    The workers of a process run concurrently and share the upload store of S3UploadStore.v and
    the service.  A step of a worker goes up to its next call of the store or of the service, so a
    run is a sequence of steps of the workers in any order. *)

From S2P Require Import Prelude Common Effects CppStrings RandAlgo BlockSizeMix OffsetGen AnyGen PathStore FileIter S3UploadStore S3Upload.
From stdpp Require Import relations sorting.
From Stdlib Require Import ZifyBool Sorted.
From Stdlib Require String.

#[local] Open Scope list_scope.
#[local] Open Scope Z_scope.

(** ** Definitions *)

(** Where a worker is. *)
Inductive SharedPc : Type :=
  | Sh_next                                                       (** before the next element *)
  | Sh_getID (el : PathStoreElem)
  | Sh_loop (el : PathStoreElem) (uploadID : string) (allCompletedParts : option (list CompletedPart))
  | Sh_add (el : PathStoreElem) (uploadID : string) (blockSize currentOffset : Z) (completedPart : CompletedPart)
  | Sh_done                                                       (** all elements done *)
  | Sh_cleanup (ex : exn)                                         (** aborting uploads after an exception *)
  | Sh_failed (ex : exn).

#[export] Instance sh_done_dec (pc : SharedPc) : Decision (pc = Sh_done).
Proof. destruct pc; first [left; reflexivity | right; discriminate]. Defined.

(** [numFilesDone] is an [unsigned short]. *)
Record ShCounters : Type := mkShCounters {
  sc_numFilesDone : Z;
  sc_numEntriesDone : Z;
  sc_numBytesDone : Z;
  sc_numIOPSDone : Z;
  sc_numIOPSSubmitted : Z;
}.

Record SharedWorker (R D G : Type) : Type := mkSharedWorker {
  sw_gen : G;
  sw_env : Env R D;
  sw_elems : list PathStoreElem;     (** what is left of [customTreePaths] *)
  sw_pc : SharedPc;
  sw_counters : ShCounters;
}.
#[global] Arguments mkSharedWorker {R D G}.
#[global] Arguments sw_gen {R D G}.
#[global] Arguments sw_env {R D G}.
#[global] Arguments sw_elems {R D G}.
#[global] Arguments sw_pc {R D G}.
#[global] Arguments sw_counters {R D G}.

(** What the workers share.  An entry of the log: the request, the upload and whether it succeeded. *)
Record SharedData (Sv : Type) : Type := mkSharedData {
  sd_store : upload_map CompletedPart;
  sd_server : Sv;
  sd_log : list (S3Request * string * bool);
}.
#[global] Arguments mkSharedData {Sv}.
#[global] Arguments sd_store {Sv}.
#[global] Arguments sd_server {Sv}.
#[global] Arguments sd_log {Sv}.

(** The order of parts in a completion. *)
Definition part_le (a b : CompletedPart) : Prop := a.1 <= b.1.

#[export] Instance part_le_dec : RelDecision part_le.
Proof. intros a b. unfold part_le. apply _. Defined.

Definition count_element (el : PathStoreElem) (c : ShCounters) : ShCounters :=
  mkShCounters ((sc_numFilesDone c + 1) `mod` 65536)
    (if totalLen el =? rangeLen el then sc_numEntriesDone c +₆₄ 1 else sc_numEntriesDone c)
    (sc_numBytesDone c) (sc_numIOPSDone c) (sc_numIOPSSubmitted c).

Definition count_sent (numBytes : Z) (c : ShCounters) : ShCounters :=
  mkShCounters (sc_numFilesDone c) (sc_numEntriesDone c) (sc_numBytesDone c +₆₄ numBytes) (sc_numIOPSDone c) (sc_numIOPSSubmitted c).

Definition count_part (c : ShCounters) : ShCounters :=
  mkShCounters (sc_numFilesDone c) (sc_numEntriesDone c) (sc_numBytesDone c) (sc_numIOPSDone c +₆₄ 1) (sc_numIOPSSubmitted c +₆₄ 1).

Section shared.
Context {R D G Sv : Type} `{!OffsetGenerator R D G}.
Context (ops : S3Ops Sv) (args : S3Args) (block : Z -> Z -> list Z) (post_check : Z -> Z -> result unit).
Context (bucketName objectPrefix : string).
#[local] Abbreviation worker := (SharedWorker R D G).
#[local] Abbreviation data := (SharedData Sv).

Definition object_key (p : string) : S3UploadKey := mkKey bucketName (objectPrefix +:+ p).

Definition set_sw_pc (pc : SharedPc) (w : worker) : worker := mkSharedWorker (sw_gen w) (sw_env w) (sw_elems w) pc (sw_counters w).

Definition friendly_interrupt : exn := WorkerInterruptedException "Received friendly request to interrupt execution.".

(** The next element. *)
Definition shared_next (w : worker) (h : data) : worker * data :=
  match sw_elems w with
  | [] => (set_sw_pc Sh_done w, h)
  | el :: els =>
      if (sc_numFilesDone (sw_counters w) `mod` INTERRUPTION_CHECK_INTERVAL =? 0) && s3_interrupted ops (sd_server h)
      then (set_sw_pc (Sh_cleanup friendly_interrupt) w, h)
      else
        match og_reset_to (rangeLen el) (rangeStart el) (sw_gen w) (sw_env w) with
        | Ok (g, e) => (mkSharedWorker g e els (Sh_getID el) (sw_counters w), h)
        | Throw ex => (set_sw_pc (Sh_cleanup ex) w, h)
        end
  end.

(** The upload ID; the service is asked for objects that are not in the store. *)
Definition shared_getID (el : PathStoreElem) (w : worker) (h : data) : worker * data :=
  let k := object_key (path el) in
  let asked := match upload_find k (sd_store h) with Some _ => false | None => true end in
  let '(r, m, sv) := getMultipartUploadID (s3_create ops) k (sd_store h) (sd_server h) in
  let uid := match r with Ok uid => uid | Throw _ => "" end in
  let log := if asked then sd_log h ++ [(OpCreate, uid, match r with Ok _ => true | Throw _ => false end)] else sd_log h in
  (set_sw_pc match r with Ok uid => Sh_loop el uid None | Throw ex => Sh_cleanup ex end w, mkSharedData m sv log).

(** The completion, or the end of this worker's range. *)
Definition shared_complete (el : PathStoreElem) (uid : string) (all : option (list CompletedPart)) (w : worker) (h : data) : worker * data :=
  let finished := mkSharedWorker (sw_gen w) (sw_env w) (sw_elems w) Sh_next (count_element el (sw_counters w)) in
  if s3a_noMpuCompletion args then (finished, h)
  else
    match all with
    | None => (finished, h)
    | Some parts =>
        let k := object_key (path el) in
        let '(outcome, sv) := s3_complete ops k uid (merge_sort part_le parts) (sd_server h) in
        let log := sd_log h ++ [(OpComplete (totalLen el), uid, complete_ok outcome)] in
        let failed :=
          let '(b, sv) := s3_abort ops k uid sv in
          (set_sw_pc (Sh_cleanup (WorkerException "Shared multipart upload completion failed. ")) w,
           mkSharedData (sd_store h) sv (log ++ [(OpAbort, uid, b)])) in
        match outcome with
        | CompleteOk => (finished, mkSharedData (sd_store h) sv log)
        | CompleteNotFound => if s3a_ignoreMultipartUpload404 args then (finished, mkSharedData (sd_store h) sv log) else failed
        | CompleteError => failed
        end
    end.

(** The upload of the next part. *)
Definition shared_upload (el : PathStoreElem) (uid : string) (w : worker) (h : data) : option (worker * data) :=
  '(blockSize, e) ← getNextBlockSizeToSubmit (sw_gen w) (sw_env w);
  '(currentOffset, (g, e)) ← getNextOffset (sw_gen w) e;
  let currentPartNum := 1 +₆₄ (currentOffset / getBlockSize g) in
  let '((numBytes, outcome), sv) :=
    s3_uploadPart ops (object_key (path el)) uid (part_int currentPartNum) (block currentOffset blockSize) (sd_server h) in
  let pc :=
    if s3_interrupted ops sv then Sh_cleanup friendly_interrupt
    else
      match outcome with
      | None => Sh_cleanup (WorkerException "Shared multipart part upload failed. ")
      | Some tag => Sh_add el uid blockSize currentOffset (part_int currentPartNum, tag)
      end in
  Some (mkSharedWorker g e (sw_elems w) pc (count_sent numBytes (sw_counters w)),
        mkSharedData (sd_store h) sv (sd_log h ++ [(OpUploadPart currentPartNum, uid, is_ok outcome)])).

(** The report of a part to the store, and the end of the pass. *)
Definition shared_add (el : PathStoreElem) (uid : string) (blockSize currentOffset : Z) (part : CompletedPart) (w : worker) (h : data) : worker * data :=
  let '(all, m) := addCompletedPart (s3a_noMpuCompletion args) (object_key (path el)) blockSize (totalLen el) part (sd_store h) in
  let h := mkSharedData m (sd_server h) (sd_log h) in
  match post_check blockSize currentOffset with
  | Throw ex => (set_sw_pc (Sh_cleanup ex) w, h)
  | Ok _ =>
      let g := addBytesSubmitted blockSize (sw_gen w) in
      let pc :=
        if is_ok all && negb (getNumBytesLeftToSubmit g =? 0)
        then Sh_cleanup (WorkerException "Shared multipart upload logic error. ")
        else Sh_loop el uid all in
      (mkSharedWorker g (sw_env w) (sw_elems w) pc (count_part (sw_counters w)), h)
  end.

(** [s3ModeAbortUnfinishedSharedUploads()]: one pass of its loop. *)
Definition shared_cleanup (ex : exn) (w : worker) (h : data) : worker * data :=
  match getNextUnfinishedUpload (sd_store h) with
  | (None, m) => (set_sw_pc (Sh_failed ex) w, mkSharedData m (sd_server h) (sd_log h))
  | (Some (k, uid), m) =>
      if String.eqb uid "" then (set_sw_pc (Sh_failed ex) w, mkSharedData m (sd_server h) (sd_log h))
      else
        let '(b, sv) := s3_abort ops k uid (sd_server h) in
        (w, mkSharedData m sv (sd_log h ++ [(OpAbort, uid, b)]))
  end.

(** The next step of a worker; [None] at its end. *)
Definition shared_action (w : worker) (h : data) : option (worker * data) :=
  match sw_pc w with
  | Sh_next => Some (shared_next w h)
  | Sh_getID el => Some (shared_getID el w h)
  | Sh_loop el uid all =>
      if getNumBytesLeftToSubmit (sw_gen w) =? 0 then Some (shared_complete el uid all w h) else shared_upload el uid w h
  | Sh_add el uid blockSize off part => Some (shared_add el uid blockSize off part w h)
  | Sh_cleanup ex => Some (shared_cleanup ex w h)
  | Sh_done | Sh_failed _ => None
  end.

(** The workers in any order. *)
Inductive shared_step : list worker * data -> list worker * data -> Prop :=
  | shared_step_worker i w w' ws h h' :
      ws !! i = Some w -> shared_action w h = Some (w', h') -> shared_step (ws, h) (<[i := w']> ws, h').
End shared.

(** ** What the clients rely on *)

(** Requests for one object leave the others alone. *)
Class S3FrameLaws {Sv : Type} (ops : S3Ops Sv) `{!S3Laws ops} : Prop := {
  sf_create k k' sv uid : k' <> k -> sl_parts (s3_create ops k sv).2 k' uid = sl_parts sv k' uid
    /\ sl_object (s3_create ops k sv).2 k' = sl_object sv k';
  sf_upload k k' uid num data sv uid' : k' <> k -> sl_parts (s3_uploadPart ops k uid num data sv).2 k' uid' = sl_parts sv k' uid'
    /\ sl_object (s3_uploadPart ops k uid num data sv).2 k' = sl_object sv k';
  sf_complete k k' uid cl sv uid' : k' <> k -> sl_parts (s3_complete ops k uid cl sv).2 k' uid' = sl_parts sv k' uid'
    /\ sl_object (s3_complete ops k uid cl sv).2 k' = sl_object sv k';
}.

(** The accesses of a generator when the size of a block is drawn before its offset. *)
Inductive draws {R D G : Type} `{!OffsetGenerator R D G} : G -> Env R D -> list (Z * Z) -> Prop :=
  | draws_nil g e : getNumBytesLeftToSubmit g = 0 -> draws g e []
  | draws_cons g e size e1 off g2 e2 ios :
      getNumBytesLeftToSubmit g <> 0 -> getNextBlockSizeToSubmit g e = Some (size, e1) -> getNextOffset g e1 = Some (off, (g2, e2)) ->
      draws (addBytesSubmitted size g2) e2 ios -> draws g e ((off, size) :: ios).

(** Generators that cover a range in blocks of one size. *)
Class SliceDraws (R D G : Type) `{!OffsetGenerator R D G} : Type := {
  sd_ok : Z -> G -> Prop;
  sd_size bs g : sd_ok bs g -> getBlockSize g = bs;
  sd_next bs g e off g' e' : sd_ok bs g -> getNextOffset g e = Some (off, (g', e')) -> sd_ok bs g';
  sd_add bs g n : sd_ok bs g -> sd_ok bs (addBytesSubmitted n g);
  sd_reset bs g e len off : sd_ok bs g -> 0 < bs < 2 ^ 63 -> 0 < len -> 0 <= off -> off + len < 2 ^ 63 ->
    exists g' e' ios, og_reset_to len off g e = Ok (g', e') /\ sd_ok bs g' /\ draws g' e' ios /\ ios ≡ₚ tile off len bs;
}.

(** ** Lists *)

Lemma insert_bind_perm {A B} (f : A -> list B) (l : list A) i x y : l !! i = Some x ->
  exists rest, (l ≫= f) ≡ₚ f x ++ rest /\ (<[i := y]> l ≫= f) ≡ₚ f y ++ rest.
Proof.
  intros Hi. exists ((take i l ≫= f) ++ (drop (S i) l ≫= f)). pose proof (lookup_lt_Some _ _ _ Hi). split.
  - rewrite <- (take_drop_middle l i x Hi) at 1. rewrite !bind_app, bind_cons. solve_Permutation.
  - rewrite insert_take_drop by done. rewrite !bind_app, bind_cons. solve_Permutation.
Qed.

(** The blocks of an object in a list of blocks. *)
Definition blocks_of (x : string) (l : list (string * Z * Z)) : list (Z * Z) :=
  (fun b => (b.1.2, b.2)) <$> filter (fun b => b.1.1 = x) l.

Definition with_path (p : string) (ios : list (Z * Z)) : list (string * Z * Z) := (fun io => (p, io.1, io.2)) <$> ios.

Lemma blocks_of_app x l k : blocks_of x (l ++ k) = blocks_of x l ++ blocks_of x k.
Proof. unfold blocks_of. by rewrite filter_app, fmap_app. Qed.

#[export] Instance blocks_of_perm x : Proper ((≡ₚ) ==> (≡ₚ)) (blocks_of x).
Proof. intros l k Hl. unfold blocks_of. by rewrite Hl. Qed.

Lemma blocks_of_with_path x p ios : blocks_of x (with_path p ios) = if decide (p = x) then ios else [].
Proof.
  unfold blocks_of, with_path. induction ios as [|[o n] ios IH]; [by destruct (decide _)|]. cbn [fmap list_fmap fst snd]. rewrite filter_cons. cbn [fst snd].
  destruct (decide (p = x)); [|done]. cbn. by rewrite IH.
Qed.

Lemma elem_blocks_with_path bs el : elem_blocks bs el = with_path (path el) (tile (rangeStart el) (rangeLen el) bs).
Proof. unfold elem_blocks, with_path. apply list_fmap_ext. by intros i [o n] _. Qed.

(** ** The blocks of an object *)

Section tiles.
Context (total bs : Z) (Hbs : 0 < bs) (Ht : 0 <= total < TWO64 - 1).

Definition part_num (io : Z * Z) : Z := 1 +₆₄ (io.1 / bs).

Lemma tile_elem io : io ∈ tile 0 total bs ->
  1 <= part_num io <= tile_count total bs /\ 0 < io.2 /\ io = tile_block 0 total bs (part_num io - 1).
Proof.
  unfold tile. intros (i & -> & [Hi1 Hi2]%elem_of_seqZ)%list_elem_of_fmap. unfold part_num. destruct (tile_count_spec total bs) as (Hc & H1 & H2); [lia..|].
  cbn. rewrite Z.add_0_l, Z.div_mul by lia. rewrite u64_small by lia. replace (1 + i - 1) with i by lia. split; [lia|]. split; [nia|done].
Qed.

Lemma tile_contiguous_from (n : nat) i : 0 <= i -> i + Z.of_nat n = tile_count total bs ->
  contiguous (i * bs) (tile_block 0 total bs <$> seqZ i (Z.of_nat n)).
Proof.
  revert i. induction n as [|n IH]; intros i Hi Hn; [done|]. rewrite Nat2Z.inj_succ in *. rewrite seqZ_cons by lia. cbn [fmap list_fmap contiguous tile_block].
  split; [done|]. rewrite Z.pred_succ. destruct n as [|n]; [done|]. destruct (tile_count_spec total bs) as (Hc & H1 & H2); [lia..|].
  replace (i * bs + Z.min bs (total - i * bs)) with (Z.succ i * bs) by nia. apply IH; lia.
Qed.

Lemma tile_contiguous : contiguous 0 (tile 0 total bs).
Proof.
  destruct (tile_count_spec total bs) as (Hc & _); [lia..|]. unfold tile. rewrite <- (Z2Nat.id (tile_count total bs)) by lia.
  apply (tile_contiguous_from _ 0); lia.
Qed.

Lemma contiguous_sum off ios : contiguous off ios -> forall io, last ios = Some io -> off + Zsum (snd <$> ios) = io.1 + io.2.
Proof.
  revert off. induction ios as [|[o n] ios IH]; intros off Hc io Hl; [done|]. destruct Hc as [-> Hc]. rewrite fmap_cons, Zsum_cons. cbn [snd].
  destruct ios as [|io2 ios]; [injection Hl as <-; cbn; lia|]. rewrite last_cons_cons in Hl. specialize (IH _ Hc io Hl). lia.
Qed.

Lemma tile_sum : Zsum (snd <$> tile 0 total bs) = total.
Proof.
  destruct (tile_count_spec total bs) as (Hc & H1 & H2); [lia..|]. destruct (decide (total = 0)) as [->|Hne].
  - assert (tile_count 0 bs = 0) as H0 by lia. unfold tile. by rewrite H0.
  - assert (0 < tile_count total bs) as Hpos by nia.
    assert (last (tile 0 total bs) = Some (tile_block 0 total bs (tile_count total bs - 1))) as Hl.
    { unfold tile. replace (tile_count total bs) with (tile_count total bs - 1 + 1) at 1 by lia. rewrite seqZ_snoc, fmap_app by lia. cbn [fmap list_fmap].
      by rewrite last_snoc. }
    pose proof (contiguous_sum 0 _ tile_contiguous _ Hl) as Hs. cbn [tile_block fst snd] in Hs. nia.
Qed.

Lemma tile_part_nums : part_num <$> tile 0 total bs = seqZ 1 (tile_count total bs).
Proof. by apply tile_numbers. Qed.

Lemma seqZ_le_sorted a n : StronglySorted Z.le (seqZ a n).
Proof.
  induction (seqZ_sorted a n) as [|x l _ IH Hall]; constructor; [done|]. eapply Forall_impl; [exact Hall|]. intros y Hy. cbn in *. lia.
Qed.

(** Blocks in ascending order of their numbers are the blocks in their order. *)
Lemma sorted_tile ios : ios ≡ₚ tile 0 total bs -> StronglySorted Z.le (part_num <$> ios) ->
  ios = tile 0 total bs /\ part_num <$> ios = seqZ 1 (tile_count total bs).
Proof.
  intros Hp Hs. assert (part_num <$> ios = seqZ 1 (tile_count total bs)) as Hn.
  { apply (StronglySorted_unique Z.le); [done| |by rewrite <- tile_part_nums, Hp].
    apply seqZ_le_sorted. }
  split; [|done]. transitivity ((fun n => tile_block 0 total bs (n - 1)) <$> (part_num <$> ios)).
  - rewrite <- list_fmap_compose. rewrite <- (list_fmap_id ios) at 1. apply list_fmap_ext. intros i io Hio. cbn. apply tile_elem. rewrite <- Hp.
    by apply list_elem_of_lookup_2 with i.
  - rewrite Hn, <- tile_part_nums, <- list_fmap_compose. rewrite <- (list_fmap_id (tile 0 total bs)) at 2. apply list_fmap_ext. intros i io Hio. cbn.
    symmetry. apply tile_elem. by apply list_elem_of_lookup_2 with i.
Qed.
End tiles.

(** ** The state of an object *)

Section objects.
Context {Sv : Type} (ops : S3Ops Sv) `{!S3Laws ops}.
Context (content : Z -> Z) (bs : Z) (sz : string -> Z).
Hypothesis (Hbs : 0 < bs) (Hsz : forall x, 0 <= sz x < 2 ^ 63) (Hmax : forall x, tile_count (sz x) bs <= 10000).

(** An uploaded block and its tag. *)
#[local] Abbreviation uploaded := (Z * Z * string)%type.
Definition part_of (u : uploaded) : CompletedPart := (part_num bs u.1, u.2).
Definition stored (u : uploaded) : Z * (string * list Z) := (part_num bs u.1, (u.2, block_of content u.1.1 u.1.2)).

(** The object [x] during a run: [P] are its blocks that are still to upload, [I] its blocks that are
    uploaded but not reported to the store, with their uploads, [L] the workers that are between
    parts; then its entry in the store, its uploads on the service, and the object there. *)
Inductive object_inv (x : string) (P : list (Z * Z)) (I : list (string * uploaded)) (L : list (string * option (list CompletedPart)))
    (fnd : option (S3UploadElem CompletedPart)) (prt : string -> option (list (Z * (string * list Z)))) (obj : option (list Z)) : Prop :=
  | object_new : fnd = None -> I = [] -> L = [] -> P ≡ₚ tile 0 (sz x) bs -> object_inv x P I L fnd prt obj
  | object_open uid rep ps :
      fnd = Some (mkUpload (Zsum (snd <$> (fst <$> rep))) uid (part_of <$> rep)) ->
      Forall (fun i => i.1 = uid) I -> Forall (fun l => l = (uid, None)) L ->
      prt uid = Some ps -> ps ≡ₚ stored <$> ((snd <$> I) ++ rep) ->
      P ++ (fst <$> (snd <$> I)) ++ (fst <$> rep) ≡ₚ tile 0 (sz x) bs -> P ++ (fst <$> (snd <$> I)) <> [] ->
      object_inv x P I L fnd prt obj
  | object_reported uid rep ps L' :
      fnd = None -> P = [] -> I = [] -> L ≡ₚ (uid, Some (part_of <$> rep)) :: L' -> Forall (fun l => l.2 = None) L' ->
      prt uid = Some ps -> ps ≡ₚ stored <$> rep -> (fst <$> rep) ≡ₚ tile 0 (sz x) bs -> rep <> [] ->
      object_inv x P I L fnd prt obj
  | object_complete :
      fnd = None -> P = [] -> I = [] -> Forall (fun l => l.2 = None) L -> obj = Some (content <$> seqZ 0 (sz x)) ->
      object_inv x P I L fnd prt obj.

Lemma object_inv_perm x P P' I I' L L' fnd prt prt' obj :
  P ≡ₚ P' -> I ≡ₚ I' -> L ≡ₚ L' -> (forall uid, prt' uid = prt uid) -> object_inv x P I L fnd prt obj -> object_inv x P' I' L' fnd prt' obj.
Proof.
  intros HP HI HL Hprt [? -> -> Ht|uid rep ps ? Hi Hl ? Hps Ht Hne|uid rep ps L1 ? -> -> Hl ? ? ? ? ?|? -> -> ? ?].
  - apply Permutation_nil_l in HI as <-. apply Permutation_nil_l in HL as <-. apply object_new; try done. by rewrite <- HP.
  - apply (object_open _ _ _ _ _ _ _ uid rep ps); try done.
    + by rewrite <- HI.
    + by rewrite <- HL.
    + by rewrite Hprt.
    + by rewrite <- HI.
    + by rewrite <- HI, <- HP.
    + intros Hnil. apply Hne, Permutation_nil_r. rewrite HI, HP. by rewrite Hnil.
  - apply Permutation_nil_l in HI as <-. apply Permutation_nil_l in HP as <-. apply (object_reported _ _ _ _ _ _ _ uid rep ps L1); try done; [by rewrite <- HL|by rewrite Hprt].
  - apply Permutation_nil_l in HI as <-. apply Permutation_nil_l in HP as <-. apply object_complete; try done. by rewrite <- HL.
Qed.

Lemma stored_nodup x us : (fst <$> us) ⊆+ tile 0 (sz x) bs -> NoDup (fst <$> (stored <$> us)).
Proof.
  intros Hs. pose proof (Hsz x). rewrite <- list_fmap_compose.
  assert (NoDup (part_num bs <$> (fst <$> us))) as Hnd; [|by rewrite <- list_fmap_compose in Hnd].
  apply submseteq_Permutation in Hs as [k Hk]. apply (fmap_Permutation (part_num bs)) in Hk. rewrite fmap_app, tile_part_nums in Hk by lia.
  pose proof (sorted_NoDup _ (seqZ_sorted 1 (tile_count (sz x) bs))) as Hnd. rewrite Hk in Hnd. by apply NoDup_app in Hnd as [? _].
Qed.

(** The first worker of an object creates the upload, all others get its ID. *)
Lemma object_get_id x P I L fnd prt obj : P <> [] -> object_inv x P I L fnd prt obj ->
  match fnd with
  | Some up => object_inv x P I ((up_uploadID up, None) :: L) fnd prt obj
  | None => forall uid prt' obj', prt' uid = Some [] -> object_inv x P I ((uid, None) :: L) (Some (mkUpload 0 uid [])) prt' obj'
  end.
Proof.
  intros HP [ -> -> -> Ht|uid rep ps -> Hi Hl Hu Hps Ht Hne|uid rep ps L1 -> -> -> Hl Hl' Hu Hps Ht Hne| -> -> -> Hl ->]; try done.
  - intros uid prt' obj' Hu. apply (object_open _ _ _ _ _ _ _ uid [] []); try done; [by repeat constructor|by rewrite !app_nil_r|]. by rewrite app_nil_r.
  - apply (object_open _ _ _ _ _ _ _ uid rep ps); try done. by constructor.
Qed.

(** The upload of a block. *)
Lemma object_upload x io P I uid L fnd prt obj : object_inv x (io :: P) I ((uid, None) :: L) fnd prt obj ->
  exists ps, prt uid = Some ps /\ 1 <= part_num bs io <= 10000 /\ 0 < io.2
    /\ forall tag prt' obj', prt' uid = Some (stored (io, tag) :: ps) -> object_inv x P ((uid, (io, tag)) :: I) L fnd prt' obj'.
Proof.
  pose proof (Hsz x) as Hx. pose proof (Hmax x) as Hm.
  intros [? ? [=] ?|uid' rep ps -> Hi Hl Hu Hps Ht Hne|uid' rep ps L1 ? [=] ?|? [=] ?].
  apply Forall_cons in Hl as [[= <-] Hl]. exists ps. split; [done|].
  destruct (tile_elem (sz x) bs ltac:(lia) ltac:(lia) io) as (Hn & Hpos & _); [rewrite <- Ht; by left|]. split; [lia|]. split; [done|].
  intros tag prt' obj' Hu'. apply (object_open _ _ _ _ _ _ _ uid rep (stored (io, tag) :: ps)); try done.
  - by constructor.
  - cbn. by rewrite Hps.
  - cbn. rewrite <- Ht. cbn. by rewrite <- Permutation_middle.
  - cbn. intros H0. by apply app_eq_nil in H0 as [_ [=]].
Qed.

Lemma tile_sum_le x l : l ⊆+ tile 0 (sz x) bs -> 0 <= Zsum (snd <$> l) <= sz x /\ Forall (fun io => 0 < io.2) l.
Proof.
  pose proof (Hsz x) as Hx. intros Hs. assert (forall io, io ∈ tile 0 (sz x) bs -> 0 < io.2) as Hpos by (intros io Hio; destruct (tile_elem (sz x) bs ltac:(lia) ltac:(lia) io Hio) as (_ & ? & _); done).
  apply submseteq_Permutation in Hs as [k Hk].
  assert (Forall (fun io => 0 < io.2) l) as Hl by (apply Forall_forall; intros io Hio; apply Hpos; rewrite Hk; apply elem_of_app; by left).
  assert (Forall (fun io => 0 < io.2) k) as Hk' by (apply Forall_forall; intros io Hio; apply Hpos; rewrite Hk; apply elem_of_app; by right).
  split; [|done]. pose proof (tile_sum (sz x) bs ltac:(lia) ltac:(lia)) as Hsum. rewrite (Zsum_perm _ _ (fmap_Permutation snd _ _ Hk)), fmap_app, Zsum_app in Hsum.
  assert (forall l : list (Z * Z), Forall (fun io => 0 < io.2) l -> 0 <= Zsum (snd <$> l)) as Hnn.
  { intros l0 Hl0. apply Zsum_nonneg, Forall_fmap. eapply Forall_impl; [exact Hl0|]. intros [? ?]. cbn. lia. }
  pose proof (Hnn l Hl). pose proof (Hnn k Hk'). lia.
Qed.

(** The report of a block: the last one gets all parts, the others nothing. *)
Lemma object_add x io tag P I uid L fnd prt obj : object_inv x P ((uid, (io, tag)) :: I) L fnd prt obj ->
  exists nb parts, fnd = Some (mkUpload nb uid parts) /\ 0 <= nb /\ 0 < io.2 /\ nb + io.2 <= sz x
    /\ if nb + io.2 <? sz x then object_inv x P I ((uid, None) :: L) (Some (mkUpload (nb + io.2) uid (parts ++ [part_of (io, tag)]))) prt obj
       else P = [] /\ object_inv x P I ((uid, Some (parts ++ [part_of (io, tag)])) :: L) None prt obj.
Proof.
  intros [? [=]|uid' rep ps -> Hi Hl Hu Hps Ht Hne|uid' rep ps L1 ? ? [=]|? ? [=]].
  apply Forall_cons in Hi as [Huid Hi]. cbn in Huid. subst uid'. cbn in Ht, Hps.
  assert (io :: (fst <$> rep) ⊆+ tile 0 (sz x) bs) as Hsub.
  { rewrite <- Ht. apply submseteq_inserts_l. constructor. by apply submseteq_inserts_l. }
  destruct (tile_sum_le x _ Hsub) as [Hsum Hpos]. rewrite fmap_cons, Zsum_cons in Hsum. apply Forall_cons in Hpos as [Hio Hpos].
  assert (0 <= Zsum (snd <$> (fst <$> rep))) as Hnb by (apply Zsum_nonneg, Forall_fmap; eapply Forall_impl; [exact Hpos|]; intros [? ?]; cbn; lia).
  eexists _, _. split; [done|]. split; [done|]. split; [done|]. split; [lia|].
  set (rep' := rep ++ [(io, tag)]). assert (part_of <$> rep ++ [(io, tag)] = (part_of <$> rep) ++ [part_of (io, tag)]) as Hparts by (by rewrite fmap_app).
  assert (Zsum (snd <$> (fst <$> rep')) = Zsum (snd <$> (fst <$> rep)) + io.2) as Hsum'.
  { unfold rep'. rewrite !fmap_app, Zsum_app. cbn. lia. }
  assert (P ++ (fst <$> (snd <$> I)) ++ (fst <$> rep') ≡ₚ tile 0 (sz x) bs) as Ht'.
  { rewrite <- Ht. unfold rep'. rewrite fmap_app. cbn. solve_Permutation. }
  assert (ps ≡ₚ stored <$> ((snd <$> I) ++ rep')) as Hps'.
  { rewrite Hps. unfold rep'. rewrite !fmap_app. cbn. solve_Permutation. }
  pose proof (tile_sum (sz x) bs ltac:(lia) ltac:(pose proof (Hsz x); lia)) as Htot.
  rewrite (Zsum_perm _ _ (fmap_Permutation snd _ _ (symmetry Ht'))) in Htot. rewrite app_assoc, fmap_app, Zsum_app, Hsum' in Htot.
  destruct (tile_sum_le x (P ++ (fst <$> (snd <$> I)))) as [_ Hrest]; [rewrite <- Ht', app_assoc; by apply submseteq_inserts_r|].
  destruct (Z.ltb_spec (Zsum (snd <$> (fst <$> rep)) + io.2) (sz x)) as [Hlt|Hge].
  - rewrite <- Hsum', <- Hparts. apply (object_open _ _ _ _ _ _ _ uid rep' ps); try done; [by constructor|]. intros H0. rewrite H0 in Htot. cbn in Htot. lia.
  - assert (P ++ (fst <$> (snd <$> I)) = []) as H0.
    { destruct (P ++ (fst <$> (snd <$> I))) as [|io1 rest]; [done|]. apply Forall_cons in Hrest as [H1 Hrest]. rewrite fmap_cons, Zsum_cons in Htot.
      assert (0 <= Zsum (snd <$> rest)) by (apply Zsum_nonneg, Forall_fmap; eapply Forall_impl; [exact Hrest|]; intros [? ?]; cbn; lia). lia. }
    apply app_eq_nil in H0 as [-> H0]. apply fmap_nil_inv, fmap_nil_inv in H0 as ->. split; [done|]. rewrite <- Hparts.
    apply (object_reported _ _ _ _ _ _ _ uid rep' ps L); try done; [eapply Forall_impl; [exact Hl|]; by intros l ->|].
    unfold rep'. by intros [_ [=]]%app_eq_nil.
Qed.

(** A worker that has nothing to complete goes on. *)
Lemma object_leave x P I uid L fnd prt obj : object_inv x P I ((uid, None) :: L) fnd prt obj -> object_inv x P I L fnd prt obj.
Proof.
  intros [? ? [=]|uid' rep ps -> Hi Hl Hu Hps Ht Hne|uid' rep ps L1 -> -> -> Hl Hl' Hu Hps Ht Hne| -> -> -> Hl ->].
  - apply Forall_cons in Hl as [_ Hl]. by apply (object_open _ _ _ _ _ _ _ uid' rep ps).
  - assert ((uid, None) ∈ L1) as Hin.
    { assert ((uid, None) ∈ (uid', Some (part_of <$> rep)) :: L1) as Hin by (rewrite <- Hl; by left). by apply elem_of_cons in Hin as [[=]|?]. }
    apply elem_of_Permutation in Hin as [L2 HL2]. rewrite HL2 in Hl, Hl'. apply Forall_cons in Hl' as [_ Hl'].
    apply (object_reported _ _ _ _ _ _ _ uid' rep ps L2); try done. apply (Permutation_cons_inv (a := (uid, None))). rewrite Hl. constructor.
  - apply Forall_cons in Hl as [_ Hl]. by apply object_complete.
Qed.

Lemma merge_sort_parts rep : exists rep', rep' ≡ₚ rep /\ merge_sort part_le (part_of <$> rep) = part_of <$> rep'
  /\ StronglySorted Z.le (part_num bs <$> (fst <$> rep')).
Proof.
  assert (Transitive part_le) as Htr by (intros a b c; unfold part_le; lia). assert (Total part_le) as Htot by (intros a b; unfold part_le; lia).
  pose proof (merge_sort_Permutation part_le (part_of <$> rep)) as Hp. pose proof (Sorted_StronglySorted Htr (Sorted_merge_sort part_le (part_of <$> rep))) as Hs.
  destruct (Permutation_map_inv _ _ Hp) as (rep' & Heq & Hperm). change (map part_of rep') with (part_of <$> rep') in Heq.
  exists rep'. split; [by symmetry|]. split; [exact Heq|]. rewrite Heq in Hs. clear -Hs.
  induction rep' as [|u rep' IH]; [constructor|]. rewrite fmap_cons in Hs. apply StronglySorted_inv in Hs as [Hs Hall]. rewrite !fmap_cons. constructor; [by apply IH|].
  apply Forall_fmap, Forall_fmap. exact (proj1 (Forall_fmap part_of _ rep') Hall).
Qed.

(** The completion assembles the object. *)
Lemma object_finish x P I uid parts L fnd prt obj : object_inv x P I ((uid, Some parts) :: L) fnd prt obj ->
  exists ps datas, prt uid = Some ps /\ merge_sort part_le parts <> [] /\ StronglySorted Z.lt (fst <$> merge_sort part_le parts)
    /\ Forall2 (fun c data => part_lookup c.1 ps = Some (c.2, data)) (merge_sort part_le parts) datas
    /\ forall prt', object_inv x P I L fnd prt' (Some (concat datas)).
Proof.
  pose proof (Hsz x) as Hx.
  intros [? ? [=]|uid' rep ps -> Hi Hl Hu Hps Ht Hne|uid' rep ps L1 -> -> -> Hl Hl' Hu Hps Ht Hne| -> -> -> Hl ->].
  { by apply Forall_cons in Hl as [[=] _]. }
  2: { by apply Forall_cons in Hl as [[=] _]. }
  assert ((uid, Some parts) = (uid', Some (part_of <$> rep)) /\ L ≡ₚ L1) as [[= <- ->] HL].
  { assert ((uid, Some parts) ∈ (uid', Some (part_of <$> rep)) :: L1) as Hin by (rewrite <- Hl; by left). apply elem_of_cons in Hin as [Heq|Hin].
    - split; [done|]. rewrite Heq in Hl. by apply Permutation_cons_inv in Hl.
    - rewrite Forall_forall in Hl'. by specialize (Hl' _ Hin). }
  destruct (merge_sort_parts rep) as (rep' & Hperm & -> & Hsort). rewrite <- Hperm in Ht, Hps.
  destruct (sorted_tile (sz x) bs ltac:(lia) ltac:(lia) _ Ht Hsort) as [Heq Hnums].
  exists ps, ((fun u => block_of content u.1.1 u.1.2) <$> rep'). split; [done|]. split; [|split; [|split]].
  - intros H0. apply fmap_nil_inv in H0 as ->. by apply Permutation_nil_l in Hperm.
  - rewrite <- list_fmap_compose. rewrite <- list_fmap_compose in Hnums. change (fst ∘ part_of) with (part_num bs ∘ fst (A := Z * Z) (B := string)).
    rewrite Hnums. apply seqZ_sorted.
  - apply Forall2_fmap_2, Forall_Forall2_diag, Forall_forall. intros u Hu'. cbn.
    rewrite <- (app_nil_r ps). apply part_lookup_elem.
    + rewrite Hps. apply (stored_nodup x). by rewrite Ht.
    + rewrite Hps. apply list_elem_of_fmap. by exists u.
  - intros prt'. apply object_complete; try done; [by rewrite HL|]. f_equal.
    transitivity (concat ((fun io => block_of content io.1 io.2) <$> (fst <$> rep'))); [by rewrite <- list_fmap_compose|]. rewrite Heq.
    rewrite (contiguous_content content 0).
    + by rewrite tile_sum by lia.
    + apply Forall_forall. intros io Hio. destruct (tile_elem (sz x) bs ltac:(lia) ltac:(lia) io Hio) as (_ & ? & _). lia.
    + apply tile_contiguous; lia.
Qed.
End objects.

(** ** The workers *)

Section run.
Context {R D G Sv : Type} `{!OffsetGenerator R D G, !SliceDraws R D G}.
Context (ops : S3Ops Sv) `{!S3Laws ops, !S3FrameLaws ops} (args : S3Args) (content : Z -> Z) (post_check : Z -> Z -> result unit).
Context (bucketName objectPrefix : string) (bs : Z) (sz : string -> Z).
Hypothesis (Hbs : 0 < bs < 2 ^ 63) (Hsz : forall x, 0 <= sz x < 2 ^ 63) (Hmax : forall x, tile_count (sz x) bs <= 10000).
Hypothesis post_check_ok : forall n off, post_check n off = Ok tt.
Hypothesis completes : s3a_noMpuCompletion args = false.
#[local] Abbreviation worker := (SharedWorker R D G).
#[local] Abbreviation state := (list worker * SharedData Sv)%type.
#[local] Abbreviation step := (shared_step (R := R) (D := D) (G := G) ops args (block_of content) post_check bucketName objectPrefix).
#[local] Abbreviation key := (object_key bucketName objectPrefix).

Definition elem_ok (el : PathStoreElem) : Prop :=
  0 < rangeLen el /\ 0 <= rangeStart el /\ rangeStart el + rangeLen el < 2 ^ 63 /\ totalLen el = sz (path el).

(** The blocks that a worker still has to upload. *)
Definition pc_plan (w : worker) (p : list (string * Z * Z)) : Prop :=
  match sw_pc w with
  | Sh_next => p ≡ₚ store_blocks bs (sw_elems w)
  | Sh_getID el => totalLen el = sz (path el)
      /\ exists ios, draws (sw_gen w) (sw_env w) ios /\ ios <> [] /\ p ≡ₚ with_path (path el) ios ++ store_blocks bs (sw_elems w)
  | Sh_loop el _ None => totalLen el = sz (path el)
      /\ exists ios, draws (sw_gen w) (sw_env w) ios /\ p ≡ₚ with_path (path el) ios ++ store_blocks bs (sw_elems w)
  | Sh_loop el _ (Some _) => draws (sw_gen w) (sw_env w) [] /\ p ≡ₚ store_blocks bs (sw_elems w)
  | Sh_add el _ size off part => totalLen el = sz (path el) /\ part.1 = part_num bs (off, size)
      /\ exists ios, draws (addBytesSubmitted size (sw_gen w)) (sw_env w) ios /\ p ≡ₚ with_path (path el) ios ++ store_blocks bs (sw_elems w)
  | Sh_done => p = []
  | Sh_cleanup _ | Sh_failed _ => False
  end.

Definition worker_plan (w : worker) (p : list (string * Z * Z)) : Prop :=
  sd_ok bs (sw_gen w) /\ Forall elem_ok (sw_elems w) /\ pc_plan w p.

(** What a worker has at an object. *)
Definition in_flight (x : string) (w : worker) : list (string * (Z * Z * string)) :=
  match sw_pc w with Sh_add el uid size off part => if decide (path el = x) then [(uid, (off, size, part.2))] else [] | _ => [] end.

Definition at_loop (x : string) (w : worker) : list (string * option (list CompletedPart)) :=
  match sw_pc w with Sh_loop el uid all => if decide (path el = x) then [(uid, all)] else [] | _ => [] end.

(** Enough for the remaining steps of a worker. *)
Definition pc_weight (pc : SharedPc) : nat :=
  match pc with Sh_next => 1 | Sh_getID _ => 3 | Sh_loop _ _ _ => 2 | Sh_add _ _ _ _ _ => 3 | _ => 0 end.
Definition weight (w : worker) (p : list (string * Z * Z)) : nat := 2 * length p + 3 * length (sw_elems w) + pc_weight (sw_pc w).

(** An object as [object_inv] sees it. *)
Definition object_ok (x : string) (P : list (Z * Z)) (I : list (string * (Z * Z * string))) (L : list (string * option (list CompletedPart)))
    (h : SharedData Sv) : Prop :=
  object_inv content bs sz x P I L (upload_find (key x) (sd_store h)) (sl_parts (sd_server h) (key x)) (sl_object (sd_server h) (key x)).

Definition run_inv (n : nat) (st : state) : Prop :=
  exists wps : list (worker * list (string * Z * Z)), st.1 = fst <$> wps
    /\ Forall (fun wp => worker_plan wp.1 wp.2) wps /\ upload_sorted (sd_store st.2)
    /\ n = sum_list_with (fun wp => weight wp.1 wp.2) wps
    /\ forall x, object_ok x (wps ≫= (fun wp => blocks_of x wp.2)) (wps ≫= (fun wp => in_flight x wp.1)) (wps ≫= (fun wp => at_loop x wp.1)) st.2.

Lemma key_inj x y : key x = key y -> x = y.
Proof. unfold object_key. intros [= H]. induction objectPrefix as [|c s IH]; [done|]. cbn in H. injection H as H. by apply IH. Qed.

(** A step of a worker does its part: with a plan [p] before it there is a shorter one after it, and
    every object stays well, whatever the other workers have at it. *)
Definition step_keeps (w : worker) (h : SharedData Sv) (w' : worker) (h' : SharedData Sv) : Prop :=
  forall p, worker_plan w p -> upload_sorted (sd_store h) ->
    (forall x, exists P I L, object_ok x (blocks_of x p ++ P) (in_flight x w ++ I) (at_loop x w ++ L) h) ->
    exists p', worker_plan w' p' /\ upload_sorted (sd_store h') /\ (weight w' p' < weight w p)%nat
      /\ forall x P I L, object_ok x (blocks_of x p ++ P) (in_flight x w ++ I) (at_loop x w ++ L) h ->
           object_ok x (blocks_of x p' ++ P) (in_flight x w' ++ I) (at_loop x w' ++ L) h'.

Lemma run_inv_step n ws h i w w' h' :
  run_inv n (ws, h) -> ws !! i = Some w -> step_keeps w h w' h' ->
  exists m, (m < n)%nat /\ run_inv m (<[i := w']> ws, h').
Proof.
  intros (wps & Hws & Hall & Hsort & Hn & Hobj) Hi Hstep. cbn [fst snd] in *. subst ws. apply list_lookup_fmap_Some in Hi as ([w0 p] & -> & Hi). cbn [fst] in *.
  pose proof (Forall_lookup_1 _ _ _ _ Hall Hi) as Hw. cbn [fst snd] in Hw.
  assert (forall x p', exists P I L,
    (object_ok x (blocks_of x p ++ P) (in_flight x w0 ++ I) (at_loop x w0 ++ L) h)
    /\ (object_ok x (blocks_of x p' ++ P) (in_flight x w' ++ I) (at_loop x w' ++ L) h' ->
        object_ok x (<[i := (w', p')]> wps ≫= (fun wp => blocks_of x wp.2)) (<[i := (w', p')]> wps ≫= (fun wp => in_flight x wp.1))
          (<[i := (w', p')]> wps ≫= (fun wp => at_loop x wp.1)) h')) as Hview.
  { intros x p'. destruct (insert_bind_perm (fun wp => blocks_of x wp.2) wps i _ (w', p') Hi) as (P & HP & HP').
    destruct (insert_bind_perm (fun wp => in_flight x wp.1) wps i _ (w', p') Hi) as (I & HI & HI').
    destruct (insert_bind_perm (fun wp => at_loop x wp.1) wps i _ (w', p') Hi) as (L & HL & HL'). cbn [fst snd] in *.
    exists P, I, L. split; [eapply object_inv_perm; [exact HP|exact HI|exact HL|done|apply Hobj]|].
    intros H. eapply object_inv_perm; [symmetry; exact HP'|symmetry; exact HI'|symmetry; exact HL'|done|exact H]. }
  destruct (Hstep p Hw Hsort) as (p' & Hw' & Hsort' & Hlt & Hstep').
  { intros x. destruct (Hview x []) as (P & I & L & H & _). by exists P, I, L. }
  exists (sum_list_with (fun wp => weight wp.1 wp.2) (<[i := (w', p')]> wps)). pose proof (lookup_lt_Some _ _ _ Hi) as Hlen. split.
  - rewrite Hn. rewrite <- (take_drop_middle wps i _ Hi) at 2. rewrite insert_take_drop by done. rewrite !sum_list_with_app. cbn [sum_list_with fst snd]. lia.
  - exists (<[i := (w', p')]> wps). cbn [fst snd]. split; [by rewrite list_fmap_insert|]. split; [by apply Forall_insert|]. split; [done|]. split; [done|].
    intros x. destruct (Hview x p') as (P & I & L & H & Hback). apply Hback. by apply Hstep'.
Qed.

Lemma Forall2_lookups_unique (ps : list (Z * (string * list Z))) cl datas datas' :
  Forall2 (fun c data => part_lookup c.1 ps = Some (c.2, data)) cl datas -> Forall2 (fun c data => part_lookup c.1 ps = Some (c.2, data)) cl datas' -> datas = datas'.
Proof.
  intros H. revert datas'. induction H as [|c d cl datas Hc _ IH]; intros datas' H'; inversion H' as [|c' d' cl' ds' Hc' H'']; subst; [done|].
  rewrite Hc in Hc'. injection Hc' as ->. f_equal. by apply IH.
Qed.

(** An object that a step does not touch. *)
Lemma object_frame x P P' I L h h' :
  upload_find (key x) (sd_store h') = upload_find (key x) (sd_store h) ->
  (forall uid, sl_parts (sd_server h') (key x) uid = sl_parts (sd_server h) (key x) uid /\ sl_object (sd_server h') (key x) = sl_object (sd_server h) (key x)) ->
  P ≡ₚ P' -> object_ok x P I L h -> object_ok x P' I L h'.
Proof.
  intros Hf Hs HP H. unfold object_ok in *. rewrite Hf. rewrite (proj2 (Hs "")). eapply object_inv_perm; [exact HP|done|done|intros uid; apply Hs|exact H].
Qed.

Lemma key_ne x y : y <> x -> key y <> key x.
Proof. intros Hne Heq. by apply Hne, key_inj. Qed.

Lemma tile_nonempty off len : 0 < len -> tile off len bs <> [].
Proof.
  intros Hlen Hnil. apply (f_equal length) in Hnil. unfold tile in Hnil. rewrite length_fmap, length_seqZ in Hnil. cbn in Hnil.
  destruct (tile_count_spec len bs) as (_ & H & _); nia.
Qed.

Lemma shared_next_keeps w h : sw_pc w = Sh_next ->
  let '(w', h') := shared_next ops w h in step_keeps w h w' h'.
Proof.
  intros Hpc. unfold shared_next. destruct (sw_elems w) as [|el els] eqn:Hels.
  - intros p (Hg & Hel & Hp) Hs _. unfold pc_plan in Hp. rewrite Hpc, Hels in Hp. apply Permutation_nil_r in Hp as ->. exists []. split; [|split; [done|split]].
    + by split_and!.
    + unfold weight. rewrite Hpc. cbn. lia.
    + intros x P I L. unfold in_flight, at_loop. rewrite Hpc. done.
  - rewrite sl_calm, andb_false_r. destruct (og_reset_to _ _ _ _) as [[g e]|ex] eqn:Hr.
    all: intros p (Hg & Hel & Hp) Hs _; unfold pc_plan in Hp; rewrite Hpc, Hels in Hp; rewrite Hels in Hel; apply Forall_cons in Hel as [Hok Hel];
      destruct Hok as (Hl & Ho & Hol & Htl); destruct (sd_reset bs (sw_gen w) (sw_env w) (rangeLen el) (rangeStart el)) as (g1 & e1 & ios & Hr1 & Hg1 & Hd & Hios); try done;
      rewrite Hr in Hr1; try discriminate Hr1; injection Hr1 as <- <-.
    assert (p ≡ₚ with_path (path el) ios ++ store_blocks bs els) as Hp'.
    { rewrite Hp, store_blocks_cons, elem_blocks_with_path. unfold with_path. by rewrite Hios. }
    exists p. split; [|split; [done|split]].
    + split; [done|]. split; [done|]. split; [done|]. exists ios. split; [done|]. split; [|done].
      intros ->. apply Permutation_nil_l in Hios. by apply (tile_nonempty (rangeStart el) (rangeLen el)).
    + unfold weight. rewrite Hpc, Hels. cbn. lia.
    + intros x P I L. unfold in_flight, at_loop. by rewrite Hpc.
Qed.

Lemma shared_getID_keeps w h el : sw_pc w = Sh_getID el ->
  let '(w', h') := shared_getID ops bucketName objectPrefix el w h in step_keeps w h w' h'.
Proof.
  intros Hpc. destruct (shared_getID _ _ _ _ _ _) as [w' h'] eqn:E. unfold shared_getID, getMultipartUploadID in E.
  intros p (Hg & Hel & Hp) Hs _. unfold pc_plan in Hp. rewrite Hpc in Hp. destruct Hp as (Htl & ios & Hd & Hne & Hp).
  assert (forall x P, path el = x -> blocks_of x p ++ P <> []) as HP.
  { intros x P <- Hnil. apply app_eq_nil in Hnil as [Hnil _]. apply (f_equal length) in Hnil. rewrite (Permutation_length (blocks_of_perm _ _ _ Hp)) in Hnil.
    rewrite blocks_of_app, blocks_of_with_path, decide_True, length_app in Hnil by done. destruct ios; [done|cbn in Hnil; lia]. }
  exists p. assert (forall uid, pc_plan (set_sw_pc (Sh_loop el uid None) w) p) as Hplan by (intros uid; split; [done|]; by exists ios).
  destruct (upload_find (key (path el)) (sd_store h)) as [up|] eqn:Hf.
  - injection E as <- <-. split; [by split_and!|]. split; [done|]. split; [unfold weight; rewrite Hpc; cbn; lia|].
    intros x P I L H. unfold in_flight, at_loop in *. rewrite Hpc in H. cbn [sw_pc set_sw_pc app] in *. case_decide as Hx.
    + subst x. unfold object_ok in *. cbn [sd_store sd_server app]. pose proof (object_get_id _ _ _ _ _ _ _ _ _ _ (HP _ _ eq_refl) H) as H1. rewrite Hf in *. exact H1.
    + exact H.
  - destruct (sl_create (key (path el)) (sd_server h)) as (uid & sv & Hc & Hps). pose proof (sf_create (key (path el))) as Hfr.
    rewrite Hc in E. injection E as <- <-. split; [by split_and!|]. split; [by apply upload_insert_sorted|]. split; [unfold weight; rewrite Hpc; cbn; lia|].
    intros x P I L H. unfold in_flight, at_loop in *. rewrite Hpc in H. cbn [sw_pc set_sw_pc app] in *. case_decide as Hx.
    + subst x. unfold object_ok in *. cbn [sd_store sd_server app]. pose proof (object_get_id _ _ _ _ _ _ _ _ _ _ (HP _ _ eq_refl) H) as H1. rewrite Hf in H1.
      rewrite upload_find_insert, decide_True by done. by apply H1.
    + eapply object_frame; [..|exact H]; [| |done]; cbn [sd_store sd_server].
      * rewrite upload_find_insert, decide_False by (by apply key_ne). done.
      * intros uid'. specialize (Hfr (key x) (sd_server h) uid'). rewrite Hc in Hfr. apply Hfr. by apply key_ne.
Qed.

Lemma shared_upload_keeps w h el uid all : sw_pc w = Sh_loop el uid all -> getNumBytesLeftToSubmit (sw_gen w) <> 0 ->
  forall w' h', shared_upload ops (block_of content) bucketName objectPrefix el uid w h = Some (w', h') -> step_keeps w h w' h'.
Proof.
  intros Hpc Hleft w' h' E p (Hg & Hel & Hp) Hs Hobj. unfold pc_plan in Hp. rewrite Hpc in Hp.
  destruct all as [parts|]; [destruct Hp as [Hd _]; by inversion Hd|]. destruct Hp as (Htl & ios & Hd & Hp).
  inversion Hd as [|g0 e0 size e1 off g2 e2 ios' _ Hsize Hoff Hd']; [done|]; subst. unfold shared_upload in E. rewrite Hsize in E. cbn [mbind option_bind] in E.
  rewrite Hoff in E. cbn [mbind option_bind] in E. rewrite (sd_size bs g2) in E by (by eapply sd_next).
  change (1 +₆₄ (off / bs)) with (part_num bs (off, size)) in E. set (x0 := path el) in *.
  assert (forall P, blocks_of x0 p ++ P ≡ₚ (off, size) :: blocks_of x0 (with_path x0 ios' ++ store_blocks bs (sw_elems w)) ++ P) as HP.
  { intros P. rewrite Hp. cbn [with_path fmap list_fmap app]. unfold blocks_of. by rewrite filter_cons_True. }
  assert (forall P I L, object_ok x0 (blocks_of x0 p ++ P) I ((uid, None) :: L) h ->
    object_ok x0 ((off, size) :: blocks_of x0 (with_path x0 ios' ++ store_blocks bs (sw_elems w)) ++ P) I ((uid, None) :: L) h) as Hhead.
  { intros P I L H. eapply object_inv_perm; [apply HP|done|done|done|exact H]. }
  destruct (Hobj x0) as (P0 & I0 & L0 & H0). unfold at_loop in H0. rewrite Hpc in H0. fold x0 in H0. rewrite decide_True in H0 by done.
  destruct (object_upload _ _ _ (proj1 Hbs) Hsz Hmax _ _ _ _ _ _ _ _ _ (Hhead _ _ _ H0)) as (ps0 & Hps0 & Hnum & Hpos & _).
  rewrite part_int_small in E by lia.
  destruct (sl_upload (key x0) uid (part_num bs (off, size)) (block_of content off size) (sd_server h) ps0 Hps0 Hnum) as (tag & sv & Hup & Hps).
  rewrite Hup, sl_calm in E. injection E as <- <-.
  exists (with_path x0 ios' ++ store_blocks bs (sw_elems w)). split; [|split; [done|split]].
  - split; [by eapply sd_next|]. split; [done|]. split; [done|]. split; [done|]. exists ios'. by split.
  - unfold weight. rewrite Hpc. cbn [sw_elems sw_pc pc_weight]. rewrite (Permutation_length Hp), !length_app. unfold with_path. rewrite !length_fmap. cbn [length]. lia.
  - intros x P I L H. unfold in_flight, at_loop in *. rewrite Hpc in H. cbn [sw_pc app snd] in *. fold x0 in H |- *. case_decide as Hx.
    + subst x. cbn [app] in *. destruct (object_upload _ _ _ (proj1 Hbs) Hsz Hmax _ _ _ _ _ _ _ _ _ (Hhead _ _ _ H)) as (ps & Hps' & _ & _ & Hnext).
      rewrite Hps0 in Hps'. injection Hps' as <-. by apply Hnext.
    + eapply object_frame; [..|exact H]; cbn [sd_store sd_server]; [done| |].
      * intros uid'. pose proof (sf_upload (key x0) (key x) uid (part_num bs (off, size)) (block_of content off size) (sd_server h) uid') as Hf.
        rewrite Hup in Hf. apply Hf. by apply key_ne.
      * rewrite Hp, !blocks_of_app, !blocks_of_with_path, !decide_False by done. done.
Qed.

Lemma shared_add_keeps w h el uid size off part : sw_pc w = Sh_add el uid size off part ->
  let '(w', h') := shared_add args post_check bucketName objectPrefix el uid size off part w h in step_keeps w h w' h'.
Proof.
  intros Hpc. destruct (shared_add _ _ _ _ _ _ _ _ _ _ _) as [w' h'] eqn:E.
  intros p (Hg & Hel & Hp) Hs Hobj. unfold pc_plan in Hp. rewrite Hpc in Hp. destruct Hp as (Htl & Hpart & ios & Hd & Hp).
  set (x0 := path el) in *. set (g := addBytesSubmitted size (sw_gen w)) in *. set (io := (off, size)) in *.
  assert (part = part_of bs (io, part.2)) as Hpart' by (destruct part; unfold part_of; cbn in *; by rewrite Hpart).
  destruct (Hobj x0) as (P0 & I0 & L0 & H0). unfold in_flight, at_loop in H0. rewrite Hpc in H0. fold x0 in H0. rewrite decide_True in H0 by done. cbn [app] in H0.
  destruct (object_add _ _ _ (proj1 Hbs) Hsz _ _ _ _ _ _ _ _ _ _ H0) as (nb & parts & Hf & Hnb & Hpos & Hle & Hcase0).
  assert (sd_ok bs g) as Hg' by (by apply sd_add).
  assert ((nb + size <? sz x0) = false -> ios = []) as Hlast.
  { intros Hlt. cbn [snd] in Hcase0. rewrite Hlt in Hcase0. destruct Hcase0 as [Hnil _]. apply app_eq_nil in Hnil as [Hnil _]. apply (f_equal length) in Hnil.
    rewrite (Permutation_length (blocks_of_perm _ _ _ Hp)) in Hnil.
    rewrite blocks_of_app, blocks_of_with_path, decide_True, length_app in Hnil by done. destruct ios; [done|cbn in Hnil; lia]. }
  pose proof (Hsz x0) as Hx0. unfold shared_add, addCompletedPart in E. fold x0 in E. rewrite Hf in E. cbn [up_numBytesDone up_uploadID up_completedParts] in E.
  rewrite completes, orb_false_r, Htl, u64_small in E by (cbn in *; lia). rewrite post_check_ok in E. fold g in E.
  set (all := if nb + size <? sz x0 then None else Some (parts ++ [part])).
  set (m := if nb + size <? sz x0 then upload_insert (key x0) (mkUpload (nb + size) uid (parts ++ [part])) (sd_store h)
            else upload_erase (key x0) (upload_insert (key x0) (mkUpload (nb + size) uid (parts ++ [part])) (sd_store h))).
  assert (w' = mkSharedWorker g (sw_env w) (sw_elems w) (Sh_loop el uid all) (count_part (sw_counters w)) /\ h' = mkSharedData m (sd_server h) (sd_log h)) as [-> ->].
  { unfold all, m. destruct (nb + size <? sz x0); cbn in E; [by injection E as <- <-|]. specialize (Hlast eq_refl). subst ios.
    inversion Hd as [g0 e0 Hl|]; subst. rewrite Hl in E. by injection E as <- <-. }
  assert (upload_sorted m) as Hm by (unfold m; destruct (_ <? _); [by apply upload_insert_sorted|by apply upload_erase_sorted, upload_insert_sorted]).
  exists p. split; [|split; [done|split]].
  - split; [done|]. split; [done|]. unfold pc_plan, all. cbn [sw_pc sw_gen sw_env sw_elems]. destruct (nb + size <? sz x0).
    + split; [done|]. by exists ios.
    + specialize (Hlast eq_refl). subst ios. by split.
  - unfold weight. rewrite Hpc. cbn. lia.
  - intros x P I L H. unfold in_flight, at_loop in *. rewrite Hpc in H. cbn [sw_pc app] in *. fold x0 in H |- *. case_decide as Hx.
    + subst x. destruct (object_add _ _ _ (proj1 Hbs) Hsz _ _ _ _ _ _ _ _ _ _ H) as (nb' & parts' & Hf' & _ & _ & _ & Hcase). rewrite Hf in Hf'. injection Hf' as <- <-.
      unfold io in Hpart'. rewrite <- Hpart' in Hcase. unfold object_ok, m, all. cbn [sd_store sd_server io snd] in *. destruct (nb + size <? sz x0).
      * rewrite upload_find_insert, decide_True by done. exact Hcase.
      * rewrite upload_find_erase, decide_True by (done || by apply upload_insert_sorted). apply Hcase.
    + eapply object_frame; [..|exact H]; cbn [sd_store sd_server]; [|done|done]. pose proof (key_ne _ _ (not_eq_sym Hx)) as Hk. unfold m.
      destruct (_ <? _); rewrite ?upload_find_erase, ?decide_False, upload_find_insert, decide_False by (done || by apply upload_insert_sorted); done.
Qed.

Lemma shared_complete_keeps w h el uid all : sw_pc w = Sh_loop el uid all -> getNumBytesLeftToSubmit (sw_gen w) = 0 ->
  let '(w', h') := shared_complete ops args bucketName objectPrefix el uid all w h in step_keeps w h w' h'.
Proof.
  intros Hpc Hleft. destruct (shared_complete _ _ _ _ _ _ _ _ _) as [w' h'] eqn:E. unfold shared_complete in E. rewrite completes in E.
  intros p (Hg & Hel & Hp) Hs Hobj. unfold pc_plan in Hp. rewrite Hpc in Hp. set (x0 := path el) in *.
  assert (p ≡ₚ store_blocks bs (sw_elems w)) as Hp'.
  { destruct all; [by destruct Hp|]. destruct Hp as (_ & ios & Hd & Hp). by inversion Hd; subst. }
  clear Hp. exists p. destruct all as [parts|].
  - destruct (Hobj x0) as (P0 & I0 & L0 & H0). unfold at_loop in H0. rewrite Hpc in H0. fold x0 in H0. rewrite decide_True in H0 by done. cbn [app] in H0.
    destruct (object_finish _ _ _ (proj1 Hbs) Hsz _ _ _ _ _ _ _ _ _ H0) as (ps & datas & Hps & Hne & Hsort & Hm & _).
    destruct (sl_complete (key x0) uid _ _ _ _ Hps Hne Hsort Hm) as (sv & Hc & Hobj').
    rewrite Hc in E. injection E as <- <-. split; [by split_and!|]. split; [done|]. split; [unfold weight; rewrite Hpc; cbn; lia|].
    intros x P I L H. unfold in_flight, at_loop in *. rewrite Hpc in H. cbn [sw_pc app] in *. fold x0 in H. case_decide as Hx.
    + subst x. destruct (object_finish _ _ _ (proj1 Hbs) Hsz _ _ _ _ _ _ _ _ _ H) as (ps' & datas' & Hps' & _ & _ & Hm' & Hnext).
      assert (datas' = datas) as -> by (rewrite Hps in Hps'; injection Hps' as <-; eapply Forall2_lookups_unique; [exact Hm'|exact Hm]).
      unfold object_ok. cbn [sd_store sd_server]. rewrite Hobj'. apply Hnext.
    + eapply object_frame; [..|exact H]; cbn [sd_store sd_server]; [done| |done].
      intros uid'. pose proof (sf_complete (key x0) (key x) uid (merge_sort part_le parts) (sd_server h) uid') as Hf. rewrite Hc in Hf. apply Hf. by apply key_ne.
  - injection E as <- <-. split; [by split_and!|]. split; [done|]. split; [unfold weight; rewrite Hpc; cbn; lia|].
    intros x P I L H. unfold in_flight, at_loop in *. rewrite Hpc in H. cbn [sw_pc app] in *. fold x0 in H. case_decide as Hx; [|done].
    by eapply object_leave.
Qed.

Lemma shared_step_inv n st st' : run_inv n st -> step st st' -> exists m, (m < n)%nat /\ run_inv m st'.
Proof.
  intros Hinv Hstep. destruct Hstep as [i w w' ws h h' Hi Hact]. eapply run_inv_step; [done..|]. unfold shared_action in Hact. destruct (sw_pc w) eqn:Hpc.
  - pose proof (shared_next_keeps w h Hpc) as H. injection Hact as Heq. by rewrite Heq in H.
  - pose proof (shared_getID_keeps w h _ Hpc) as H. injection Hact as Heq. by rewrite Heq in H.
  - destruct (Z.eqb_spec (getNumBytesLeftToSubmit (sw_gen w)) 0) as [Hl|Hl].
    + pose proof (shared_complete_keeps w h _ _ _ Hpc Hl) as H. injection Hact as Heq. by rewrite Heq in H.
    + by eapply shared_upload_keeps.
  - pose proof (shared_add_keeps w h _ _ _ _ _ Hpc) as H. injection Hact as Heq. by rewrite Heq in H.
  - discriminate.
  - destruct Hinv as (wps & Hws & Hall & _). cbn [fst] in Hws. subst ws. apply list_lookup_fmap_Some in Hi as ([w0 p] & -> & Hi).
    pose proof (Forall_lookup_1 _ _ _ _ Hall Hi) as (_ & _ & Hp). unfold pc_plan in Hp. cbn [fst] in *. by rewrite Hpc in Hp.
  - discriminate.
Qed.

(** A worker that is not done can go on. *)
Lemma worker_moves w p h : worker_plan w p -> sw_pc w <> Sh_done ->
  is_Some (shared_action ops args (block_of content) post_check bucketName objectPrefix w h).
Proof.
  intros (_ & _ & Hp) Hne. unfold pc_plan in Hp. unfold shared_action. destruct (sw_pc w) as [|el|el uid all|el uid size off part| |ex|ex]; try done.
  destruct (Z.eqb_spec (getNumBytesLeftToSubmit (sw_gen w)) 0) as [Hl|Hl]; [done|].
  assert (exists ios, draws (sw_gen w) (sw_env w) ios) as [ios Hd] by (destruct all; [destruct Hp as [Hd _]; by eexists|destruct Hp as (_ & ios & Hd & _); by eexists]).
  inversion Hd as [|g0 e0 size e1 off g2 e2 ios' _ Hsize Hoff Hd']; [done|]; subst. unfold shared_upload. rewrite Hsize. cbn [mbind option_bind]. rewrite Hoff. cbn [mbind option_bind].
  destruct (s3_uploadPart _ _ _ _ _ _) as [[nb out] sv]. done.
Qed.

(** The end of a run. *)
Lemma run_end n ws h : run_inv n (ws, h) ->
  (exists st', step (ws, h) st') \/ (Forall (fun w => sw_pc w = Sh_done) ws /\ forall x, 0 < sz x ->
     sl_object (sd_server h) (key x) = Some (content <$> seqZ 0 (sz x)) /\ upload_find (key x) (sd_store h) = None).
Proof.
  intros (wps & Hws & Hall & _ & _ & Hobj). cbn [fst snd] in *. subst ws.
  destruct (decide (Forall (fun wp => sw_pc wp.1 = Sh_done) wps)) as [Hdone|Hnot].
  - right. split; [by apply Forall_fmap|]. intros x Hx. specialize (Hobj x).
    assert (wps ≫= (fun wp => blocks_of x wp.2) = [] /\ wps ≫= (fun wp => in_flight x wp.1) = [] /\ wps ≫= (fun wp => at_loop x wp.1) = []) as (HP & HI & HL).
    { clear Hobj. induction wps as [|[w p] wps IH]; [done|]. apply Forall_cons in Hall as [(_ & _ & Hp) Hall]. apply Forall_cons in Hdone as [Hd Hdone].
      unfold pc_plan in Hp. cbn [fst snd] in *. rewrite Hd in Hp. subst p. rewrite !bind_cons. cbn [fst snd]. unfold in_flight at 1, at_loop at 1. rewrite Hd. by apply IH. }
    rewrite HP, HI, HL in Hobj. destruct Hobj as [Hf _ _ Ht|uid rep ps _ _ _ _ _ _ Hne|uid rep ps L' _ _ _ Hl|Hf _ _ _ Ho]; try done.
    + apply Permutation_nil_l in Ht. by apply (tile_nonempty 0) in Hx.
    + by apply Permutation_nil_cons in Hl.
  - left. apply not_Forall_Exists in Hnot; [|apply _]. apply Exists_exists in Hnot as ([w p] & Hin & Hne). cbn [fst] in Hne.
    rewrite Forall_forall in Hall. specialize (Hall _ Hin) as Hw. cbn [fst snd] in Hw.
    destruct (worker_moves w p h Hw Hne) as [[w' h'] Hact]. apply list_elem_of_lookup in Hin as [i Hi]. eexists. eapply (shared_step_worker _ _ _ _ _ _ i); [|exact Hact].
    rewrite list_lookup_fmap, Hi. done.
Qed.

Lemma run_bounded n st : run_inv n st -> forall m st', nsteps step m st st' -> (m <= n)%nat /\ exists n', run_inv n' st'.
Proof.
  intros Hinv m st' Hrun. revert n Hinv. induction Hrun as [st|m st1 st2 st3 Hs Hrun IH]; intros n Hinv; [split; [lia|by exists n]|].
  destruct (shared_step_inv _ _ _ Hinv Hs) as (n' & Hlt & Hinv'). destruct (IH _ Hinv'). split; [lia|done].
Qed.
End run.

(** ** Sequential and reverse access *)

Lemma drain_draws {R D G} `{!OffsetGenerator R D G} (f : G -> Z) fuel (g : G) (e : Env R D) ios res :
  (forall g e, getNextOffset g e = Some (f g, (g, e))) -> og_drain fuel g e = Some (ios, res) -> draws g e ios.
Proof.
  intros Hf. revert g e ios res. induction fuel as [|fuel IH]; intros g e ios res H; cbn [og_drain] in H;
    destruct (Z.eqb_spec (getNumBytesLeftToSubmit g) 0) as [Hl|Hl]; try (injection H as <- <-; by constructor); try done.
  rewrite Hf in H. cbn [mbind option_bind] in H. destruct (getNextBlockSizeToSubmit g e) as [[size e1]|] eqn:Hs; [|done]. cbn [mbind option_bind] in H.
  destruct (og_drain fuel _ e1) as [[ios1 res1]|] eqn:Hd; [|done]. injection H as <- <-. econstructor; [done|done|apply Hf|]. by eapply IH.
Qed.

Section any.
Context {R D : Type} `{!RandAlgo R, !RandAlgo D}.

Lemma any_draws_seq (g : OffsetGenSequential) (e : Env R D) ios : draws g e ios -> draws (GenSequential g) e ios.
Proof.
  induction 1 as [|g e size e1 off g2 e2 ios Hl Hs Ho Hd IH]; [by constructor|]. apply (draws_cons (GenSequential g) e size e1 off (GenSequential g2) e2); [done|done| |exact IH].
  cbn [getNextOffset any_generator]. by rewrite Ho.
Qed.

Lemma any_draws_rev (g : OffsetGenReverseSeq) (e : Env R D) ios : draws g e ios -> draws (GenReverseSeq g) e ios.
Proof.
  induction 1 as [|g e size e1 off g2 e2 ios Hl Hs Ho Hd IH]; [by constructor|]. apply (draws_cons (GenReverseSeq g) e size e1 off (GenReverseSeq g2) e2); [done|done| |exact IH].
  cbn [getNextOffset any_generator]. by rewrite Ho.
Qed.

(** Sequential and reverse generators with a single block size. *)
Definition plain_gen (bs : Z) (g : AnyGen) : Prop :=
  match g with
  | GenSequential g => isMix (seq_blockSizeMix g) = false /\ maxSize (seq_blockSizeMix g) = bs /\ seq_maxBlockSize g = bs
  | GenReverseSeq g => rev_blockSize g = bs
  | _ => False
  end.

#[export] Instance any_slice_draws : SliceDraws R D AnyGen.
Proof.
  refine (Build_SliceDraws R D AnyGen _ plain_gen _ _ _ _).
  - intros bs [g|g|g|g|g|g]; cbn; try done. by intros (_ & _ & ?).
  - intros bs [g|g|g|g|g|g] e off g' e' Hok; cbn; try done; by intros [= <- <- <-].
  - intros bs [g|g|g|g|g|g] n; cbn; done.
  - intros bs [g|g|g|g|g|g] e len off Hok Hbs Hlen Hoff Hsum; try done; cbn in Hok.
    + destruct Hok as (Hm & Hmax & Hbs'). destruct (reverse_is_reversed_sequential len off (seq_blockSizeMix g) e Hm) as (ios & g1 & g2 & Hd & _ & ->); try lia.
      exists (GenSequential (OffsetGenSequential_new len off (seq_blockSizeMix g))), e, (tile off len bs).
      split; [cbn; unfold wrap_fst; cbn; unfold OffsetGenSequential_new; by rewrite Hbs', Hmax|]. split; [done|]. rewrite Hmax in Hd. split; [|done].
      apply any_draws_seq. by eapply (drain_draws seq_currentOffset); [|exact Hd].
    + destruct (reverse_is_reversed_sequential len off (mix_finish [(bs, 1)]) e) as (ios & g1 & g2 & _ & Hd & ->); try (cbn; lia); try done.
      assert (maxSize (mix_finish [(bs, 1)]) = bs) as Hmx by (cbn; lia). rewrite Hmx in Hd.
      exists (GenReverseSeq (OffsetGenReverseSeq_new len off bs)), e, (reverse (tile off len bs)).
      split; [cbn; unfold wrap_fst; cbn; unfold OffsetGenReverseSeq_new; by rewrite <- Hok|]. split; [apply (rev_new_size (R := R) (D := D))|].
      split; [|by rewrite reverse_Permutation]. apply any_draws_rev. by eapply (drain_draws rev_currentOffset); [|exact Hd].
Defined.
End any.

(** ** Theorems *)

(** The size of an object; 0 for other names. *)
Fixpoint object_size (objects : list PathStoreElem) (x : string) : Z :=
  match objects with
  | [] => 0
  | o :: objects => if decide (path o = x) then totalLen o else object_size objects x
  end.

Lemma object_size_elem objects o : NoDup (path <$> objects) -> o ∈ objects -> object_size objects (path o) = totalLen o.
Proof.
  induction objects as [|o1 objects IH]; intros Hnd Hin; [by apply not_elem_of_nil in Hin|]. rewrite fmap_cons in Hnd. apply NoDup_cons in Hnd as [Hn Hnd].
  cbn. apply elem_of_cons in Hin as [->|Hin]; [by rewrite decide_True|]. rewrite decide_False; [by apply IH|]. intros Heq. apply Hn. rewrite Heq.
  apply list_elem_of_fmap. by exists o.
Qed.

Lemma object_size_other objects x : x ∉ (path <$> objects) -> object_size objects x = 0.
Proof.
  induction objects as [|o objects IH]; intros Hx; [done|]. rewrite fmap_cons in Hx. apply not_elem_of_cons in Hx as [H1 H2]. cbn.
  rewrite decide_False by done. by apply IH.
Qed.

Lemma tile_zero bs : 0 < bs -> tile 0 0 bs = [].
Proof. intros Hbs. destruct (tile_count_spec 0 bs) as (Hc & _); [lia..|]. unfold tile. by replace (tile_count 0 bs) with 0 by lia. Qed.

Lemma blocks_of_objects bs objects x : 0 < bs -> Forall whole_file objects -> NoDup (path <$> objects) ->
  blocks_of x (store_blocks bs objects) = tile 0 (object_size objects x) bs.
Proof.
  intros Hbs Hwf. induction Hwf as [|o objects (Ho & Hs & Hl) Hwf IH]; intros Hnd; [by rewrite tile_zero|]. rewrite fmap_cons in Hnd. apply NoDup_cons in Hnd as [Hn Hnd].
  rewrite store_blocks_cons, blocks_of_app, elem_blocks_with_path, blocks_of_with_path, (IH Hnd), Hs, Hl. cbn. case_decide as Hx; [|done].
  subst x. rewrite object_size_other by done. by rewrite tile_zero, app_nil_r.
Qed.

(** A worker at the start of the phase, with its list of elements of the objects. *)
Definition worker_ready {R D G} `{!OffsetGenerator R D G, !SliceDraws R D G} (bs : Z) (objects : list PathStoreElem) (w : SharedWorker R D G) : Prop :=
  sw_pc w = Sh_next /\ sd_ok bs (sw_gen w)
  /\ Forall (fun el => 0 < rangeLen el /\ 0 <= rangeStart el /\ rangeStart el + rangeLen el <= totalLen el
       /\ exists o, o ∈ objects /\ path o = path el /\ totalLen o = totalLen el) (sw_elems w).

Lemma run_inv_start {R D G Sv} `{!OffsetGenerator R D G, !SliceDraws R D G} (ops : S3Ops Sv) `{!S3Laws ops} content bucketName objectPrefix bs objects
    (ws : list (SharedWorker R D G)) sv log :
  0 < bs -> Forall whole_file objects -> NoDup (path <$> objects) -> Forall (fun o => totalLen o < 2 ^ 63) objects ->
  Forall (worker_ready bs objects) ws -> store_blocks bs (concat (sw_elems <$> ws)) ≡ₚ store_blocks bs objects ->
  run_inv ops content bucketName objectPrefix bs (object_size objects)
    (2 * length (store_blocks bs objects) + 3 * length (concat (sw_elems <$> ws)) + length ws) (ws, mkSharedData [] sv log).
Proof.
  intros Hbs Hwf Hnd Hmax Hws Hblocks. set (wps := (fun w => (w, store_blocks bs (sw_elems w))) <$> ws). exists wps. cbn [fst snd sd_store]. split; [|split; [|split; [|split]]].
  - unfold wps. rewrite <- list_fmap_compose. cbn. by rewrite list_fmap_id.
  - apply Forall_fmap. eapply Forall_impl; [exact Hws|]. intros w (Hpc & Hg & Hel). unfold compose. cbn [fst snd]. split; [done|].
    split; [|unfold pc_plan; by rewrite Hpc].
    eapply Forall_impl; [exact Hel|]. intros el (Hl & Ho & Hlen & o & Hin & Hp & Ht). rewrite Forall_forall in Hmax. specialize (Hmax _ Hin). cbn in Hmax.
    split_and!; try lia. rewrite <- Hp, <- Ht. symmetry. by apply object_size_elem.
  - constructor.
  - rewrite <- (Permutation_length Hblocks). unfold wps. clear -Hws. induction Hws as [|w ws (Hpc & _) Hws IH]; [done|].
    rewrite !fmap_cons. cbn [concat sum_list_with fst snd length]. rewrite store_blocks_app, !length_app, <- IH. unfold weight. rewrite Hpc. cbn [pc_weight]. lia.
  - intros x. apply object_new; [done|..].
    + unfold wps. clear -Hws. induction Hws as [|w ws (Hpc & _) Hws IH]; [done|]. rewrite fmap_cons, bind_cons. cbn [fst]. rewrite IH. unfold in_flight. by rewrite Hpc.
    + unfold wps. clear -Hws. induction Hws as [|w ws (Hpc & _) Hws IH]; [done|]. rewrite fmap_cons, bind_cons. cbn [fst]. rewrite IH. unfold at_loop. by rewrite Hpc.
    + rewrite <- blocks_of_objects by done. rewrite <- Hblocks. unfold wps. clear. induction ws as [|w ws IH]; [done|].
      rewrite !fmap_cons, bind_cons. cbn [fst snd concat]. by rewrite store_blocks_app, blocks_of_app, IH.
Qed.


(** ** Two workers *)

Lemma m3_parts_other k k' uid ps uid' l : k' <> k -> m3_parts ((k, uid, ps) :: l) k' uid' = m3_parts l k' uid'.
Proof. intros Hk. cbn [m3_parts]. by rewrite bool_decide_eq_false_2. Qed.

#[export] Instance mem_s3_frame : S3FrameLaws mem_s3_ops.
Proof.
  split; cbn [sl_parts sl_object mem_s3_laws s3_create s3_uploadPart s3_complete mem_s3_ops].
  - intros k k' sv uid Hk. split; [by apply m3_parts_other|done].
  - intros k k' uid num data sv uid' Hk. destruct (m3_parts (m3_uploads sv) k uid) as [ps|]; [|done]. destruct (_ && _); [|done].
    split; [by apply m3_parts_other|done].
  - intros k k' uid cl sv uid' Hk. destruct (m3_parts (m3_uploads sv) k uid) as [ps|]; [|done]. destruct (mapM _ _) as [datas|]; [|done]. destruct (_ && _); [|done].
    split; [done|]. cbn [snd m3_objects m3_object]. by rewrite decide_False.
Qed.

(** Two objects in blocks of 4 bytes, and the lists of two workers. *)
Definition demo_objects : list PathStoreElem := [mkElem "a" 10 0 10; mkElem "b" 7 0 7].

Definition demo_share (rank : Z) : list PathStoreElem :=
  match getWorkerSublistShared (mkStore 4 5 17 2 demo_objects) rank 2 false (mkStore 4 0 0 0 []) with Ok out => paths out | Throw _ => [] end.

Definition demo_uploader (g : AnyGen) (els : list PathStoreElem) : SharedWorker xoshiro_state xoshiro_state AnyGen :=
  mkSharedWorker g demo_env els Sh_next (mkShCounters 0 0 0 0 0).

Definition demo_seq : AnyGen := GenSequential (OffsetGenSequential_new 0 0 (mix_finish [(4, 1)])).
Definition demo_rev : AnyGen := GenReverseSeq (OffsetGenReverseSeq_new 0 0 4).

Definition demo_uploaders : list (SharedWorker xoshiro_state xoshiro_state AnyGen) := [demo_uploader demo_seq (demo_share 0); demo_uploader demo_rev (demo_share 1)].

Lemma demo_shares : demo_share 0 = [mkElem "a" 10 0 8] /\ demo_share 1 = [mkElem "a" 10 8 2; mkElem "b" 7 0 7].
Proof. by split; vm_compute. Qed.

Lemma demo_workers_ready : Forall (worker_ready 4 demo_objects) demo_uploaders.
Proof.
  unfold demo_uploaders. destruct demo_shares as [-> ->].
  assert (forall el, el ∈ [mkElem "a" 10 0 8; mkElem "a" 10 8 2; mkElem "b" 7 0 7] -> 0 < rangeLen el /\ 0 <= rangeStart el /\ rangeStart el + rangeLen el <= totalLen el
       /\ exists o, o ∈ demo_objects /\ path o = path el /\ totalLen o = totalLen el) as Hel.
  { intros el [->|[->|[->|[]%not_elem_of_nil]%elem_of_cons]%elem_of_cons]%elem_of_cons; cbn; (split; [lia|]; split; [lia|]; split; [lia|]);
      first [exists (mkElem "a" 10 0 10); split; [by left|done] | exists (mkElem "b" 7 0 7); split; [by right; left|done]]. }
  constructor; [|constructor; [|constructor]]; (split; [done|]; split; [done|]; apply Forall_forall; intros el Hin; apply Hel; cbn in Hin).
  - apply list_elem_of_singleton in Hin as ->. by left.
  - by right.
Qed.


(** A schedule: the indices of the workers that move. *)
Fixpoint shared_run {R D G Sv} `{!OffsetGenerator R D G} (action : SharedWorker R D G -> SharedData Sv -> option (SharedWorker R D G * SharedData Sv))
    (schedule : list nat) (st : list (SharedWorker R D G) * SharedData Sv) : option (list (SharedWorker R D G) * SharedData Sv) :=
  match schedule with
  | [] => Some st
  | i :: schedule =>
      w ← st.1 !! i;
      '(w', h') ← action w st.2;
      shared_run action schedule (<[i := w']> st.1, h')
  end.

Lemma shared_run_steps {R D G Sv} `{!OffsetGenerator R D G} (ops : S3Ops Sv) args block post_check bucketName objectPrefix schedule
    (st st' : list (SharedWorker R D G) * SharedData Sv) :
  shared_run (shared_action ops args block post_check bucketName objectPrefix) schedule st = Some st' ->
  rtc (shared_step ops args block post_check bucketName objectPrefix) st st'.
Proof.
  revert st. induction schedule as [|i schedule IH]; intros [ws h] Hrun; cbn [shared_run fst snd] in Hrun; [injection Hrun as ->; done|].
  destruct (ws !! i) as [w|] eqn:Hi; [|done]. cbn [mbind option_bind] in Hrun. destruct (shared_action _ _ _ _ _ _ w h) as [[w' h']|] eqn:Ha; [|done].
  eapply rtc_l; [by econstructor|]. by apply IH.
Qed.

(** The second worker fails and cleans up, then the first one runs. *)
Definition demo_run : option (list (SharedWorker xoshiro_state xoshiro_state AnyGen) * SharedData mem_s3) :=
  shared_run (shared_action refusing_s3_ops (demo_s3_args false false 0) (block_of (Z.mul 2)) (fun _ _ => Ok tt) "bucket" "")
    [1; 1; 1; 1; 1; 0; 0; 0; 0; 0; 0; 0; 0]%nat (demo_uploaders, mkSharedData [] (mkMemS3 [] []) []).

Lemma is_some_that {A} (P : A -> Prop) (r : option A) : match r with Some a => P a | None => False end -> exists a, r = Some a /\ P a.
Proof. destruct r as [a|]; intros H; [by exists a|done]. Qed.

Lemma demo_run_end : exists st, demo_run = Some st
  /\ (sw_pc <$> st.1) = [Sh_done; Sh_failed (WorkerException "Shared multipart part upload failed. ")]
  /\ sd_log st.2 = [(OpCreate, "0", true); (OpUploadPart 3, "0", false); (OpAbort, "0", true);
                    (OpCreate, "1", true); (OpUploadPart 1, "1", true); (OpUploadPart 2, "1", true)].
Proof. apply is_some_that. vm_compute. split; reflexivity. Qed.

(** After an error the worker aborts all uploads of the store.  A worker that comes to an object later
    creates a new upload for it, which nobody aborts when this worker ends without an error: the run
    below ends with an upload that was created, never completed and never aborted. *)
Lemma aborted_upload_recreated : exists ws h,
  rtc (shared_step refusing_s3_ops (demo_s3_args false false 0) (block_of (Z.mul 2)) (fun _ _ => Ok tt) "bucket" "")
    (demo_uploaders, mkSharedData [] (mkMemS3 [] []) []) (ws, h)
  /\ (sw_pc <$> ws) = [Sh_done; Sh_failed (WorkerException "Shared multipart part upload failed. ")]
  /\ sd_log h = [(OpCreate, "0", true); (OpUploadPart 3, "0", false); (OpAbort, "0", true);
                 (OpCreate, "1", true); (OpUploadPart 1, "1", true); (OpUploadPart 2, "1", true)].
Proof.
  destruct demo_run_end as ([ws h] & E & Hws & Hlog). exists ws, h. split; [|by split]. exact (shared_run_steps _ _ _ _ _ _ _ _ _ E).
Qed.

(** The cleanup of a worker empties the store, with one abort for each upload. *)
Lemma shared_cleanup_aborts {R D G Sv} (ops : S3Ops Sv) ex (w : SharedWorker R D G) : forall m sv log,
  Forall (fun e => up_uploadID e.2 <> "") m ->
  exists sv' results, length results = length m
    /\ Nat.iter (S (length m)) (fun wh => shared_cleanup ops ex wh.1 wh.2) (w, mkSharedData m sv log)
       = (set_sw_pc (Sh_failed ex) w, mkSharedData [] sv' (log ++ zip_with (fun e b => (OpAbort, up_uploadID e.2, b)) m results)).
Proof.
  induction m as [|[k e] m IH]; intros sv log Hall; [exists sv, []; split; [done|]; cbn; by rewrite app_nil_r|].
  apply Forall_cons in Hall as [Hu Hall]. cbn [snd] in Hu. destruct (s3_abort ops k (up_uploadID e) sv) as [b sv1] eqn:Hab.
  destruct (IH sv1 (log ++ [(OpAbort, up_uploadID e, b)]) Hall) as (sv' & results & Hlen & Hiter). exists sv', (b :: results). split; [cbn; by rewrite Hlen|].
  cbn [length]. rewrite Nat.iter_succ_r. cbn [fst snd]. unfold shared_cleanup at 2. cbn [sd_store sd_server sd_log getNextUnfinishedUpload].
  rewrite (proj2 (String.eqb_neq _ _) Hu), Hab. rewrite Hiter. cbn [zip_with snd]. by rewrite <- app_assoc.
Qed.
